(* ===== verification/_CoqProject ===== *)
-Q . S2P
Prelude.v
GoLib.v
Prefilter.v
PrefilterSafe.v
Crypto.v
Naming.v
GoPath.v
GoUrl.v
GoTime.v
GoJson.v
GoText.v
StateDoc.v
Vocab.v
Store.v
Ticket.v
TicketSafe.v
ControlPlane.v
Spec.v
Upload.v
VendPort.v
VendSafe.v
Manifest.v
FilePrep.v
Pool.v
Derived.v
PoolInv.v
PoolSafe.v
PoolProps.v
PoolRun.v
Run.v
RunSafe.v
Schedule.v
Deny.v
Exemptions.v
Heuristic.v
Spans.v
Redact.v
SpansSafe.v
EscapeSafe.v
RedactSafe.v
JsonText.v
Walk.v
WalkSafe.v
ScrubSafe.v
Config.v
ConfigSafe.v
Targets.v
Remote.v
RemoteSafe.v
ConfigSample.v
Shipped.v
FleetStore.v
FleetToken.v
FleetEnroll.v
FleetLogic.v
FleetEnrollSafe.v
FleetProps.v
FleetSeen.v
FleetIssue.v
FleetIssueSafe.v
FleetShipper.v
FleetServer.v
FleetServerSafe.v
FleetTags.v
CursorJoin.v
CursorSafe.v
CursorProps.v
Pii.v
PiiSafe.v
Rules.v
RulesSafe.v
SourceFiles.v
RepoFilter.v
Discover.v
Sessions.v
Sealing.v
Unseal.v
UnsealSafe.v
UnsealRun.v
Judge.v
