(* ===== verification/Prelude.v ===== *)
(** * Quesma Shipper: a verification development

    The shipper (Go, under [src/src]) watches the transcripts AI coding agents leave on a machine. On
    every tick it resolves its configuration, discovers what changed per source, redacts it, seals it to
    the owner's recipients and uploads it under tickets a fleet manager (Go, under [src/fleet-manager])
    issues, committing a fingerprint per object. A custodian opens the archive with a tool of its own.
    This library models that path, from the configuration to the object read back, as definitions that
    compute, and proves what each part promises to the next.

    ** Parts

    - The language and its library. [GoLib] (bytes, [strings], errors), [GoText] (white space, stable
      sort, encoder text), [GoPath] ([path/filepath]), [Crypto] (SHA-256, HMAC, FNV), [GoUrl] ([net/url],
      [net/netip]), [GoTime] ([time]), [GoJson] ([encoding/json] as it is written), [JsonText] ([encoding/json/jsontext]:
      tokens, quoting, the grammar of RFC 8259).
    - Names and state. [Naming] ([formats/naming.go]: canonical paths, keys below one install's prefix);
      [Vocab] ([formats/model.go]); [StateDoc] and [Store] ([engine/state.go], [commitbuffer.go]: the
      fingerprint document, its digest, the locked store, batched commits); [Schedule] (durations in
      binary64).
    - The upload boundary. [Ticket], [TicketSafe] ([upload/ticket.go], [target.go]: local validation of a
      presigned ticket); [ControlPlane] ([controlplane/revocation.go], [backend.go], [uploads.go]);
      [Upload] ([engine/upload.go]: the port as the class [UploadPort], groups, one reauthorization);
      [VendPort], [VendSafe] ([app/vendupload.go]: the port implemented over plane, tickets and store).
    - Discovery ([sources/]). [SourceFiles] (reading, bounds, shape checks), [Discover] (the walk, deny
      and ignore checks, identities), [Sessions] (databases of sessions), [RepoFilter] (repositories,
      markers, git directories, remotes), over [Deny] (roots, deny list, served excludes).
    - One file. [Spec] (what discovery hands over), [Manifest] (the manifest and [Seal], with the classes
      [Scrubber] and [Container]), [FilePrep] ([engine/file.go]: change, read, scrub, seal, back off).
    - Redaction ([transforms/]). [Prefilter] (the keyword automaton), [Pii] and [Rules] (the compiled
      rules, the scanners that stand for patterns), [Heuristic] (the entropy backstop), [Spans]
      (sentinels, exemptions, overlaps, key names, drops), [Redact] (the plan of one value: patterns,
      escapes, base64, the user's name), [Walk] (the token walk over JSON lines and [Scrub] over a
      payload), [Exemptions]; [Shipped] puts that engine in the place of [Manifest.Scrubber].
    - One pass and one run. [Pool] ([engine/pool.go]: a source's workers as a step relation over every
      interleaving), [Derived] ([engine/derived.go]), [CursorJoin] (the transcript join, an enricher),
      [Run] ([engine/engine.go]: one flush over every source), [Judge] ([app/judge.go], [engine/health.go],
      [app/telemetry.go]: the verdict on a run, the failure record in memory and on disk, the heartbeat
      and the fault report that carry it).
    - Configuration. [Config] (layers and [Resolve]), [Targets] (allowlist to uploader), [Remote] (the
      served layer, its cache, the configuration in force).
    - The fleet manager. [FleetStore] (records under conditional writes), [FleetToken], [FleetEnroll]
      (enrollment and revocation as programs that interleave), [FleetLogic] (a rely-guarantee logic for
      them), [FleetSeen], [FleetIssue] (upload authorization), [FleetServer] (signed requests),
      [FleetTags] (names, metadata, health); [FleetShipper] sets its protocol against the shipper's.
    - The archive. [Sealing] ([transforms/seal.go], [manifest.go]: the container, written and opened; it
      implements [Container]); [Unseal] ([cmd/quesma-unseal]: the custodian's tool over an output
      directory whose operations may fail).

    A file [XSafe] (or [XInv], [XProps]) holds the theorems of [X]; where there is none they are in [X],
    behind its definitions. Modules [Sample...] and the files [PoolRun], [UnsealRun], [ConfigSample] run
    the definitions on concrete inputs and witness the theorems there.

    ** How the model corresponds to the code

    Operations keep the code's names; a fallible one answers [result E A], a panic is [None] (in [Unseal]
    it is [Panic]). A store, a disk, a plane and a run's ledger are passed explicitly; [Unseal] threads
    its state through a monad, the handlers of the fleet manager are programs over its store. Goroutines
    are the steps of [Pool.step]; requests at once are the steps of [FleetLogic]. Byte strings are
    [string]; integers are [Z], with the bounds written out where they matter; a Go map visited in no
    fixed order takes the order as an argument. What runs later runs on a later disk: a refresh of the
    roots takes its own [FileSystem] ([ConfigSafe]), a session is listed and loaded in moments of its own
    ([Sessions]), and every operation of [Unseal] and [Judge] may fail. Lower-casing of a host is that of
    ASCII ([GoLib.to_lower]); that of free text is [GoUnicode]'s. Loops with no structural measure take fuel from the data
    they consume: as many turns as bytes of a value or path ([Walk], [Redact], [Heuristic], [Pii],
    [Rules], [RepoFilter]), nodes of the automaton ([Prefilter]), backslashes of a value (the escape
    passes), candidates of a pass ([Pool]); that it is enough is part of the exactness theorems, or a
    theorem of its own ([WalkSafe.walkLine_total], [EscapeSafe.escapeShadow_settled],
    [PoolProps.pass_terminates]). The nesting bound of the walk (256) is the code's.

    What is not under [src/] is a parameter, with the laws the code relies on: the HTTP exchange and its
    codec ([PlaneNet]), the provider's store and signer ([Provider], [SignerNet]), Ed25519 and the device
    codec ([DeviceNet]), age, zstd and the manifest's codec ([Age], [ZstdFrames], [ManifestJson],
    [SealLaws]), the codec of the failure record ([FailureJson]), the file systems, the SQLite reader, globs, YAML, [math.Log2] ([MathLog2]), the Unicode
    case tables ([GoUnicode]) and Go's regular expressions ([RegexpEngine]; [Corpora] is what the
    redaction engine asks of a rule, and [Rules] implements it).

    ** What the theorems show

    - Durability: a successful run leaves nothing uncommitted and a preview writes nothing ([RunSafe]);
      only confirmed uploads are recorded, under every interleaving, and a pass decides every candidate,
      stays within its budgets, never gets stuck and ends ([PoolProps]); the document survives a
      round trip when its text is UTF-8 ([StateDoc]) and batched commits are a map ([Store]); what a
      heartbeat says of past failures is what was judged, whatever writings of it failed ([Judge]).
    - The boundary: a ticket is spent exactly when it is for the prepared object ([TicketSafe]);
      confirmations mean stored objects ([VendSafe]); a revocation is final ([ControlPlane]).
    - Discovery: the walk takes exactly the files the globs, the deny list and the markers let through
      ([Discover]), a session database is read only where its source declares it, checked anew at each use
      ([Sessions]), a repository is dropped
      by the nearest marker ([RepoFilter]).
    - Redaction: what a pattern finds is replaced, in range, counted exactly, escapes kept whole
      ([RedactSafe], [SpansSafe], [EscapeSafe]); the automaton, the hand-written scanners, the anchored
      sweep and the probing scan are exact ([PrefilterSafe], [PiiSafe], [RulesSafe], [Heuristic]); a JSON
      line stays a JSON line of the same tree ([WalkSafe]); a payload stays its lines ([ScrubSafe]); and
      that is what is sealed ([FilePrep], [Shipped]).
    - Enrichment: a conversation is joined whole or not at all, each bubble once ([CursorProps]).
    - Configuration: what resolves is well formed, a later refresh fills absent roots and moves none, and
      a served layer leaves alone or only lengthens what [ConfigSafe.confined] and [ConfigSafe.narrows]
      list ([ConfigSafe]); what is in force is the local layers with the document just fetched or the
      one cached ([RemoteSafe]); a pruned tree is denied ([Deny]).
    - The fleet: an invite nobody releases enrolls one install over every interleaving, lost answer and
      crash ([FleetProps]); a signature opens one endpoint ([FleetServerSafe]); authorizations stay below
      the caller's root ([FleetIssueSafe]), cover every request the shipper builds, and are refused by it
      for their URL or a malformed agent version only ([FleetShipper]).
    - The archive: what is sealed opens for each recipient ([Sealing]); the tool stays inside its
      output's install directories whatever it is given ([UnsealSafe]), reads back every object of a fresh
      run in which nothing fails (on the conditions [open_reads_back] lists), and reseals without touching
      a payload ([UnsealRun]).

    Where the code does not do what it means to, the theorem says what it does:
    [FleetProps.SampleEnroll.released_invite_enrolls_two], [UnsealRun.SampleUnseal.stale_payload_kept],
    [Judge.SampleJudge.other_writer_lost].

    ** Not modelled

    The fleet manager's admin routes, served catalog, telemetry proxy and cloud providers; the access to
    the agents' SQLite databases and the vendors' account APIs; the shipper's side of enrollment;
    the daemon's loop, what doctor and status print, the signed telemetry request; the audit log, the crash journal and writes of
    the platform layer; writing and removing a marker (Track and Untrack); Windows' paths and names; the
    command line, service packaging, terminal output and self-update. *)

From Stdlib Require Export ZArith Lia Ascii String.
From stdpp Require Export base tactics list option strings gmap fin_maps sorting.
Open Scope string_scope.
Open Scope list_scope.
Open Scope Z_scope.
#[export] Set Default Goal Selector "!".
#[global] Arguments String.append !_ _ / : simpl nomatch.

(** ** Results: the [(value, error)] pair of a Go function *)

Inductive result (E A : Type) : Type :=
  | Ok (a : A)
  | Err (e : E).
Arguments Ok {E A} a.
Arguments Err {E A} e.

Declare Scope go_scope.
Delimit Scope go_scope with go.
Open Scope go_scope.

Definition rbind {E A B : Type} (r : result E A) (f : A -> result E B) : result E B :=
  match r with Ok a => f a | Err e => Err e end.

Notation "'let!' x ':=' r 'in' k" := (rbind r (fun x => k))
  (at level 10, x name, r at level 100, k at level 200) : go_scope.

Definition is_ok {E A : Type} (r : result E A) : bool :=
  match r with Ok _ => true | Err _ => false end.

Lemma rbind_Ok {E A B : Type} (r : result E A) (f : A -> result E B) (b : B) :
  rbind r f = Ok b <-> exists a, r = Ok a /\ f a = Ok b.
Proof.
  destruct r; simpl; split; intros H; split_and?; eauto.
  - destruct H as (? & [= ->] & H). done.
  - done.
  - destruct H as (? & [=] & _).
Qed.

#[global] Instance result_eq_dec {E A} `{EqDecision E, EqDecision A} : EqDecision (result E A).
Proof. solve_decision. Defined.

(** ** Tactics *)

Create HintDb shipper.

(** Split every conjunction and existential of the context. *)
Ltac split_hyps :=
  repeat match goal with
    | H : exists _, _ |- _ => destruct H as [? H]
    | H : _ /\ _ |- _ => destruct H as [? H]
    end.

(** Take a monadic computation that returned [Ok] apart. *)
Ltac inv_ok :=
  repeat match goal with
    | H : rbind _ _ = Ok _ |- _ => apply rbind_Ok in H; destruct H as (? & ? & ?)
    | H : Ok _ = Ok _ |- _ => injection H; clear H; intros; subst
    | H : Err _ = Ok _ |- _ => discriminate H
    | H : Ok _ = Err _ |- _ => discriminate H
    | H : (if ?b then Err _ else _) = Ok _ |- _ => destruct b eqn:?; [discriminate H|]
    | H : (if ?b then _ else Err _) = Ok _ |- _ => destruct b eqn:?; [|discriminate H]
    end.

(** Destruct the scrutinee of the first [match] or [if] of a hypothesis, or of the goal. *)
Ltac case_in H :=
  match type of H with
  | context [match ?x with _ => _ end] => destruct x eqn:?
  end.
Ltac case_goal :=
  match goal with
  | |- context [match ?x with _ => _ end] => destruct x eqn:?
  end.

(** Turn boolean facts about [decide] and the integer tests into propositions. *)
Ltac boolp :=
  repeat match goal with
    | H : bool_decide _ = true |- _ => apply bool_decide_eq_true in H
    | H : bool_decide _ = false |- _ => apply bool_decide_eq_false in H
    | H : negb _ = false |- _ => apply negb_false_iff in H
    | H : negb _ = true |- _ => apply negb_true_iff in H
    | H : (_ || _)%bool = false |- _ => apply orb_false_iff in H as [? ?]
    | H : (_ && _)%bool = true |- _ => apply andb_true_iff in H as [? ?]
    | H : (_ <? _) = true |- _ => apply Z.ltb_lt in H
    | H : (_ <? _) = false |- _ => apply Z.ltb_ge in H
    | H : (_ <=? _) = true |- _ => apply Z.leb_le in H
    | H : (_ <=? _) = false |- _ => apply Z.leb_gt in H
    | H : (_ =? _) = true |- _ => apply Z.eqb_eq in H
    | H : (_ =? _) = false |- _ => apply Z.eqb_neq in H
    | H : (_ =? _)%string = true |- _ => apply String.eqb_eq in H
    | H : (_ =? _)%string = false |- _ => apply String.eqb_neq in H
    | H : Is_true _ |- _ => apply Is_true_true in H
    end.

(** ** Lists and sums the components share *)

Definition Zlen {A : Type} (l : list A) : Z := Z.of_nat (length l).

Definition Zsum (l : list Z) : Z := foldr Z.add 0 l.

Lemma Zsum_app l1 l2 : Zsum (l1 ++ l2) = Zsum l1 + Zsum l2.
Proof. induction l1; simpl; lia. Qed.

Lemma Zsum_nonneg l : Forall (fun x => 0 <= x) l -> 0 <= Zsum l.
Proof. induction 1; simpl; lia. Qed.

Lemma Zsum_perm l1 l2 : l1 ≡ₚ l2 -> Zsum l1 = Zsum l2.
Proof. induction 1; simpl; lia. Qed.

Lemma Zlen_nonneg {A} (l : list A) : 0 <= Zlen l.
Proof. unfold Zlen; lia. Qed.

Lemma Zlen_app {A} (l1 l2 : list A) : Zlen (l1 ++ l2) = Zlen l1 + Zlen l2.
Proof. unfold Zlen. rewrite length_app. lia. Qed.

Lemma Zlen_cons {A} (x : A) l : Zlen (x :: l) = 1 + Zlen l.
Proof. unfold Zlen. simpl. lia. Qed.

Lemma Zlen_nil {A} : Zlen (@nil A) = 0.
Proof. reflexivity. Qed.

#[export] Hint Rewrite @Zlen_app @Zlen_cons @Zlen_nil Zsum_app : shipper.
#[export] Hint Resolve Zlen_nonneg Zsum_nonneg : shipper.

(** [map] with the position of each element, as [for i, x := range l] walks it. *)
Definition mapi {A B : Type} (f : nat -> A -> B) (l : list A) : list B := imap f l.

(** ** Machine integers *)

(** Two's complement reduction to the signed [w]-bit range. *)
Definition wrap_signed (w : Z) (z : Z) : Z :=
  let half := 2 ^ (w - 1) in (z + half) mod (2 * half) - half.
Definition int64 (z : Z) : Z := wrap_signed 64 z.
Definition uint64 (z : Z) : Z := z mod 2 ^ 64.

Lemma int64_id z : - 2 ^ 63 <= z < 2 ^ 63 -> int64 z = z.
Proof. intros H. unfold int64, wrap_signed. rewrite Z.mod_small; lia. Qed.

Lemma uint64_range z : 0 <= uint64 z < 2 ^ 64.
Proof. apply Z.mod_pos_bound. lia. Qed.

#[export] Hint Resolve uint64_range : shipper.
