(* ===== verification/GoLib.v ===== *)
(** The parts of Go and of its standard library that several components use: byte strings, the [strings]
    functions and [cmp.Or], executable. A Go string is a [string] of 8-bit [ascii] bytes. *)

From S2P Require Import Prelude.

(** ** Bytes *)

Definition byte_code (c : ascii) : Z := Z.of_N (N_of_ascii c).
Definition byte_of (z : Z) : ascii := ascii_of_N (Z.to_N z).

Lemma byte_code_range c : 0 <= byte_code c < 256.
Proof.
  unfold byte_code. pose proof (N_ascii_bounded c). lia.
Qed.

Lemma byte_of_code c : byte_of (byte_code c) = c.
Proof. unfold byte_of, byte_code. rewrite N2Z.id. apply ascii_N_embedding. Qed.

Lemma byte_code_of z : 0 <= z < 256 -> byte_code (byte_of z) = z.
Proof.
  intros H. unfold byte_of, byte_code. rewrite N_ascii_embedding; lia.
Qed.

Definition in_range (lo hi : ascii) (c : ascii) : bool :=
  (byte_code lo <=? byte_code c) && (byte_code c <=? byte_code hi).

Definition is_digit (c : ascii) : bool := in_range "0" "9" c.
Definition is_lower (c : ascii) : bool := in_range "a" "z" c.
Definition is_upper (c : ascii) : bool := in_range "A" "Z" c.

(** A statement about every byte is decided by the 256 cases. *)
Definition all_bytes (f : ascii -> bool) : bool :=
  forallb (fun n => f (byte_of (Z.of_nat n))) (seq 0 256).

Lemma all_bytes_spec f : all_bytes f = true -> forall c, f c = true.
Proof.
  unfold all_bytes. rewrite forallb_forall. intros H c.
  specialize (H (Z.to_nat (byte_code c))).
  pose proof (byte_code_range c) as Hr.
  rewrite Z2Nat.id in H by lia. rewrite byte_of_code in H. apply H.
  apply in_seq. lia.
Qed.

(** ** Strings as lists of bytes *)

Fixpoint str_rev_app (s acc : string) : string :=
  match s with "" => acc | String c r => str_rev_app r (String c acc) end.
Definition str_rev (s : string) : string := str_rev_app s "".
#[global] Arguments str_rev : simpl never.

Fixpoint str_forallb (f : ascii -> bool) (s : string) : bool :=
  match s with "" => true | String c r => f c && str_forallb f r end.

Definition str_existsb (f : ascii -> bool) (s : string) : bool :=
  negb (str_forallb (fun c => negb (f c)) s).

Fixpoint str_map (f : ascii -> ascii) (s : string) : string :=
  match s with "" => "" | String c r => String (f c) (str_map f r) end.

Fixpoint str_flat_map (f : ascii -> string) (s : string) : string :=
  match s with "" => "" | String c r => f c +:+ str_flat_map f r end.

Definition slen (s : string) : Z := Z.of_nat (String.length s).

Fixpoint str_drop (n : nat) (s : string) : string :=
  match n, s with
  | O, _ => s
  | S n, String _ r => str_drop n r
  | S _, "" => ""
  end.
Fixpoint str_take (n : nat) (s : string) : string :=
  match n, s with
  | S n, String c r => String c (str_take n r)
  | _, _ => ""
  end.

(** [strings.HasPrefix], [HasSuffix], [TrimPrefix], [TrimSuffix], [CutSuffix]. *)
Fixpoint has_prefix (p s : string) : bool :=
  match p, s with
  | "", _ => true
  | String a p, String b s => (a =? b)%char && has_prefix p s
  | String _ _, "" => false
  end.

Definition trim_prefix (p s : string) : string :=
  if has_prefix p s then str_drop (String.length p) s else s.

Definition has_suffix (p s : string) : bool := has_prefix (str_rev p) (str_rev s).

Definition cut_suffix (p s : string) : option string :=
  if has_suffix p s then Some (str_rev (str_drop (String.length p) (str_rev s))) else None.

Definition trim_suffix (p s : string) : string := default s (cut_suffix p s).

(** [strings.Contains]. *)
Fixpoint str_contains (p s : string) : bool :=
  has_prefix p s ||
  match s with "" => false | String _ r => str_contains p r end.

(** [strings.Split] on a one-byte separator and [strings.Join]. *)
Fixpoint split_on (sep : ascii) (s : string) : list string :=
  match s with
  | "" => [""]
  | String c r =>
      if (c =? sep)%char then "" :: split_on sep r
      else match split_on sep r with
           | [] => [String c ""]
           | h :: t => String c h :: t
           end
  end.

Definition join (sep : string) (l : list string) : string := String.concat sep l.

(** [strings.ReplaceAll] of one byte, [strings.Count] of one byte, and [strings.ToLower] byte by byte.
    The last is exact on ASCII text: URL schemes, percent-encoded paths, UUIDs, digests and provider
    header names, and a host as DNS has it. In a host, metadata name or id written with letters from
    outside ASCII, Go lower-cases those too and this does not; where the source lowers free text
    (key names, file paths, hostnames) the model uses a function that knows Unicode instead. *)
Definition replace_byte (a b : ascii) (s : string) : string :=
  str_map (fun c => if (c =? a)%char then b else c) s.

Fixpoint count_byte (a : ascii) (s : string) : Z :=
  match s with "" => 0 | String c r => (if (c =? a)%char then 1 else 0) + count_byte a r end.

Definition to_lower_byte (c : ascii) : ascii :=
  if is_upper c then byte_of (byte_code c + 32) else c.
Definition to_lower (s : string) : string := str_map to_lower_byte s.

(** ASCII white space. *)
Definition is_space (c : ascii) : bool := in_range "009" "013" c || (c =? " ")%char.

(** [cmp.Or] on strings. *)
Definition str_or (a b : string) : string := if (a =? "")%string then b else a.

(** [strings.Compare], byte-wise. *)
Definition str_ltb (a b : string) : bool :=
  match String.compare a b with Lt => true | _ => false end.
Definition str_leb (a b : string) : bool :=
  match String.compare a b with Gt => false | _ => true end.

(** ** Facts about strings *)

Lemma str_leb_total a b : str_leb a b = true \/ str_leb b a = true.
Proof.
  unfold str_leb. rewrite (String.compare_antisym b a).
  destruct (String.compare a b); cbn; [by left|by left|by right].
Qed.

Lemma compare_cons c d r s :
  String.compare (String c r) (String d s) =
  match (byte_code c ?= byte_code d)%Z with Eq => String.compare r s | o => o end.
Proof. cbn. unfold Ascii.compare, byte_code. by rewrite N2Z.inj_compare. Qed.

Lemma str_leb_cons c d r s : str_leb (String c r) (String d s) = true <->
  byte_code c < byte_code d \/ (byte_code c = byte_code d /\ str_leb r s = true).
Proof.
  unfold str_leb at 1. rewrite compare_cons. destruct (Z.compare_spec (byte_code c) (byte_code d)) as [E|E|E]; cbn.
  - fold (str_leb r s). split; [by right|]. intros [?|[_ ?]]; [lia|done].
  - split; [by left|done].
  - split; [done|lia].
Qed.

Lemma str_leb_trans a b c : str_leb a b = true -> str_leb b c = true -> str_leb a c = true.
Proof.
  revert b c. induction a as [|x a IH]; intros [|y b] [|z c]; try done.
  rewrite !str_leb_cons. intros [?|[? ?]] [?|[? ?]]; try (left; lia). right. split; [lia|by eapply IH].
Qed.

Lemma str_leb_antisym a b : str_leb a b = true -> str_leb b a = true -> a = b.
Proof.
  unfold str_leb. rewrite (String.compare_antisym b a). intros H1 H2.
  destruct (String.compare a b) eqn:E; [by apply String.compare_eq_iff in E|done|done].
Qed.

Lemma str_ltb_leb a b : str_ltb a b = negb (str_leb b a).
Proof. unfold str_ltb, str_leb. rewrite (String.compare_antisym a b). by destruct (String.compare b a). Qed.

Lemma string_app_nil_r (s : string) : s +:+ "" = s.
Proof. induction s; simpl; congruence. Qed.

Lemma string_app_assoc (a b c : string) : (a +:+ b) +:+ c = a +:+ (b +:+ c).
Proof. induction a; simpl; congruence. Qed.

Lemma slen_app a b : slen (a +:+ b) = slen a + slen b.
Proof. unfold slen. induction a; simpl in *; lia. Qed.

Lemma slen_nonneg s : 0 <= slen s.
Proof. unfold slen. lia. Qed.

Lemma has_prefix_spec p s : has_prefix p s = true <-> exists r, s = p +:+ r.
Proof.
  revert s; induction p as [|a p IH]; intros s; simpl.
  - split; eauto.
  - destruct s as [|b s]; simpl.
    + split; [done|]. intros [r Hr]. discriminate.
    + rewrite andb_true_iff, Ascii.eqb_eq, IH. split.
      * intros [-> [r ->]]. by exists r.
      * intros [r [= -> ->]]. eauto.
Qed.

Lemma str_drop_app p r : str_drop (String.length p) (p +:+ r) = r.
Proof. induction p; simpl; auto. Qed.

Lemma str_rev_app_spec s acc : str_rev_app s acc = str_rev s +:+ acc.
Proof.
  unfold str_rev. revert acc; induction s as [|c s IH]; intros acc; simpl; [done|].
  rewrite IH, (IH (String c "")), string_app_assoc. done.
Qed.

Lemma str_rev_cons c s : str_rev (String c s) = str_rev s +:+ String c "".
Proof. unfold str_rev at 1. simpl. apply str_rev_app_spec. Qed.

Lemma str_rev_append a b : str_rev (a +:+ b) = str_rev b +:+ str_rev a.
Proof.
  induction a as [|c a IH]; simpl.
  - by rewrite string_app_nil_r.
  - by rewrite !str_rev_cons, IH, string_app_assoc.
Qed.

Lemma str_rev_involutive s : str_rev (str_rev s) = s.
Proof.
  induction s as [|c s IH]; [done|].
  by rewrite str_rev_cons, str_rev_append, IH.
Qed.

Lemma str_rev_length s : String.length (str_rev s) = String.length s.
Proof.
  induction s as [|c s IH]; [done|].
  rewrite str_rev_cons. pose proof (slen_app (str_rev s) (String c "")) as H.
  unfold slen in H. simpl in *. lia.
Qed.

Lemma cut_suffix_spec p s r : cut_suffix p s = Some r <-> s = r +:+ p.
Proof.
  unfold cut_suffix, has_suffix. split.
  - case_match eqn:H; [|done]. intros [= <-].
    apply has_prefix_spec in H as [x Hx].
    rewrite Hx. rewrite <- (str_rev_length p), str_drop_app.
    rewrite <- (str_rev_involutive s), Hx, str_rev_append, str_rev_involutive. done.
  - intros ->. rewrite str_rev_append.
    assert (has_prefix (str_rev p) (str_rev p +:+ str_rev r) = true) as ->
      by (apply has_prefix_spec; eauto).
    by rewrite <- (str_rev_length p), str_drop_app, str_rev_involutive.
Qed.

Lemma split_on_nonempty sep s : split_on sep s <> [].
Proof.
  destruct s as [|c r]; simpl; [done|]. destruct (_ =? _)%char; [done|].
  by destruct (split_on sep r).
Qed.

Lemma join_cons sep a l : l <> [] -> join sep (a :: l) = a +:+ sep +:+ join sep l.
Proof. destruct l; [done|]. done. Qed.

(** Splitting then joining gives the string back. *)
Lemma join_split sep s : join (String sep "") (split_on sep s) = s.
Proof.
  induction s as [|c r IH]; [done|]. simpl.
  pose proof (split_on_nonempty sep r) as Hne.
  destruct (c =? sep)%char eqn:E.
  - apply Ascii.eqb_eq in E as ->. rewrite join_cons by done. simpl. by rewrite IH.
  - destruct (split_on sep r) as [|h t] eqn:Er; [done|].
    destruct t as [|h' t].
    + simpl in *. by rewrite IH.
    + rewrite join_cons in * by done. simpl in *. by rewrite IH.
Qed.

Definition no_byte (sep : ascii) (s : string) : bool :=
  str_forallb (fun c => negb (c =? sep)%char) s.

Lemma split_on_app_sep sep a b :
  no_byte sep a = true -> split_on sep (a +:+ String sep b) = a :: split_on sep b.
Proof.
  induction a as [|c a IH]; simpl.
  - by rewrite Ascii.eqb_refl.
  - intros [Hc Ha]%andb_true_iff. apply negb_true_iff in Hc. rewrite Hc, IH by done. done.
Qed.

Lemma split_on_no_sep sep a : no_byte sep a = true -> split_on sep a = [a].
Proof.
  induction a as [|c a IH]; simpl; [done|].
  intros [Hc Ha]%andb_true_iff. apply negb_true_iff in Hc. by rewrite Hc, IH.
Qed.

(** Joining segments free of the separator, then splitting, gives the segments back. *)
Lemma split_join sep l :
  l <> [] -> Forall (fun s => no_byte sep s = true) l ->
  split_on sep (join (String sep "") l) = l.
Proof.
  intros Hne Hl. induction Hl as [|a l Ha Hl IH]; [done|].
  destruct l as [|b l].
  - simpl. by apply split_on_no_sep.
  - rewrite join_cons by done. simpl app.
    change (String sep "" +:+ join (String sep "") (b :: l))
      with (String sep (join (String sep "") (b :: l))).
    rewrite split_on_app_sep by done. by rewrite IH.
Qed.

Lemma split_on_segments sep s : Forall (fun x => no_byte sep x = true) (split_on sep s).
Proof.
  induction s as [|c r IH]; simpl; [by repeat constructor|].
  destruct (c =? sep)%char eqn:E; [by constructor|].
  destruct (split_on sep r) as [|h t].
  - apply Forall_singleton. unfold no_byte. simpl. by rewrite E.
  - apply Forall_cons in IH as [? ?]. constructor; [|done].
    unfold no_byte in *. simpl. by rewrite E.
Qed.

Lemma str_forallb_app f a b : str_forallb f (a +:+ b) = str_forallb f a && str_forallb f b.
Proof. induction a; simpl; [done|]. by rewrite IHa, andb_assoc. Qed.
Lemma length_str_drop k t : String.length (str_drop k t) = (String.length t - k)%nat.
Proof. revert t. induction k as [|k IH]; intros t; [cbn; lia|]. destruct t; cbn; [done|apply IH]. Qed.
Lemma length_str_take k t : (k <= String.length t)%nat -> String.length (str_take k t) = k.
Proof.
  revert t. induction k as [|k IH]; intros t Hk; [done|]. destruct t; cbn in *; [lia|]. f_equal. apply IH. lia.
Qed.
Lemma str_take_drop k t : t = str_take k t +:+ str_drop k t.
Proof. revert t. induction k as [|k IH]; intros [|c t]; cbn; [done|done|done|]. by rewrite <- IH. Qed.
Lemma no_byte_app sep a b : no_byte sep (a +:+ b) = no_byte sep a && no_byte sep b.
Proof. apply str_forallb_app. Qed.
Lemma no_byte_take sep k t : no_byte sep t = true -> no_byte sep (str_take k t) = true.
Proof.
  unfold no_byte. revert t. induction k as [|k IH]; intros t H; [done|]. destruct t as [|c t]; [done|].
  cbn in *. apply andb_true_iff in H as [-> H]. by apply IH.
Qed.
Lemma no_byte_drop sep k t : no_byte sep t = true -> no_byte sep (str_drop k t) = true.
Proof.
  unfold no_byte. revert t. induction k as [|k IH]; intros t H; [done|]. destruct t as [|c t]; [done|].
  cbn in *. apply andb_true_iff in H as [_ H]. by apply IH.
Qed.

Lemma str_forallb_impl (f g : ascii -> bool) s :
  (forall c, f c = true -> g c = true) -> str_forallb f s = true -> str_forallb g s = true.
Proof.
  intros H. induction s as [|c s IH]; simpl; [done|].
  rewrite !andb_true_iff. naive_solver.
Qed.

#[export] Hint Rewrite string_app_nil_r string_app_assoc str_forallb_app slen_app : shipper.

Lemma length_list_ascii s : length (list_ascii_of_string s) = String.length s.
Proof. induction s as [|c s IH]; cbn; congruence. Qed.
Lemma length_of_list_ascii l : String.length (string_of_list_ascii l) = length l.
Proof. induction l as [|c l IH]; cbn; congruence. Qed.
Lemma str_existsb_cons f c s : str_existsb f (String c s) = f c || str_existsb f s.
Proof. unfold str_existsb. cbn. by rewrite negb_andb, negb_involutive. Qed.
