(* ===== verification/Prefilter.v ===== *)
(** The keyword prefilter of the redaction rules: [src/internal/transforms/packs/prefilter.go], an
    Aho-Corasick automaton over the rules' keywords, built and run the way the source builds and
    runs it. That a gate fires exactly when one of its keywords occurs is proved in [PrefilterSafe].

    A table index that is -1 in the source is [None]. An index out of a table's range cannot occur
    ([PrefilterSafe] keeps them in range); reading there gives the table's zero. *)

From S2P Require Import Prelude GoLib.

(** ** Gates *)

(** The fixed array of four 64-bit words of a [Seen], read as one integer: bit [g] is bit
    [g & 63] of word [g >> 6]. *)
Notation Seen := Z (only parsing).
Notation Gate := Z (only parsing).

Definition AlwaysGate : Gate := -1.
Definition maxGates : Z := 256.

Definition Has (s : Seen) (g : Gate) : bool := if g <? 0 then true else Z.testbit s g.
Definition seen_or (s o : Seen) : Seen := Z.lor s o.
Definition seen_set (s : Seen) (g : Gate) : Seen := Z.lor s (Z.shiftl 1 g).

(** ** The builder *)

Record gatedKeyword := mkGated { folded : string; kw_gate : Gate }.
Record PrefilterBuilder := mkPrefilterBuilder { keywords : list gatedKeyword; gates : Z }.

Definition NewPrefilterBuilder : PrefilterBuilder := mkPrefilterBuilder [] 0.

Inductive prefilter_error := TooManyGates | EmptyKeyword | KeywordNotASCII (k : string).

Definition asciiLower (c : ascii) : ascii := to_lower_byte c.

Definition RuneSelf : Z := 128.

Definition foldKeyword (k : string) : result prefilter_error string :=
  if str_existsb (fun c => RuneSelf <=? byte_code c) k then Err (KeywordNotASCII k)
  else Ok (str_map asciiLower k).

Fixpoint fold_keywords (g : Gate) (ks : list string) : result prefilter_error (list gatedKeyword) :=
  match ks with
  | [] => Ok []
  | k :: r =>
      if (k =? "")%string then Err EmptyKeyword
      else
        let! f := foldKeyword k in
        let! r := fold_keywords g r in
        Ok (mkGated f g :: r)
  end.

Definition AddKeywords (ks : list string) (b : PrefilterBuilder)
    : result prefilter_error (Gate * PrefilterBuilder) :=
  if bool_decide (ks = []) then Ok (AlwaysGate, b)
  else if maxGates <=? gates b then Err TooManyGates
  else
    let g := gates b in
    let! l := fold_keywords g ks in
    Ok (g, mkPrefilterBuilder (keywords b ++ l) (g + 1)).

(** ** Build: the alphabet *)

Definition bytes_of (s : string) : list nat := map nat_of_ascii (list_ascii_of_string s).

(** The distinct bytes of the keywords get the columns 1, 2, ... in ascending order, every other
    byte column 0; then each upper-case letter takes its lower-case column. *)
Definition used (ks : list gatedKeyword) (c : nat) : bool :=
  existsb (fun k => existsb (Nat.eqb c) (bytes_of (folded k))) ks.

Definition add_column (ks : list gatedKeyword) (st : list nat * nat) (c : nat) : list nat * nat :=
  if used ks c then (<[c := st.2]> st.1, S st.2) else st.

Definition columns (ks : list gatedKeyword) : list nat * nat :=
  foldl (add_column ks) (replicate 256 0%nat, 1%nat) (seq 0 128).

Definition fold_case (classes : list nat) (c : nat) : list nat :=
  <[(c - 32)%nat := default 0%nat (classes !! c)]> classes.

Definition classes_of (ks : list gatedKeyword) : list nat :=
  foldl fold_case (columns ks).1 (seq 97 26).

(** ** Build: the trie *)

Record node := mkNode { nd_next : list (option nat); nd_out : Seen; nd_fail : nat }.

Definition newNode (width : nat) : node := mkNode (replicate width None) 0 0.

Definition next_of (nodes : list node) (u c : nat) : option nat :=
  match nodes !! u with Some n => default None (nd_next n !! c) | None => None end.
Definition out_of (nodes : list node) (u : nat) : Seen :=
  match nodes !! u with Some n => nd_out n | None => 0 end.
Definition fail_of (nodes : list node) (u : nat) : nat :=
  match nodes !! u with Some n => nd_fail n | None => 0%nat end.

Definition put_next (u c : nat) (v : option nat) (nodes : list node) : list node :=
  alter (fun n => mkNode (<[c := v]> (nd_next n)) (nd_out n) (nd_fail n)) u nodes.
Definition put_out (u : nat) (s : Seen) (nodes : list node) : list node :=
  alter (fun n => mkNode (nd_next n) s (nd_fail n)) u nodes.
Definition put_fail (u f : nat) (nodes : list node) : list node :=
  alter (fun n => mkNode (nd_next n) (nd_out n) f) u nodes.

(** One byte of a keyword, from node [cur]. *)
Definition trie_step (width : nat) (st : list node * nat) (c : nat) : list node * nat :=
  let '(nodes, cur) := st in
  match next_of nodes cur c with
  | Some v => (nodes, v)
  | None => (put_next cur c (Some (length nodes)) nodes ++ [newNode width], length nodes)
  end.

Definition trie_insert (width : nat) (class : nat -> nat) (nodes : list node) (k : gatedKeyword)
    : list node :=
  let '(nodes, cur) := foldl (trie_step width) (nodes, 0%nat) (map class (bytes_of (folded k))) in
  put_out cur (seen_set (out_of nodes cur) (kw_gate k)) nodes.

Definition trie (width : nat) (class : nat -> nat) (ks : list gatedKeyword) : list node :=
  foldl (trie_insert width class) [newNode width] ks.

(** ** Build: failure links, breadth first *)

Definition root_step (st : list node * list nat) (c : nat) : list node * list nat :=
  let '(nodes, queue) := st in
  match next_of nodes 0 c with
  | None => (put_next 0 c (Some 0%nat) nodes, queue)
  | Some child => (put_fail child 0 nodes, queue ++ [child])
  end.

Definition visit (u : nat) (st : list node * list nat) (c : nat) : list node * list nat :=
  let '(nodes, queue) := st in
  let via := next_of nodes (fail_of nodes u) c in
  match next_of nodes u c with
  | None => (put_next u c via nodes, queue)
  | Some child => (put_fail child (default 0%nat via) nodes, queue ++ [child])
  end.

Definition process (width u : nat) (st : list node * list nat) : list node * list nat :=
  let nodes := put_out u (seen_or (out_of st.1 u) (out_of st.1 (fail_of st.1 u))) st.1 in
  foldl (visit u) (nodes, st.2) (seq 0 width).

(** The queue grows while it is walked; it holds a node once, so as many turns as nodes reach its
    end. *)
Fixpoint bfs (fuel width i : nat) (st : list node * list nat) : list node * list nat :=
  match fuel with
  | O => st
  | S f =>
      match st.2 !! i with
      | None => st
      | Some u => bfs f width (S i) (process width u st)
      end
  end.

Definition automaton (width : nat) (class : nat -> nat) (ks : list gatedKeyword) : list node :=
  let nodes := trie width class ks in
  (bfs (S (length nodes)) width 0 (foldl root_step (nodes, []) (seq 0 width))).1.

(** ** Build: the tables *)

Definition hasOutput : Z := Z.shiftl 1 31.

Record Prefilter := mkPrefilter {
  p_classes : list nat;
  p_next : list Z;
  p_width : nat;
  outputs : list Seen
}.

Definition entry_of (nodes : list node) (target : option nat) : Z :=
  let t := default 0%nat target in
  if out_of nodes t =? 0 then Z.of_nat t else Z.lor (Z.of_nat t) hasOutput.

Definition Build (b : PrefilterBuilder) : Prefilter :=
  let width := (columns (keywords b)).2 in
  let classes := classes_of (keywords b) in
  let nodes := automaton width (fun c => default 0%nat (classes !! c)) (keywords b) in
  mkPrefilter classes (mjoin (map (fun n => map (entry_of nodes) (nd_next n)) nodes)) width
    (map nd_out nodes).

(** ** Scan *)

Definition scan_step (p : Prefilter) (st : Z * Seen) (c : ascii) : Z * Seen :=
  let entry := default 0 (p_next p !! (Z.to_nat st.1 * p_width p +
                                        default 0%nat (p_classes p !! nat_of_ascii c))%nat) in
  let state := Z.land entry (Z.lnot hasOutput) in
  (state, if Z.land entry hasOutput =? 0 then st.2
          else seen_or st.2 (default 0 (outputs p !! Z.to_nat state))).

Definition Scan (p : Prefilter) (value : string) : Seen :=
  (foldl (scan_step p) (0, 0) (list_ascii_of_string value)).2.

(** ** The rules as they are registered *)

(** One keyword set per rule, in order, as [New] of [scrub.go] registers them. *)
Fixpoint register (sets : list (list string)) (b : PrefilterBuilder)
    : result prefilter_error (list Gate * PrefilterBuilder) :=
  match sets with
  | [] => Ok ([], b)
  | ks :: r =>
      let! gb := AddKeywords ks b in
      let! r := register r gb.2 in
      Ok (gb.1 :: r.1, r.2)
  end.

(** What a gate is meant to say: one of the keywords occurs, up to the case of ASCII letters. *)
Definition fires (ks : list string) (value : string) : bool :=
  existsb (fun k => str_contains (str_map asciiLower k) (str_map asciiLower value)) ks.

Example sample_scan :
  match register [["AKIA"; "asia"]; ["ghp_"; "_token"]; []; ["ken"; "p_t"]] NewPrefilterBuilder with
  | Ok (gs, b) => map (fun v => map (Has (Scan (Build b) v)) gs)
                    ["x=akIA0"; "GH_TOKEN"; "ghp_t"; "plain"; "toKEN"]
  | Err _ => []
  end = [[true; false; true; false]; [false; true; true; true]; [false; true; true; true];
         [false; false; true; false]; [false; false; true; true]].
Proof. vm_compute. reflexivity. Qed.
