(* ===== verification/PrefilterSafe.v ===== *)
(** The keyword automaton of [Prefilter] is exact: a gate fires on a value exactly when one of its
    keywords occurs in it under the ASCII fold. The trie's nodes are its keywords' prefixes; after
    the breadth-first pass every transition leads to the longest suffix that is such a prefix. *)

From S2P Require Import Prelude GoLib Prefilter.

Lemma NoDup_omap_inj {A B} (f : A -> option B) (l : list A) :
  (forall x y b, f x = Some b -> f y = Some b -> x = y) -> NoDup l -> NoDup (omap f l).
Proof.
  intros Hf. induction 1 as [|x l Hx Hl IH]; cbn; [constructor|]. destruct (f x) as [b|] eqn:E; [|done].
  constructor; [|done]. intros Hb. apply list_elem_of_omap in Hb as (y & Hy & Hfy).
  by rewrite (Hf x y b E Hfy) in Hx.
Qed.

(** ** Longest suffixes among the paths of the trie *)

Section Lsuf.
Variable paths : list (list nat).
Hypothesis closed : forall p c, p ++ [c] ∈ paths -> p ∈ paths.

Definition is_lsuf (w s : list nat) : Prop :=
  s ∈ paths /\ s `suffix_of` w /\ forall t, t ∈ paths -> t `suffix_of` w -> (length t <= length s)%nat.

Lemma suffix_same_length (s t w : list nat) :
  s `suffix_of` w -> t `suffix_of` w -> length s = length t -> s = t.
Proof.
  intros Hs Ht Hl. destruct (suffix_weak_total s t w Hs Ht) as [H|H].
  - apply suffix_length_eq; [done|lia].
  - symmetry. apply suffix_length_eq; [done|lia].
Qed.

Lemma suffix_shorter (s t w : list nat) :
  s `suffix_of` w -> t `suffix_of` w -> (length s <= length t)%nat -> s `suffix_of` t.
Proof.
  intros Hs Ht Hl. destruct (suffix_weak_total s t w Hs Ht) as [H|H]; [done|].
  assert (length t = length s) as E by (apply suffix_length in H; lia).
  by rewrite (suffix_same_length s t w).
Qed.

Lemma is_lsuf_unique w s t : is_lsuf w s -> is_lsuf w t -> s = t.
Proof.
  intros (H1 & H2 & H3) (H4 & H5 & H6). apply (suffix_same_length s t w); try done.
  apply Nat.le_antisymm; auto.
Qed.

Lemma is_lsuf_self w : w ∈ paths -> is_lsuf w w.
Proof. intros H. split_and!; [done|done|]. intros t _ Ht. by apply suffix_length. Qed.

Lemma suffix_snoc_cases (t w : list nat) c :
  t `suffix_of` w ++ [c] -> t = [] \/ exists t', t = t' ++ [c] /\ t' `suffix_of` w.
Proof.
  destruct t as [|x t _] using rev_ind; [by left|]. intros H. right.
  apply suffix_snoc_inv_1 in H as E. subst x. exists t. split; [done|].
  by apply suffix_snoc_inv_2 in H.
Qed.

(** One more byte: the longest suffix of [w ++ [c]] is that of [s ++ [c]]. *)
Lemma is_lsuf_snoc w s c r : is_lsuf w s -> is_lsuf (s ++ [c]) r -> is_lsuf (w ++ [c]) r.
Proof.
  intros (Hs & Hsw & Hmax) (Hr & Hrs & Hrmax).
  split_and!; [done|etrans; [done|by apply suffix_app]|].
  intros t Ht Hts. destruct (suffix_snoc_cases t w c Hts) as [->|(t' & -> & Ht')]; [cbn; lia|].
  apply Hrmax; [done|]. apply suffix_app. apply (suffix_shorter t' s w); [done..|].
  apply Hmax; [by eapply closed|done].
Qed.

(** A path with no transition on [c] behaves as its longest proper suffix. *)
Lemma is_lsuf_absent p c r :
  p ++ [c] ∉ paths -> is_lsuf (tail (p ++ [c])) r -> is_lsuf (p ++ [c]) r.
Proof.
  intros Hno (Hr & Hrs & Hmax). destruct p as [|x p].
  { cbn in *. apply suffix_nil_inv in Hrs as ->. split_and!; [done|apply suffix_nil|].
    intros t Ht Hts. destruct (suffix_snoc_cases t [] c Hts) as [->|(t' & -> & Ht')]; [done|].
    by apply suffix_nil_inv in Ht' as ->. }
  cbn [tail app] in *. split_and!; [done|by apply suffix_cons_r|].
  intros t Ht Hts. apply Hmax; [done|]. destruct t as [|y t]; [apply suffix_nil|].
  apply suffix_cons_inv in Hts as [E|]; [|done].
  exfalso. apply Hno. rewrite <- E. exact Ht.
Qed.
End Lsuf.

(** ** Reading a table after a write *)

Section Tables.
Variable W : nat.

Definition rows (nodes : list node) : Prop := Forall (fun n => length (nd_next n) = W) nodes.

Lemma rows_lookup nodes u n : rows nodes -> nodes !! u = Some n -> length (nd_next n) = W.
Proof. intros H Hu. exact (Forall_lookup_1 _ _ _ _ H Hu). Qed.

Lemma rows_alter f u nodes :
  (forall n, length (nd_next (f n)) = length (nd_next n)) -> rows nodes -> rows (alter f u nodes).
Proof.
  intros Hf H. apply Forall_lookup_2. intros v n Hn.
  destruct (decide (v = u)) as [->|Hne].
  - rewrite list_lookup_alter_eq in Hn. apply fmap_Some in Hn as (n0 & H0 & ->). rewrite Hf. by eapply rows_lookup.
  - rewrite list_lookup_alter_ne in Hn by done. by eapply rows_lookup.
Qed.

Lemma rows_put_next u c v nodes : rows nodes -> rows (put_next u c v nodes).
Proof. apply rows_alter. intros n. cbn. apply length_insert. Qed.
Lemma rows_put_out u s nodes : rows nodes -> rows (put_out u s nodes).
Proof. by apply rows_alter. Qed.
Lemma rows_put_fail u f nodes : rows nodes -> rows (put_fail u f nodes).
Proof. by apply rows_alter. Qed.
Lemma length_put_next u c v nodes : length (put_next u c v nodes) = length nodes.
Proof. apply length_alter. Qed.
Lemma length_put_out u s nodes : length (put_out u s nodes) = length nodes.
Proof. apply length_alter. Qed.
Lemma length_put_fail u f nodes : length (put_fail u f nodes) = length nodes.
Proof. apply length_alter. Qed.

Lemma next_of_put_next u c v nodes u' c' :
  rows nodes -> (u < length nodes)%nat -> (c < W)%nat ->
  next_of (put_next u c v nodes) u' c' = if decide (u' = u /\ c' = c) then v else next_of nodes u' c'.
Proof.
  intros Hr Hu Hc. unfold next_of, put_next. destruct (decide (u' = u)) as [->|Hne].
  - destruct (lookup_lt_is_Some_2 nodes u Hu) as [n Hn]. rewrite list_lookup_alter_eq, Hn. cbn.
    destruct (decide (c' = c)) as [->|Hnc].
    + rewrite list_lookup_insert_eq by (by rewrite (rows_lookup _ _ _ Hr Hn)). by rewrite decide_True.
    + rewrite list_lookup_insert_ne by done. rewrite decide_False by tauto. done.
  - rewrite list_lookup_alter_ne by done. rewrite decide_False by tauto. done.
Qed.

Lemma alter_next_of f u nodes u' c' :
  (forall n, nd_next (f n) = nd_next n) -> next_of (alter f u nodes) u' c' = next_of nodes u' c'.
Proof.
  intros Hf. unfold next_of. destruct (decide (u' = u)) as [->|Hne].
  - rewrite list_lookup_alter_eq. destruct (nodes !! u); cbn; [by rewrite Hf|done].
  - by rewrite list_lookup_alter_ne.
Qed.
Lemma alter_out_of f u nodes u' :
  (forall n, nd_out (f n) = nd_out n) -> out_of (alter f u nodes) u' = out_of nodes u'.
Proof.
  intros Hf. unfold out_of. destruct (decide (u' = u)) as [->|Hne].
  - rewrite list_lookup_alter_eq. destruct (nodes !! u); cbn; [by rewrite Hf|done].
  - by rewrite list_lookup_alter_ne.
Qed.
Lemma alter_fail_of f u nodes u' :
  (forall n, nd_fail (f n) = nd_fail n) -> fail_of (alter f u nodes) u' = fail_of nodes u'.
Proof.
  intros Hf. unfold fail_of. destruct (decide (u' = u)) as [->|Hne].
  - rewrite list_lookup_alter_eq. destruct (nodes !! u); cbn; [by rewrite Hf|done].
  - by rewrite list_lookup_alter_ne.
Qed.

Lemma next_of_put_out u s nodes u' c' : next_of (put_out u s nodes) u' c' = next_of nodes u' c'.
Proof. by apply alter_next_of. Qed.
Lemma next_of_put_fail u f nodes u' c' : next_of (put_fail u f nodes) u' c' = next_of nodes u' c'.
Proof. by apply alter_next_of. Qed.
Lemma out_of_put_next u c v nodes u' : out_of (put_next u c v nodes) u' = out_of nodes u'.
Proof. by apply alter_out_of. Qed.
Lemma out_of_put_fail u f nodes u' : out_of (put_fail u f nodes) u' = out_of nodes u'.
Proof. by apply alter_out_of. Qed.
Lemma fail_of_put_next u c v nodes u' : fail_of (put_next u c v nodes) u' = fail_of nodes u'.
Proof. by apply alter_fail_of. Qed.
Lemma fail_of_put_out u s nodes u' : fail_of (put_out u s nodes) u' = fail_of nodes u'.
Proof. by apply alter_fail_of. Qed.

Lemma out_of_put_out u s nodes u' :
  (u < length nodes)%nat -> out_of (put_out u s nodes) u' = if decide (u' = u) then s else out_of nodes u'.
Proof.
  intros Hu. unfold out_of, put_out. destruct (decide (u' = u)) as [->|Hne].
  - destruct (lookup_lt_is_Some_2 nodes u Hu) as [n Hn]. by rewrite list_lookup_alter_eq, Hn.
  - by rewrite list_lookup_alter_ne.
Qed.
Lemma fail_of_put_fail u f nodes u' :
  (u < length nodes)%nat -> fail_of (put_fail u f nodes) u' = if decide (u' = u) then f else fail_of nodes u'.
Proof.
  intros Hu. unfold fail_of, put_fail. destruct (decide (u' = u)) as [->|Hne].
  - destruct (lookup_lt_is_Some_2 nodes u Hu) as [n Hn]. by rewrite list_lookup_alter_eq, Hn.
  - by rewrite list_lookup_alter_ne.
Qed.
End Tables.

(** ** The trie *)

(** The keywords as the automaton sees them: columns, and a gate. *)
Notation words := (list (list nat * Z)).

Section Trie.
Variable W : nat.

(** A trie over [paths]: node [u] is the path [paths !! u], and the words already entered. *)
Record trie_ok (nodes : list node) (paths : list (list nat)) (ws : words) : Prop := {
  t_len : length paths = length nodes;
  t_root : paths !! 0%nat = Some [];
  t_nodup : NoDup paths;
  t_rows : rows W nodes;
  t_next : forall u p c v, paths !! u = Some p -> (c < W)%nat ->
    next_of nodes u c = Some v <-> paths !! v = Some (p ++ [c]);
  t_closed : forall p c, p ++ [c] ∈ paths -> p ∈ paths /\ (c < W)%nat;
  t_out : forall u p g, paths !! u = Some p -> 0 <= g ->
    Z.testbit (out_of nodes u) g = true <-> (p, g) ∈ ws;
  t_words : forall p g, (p, g) ∈ ws -> p ∈ paths
}.

Lemma newNode_next u c : next_of [newNode W] u c = None.
Proof.
  unfold next_of. destruct u; [|done]. cbn. destruct (replicate W None !! c) as [x|] eqn:E; [|done].
  by apply lookup_replicate in E as [-> _].
Qed.

Lemma trie_start : trie_ok [newNode W] [[]] [].
Proof.
  constructor; try done.
  - apply NoDup_singleton.
  - repeat constructor. cbn. apply length_replicate.
  - intros u p c v Hu Hc. rewrite newNode_next. split; [done|]. intros H.
    destruct v; cbn in H; [|done]. injection H as H. destruct p; discriminate.
  - intros p c H. apply list_elem_of_singleton in H. destruct p; discriminate.
  - intros u p g Hu Hg. destruct u; [|done]. cbn. rewrite Z.bits_0. split; [done|]. intros H. by apply elem_of_nil in H.
  - intros p g H. by apply elem_of_nil in H.
Qed.

Lemma next_of_app nodes n u c :
  next_of (nodes ++ [n]) u c =
  if decide (u = length nodes) then default None (nd_next n !! c) else next_of nodes u c.
Proof.
  unfold next_of. destruct (decide (u = length nodes)) as [->|Hne].
  - by rewrite list_lookup_middle.
  - destruct (decide (u < length nodes)%nat) as [Hlt|Hge].
    + by rewrite lookup_app_l.
    + rewrite (lookup_ge_None_2 (nodes ++ [n])) by (rewrite length_app; cbn; lia).
      by rewrite (lookup_ge_None_2 nodes) by lia.
Qed.

Lemma out_of_app nodes n u :
  out_of (nodes ++ [n]) u = if decide (u = length nodes) then nd_out n else out_of nodes u.
Proof.
  unfold out_of. destruct (decide (u = length nodes)) as [->|Hne].
  - by rewrite list_lookup_middle.
  - destruct (decide (u < length nodes)%nat) as [Hlt|Hge].
    + by rewrite lookup_app_l.
    + rewrite (lookup_ge_None_2 (nodes ++ [n])) by (rewrite length_app; cbn; lia).
      by rewrite (lookup_ge_None_2 nodes) by lia.
Qed.

Lemma snoc_lookup {A} (l : list A) (x y : A) v :
  (l ++ [x]) !! v = Some y <-> l !! v = Some y \/ (v = length l /\ x = y).
Proof.
  rewrite lookup_app_Some. split.
  - intros [H|[Hl H]]; [by left|]. right. destruct (v - length l)%nat eqn:E; cbn in H; [|done].
    split; [lia|congruence].
  - intros [H|[-> <-]]; [by left|]. right. split; [lia|]. by rewrite Nat.sub_diag.
Qed.

Lemma trie_grow nodes paths ws cur p c :
  trie_ok nodes paths ws -> paths !! cur = Some p -> (c < W)%nat -> next_of nodes cur c = None ->
  trie_ok (put_next cur c (Some (length nodes)) nodes ++ [newNode W]) (paths ++ [p ++ [c]]) ws.
Proof.
  intros [Hl Hr Hnd Hrows Hn Hcl Ho Hw] Hp Hc Hnone.
  assert (cur < length nodes)%nat as Hcur by (rewrite <- Hl; by eapply lookup_lt_Some).
  assert (p ++ [c] ∉ paths) as Hnew.
  { intros H. apply list_elem_of_lookup in H as [v Hv]. apply (Hn cur p c v Hp Hc) in Hv. congruence. }
  constructor.
  - rewrite !length_app, length_put_next, Hl. done.
  - by rewrite lookup_app_l by (by eapply lookup_lt_Some).
  - apply NoDup_app. split_and!; [done| |apply NoDup_singleton].
    intros x Hx Hx'. apply list_elem_of_singleton in Hx' as ->. done.
  - apply Forall_app. split; [by apply rows_put_next|]. repeat constructor. cbn. apply length_replicate.
  - intros u q d v Hu Hd. rewrite next_of_app, length_put_next, snoc_lookup, Hl.
    apply snoc_lookup in Hu as [Hu|[-> <-]].
    + rewrite decide_False by (apply lookup_lt_Some in Hu; lia).
      rewrite (next_of_put_next W) by done. destruct (decide _) as [[-> ->]|Hne].
      * assert (q = p) as -> by congruence. split; [intros [= <-]; by right|].
        intros [H|[-> _]]; [|done]. destruct Hnew. by apply list_elem_of_lookup_2 in H.
      * rewrite (Hn u q d v Hu Hd). split; [by left|]. intros [H|[-> E]]; [done|].
        apply app_inj_tail in E as [-> ->]. destruct Hne. split; [|done].
        by eapply NoDup_lookup.
    + rewrite Hl, decide_True by done. cbn. destruct (replicate W None !! d) as [x|] eqn:E.
      * apply lookup_replicate in E as [-> _]. cbn. split; [done|].
        intros [H|[-> E]].
        { apply list_elem_of_lookup_2 in H. apply Hcl in H as [H _]. by apply Hnew in H. }
        apply (f_equal length) in E. rewrite !length_app in E. cbn in E. lia.
      * apply lookup_ge_None_1 in E. rewrite length_replicate in E. lia.
  - intros q d H. apply elem_of_app in H as [H|H].
    + apply Hcl in H as [H1 H2]. split; [|done]. apply elem_of_app. by left.
    + apply list_elem_of_singleton in H. apply app_inj_tail in H as [-> ->].
      split; [|done]. apply elem_of_app. left. by eapply list_elem_of_lookup_2.
  - intros u q g Hu Hg. rewrite out_of_app, length_put_next.
    apply snoc_lookup in Hu as [Hu|[-> <-]].
    + rewrite decide_False by (apply lookup_lt_Some in Hu; lia). rewrite out_of_put_next. by apply Ho.
    + rewrite Hl, decide_True by done. cbn. rewrite Z.bits_0. split; [done|]. intros H. by apply Hw in H.
  - intros q g H. apply elem_of_app. left. by eapply Hw.
Qed.

Lemma trie_walk cs nodes paths ws cur p :
  trie_ok nodes paths ws -> paths !! cur = Some p -> Forall (fun c => (c < W)%nat) cs ->
  exists ext, let '(nodes', cur') := foldl (trie_step W) (nodes, cur) cs in
    trie_ok nodes' (paths ++ ext) ws /\ (paths ++ ext) !! cur' = Some (p ++ cs).
Proof.
  revert nodes paths cur p. induction cs as [|c cs IH]; intros nodes paths cur p Ht Hp Hcs.
  { exists []. cbn. by rewrite !app_nil_r. }
  apply Forall_cons in Hcs as [Hc Hcs]. cbn [foldl trie_step].
  destruct (next_of nodes cur c) as [v|] eqn:E.
  - apply (t_next _ _ _ Ht cur p c v Hp Hc) in E. destruct (IH nodes paths v _ Ht E Hcs) as [ext H].
    exists ext. destruct (foldl _ _ _) as [n1 c1]. by rewrite <- app_assoc in H.
  - pose proof (trie_grow _ _ _ _ _ _ Ht Hp Hc E) as Ht'.
    assert ((paths ++ [p ++ [c]]) !! length nodes = Some (p ++ [c])) as Hlast.
    { apply snoc_lookup. right. split; [by rewrite (t_len _ _ _ Ht)|done]. }
    destruct (IH _ _ _ _ Ht' Hlast Hcs) as [ext H]. exists ([p ++ [c]] ++ ext).
    destruct (foldl _ _ _) as [n1 c1]. by rewrite <- !app_assoc in H.
Qed.

Lemma testbit_set s g h : 0 <= g -> 0 <= h ->
  Z.testbit (seen_set s g) h = true <-> Z.testbit s h = true \/ h = g.
Proof.
  intros Hg Hh. unfold seen_set. rewrite Z.lor_spec, Z.shiftl_spec by done.
  rewrite orb_true_iff. split; intros [H|H]; try (by left); right.
  - destruct (Z.eq_dec h g) as [|Hne]; [done|]. exfalso.
    destruct (Z_lt_dec (h - g) 0); [by rewrite Z.testbit_neg_r in H|].
    change 1 with (2 ^ 0) in H. rewrite Z.pow2_bits_eqb in H by lia. apply Z.eqb_eq in H. lia.
  - subst h. by rewrite Z.sub_diag.
Qed.

Lemma trie_enter nodes paths ws cur p g :
  trie_ok nodes paths ws -> paths !! cur = Some p -> 0 <= g ->
  trie_ok (put_out cur (seen_set (out_of nodes cur) g) nodes) paths (ws ++ [(p, g)]).
Proof.
  intros [Hl Hr Hnd Hrows Hn Hcl Ho Hw] Hp Hg.
  assert (cur < length nodes)%nat as Hcur by (rewrite <- Hl; by eapply lookup_lt_Some).
  constructor; try done.
  - by rewrite length_put_out.
  - by apply rows_put_out.
  - intros u q c v Hu Hc. rewrite next_of_put_out. by apply Hn.
  - intros u q h Hu Hh. rewrite out_of_put_out by done. rewrite elem_of_app, list_elem_of_singleton.
    destruct (decide (u = cur)) as [->|Hne].
    + assert (q = p) as -> by congruence. rewrite testbit_set by done. rewrite (Ho cur p h Hp Hh).
      split; intros [H|H]; try (by left); right; congruence.
    + rewrite (Ho u q h Hu Hh). split; [by left|]. intros [H|E]; [done|]. injection E as -> ->.
      destruct Hne. by eapply NoDup_lookup.
  - intros q h H. apply elem_of_app in H as [H|H]; [by eapply Hw|].
    apply list_elem_of_singleton in H as [= -> ->]. by eapply list_elem_of_lookup_2.
Qed.
End Trie.

Definition word_of (class : nat -> nat) (k : gatedKeyword) : list nat * Z :=
  (map class (bytes_of (folded k)), kw_gate k).

Lemma trie_length W class ks :
  Z.of_nat (length (trie W class ks)) <= 1 + Zsum (map (fun k => slen (folded k)) ks).
Proof.
  unfold trie. change 1 with (Z.of_nat (length [newNode W])). generalize [newNode W]. 
  induction ks as [|k ks IH]; intros nodes; [cbn; lia|]. cbn [foldl map Zsum foldr].
  etrans; [apply IH|]. fold (Zsum (map (fun k => slen (folded k)) ks)).
  assert (forall cs st, (length (foldl (trie_step W) st cs).1 <= length st.1 + length cs)%nat) as Hs.
  { induction cs as [|c cs IHc]; intros st; [cbn; lia|]. cbn [foldl length]. etrans; [apply IHc|].
    unfold trie_step. destruct st as [n u]. destruct (next_of n u c); cbn [fst]; [lia|].
    rewrite length_app, length_put_next. cbn. lia. }
  specialize (Hs (map class (bytes_of (folded k))) (nodes, 0%nat)). unfold trie_insert.
  destruct (foldl (trie_step W) _ _) as [n u]. cbn [fst] in Hs. rewrite length_put_out.
  rewrite length_map in Hs. unfold bytes_of in Hs. rewrite length_map, length_list_ascii in Hs.
  unfold slen. lia.
Qed.

Lemma trie_built W class ks :
  Forall (fun k => Forall (fun c => (c < W)%nat) (word_of class k).1 /\ 0 <= kw_gate k) ks ->
  exists paths, trie_ok W (trie W class ks) paths (map (word_of class) ks).
Proof.
  intros Hks. unfold trie.
  assert (forall ks0 nodes paths, Forall (fun k => Forall (fun c => (c < W)%nat) (word_of class k).1 /\ 0 <= kw_gate k) ks ->
    trie_ok W nodes paths (map (word_of class) ks0) ->
    exists paths', trie_ok W (foldl (trie_insert W class) nodes ks) paths' (map (word_of class) (ks0 ++ ks))) as H.
  { clear Hks. induction ks as [|k ks IH]; intros ks0 nodes paths Hks Ht.
    { exists paths. by rewrite app_nil_r. }
    apply Forall_cons in Hks as [[Hc Hg] Hks]. cbn [foldl]. unfold trie_insert at 2.
    destruct (trie_walk W (map class (bytes_of (folded k))) nodes paths _ 0 [] Ht (t_root _ _ _ _ Ht) Hc) as [ext H].
    destruct (foldl (trie_step W) _ _) as [n1 cur]. destruct H as [H1 H2].
    pose proof (trie_enter W _ _ _ _ _ _ H1 H2 Hg) as H3.
    edestruct (IH (ks0 ++ [k])) as [paths' H4]; [exact Hks|rewrite map_app; exact H3|].
    exists paths'. by rewrite <- app_assoc in H4. }
  destruct (H [] [newNode W] [[]] Hks (trie_start W)) as [paths' Hp]. by exists paths'.
Qed.

(** ** The breadth-first pass *)

Section Bfs.
Variable W : nat.
Variable paths : list (list nat).
Variable ws : words.
Hypothesis Hroot : paths !! 0%nat = Some [].
Hypothesis Hnd : NoDup paths.
Hypothesis Hclosed : forall p c, p ++ [c] ∈ paths -> p ∈ paths /\ (c < W)%nat.
Hypothesis Hwords : forall p g, (p, g) ∈ ws -> p ∈ paths.

Notation lsuf := (is_lsuf paths).
Lemma closed_path p c : p ++ [c] ∈ paths -> p ∈ paths.
Proof. intros H. by apply Hclosed in H as [H _]. Qed.

(** A visit with the transitions of the failure target fixed beforehand; the root's are all to
    itself. *)
Definition visit_via (u : nat) (via : nat -> option nat) (st : list node * list nat) (c : nat)
    : list node * list nat :=
  match next_of st.1 u c with
  | None => (put_next u c (via c) st.1, st.2)
  | Some child => (put_fail child (default 0%nat (via c)) st.1, st.2 ++ [child])
  end.

Record visited (u : nat) (via : nat -> option nat) (nodes : list node) (queue : list nat) (k : nat)
    (st : list node * list nat) : Prop := {
  v_len : length st.1 = length nodes;
  v_rows : rows W st.1;
  v_next : forall v c, next_of st.1 v c =
    if decide (v = u /\ (c < k)%nat)
    then match next_of nodes u c with None => via c | x => x end else next_of nodes v c;
  v_out : forall v, out_of st.1 v = out_of nodes v;
  v_child : forall c v, (c < k)%nat -> next_of nodes u c = Some v -> fail_of st.1 v = default 0%nat (via c);
  v_other : forall v, (forall c, (c < k)%nat -> next_of nodes u c <> Some v) -> fail_of st.1 v = fail_of nodes v;
  v_queue : st.2 = queue ++ omap (next_of nodes u) (seq 0 k)
}.

Lemma visit_via_all u via nodes queue k :
  rows W nodes -> (u < length nodes)%nat -> (k <= W)%nat ->
  (forall c v, next_of nodes u c = Some v -> (v < length nodes)%nat) ->
  (forall c c' v, next_of nodes u c = Some v -> next_of nodes u c' = Some v -> c = c') ->
  visited u via nodes queue k (foldl (visit_via u via) (nodes, queue) (seq 0 k)).
Proof.
  intros Hr Hu Hk Hin Hinj. induction k as [|k IH].
  { cbn. constructor; cbn; try done.
    - intros v c. rewrite decide_False by lia. done.
    - by intros; lia.
    - by rewrite app_nil_r. }
  rewrite seq_S, foldl_app. cbn [foldl plus].
  assert (k <= W)%nat as Hk' by lia. specialize (IH Hk').
  destruct (foldl (visit_via u via) (nodes, queue) (seq 0 k)) as [n1 q1].
  destruct IH as [Hl Hr1 Hn Ho Hc Hot Hq]. cbn [fst snd] in *. unfold visit_via. cbn [fst snd].
  rewrite Hn, decide_False by lia.
  destruct (next_of nodes u k) as [v|] eqn:E.
  - constructor; cbn [fst snd].
    + by rewrite length_put_fail.
    + by apply rows_put_fail.
    + intros x c. rewrite next_of_put_fail, Hn.
      destruct (decide (x = u /\ (c < S k)%nat)) as [[-> Hck]|Hno]; [|rewrite decide_False by (intros [-> ?]; apply Hno; lia); done].
      destruct (decide (u = u /\ (c < k)%nat)) as [_|Hge]; [done|].
      assert (c = k) as -> by lia. by rewrite E.
    + intros x. by rewrite out_of_put_fail.
    + intros c x Hck Hx. rewrite fail_of_put_fail by (rewrite Hl; by eapply Hin).
      destruct (decide (c = k)) as [->|Hne].
      { rewrite decide_True by congruence. done. }
      rewrite decide_False by (intros ->; by apply Hne, (Hinj c k v)). apply Hc; [lia|done].
    + intros x Hx. rewrite fail_of_put_fail by (rewrite Hl; by eapply Hin).
      rewrite decide_False by (intros ->; by apply (Hx k); [lia|]). apply Hot. intros c Hck. apply Hx. lia.
    + rewrite Hq, seq_S, omap_app. cbn. by rewrite E, app_assoc.
  - constructor; cbn [fst snd].
    + by rewrite length_put_next.
    + by apply rows_put_next.
    + intros x c. rewrite (next_of_put_next W) by (done || lia). rewrite Hn.
      destruct (decide (x = u /\ c = k)) as [[-> ->]|Hno].
      { rewrite decide_True by lia. by rewrite E. }
      destruct (decide (x = u /\ (c < k)%nat)) as [[-> Hck]|Hge]; [rewrite decide_True by lia; done|].
      rewrite decide_False; [done|]. intros [-> ?]. destruct (decide (c = k)) as [->|]; [by apply Hno|].
      apply Hge. lia.
    + intros x. by rewrite out_of_put_next.
    + intros c x Hck Hx. rewrite fail_of_put_next. apply Hc; [|done].
      destruct (decide (c = k)) as [->|]; [congruence|lia].
    + intros x Hx. rewrite fail_of_put_next. apply Hot. intros c Hck. apply Hx. lia.
    + rewrite Hq, seq_S, omap_app. cbn. by rewrite E, app_nil_r.
Qed.

Lemma root_visits st l : foldl root_step st l = foldl (visit_via 0 (fun _ => Some 0%nat)) st l.
Proof.
  revert st. induction l as [|c l IH]; intros st; [done|]. cbn [foldl]. rewrite <- IH. f_equal.
  destruct st as [nodes queue]. unfold root_step, visit_via. cbn [fst snd]. by destruct (next_of nodes 0 c).
Qed.

Lemma visit_all u nodes queue k :
  rows W nodes -> (u < length nodes)%nat -> (k <= W)%nat ->
  (forall c v, next_of nodes u c = Some v -> (v < length nodes)%nat /\ v <> u) ->
  (forall c c' v, next_of nodes u c = Some v -> next_of nodes u c' = Some v -> c = c') ->
  fail_of nodes u <> u ->
  visited u (next_of nodes (fail_of nodes u)) nodes queue k (foldl (visit u) (nodes, queue) (seq 0 k)).
Proof.
  intros Hr Hu Hk Hin Hinj Hf. set (via := next_of nodes (fail_of nodes u)).
  assert (forall k, (k <= W)%nat -> foldl (visit u) (nodes, queue) (seq 0 k) =
    foldl (visit_via u via) (nodes, queue) (seq 0 k)) as ->.
  2:{ apply visit_via_all; try done. intros c v H. by apply Hin in H as []. }
  2:{ done. }
  clear k Hk. intros k. induction k as [|k IH]; intros Hk; [done|].
  rewrite !seq_S, !foldl_app. cbn [foldl plus]. rewrite IH by lia.
  assert (visited u via nodes queue k (foldl (visit_via u via) (nodes, queue) (seq 0 k))) as Hv.
  { apply visit_via_all; try done; [lia|]. intros c v H. by apply Hin in H as []. }
  destruct (foldl (visit_via u via) (nodes, queue) (seq 0 k)) as [n1 q1]. unfold visit, visit_via. cbn [fst snd].
  assert (fail_of n1 u = fail_of nodes u) as ->.
  { apply (v_other _ _ _ _ _ _ Hv). intros c _ H. by apply Hin in H as []. }
  assert (next_of n1 (fail_of nodes u) k = via k) as ->; [|by destruct (next_of n1 u k)].
  pose proof (v_next _ _ _ _ _ _ Hv (fail_of nodes u) k) as H. cbn [fst] in H. rewrite H.
  rewrite decide_False by (intros [? _]; done). done.
Qed.

(** *** The invariant of the pass *)

Definition path (u : nat) : list nat := default [] (paths !! u).

Definition finished (queue : list nat) (i u : nat) : Prop :=
  u = 0%nat \/ exists j, (j < i)%nat /\ queue !! j = Some u.

Definition out_is (nodes : list node) (u : nat) (Q : list nat -> Prop) : Prop :=
  forall g, 0 <= g -> Z.testbit (out_of nodes u) g = true <-> exists w, (w, g) ∈ ws /\ Q w.

(** A finished node leads everywhere, and knows every word that ends there. *)
Definition final (nodes : list node) (u : nat) (p : list nat) : Prop :=
  (forall c, (c < W)%nat -> exists v s, next_of nodes u c = Some v /\ paths !! v = Some s /\ lsuf (p ++ [c]) s) /\
  out_is nodes u (fun w => w `suffix_of` p).

Definition raw (nodes : list node) (u : nat) (p : list nat) : Prop :=
  (forall c v, (c < W)%nat -> next_of nodes u c = Some v <-> paths !! v = Some (p ++ [c])) /\
  out_is nodes u (fun w => w = p).

Record bfs_ok (nodes : list node) (queue : list nat) (i : nat) : Prop := {
  b_len : length nodes = length paths;
  b_rows : rows W nodes;
  b_queue : forall u, u ∈ queue -> exists p, paths !! u = Some p /\ p <> [];
  b_once : NoDup queue;
  b_sorted : forall j k u v, (j <= k)%nat -> queue !! j = Some u -> queue !! k = Some v ->
    (length (path u) <= length (path v))%nat;
  b_members : forall v p c, paths !! v = Some (p ++ [c]) ->
    v ∈ queue <-> p = [] \/ exists j u, (j < i)%nat /\ queue !! j = Some u /\ paths !! u = Some p;
  b_final : forall u p, finished queue i u -> paths !! u = Some p -> final nodes u p;
  b_raw : forall u p, paths !! u = Some p -> ~ finished queue i u -> raw nodes u p;
  b_fail : forall u p, u ∈ queue -> paths !! u = Some p ->
    exists s, paths !! fail_of nodes u = Some s /\ lsuf (tail p) s
}.

Lemma path_lookup u p : paths !! u = Some p -> path u = p.
Proof. unfold path. by intros ->. Qed.

Lemma same_node u v p : paths !! u = Some p -> paths !! v = Some p -> u = v.
Proof. intros H1 H2. by eapply NoDup_lookup. Qed.

Lemma last_cases (p : list nat) : p = [] \/ exists q c, p = q ++ [c].
Proof. destruct p as [|x p _] using rev_ind; [by left|right; by eexists _, _]. Qed.

Lemma in_range_path u p c : paths !! u = Some (p ++ [c]) -> (c < W)%nat /\ exists v, paths !! v = Some p.
Proof.
  intros H. apply list_elem_of_lookup_2, Hclosed in H as [H1 H2]. split; [done|].
  by apply list_elem_of_lookup in H1.
Qed.

(** Every shallower node is finished when the walk reaches [u]. *)
Lemma shallower_finished nodes queue i u v q :
  bfs_ok nodes queue i -> queue !! i = Some u -> paths !! v = Some q ->
  (length q < length (path u))%nat -> finished queue i v.
Proof.
  intros Hb Hu. revert v. induction q as [|c q IH] using rev_ind; intros v Hv Hlt.
  { left. by eapply same_node. }
  right. destruct (in_range_path v q c Hv) as (Hc & v' & Hv').
  rewrite length_app in Hlt. cbn in Hlt.
  assert (v ∈ queue) as Hin.
  { apply (b_members _ _ _ Hb v q c Hv).
    destruct (IH v' Hv') as [->|(j & Hj & Hq)]; [lia| |].
    - left. rewrite Hroot in Hv'. congruence.
    - right. by exists j, v'. }
  apply list_elem_of_lookup in Hin as [j Hj]. exists j. split; [|done].
  destruct (decide (j < i)%nat) as [|Hge]; [done|]. exfalso.
  pose proof (b_sorted _ _ _ Hb i j u v ltac:(lia) Hu Hj) as H. rewrite (path_lookup v _ Hv) in H.
  rewrite length_app in H. cbn in H. lia.
Qed.

Lemma finished_lookup queue i u x :
  queue !! i = Some u -> finished queue (S i) x <-> finished queue i x \/ x = u.
Proof.
  intros Hu. split.
  - intros [->|(j & Hj & Hx)]; [by do 2 left|]. destruct (decide (j = i)) as [->|]; [right; congruence|].
    left. right. exists j. split; [lia|done].
  - intros [[->|(j & Hj & Hx)]| ->]; [by left|right; exists j; split; [lia|done]|right; exists i; split; [lia|done]].
Qed.

Lemma finished_app queue ext i x : (i <= length queue)%nat -> finished (queue ++ ext) i x <-> finished queue i x.
Proof.
  intros Hi. split; (intros [->|(j & Hj & Hx)]; [by left|right; exists j; split; [done|]]).
  - by rewrite lookup_app_l in Hx by lia.
  - by apply lookup_app_l_Some.
Qed.

(** The words that end at [u]: its own, and those that end at its failure target. *)
Lemma out_final nodes u p f s :
  out_is nodes u (fun w => w = p) -> out_is nodes f (fun w => w `suffix_of` s) ->
  paths !! u = Some p -> p <> [] -> lsuf (tail p) s ->
  forall g, 0 <= g -> Z.testbit (seen_or (out_of nodes u) (out_of nodes f)) g = true <->
    exists w, (w, g) ∈ ws /\ w `suffix_of` p.
Proof.
  intros Hu Hf Hp Hne (Hs & Hss & Hmax) g Hg. unfold seen_or. rewrite Z.lor_spec, orb_true_iff.
  rewrite (Hu g Hg), (Hf g Hg). destruct p as [|x p]; [done|]. cbn [tail] in *. split.
  - intros [(w & Hw & ->)|(w & Hw & Hws)]; [by exists (x :: p)|]. exists w. split; [done|].
    apply suffix_cons_r. by etrans.
  - intros (w & Hw & Hws). destruct w as [|y w].
    { right. exists []. split; [done|apply suffix_nil]. }
    apply suffix_cons_inv in Hws as [E|Hws]; [left; by exists (y :: w)|right].
    exists (y :: w). split; [done|]. apply (suffix_shorter (y :: w) s p); [done..|].
    apply Hmax; [by eapply Hwords|done].
Qed.

Section Process.
Variables (nodes : list node) (queue : list nat) (i u : nat) (p : list nat).
Hypothesis Hb : bfs_ok nodes queue i.
Hypothesis Hu : queue !! i = Some u.
Hypothesis Hp : paths !! u = Some p.

Definition nodes1 : list node :=
  put_out u (seen_or (out_of nodes u) (out_of nodes (fail_of nodes u))) nodes.

Lemma u_facts :
  p <> [] /\ u <> 0%nat /\ ~ finished queue i u /\ (u < length nodes)%nat /\
  exists s, paths !! fail_of nodes u = Some s /\ lsuf (tail p) s /\ finished queue i (fail_of nodes u) /\
    fail_of nodes u <> u.
Proof.
  assert (u ∈ queue) as Hin by (by eapply list_elem_of_lookup_2).
  destruct (b_queue _ _ _ Hb u Hin) as (p' & Hp' & Hne). assert (p' = p) as -> by congruence.
  assert (u <> 0%nat) as Hu0 by (intros ->; congruence).
  assert (~ finished queue i u) as Hnf.
  { intros [?|(j & Hj & Hq)]; [done|].
    pose proof (NoDup_lookup _ _ _ _ (b_once _ _ _ Hb) Hu Hq). lia. }
  split_and!; [done|done|done|rewrite (b_len _ _ _ Hb); by eapply lookup_lt_Some|].
  destruct (b_fail _ _ _ Hb u p Hin Hp) as (s & Hs & Hl). exists s.
  assert (length s < length p)%nat as Hlt.
  { destruct Hl as (_ & Hsuf & _). apply suffix_length in Hsuf. destruct p; [done|cbn in *; lia]. }
  assert (finished queue i (fail_of nodes u)) as Hff.
  { eapply shallower_finished; [exact Hb|exact Hu|exact Hs|]. by rewrite (path_lookup u p Hp). }
  split_and!; [done|done|done|]. intros E. by rewrite E in Hff.
Qed.

Lemma child_facts c v : next_of nodes u c = Some v -> (c < W)%nat ->
  paths !! v = Some (p ++ [c]) /\ (v < length nodes)%nat /\ v <> u.
Proof.
  destruct u_facts as (Hne & _ & Hnf & _). intros H Hc.
  apply (proj1 (b_raw _ _ _ Hb u p Hp Hnf)) in H; [|done]. split_and!; [done| |].
  - rewrite (b_len _ _ _ Hb). by eapply lookup_lt_Some.
  - intros ->. rewrite Hp in H. injection H as H. apply (f_equal length) in H. rewrite length_app in H. cbn in H. lia.
Qed.

Lemma next_in_range n' x c v : rows W n' -> next_of n' x c = Some v -> (c < W)%nat.
Proof.
  intros Hr. unfold next_of. destruct (n' !! x) as [n|] eqn:E; [|done]. intros H.
  destruct (nd_next n !! c) eqn:Ec; [|done]. apply lookup_lt_Some in Ec.
  by rewrite (rows_lookup W n' x n Hr E) in Ec.
Qed.

Definition children : list nat := omap (next_of nodes u) (seq 0 W).

Record step_ok (st : list node * list nat) : Prop := {
  s_len : length st.1 = length nodes;
  s_rows : rows W st.1;
  s_next : forall v c, (c < W)%nat -> next_of st.1 v c =
    if decide (v = u)
    then match next_of nodes u c with None => next_of nodes (fail_of nodes u) c | x => x end
    else next_of nodes v c;
  s_out : forall v, out_of st.1 v =
    if decide (v = u) then seen_or (out_of nodes u) (out_of nodes (fail_of nodes u)) else out_of nodes v;
  s_child : forall c v, (c < W)%nat -> next_of nodes u c = Some v ->
    fail_of st.1 v = default 0%nat (next_of nodes (fail_of nodes u) c);
  s_other : forall v, ~ v ∈ children -> fail_of st.1 v = fail_of nodes v;
  s_queue : st.2 = queue ++ children
}.

Lemma elem_of_children v : v ∈ children <-> exists c, (c < W)%nat /\ next_of nodes u c = Some v.
Proof.
  unfold children. rewrite list_elem_of_omap. split; intros (c & H1 & H2); exists c.
  - apply elem_of_seq in H1. split; [lia|done].
  - split; [apply elem_of_seq; lia|done].
Qed.

Lemma processed : step_ok (process W u (nodes, queue)).
Proof.
  destruct u_facts as (Hne & Hu0 & Hnf & Hlt & s & Hs & Hl & Hff & Hfu).
  pose proof (b_rows _ _ _ Hb) as Hr.
  assert (forall x c, next_of nodes1 x c = next_of nodes x c) as Hn1 by (intros; apply next_of_put_out).
  assert (fail_of nodes1 u = fail_of nodes u) as Hf1 by apply fail_of_put_out.
  unfold process. cbn [fst snd]. fold nodes1.
  assert (visited u (next_of nodes1 (fail_of nodes1 u)) nodes1 queue W
    (foldl (visit u) (nodes1, queue) (seq 0 W))) as [H1 H2 H3 H4 H5 H6 H7].
  { assert (rows W nodes1) as Hr1 by (by apply rows_put_out). apply visit_all; [done| |done| | |by rewrite Hf1].
    - unfold nodes1. by rewrite length_put_out.
    - intros c v Hc. unfold nodes1. rewrite length_put_out. rewrite Hn1 in Hc.
      apply (child_facts c v Hc). by eapply (next_in_range nodes u).
    - intros c c' v Hc Hc'. rewrite Hn1 in Hc, Hc'.
      destruct (child_facts c v Hc) as (E1 & _); [by eapply (next_in_range nodes u)|].
      destruct (child_facts c' v Hc') as (E2 & _); [by eapply (next_in_range nodes u)|].
      rewrite E1 in E2. injection E2 as E2. by apply app_inj_tail in E2 as [_ ->]. }
  constructor.
  - rewrite H1. apply length_put_out.
  - done.
  - intros v c Hc. rewrite H3, !Hn1, Hf1. destruct (decide (v = u)) as [->|Hne'].
    + by rewrite decide_True.
    + by rewrite decide_False by tauto.
  - intros v. rewrite H4. unfold nodes1. by rewrite out_of_put_out.
  - intros c v Hc Hv. rewrite (H5 c v) by (rewrite ?Hn1; done). by rewrite Hn1, Hf1.
  - intros v Hv. rewrite H6; [apply fail_of_put_out|]. intros c Hc. rewrite Hn1. intros E. apply Hv, elem_of_children.
    by exists c.
  - rewrite H7. f_equal. apply list_omap_ext. apply Forall2_same_length_lookup_2; [done|].
    intros k c1 c2 E1 E2. rewrite Hn1. congruence.
Qed.

Lemma children_new v : v ∈ children -> ~ v ∈ queue /\ exists c, paths !! v = Some (p ++ [c]).
Proof.
  intros H. apply elem_of_children in H as (c & Hc & Hv). destruct (child_facts c v Hv Hc) as (Hq & _).
  destruct u_facts as (Hne & _ & Hnf & _). split; [|by exists c]. intros Hin.
  apply (b_members _ _ _ Hb v p c Hq) in Hin as [|(j & x & Hj & Hx & Hpx)]; [done|].
  apply Hnf. right. exists j. split; [done|]. by rewrite (same_node u x p).
Qed.

Lemma children_all v c : paths !! v = Some (p ++ [c]) -> v ∈ children.
Proof.
  intros H. destruct (in_range_path v p c H) as [Hc _]. apply elem_of_children. exists c. split; [done|].
  destruct u_facts as (_ & _ & Hnf & _). by apply (proj1 (b_raw _ _ _ Hb u p Hp Hnf)).
Qed.

Lemma children_NoDup : NoDup children.
Proof.
  apply NoDup_omap_inj; [|apply NoDup_seq]. intros c c' v Hc Hc'.
  destruct (child_facts c v Hc) as (E1 & _); [by eapply (next_in_range nodes u); [apply Hb|]|].
  destruct (child_facts c' v Hc') as (E2 & _); [by eapply (next_in_range nodes u); [apply Hb|]|].
  rewrite E1 in E2. injection E2 as E2. by apply app_inj_tail in E2 as [_ ->].
Qed.

Lemma process_final st : step_ok st -> final st.1 u p.
Proof.
  intros Hst. destruct u_facts as (Hne & Hu0 & Hnf & Hlt & s & Hs & Hl & Hff & Hfu).
  destruct (b_raw _ _ _ Hb u p Hp Hnf) as [Hn Ho].
  destruct (b_final _ _ _ Hb _ s Hff Hs) as [Fn Fo]. split.
  - intros c Hc. rewrite (s_next _ Hst) by done. rewrite decide_True by done.
    destruct (next_of nodes u c) as [v|] eqn:E.
    + exists v, (p ++ [c]). apply Hn in E; [|done]. split_and!; [done|done|].
      apply is_lsuf_self. by eapply list_elem_of_lookup_2.
    + destruct (Fn c Hc) as (v & r & Hv & Hr & Hlr). exists v, r. split_and!; [done|done|].
      apply is_lsuf_absent.
      * intros Hin. apply list_elem_of_lookup in Hin as [v' Hv']. apply Hn in Hv'; [congruence|done].
      * destruct p as [|x p']; [done|]. cbn [tail app] in *.
        eapply is_lsuf_snoc; [exact closed_path|exact Hl|exact Hlr].
  - intros g Hg. rewrite (s_out _ Hst), decide_True by done.
    by apply (out_final nodes u p (fail_of nodes u) s).
Qed.

Lemma process_keeps st : step_ok st -> bfs_ok st.1 st.2 (S i).
Proof.
  intros Hst. destruct u_facts as (Hne & Hu0 & Hnf & Hlt & s & Hs & Hl & Hff & Hfu).
  assert (i < length queue)%nat as Hi by (by eapply lookup_lt_Some).
  assert (forall x, finished st.2 (S i) x <-> finished queue i x \/ x = u) as Hfin.
  { intros x. rewrite (s_queue _ Hst), finished_app by lia. by apply finished_lookup. }
  constructor.
  - rewrite (s_len _ Hst). apply Hb.
  - apply Hst.
  - intros v Hv. rewrite (s_queue _ Hst) in Hv. apply elem_of_app in Hv as [Hv|Hv]; [by eapply b_queue|].
    apply children_new in Hv as (_ & c & Hc). exists (p ++ [c]). split; [done|]. by destruct p.
  - rewrite (s_queue _ Hst). apply NoDup_app. split_and!; [apply Hb| |apply children_NoDup].
    intros x Hx Hx'. by apply children_new in Hx' as [Hx' _].
  - assert (forall k v, queue !! k = Some v -> (length (path v) <= S (length p))%nat) as Hle.
    { intros k v Hv. assert (v ∈ queue) as Hin by (by eapply list_elem_of_lookup_2).
      destruct (b_queue _ _ _ Hb v Hin) as (q & Hq & _). rewrite (path_lookup v q Hq).
      destruct (last_cases q) as [->|(q' & c & ->)]; [cbn; lia|].
      rewrite length_app. cbn. destruct (proj1 (b_members _ _ _ Hb v q' c Hq) Hin) as [->|(j & x & Hj & Hx & Hpx)]; [cbn; lia|].
      pose proof (b_sorted _ _ _ Hb j i x u ltac:(lia) Hx Hu) as H.
      rewrite (path_lookup x q' Hpx), (path_lookup u p Hp) in H. lia. }
    assert (forall v, v ∈ children -> length (path v) = S (length p)) as Hch.
    { intros v Hv. apply children_new in Hv as (_ & c & Hc). rewrite (path_lookup v _ Hc), length_app. cbn. lia. }
    intros j k x v Hjk Hx Hv. rewrite (s_queue _ Hst) in Hx, Hv.
    apply lookup_app_Some in Hx as [Hx|[Hlx Hx]]; apply lookup_app_Some in Hv as [Hv|[Hlv Hv]].
    + by eapply b_sorted.
    + rewrite (Hch v) by (by eapply list_elem_of_lookup_2). by eapply Hle.
    + apply lookup_lt_Some in Hv. lia.
    + rewrite (Hch v), (Hch x) by (by eapply list_elem_of_lookup_2). done.
  - intros v q c Hv. rewrite (s_queue _ Hst), elem_of_app. rewrite (b_members _ _ _ Hb v q c Hv). split.
    + intros [[->|(j & x & Hj & Hx & Hpx)]|Hin]; [by left| |].
      * right. exists j, x. split_and!; [lia|by apply lookup_app_l_Some|done].
      * right. exists i, u. split_and!; [lia|by apply lookup_app_l_Some|].
        apply children_new in Hin as (_ & c' & Hc'). rewrite Hv in Hc'. injection Hc' as E.
        by apply app_inj_tail in E as [-> _].
    + intros [->|(j & x & Hj & Hx & Hpx)]; [left; by left|].
      rewrite lookup_app_l in Hx by lia. destruct (decide (j = i)) as [->|Hne'].
      * right. assert (x = u) as -> by congruence. assert (q = p) as -> by congruence. by eapply children_all.
      * left. right. exists j, x. split_and!; [lia|done|done].
  - intros v q Hv Hq. destruct (decide (v = u)) as [->|Hne'].
    { assert (q = p) as -> by congruence. by apply process_final. }
    apply Hfin in Hv as [Hv|]; [|done]. destruct (b_final _ _ _ Hb v q Hv Hq) as [Fn Fo]. split.
    + intros c Hc. rewrite (s_next _ Hst) by done. rewrite decide_False by done. by apply Fn.
    + intros g Hg. rewrite (s_out _ Hst), decide_False by done. by apply Fo.
  - intros v q Hq Hv. assert (v <> u) as Hne' by (intros ->; apply Hv, Hfin; by right).
    destruct (b_raw _ _ _ Hb v q Hq) as [Fn Fo]; [intros H; apply Hv, Hfin; by left|]. split.
    + intros c x Hc. rewrite (s_next _ Hst) by done. rewrite decide_False by done. by apply Fn.
    + intros g Hg. rewrite (s_out _ Hst), decide_False by done. by apply Fo.
  - intros v q Hv Hq. rewrite (s_queue _ Hst) in Hv. apply elem_of_app in Hv as [Hv|Hv].
    + rewrite (s_other _ Hst) by (intros H; by apply children_new in H as [H _]). by eapply b_fail.
    + apply elem_of_children in Hv as (c & Hc & Hcv). rewrite (s_child _ Hst c v) by done.
      destruct (b_final _ _ _ Hb _ s Hff Hs) as [Fn _]. destruct (Fn c Hc) as (x & r & Hx & Hr & Hlr).
      rewrite Hx. cbn. exists r. split; [done|].
      destruct (child_facts c v Hcv Hc) as (Hq' & _). assert (q = p ++ [c]) as -> by congruence.
      destruct p as [|y p']; [done|]. cbn [tail app] in *.
      eapply is_lsuf_snoc; [exact closed_path|exact Hl|exact Hlr].
Qed.
End Process.

(** *** The start and the end of the pass *)

Lemma bfs_start nodes :
  trie_ok W nodes paths ws ->
  let st := foldl root_step (nodes, []) (seq 0 W) in bfs_ok st.1 st.2 0.
Proof.
  intros Ht st. pose proof (t_next _ _ _ _ Ht) as Hn. pose proof (t_len _ _ _ _ Ht) as Hl.
  pose proof (t_rows _ _ _ _ Ht) as Hrows.
  assert (forall c v, next_of nodes 0 c = Some v -> paths !! v = Some [c] /\ (c < W)%nat) as Hch.
  { intros c v H. assert (c < W)%nat as Hc by exact (next_in_range nodes 0 c v Hrows H).
    split; [|done]. by apply (Hn 0%nat [] c v Hroot Hc). }
  assert (visited 0 (fun _ => Some 0%nat) nodes [] W st) as [H1 H2 H3 H4 H5 H6 H7].
  { unfold st. rewrite root_visits. apply visit_via_all; [done| |done| |].
    - rewrite <- Hl. by eapply lookup_lt_Some.
    - intros c v Hc. apply Hch in Hc as [Hc _]. rewrite <- Hl. by eapply lookup_lt_Some.
    - intros c c' v Hc Hc'. apply Hch in Hc as [Hc _], Hc' as [Hc' _]. congruence. }
  assert (forall v, v ∈ st.2 <-> exists c, (c < W)%nat /\ paths !! v = Some [c]) as Hq.
  { intros v. rewrite H7, app_nil_l, list_elem_of_omap. split; intros (c & Hc & Hv); exists c.
    - apply Hch in Hv as [? ?]. done.
    - split; [apply elem_of_seq; lia|]. by apply (Hn 0%nat [] c v Hroot Hc). }
  assert (forall x p, paths !! x = Some p -> x <> 0%nat -> raw st.1 x p) as Hraw.
  { intros x p Hp Hx. split.
    - intros c v Hc. rewrite H3, decide_False by tauto. by apply Hn.
    - intros g Hg. rewrite H4. rewrite (t_out _ _ _ _ Ht x p g Hp Hg). split.
      + intros H. by exists p.
      + by intros (w & Hw & ->). }
  constructor.
  - by rewrite H1.
  - done.
  - intros u Hu. apply Hq in Hu as (c & Hc & Hu). by exists [c].
  - rewrite H7, app_nil_l. apply NoDup_omap_inj; [|apply NoDup_seq]. intros c c' v Hc Hc'.
    apply Hch in Hc as [Hc _], Hc' as [Hc' _]. congruence.
  - intros j k u v _ Hu Hv.
    assert (forall x, x ∈ st.2 -> length (path x) = 1%nat) as Hone.
    { intros x Hx. apply Hq in Hx as (c & _ & Hx). by rewrite (path_lookup x _ Hx). }
    rewrite !Hone by (by eapply list_elem_of_lookup_2). done.
  - intros v p c Hv. rewrite Hq. split.
    + intros (c' & _ & Hc'). left. rewrite Hv in Hc'. injection Hc' as E. by apply (app_inj_tail p [] c c') in E as [-> _].
    + intros [->|(j & u & Hj & _)]; [|lia]. exists c. split; [|done]. by destruct (in_range_path v [] c Hv).
  - intros u p [->|(j & Hj & _)] Hp; [|lia]. assert (p = []) as -> by congruence. split.
    + intros c Hc. rewrite H3, decide_True by done. destruct (next_of nodes 0 c) as [v|] eqn:E.
      * apply Hch in E as [E _]. exists v, [c]. split_and!; [done|done|].
        apply is_lsuf_self. by eapply list_elem_of_lookup_2.
      * exists 0%nat, []. split_and!; [done|done|]. apply (is_lsuf_absent paths [] c).
        -- intros Hin. apply list_elem_of_lookup in Hin as [v Hv].
           apply (Hn 0%nat [] c v Hroot Hc) in Hv. congruence.
        -- apply is_lsuf_self. by eapply list_elem_of_lookup_2.
    + intros g Hg. rewrite H4, (t_out _ _ _ _ Ht 0%nat [] g Hroot Hg). split.
      * intros H. by exists [].
      * intros (w & Hw & Hs). by apply suffix_nil_inv in Hs as ->.
  - intros u p Hp Hnf. apply Hraw; [done|]. intros ->. apply Hnf. by left.
  - intros u p Hu Hp. apply Hq in Hu as (c & Hc & Hu). assert (p = [c]) as -> by congruence.
    exists []. split.
    + rewrite (H5 c u Hc); [done|]. by apply (Hn 0%nat [] c u Hroot Hc).
    + apply is_lsuf_self. by eapply list_elem_of_lookup_2.
Qed.

Lemma queue_bound nodes queue i : bfs_ok nodes queue i -> (length queue <= length nodes)%nat.
Proof.
  intros Hb. rewrite <- (length_seq (length nodes) 0). apply submseteq_length, NoDup_submseteq; [apply Hb|].
  intros u Hu. destruct (b_queue _ _ _ Hb u Hu) as (p & Hp & _). apply elem_of_seq.
  apply lookup_lt_Some in Hp. rewrite (b_len _ _ _ Hb). lia.
Qed.

Lemma bfs_ends fuel i st :
  bfs_ok st.1 st.2 i -> (i <= length st.2)%nat -> (length st.1 < fuel + i)%nat ->
  let st' := bfs fuel W i st in bfs_ok st'.1 st'.2 (length st'.2).
Proof.
  revert i st. induction fuel as [|fuel IH]; intros i st Hb Hi Hf.
  { apply queue_bound in Hb. lia. }
  cbn [bfs]. destruct (st.2 !! i) as [u|] eqn:E.
  - assert (u ∈ st.2) as Hu by (by eapply list_elem_of_lookup_2).
    destruct (b_queue _ _ _ Hb u Hu) as (p & Hp & _).
    destruct st as [nodes queue]. cbn [fst snd] in *.
    pose proof (processed nodes queue i u p Hb E Hp) as Hst.
    pose proof (process_keeps nodes queue i u p Hb E Hp _ Hst) as Hb'.
    apply IH; [done| |].
    + rewrite (s_queue _ _ _ _ Hst), length_app. apply lookup_lt_Some in E. lia.
    + rewrite (s_len _ _ _ _ Hst). lia.
  - apply lookup_ge_None_1 in E. by replace (length st.2) with i by lia.
Qed.

Lemma all_final nodes queue u p :
  bfs_ok nodes queue (length queue) -> paths !! u = Some p -> final nodes u p.
Proof.
  intros Hb Hp. apply (b_final _ _ _ Hb u p); [|done].
  revert u Hp. induction p as [|c p IH] using rev_ind; intros u Hp; [left; by eapply same_node|].
  assert (u ∈ queue) as Hin.
  { apply (b_members _ _ _ Hb u p c Hp). destruct (in_range_path u p c Hp) as (_ & v & Hv).
    destruct (IH v Hv) as [->|(j & Hj & Hq)]; [left; congruence|right; by exists j, v]. }
  apply list_elem_of_lookup in Hin as [j Hj]. right. exists j. split; [by eapply lookup_lt_Some|done].
Qed.
End Bfs.

Lemma automaton_final W class ks :
  Forall (fun k => Forall (fun c => (c < W)%nat) (word_of class k).1 /\ 0 <= kw_gate k) ks ->
  exists paths, paths !! 0%nat = Some [] /\ (forall p c, p ++ [c] ∈ paths -> p ∈ paths) /\
    length (automaton W class ks) = length paths /\ length paths = length (trie W class ks) /\
    rows W (automaton W class ks) /\ (forall p g, (p, g) ∈ map (word_of class) ks -> p ∈ paths) /\
    forall u p, paths !! u = Some p -> final W paths (map (word_of class) ks) (automaton W class ks) u p.
Proof.
  intros Hks. destruct (trie_built W class ks Hks) as [paths Ht]. exists paths.
  pose proof (t_root _ _ _ _ Ht) as Hr. pose proof (t_nodup _ _ _ _ Ht) as Hnd.
  pose proof (t_closed _ _ _ _ Ht) as Hcl. pose proof (t_words _ _ _ _ Ht) as Hw.
  unfold automaton. set (st := foldl root_step (trie W class ks, []) (seq 0 W)).
  assert (bfs_ok W paths (map (word_of class) ks) st.1 st.2 0) as Hs by (by apply bfs_start).
  assert (length st.1 = length (trie W class ks)) as Hlen.
  { rewrite (b_len _ _ _ _ _ _ Hs). apply Ht. }
  set (st' := bfs (S (length (trie W class ks))) W 0 st).
  assert (bfs_ok W paths (map (word_of class) ks) st'.1 st'.2 (length st'.2)) as He.
  { apply bfs_ends; try done; lia. }
  split_and!; [done|intros p c H; by apply Hcl in H as [H _]|apply He|apply Ht|apply He|done|].
  intros u p Hp. by eapply all_final.
Qed.

(** ** The tables *)

Lemma mjoin_rows {A} (W : nat) (ls : list (list A)) u c :
  Forall (fun l => length l = W) ls -> (c < W)%nat ->
  mjoin ls !! (u * W + c)%nat = l ← ls !! u; l !! c.
Proof.
  intros H Hc. revert u. induction H as [|l ls Hl Hls IH]; intros u; [by rewrite !lookup_nil|].
  cbn [mjoin list_join]. destruct u as [|u].
  - cbn. by rewrite lookup_app_l by lia.
  - cbn [lookup list_lookup]. rewrite lookup_app_r by lia. rewrite <- IH. f_equal. lia.
Qed.

Lemma entry_split nodes t :
  Z.of_nat t < 2 ^ 31 ->
  Z.land (entry_of nodes (Some t)) (Z.lnot hasOutput) = Z.of_nat t /\
  (Z.land (entry_of nodes (Some t)) hasOutput =? 0) = (out_of nodes t =? 0).
Proof.
  intros Ht. unfold entry_of. change (default 0%nat (Some t)) with t.
  assert (forall n, Z.testbit hasOutput n = (n =? 31)) as Hh.
  { intros n. unfold hasOutput. change (Z.shiftl 1 31) with (2 ^ 31).
    destruct (Z_lt_dec n 0); [rewrite Z.testbit_neg_r by done; symmetry; apply Z.eqb_neq; lia|].
    rewrite Z.pow2_bits_eqb by lia. apply Z.eqb_sym. }
  assert (Z.land (Z.of_nat t) hasOutput = 0) as Hz.
  { apply Z.bits_inj_0. intros n. rewrite Z.land_spec, Hh.
    destruct (Z.eqb_spec n 31) as [->|]; [|by rewrite andb_false_r].
    rewrite andb_true_r. destruct (decide (Z.of_nat t = 0)) as [->|]; [apply Z.bits_0|].
    apply Z.bits_above_log2; [lia|]. apply Z.log2_lt_pow2; lia. }
  assert (Z.land (Z.of_nat t) (Z.lnot hasOutput) = Z.of_nat t) as Hk.
  { apply Z.bits_inj'. intros n Hn. rewrite Z.land_spec, Z.lnot_spec by done.
    destruct (Z.testbit (Z.of_nat t) n) eqn:E; [|done]. cbn.
    assert (Z.testbit (Z.land (Z.of_nat t) hasOutput) n = false) as H by (by rewrite Hz, Z.bits_0).
    rewrite Z.land_spec, E, andb_true_l in H. by rewrite H. }
  destruct (out_of nodes t =? 0) eqn:E. { split; [exact Hk|]. rewrite Hz. done. }
  split.
  - rewrite Z.land_lor_distr_l, Hk, Z.land_lnot_diag. apply Z.lor_0_r.
  - rewrite Z.land_lor_distr_l, Hz, Z.land_diag. done.
Qed.

Section Scan.
Variables (W : nat) (paths : list (list nat)) (ws : words) (nodes : list node) (cls : nat -> nat).
Variable p : Prefilter.
Hypothesis Hroot : paths !! 0%nat = Some [].
Hypothesis Hclosed : forall q c, q ++ [c] ∈ paths -> q ∈ paths.
Hypothesis Hwords : forall q g, (q, g) ∈ ws -> q ∈ paths.
Hypothesis Hlen : length nodes = length paths.
Hypothesis Hsmall : Z.of_nat (length nodes) < 2 ^ 31.
Hypothesis Hrows : rows W nodes.
Hypothesis Hfinal : forall u q, paths !! u = Some q -> final W paths ws nodes u q.
Hypothesis Hcls : forall c, (cls c < W)%nat.
Hypothesis Hwidth : p_width p = W.
Hypothesis Hclasses : forall c, default 0%nat (p_classes p !! c) = cls c.
Hypothesis Hnext : p_next p = mjoin (map (fun n => map (entry_of nodes) (nd_next n)) nodes).
Hypothesis Houts : outputs p = map nd_out nodes.

Definition read (l : list ascii) : list nat := map (fun c => cls (nat_of_ascii c)) l.

(** What has been seen: the words that end at a byte read so far. *)
Lemma scan_ok l :
  exists u s, (foldl (scan_step p) (0, 0) l).1 = Z.of_nat u /\ paths !! u = Some s /\ is_lsuf paths (read l) s /\
  forall g, 0 <= g -> Z.testbit (foldl (scan_step p) (0, 0) l).2 g = true <->
    exists y w, y `prefix_of` l /\ y <> [] /\ (w, g) ∈ ws /\ w `suffix_of` read y.
Proof.
  induction l as [|a l (u & s & Hst & Hs & Hl & Hseen)] using rev_ind.
  { exists 0%nat, []. split_and!; [done|done| |].
    - apply is_lsuf_self. by eapply list_elem_of_lookup_2.
    - intros g Hg. cbn. rewrite Z.bits_0. split; [done|]. intros (y & w & Hy & Hne & _).
      by apply prefix_nil_inv in Hy. }
  rewrite foldl_app. cbn [foldl]. destruct (foldl (scan_step p) (0, 0) l) as [st seen]. cbn [fst snd] in *. subst st.
  set (c := cls (nat_of_ascii a)). destruct (Hfinal u s Hs) as [Fn _].
  destruct (Fn c (Hcls _)) as (t & r & Ht & Hr & Hlr). exists t, r.
  assert (is_lsuf paths (read (l ++ [a])) r) as Hlr'.
  { unfold read. rewrite map_app. by eapply is_lsuf_snoc. }
  assert (Z.of_nat t < 2 ^ 31) as Ht31 by (apply lookup_lt_Some in Hr; lia).
  assert (default 0 (p_next p !! (Z.to_nat (Z.of_nat u) * p_width p + default 0%nat (p_classes p !! nat_of_ascii a))%nat)
    = entry_of nodes (Some t)) as He.
  { rewrite Nat2Z.id, Hwidth, Hclasses, Hnext. fold c. rewrite mjoin_rows.
    - rewrite list_lookup_fmap. unfold next_of in Ht. destruct (nodes !! u) as [n|]; [|done]. cbn.
      rewrite list_lookup_fmap. destruct (nd_next n !! c) as [x|]; cbn in *; [by rewrite Ht|done].
    - apply Forall_map. eapply Forall_impl; [exact Hrows|]. intros n Hn. cbn. by rewrite length_map.
    - apply Hcls. }
  unfold scan_step at 1 2. cbn [fst snd]. rewrite He. destruct (entry_split nodes t Ht31) as [E1 E2].
  rewrite E1, E2. split_and!; [done|done|done|]. intros g Hg.
  assert (default 0 (outputs p !! Z.to_nat (Z.of_nat t)) = out_of nodes t) as ->.
  { rewrite Nat2Z.id, Houts, list_lookup_fmap. unfold out_of. by destruct (nodes !! t). }
  assert ((if out_of nodes t =? 0 then seen else seen_or seen (out_of nodes t)) = Z.lor seen (out_of nodes t)) as ->.
  { destruct (Z.eqb_spec (out_of nodes t) 0) as [->|]; [by rewrite Z.lor_0_r|done]. }
  rewrite Z.lor_spec, orb_true_iff, (Hseen g Hg), (proj2 (Hfinal t r Hr) g Hg).
  destruct Hlr' as (Hrin & Hrs & Hmax). split.
  - intros [(y & w & Hy & Hne & Hw & Hs')|(w & Hw & Hs')].
    + exists y, w. split_and!; [|done..]. by apply prefix_app_r.
    + exists (l ++ [a]), w. split_and!; [done|by destruct l|done|by etrans].
  - intros (y & w & Hy & Hne & Hw & Hs'). destruct (decide (y = l ++ [a])) as [->|Hd].
    + right. exists w. split; [done|]. apply (suffix_shorter w r (read (l ++ [a]))); [done..|].
      apply Hmax; [by eapply Hwords|done].
    + left. exists y, w. split_and!; [|done..]. destruct Hy as [k Hk].
      destruct k as [|x k _] using rev_ind; [rewrite app_nil_r in Hk; congruence|].
      rewrite app_assoc in Hk. apply app_inj_tail in Hk as [-> _]. by exists k.
Qed.
End Scan.

(** ** The alphabet *)

Definition lower_code (c : nat) : nat := nat_of_ascii (asciiLower (ascii_of_nat c)).

Section Columns.
Variable ks : list gatedKeyword.

(** The column a byte gets: one more than the number of used bytes below it. *)
Definition below (c : nat) : nat := length (filter (fun x => used ks x = true) (seq 0 c)).
Definition column (c : nat) : nat := if used ks c then S (below c) else 0%nat.

Lemma below_S c : below (S c) = (below c + if used ks c then 1 else 0)%nat.
Proof.
  unfold below. rewrite seq_S, filter_app, length_app, Nat.add_0_l, filter_cons, filter_nil. f_equal.
  destruct (used ks c); by case_decide.
Qed.

Lemma below_mono c d : (c <= d)%nat -> (below c <= below d)%nat.
Proof. intros H. induction H as [|d H IH]; [done|]. rewrite below_S. lia. Qed.

Lemma column_inj c d : used ks c = true -> column c = column d -> c = d.
Proof.
  unfold column. intros Hc. rewrite Hc. destruct (used ks d) eqn:Hd; [|discriminate]. intros [= E].
  destruct (lt_eq_lt_dec c d) as [[H|H]|H]; [|done|]; exfalso.
  - pose proof (below_mono (S c) d H). rewrite below_S, Hc in H0. lia.
  - pose proof (below_mono (S d) c H). rewrite below_S, Hd in H0. lia.
Qed.

Lemma columns_spec k :
  (k <= 128)%nat ->
  let st := foldl (add_column ks) (replicate 256 0%nat, 1%nat) (seq 0 k) in
  st.2 = S (below k) /\ length st.1 = 256%nat /\
  forall c, (c < 256)%nat -> st.1 !! c = Some (if decide (c < k)%nat then column c else 0%nat).
Proof.
  intros Hk. induction k as [|k IH].
  { cbn zeta. cbn [foldl seq fst snd]. split_and!; [done|by rewrite length_replicate|]. intros c Hc.
    rewrite decide_False by lia. by apply lookup_replicate. }
  specialize (IH ltac:(lia)). cbn zeta in *. rewrite seq_S, foldl_app. cbn [foldl plus].
  destruct (foldl (add_column ks) _ (seq 0 k)) as [l w]. cbn [fst snd] in *. destruct IH as (-> & Hl & Hc).
  unfold add_column. cbn [fst snd]. rewrite below_S.
  destruct (used ks k) eqn:E; cbn [fst snd]; split_and!; try done; try lia.
  - by rewrite length_insert.
  - intros c Hc'. destruct (decide (c = k)) as [->|Hne].
    + rewrite list_lookup_insert_eq by lia. rewrite decide_True by lia. unfold column. by rewrite E.
    + rewrite list_lookup_insert_ne by done. rewrite Hc by done.
      destruct (decide (c < k)%nat); [rewrite decide_True by lia|rewrite decide_False by lia]; done.
  - intros c Hc'. rewrite Hc by done. destruct (decide (c = k)) as [->|Hne].
    + rewrite decide_False by lia. rewrite decide_True by lia. unfold column. by rewrite E.
    + destruct (decide (c < k)%nat); [rewrite decide_True by lia|rewrite decide_False by lia]; done.
Qed.

Lemma fold_case_spec l k :
  length l = 256%nat -> (k <= 26)%nat ->
  forall c, (c < 256)%nat -> foldl fold_case l (seq 97 k) !! c =
    if decide (65 <= c < 65 + k)%nat then l !! (c + 32)%nat else l !! c.
Proof.
  intros Hl Hk. induction k as [|k IH]; intros c Hc.
  { cbn. rewrite decide_False by lia. done. }
  rewrite seq_S, foldl_app. cbn [foldl]. unfold fold_case at 1.
  specialize (IH ltac:(lia)). set (l' := foldl fold_case l (seq 97 k)) in *.
  assert (length l' = 256%nat) as Hl'.
  { unfold l'. generalize (seq 97 k). intros q. clear IH l'. revert l Hl.
    induction q as [|x q IH]; intros l Hl; [done|]. cbn. apply IH. unfold fold_case. by rewrite length_insert. }
  rewrite (IH (97 + k)%nat) by lia. rewrite decide_False by lia.
  destruct (decide (c = (97 + k - 32)%nat)) as [->|Hne].
  - rewrite list_lookup_insert_eq by lia. rewrite decide_True by lia.
    destruct (l !! (97 + k)%nat) as [x|] eqn:E; [|apply lookup_ge_None_1 in E; lia].
    replace (97 + k - 32 + 32)%nat with (97 + k)%nat by lia. by rewrite E.
  - rewrite list_lookup_insert_ne by lia. rewrite IH by done.
    destruct (decide (65 <= c < 65 + k)%nat); [rewrite decide_True by lia|rewrite decide_False by lia]; done.
Qed.

Hypothesis Hascii : forall c, used ks c = true -> (c < 128)%nat /\ lower_code c = c.

Lemma lower_code_cases c : (c < 256)%nat ->
  lower_code c = if decide (65 <= c < 91)%nat then (c + 32)%nat else c.
Proof.
  intros Hc. do 256 (destruct c as [|c]; [reflexivity|]). lia.
Qed.

Lemma class_spec c : (c < 256)%nat ->
  default 0%nat (classes_of ks !! c) = if decide (lower_code c < 128)%nat then column (lower_code c) else 0%nat.
Proof.
  intros Hc. unfold classes_of, columns. destruct (columns_spec 128 ltac:(lia)) as (_ & Hl & Hcol). cbn zeta in *.
  rewrite (fold_case_spec _ 26 Hl ltac:(lia) c Hc). rewrite lower_code_cases by done.
  destruct (decide (65 <= c < 65 + 26)%nat); [rewrite (decide_True (P := (65 <= c < 91)%nat)) by lia
                                              |rewrite (decide_False (P := (65 <= c < 91)%nat)) by lia].
  - by rewrite Hcol by lia.
  - by rewrite Hcol by lia.
Qed.

Lemma class_width c : (c < 256)%nat -> (default 0%nat (classes_of ks !! c) < (columns ks).2)%nat.
Proof.
  intros Hc. rewrite class_spec by done. unfold columns.
  destruct (columns_spec 128 ltac:(lia)) as (-> & _). case_decide as H; [|lia]. unfold column.
  destruct (used ks (lower_code c)) eqn:E; [|lia].
  pose proof (below_mono (S (lower_code c)) 128 ltac:(lia)) as Hm. rewrite below_S, E in Hm. lia.
Qed.

Lemma classes_length : length (classes_of ks) = 256%nat.
Proof.
  unfold classes_of, columns. destruct (columns_spec 128 ltac:(lia)) as (_ & Hl & _). cbn zeta in Hl.
  revert Hl. generalize (foldl (add_column ks) (replicate 256 0%nat, 1%nat) (seq 0 128)).1 (seq 97 26).
  intros l q. revert l. induction q as [|x q IH]; intros l Hl; [done|]. cbn. apply IH.
  unfold fold_case. by rewrite length_insert.
Qed.

Lemma class_in_width c : (default 0%nat (classes_of ks !! c) < (columns ks).2)%nat.
Proof.
  destruct (decide (c < 256)%nat) as [Hc|Hc]; [by apply class_width|].
  rewrite lookup_ge_None_2 by (rewrite classes_length; lia). unfold columns.
  destruct (columns_spec 128 ltac:(lia)) as (-> & _). cbn [default]. lia.
Qed.

(** A keyword's byte and a byte of a value share a column exactly when the fold makes them equal. *)
Lemma class_eq k c : used ks k = true -> (c < 256)%nat ->
  default 0%nat (classes_of ks !! c) = default 0%nat (classes_of ks !! k) <-> lower_code c = k.
Proof.
  intros Hk Hc. destruct (Hascii k Hk) as [Hk1 Hk2].
  rewrite (class_spec c Hc), (class_spec k) by lia. rewrite Hk2. rewrite (decide_True (P := (k < 128)%nat)) by done.
  split.
  - case_decide as H; [|unfold column; by rewrite Hk]. intros E. symmetry. by apply column_inj.
  - intros ->. by rewrite decide_True.
Qed.
End Columns.

(** ** What is registered *)

Definition ascii_code (c : nat) : Prop := (c < 128)%nat /\ lower_code c = c.

Record builder_ok (b : PrefilterBuilder) : Prop := {
  bo_gates : 0 <= gates b;
  bo_keywords : Forall (fun k => 0 <= kw_gate k < gates b /\ folded k <> "" /\
    Forall ascii_code (bytes_of (folded k))) (keywords b)
}.

Lemma foldKeyword_ok k f : foldKeyword k = Ok f -> f = str_map asciiLower k /\ Forall ascii_code (bytes_of f).
Proof.
  unfold foldKeyword. destruct (str_existsb _ k) eqn:E; [discriminate|]. intros [= <-]. split; [done|].
  induction k as [|c k IH]; [constructor|]. rewrite str_existsb_cons in E. apply orb_false_iff in E as [E1 E2].
  unfold bytes_of. cbn. constructor; [|by apply IH].
  assert (forall c, (RuneSelf <=? byte_code c) || (bool_decide (ascii_code (nat_of_ascii (asciiLower c)))) = true) as H.
  { intros [[][][][][][][][]]; vm_compute; reflexivity. }
  specialize (H c). rewrite E1 in H. by apply bool_decide_eq_true in H.
Qed.

Lemma fold_keywords_ok g ks l :
  fold_keywords g ks = Ok l ->
  l = map (fun k => mkGated (str_map asciiLower k) g) ks /\
  Forall (fun k => folded k <> "" /\ Forall ascii_code (bytes_of (folded k))) l.
Proof.
  revert l. induction ks as [|k ks IH]; intros l; cbn [fold_keywords]; [by intros [= <-]|].
  destruct (String.eqb_spec k "") as [->|Hne]; [discriminate|]. intros H.
  apply rbind_Ok in H as (f & Hf & H). apply rbind_Ok in H as (r & Hr & H). injection H as <-.
  apply foldKeyword_ok in Hf as [-> Hf]. destruct (IH r Hr) as [-> Hall]. split; [done|].
  constructor; [|done]. split; [|done]. by destruct k.
Qed.

Lemma AddKeywords_ok ks b g b' :
  AddKeywords ks b = Ok (g, b') -> builder_ok b ->
  builder_ok b' /\ (if bool_decide (ks = []) then g = AlwaysGate /\ b' = b
    else g = gates b /\ gates b' = g + 1 /\
      keywords b' = keywords b ++ map (fun k => mkGated (str_map asciiLower k) g) ks).
Proof.
  intros H [Hg Hk]. unfold AddKeywords in H. case_bool_decide as Hd; [by injection H as <- <-|].
  destruct (maxGates <=? gates b); [discriminate|]. apply rbind_Ok in H as (l & Hl & H). injection H as <- <-.
  apply fold_keywords_ok in Hl as [-> Hall]. split; [|done]. constructor; cbn; [lia|].
  apply Forall_app. split.
  - eapply Forall_impl; [exact Hk|]. cbn. intros k (? & ? & ?). split_and!; try done; lia.
  - apply Forall_map. apply Forall_map in Hall. eapply Forall_impl; [exact Hall|]. cbn. intros k [? ?].
    split_and!; try done; lia.
Qed.

Lemma register_ok sets b gs b' :
  register sets b = Ok (gs, b') -> builder_ok b ->
  builder_ok b' /\ gates b <= gates b' /\ length gs = length sets /\
  (exists new, keywords b' = keywords b ++ new /\ Forall (fun k => gates b <= kw_gate k) new) /\
  forall i ks g, sets !! i = Some ks -> gs !! i = Some g ->
    if bool_decide (ks = []) then g = AlwaysGate
    else 0 <= g /\ forall w, mkGated w g ∈ keywords b' <-> exists x, x ∈ ks /\ w = str_map asciiLower x.
Proof.
  revert b gs b'. induction sets as [|ks sets IH]; intros b gs b' H Hb; cbn [register] in H.
  { injection H as <- <-. split_and!; try done. exists []. by rewrite app_nil_r. }
  apply rbind_Ok in H as ([g b1] & Ha & H). apply rbind_Ok in H as ([gs1 b2] & Hr & H). injection H as <- <-.
  cbn [fst snd] in *. apply AddKeywords_ok in Ha as [Hb1 Hg]; [|done].
  destruct (IH _ _ _ Hr Hb1) as (Hb2 & Hle & Hlen & (new & Hnew & Hge) & Hall).
  assert (gates b <= gates b1) as Hle1 by (case_bool_decide; [by destruct Hg as [_ ->]|lia]).
  split_and!; [done|lia|cbn; by rewrite Hlen| |].
  - case_bool_decide as Hd; [destruct Hg as [_ ->]; by exists new|]. destruct Hg as (-> & Hg1 & Hk1).
    rewrite Hk1, <- app_assoc in Hnew. eexists. split; [exact Hnew|]. apply Forall_app. split.
    + apply Forall_map, Forall_forall. intros x _. cbn. lia.
    + eapply Forall_impl; [exact Hge|]. cbn. lia.
  - intros [|i] ks' g' Hks Hg'; [|by eapply Hall]. injection Hks as <-. injection Hg' as <-.
    case_bool_decide as Hd; [by destruct Hg|]. destruct Hg as (-> & Hg1 & Hk1).
    split; [apply Hb|]. intros w. rewrite Hnew, Hk1, !elem_of_app. split.
    + intros [[H|H]|H].
      * pose proof (proj1 (Forall_forall _ _) (bo_keywords _ Hb) _ H) as [? _]. cbn in *. lia.
      * apply list_elem_of_fmap in H as (x & [= ->] & Hx). by exists x.
      * pose proof (proj1 (Forall_forall _ _) Hge _ H) as H'. cbn in H'. lia.
    + intros (x & Hx & ->). left. right. apply list_elem_of_fmap. by exists x.
Qed.

(** ** The theorem *)

Lemma list_ascii_app a b : list_ascii_of_string (a +:+ b) = list_ascii_of_string a ++ list_ascii_of_string b.
Proof. induction a as [|c a IH]; [done|]. cbn. by rewrite IH. Qed.
Lemma list_ascii_map f s : list_ascii_of_string (str_map f s) = map f (list_ascii_of_string s).
Proof. induction s as [|c s IH]; [done|]. cbn. by rewrite IH. Qed.
Lemma list_ascii_inj a b : list_ascii_of_string a = list_ascii_of_string b -> a = b.
Proof. intros H. by rewrite <- (string_of_list_ascii_of_string a), H, string_of_list_ascii_of_string. Qed.

Lemma str_contains_infix p s :
  str_contains p s = true <-> exists a b, list_ascii_of_string s = a ++ list_ascii_of_string p ++ b.
Proof.
  split.
  - induction s as [|c s IH]; cbn [str_contains]; rewrite orb_true_iff.
    + intros [H|H]; [|done]. apply has_prefix_spec in H as [r ->]. exists [], (list_ascii_of_string r).
      by rewrite list_ascii_app.
    + intros [H|H].
      * apply has_prefix_spec in H as [r ->]. exists [], (list_ascii_of_string r). by rewrite list_ascii_app.
      * destruct (IH H) as (a & b & E). exists (c :: a), b. cbn. by rewrite E.
  - intros (a & b & E). revert s E. induction a as [|c a IH]; intros s E.
    + assert (has_prefix p s = true) as H.
      { apply has_prefix_spec. exists (string_of_list_ascii b). apply list_ascii_inj.
        by rewrite list_ascii_app, list_ascii_of_string_of_list_ascii. }
      destruct s; cbn [str_contains]; by rewrite H.
    + destruct s as [|c' s]; [done|]. cbn in E. injection E as <- E. cbn [str_contains].
      rewrite (IH s E). apply orb_true_r.
Qed.

Lemma map_app_inv {A B} (f : A -> B) l a b :
  map f l = a ++ b -> exists l1 l2, l = l1 ++ l2 /\ map f l1 = a /\ map f l2 = b.
Proof. intros H. destruct (map_eq_app f l a b H) as (l1 & l2 & ? & ? & ?). by exists l1, l2. Qed.

Lemma used_spec ks k c : k ∈ ks -> c ∈ bytes_of (folded k) -> used ks c = true.
Proof.
  intros Hk Hc. unfold used. apply existsb_exists. exists k. split; [by apply list_elem_of_In|].
  apply existsb_exists. exists c. split; [by apply list_elem_of_In|apply Nat.eqb_refl].
Qed.

Lemma used_ascii b c : builder_ok b -> used (keywords b) c = true -> ascii_code c.
Proof.
  intros [_ Hk] H. unfold used in H. apply existsb_exists in H as (k & Hin & H).
  apply existsb_exists in H as (x & Hx & E). apply Nat.eqb_eq in E as <-.
  apply list_elem_of_In in Hin, Hx. destruct (proj1 (Forall_forall _ _) Hk k Hin) as (_ & _ & Hf).
  by apply (proj1 (Forall_forall _ _) Hf).
Qed.

Lemma cons_eq {A} (x y : A) l k : x :: l = y :: k <-> x = y /\ l = k.
Proof. split; [by intros [= -> ->]|by intros [-> ->]]. Qed.

#[local] Opaque classes_of columns.

Section Exact.
Variable b : PrefilterBuilder.
Hypothesis Hb : builder_ok b.
Hypothesis Hsize : 1 + Zsum (map (fun k => slen (folded k)) (keywords b)) < 2 ^ 31.

Notation cls := (fun c => default 0%nat (classes_of (keywords b) !! c)).

Lemma ascii_code_bound (a : ascii) : (nat_of_ascii a < 256)%nat.
Proof. apply nat_ascii_bounded. Qed.

(** The columns of a piece of the value are a keyword's exactly when the fold makes them equal. *)
Lemma same_columns k y : k ∈ keywords b ->
  map cls (map nat_of_ascii y) = map cls (bytes_of (folded k)) <-> map asciiLower y = list_ascii_of_string (folded k).
Proof.
  intros Hk. unfold bytes_of.
  assert (forall f, (forall c, c ∈ f -> c ∈ list_ascii_of_string (folded k)) ->
    map cls (map nat_of_ascii y) = map cls (map nat_of_ascii f) <-> map asciiLower y = f) as H; [|by apply H].
  induction y as [|a y IH]; intros [|c f] Hf; [done|by split|by split|]. cbn [map].
  assert (used (keywords b) (nat_of_ascii c) = true) as Hu.
  { apply (used_spec _ k); [done|]. unfold bytes_of. apply list_elem_of_fmap. exists c. split; [done|]. apply Hf. by left. }
  pose proof (class_eq (keywords b) (fun c => used_ascii b c Hb) (nat_of_ascii c) (nat_of_ascii a) Hu (ascii_code_bound a)) as Hc.
  unfold lower_code in Hc. rewrite ascii_nat_embedding in Hc.
  specialize (IH f (fun x Hx => Hf x (list_elem_of_further _ _ _ Hx))). split.
  - rewrite !cons_eq. intros [E1 E2]. split; [|by apply IH]. apply Hc in E1.
    rewrite <- (ascii_nat_embedding (asciiLower a)), E1. apply ascii_nat_embedding.
  - rewrite !cons_eq. intros [E1 E2]. split; [|by apply IH]. apply Hc. by rewrite E1.
Qed.

Lemma Scan_spec value g : 0 <= g ->
  Z.testbit (Scan (Build b) value) g = true <->
  exists k, k ∈ keywords b /\ kw_gate k = g /\
    str_contains (folded k) (str_map asciiLower value) = true.
Proof.
  intros Hg. set (W := (columns (keywords b)).2).
  assert (forall c, (cls c < W)%nat) as Hcls by (intros c; apply class_in_width).
  destruct (automaton_final W cls (keywords b)) as (paths & Hroot & Hclosed & Hlen & Hlent & Hrows & Hwords & Hfin).
  { eapply Forall_impl; [apply Hb|]. cbn. intros k ([? _] & _ & _). split; [|done].
    apply Forall_map, Forall_forall. by intros. }
  set (nodes := automaton W cls (keywords b)) in *.
  set (ws := map (word_of cls) (keywords b)) in *.
  assert (Z.of_nat (length nodes) < 2 ^ 31) as Hsmall.
  { rewrite Hlen, Hlent. pose proof (trie_length W cls (keywords b)). lia. }
  set (l := list_ascii_of_string value).
  destruct (scan_ok W paths ws nodes cls (Build b) Hroot Hclosed Hwords Hlen Hsmall Hrows Hfin Hcls
    eq_refl (fun _ => eq_refl) eq_refl eq_refl l) as (_ & _ & _ & _ & _ & Hseen).
  unfold Scan. fold l. rewrite (Hseen g Hg). clear Hseen. unfold read. split.
  - intros (y & w & [l3 Hl] & Hne & Hw & [w1 Hs]).
    apply list_elem_of_fmap in Hw as (k & Ek & Hk). unfold word_of in Ek. apply pair_equal_spec in Ek as [-> ->].
    exists k. split_and!; [done|done|].
    rewrite <- (List.map_map nat_of_ascii cls) in Hs. apply map_app_inv in Hs as (q1 & q2 & Hq & _ & H2).
    apply map_app_inv in Hq as (y1 & y2 & -> & _ & <-). apply same_columns in H2; [|done].
    apply str_contains_infix. exists (map asciiLower y1), (map asciiLower l3).
    rewrite list_ascii_map. fold l. by rewrite Hl, !map_app, H2, <- app_assoc.
  - intros (k & Hk & <- & Hc). apply str_contains_infix in Hc as (a & c & E).
    rewrite list_ascii_map in E. fold l in E. apply map_app_inv in E as (l1 & l' & Hl & _ & E).
    apply map_app_inv in E as (l2 & l3 & -> & E & _).
    destruct (proj1 (Forall_forall _ _) (bo_keywords _ Hb) k Hk) as (_ & Hne & _).
    exists (l1 ++ l2), (map cls (bytes_of (folded k))). split_and!.
    + exists l3. by rewrite Hl, app_assoc.
    + intros H. apply app_eq_nil in H as [_ ->]. destruct (folded k); [by apply Hne|discriminate].
    + apply list_elem_of_fmap. by exists k.
    + exists (map (fun c => cls (nat_of_ascii c)) l1). rewrite map_app. f_equal.
      rewrite <- (List.map_map nat_of_ascii cls). by apply same_columns.
Qed.
End Exact.

(** C34: the keyword prefilter drops nothing a rule could match: after registering the rules' keyword
    sets in order, a rule's gate fires on a value exactly when the rule has no keywords or one of
    them occurs in the value, ASCII letters compared without case. *)
Theorem Scan_exact sets gs b value :
  register sets NewPrefilterBuilder = Ok (gs, b) ->
  1 + Zsum (map (fun k => slen (folded k)) (keywords b)) < 2 ^ 31 ->
  length gs = length sets /\
  forall i ks g, sets !! i = Some ks -> gs !! i = Some g ->
    Has (Scan (Build b) value) g = bool_decide (ks = []) || fires ks value.
Proof.
  intros H Hsize. assert (builder_ok NewPrefilterBuilder) as H0 by by constructor.
  destruct (register_ok _ _ _ _ H H0) as (Hb & _ & Hlen & _ & Hall). split; [done|].
  intros i ks g Hks Hg. specialize (Hall i ks g Hks Hg). case_bool_decide as Hd; [by rewrite Hall|].
  destruct Hall as [Hg0 Hw]. unfold Has. rewrite (proj2 (Z.ltb_ge g 0)) by lia. rewrite orb_false_l.
  apply eq_true_iff_eq. rewrite (Scan_spec b Hb Hsize value g Hg0). unfold fires. rewrite existsb_exists. split.
  - intros (k & Hk & Eg & Hc). destruct k as [w g']. cbn in *. subst g'.
    apply Hw in Hk as (x & Hx & ->). exists x. split; [by apply list_elem_of_In|done].
  - intros (x & Hx & Hc). apply list_elem_of_In in Hx. exists (mkGated (str_map asciiLower x) g).
    split_and!; [|done|done]. apply Hw. by exists x.
Qed.

Module SamplePrefilter.
Definition sets : list (list string) := [["AKIA"; "asia"]; ["ghp_"; "_token"]; []; ["ken"; "p_t"]].
Definition registered : list Z * PrefilterBuilder :=
  match register sets NewPrefilterBuilder with Ok r => r | Err _ => ([], NewPrefilterBuilder) end.

Lemma Scan_exact_witness :
  length registered.1 = 4%nat /\ Has (Scan (Build registered.2) "MY_TOKEN=x") 1 = true /\
  Has (Scan (Build registered.2) "MY_TOKEN=x") 0 = false.
Proof.
  destruct (Scan_exact sets registered.1 registered.2 "MY_TOKEN=x" eq_refl eq_refl) as [H1 H2].
  split; [exact H1|]. split.
  - rewrite (H2 1%nat ["ghp_"; "_token"] 1 eq_refl eq_refl). vm_compute. reflexivity.
  - rewrite (H2 0%nat ["AKIA"; "asia"] 0 eq_refl eq_refl). vm_compute. reflexivity.
Defined.
End SamplePrefilter.
