(* ===== verification/Crypto.v ===== *)
(** SHA-256 (FIPS 180-4), HMAC-SHA-256 (RFC 2104), lower-case hex and FNV-1a 64: what the source
    uses of [crypto/sha256], [crypto/hmac], [encoding/hex] and [hash/fnv], executable. *)

From S2P Require Import Prelude GoLib.

Module Sha256.

Definition mask32 : Z := 2 ^ 32 - 1.
Definition add32 (a b : Z) : Z := Z.land (a + b) mask32.
Definition rotr (n x : Z) : Z :=
  Z.lor (Z.shiftr x n) (Z.land (Z.shiftl x (32 - n)) mask32).

Definition Sigma0 (x : Z) : Z := Z.lxor (rotr 2 x) (Z.lxor (rotr 13 x) (rotr 22 x)).
Definition Sigma1 (x : Z) : Z := Z.lxor (rotr 6 x) (Z.lxor (rotr 11 x) (rotr 25 x)).
Definition sigma0 (x : Z) : Z := Z.lxor (rotr 7 x) (Z.lxor (rotr 18 x) (Z.shiftr x 3)).
Definition sigma1 (x : Z) : Z := Z.lxor (rotr 17 x) (Z.lxor (rotr 19 x) (Z.shiftr x 10)).
Definition Ch (x y z : Z) : Z := Z.lxor (Z.land x y) (Z.land (Z.lxor x mask32) z).
Definition Maj (x y z : Z) : Z := Z.lxor (Z.land x y) (Z.lxor (Z.land x z) (Z.land y z)).

(** The constants are the first 32 bits of the fractional parts of the cube roots (round constants)
    and of the square roots (initial state) of the first primes. *)
Definition is_prime (n : nat) : bool :=
  forallb (fun d => negb (Nat.eqb (Nat.modulo n d) 0)) (seq 2 (n - 2)).
Definition primes : list Z := map Z.of_nat (filter (fun n => Is_true (is_prime n)) (seq 2 310)).

(** The largest [r] of at most [k] bits with [r ^ 3 <= n]. *)
Fixpoint cube_root_bits (k : nat) (r n : Z) : Z :=
  match k with
  | O => r
  | S k =>
      let c := r + 2 ^ Z.of_nat k in
      cube_root_bits k (if c * c * c <=? n then c else r) n
  end.

Definition frac_cbrt (p : Z) : Z := Z.land (cube_root_bits 36 0 (p * 2 ^ 96)) mask32.
Definition frac_sqrt (p : Z) : Z := Z.land (Z.sqrt (p * 2 ^ 64)) mask32.

Definition K : list Z := Eval vm_compute in map frac_cbrt (take 64 primes).
Definition H0 : list Z := Eval vm_compute in map frac_sqrt (take 8 primes).

Fixpoint bytes_of (s : string) : list Z :=
  match s with "" => [] | String c r => byte_code c :: bytes_of r end.

(** Big-endian 32-bit words of a byte list. *)
Fixpoint words (l : list Z) : list Z :=
  match l with
  | a :: b :: c :: d :: r =>
      Z.lor (Z.shiftl a 24) (Z.lor (Z.shiftl b 16) (Z.lor (Z.shiftl c 8) d)) :: words r
  | _ => []
  end.

Fixpoint be_bytes (n : nat) (z : Z) : list Z :=
  match n with
  | O => []
  | S n => Z.land (Z.shiftr z (8 * Z.of_nat n)) 255 :: be_bytes n z
  end.

(** The message, a one bit, zeros to 56 modulo 64, the bit length on eight bytes. *)
Definition pad (m : list Z) : list Z :=
  let len := Zlen m in
  m ++ [128] ++ replicate (Z.to_nat ((55 - len) mod 64)) 0 ++ be_bytes 8 (8 * len).

(** The message schedule, kept as the last sixteen words, newest first. *)
Fixpoint schedule (n : nat) (w : list Z) : list Z :=
  match n with
  | O => w
  | S n =>
      let x := add32 (add32 (sigma1 (nth 1 w 0)) (nth 6 w 0))
                     (add32 (sigma0 (nth 14 w 0)) (nth 15 w 0)) in
      schedule n (x :: w)
  end.

Definition round (st : list Z) (kw : Z * Z) : list Z :=
  match st with
  | [a; b; c; d; e; f; g; h] =>
      let t1 := add32 (add32 h (Sigma1 e)) (add32 (Ch e f g) (add32 (fst kw) (snd kw))) in
      let t2 := add32 (Sigma0 a) (Maj a b c) in
      [add32 t1 t2; a; b; c; add32 d t1; e; f; g]
  | _ => st
  end.

Definition compress (h block : list Z) : list Z :=
  let w := rev (schedule 48 (rev block)) in
  zip_with add32 h (foldl round h (zip K w)).

Fixpoint blocks (fuel : nat) (h ws : list Z) : list Z :=
  match fuel, ws with
  | O, _ | _, [] => h
  | S fuel, _ => blocks fuel (compress h (take 16 ws)) (drop 16 ws)
  end.

Definition digest (m : list Z) : list Z :=
  let ws := words (pad m) in
  mjoin (map (be_bytes 4) (blocks (length ws) H0 ws)).

End Sha256.

Definition hex_digits : string := "0123456789abcdef".
Definition hex_lower (n : Z) : ascii :=
  default "0"%char (String.get (Z.to_nat n) hex_digits).

Fixpoint hex_encode (l : list Z) : string :=
  match l with
  | [] => ""
  | b :: r => String (hex_lower (Z.shiftr b 4)) (String (hex_lower (Z.land b 15)) (hex_encode r))
  end.

(** [hex.EncodeToString(sha256.Sum256(s))]. *)
Definition sha256_hex (s : string) : string := hex_encode (Sha256.digest (Sha256.bytes_of s)).

(** HMAC with SHA-256: keys longer than the 64-byte block are hashed first. *)
Definition hmac_sha256 (key msg : list Z) : list Z :=
  let k0 := if 64 <? Zlen key then Sha256.digest key else key in
  let k := k0 ++ replicate (64 - length k0) 0 in
  Sha256.digest (map (Z.lxor 0x5c) k ++ Sha256.digest (map (Z.lxor 0x36) k ++ msg)).

(** [hash/fnv] New64a over the concatenation of what was written. *)
Definition fnv_prime : Z := 1099511628211.
Definition fnv_offset : Z := 14695981039346656037.
Definition fnv64a_step (h : Z) (b : Z) : Z := uint64 (Z.lxor h b * fnv_prime).
Definition fnv64a (msg : list Z) : Z := foldl fnv64a_step fnv_offset msg.

Lemma fnv64a_range msg : 0 <= fnv64a msg < 2 ^ 64.
Proof.
  unfold fnv64a. assert (H : 0 <= fnv_offset < 2 ^ 64) by (unfold fnv_offset; lia).
  revert H. generalize fnv_offset as h. induction msg as [|b r IH]; intros h H; simpl; [done|].
  apply IH. unfold fnv64a_step. apply uint64_range.
Qed.

Lemma hex_encode_no_slash l : no_byte "/" (hex_encode l) = true.
Proof.
  assert (forall n, negb (hex_lower n =? "/")%char = true) as H.
  { intros n. unfold hex_lower. generalize (Z.to_nat n) as k. intros k.
    do 16 (destruct k as [|k]; [reflexivity|]). by destruct k. }
  induction l as [|b r IH]; [done|]. unfold no_byte in *. simpl. by rewrite !H, IH.
Qed.

(** ** A digest is 64 lower-case hex digits *)

Definition is_hex (c : ascii) : bool := is_digit c || in_range "a" "f" c.
Definition sha256_ok (s : string) : bool := str_forallb is_hex s && (slen s =? 64).

Lemma hex_encode_hex l : str_forallb is_hex (hex_encode l) = true.
Proof.
  assert (forall n, is_hex (hex_lower n) = true) as H.
  { intros n. unfold hex_lower. generalize (Z.to_nat n) as k. intros k.
    do 16 (destruct k as [|k]; [reflexivity|]). by destruct k. }
  induction l as [|b r IH]; [done|]. simpl. by rewrite !H, IH.
Qed.

Lemma hex_encode_length l : slen (hex_encode l) = 2 * Zlen l.
Proof.
  unfold slen, Zlen. induction l as [|b r IH]; [done|].
  cbn [hex_encode String.length length] in *. lia.
Qed.

Lemma round_length st kw : length st = 8%nat -> length (Sha256.round st kw) = 8%nat.
Proof. do 8 (destruct st as [|? st]; [done|]). by destruct st. Qed.

Lemma blocks_length fuel h ws : length h = 8%nat -> length (Sha256.blocks fuel h ws) = 8%nat.
Proof.
  revert h ws; induction fuel as [|fuel IH]; intros h ws Hh; [done|].
  destruct ws as [|w ws]; [done|]. cbn [Sha256.blocks]. apply IH. unfold Sha256.compress.
  rewrite length_zip_with.
  assert (forall kws st, length st = 8%nat -> length (foldl Sha256.round st kws) = 8%nat) as Hf.
  { intros kws. induction kws as [|kw kws IHk]; intros st Hst; [done|].
    cbn [foldl]. by apply IHk, round_length. }
  rewrite Hf by done. lia.
Qed.

Lemma be_bytes_length k n : length (Sha256.be_bytes k n) = k.
Proof. induction k as [|k IH]; simpl; [done|]. by rewrite IH. Qed.

Lemma digest_hex_ok m : sha256_ok (hex_encode (Sha256.digest m)) = true.
Proof.
  unfold sha256_ok. rewrite hex_encode_hex, hex_encode_length. cbn [andb].
  unfold Sha256.digest. set (ws := Sha256.words _).
  assert (length (Sha256.blocks (length ws) Sha256.H0 ws) = 8%nat) as H8
    by (apply blocks_length; reflexivity).
  destruct (Sha256.blocks _ _ _) as [|h0 l]; [done|].
  do 7 (destruct l as [|? l]; [done|]). destruct l; [|done].
  unfold Zlen, mjoin, list_join. cbn [map]. by rewrite !length_app, !be_bytes_length.
Qed.

Lemma sha256_hex_ok s : sha256_ok (sha256_hex s) = true.
Proof. apply digest_hex_ok. Qed.

(** The "abc" vector of FIPS 180-4 and the second HMAC vector of RFC 4231. *)
Example sha256_abc :
  sha256_hex "abc" = "ba7816bf8f01cfea414140de5dae2223b00361a396177a9cb410ff61f20015ad".
Proof. vm_compute. reflexivity. Qed.

Example hmac_rfc4231_2 :
  hex_encode (hmac_sha256 (Sha256.bytes_of "Jefe")
                (Sha256.bytes_of "what do ya want for nothing?"))
  = "5bdcc146bf60754e6a042426089575c75a003f089d2739839dec58b964ec3843".
Proof. vm_compute. reflexivity. Qed.
