(* ===== verification/Naming.v ===== *)
(** Object naming: [src/internal/formats/naming.go] (canonical paths, the username placeholder,
    mirror and state keys) and [src/internal/engine/username.go]. *)

From S2P Require Import Prelude GoLib Crypto.

(** ** [path.Clean] of the Go standard library, on "/"-separated paths *)

Module Path.

(** Elements are walked left to right with a stack of the kept ones, newest first: "" and "." drop,
    ".." pops a kept element, stays when there is nothing to pop in a relative path, and vanishes
    at the root of an absolute one. *)
Fixpoint clean_segs (rooted : bool) (stack segs : list string) : list string :=
  match segs with
  | [] => rev stack
  | seg :: r =>
      if (seg =? "")%string || (seg =? ".")%string then clean_segs rooted stack r
      else if (seg =? "..")%string then
        match stack with
        | top :: stack' =>
            if (top =? "..")%string then clean_segs rooted (seg :: stack) r
            else clean_segs rooted stack' r
        | [] => if rooted then clean_segs rooted [] r else clean_segs rooted [seg] r
        end
      else clean_segs rooted (seg :: stack) r
  end.

Definition Clean (p : string) : string :=
  let rooted := has_prefix "/" p in
  let body := join "/" (clean_segs rooted [] (split_on "/" p)) in
  if rooted then "/" +:+ body
  else if (body =? "")%string then "." else body.

End Path.

(** ** Definitions of naming.go *)

Definition NameKeySize : Z := 32.
Definition mirrorDomain : string := "mirror:".
Definition UserPlaceholder : string := "__USER__".

Definition isAlnum (c : ascii) : bool := is_lower c || is_upper c || is_digit c.

(** [identifierRe]: [^[a-z0-9][a-z0-9._-]{0,63}$]. *)
Definition ident_head (c : ascii) : bool := is_lower c || is_digit c.
Definition ident_tail (c : ascii) : bool :=
  ident_head c || (c =? ".")%char || (c =? "_")%char || (c =? "-")%char.
Definition identifierRe (v : string) : bool :=
  match v with
  | "" => false
  | String c r => ident_head c && str_forallb ident_tail r && (slen r <=? 63)
  end.

Definition encodeByte (c : ascii) : string :=
  if isAlnum c || (c =? ".")%char || (c =? "_")%char || (c =? "~")%char || (c =? "-")%char
  then String c ""
  else
    let hexDigits := "0123456789ABCDEF" in
    let digit n := default "0"%char (String.get (Z.to_nat n) hexDigits) in
    String "%" (String (digit (Z.shiftr (byte_code c) 4))
                 (String (digit (Z.land (byte_code c) 15)) "")).

Definition encodeSegment (s : string) : string := str_flat_map encodeByte s.

(** The loop of [ApplyUserPlaceholder]: [prev] is [s[i-1]], [skip] the bytes of a replaced
    occurrence still to step over. *)
Definition boundary (next : string) : bool :=
  match next with "" => true | String c _ => negb (isAlnum c) end.
Definition left_boundary (prev : option ascii) : bool :=
  match prev with None => true | Some c => negb (isAlnum c) end.

Fixpoint placeholder_loop (username : string) (prev : option ascii) (skip : nat) (s : string)
    : string :=
  match s with
  | "" => ""
  | String c r =>
      match skip with
      | S k => placeholder_loop username (Some c) k r
      | O =>
          if has_prefix username s && left_boundary prev &&
             boundary (str_drop (String.length username) s)
          then UserPlaceholder +:+
               placeholder_loop username (Some c) (String.length username - 1) r
          else String c (placeholder_loop username (Some c) O r)
      end
  end.

Definition ApplyUserPlaceholder (s username : string) : string :=
  if (slen username <? 2) || (s =? "")%string then s
  else placeholder_loop username None O s.

Definition CanonicalPath (sourceRelPath username : string) : string :=
  let p := Path.Clean (replace_byte "\" "/" sourceRelPath) in
  let p := trim_prefix "/" p in
  let p := if (p =? ".")%string then "" else p in
  let p := ApplyUserPlaceholder p username in
  join "/" (map encodeSegment (split_on "/" p)).

Definition MirrorName (nameKey : list Z) (canonicalPath : string) : string :=
  hex_encode (hmac_sha256 nameKey (Sha256.bytes_of (mirrorDomain +:+ canonicalPath))).

(** The four refusals of this file. *)
Inductive naming_error :=
  | BadSegment (kind v : string)
  | BadNameKey (len : Z)
  | BadStateName (name : string).

#[global] Instance naming_error_eq_dec : EqDecision naming_error.
Proof. solve_decision. Defined.

Definition checkSegment (kind v : string) : result naming_error () :=
  if identifierRe v then Ok () else Err (BadSegment kind v).

Definition InstallRoot (org installID : string) : result naming_error string :=
  let! _ := checkSegment "organization" org in
  let! _ := checkSegment "install" installID in
  Ok ("v1/organization=" +:+ org +:+ "/install=" +:+ installID).

Definition MirrorKey (org installID sourceID : string) (nameKey : list Z)
    (canonicalPath : string) : result naming_error string :=
  let! root := InstallRoot org installID in
  let! _ := checkSegment "source" sourceID in
  if negb (Zlen nameKey =? NameKeySize) then Err (BadNameKey (Zlen nameKey))
  else Ok (root +:+ "/mirror/source=" +:+ sourceID +:+ "/" +:+
           MirrorName nameKey canonicalPath +:+ ".age").

Definition StateKey (org installID name : string) : result naming_error string :=
  let! root := InstallRoot org installID in
  if (name =? "")%string || str_contains "/" name then Err (BadStateName name)
  else Ok (root +:+ "/state/" +:+ name).

Fixpoint username_after_home (segs : list string) : string :=
  match segs with
  | [] => ""
  | seg :: r =>
      match r with
      | next :: _ =>
          if (seg =? "Users")%string || (seg =? "home")%string then next
          else username_after_home r
      | [] => ""
      end
  end.

Definition UsernameFromPath (p : string) : string :=
  username_after_home (split_on "/" (replace_byte "\" "/" p)).

(** [user.Current] answers for the machine: [None] is its error. *)
Definition UsernameFromStateDir (current_user : option string) (stateDir : string) : string :=
  let fallback :=
    match current_user with
    | Some u =>
        match split_on "\" u with
        | _ :: ((_ :: _) as after) => join "\" after
        | _ => u
        end
    | None => ""
    end in
  if negb (stateDir =? "")%string
  then str_or (UsernameFromPath stateDir) fallback
  else fallback.

(** ** The percent-encoding is injective *)

(** A decoder, only to state that the encoding loses nothing. *)
Definition hex_value (c : ascii) : Z :=
  if is_digit c then byte_code c - 48 else byte_code c - 55.

Fixpoint decode_bytes (s : string) : string :=
  match s with
  | String c (String a (String b r) as t) =>
      if (c =? "%")%char
      then String (byte_of (16 * hex_value a + hex_value b)) (decode_bytes r)
      else String c (decode_bytes t)
  | _ => s
  end.

Definition decode_one_ok (c : ascii) : bool :=
  match encodeByte c with
  | String a "" => negb (a =? "%")%char && (a =? c)%char
  | String p (String a (String b "")) =>
      (p =? "%")%char && (byte_of (16 * hex_value a + hex_value b) =? c)%char
  | _ => false
  end.

Lemma decode_one c : decode_one_ok c = true.
Proof. apply all_bytes_spec. vm_compute. reflexivity. Qed.

Lemma decode_encodeByte c s : decode_bytes (encodeByte c +:+ s) = String c (decode_bytes s).
Proof.
  pose proof (decode_one c) as H. unfold decode_one_ok in H.
  destruct (encodeByte c) as [|p [|a [|b [|]]]]; try done; simpl.
  - apply andb_true_iff in H as [Hp ->%Ascii.eqb_eq]. apply negb_true_iff in Hp.
    destruct s as [|x [|y z]]; simpl; try done. by rewrite Hp.
  - apply andb_true_iff in H as [-> ->%Ascii.eqb_eq]. done.
Qed.

Lemma decode_encodeSegment s : decode_bytes (encodeSegment s) = s.
Proof.
  unfold encodeSegment. induction s as [|c r IH]; [done|]. cbn [str_flat_map].
  by rewrite decode_encodeByte, IH.
Qed.

#[global] Instance encodeSegment_inj : Inj (=) (=) encodeSegment.
Proof. intros a b H. by rewrite <- (decode_encodeSegment a), H, decode_encodeSegment. Qed.

(** Every byte an encoded segment can hold. *)
Definition key_byte (c : ascii) : bool :=
  isAlnum c || (c =? ".")%char || (c =? "_")%char || (c =? "~")%char || (c =? "-")%char
  || (c =? "%")%char.

Lemma encodeByte_key_bytes c : str_forallb key_byte (encodeByte c) = true.
Proof. revert c. apply all_bytes_spec. vm_compute. reflexivity. Qed.

Lemma encodeSegment_key_bytes s : str_forallb key_byte (encodeSegment s) = true.
Proof.
  unfold encodeSegment. induction s as [|c r IH]; [done|]. simpl.
  by rewrite str_forallb_app, encodeByte_key_bytes, IH.
Qed.

Lemma key_byte_not_slash c : key_byte c = true -> negb (c =? "/")%char = true.
Proof.
  intros H. assert (implb (key_byte c) (negb (c =? "/")%char) = true) as Hi.
  { revert c H. intros c _. revert c. apply all_bytes_spec. vm_compute. reflexivity. }
  by rewrite H in Hi.
Qed.

Lemma encodeSegment_no_slash s : no_byte "/" (encodeSegment s) = true.
Proof.
  eapply str_forallb_impl; [apply key_byte_not_slash|apply encodeSegment_key_bytes].
Qed.

Lemma map_encode_no_slash l :
  Forall (fun s => no_byte "/" s = true) (map encodeSegment l).
Proof. apply Forall_map, Forall_true. intros s. apply encodeSegment_no_slash. Qed.

Lemma encoded_segments p :
  split_on "/" (join "/" (map encodeSegment (split_on "/" p)))
  = map encodeSegment (split_on "/" p).
Proof.
  apply split_join; [|apply map_encode_no_slash].
  pose proof (split_on_nonempty "/" p). by destruct (split_on "/" p).
Qed.

(** The path a canonical path encodes. *)
Definition placeheld_path (sourceRelPath username : string) : string :=
  let p := trim_prefix "/" (Path.Clean (replace_byte "\" "/" sourceRelPath)) in
  ApplyUserPlaceholder (if (p =? ".")%string then "" else p) username.

(** The canonical path determines the placeheld, cleaned path it was computed from and nothing
    more: two files of an install share a mirror name's input exactly when their cleaned,
    placeheld paths are equal, and each "/"-separated segment holds only unreserved bytes and "%". *)
Theorem CanonicalPath_injective p q u v :
  (CanonicalPath p u = CanonicalPath q v <-> placeheld_path p u = placeheld_path q v) /\
  Forall (fun seg => str_forallb key_byte seg = true) (split_on "/" (CanonicalPath p u)).
Proof.
  assert (forall x y, CanonicalPath x y
            = join "/" (map encodeSegment (split_on "/" (placeheld_path x y)))) as E by done.
  rewrite !E. split; [split; [intros H|by intros ->]|].
  - apply (f_equal (split_on "/")) in H. rewrite !encoded_segments in H.
    apply (list_fmap_eq_inj encodeSegment encodeSegment_inj) in H.
    apply (f_equal (join "/")) in H. by rewrite !join_split in H.
  - rewrite encoded_segments. apply Forall_map, Forall_true. apply encodeSegment_key_bytes.
Qed.

(** ** The username placeholder *)

(** A text in which the loop never fires comes back unchanged. *)
Lemma placeholder_loop_id u prev s :
  u <> "" -> str_contains u s = false -> placeholder_loop u prev 0 s = s.
Proof.
  intros Hu. revert prev; induction s as [|c r IH]; intros prev; cbn; [done|].
  intros [H1 H2]%orb_false_iff. rewrite H1. cbn. by rewrite IH.
Qed.

(** Skipping the rest of a replaced occurrence. *)
Lemma placeholder_loop_skip u prev w t :
  placeholder_loop u prev (String.length w) (w +:+ t)
  = placeholder_loop u (match str_rev w with "" => prev | String c _ => Some c end) 0 t.
Proof.
  revert prev; induction w as [|c w IH]; intros prev; [done|]. cbn. rewrite IH.
  rewrite str_rev_cons. destruct (str_rev w); done.
Qed.

(** The last byte of a text, and whether it may stand left of a username. *)
Definition ends_at_boundary (pre : string) : bool :=
  match str_rev pre with "" => true | String c _ => negb (isAlnum c) end.

Lemma ends_at_boundary_cons c p :
  p <> "" -> ends_at_boundary (String c p) = ends_at_boundary p.
Proof.
  intros Hp. unfold ends_at_boundary. rewrite str_rev_cons.
  destruct (str_rev p) eqn:E; [|done].
  destruct Hp. rewrite <- (str_rev_involutive p), E. done.
Qed.

(** An alphanumeric username cannot start inside a text that ends at a boundary, unless it occurs
    in that text. *)
Lemma no_straddle u p t :
  str_forallb isAlnum u = true -> p <> "" -> ends_at_boundary p = true ->
  has_prefix u (p +:+ t) = true -> has_prefix u p = true.
Proof.
  revert p; induction u as [|a u IH]; intros p Hu Hp Hb; [by destruct p|].
  destruct p as [|c p]; [done|]. cbn in *.
  apply andb_true_iff in Hu as [Ha Hu]. intros [Hc H]%andb_true_iff. rewrite Hc. cbn.
  apply Ascii.eqb_eq in Hc as ->.
  destruct p as [|d p].
  - unfold ends_at_boundary, str_rev in Hb. simpl in Hb. by rewrite Ha in Hb.
  - rewrite ends_at_boundary_cons in Hb by done. by apply IH.
Qed.

Lemma placeholder_loop_prefix u prev pre t :
  u <> "" -> str_forallb isAlnum u = true -> str_contains u pre = false ->
  ends_at_boundary pre = true ->
  placeholder_loop u prev 0 (pre +:+ t)
  = pre +:+ placeholder_loop u (match str_rev pre with "" => prev | String c _ => Some c end) 0 t.
Proof.
  intros Hu Ha. revert prev; induction pre as [|c p IH]; intros prev; [done|].
  intros Hn Hb. pose proof Hn as Hn'. cbn in Hn'. apply orb_false_iff in Hn' as [Hn1 Hn2].
  change (String c p +:+ t) with (String c (p +:+ t)). cbn [placeholder_loop].
  assert (has_prefix u (String c (p +:+ t)) = false) as ->.
  { apply not_true_is_false. intros H.
    apply (no_straddle u (String c p) t) in H; try done. cbn in H. congruence. }
  cbn [andb]. change (String c p +:+ ?x) with (String c (p +:+ x)). f_equal.
  destruct (decide (p = "")) as [->|Hp]; [done|].
  rewrite IH; [|done|by rewrite <- (ends_at_boundary_cons c)].
  rewrite str_rev_cons. by destruct (str_rev p) eqn:E.
Qed.

(** One delimited occurrence is replaced, whatever the name is. *)
Lemma placeholder_replaces u pre post :
  2 <= slen u -> str_forallb isAlnum u = true ->
  str_contains u pre = false -> str_contains u post = false ->
  ends_at_boundary pre = true -> boundary post = true ->
  ApplyUserPlaceholder (pre +:+ u +:+ post) u = pre +:+ UserPlaceholder +:+ post.
Proof.
  intros Hl Ha Hpre Hpost Hb1 Hb2.
  destruct u as [|a u]; [unfold slen in Hl; simpl in Hl; lia|].
  unfold ApplyUserPlaceholder.
  replace (slen (String a u) <? 2) with false by (symmetry; apply Z.ltb_ge; lia).
  replace (pre +:+ String a u +:+ post =? "")%string with false; [|by destruct pre].
  cbn [orb]. rewrite placeholder_loop_prefix by done. f_equal.
  change (String a u +:+ post) with (String a (u +:+ post)). cbn [placeholder_loop].
  assert (has_prefix (String a u) (String a (u +:+ post)) = true) as ->.
  { apply has_prefix_spec. by exists post. }
  assert (left_boundary (match str_rev pre with "" => None | String c _ => Some c end) = true)
    as ->.
  { unfold ends_at_boundary in Hb1. by destruct (str_rev pre). }
  change (String a (u +:+ post)) with (String a u +:+ post). rewrite str_drop_app, Hb2.
  cbn [andb]. f_equal. cbn [String.length]. rewrite Nat.sub_succ, Nat.sub_0_r.
  rewrite placeholder_loop_skip. by apply placeholder_loop_id.
Qed.

(** The canonical form is the same for every user: a text that mentions the user's name once,
    between boundaries, is rewritten to the same placeheld text on machines with different
    (alphanumeric, at least two bytes long) user names, so the same logical file keeps its key. *)
Theorem ApplyUserPlaceholder_converges u v pre post :
  2 <= slen u -> 2 <= slen v ->
  str_forallb isAlnum u = true -> str_forallb isAlnum v = true ->
  str_contains u pre = false -> str_contains u post = false ->
  str_contains v pre = false -> str_contains v post = false ->
  ends_at_boundary pre = true -> boundary post = true ->
  ApplyUserPlaceholder (pre +:+ u +:+ post) u = ApplyUserPlaceholder (pre +:+ v +:+ post) v.
Proof. intros. by rewrite !placeholder_replaces. Qed.

Lemma ApplyUserPlaceholder_converges_witness :
  ApplyUserPlaceholder "/Users/jane/work/a.go" "jane"
  = ApplyUserPlaceholder "/Users/bob7/work/a.go" "bob7".
Proof.
  apply (ApplyUserPlaceholder_converges "jane" "bob7" "/Users/" "/work/a.go");
    by vm_compute.
Defined.

(** ** Keys *)

Lemma ident_tail_no_slash c : ident_tail c = true -> negb (c =? "/")%char = true.
Proof.
  intros H. assert (implb (ident_tail c) (negb (c =? "/")%char) = true) as Hi.
  { clear H. revert c. apply all_bytes_spec. vm_compute. reflexivity. }
  by rewrite H in Hi.
Qed.

Lemma identifier_no_slash v : identifierRe v = true -> no_byte "/" v = true.
Proof.
  destruct v as [|c r]; [done|]. cbn. intros [[Hc Hr]%andb_true_iff _]%andb_true_iff.
  unfold no_byte. cbn. rewrite andb_true_iff. split.
  - apply ident_tail_no_slash. unfold ident_tail. by rewrite Hc.
  - eapply str_forallb_impl; [apply ident_tail_no_slash|done].
Qed.

Lemma checkSegment_Ok kind v x : checkSegment kind v = Ok x <-> identifierRe v = true.
Proof. unfold checkSegment. destruct x. case_match; naive_solver. Qed.

Lemma InstallRoot_Ok org inst root :
  InstallRoot org inst = Ok root <->
  identifierRe org = true /\ identifierRe inst = true /\
  root = "v1/organization=" +:+ org +:+ "/install=" +:+ inst.
Proof.
  unfold InstallRoot. split.
  - intros H. inv_ok. split_hyps. rewrite checkSegment_Ok in *. naive_solver.
  - intros (H1 & H2 & ->). apply (checkSegment_Ok "organization" org ()) in H1 as ->.
    by apply (checkSegment_Ok "install" inst ()) in H2 as ->.
Qed.

(** The segments of a mirror key, and of a state key. *)
Lemma MirrorKey_segments org inst src nk cp k :
  MirrorKey org inst src nk cp = Ok k ->
  split_on "/" k = ["v1"; "organization=" +:+ org; "install=" +:+ inst; "mirror";
                    "source=" +:+ src; MirrorName nk cp +:+ ".age"].
Proof.
  unfold MirrorKey. intros H. inv_ok.
  match goal with H : InstallRoot _ _ = _ |- _ =>
    apply InstallRoot_Ok in H as (Ho & Hi & ->) end.
  match goal with H : checkSegment _ _ = _ |- _ => apply checkSegment_Ok in H as Hs end.
  apply identifier_no_slash in Ho, Hi, Hs.
  rewrite !string_app_assoc.
  transitivity (split_on "/" (join "/" ["v1"; "organization=" +:+ org; "install=" +:+ inst;
    "mirror"; "source=" +:+ src; MirrorName nk cp +:+ ".age"])).
  { f_equal; cbn; by rewrite ?string_app_assoc. }
  apply split_join; [done|].
  repeat constructor; unfold no_byte; rewrite ?str_forallb_app; unfold no_byte in *;
    rewrite ?Ho, ?Hi, ?Hs; try done.
  unfold MirrorName. pose proof (hex_encode_no_slash (hmac_sha256 nk
    (Sha256.bytes_of (mirrorDomain +:+ cp)))) as Hh. unfold no_byte in Hh. by rewrite Hh.
Qed.

Lemma split_on_prefix_segments a b k :
  has_prefix (a +:+ "/") k = true -> split_on "/" a = b ->
  exists r, split_on "/" k = b ++ r.
Proof.
  intros [r ->]%has_prefix_spec <-. exists (split_on "/" r).
  rewrite string_app_assoc. cbn.
  induction a as [|c a IH]; [done|]. cbn. destruct (c =? "/")%char; [by rewrite IH|].
  rewrite IH.
  pose proof (split_on_nonempty "/" a). by destruct (split_on "/" a).
Qed.

(** An object key stays inside its owner's prefix: the key an install writes a file under is
    never below the prefix of another (organization, install) pair, so one prefix delete erases
    exactly one install, and two keys of one install are equal only for one source and one mirror
    name. *)
Theorem MirrorKey_isolated org inst src nk cp k org' inst' root' :
  MirrorKey org inst src nk cp = Ok k ->
  InstallRoot org' inst' = Ok root' ->
  (has_prefix (root' +:+ "/") k = true <-> org = org' /\ inst = inst') /\
  (forall src' cp' k', MirrorKey org inst src' nk cp' = Ok k' ->
     (k = k' <-> src = src' /\ MirrorName nk cp = MirrorName nk cp')).
Proof.
  intros Hk Hr. pose proof (MirrorKey_segments _ _ _ _ _ _ Hk) as Hsegs.
  apply InstallRoot_Ok in Hr as (Ho & Hi & ->). split; [split|].
  - intros Hp. apply (split_on_prefix_segments _
      ["v1"; "organization=" +:+ org'; "install=" +:+ inst']) in Hp as [r Hr].
    + rewrite Hr in Hsegs. injection Hsegs as H1 H2 _.
      change ("organization=" +:+ ?x) with (String.append "organization=" x) in H1.
      repeat (injection H1 as H1). repeat (injection H2 as H2). done.
    + apply identifier_no_slash in Ho, Hi.
      transitivity (split_on "/" (join "/" ["v1"; "organization=" +:+ org'; "install=" +:+ inst'])).
      * f_equal; cbn; by rewrite ?string_app_assoc.
      * apply split_join; [done|]. repeat constructor; done.
  - intros [-> ->]. unfold MirrorKey in Hk. inv_ok.
    match goal with H : InstallRoot _ _ = _ |- _ =>
      apply InstallRoot_Ok in H as (_ & _ & Hroot) end. rewrite <- Hroot.
    apply has_prefix_spec.
    exists ("mirror/source=" +:+ src +:+ "/" +:+ MirrorName nk cp +:+ ".age").
    by rewrite string_app_assoc.
  - intros src' cp' k' Hk'. pose proof (MirrorKey_segments _ _ _ _ _ _ Hk') as Hsegs'. split.
    + intros ->. rewrite Hsegs in Hsegs'. injection Hsegs' as H1 H2.
      repeat (injection H1 as H1). split; [done|].
      pose proof (cut_suffix_spec ".age" (MirrorName nk cp +:+ ".age") (MirrorName nk cp)) as E1.
      pose proof (cut_suffix_spec ".age" (MirrorName nk cp +:+ ".age") (MirrorName nk cp')) as E2.
      destruct E1 as [_ E1], E2 as [_ E2].
      specialize (E1 eq_refl). specialize (E2 H2). congruence.
    + intros [-> Hm]. rewrite <- (join_split "/" k), <- (join_split "/" k'), Hsegs, Hsegs', Hm.
      done.
Qed.

Lemma MirrorKey_isolated_witness :
  has_prefix "v1/organization=acme/install=i2/"
    "v1/organization=acme/install=i1/mirror/source=claude/28547a64a206a3b4d14d27ccbf75019e758fc176524ac0ea7b0a83ef7df78ef4.age"
  = false.
Proof.
  destruct (MirrorKey_isolated "acme" "i1" "claude" (map Z.of_nat (seq 0 32))
    "projects/proj/a.jsonl" _ "acme" "i2" _ ltac:(vm_compute; reflexivity)
    ltac:(vm_compute; reflexivity)) as [[H _] _].
  match goal with |- ?b = false => destruct b eqn:E; [|reflexivity] end.
  destruct (H E) as [_ Hi]. discriminate Hi.
Defined.

(** The vectors of [src/conformance/v1/naming]. *)
Example canonical_slug :
  CanonicalPath "projects/-Users-jane-work-foo/s.jsonl" "jane"
  = "projects/-Users-__USER__-work-foo/s.jsonl".
Proof. vm_compute. reflexivity. Qed.
Example canonical_encodes :
  CanonicalPath "images/Screenshot 2026-07-27 at 14.32.36.png" "jane"
  = "images/Screenshot%202026-07-27%20at%2014.32.36.png".
Proof. vm_compute. reflexivity. Qed.
Example canonical_dots :
  CanonicalPath "projects/./proj/../proj/a.jsonl" "jane" = "projects/proj/a.jsonl".
Proof. vm_compute. reflexivity. Qed.
Example canonical_name_inside : CanonicalPath "notes/janes-notes.md" "jane" = "notes/janes-notes.md".
Proof. vm_compute. reflexivity. Qed.
Example mirror_name_vector :
  MirrorName (map Z.of_nat (seq 0 32)) "projects/proj/a.jsonl"
  = "28547a64a206a3b4d14d27ccbf75019e758fc176524ac0ea7b0a83ef7df78ef4".
Proof. vm_compute. reflexivity. Qed.
