(* ===== verification/GoPath.v ===== *)
(** [path/filepath] on Unix: [Join], [Dir], [Base] and [Rel] over [Path.Clean], which is in [Naming];
    and absolute clean paths as the lists of their segments. *)

From S2P Require Import Prelude GoLib Naming.

(** [filepath.Join] of two elements. *)
Definition path_Join (a b : string) : string :=
  if (a =? "")%string then if (b =? "")%string then "" else Path.Clean b
  else if (b =? "")%string then Path.Clean a else Path.Clean (a +:+ "/" +:+ b).

(** [filepath.Base]. *)
Fixpoint strip_slashes (s : string) : string :=
  match s with String c r => if (c =? "/")%char then strip_slashes r else s | "" => "" end.
Definition Base (path : string) : string :=
  if (path =? "")%string then "."
  else let p := str_rev (strip_slashes (str_rev path)) in
       if (p =? "")%string then "/" else List.last (split_on "/" p) "".

(** [filepath.Dir]: what stands up to the last slash, cleaned. *)
Definition path_Dir (p : string) : string :=
  Path.Clean (match split_on "/" p with
              | [] | [_] => ""
              | l => join "/" (removelast l) +:+ "/"
              end).

(** [filepath.Rel] of two cleaned paths: from where they part, up and down again. *)
Fixpoint rel_segs (base targ : list string) : list string * list string :=
  match base, targ with
  | b :: base', t :: targ' => if (b =? t)%string then rel_segs base' targ' else (base, targ)
  | _, _ => (base, targ)
  end.
Definition path_segs (p : string) : list string :=
  if (p =? "/")%string || (p =? ".")%string then [] else split_on "/" (trim_prefix "/" p).
Definition path_Rel (base targ : string) : option string :=
  let b := Path.Clean base in
  let t := Path.Clean targ in
  if (b =? t)%string then Some "."
  else if negb (Bool.eqb (has_prefix "/" b) (has_prefix "/" t)) then None
  else let '(up, down) := rel_segs (path_segs b) (path_segs t) in
       if bool_decide (head up = Some "..") then None
       else Some (join "/" (map (fun _ => "..") up ++ down)).

(** ** Clean paths *)

(** A segment that names an entry of a directory. *)
Definition plain (seg : string) : Prop := seg <> "" /\ seg <> "." /\ seg <> ".." /\ no_byte "/" seg = true.

Lemma clean_segs_plain stack segs :
  Forall plain stack -> Forall (fun s => no_byte "/" s = true) segs ->
  Forall plain (Path.clean_segs true stack segs).
Proof.
  intros Hs Hsegs. revert stack Hs. induction Hsegs as [|seg segs Hseg Hsegs IH]; intros stack Hs; cbn.
  - by apply List.Forall_rev.
  - destruct ((seg =? "")%string || (seg =? ".")%string) eqn:E1; [by apply IH|].
    apply orb_false_iff in E1 as [E1 E2]. apply String.eqb_neq in E1, E2.
    destruct (seg =? "..")%string eqn:E3.
    + destruct Hs as [|top stack Ht Hs]; [by apply IH; constructor|].
      destruct (top =? "..")%string eqn:E4; [|by apply IH].
      apply String.eqb_eq in E4 as ->. by destruct Ht as (_ & _ & ? & _).
    + apply String.eqb_neq in E3. apply IH. by constructor.
Qed.

(** An absolute path is clean when it is the root or its segments are all plain. *)
Definition clean_abs (p : string) : Prop :=
  p = "/" \/ exists segs, segs <> [] /\ split_on "/" p = "" :: segs /\ Forall plain segs.

Lemma Clean_abs p : has_prefix "/" p = true -> clean_abs (Path.Clean p).
Proof.
  intros Hp. unfold Path.Clean, clean_abs. rewrite Hp.
  assert (Forall plain (Path.clean_segs true [] (split_on "/" p))) as Hc
    by (apply clean_segs_plain; [constructor|apply split_on_segments]).
  destruct (Path.clean_segs true [] (split_on "/" p)) as [|s segs]; [by left|].
  right. exists (s :: segs). split; [done|]. split; [|done].
  change ("/" +:+ join "/" (s :: segs)) with ("" +:+ String "/" (join "/" (s :: segs))).
  rewrite split_on_app_sep by done. f_equal. apply split_join; [done|].
  eapply Forall_impl; [exact Hc|]. by intros x (_ & _ & _ & ?).
Qed.

(** Cleaning an absolute clean path changes nothing. *)
Lemma clean_segs_id stack segs :
  Forall plain segs -> Path.clean_segs true stack segs = (rev stack ++ segs)%list.
Proof.
  intros H. revert stack. induction H as [|s segs (H1 & H2 & H3 & _) H IH]; intros stack; cbn.
  - by rewrite app_nil_r.
  - apply String.eqb_neq in H1, H2, H3. rewrite H1, H2, H3. cbn. rewrite IH. cbn. by rewrite <- app_assoc.
Qed.

Lemma Clean_id p : clean_abs p -> Path.Clean p = p.
Proof.
  intros [->|(segs & Hne & Hs & Hc)]; [done|].
  pose proof (join_split "/" p) as Hj. rewrite Hs in Hj.
  assert (has_prefix "/" p = true) as Hp.
  { rewrite <- Hj, join_cons by done. done. }
  unfold Path.Clean. rewrite Hp, Hs. cbn [Path.clean_segs String.eqb orb].
  rewrite clean_segs_id by done. cbn [rev app]. rewrite <- Hj. by rewrite join_cons.
Qed.

(** ** Absolute clean paths as segment lists *)

Definition abs_of (segs : list string) : string := "/" +:+ join "/" segs.

Lemma plain_no_slash segs : Forall plain segs -> Forall (fun s => no_byte "/" s = true) segs.
Proof. intros H. eapply Forall_impl; [exact H|]. by intros x (_ & _ & _ & ?). Qed.

Lemma split_abs segs : segs <> [] -> Forall plain segs -> split_on "/" (abs_of segs) = "" :: segs.
Proof.
  intros Hn Hp. unfold abs_of. change ("/" +:+ join "/" segs) with ("" +:+ String "/" (join "/" segs)).
  rewrite split_on_app_sep by done. f_equal. apply split_join; [done|by apply plain_no_slash].
Qed.

Lemma abs_of_clean segs : Forall plain segs -> clean_abs (abs_of segs).
Proof.
  intros Hp. destruct segs as [|s segs]; [by left|]. right. exists (s :: segs). split_and!; [done|by apply split_abs|done].
Qed.

Lemma Clean_abs_of segs : Forall plain segs -> Path.Clean (abs_of segs) = abs_of segs.
Proof. intros. by apply Clean_id, abs_of_clean. Qed.

Lemma clean_abs_segs p : clean_abs p -> exists segs, Forall plain segs /\ p = abs_of segs.
Proof.
  intros [->|(segs & Hn & Hs & Hp)]; [by exists []|]. exists segs. split; [done|].
  pose proof (join_split "/" p) as H. rewrite Hs in H. rewrite <- H. by rewrite join_cons.
Qed.

Lemma abs_of_inj s1 s2 : Forall plain s1 -> Forall plain s2 -> abs_of s1 = abs_of s2 -> s1 = s2.
Proof.
  intros H1 H2 E. destruct s1 as [|a s1], s2 as [|b s2]; [done| | |].
  - apply (f_equal (split_on "/")) in E. rewrite (split_abs (b :: s2)) in E by done.
    injection E as E _. by inversion H2 as [|? ? [Hb _] _]; subst.
  - apply (f_equal (split_on "/")) in E. rewrite (split_abs (a :: s1)) in E by done.
    injection E as E _. by inversion H1 as [|? ? [Hb _] _]; subst.
  - apply (f_equal (split_on "/")) in E. rewrite !split_abs in E by done. by injection E as -> ->.
Qed.

Lemma abs_of_slash segs : has_prefix "/" (abs_of segs) = true.
Proof. done. Qed.

Lemma split_on_sep_app sep a b : split_on sep (a +:+ String sep b) = split_on sep a ++ split_on sep b.
Proof.
  induction a as [|c a IH]; cbn [append split_on]; [by rewrite Ascii.eqb_refl|].
  destruct (c =? sep)%char; [by rewrite IH|]. rewrite IH. pose proof (split_on_nonempty sep a).
  by destruct (split_on sep a).
Qed.

Lemma clean_segs_app st l l' : Forall plain l -> Path.clean_segs true st (l ++ l') = Path.clean_segs true (rev l ++ st) l'.
Proof.
  intros H. revert st. induction H as [|y l (H1 & H2 & H3 & _) _ IH]; intros st; [done|].
  apply String.eqb_neq in H1, H2, H3. cbn [app Path.clean_segs]. rewrite H1, H2, H3. cbn. rewrite IH.
  by rewrite <- app_assoc.
Qed.

(** The segments after a clean path, whatever they are, are walked from it. *)
Lemma Clean_after segs rest : Forall plain segs ->
  Path.Clean (abs_of segs +:+ "/" +:+ rest) = "/" +:+ join "/" (Path.clean_segs true (rev segs) (split_on "/" rest)).
Proof.
  intros Hp. unfold Path.Clean. change (has_prefix "/" (abs_of segs +:+ "/" +:+ rest)) with true. cbn iota.
  enough (Path.clean_segs true [] (split_on "/" (abs_of segs +:+ "/" +:+ rest)) =
    Path.clean_segs true (rev segs) (split_on "/" rest)) as -> by done.
  change ("/" +:+ rest) with (String "/" rest). rewrite split_on_sep_app. destruct segs as [|x segs]; [done|].
  rewrite split_abs by done.
  change (Path.clean_segs true [] (("" :: x :: segs) ++ split_on "/" rest))
    with (Path.clean_segs true [] ((x :: segs) ++ split_on "/" rest)).
  by rewrite clean_segs_app, app_nil_r.
Qed.

Lemma plain_split s : no_byte "/" s = true -> split_on "/" s = [s].
Proof. apply split_on_no_sep. Qed.

Lemma path_Join_abs segs s : Forall plain segs -> plain s -> path_Join (abs_of segs) s = abs_of (segs ++ [s]).
Proof.
  intros Hp (H1 & H2 & H3 & H4). apply String.eqb_neq in H1, H2, H3. unfold path_Join. rewrite H1.
  change (abs_of segs =? "")%string with false. cbn iota. rewrite Clean_after by done.
  rewrite plain_split by done. cbn [Path.clean_segs]. rewrite H1, H2, H3. cbn [orb rev]. by rewrite rev_involutive.
Qed.

(** A relative path of plain segments below a clean one. *)
Lemma path_Join_rel segs rel : Forall plain segs -> Forall plain rel -> rel <> [] ->
  path_Join (abs_of segs) (join "/" rel) = abs_of (segs ++ rel).
Proof.
  intros Hp Hr Hn. unfold path_Join. change (abs_of segs =? "")%string with false. cbn iota.
  assert (join "/" rel <> "") as He.
  { destruct rel as [|s [|s' rel]]; [done| |].
    - inversion Hr as [|? ? [Hs _] _]; subst. exact Hs.
    - rewrite join_cons by done. by destruct s. }
  apply String.eqb_neq in He. rewrite He, Clean_after by done.
  rewrite split_join by (done || by apply plain_no_slash). rewrite clean_segs_id by done. by rewrite rev_involutive.
Qed.

Lemma path_Dir_root : path_Dir "/" = "/".
Proof. reflexivity. Qed.

Lemma path_Dir_abs segs s : Forall plain (segs ++ [s]) -> path_Dir (abs_of (segs ++ [s])) = abs_of segs.
Proof.
  intros Hp. unfold path_Dir. rewrite split_abs by (done || by destruct segs).
  assert (exists x l, segs ++ [s] = x :: l) as (x & l & E) by (destruct segs; eauto).
  rewrite E. cbn iota. rewrite <- E. apply Forall_app in Hp as [Hp _].
  assert (removelast ("" :: segs ++ [s]) = "" :: segs) as ->.
  { change ("" :: segs ++ [s]) with (("" :: segs) ++ [s]). by rewrite removelast_last. }
  destruct segs as [|y segs]; [done|].
  assert (join "/" ("" :: y :: segs) +:+ "/" = abs_of (y :: segs) +:+ "/" +:+ "") as -> by (by rewrite join_cons).
  rewrite Clean_after by done. cbn [split_on Path.clean_segs String.eqb orb]. by rewrite rev_involutive.
Qed.

Lemma last_no_byte l d : last l = Some d -> Forall (fun x => no_byte "/" x = true) l -> no_byte "/" d = true.
Proof. intros Hl Hf. rewrite Forall_forall in Hf. apply Hf. by apply last_Some_elem_of. Qed.

(** [Rel] of a path below its base is the rest of its segments. *)
Lemma rel_segs_app base rest : rel_segs base (base ++ rest) = ([], rest).
Proof. induction base as [|b base IH]; cbn; [by destruct rest|]. by rewrite String.eqb_refl. Qed.

Lemma path_segs_abs segs : Forall plain segs -> path_segs (abs_of segs) = segs.
Proof.
  intros Hp. unfold path_segs. destruct segs as [|s segs]; [done|].
  assert (abs_of (s :: segs) <> "/") as He.
  { intros E. apply (abs_of_inj (s :: segs) []) in E; [done|done|constructor]. }
  apply String.eqb_neq in He. rewrite He. change (abs_of (s :: segs) =? ".")%string with false. cbn [orb].
  unfold trim_prefix. rewrite abs_of_slash. change (str_drop _ (abs_of (s :: segs))) with (join "/" (s :: segs)).
  apply split_join; [done|by apply plain_no_slash].
Qed.

Lemma path_Rel_below base rest : Forall plain base -> Forall plain rest ->
  path_Rel (abs_of base) (abs_of (base ++ rest)) = Some (match rest with [] => "." | _ => join "/" rest end).
Proof.
  intros Hb Hr. unfold path_Rel. rewrite !Clean_abs_of by (try apply Forall_app; done).
  destruct rest as [|s rest]; [by rewrite app_nil_r, String.eqb_refl|].
  assert (abs_of base <> abs_of (base ++ s :: rest)) as He.
  { intros E. apply abs_of_inj in E; [|done|by apply Forall_app]. apply (f_equal length) in E.
    rewrite length_app in E. simpl in E. lia. }
  apply String.eqb_neq in He. rewrite He, !abs_of_slash. cbn [Bool.eqb negb].
  rewrite !path_segs_abs by (try apply Forall_app; done). by rewrite rel_segs_app.
Qed.
