(* ===== verification/GoUrl.v ===== *)
(** The parts of Go's [net/url], [net] and [net/netip] that the upload boundary relies on:
    [url.Parse], [URL.EscapedPath], [Hostname], [Port], [net.JoinHostPort] and the loopback test of
    a literal address, all executable. *)

From S2P Require Import Prelude GoLib.

(** ** IP literals *)

Module IP.

Definition dec_field (s : string) : option Z :=
  let v := foldl (fun a c => a * 10 + (byte_code c - 48)) 0 (list_ascii_of_string s) in
  if negb (s =? "")%string && str_forallb is_digit s && (slen s <=? 3)
     && negb (has_prefix "0" s && (1 <? slen s)) && (v <=? 255)
  then Some v else None.

Definition parse4 (s : string) : option (list Z) :=
  match split_on "." s with
  | [a; b; c; d] =>
      match dec_field a, dec_field b, dec_field c, dec_field d with
      | Some a, Some b, Some c, Some d => Some [a; b; c; d]
      | _, _, _, _ => None
      end
  | _ => None
  end.

Definition hex_value (c : ascii) : option Z :=
  if is_digit c then Some (byte_code c - 48)
  else if in_range "a" "f" c then Some (byte_code c - 87)
  else if in_range "A" "F" c then Some (byte_code c - 55)
  else None.

Fixpoint hex_field_aux (acc : Z) (s : string) : option Z :=
  match s with
  | "" => Some acc
  | String c r => match hex_value c with Some v => hex_field_aux (acc * 16 + v) r | None => None end
  end.

Definition hex_field (s : string) : option Z :=
  if negb (s =? "")%string && (slen s <=? 4) then hex_field_aux 0 s else None.

(** The 16-bit groups of one side of a "::"; only the very last field may be dotted decimal. *)
Fixpoint groups (tail : bool) (l : list string) : option (list Z) :=
  match l with
  | [] => Some []
  | [s] =>
      match hex_field s, (if tail then parse4 s else None) with
      | Some v, _ => Some [v]
      | None, Some [a; b; c; d] => Some [a * 256 + b; c * 256 + d]
      | None, _ => None
      end
  | s :: r => match hex_field s, groups tail r with Some v, Some t => Some (v :: t) | _, _ => None end
  end.

Fixpoint cut_double (s : string) : option (string * string) :=
  match s with
  | String ":" (String ":" r) => Some ("", r)
  | String c r => match cut_double r with Some (a, b) => Some (String c a, b) | None => None end
  | "" => None
  end.

Definition side (tail : bool) (s : string) : option (list Z) :=
  if (s =? "")%string then Some [] else groups tail (split_on ":" s).

Definition parse6 (s : string) : option (list Z) :=
  match cut_double s with
  | Some (a, b) =>
      match side false a, side true b with
      | Some l, Some r =>
          let n := (length l + length r)%nat in
          if (n <=? 7)%nat then Some (l ++ replicate (8 - n) 0 ++ r) else None
      | _, _ => None
      end
  | None => match groups true (split_on ":" s) with
            | Some l => if (length l =? 8)%nat then Some l else None
            | None => None
            end
  end.

(** [ip := net.ParseIP(host); ip != nil && ip.IsLoopback()]; a literal with a zone does not parse. *)
Definition is_loopback (s : string) : bool :=
  match parse4 s with
  | Some (a :: _) => a =? 127
  | _ => match parse6 s with
         | Some [0; 0; 0; 0; 0; 65535; g; _] => Z.shiftr g 8 =? 127
         | Some l => bool_decide (l = [0; 0; 0; 0; 0; 0; 0; 1])
         | None => false
         end
  end.

End IP.

(** ** URLs *)

(** [User] only says whether user information was present. *)
Record URL := mkURL {
  Scheme : string;
  Opaque : string;
  User : bool;
  Host : string;
  Path : string;
  RawPath : string;
  RawQuery : string;
  Fragment : string;
  RawFragment : string
}.

Module Url.

(** [strings.Cut] on one byte: before, after, found. *)
Fixpoint cut_byte (sep : ascii) (s : string) : string * string * bool :=
  match s with
  | "" => ("", "", false)
  | String c r =>
      if (c =? sep)%char then ("", r, true)
      else let '(a, b, ok) := cut_byte sep r in (String c a, b, ok)
  end.

(** Cutting at the last occurrence. *)
Definition cut_last (sep : ascii) (s : string) : option (string * string) :=
  let '(a, b, ok) := cut_byte sep (str_rev s) in
  if ok then Some (str_rev b, str_rev a) else None.

Definition alnum (c : ascii) : bool := is_lower c || is_upper c || is_digit c.
Definition one_of (set : string) (c : ascii) : bool := str_existsb (fun d => (c =? d)%char) set.

(** [shouldEscape] for the three places used here. *)
Inductive mode := encodePath | encodeHost | encodeFragment.
Definition shouldEscape (m : mode) (c : ascii) : bool :=
  if alnum c || one_of "-_.~" c then false
  else match m with
       | encodePath => negb (one_of "$&+,/:;=@" c)
       | encodeHost => negb (one_of "!$&'()*+,;=:[]<>" c || (byte_code c =? 34))
       | encodeFragment => negb (one_of "$&+,/:;=?@!()*" c)
       end.

Fixpoint escape (m : mode) (s : string) : string :=
  match s with
  | "" => ""
  | String c r =>
      (if shouldEscape m c then
         let digit n := default "0"%char (String.get (Z.to_nat n) "0123456789ABCDEF") in
         String "%" (String (digit (Z.shiftr (byte_code c) 4))
                      (String (digit (Z.land (byte_code c) 15)) ""))
       else String c "") +:+ escape m r
  end.

(** [unescape] of a path, a fragment or user information. *)
Fixpoint unescape (s : string) : option string :=
  match s with
  | "" => Some ""
  | String "%" (String a (String b r)) =>
      match IP.hex_value a, IP.hex_value b with
      | Some x, Some y => String (byte_of (x * 16 + y)) <$> unescape r
      | _, _ => None
      end
  | String "%" _ => None
  | String c r => String c <$> unescape r
  end.

(** [unescape] of a host: only non-ASCII bytes and "%25" may be escaped; of a zone, anything that
    could not stand in a host. *)
Fixpoint unescape_host (zone : bool) (s : string) : option string :=
  match s with
  | "" => Some ""
  | String "%" (String a (String b r)) =>
      match IP.hex_value a, IP.hex_value b with
      | Some x, Some y =>
          let c := byte_of (x * 16 + y) in
          if (if zone then (c =? "%")%char || (c =? " ")%char || negb (shouldEscape encodeHost c)
              else (8 <=? x) || ((x =? 2) && (y =? 5)))
          then String c <$> unescape_host zone r
          else None
      | _, _ => None
      end
  | String "%" _ => None
  | String c r =>
      if (byte_code c <? 128) && shouldEscape encodeHost c then None
      else String c <$> unescape_host zone r
  end.

Definition validOptionalPort (p : string) : bool :=
  match p with
  | "" => true
  | String ":" r => str_forallb is_digit r
  | _ => false
  end.

Definition validUserinfo (s : string) : bool :=
  str_forallb (fun c => alnum c || one_of "-._:~!$&'()*+,;=%@" c) s.

Fixpoint cut_zone (s : string) : string * string :=
  match s with
  | "" => ("", "")
  | String c r => if has_prefix "%25" s then ("", s) else let '(a, b) := cut_zone r in (String c a, b)
  end.

(** The part between the brackets must be an IPv6 literal, with or without a zone. *)
Definition literal6 (s : string) : bool :=
  let '(a, z, zoned) := cut_byte "%" s in
  bool_decide (is_Some (IP.parse6 a)) && (negb zoned || negb (z =? "")%string).

Definition parseHost (host : string) : option string :=
  if str_contains "[" host then
    if negb (has_prefix "[" host) then None
    else match cut_last "]" host with
         | None => None
         | Some (inner, colonPort) =>
             if negb (validOptionalPort colonPort) then None
             else
               let '(h, z) := cut_zone (trim_prefix "[" inner) in
               match unescape_host false h, unescape_host true z with
               | Some h, Some z =>
                   if literal6 (h +:+ z) then Some ("[" +:+ h +:+ z +:+ "]" +:+ colonPort) else None
               | _, _ => None
               end
         end
  else
    let '(_, port, found) := cut_byte ":" host in
    if found && negb (str_forallb is_digit port) then None
    else unescape_host false host.

Definition parseAuthority (authority : string) : option (bool * string) :=
  match cut_last "@" authority with
  | None => pair false <$> parseHost authority
  | Some (userinfo, h) =>
      match parseHost h, unescape userinfo with
      | Some h, Some _ => if validUserinfo userinfo then Some (true, h) else None
      | _, _ => None
      end
  end.

(** [getScheme]: the scheme and the rest; a leading ":" is refused. *)
Fixpoint scheme_end (s : string) : option (string * string) :=
  match s with
  | "" => None
  | String c r =>
      if (c =? ":")%char then Some ("", r)
      else if alnum c || one_of "+-." c then
        match scheme_end r with Some (a, b) => Some (String c a, b) | None => None end
      else None
  end.

Definition getScheme (raw : string) : option (string * string) :=
  match raw with
  | String c _ =>
      if (c =? ":")%char then None
      else if is_lower c || is_upper c then Some (default ("", raw) (scheme_end raw))
      else Some ("", raw)
  | "" => Some ("", "")
  end.

(** Path and RawPath: the escaped form is kept only when it is not the default encoding. *)
Definition set_raw (m : mode) (p : string) : option (string * string) :=
  match unescape p with
  | Some path => Some (path, if (p =? escape m path)%string then "" else p)
  | None => None
  end.

Definition parse_rest (scheme rest : string) : option URL :=
  let '(rest, query, _) := cut_byte "?" rest in
  if negb (has_prefix "/" rest) && negb (scheme =? "")%string
  then Some (mkURL scheme rest false "" "" "" query "" "")
  else if negb (has_prefix "/" rest) && str_contains ":" (cut_byte "/" rest).1.1 then None
  else
    let hosted := (negb (scheme =? "")%string || negb (has_prefix "///" rest))
                    && has_prefix "//" rest in
    let '(authority, path) :=
      if hosted then
        let '(a, p, found) := cut_byte "/" (trim_prefix "//" rest) in
        (a, if found : bool then String "/" p else "")
      else ("", rest) in
    match (if hosted then parseAuthority authority else Some (false, "")), set_raw encodePath path with
    | Some (user, host), Some (path, raw) =>
        Some (mkURL scheme "" user host path raw query "" "")
    | _, _ => None
    end.

Definition control (c : ascii) : bool := (byte_code c <? 32) || (byte_code c =? 127).

Definition Parse (raw : string) : option URL :=
  let '(raw, frag, _) := cut_byte "#" raw in
  if str_existsb control raw then None
  else if (raw =? "*")%string then Some (mkURL "" "" false "" "*" "" "" "" "")
  else match getScheme raw with
  | None => None
  | Some (scheme, rest) =>
      match parse_rest (to_lower scheme) rest, set_raw encodeFragment frag with
      | Some u, Some (f, rf) =>
          Some (mkURL (Scheme u) (Opaque u) (User u) (Host u) (Path u) (RawPath u) (RawQuery u) f rf)
      | _, _ => None
      end
  end.

Definition validEncoded (s : string) : bool :=
  str_forallb (fun c => one_of "!$&'()*+,;=:@[]%" c || negb (shouldEscape encodePath c)) s.

Definition EscapedPath (u : URL) : string :=
  if negb (RawPath u =? "")%string && validEncoded (RawPath u)
     && bool_decide (unescape (RawPath u) = Some (Path u))
  then RawPath u
  else if (Path u =? "*")%string then "*" else escape encodePath (Path u).

(** [splitHostPort], behind [URL.Hostname] and [URL.Port]. *)
Definition splitHostPort (hp : string) : string * string :=
  let '(host, port) :=
    match cut_last ":" hp with
    | Some (h, p) => if str_forallb is_digit p then (h, p) else (hp, "")
    | None => (hp, "")
    end in
  (if has_prefix "[" host && has_suffix "]" host then trim_suffix "]" (trim_prefix "[" host) else host,
   port).
Definition Hostname (u : URL) : string := (splitHostPort (Host u)).1.
Definition Port (u : URL) : string := (splitHostPort (Host u)).2.

Definition JoinHostPort (host port : string) : string :=
  if str_contains ":" host then "[" +:+ host +:+ "]:" +:+ port else host +:+ ":" +:+ port.

End Url.
