(* ===== verification/GoTime.v ===== *)
(** [time.Time] as the source uses it: an instant is its nanoseconds since 0001-01-01T00:00:00Z, so
    the zero value is 0 and [IsZero] is a test for 0. RFC 3339 text is written with whole seconds
    ([time.RFC3339]) or with the nanoseconds, trailing zeros cut ([time.RFC3339Nano]), always in
    UTC, and read back as the library's RFC 3339 path reads it. *)

From S2P Require Import Prelude GoLib.

Definition second : Z := 1000000000.
Definition minute : Z := 60 * second.
Definition hour : Z := 60 * minute.
Definition day : Z := 24 * hour.

Definition is_zero_time (t : Z) : bool := t =? 0.

(** ** The civil calendar *)

Definition is_leap (y : Z) : bool :=
  (y mod 4 =? 0) && (negb (y mod 100 =? 0) || (y mod 400 =? 0)).
Definition days_in (y m : Z) : Z :=
  if m =? 2 then (if is_leap y then 29 else 28)
  else if (m =? 4) || (m =? 6) || (m =? 9) || (m =? 11) then 30 else 31.

(** Days of the year before month [m]. *)
Definition days_before (leap : bool) (m : Z) : Z :=
  nth (Z.to_nat (m - 1)) [0; 31; 59; 90; 120; 151; 181; 212; 243; 273; 304; 334] 0
  + (if leap && (2 <? m) then 1 else 0).

(** The month and day of a day of the year: the last month that starts by then. *)
Definition month_day (leap : bool) (yday : Z) : Z * Z :=
  let m := foldl (fun acc m => if days_before leap m <=? yday then m else acc) 1
             [2; 3; 4; 5; 6; 7; 8; 9; 10; 11; 12] in
  (m, yday - days_before leap m + 1).

(** The year (less one) and the day of the year, by whole 400-, 100-, 4- and 1-year cycles; the
    last 100 and the last 1 of a cycle are one day longer. *)
Definition year_yday (days : Z) : Z * Z :=
  let a := days / 146097 in let d := days mod 146097 in
  let b := Z.min 3 (d / 36524) in let d := d - 36524 * b in
  let c := d / 1461 in let d := d mod 1461 in
  let e := Z.min 3 (d / 365) in
  (400 * a + 100 * b + 4 * c + e, d - 365 * e).

Definition civil_of_days (days : Z) : Z * Z * Z :=
  let '(y1, yday) := year_yday days in
  let '(m, d) := month_day (is_leap (y1 + 1)) yday in
  (y1 + 1, m, d).

Definition days_of_civil (y m d : Z) : Z :=
  365 * (y - 1) + (y - 1) / 4 - (y - 1) / 100 + (y - 1) / 400
  + days_before (is_leap y) m + d - 1.

(** ** Text *)

Definition digit (n : Z) : ascii := byte_of (48 + n).
Definition digit_value (c : ascii) : option Z :=
  if is_digit c then Some (byte_code c - 48) else None.

(** The [k] low decimal digits of [n], most significant first. *)
Fixpoint digits (k : nat) (n : Z) : list Z :=
  match k with O => [] | S k => digits k (n / 10) ++ [n mod 10] end.
Fixpoint digits_text (l : list Z) : string :=
  match l with [] => "" | d :: r => String (digit d) (digits_text r) end.
Definition pad (k : nat) (n : Z) : string := digits_text (digits k n).

Definition digits_value (l : list Z) : Z := foldl (fun a d => 10 * a + d) 0 l.

Fixpoint strip_zeros (l : list Z) : list Z :=
  match l with
  | [] => []
  | d :: r => match strip_zeros r with
              | [] => if d =? 0 then [] else [d]
              | r' => d :: r'
              end
  end.

(** Years past 9999 print all their digits. *)
Definition year_text (y : Z) : string :=
  if y <? 10000 then pad 4 y else pad (S (Z.to_nat (Z.log2 y))) y.

Definition date_time_text (t : Z) : string :=
  let '(y, m, d) := civil_of_days (t / day) in
  let s := (t mod day) / second in
  year_text y +:+ "-" +:+ pad 2 m +:+ "-" +:+ pad 2 d +:+ "T" +:+
  pad 2 (s / 3600) +:+ ":" +:+ pad 2 (s / 60 mod 60) +:+ ":" +:+ pad 2 (s mod 60).

Definition format_rfc3339 (t : Z) : string := date_time_text t +:+ "Z".

Definition fraction_text (ns : Z) : string :=
  match strip_zeros (digits 9 ns) with [] => "" | l => "." +:+ digits_text l end.

Definition format_rfc3339_nano (t : Z) : string :=
  date_time_text t +:+ fraction_text (t mod second) +:+ "Z".

(** ** Reading *)

Fixpoint read_digits (k : nat) (acc : Z) (s : string) : option (Z * string) :=
  match k with
  | O => Some (acc, s)
  | S k => match s with
           | String c r => v ← digit_value c; read_digits k (10 * acc + v) r
           | "" => None
           end
  end.

Definition read_num (k : nat) (lo hi : Z) (s : string) : option (Z * string) :=
  '(v, r) ← read_digits k 0 s;
  if (lo <=? v) && (v <=? hi) then Some (v, r) else None.

Definition read_char (c : ascii) (s : string) : option string :=
  match s with String d r => if (c =? d)%char then Some r else None | "" => None end.

(** The longest run of digits. *)
Fixpoint span_digits (s : string) : list Z * string :=
  match s with
  | "" => ([], "")
  | String c r =>
      match digit_value c with
      | Some v => let '(l, r') := span_digits r in (v :: l, r')
      | None => ([], s)
      end
  end.

(** At most nine digits of a fraction count; missing ones are zeros. *)
Definition nanos_of (l : list Z) : Z := digits_value (take 9 (l ++ replicate 9 0)).

Definition read_fraction (s : string) : Z * string :=
  match s with
  | String c r =>
      if (c =? ".")%char then
        match span_digits r with
        | ([], _) => (0, s)
        | (l, r') => (nanos_of l, r')
        end
      else (0, s)
  | "" => (0, s)
  end.

(** "Z" or a numeric offset, in seconds east of UTC, and nothing after it. *)
Definition read_zone (s : string) : option Z :=
  if (s =? "Z")%string then Some 0
  else
    match s with
    | String sign r =>
        '(h, r) ← read_num 2 0 23 r;
        r ← read_char ":" r;
        '(m, r) ← read_num 2 0 59 r;
        if negb (r =? "")%string then None
        else if (sign =? "+")%char then Some (3600 * h + 60 * m)
        else if (sign =? "-")%char then Some (- (3600 * h + 60 * m))
        else None
    | "" => None
    end.

Definition parse_rfc3339 (s : string) : option Z :=
  '(y, s) ← read_num 4 0 9999 s; s ← read_char "-" s;
  '(m, s) ← read_num 2 1 12 s; s ← read_char "-" s;
  '(d, s) ← read_num 2 1 (days_in y m) s; s ← read_char "T" s;
  '(hh, s) ← read_num 2 0 23 s; s ← read_char ":" s;
  '(mm, s) ← read_num 2 0 59 s; s ← read_char ":" s;
  '(ss, s) ← read_num 2 0 59 s;
  let '(ns, s) := read_fraction s in
  off ← read_zone s;
  Some (day * days_of_civil y m d + second * (3600 * hh + 60 * mm + ss - off) + ns).

(** ** Calendar facts *)

Ltac dlia := Z.to_euclidean_division_equations; lia.

Lemma year_yday_spec days y1 yday :
  year_yday days = (y1, yday) ->
  days = 365 * y1 + y1 / 4 - y1 / 100 + y1 / 400 + yday /\
  0 <= yday < (if is_leap (y1 + 1) then 366 else 365).
Proof.
  unfold year_yday. intros [= Hy Hd].
  set (a := days / 146097) in *. set (d0 := days mod 146097) in *.
  assert (days = 146097 * a + d0 /\ 0 <= d0 < 146097) as [H1 H2]
    by (subst a d0; pose proof (Z.mod_pos_bound days 146097); split; [apply Z.div_mod|]; lia).
  clearbody a d0. set (b := Z.min 3 (d0 / 36524)) in *.
  assert (0 <= b <= 3 /\ 0 <= d0 - 36524 * b <= (if b =? 3 then 36524 else 36523)) as [Hb Hd1].
  { subst b. destruct (Z.min 3 _ =? 3) eqn:E; boolp; clear Hy Hd; dlia. }
  set (d1 := d0 - 36524 * b) in *. clearbody b.
  set (c := d1 / 1461) in *. set (d2 := d1 mod 1461) in *.
  assert (d1 = 1461 * c + d2 /\ 0 <= d2 < 1461) as [H3 H4]
    by (subst c d2; pose proof (Z.mod_pos_bound d1 1461); split; [apply Z.div_mod|]; lia).
  clearbody c d2. set (e := Z.min 3 (d2 / 365)) in *.
  assert (0 <= e <= 3 /\ 0 <= d2 - 365 * e <= (if e =? 3 then 365 else 364)) as [He Hd3].
  { subst e. destruct (Z.min 3 _ =? 3) eqn:E; boolp; clear - H4 E; dlia. }
  clearbody e.
  assert (0 <= c <= 24) as Hc by (destruct (b =? 3); lia).
  assert (y1 / 4 = 100 * a + 25 * b + c /\ y1 / 100 = 4 * a + b /\ y1 / 400 = a) as (E4 & E100 & E400)
    by (clear - Hy Hb Hc He; dlia).
  split; [subst d1; lia|].
  assert (is_leap (y1 + 1) = (e =? 3) && ((c <? 24) || (b =? 3))) as ->.
  { assert ((y1 + 1) mod 4 = 0 <-> e = 3) as M4 by (clear - Hy Hb Hc He; dlia).
    assert ((y1 + 1) mod 100 = 0 <-> e = 3 /\ c = 24) as M100 by (clear - Hy Hb Hc He; dlia).
    assert ((y1 + 1) mod 400 = 0 <-> e = 3 /\ c = 24 /\ b = 3) as M400
      by (clear - Hy Hb Hc He; dlia).
    clear - M4 M100 M400 Hc. unfold is_leap.
    destruct ((y1 + 1) mod 4 =? 0) eqn:?, ((y1 + 1) mod 100 =? 0) eqn:?,
      ((y1 + 1) mod 400 =? 0) eqn:?, (e =? 3) eqn:?, (c <? 24) eqn:?, (b =? 3) eqn:?;
      boolp; try reflexivity; exfalso; lia. }
  destruct (e =? 3) eqn:Ee; boolp; simpl; [|lia].
  destruct (c <? 24) eqn:Ec; boolp; simpl; [lia|].
  destruct (b =? 3) eqn:Eb; boolp; simpl; lia.
Qed.

Definition month_day_ok (leap : bool) (yday : Z) : bool :=
  let '(m, d) := month_day leap yday in
  (1 <=? m) && (m <=? 12) && (1 <=? d) &&
  (d <=? (if m =? 2 then (if leap then 29 else 28)
          else if (m =? 4) || (m =? 6) || (m =? 9) || (m =? 11) then 30 else 31)) &&
  (days_before leap m + d - 1 =? yday).

Lemma month_day_spec (leap : bool) yday :
  0 <= yday < (if leap then 366 else 365) -> month_day_ok leap yday = true.
Proof.
  intros H.
  assert (forallb (fun n => month_day_ok leap (Z.of_nat n))
            (seq 0 (if leap then 366 else 365)) = true) as Hall
    by (destruct leap; vm_compute; reflexivity).
  rewrite List.forallb_forall in Hall. specialize (Hall (Z.to_nat yday)).
  rewrite Z2Nat.id in Hall by lia. apply Hall, in_seq. destruct leap; lia.
Qed.

(** The date of a day number is a valid date, and gives the day number back. *)
Lemma civil_roundtrip days y m d :
  civil_of_days days = (y, m, d) ->
  1 <= m <= 12 /\ 1 <= d <= days_in y m /\ days_of_civil y m d = days.
Proof.
  unfold civil_of_days. destruct (year_yday days) as [y1 yday] eqn:E.
  apply year_yday_spec in E as [Hdays Hy].
  destruct (month_day (is_leap (y1 + 1)) yday) as [m' d'] eqn:Em. intros [= <- <- <-].
  pose proof (month_day_spec _ _ Hy) as Hok. unfold month_day_ok in Hok. rewrite Em in Hok.
  boolp. unfold days_in, days_of_civil. replace (y1 + 1 - 1) with y1 by lia. lia.
Qed.

(** ** Digits *)

Lemma digit_value_digit n : 0 <= n < 10 -> digit_value (digit n) = Some n.
Proof.
  intros H. rewrite <- (Z2Nat.id n) by lia.
  assert (Z.to_nat n < 10)%nat as Hk by lia. revert Hk. generalize (Z.to_nat n) as k. clear.
  intros k Hk. do 10 (destruct k as [|k]; [reflexivity|]). lia.
Qed.

Lemma digits_range k n : Forall (fun d => 0 <= d < 10) (digits k n).
Proof.
  revert n; induction k as [|k IH]; intros n; simpl; [done|].
  apply Forall_app. split; [done|]. apply Forall_singleton, Z.mod_pos_bound. lia.
Qed.

Lemma digits_length k n : length (digits k n) = k.
Proof. revert n; induction k as [|k IH]; intros n; simpl; [done|]. rewrite length_app, IH. simpl. lia. Qed.

Lemma digits_value_app l d : digits_value (l ++ [d]) = 10 * digits_value l + d.
Proof. unfold digits_value. by rewrite foldl_app. Qed.

Lemma digits_value_digits k n : 0 <= n < 10 ^ Z.of_nat k -> digits_value (digits k n) = n.
Proof.
  revert n; induction k as [|k IH]; intros n H; simpl digits.
  - change (10 ^ Z.of_nat 0) with 1 in H. cbn. lia.
  - rewrite Nat2Z.inj_succ, Z.pow_succ_r in H by lia.
    rewrite digits_value_app, IH; dlia.
Qed.

Lemma read_digits_text l acc r :
  Forall (fun d => 0 <= d < 10) l ->
  read_digits (length l) acc (digits_text l +:+ r)
  = Some (foldl (fun a d => 10 * a + d) acc l, r).
Proof.
  intros H. revert acc; induction H as [|d l Hd Hl IH]; intros acc; [done|].
  change (digits_text (d :: l) +:+ r) with (String (digit d) (digits_text l +:+ r)).
  cbn [read_digits length]. rewrite digit_value_digit by done. cbn. apply IH.
Qed.

Lemma read_num_pad k lo hi n r :
  0 <= n < 10 ^ Z.of_nat k -> lo <= n <= hi -> read_num k lo hi (pad k n +:+ r) = Some (n, r).
Proof.
  intros Hn H. unfold read_num, pad.
  rewrite <- (digits_length k n) at 1. rewrite read_digits_text by apply digits_range.
  change (foldl _ 0 (digits k n)) with (digits_value (digits k n)).
  rewrite digits_value_digits by done. cbn.
  replace (lo <=? n) with true by (symmetry; apply Z.leb_le; lia).
  by replace (n <=? hi) with true by (symmetry; apply Z.leb_le; lia).
Qed.

Lemma strip_zeros_app l : exists k, l = strip_zeros l ++ replicate k 0.
Proof.
  induction l as [|d l IH]; [by exists O|]. destruct IH as [k IH]. simpl.
  destruct (strip_zeros l) as [|x t].
  - destruct (d =? 0) eqn:E; boolp; subst d || idtac.
    + exists (S k). simpl in *. by rewrite IH at 1.
    + exists k. simpl in *. by rewrite IH at 1.
  - exists k. simpl in *. by rewrite IH at 1.
Qed.

Lemma take_pad_zeros (l : list Z) k n :
  (length l + k)%nat = n -> take n (l ++ replicate n 0) = l ++ replicate k 0.
Proof.
  intros <-. rewrite take_app_ge by lia. f_equal. rewrite take_replicate. f_equal. lia.
Qed.

Lemma nanos_of_strip n : 0 <= n < second -> nanos_of (strip_zeros (digits 9 n)) = n.
Proof.
  intros H. unfold nanos_of. destruct (strip_zeros_app (digits 9 n)) as [k Hk].
  rewrite (take_pad_zeros _ k).
  - rewrite <- Hk. apply digits_value_digits. unfold second in H. lia.
  - apply (f_equal length) in Hk. rewrite length_app, length_replicate, digits_length in Hk. lia.
Qed.

Lemma span_digits_text l c r :
  Forall (fun d => 0 <= d < 10) l -> digit_value c = None ->
  span_digits (digits_text l +:+ String c r) = (l, String c r).
Proof.
  intros H Hc. induction H as [|d l Hd Hl IH]; cbn.
  - by rewrite Hc.
  - change (digits_text l +:+ String c r) with (digits_text l +:+ String c r) in IH.
    rewrite digit_value_digit by done. by rewrite IH.
Qed.

Lemma read_fraction_text n : 0 <= n < second -> read_fraction (fraction_text n +:+ "Z") = (n, "Z").
Proof.
  intros H. pose proof (nanos_of_strip n H) as Hn. unfold fraction_text.
  assert (Forall (fun d => 0 <= d < 10) (strip_zeros (digits 9 n))) as Hf.
  { destruct (strip_zeros_app (digits 9 n)) as [k Hk]. pose proof (digits_range 9 n) as Hd.
    rewrite Hk in Hd. by apply Forall_app in Hd as [? _]. }
  destruct (strip_zeros (digits 9 n)) as [|d l].
  - rewrite <- Hn. reflexivity.
  - change (read_fraction (("." +:+ digits_text (d :: l)) +:+ "Z"))
      with (match span_digits (digits_text (d :: l) +:+ "Z") with
            | ([], _) => (0, String "." (digits_text (d :: l) +:+ "Z"))
            | (l', r') => (nanos_of l', r')
            end).
    by rewrite span_digits_text, Hn.
Qed.

(** ** Round trips *)

(** The instants a four-digit year can name: 0001-01-01 up to 9999-12-31. *)
Definition max_time : Z := day * days_of_civil 10000 1 1.
Definition rfc3339_time (t : Z) : Prop := 0 <= t < max_time.

Lemma date_in_range t y m d :
  rfc3339_time t -> civil_of_days (t / day) = (y, m, d) -> 1 <= y <= 9999.
Proof.
  intros Ht. unfold civil_of_days. destruct (year_yday (t / day)) as [y1 yday] eqn:E.
  apply year_yday_spec in E as [Hd Hy].
  destruct (month_day _ _). intros [= <- _ _].
  assert (0 <= t / day < 3652059) as Hr.
  { destruct Ht as [H0 H1]. split; [apply Z.div_pos; [done|unfold day, hour, minute, second; lia]|].
    apply Z.div_lt_upper_bound; [unfold day, hour, minute, second; lia|].
    replace (day * 3652059) with max_time by (vm_compute; reflexivity). done. }
  destruct (is_leap (y1 + 1)); clear Ht; dlia.
Qed.

(** Reading what follows a written date and time is reading the fraction and the zone. *)
Lemma parse_date_time t r ns off rest :
  rfc3339_time t ->
  read_fraction r = (ns, rest) -> read_zone rest = Some off ->
  parse_rfc3339 (date_time_text t +:+ r)
  = Some (t - t mod second - second * off + ns).
Proof.
  intros Ht Hf Hz. unfold date_time_text.
  destruct (civil_of_days (t / day)) as [[y m] d] eqn:E.
  pose proof (date_in_range _ _ _ _ Ht E) as Hy.
  apply civil_roundtrip in E as (Hm & Hd & Hdays).
  assert (days_in y m <= 31) as Hd31 by (unfold days_in; repeat case_match; lia).
  set (s := t mod day / second).
  assert (0 <= s < 86400) as Hs.
  { subst s. split; [apply Z.div_pos; [apply Z.mod_pos_bound|]; vm_compute; congruence || done|].
    apply Z.div_lt_upper_bound; [unfold second; lia|]. apply Z.mod_pos_bound.
    unfold day, hour, minute, second; lia. }
  unfold year_text. replace (y <? 10000) with true by (symmetry; apply Z.ltb_lt; lia).
  rewrite !string_app_assoc. unfold parse_rfc3339.
  rewrite read_num_pad by lia. cbn [mbind option_bind].
  change (read_char "-" ("-" +:+ ?x)) with (Some x). cbn [mbind option_bind].
  rewrite read_num_pad by lia. cbn [mbind option_bind].
  change (read_char "-" ("-" +:+ ?x)) with (Some x). cbn [mbind option_bind].
  rewrite read_num_pad by lia. cbn [mbind option_bind].
  change (read_char "T" ("T" +:+ ?x)) with (Some x). cbn [mbind option_bind].
  rewrite read_num_pad by dlia. cbn [mbind option_bind].
  change (read_char ":" (":" +:+ ?x)) with (Some x). cbn [mbind option_bind].
  rewrite read_num_pad by dlia. cbn [mbind option_bind].
  change (read_char ":" (":" +:+ ?x)) with (Some x). cbn [mbind option_bind].
  rewrite read_num_pad by dlia. cbn [mbind option_bind].
  rewrite Hf, Hz. cbn [mbind option_bind]. f_equal. rewrite Hdays.
  assert (3600 * (s / 3600) + 60 * (s / 60 mod 60) + s mod 60 = s) as ->
    by (clear - Hs; dlia).
  subst s. clear - Ht. unfold day, hour, minute, second. dlia.
Qed.

Lemma rfc3339_text_exact t :
  rfc3339_time t ->
  parse_rfc3339 (format_rfc3339_nano t) = Some t /\
  parse_rfc3339 (format_rfc3339 t) = Some (t - t mod second).
Proof.
  intros Ht. assert (0 <= t mod second < second) as Hn by (apply Z.mod_pos_bound; unfold second; lia).
  split; unfold format_rfc3339_nano, format_rfc3339.
  - rewrite (parse_date_time t _ (t mod second) 0 "Z"); [f_equal; lia|done| |done].
    by apply read_fraction_text.
  - rewrite (parse_date_time t _ 0 0 "Z"); [f_equal; lia|done|done|done].
Qed.

(** The text of an instant is ASCII. *)
Definition ascii_text (s : string) : bool := str_forallb (fun c => byte_code c <? 128) s.

Lemma digits_text_ascii l : Forall (fun d => 0 <= d < 10) l -> ascii_text (digits_text l) = true.
Proof.
  induction 1 as [|d l Hd Hl IH]; [done|]. unfold ascii_text in *. cbn. rewrite IH, andb_true_r.
  unfold digit. rewrite byte_code_of by lia. apply Z.ltb_lt. lia.
Qed.

Lemma pad_ascii k n : ascii_text (pad k n) = true.
Proof. apply digits_text_ascii, digits_range. Qed.

Lemma strip_zeros_range l : Forall (fun d => 0 <= d < 10) l -> Forall (fun d => 0 <= d < 10) (strip_zeros l).
Proof.
  intros H. destruct (strip_zeros_app l) as [k Hk]. rewrite Hk in H.
  by apply Forall_app in H as [? _].
Qed.

Lemma format_ascii t : ascii_text (format_rfc3339 t) = true /\ ascii_text (format_rfc3339_nano t) = true.
Proof.
  assert (ascii_text (date_time_text t) = true) as Hd.
  { unfold date_time_text. destruct (civil_of_days _) as [[y m] d]. unfold year_text, ascii_text.
    rewrite !str_forallb_app. pose proof pad_ascii as Hp. unfold ascii_text in Hp.
    destruct (y <? 10000); by rewrite !Hp. }
  assert (ascii_text (fraction_text (t mod second)) = true) as Hf.
  { unfold fraction_text. pose proof (strip_zeros_range _ (digits_range 9 (t mod second))) as Hr.
    destruct (strip_zeros _) as [|d l]; [done|]. unfold ascii_text.
    rewrite str_forallb_app. apply digits_text_ascii in Hr. unfold ascii_text in Hr. by rewrite Hr. }
  unfold format_rfc3339, format_rfc3339_nano, ascii_text in *.
  by rewrite !str_forallb_app, Hd, Hf.
Qed.

Lemma format_nonempty t : format_rfc3339 t <> "" /\ format_rfc3339_nano t <> "".
Proof.
  unfold format_rfc3339, format_rfc3339_nano, date_time_text.
  destruct (civil_of_days _) as [[y m] d].
  split; intros H; apply (f_equal slen) in H; rewrite !slen_app in H;
    change (slen "Z") with 1 in H; change (slen "-") with 1 in H; change (slen "") with 0 in H;
    pose proof slen_nonneg as Hn; repeat match goal with
      | H : context [slen ?x] |- _ =>
          lazymatch x with context [slen] => fail | _ => idtac end;
          lazymatch goal with _ : 0 <= slen x |- _ => fail | _ => pose proof (Hn x) end
      end; lia.
Qed.
