(* ===== verification/GoJson.v ===== *)
(** [encoding/json] as the fingerprint document uses it: compact text of objects, strings, integers
    and booleans with the escaping of [json.Marshal], and the coercion to valid UTF-8 that a string
    goes through on its way into a document and back. *)

From S2P Require Import Prelude GoLib.

(** ** UTF-8 *)

Definition is_cont (c : ascii) : bool := (128 <=? byte_code c) && (byte_code c <=? 191).

(** The length of the encoding at the head of a string, and 0 when the head is no valid encoding. *)
Definition rune_len (s : string) : nat :=
  match s with
  | "" => 0%nat
  | String c0 r =>
      let b0 := byte_code c0 in
      if b0 <? 128 then 1%nat
      else match r with
           | "" => 0%nat
           | String c1 r1 =>
               let b1 := byte_code c1 in
               if (194 <=? b0) && (b0 <=? 223) then (if is_cont c1 then 2%nat else 0%nat)
               else match r1 with
                    | "" => 0%nat
                    | String c2 r2 =>
                        if (224 <=? b0) && (b0 <=? 239) then
                          if is_cont c1 && is_cont c2 &&
                             (if b0 =? 224 then 160 <=? b1 else true) &&
                             (if b0 =? 237 then b1 <=? 159 else true)
                          then 3%nat else 0%nat
                        else match r2 with
                             | "" => 0%nat
                             | String c3 _ =>
                                 if (240 <=? b0) && (b0 <=? 244) then
                                   if is_cont c1 && is_cont c2 && is_cont c3 &&
                                      (if b0 =? 240 then 144 <=? b1 else true) &&
                                      (if b0 =? 244 then b1 <=? 143 else true)
                                   then 4%nat else 0%nat
                                 else 0%nat
                             end
                    end
           end
  end.

(** U+FFFD in UTF-8. *)
Definition replacement : string :=
  String (byte_of 239) (String (byte_of 191) (String (byte_of 189) "")).

(** Every byte that starts no valid encoding becomes U+FFFD; [skip] bytes belong to the encoding
    already copied. *)
Fixpoint coerce_loop (skip : nat) (s : string) : string :=
  match s with
  | "" => ""
  | String c r =>
      match skip with
      | S k => String c (coerce_loop k r)
      | O => match rune_len s with
             | O => replacement +:+ coerce_loop O r
             | S k => String c (coerce_loop k r)
             end
      end
  end.
Definition coerce_utf8 (s : string) : string := coerce_loop O s.

Fixpoint valid_loop (skip : nat) (s : string) : bool :=
  match s with
  | "" => true
  | String c r =>
      match skip with
      | S k => valid_loop k r
      | O => match rune_len s with O => false | S k => valid_loop k r end
      end
  end.
Definition valid_utf8 (s : string) : bool := valid_loop O s.

(** ** Marshalled text *)

Definition hex2 (n : Z) : string :=
  let d k := default "0"%char (String.get (Z.to_nat k) "0123456789abcdef") in
  String (d (Z.shiftr n 4)) (String (d (Z.land n 15)) "").

(** One ASCII byte, with the HTML-safe escapes [json.Marshal] applies. *)
Definition escape_byte (c : ascii) : string :=
  let b := byte_code c in
  if b =? 34 then String (byte_of 92) (String c "")
  else if b =? 92 then String (byte_of 92) (String c "")
  else if b =? 8 then "\b"
  else if b =? 12 then "\f"
  else if b =? 10 then "\n"
  else if b =? 13 then "\r"
  else if b =? 9 then "\t"
  else if (b <? 32) || (b =? 60) || (b =? 62) || (b =? 38) then "\u00" +:+ hex2 b
  else String c "".

(** U+2028 and U+2029 are escaped too. *)
Definition line_separator (s : string) : option string :=
  match s with
  | String a (String b (String c _)) =>
      if (byte_code a =? 226) && (byte_code b =? 128) then
        if byte_code c =? 168 then Some "\u2028"
        else if byte_code c =? 169 then Some "\u2029" else None
      else None
  | _ => None
  end.

(** [copy] bytes of a valid encoding are still to be copied, [drop] of an escaped one to be
    dropped. *)
Fixpoint quote_loop (copy drop : nat) (s : string) : string :=
  match s with
  | "" => ""
  | String c r =>
      match copy, drop with
      | S k, _ => String c (quote_loop k O r)
      | O, S k => quote_loop O k r
      | O, O =>
          if byte_code c <? 128 then escape_byte c +:+ quote_loop O O r
          else match rune_len s with
               | O => "\ufffd" +:+ quote_loop O O r
               | S k => match line_separator s with
                        | Some e => e +:+ quote_loop O k r
                        | None => String c (quote_loop k O r)
                        end
               end
      end
  end.
Definition dquote : string := String (byte_of 34) "".
Definition quote (s : string) : string := dquote +:+ quote_loop O O s +:+ dquote.

(** Decimal integers. *)
Fixpoint nat_text (fuel : nat) (n : Z) (acc : string) : string :=
  match fuel with
  | O => acc
  | S fuel =>
      let acc := String (byte_of (48 + n mod 10)) acc in
      if n <? 10 then acc else nat_text fuel (n / 10) acc
  end.
Definition int_text (n : Z) : string :=
  let digits k := nat_text (S (Z.to_nat (Z.log2 k))) k "" in
  if n <? 0 then "-" +:+ digits (- n) else digits n.
Definition bool_text (b : bool) : string := if b then "true" else "false".

(** An object: members whose text is [None] were omitted by [omitempty]. *)
Definition member (name : string) (text : option string) : option string :=
  (fun t => quote name +:+ ":" +:+ t) <$> text.
Definition object (members : list (option string)) : string :=
  "{" +:+ join "," (omap id members) +:+ "}".
Definition array (items : list string) : string := "[" +:+ join "," items +:+ "]".

Definition nonempty (s : string) : option string :=
  if (s =? "")%string then None else Some (quote s).
Definition nonzero (n : Z) : option string := if n =? 0 then None else Some (int_text n).
Definition only_true (b : bool) : option string := if b then Some (bool_text b) else None.

(** [json.MarshalIndent] with no prefix and a two-space indent, as [json.Indent] walks the compact
    text: [instr] is inside a string literal, [esc] after its backslash, [need] after an opening
    bracket whose first member has not been met. *)
Definition newline (depth : nat) : string :=
  String (byte_of 10) (join "" (replicate depth "  ")).
Definition is_open (c : ascii) : bool := (c =? "{")%char || (c =? "[")%char.
Definition is_close (c : ascii) : bool := (c =? "}")%char || (c =? "]")%char.

Fixpoint indent_loop (instr esc need : bool) (depth : nat) (s : string) : string :=
  match s with
  | "" => ""
  | String c r =>
      if instr then
        String c (if esc then indent_loop true false need depth r
                  else if (c =? "\")%char then indent_loop true true need depth r
                  else indent_loop (negb (byte_code c =? 34)) false need depth r)
      else
        let enter := need && negb (is_close c) in
        let depth := if enter then S depth else depth in
        let before := if enter then newline depth else "" in
        if is_open c then before +:+ String c (indent_loop false false true depth r)
        else if is_close c then
          if need then String c (indent_loop false false false depth r)
          else newline (pred depth) +:+ String c (indent_loop false false false (pred depth) r)
        else if (c =? ",")%char then
          before +:+ String c (newline depth +:+ indent_loop false false false depth r)
        else if (c =? ":")%char then
          before +:+ String c (String " " (indent_loop false false false depth r))
        else before +:+ String c (indent_loop (byte_code c =? 34) false false depth r)
  end.
Definition indent (s : string) : string := indent_loop false false false O s.

(** ** Facts *)

Lemma valid_coerce_loop s : forall skip, valid_loop skip s = true -> coerce_loop skip s = s.
Proof.
  induction s as [|c r IH]; intros skip H; [done|]. cbn [coerce_loop valid_loop] in *.
  destruct skip as [|k]; [|by rewrite IH].
  destruct (rune_len _) as [|k]; [done|]. by rewrite IH.
Qed.

Lemma valid_coerce s : valid_utf8 s = true -> coerce_utf8 s = s.
Proof. apply valid_coerce_loop. Qed.

Lemma ascii_valid_loop s : str_forallb (fun c => byte_code c <? 128) s = true -> valid_loop 0 s = true.
Proof.
  induction s as [|c r IH]; [done|]. cbn. intros [Hc H]%andb_true_iff.
  rewrite Hc. by apply IH.
Qed.

#[export] Hint Resolve valid_coerce : shipper.

Example indent_nested :
  let nl := String (byte_of 10) "" in
  indent (object [member "a" (Some (array [quote "x,{"; "1"])); member "b" (Some (array []))])
  = "{" +:+ nl +:+ "  " +:+ quote "a" +:+ ": [" +:+ nl +:+ "    " +:+ quote "x,{" +:+ "," +:+ nl
    +:+ "    1" +:+ nl +:+ "  ]," +:+ nl +:+ "  " +:+ quote "b" +:+ ": []" +:+ nl +:+ "}".
Proof. vm_compute. reflexivity. Qed.
