(* ===== verification/GoText.v ===== *)
(** More of Go's [strings] and [encoding/json]: white space rune by rune, replacement of a substring,
    a stable sort, and the text an encoder writes with HTML escaping off, a raw message compacted. *)

From S2P Require Import Prelude GoLib GoJson.

(** ** White space *)

(** [unicode.IsSpace]. *)
Definition rune_IsSpace (r : string) : bool :=
  match map byte_code (list_ascii_of_string r) with
  | [c] => (9 <=? c) && (c <=? 13) || (c =? 32)
  | [c; d] => (c =? 194) && ((d =? 133) || (d =? 160))
  | [225; 154; 128] => true
  | [226; 128; d] => (128 <=? d) && (d <=? 138) || (d =? 168) || (d =? 169) || (d =? 175)
  | [226; 129; 159] => true
  | [227; 128; 128] => true
  | _ => false
  end.

Fixpoint drop_spaces (l : list string) : list string :=
  match l with r :: t => if rune_IsSpace r then drop_spaces t else l | [] => [] end.
Definition trim_runes (l : list string) : list string := rev (drop_spaces (rev (drop_spaces l))).

(** [strings.TrimSpace], over the runes with a byte that starts none kept as it is. *)
Fixpoint raw_runes_loop (fuel : nat) (s : string) : list string :=
  match fuel, s with
  | S f, String c r =>
      match rune_len s with
      | O => String c "" :: raw_runes_loop f r
      | n => String.substring 0 n s :: raw_runes_loop f (str_drop n s)
      end
  | _, _ => []
  end.
Definition raw_runes (s : string) : list string := raw_runes_loop (String.length s) s.
Definition TrimSpace (s : string) : string := String.concat "" (trim_runes (raw_runes s)).

(** ** Substrings *)

(** [strings.ReplaceAll] of a non-empty substring; [skip] bytes of an occurrence are left. *)
Fixpoint replace_loop (old new : string) (skip : nat) (s : string) : string :=
  match s with
  | "" => ""
  | String c r =>
      match skip with
      | S k => replace_loop old new k r
      | O => if has_prefix old s then new +:+ replace_loop old new (pred (String.length old)) r
             else String c (replace_loop old new O r)
      end
  end.
Definition ReplaceAll (s old new : string) : string := replace_loop old new O s.

Example ReplaceAll_overlapping : ReplaceAll "aaaab" "aa" "x" = "xxb".
Proof. reflexivity. Qed.

(** ** [slices.SortStableFunc]: equal elements keep their order. *)

Section Sort.
Context {A : Type} (before : A -> A -> bool).

Fixpoint insert_stable (x : A) (l : list A) : list A :=
  match l with
  | [] => [x]
  | y :: t => if before y x then y :: insert_stable x t else x :: l
  end.
Definition SortStable (l : list A) : list A := foldr insert_stable [] l.

Lemma insert_stable_perm x l : insert_stable x l ≡ₚ x :: l.
Proof.
  induction l as [|y t IH]; simpl; [done|]. destruct (before y x); [|done].
  rewrite IH. apply Permutation_swap.
Qed.

Lemma SortStable_perm l : SortStable l ≡ₚ l.
Proof. induction l as [|x t IH]; simpl; [done|]. by rewrite insert_stable_perm, IH. Qed.

(** No element stands behind one it comes before. *)
Definition in_order (a b : A) : Prop := before b a = false.
Hypothesis before_trans : forall a b c, in_order a b -> in_order b c -> in_order a c.
Hypothesis before_asym : forall a b, before a b = true -> before b a = false.

Lemma insert_stable_sorted x l : StronglySorted in_order l -> StronglySorted in_order (insert_stable x l).
Proof.
  induction 1 as [|y t Ht IH Hy]; simpl; [by repeat constructor|]. destruct (before y x) eqn:E.
  - constructor; [done|]. rewrite Forall_forall. intros z Hz. rewrite insert_stable_perm in Hz.
    apply elem_of_cons in Hz as [->|Hz]; [by apply before_asym|]. rewrite Forall_forall in Hy. by apply Hy.
  - constructor; [by constructor|]. constructor; [done|].
    eapply Forall_impl; [exact Hy|]. intros z Hz. by apply (before_trans x y z).
Qed.

Lemma SortStable_sorted l : StronglySorted in_order (SortStable l).
Proof. induction l as [|x t IH]; simpl; [constructor|]. by apply insert_stable_sorted. Qed.
End Sort.

(** ** An encoder with [SetEscapeHTML(false)] *)

Definition html_byte (c : ascii) : bool := (c =? "<")%char || (c =? ">")%char || (c =? "&")%char.
Definition plain_byte (c : ascii) : string := if html_byte c then String c "" else escape_byte c.

(** As [quote_loop], with [<], [>] and [&] left alone. *)
Fixpoint plain_quote_loop (copy drop : nat) (s : string) : string :=
  match s with
  | "" => ""
  | String c r =>
      match copy, drop with
      | S k, _ => String c (plain_quote_loop k O r)
      | O, S k => plain_quote_loop O k r
      | O, O =>
          if byte_code c <? 128 then plain_byte c +:+ plain_quote_loop O O r
          else match rune_len s with
               | O => "\ufffd" +:+ plain_quote_loop O O r
               | S k => match line_separator s with
                        | Some e => e +:+ plain_quote_loop O k r
                        | None => String c (plain_quote_loop k O r)
                        end
               end
      end
  end.
Definition plain_body (s : string) : string := plain_quote_loop O O s.
Definition plain_quote (s : string) : string := dquote +:+ plain_body s +:+ dquote.

(** A raw message is written compacted: the white space between its tokens goes. *)
Fixpoint compact_loop (instr esc : bool) (s : string) : string :=
  match s with
  | "" => ""
  | String c r =>
      if instr then
        String c (if esc then compact_loop true false r
                  else if (c =? "\")%char then compact_loop true true r
                  else compact_loop (negb (byte_code c =? 34)) false r)
      else if (c =? " ")%char || (c =? "009")%char || (c =? "010")%char || (c =? "013")%char
      then compact_loop false false r
      else String c (compact_loop (byte_code c =? 34) false r)
  end.
Definition compact (s : string) : string := compact_loop false false s.
