(* ===== verification/StateDoc.v ===== *)
(** The fingerprint document: [src/internal/engine/state.go], its types, its wire format and the
    schema it is validated against ([src/internal/formats/fingerprint-state.schema.json]). The
    operations of the open store are in [Store]. *)

From S2P Require Import Prelude GoLib Crypto GoTime GoJson.

(** ** Types *)

Record Key := mkKey { SourceID : string; ID : string }.

Record EnricherRef := mkEnricherRef { ref_ID : string; ref_Version : Z }.

Record Fingerprint := mkFingerprint {
  NativePath : string;
  SourceSize : Z;
  SourceMTime : Z;
  SourceHash : string;
  Enricher : option EnricherRef;
  OutputHash : string;
  Parked : bool;
  LastError : string;
  BackoffUntil : Z;
  Attempts : Z
}.

(** Go's zero value. *)
Definition zero_fp : Fingerprint := mkFingerprint "" 0 0 "" None "" false "" 0 0.

#[global] Instance Key_eq_dec : EqDecision Key.
Proof. solve_decision. Defined.
#[global] Instance Key_countable : Countable Key.
Proof.
  refine (inj_countable' (fun k => (SourceID k, ID k)) (fun p => mkKey p.1 p.2) _).
  by intros [].
Defined.
#[global] Instance EnricherRef_eq_dec : EqDecision EnricherRef.
Proof. solve_decision. Defined.
#[global] Instance Fingerprint_eq_dec : EqDecision Fingerprint.
Proof. solve_decision. Defined.

Definition observedPath (k : Key) (fp : Fingerprint) : string := str_or (NativePath fp) (ID k).

Record Document := mkDocument {
  doc_InstallID : string;
  doc_UpdatedAt : Z;
  doc_SourceSpecs : gmap string string;
  doc_Entries : gmap Key Fingerprint
}.

Definition ForeignTo (d : Document) (installID : string) : bool :=
  negb (doc_InstallID d =? "")%string && negb (installID =? "")%string &&
  negb (doc_InstallID d =? installID)%string.

Definition StateSchema : Z := 1.
Definition maxDocumentBytes : Z := Z.shiftl 64 20.
Definition pruneMaxDocumentBytes : Z := Z.shiftl 512 20.

(** ** Wire format *)

Record wireEntry := mkWireEntry {
  we_SourceID : string;
  we_NativePath : string;
  we_Identity : string;
  we_SourceSize : Z;
  we_SourceMTime : string;
  we_Attempts : Z;
  we_SourceHash : string;
  we_Enricher : option EnricherRef;
  we_OutputHash : string;
  we_Parked : bool;
  we_LastError : string;
  we_BackoffUntil : string
}.

Record wireDoc := mkWireDoc {
  wd_StateSchema : Z;
  wd_InstallID : string;
  wd_UpdatedAt : string;
  wd_SourceSpecs : list (string * string);
  wd_Checksum : string;
  wd_Entries : list wireEntry
}.

(** [json.Marshal] of the document: fields in declaration order, [omitempty] honoured, map keys
    sorted ([wd_SourceSpecs] is kept sorted by its key). *)
Definition marshal_ref (r : EnricherRef) : string :=
  object [member "id" (Some (quote (ref_ID r))); member "version" (Some (int_text (ref_Version r)))].

Definition marshal_entry (e : wireEntry) : string :=
  object [
    member "source_id" (Some (quote (we_SourceID e)));
    member "native_path" (Some (quote (we_NativePath e)));
    member "identity" (nonempty (we_Identity e));
    member "source_size" (nonzero (we_SourceSize e));
    member "source_mtime" (nonempty (we_SourceMTime e));
    member "attempts" (nonzero (we_Attempts e));
    member "source_hash" (nonempty (we_SourceHash e));
    member "enricher" (marshal_ref <$> we_Enricher e);
    member "output_hash" (nonempty (we_OutputHash e));
    member "parked" (only_true (we_Parked e));
    member "last_error" (nonempty (we_LastError e));
    member "backoff_until" (nonempty (we_BackoffUntil e))
  ].

Definition marshal_doc (d : wireDoc) : string :=
  object [
    member "state_schema" (Some (int_text (wd_StateSchema d)));
    member "install_id" (nonempty (wd_InstallID d));
    member "updated_at" (nonempty (wd_UpdatedAt d));
    member "source_specs"
      (match wd_SourceSpecs d with
       | [] => None
       | l => Some (object (map (fun '(k, v) => member k (Some (quote v))) l))
       end);
    member "checksum" (nonempty (wd_Checksum d));
    member "entries" (Some (array (map marshal_entry (wd_Entries d))))
  ].

Definition set_checksum (d : wireDoc) (sum : string) : wireDoc :=
  mkWireDoc (wd_StateSchema d) (wd_InstallID d) (wd_UpdatedAt d) (wd_SourceSpecs d) sum
    (wd_Entries d).

Definition checksumOf (doc : wireDoc) : string := sha256_hex (marshal_doc (set_checksum doc "")).

(** What a document's strings are after [json.MarshalIndent] and [json.Unmarshal]. *)
Definition coerce_ref (r : EnricherRef) : EnricherRef :=
  mkEnricherRef (coerce_utf8 (ref_ID r)) (ref_Version r).
Definition coerce_entry (e : wireEntry) : wireEntry :=
  mkWireEntry (coerce_utf8 (we_SourceID e)) (coerce_utf8 (we_NativePath e))
    (coerce_utf8 (we_Identity e)) (we_SourceSize e) (coerce_utf8 (we_SourceMTime e))
    (we_Attempts e) (coerce_utf8 (we_SourceHash e)) (coerce_ref <$> we_Enricher e)
    (coerce_utf8 (we_OutputHash e)) (we_Parked e) (coerce_utf8 (we_LastError e))
    (coerce_utf8 (we_BackoffUntil e)).
Definition coerce_doc (d : wireDoc) : wireDoc :=
  mkWireDoc (wd_StateSchema d) (coerce_utf8 (wd_InstallID d)) (coerce_utf8 (wd_UpdatedAt d))
    (map (fun '(k, v) => (coerce_utf8 k, coerce_utf8 v)) (wd_SourceSpecs d))
    (coerce_utf8 (wd_Checksum d)) (map coerce_entry (wd_Entries d)).

(** ** The schema of the document, on its decoded values *)

Definition uuid_ok (s : string) : bool :=
  str_forallb (fun c => is_hex c || (c =? "-")%char) s &&
  bool_decide (map slen (split_on "-" s) = [8; 4; 4; 4; 12]).

Definition identifier_ok (s : string) : bool :=
  match s with
  | "" => false
  | String c r => (is_lower c || is_digit c) &&
                  str_forallb (fun c => is_lower c || is_digit c || (c =? "-")%char) r &&
                  (slen s <=? 64)
  end.

Definition absent_or (f : string -> bool) (s : string) : bool := (s =? "")%string || f s.

Definition schema_entry (e : wireEntry) : bool :=
  identifier_ok (we_SourceID e) && negb (we_NativePath e =? "")%string &&
  (0 <=? we_SourceSize e) && absent_or sha256_ok (we_SourceHash e) &&
  match we_Enricher e with
  | None => true
  | Some r => identifier_ok (ref_ID r) && (1 <=? ref_Version r)
  end &&
  absent_or sha256_ok (we_OutputHash e) && (0 <=? we_Attempts e).

Definition schema_doc (d : wireDoc) : bool :=
  (wd_StateSchema d =? 1) && absent_or uuid_ok (wd_InstallID d) &&
  forallb (fun '(_, v) => sha256_ok v) (wd_SourceSpecs d) &&
  absent_or sha256_ok (wd_Checksum d) && forallb schema_entry (wd_Entries d).

(** ** Encoding *)

Inductive state_error :=
  | LockBusy
  | ReadFailed (msg : string)
  | ParseFailed
  | SchemaMismatch (found : Z)
  | ChecksumFailed
  | NegativeAttempts (sourceID nativePath : string) (attempts : Z)
  | Foreign (docInstall : string)
  | SchemaInvalid
  | DirFailed (msg : string)
  | WriteFailed (msg : string).

#[global] Instance state_error_eq_dec : EqDecision state_error.
Proof. solve_decision. Defined.

(** Entries sort by source id, then key id; both comparisons are byte-wise. *)
Definition key_leb (a b : Key) : bool :=
  if (SourceID a =? SourceID b)%string then str_leb (ID a) (ID b)
  else str_leb (SourceID a) (SourceID b).
Definition entry_le (a b : Key * Fingerprint) : Prop := Is_true (key_leb a.1 b.1).
Definition spec_le (a b : string * string) : Prop := Is_true (str_leb a.1 b.1).
#[global] Instance entry_le_dec a b : Decision (entry_le a b).
Proof. unfold entry_le. apply _. Defined.
#[global] Instance spec_le_dec a b : Decision (spec_le a b).
Proof. unfold spec_le. apply _. Defined.

Definition encode_entry (kfp : Key * Fingerprint) : wireEntry :=
  let '(k, fp) := kfp in
  let path := observedPath k fp in
  mkWireEntry (SourceID k) path
    (if negb (path =? ID k)%string then ID k else "")
    (SourceSize fp)
    (if negb (is_zero_time (SourceMTime fp)) then format_rfc3339_nano (SourceMTime fp) else "")
    (Attempts fp) (SourceHash fp) (Enricher fp) (OutputHash fp) (Parked fp) (LastError fp)
    (if negb (is_zero_time (BackoffUntil fp)) then format_rfc3339 (BackoffUntil fp) else "").

(** [validate]: the marshalled body against the schema. *)
Definition validate (d : wireDoc) : result state_error () :=
  if schema_doc (coerce_doc d) then Ok () else Err SchemaInvalid.

Definition encode (installID : string) (updatedAt : Z) (specs : gmap string string)
    (entries : gmap Key Fingerprint) : result state_error wireDoc :=
  let doc := mkWireDoc StateSchema installID
    (if negb (is_zero_time updatedAt) then format_rfc3339 updatedAt else "")
    (merge_sort spec_le (map_to_list specs)) ""
    (map encode_entry (merge_sort entry_le (map_to_list entries))) in
  let doc := set_checksum doc (checksumOf doc) in
  let! _ := validate doc in
  Ok doc.

(** ** Loading *)

(** The file as [platform.ReadWhole] and [json.Unmarshal] find it: missing, unreadable, or bytes of
    some length that parse or not. *)
Inductive file :=
  | FileAbsent
  | FileUnreadable (msg : string)
  | FileBytes (size : Z) (parsed : option wireDoc).

(** The file [platform.WriteAtomic] leaves for an encoded document: the indented text and a line feed.
    Its length is that of the text, computed; that [json.Unmarshal] into the struct the text was
    marshalled from gives the document back, with every string coerced to UTF-8, is [encoding/json]'s
    documented behaviour and is taken as such, not derived from a parser. *)
Definition body_size (d : wireDoc) : Z := slen (indent (marshal_doc d)) + 1.
Definition file_of (d : wireDoc) : file := FileBytes (body_size d) (Some (coerce_doc d)).

Definition parse_or_zero (s : string) : Z := default 0 (parse_rfc3339 s).

Definition load_entry (e : wireEntry) : Key * Fingerprint :=
  (mkKey (we_SourceID e) (str_or (we_Identity e) (we_NativePath e)),
   mkFingerprint
     (if negb (we_Identity e =? "")%string then we_NativePath e else "")
     (we_SourceSize e)
     (if negb (we_SourceMTime e =? "")%string then parse_or_zero (we_SourceMTime e) else 0)
     (we_SourceHash e) (we_Enricher e) (we_OutputHash e) (we_Parked e) (we_LastError e)
     (if negb (we_BackoffUntil e =? "")%string then parse_or_zero (we_BackoffUntil e) else 0)
     (we_Attempts e)).

Fixpoint load_entries (l : list wireEntry) (acc : gmap Key Fingerprint)
    : result state_error (gmap Key Fingerprint) :=
  match l with
  | [] => Ok acc
  | e :: r =>
      if we_Attempts e <? 0
      then Err (NegativeAttempts (we_SourceID e) (we_NativePath e) (we_Attempts e))
      else let kfp := load_entry e in load_entries r (<[kfp.1 := kfp.2]> acc)
  end.

Definition load_doc (doc : wireDoc) : result state_error Document :=
  if negb (wd_StateSchema doc =? StateSchema) then Err (SchemaMismatch (wd_StateSchema doc))
  else if negb (wd_Checksum doc =? "")%string && negb (checksumOf doc =? wd_Checksum doc)%string
  then Err ChecksumFailed
  else
    let! entries := load_entries (wd_Entries doc) ∅ in
    Ok (mkDocument (wd_InstallID doc)
          (if negb (wd_UpdatedAt doc =? "")%string then parse_or_zero (wd_UpdatedAt doc) else 0)
          (foldl (fun m kv => <[kv.1 := kv.2]> m) ∅ (wd_SourceSpecs doc)) entries).

Definition load (f : file) (maxBytes : Z) : result state_error Document :=
  match f with
  | FileAbsent => Ok (mkDocument "" 0 ∅ ∅)
  | FileUnreadable msg => Err (ReadFailed msg)
  | FileBytes size parsed =>
      if (0 <? maxBytes) && (maxBytes <? size) then Err (ReadFailed "too large")
      else match parsed with
           | None => Err ParseFailed
           | Some doc => load_doc doc
           end
  end.

(** ** Round trip *)

Lemma foldl_insert_NoDup `{Countable K} {V} (l : list (K * V)) (m : gmap K V) :
  NoDup l.*1 -> (forall k, k ∈ l.*1 -> m !! k = None) ->
  foldl (fun m kv => <[kv.1 := kv.2]> m) m l = list_to_map l ∪ m.
Proof.
  revert m; induction l as [|[k v] l IH]; intros m Hnd Hm; simpl in *.
  - by rewrite map_empty_union.
  - apply NoDup_cons in Hnd as [Hk Hnd]. rewrite IH.
    + rewrite <- insert_union_r by (by apply not_elem_of_list_to_map). by rewrite insert_union_l.
    + done.
    + intros k' Hk'. rewrite lookup_insert_ne; [apply Hm; set_solver|]. set_solver.
Qed.

Lemma foldl_insert_sorted `{Countable K} {V} (R : relation (K * V)) `{!RelDecision R}
    (m : gmap K V) :
  foldl (fun m kv => <[kv.1 := kv.2]> m) ∅ (merge_sort R (map_to_list m)) = m.
Proof.
  pose proof (merge_sort_Permutation R (map_to_list m)) as Hp.
  assert (NoDup (merge_sort R (map_to_list m)).*1) as Hnd
    by (rewrite Hp; apply NoDup_fst_map_to_list).
  rewrite foldl_insert_NoDup; [|done|intros; apply lookup_empty].
  rewrite map_union_empty, (list_to_map_proper _ (map_to_list m)) by done.
  apply list_to_map_to_list.
Qed.

(** What a stored fingerprint reads back as: the path is only kept beside a logical identity, and
    a backoff end to the second. *)
Definition normal_fp (k : Key) (fp : Fingerprint) : Fingerprint :=
  mkFingerprint (if (observedPath k fp =? ID k)%string then "" else NativePath fp)
    (SourceSize fp) (SourceMTime fp) (SourceHash fp) (Enricher fp) (OutputHash fp) (Parked fp)
    (LastError fp) (BackoffUntil fp - BackoffUntil fp mod second) (Attempts fp).

(** The state a document can carry exactly: text in UTF-8, a key id, times with four-digit years,
    counters that are not negative. *)
Definition fp_utf8 (k : Key) (fp : Fingerprint) : bool :=
  valid_utf8 (SourceID k) && valid_utf8 (ID k) && valid_utf8 (NativePath fp) &&
  valid_utf8 (SourceHash fp) && valid_utf8 (OutputHash fp) && valid_utf8 (LastError fp) &&
  match Enricher fp with Some r => valid_utf8 (ref_ID r) | None => true end.

Definition storable (k : Key) (fp : Fingerprint) : Prop :=
  fp_utf8 k fp = true /\ ID k <> "" /\ rfc3339_time (SourceMTime fp) /\
  rfc3339_time (BackoffUntil fp).

Lemma time_text_roundtrip t :
  rfc3339_time t ->
  (if negb ((if negb (is_zero_time t) then format_rfc3339_nano t else "") =? "")%string
   then parse_or_zero (if negb (is_zero_time t) then format_rfc3339_nano t else "") else 0) = t /\
  (if negb ((if negb (is_zero_time t) then format_rfc3339 t else "") =? "")%string
   then parse_or_zero (if negb (is_zero_time t) then format_rfc3339 t else "") else 0)
  = t - t mod second.
Proof.
  intros Ht. destruct (rfc3339_text_exact t Ht) as [H1 H2], (format_nonempty t) as [N1 N2].
  unfold is_zero_time, parse_or_zero. destruct (t =? 0) eqn:E; boolp; cbn [negb].
  - subst. done.
  - apply String.eqb_neq in N1, N2. rewrite N1, N2. cbn [negb]. by rewrite H1, H2.
Qed.

Lemma load_encode_entry k fp :
  storable k fp -> load_entry (encode_entry (k, fp)) = (k, normal_fp k fp).
Proof.
  intros (_ & Hid & Hm & Hb). unfold load_entry, encode_entry, normal_fp.
  cbn [we_SourceID we_NativePath we_Identity we_SourceSize we_SourceMTime we_Attempts
       we_SourceHash we_Enricher we_OutputHash we_Parked we_LastError we_BackoffUntil].
  destruct (time_text_roundtrip _ Hm) as [-> _], (time_text_roundtrip _ Hb) as [_ ->].
  destruct k as [src id]; cbn [SourceID ID] in *. unfold observedPath in *. cbn [ID].
  apply String.eqb_neq in Hid.
  destruct (str_or (NativePath fp) id =? id)%string eqn:E; cbn [negb].
  - apply String.eqb_eq in E. by rewrite E.
  - rewrite Hid. cbn [negb].
    assert (str_or id (str_or (NativePath fp) id) = id) as -> by (unfold str_or at 1; by rewrite Hid).
    assert (str_or (NativePath fp) id = NativePath fp) as ->; [|done].
    unfold str_or in *. destruct (NativePath fp =? "")%string; [|done].
    by rewrite String.eqb_refl in E.
Qed.

(** Coercion leaves a storable entry alone. *)
Lemma ascii_text_coerce s : ascii_text s = true -> coerce_utf8 s = s.
Proof. intros H. apply valid_coerce, ascii_valid_loop, H. Qed.

Lemma coerce_encode_entry k fp :
  storable k fp -> coerce_entry (encode_entry (k, fp)) = encode_entry (k, fp).
Proof.
  intros (Hv & _). unfold fp_utf8 in Hv. boolp.
  destruct (format_ascii (SourceMTime fp)) as [_ A1], (format_ascii (BackoffUntil fp)) as [A2 _].
  unfold encode_entry, coerce_entry.
  cbn [we_SourceID we_NativePath we_Identity we_SourceSize we_SourceMTime we_Attempts
       we_SourceHash we_Enricher we_OutputHash we_Parked we_LastError we_BackoffUntil].
  f_equal; try by apply valid_coerce.
  - unfold observedPath, str_or. case_goal; by apply valid_coerce.
  - case_goal; [by apply valid_coerce|done].
  - case_goal; [by apply ascii_text_coerce|done].
  - destruct (Enricher fp) as [[i v]|]; [|done]. cbn in *. unfold coerce_ref. cbn.
    by rewrite valid_coerce.
  - case_goal; [by apply ascii_text_coerce|done].
Qed.

Lemma hex_encode_ascii l : ascii_text (hex_encode l) = true.
Proof.
  assert (forall n, byte_code (hex_lower n) <? 128 = true) as H.
  { intros n. unfold hex_lower. generalize (Z.to_nat n) as k. intros k.
    do 16 (destruct k as [|k]; [reflexivity|]). by destruct k. }
  induction l as [|b r IH]; [done|]. unfold ascii_text in *. cbn [hex_encode str_forallb]. by rewrite !H, IH.
Qed.

Definition storable_state (installID : string) (updatedAt : Z) (specs : gmap string string)
    (entries : gmap Key Fingerprint) : Prop :=
  valid_utf8 installID = true /\ rfc3339_time updatedAt /\
  map_Forall (fun k v => valid_utf8 k = true /\ valid_utf8 v = true) specs /\
  map_Forall storable entries.

Lemma coerce_encoded_doc installID updatedAt specs entries sum :
  storable_state installID updatedAt specs entries -> ascii_text sum = true ->
  let d := mkWireDoc StateSchema installID
    (if negb (is_zero_time updatedAt) then format_rfc3339 updatedAt else "")
    (merge_sort spec_le (map_to_list specs)) sum
    (map encode_entry (merge_sort entry_le (map_to_list entries))) in
  coerce_doc d = d.
Proof.
  intros (H1 & H2 & H3 & H4) Hsum. cbn zeta. unfold coerce_doc.
  cbn [wd_StateSchema wd_InstallID wd_UpdatedAt wd_SourceSpecs wd_Checksum wd_Entries]. f_equal.
  - by apply valid_coerce.
  - destruct (format_ascii updatedAt) as [A _]. case_goal; [by apply ascii_text_coerce|done].
  - rewrite <- (List.map_id (merge_sort spec_le (map_to_list specs))) at 2.
    apply List.map_ext_in. intros [k v] Hin.
    apply list_elem_of_In in Hin. rewrite merge_sort_Permutation in Hin.
    apply elem_of_map_to_list in Hin. apply H3 in Hin as [Hk Hv].
    by rewrite !valid_coerce.
  - by apply ascii_text_coerce.
  - rewrite List.map_map. apply List.map_ext_in. intros [k v] Hin.
    apply list_elem_of_In in Hin. rewrite merge_sort_Permutation in Hin.
    apply elem_of_map_to_list in Hin. by apply coerce_encode_entry, H4.
Qed.

Lemma load_entries_encoded l m :
  Forall (fun kfp => storable kfp.1 kfp.2 /\ 0 <= Attempts kfp.2) l ->
  load_entries (map encode_entry l) m
  = Ok (foldl (fun m kv => <[kv.1 := kv.2]> m) m
          (map (fun kfp => (kfp.1, normal_fp kfp.1 kfp.2)) l)).
Proof.
  intros H. revert m; induction H as [|[k fp] l [Hs Ha] Hl IH]; intros m; [done|].
  cbn [map load_entries]. rewrite load_encode_entry by done.
  cbn in Ha. replace (we_Attempts (encode_entry (k, fp)) <? 0) with false
    by (symmetry; apply Z.ltb_ge; exact Ha).
  cbn [fst snd]. rewrite IH. done.
Qed.

Lemma foldl_insert_imap (m : gmap Key Fingerprint) :
  foldl (fun m kv => <[kv.1 := kv.2]> m) ∅
    (map (fun kfp => (kfp.1, normal_fp kfp.1 kfp.2)) (merge_sort entry_le (map_to_list m)))
  = map_imap (fun k fp => Some (normal_fp k fp)) m.
Proof.
  set (l := merge_sort entry_le (map_to_list m)).
  assert (l ≡ₚ map_to_list m) as Hp by apply merge_sort_Permutation.
  set (g := fun kfp : Key * Fingerprint => (kfp.1, normal_fp kfp.1 kfp.2)).
  assert ((map g l).*1 = l.*1) as Hfst by (rewrite <- list_fmap_compose; done).
  assert (NoDup (map g l).*1) as Hnd by (rewrite Hfst, Hp; apply NoDup_fst_map_to_list).
  rewrite foldl_insert_NoDup, map_union_empty by (done || intros; apply lookup_empty).
  apply map_eq. intros k. rewrite map_lookup_imap. destruct (m !! k) as [fp|] eqn:E; cbn.
  - apply elem_of_list_to_map; [done|]. apply list_elem_of_fmap.
    exists (k, fp). split; [done|]. rewrite Hp. by apply elem_of_map_to_list.
  - apply not_elem_of_list_to_map. rewrite Hfst. intros Hin.
    apply list_elem_of_fmap in Hin as ([k' fp] & -> & Hin). rewrite Hp in Hin.
    apply elem_of_map_to_list in Hin. cbn in E. congruence.
Qed.

Lemma validate_attempts d l :
  validate d = Ok () -> wd_Entries d = map encode_entry l ->
  Forall (fun kfp => 0 <= Attempts kfp.2) l.
Proof.
  unfold validate, schema_doc. intros Hv Hd. inv_ok. boolp.
  match goal with H : forallb schema_entry _ = true |- _ => rename H into Hall end.
  cbn in Hall. rewrite Hd, List.map_map, List.forallb_forall in Hall.
  apply Forall_forall. intros [k fp] Hin. apply list_elem_of_In in Hin.
  specialize (Hall _ (List.in_map _ _ _ Hin)). unfold schema_entry in Hall. boolp. done.
Qed.

Lemma encode_load_rt installID updatedAt specs entries d maxBytes :
  storable_state installID updatedAt specs entries ->
  encode installID updatedAt specs entries = Ok d ->
  body_size d <= maxBytes ->
  load (file_of d) maxBytes
  = Ok (mkDocument installID (updatedAt - updatedAt mod second) specs
          (map_imap (fun k fp => Some (normal_fp k fp)) entries)).
Proof.
  intros Hst He Hsize. unfold encode in He. inv_ok. destruct x. rename H into Hval.
  set (body := mkWireDoc _ _ _ _ _ _) in *.
  assert (coerce_doc (set_checksum body (checksumOf body)) = set_checksum body (checksumOf body))
    as Hc by (apply coerce_encoded_doc; [done|apply hex_encode_ascii]).
  unfold load, file_of. rewrite Hc.
  replace ((0 <? maxBytes) && (maxBytes <? body_size _)) with false
    by (symmetry; apply andb_false_iff; right; apply Z.ltb_ge; lia).
  unfold load_doc. cbn [set_checksum wd_StateSchema wd_Checksum].
  rewrite Z.eqb_refl. cbn [negb].
  change (checksumOf (set_checksum body _)) with (checksumOf body).
  rewrite String.eqb_refl, andb_false_r.
  change (wd_Entries (set_checksum body _))
    with (map encode_entry (merge_sort entry_le (map_to_list entries))).
  destruct Hst as (_ & Ht & _ & Hs).
  rewrite load_entries_encoded.
  - rewrite foldl_insert_imap. cbn [rbind]. f_equal.
    f_equal; [|apply (foldl_insert_sorted spec_le)].
    change (wd_UpdatedAt _) with (if negb (is_zero_time updatedAt) then format_rfc3339 updatedAt else "").
    by apply time_text_roundtrip.
  - apply Forall_and. split.
    + apply Forall_forall. intros [k fp] Hin. rewrite merge_sort_Permutation in Hin.
      apply elem_of_map_to_list in Hin. by apply Hs.
    + by apply (validate_attempts _ _ Hval).
Qed.

(** C38: the durable document of a storable state is faithful: when the install id, the source
    generations and the entries are UTF-8 text, every entry has an id and every time a year of four
    digits ([storable_state]), and the document [encode] accepts is no longer than the bound it is
    loaded under, loading it gives the same install id and generations back and the same keys; each
    fingerprint comes back as [normal_fp] has it, its path kept only beside an identity, its backoff
    end cut to the second and all else, modification times included, exact; the time of the document
    is cut to the second. *)
Theorem encode_load_roundtrip installID updatedAt specs entries d maxBytes :
  storable_state installID updatedAt specs entries ->
  encode installID updatedAt specs entries = Ok d ->
  body_size d <= maxBytes ->
  load (file_of d) maxBytes
  = Ok (mkDocument installID (updatedAt - updatedAt mod second) specs
          (map_imap (fun k fp => Some (normal_fp k fp)) entries)).
Proof. apply encode_load_rt. Qed.

(** ** What [encode] accepts *)

Definition body_of (installID : string) (updatedAt : Z) (specs : gmap string string)
    (entries : gmap Key Fingerprint) : wireDoc :=
  mkWireDoc StateSchema installID
    (if negb (is_zero_time updatedAt) then format_rfc3339 updatedAt else "")
    (merge_sort spec_le (map_to_list specs)) ""
    (map encode_entry (merge_sort entry_le (map_to_list entries))).

Lemma encode_accepts installID updatedAt specs entries :
  storable_state installID updatedAt specs entries ->
  schema_doc (body_of installID updatedAt specs entries) = true ->
  encode installID updatedAt specs entries
  = Ok (set_checksum (body_of installID updatedAt specs entries)
          (checksumOf (body_of installID updatedAt specs entries))).
Proof.
  intros Hst Hs. unfold encode. fold (body_of installID updatedAt specs entries).
  set (b := body_of _ _ _ _) in *.
  assert (coerce_doc (set_checksum b (checksumOf b)) = set_checksum b (checksumOf b)) as Hc
    by (apply coerce_encoded_doc; [done|apply hex_encode_ascii]).
  unfold validate. rewrite Hc.
  assert (schema_doc (set_checksum b (checksumOf b)) = true) as ->; [|done].
  unfold schema_doc in *. cbn [set_checksum wd_StateSchema wd_InstallID wd_SourceSpecs wd_Checksum
    wd_Entries] in *. boolp. unfold absent_or, checksumOf. rewrite sha256_hex_ok, orb_true_r.
  repeat (apply andb_true_iff; split); done.
Qed.

Module Sample.
Definition install : string := "01234567-89ab-4cde-8fab-0123456789ab".
Definition key : Key := mkKey "claude-code" "session-1".
Definition fp : Fingerprint :=
  mkFingerprint "/home/u/a.jsonl" 12 63871234567123456789
    "ba7816bf8f01cfea414140de5dae2223b00361a396177a9cb410ff61f20015ad" None "" true "denied"
    (63871234567 * second + 5) 2.
Definition now : Z := 63871234567 * second.
Definition specs : gmap string string :=
  {[ "claude-code" := "ba7816bf8f01cfea414140de5dae2223b00361a396177a9cb410ff61f20015ad" ]}.
Definition entries : gmap Key Fingerprint := {[ key := fp ]}.

Lemma storable : storable_state install now specs entries.
Proof.
  unfold storable_state. split_and!.
  - vm_compute. reflexivity.
  - vm_compute. split; congruence.
  - unfold specs. apply map_Forall_singleton. split; vm_compute; reflexivity.
  - unfold entries. apply map_Forall_singleton. unfold StateDoc.storable.
    split_and!; [vm_compute; reflexivity|done|vm_compute; split; congruence..].
Qed.

Lemma schema : schema_doc (body_of install now specs entries) = true.
Proof. vm_compute. reflexivity. Qed.
End Sample.

Lemma encode_load_roundtrip_witness :
  exists d,
    encode Sample.install Sample.now Sample.specs Sample.entries = Ok d /\
    load (file_of d) (body_size d)
    = Ok (mkDocument Sample.install (Sample.now - Sample.now mod second) Sample.specs
            (map_imap (fun k fp => Some (normal_fp k fp)) Sample.entries)).
Proof.
  eexists. split; [apply (encode_accepts _ _ _ _ Sample.storable Sample.schema)|].
  apply encode_load_roundtrip.
  - apply Sample.storable.
  - apply (encode_accepts _ _ _ _ Sample.storable Sample.schema).
  - apply Z.le_refl.
Defined.

(** ** What [load] accepts *)

Lemma load_entries_attempts l m m' :
  load_entries l m = Ok m' -> map_Forall (fun _ fp => 0 <= Attempts fp) m ->
  map_Forall (fun _ fp => 0 <= Attempts fp) m'.
Proof.
  revert m; induction l as [|e l IH]; intros m H Hm; cbn [load_entries] in H; inv_ok; [done|].
  boolp. apply (IH _ H). apply map_Forall_insert_2; [|done]. cbn. lia.
Qed.

(** A document is trusted only as a whole: loading accepts it when its version is this
    client's, the digest it carries (unless it predates digests) is the digest of its own content,
    and then every entry's attempt count is one the backoff can shift by; anything else is refused
    with nothing kept of it. *)
Theorem load_accepts_only_intact d doc :
  load_doc d = Ok doc ->
  wd_StateSchema d = StateSchema /\
  (wd_Checksum d = "" \/ wd_Checksum d = sha256_hex (marshal_doc (set_checksum d ""))) /\
  map_Forall (fun _ fp => 0 <= Attempts fp) (doc_Entries doc).
Proof.
  unfold load_doc. intros H. inv_ok. boolp. split_and!; [done| |].
  - destruct (wd_Checksum d =? "")%string eqn:E; [left; by apply String.eqb_eq|right].
    match goal with H : _ && _ = false |- _ => cbn [negb andb] in H end.
    boolp. symmetry. done.
  - eapply load_entries_attempts; [exact H|]. apply map_Forall_empty.
Qed.

(** A document with no digest, as written before the field existed. *)
Definition undigested : wireDoc := body_of "" 0 ∅ ∅.
Lemma load_accepts_only_intact_witness :
  wd_StateSchema undigested = StateSchema /\
  (wd_Checksum undigested = "" \/
   wd_Checksum undigested = sha256_hex (marshal_doc (set_checksum undigested ""))) /\
  map_Forall (fun _ fp => 0 <= Attempts fp) (∅ : gmap Key Fingerprint).
Proof.
  apply (load_accepts_only_intact undigested (mkDocument "" 0 ∅ ∅)). vm_compute. reflexivity.
Defined.

(** A store with one entry whose path holds a byte that is not UTF-8. *)
Definition stray_byte : gmap Key Fingerprint :=
  {[ mkKey "a" ("/" +:+ String (byte_of 255) "") := zero_fp ]}.

(** A path that is not UTF-8 is written under a digest that reading it back does not reproduce: the
    digest is taken over the escaped replacement character, the document read back holds the
    character itself. [encode] accepts the state and [load] discards all of it. *)
Lemma encode_non_utf8_path_discarded :
  match encode "" 0 ∅ stray_byte with
  | Ok d => load (file_of d) maxDocumentBytes = Err ChecksumFailed
  | Err _ => False
  end.
Proof. vm_compute. reflexivity. Qed.
