(* ===== verification/Vocab.v ===== *)
(** The words every layer shares: [src/internal/formats/model.go], with Go's errors as the sentinels
    an error wraps. [FailureRecord] and its bounded log have their operations and theorems here;
    the outcome and report records are filled by [Pool], [Derived] and [Run]. *)

From S2P Require Import Prelude GoLib.

(** ** Errors *)

(** The package-level error variables that [errors.Is] is asked for, and the error types that
    [errors.As] is: a revocation record, a resolver rejection of a local layer, a failed dial. *)
Inductive sentinel :=
  | ErrAuthorizeUnavailable
  | ErrNotEnrolled
  | ErrInvalidRevocation
  | ErrConfigRejected
  | AsRevocation
  | AsLocalRejection
  | AsDialFailure
  | ErrCredentialsRefused
  | ErrUploadUnavailable
  | ErrOffline
  | ErrTicketExpired
  | ErrAlreadyPresent
  | ErrLocked
  | ErrSchemaMismatch
  | Canceled.

#[global] Instance sentinel_eq_dec : EqDecision sentinel.
Proof. solve_decision. Defined.

(** An error value: its text and the sentinels its chain reaches. A nil error is [None]. *)
Record error := mkError { Error : string; wraps : list sentinel }.

#[global] Instance error_eq_dec : EqDecision error.
Proof. solve_decision. Defined.

Definition Is (err : option error) (s : sentinel) : bool :=
  match err with Some e => bool_decide (s ∈ wraps e) | None => false end.

(** [errors.New] of a sentinel-less text, and [fmt.Errorf("%w...", s)]. *)
Definition errors_New (msg : string) : error := mkError msg [].
Definition wrap_error (prefix : string) (e : error) : error :=
  mkError (prefix +:+ Error e) (wraps e).

(** ** The vocabulary *)

Inductive HealthState := AgentAbsent | RootPresentNoMatch | MatchPresentUnreadable | Collected.
Inductive SniffResult := SniffUnset | SniffOK | SniffEmpty | SniffUnexpectedShape | SniffUnreadable.

Inductive Decision :=
  | DecisionUnset
  | DecisionShipped
  | DecisionUnchanged
  | DecisionSkipped
  | DecisionParked
  | DecisionFailed.

#[global] Instance HealthState_eq_dec : EqDecision HealthState.
Proof. solve_decision. Defined.
#[global] Instance SniffResult_eq_dec : EqDecision SniffResult.
Proof. solve_decision. Defined.
#[global] Instance Decision_eq_dec : EqDecision Decision.
Proof. solve_decision. Defined.

(** [Density] is a quotient of byte counts, kept as its two integers; zero is [(0, 1)]. *)
Record FileOutcome := mkFileOutcome {
  Fatal : bool;
  fo_Derived : bool;
  fo_SourceID : string;
  fo_NativePath : string;
  fo_RelPath : string;
  fo_ObjectKey : string;
  fo_Decision : Decision;
  BytesIn : Z;
  BytesOut : Z;
  Density : Z * Z;
  RuleHits : gmap string Z;
  fo_Reason : string
}.

#[global] Instance FileOutcome_eq_dec : EqDecision FileOutcome.
Proof. solve_decision. Defined.

Definition zero_outcome : FileOutcome :=
  mkFileOutcome false false "" "" "" "" DecisionUnset 0 0 (0, 1) ∅ "".

Definition set_decision (d : Decision) (reason : string) (o : FileOutcome) : FileOutcome :=
  mkFileOutcome (Fatal o) (fo_Derived o) (fo_SourceID o) (fo_NativePath o) (fo_RelPath o)
    (fo_ObjectKey o) d (BytesIn o) (BytesOut o) (Density o) (RuleHits o) reason.
Definition set_fatal (b : bool) (o : FileOutcome) : FileOutcome :=
  mkFileOutcome b (fo_Derived o) (fo_SourceID o) (fo_NativePath o) (fo_RelPath o)
    (fo_ObjectKey o) (fo_Decision o) (BytesIn o) (BytesOut o) (Density o) (RuleHits o)
    (fo_Reason o).
Definition set_reason (reason : string) (o : FileOutcome) : FileOutcome :=
  set_decision (fo_Decision o) reason o.

Record SourceOutcome := mkSourceOutcome {
  so_SourceID : string;
  so_Family : string;
  Health : option HealthState;
  Sniff : SniffResult;
  so_AgentVersion : string;
  so_Reason : string;
  so_Root : string;
  so_Remaining : Z;
  Emitted : bool;
  Oversize : Z;
  OversizeLargest : Z;
  OversizeExample : string;
  OversizeLimit : Z;
  Unreadable : Z;
  UnreadableExample : string;
  UnreadableReason : string;
  Files : list FileOutcome;
  Enriched : Z;
  EnrichSkipped : Z;
  so_EnrichMismatch : Z;
  EnrichErrors : Z;
  EnrichNotes : list string;
  EnricherID : string;
  EnricherVersion : Z;
  EnrichInfos : list string
}.

Record Report := mkReport {
  StartedAt : Z;
  FinishedAt : Z;
  Sources : list SourceOutcome;
  Shipped : Z;
  Unchanged : Z;
  Skipped : Z;
  rep_Parked : Z;
  rep_Failed : Z;
  Truncated : bool;
  rep_Remaining : Z;
  BytesRead : Z;
  BytesSealed : Z;
  MedianFileBytes : Z;
  rep_EnrichMismatch : Z;
  Paused : bool;
  PauseReason : string;
  StoreCorrupt : bool;
  SlowestScrubNanos : Z;
  SlowestScrubBytes : Z
}.

Record Remote := mkRemote { rem_Name : string; rem_Host : string; rem_Path : string }.
Record Repository := mkRepository {
  GitDir : string;
  MainWorktree : string;
  Remotes : list Remote
}.

(** ** The failure log *)

Inductive FailureKind :=
  | FailureTick
  | FailurePanic
  | FailureStoreCorrupt
  | FailureConfigRejected
  | FailureInit
  | FailureUpdate
  | FailureShutdown
  | FailureCrash
  | FailureStalled
  | FailureOffline.

#[global] Instance FailureKind_eq_dec : EqDecision FailureKind.
Proof. solve_decision. Defined.

Record FailureEvent := mkFailureEvent {
  At : string;
  ev_Kind : FailureKind;
  ev_RunID : string;
  Message : string
}.

Record LastCrash := mkLastCrash {
  lc_RunID : string;
  Phase : string;
  Consecutive : Z
}.

Record RunFacts := mkRunFacts {
  GOMAXPROCS : Z;
  rf_MaxFilesPerRun : Z;
  rf_MaxInFlightBytes : Z;
  SoftLimitBytes : Z;
  HeapInuseBytes : Z;
  SysBytes : Z;
  GCCycles : Z;
  rf_SlowestScrubNanos : Z;
  rf_SlowestScrubBytes : Z
}.

Record FailureRecord := mkFailureRecord {
  fr_LastCrash : option LastCrash;
  Recent : list FailureEvent;
  ConsecutiveFailures : Z;
  Facts : option RunFacts
}.

Definition set_Recent (l : list FailureEvent) (r : FailureRecord) : FailureRecord :=
  mkFailureRecord (fr_LastCrash r) l (ConsecutiveFailures r) (Facts r).

Definition MaxRecentFailures : nat := 20%nat.

Definition Standing (e : FailureEvent) : bool :=
  bool_decide (ev_Kind e = FailureOffline) || bool_decide (ev_Kind e = FailureStalled).

Definition Append (e : FailureEvent) (r : FailureRecord) : FailureRecord :=
  let recent := Recent r ++ [e] in
  let n := length recent in
  set_Recent (if (MaxRecentFailures <? n)%nat then drop (n - MaxRecentFailures) recent else recent) r.

(** The backward scan of [Stand], over the newest-first log: [Some] once the entry was replaced. *)
Fixpoint stand_scan (e : FailureEvent) (newest_first : list FailureEvent)
    : option (list FailureEvent) :=
  match newest_first with
  | [] => None
  | x :: older =>
      if Standing x then
        if bool_decide (ev_Kind x = ev_Kind e) then Some (e :: older)
        else cons x <$> stand_scan e older
      else None
  end.

Definition Stand (e : FailureEvent) (r : FailureRecord) : FailureRecord :=
  match stand_scan e (reverse (Recent r)) with
  | Some l => set_Recent (reverse l) r
  | None => Append e r
  end.

Definition Counted (e : FailureEvent) : bool :=
  match ev_Kind e with
  | FailureTick | FailureShutdown | FailureInit => true
  | FailurePanic => negb (ev_RunID e =? "")%string
  | _ => false
  end.

Definition LatestCounted (r : FailureRecord) : option FailureEvent :=
  List.find Counted (reverse (Recent r)).

Definition Latest (r : FailureRecord) : option FailureEvent := last (Recent r).

(** *** Facts about the log *)

Definition bounded (r : FailureRecord) : Prop := (length (Recent r) <= MaxRecentFailures)%nat.

Lemma Append_suffix e r :
  Recent (Append e r) = drop (S (length (Recent r)) - MaxRecentFailures) (Recent r ++ [e]).
Proof.
  unfold Append, set_Recent. cbn [Recent]. rewrite length_app, Nat.add_1_r.
  destruct (Nat.ltb_spec MaxRecentFailures (S (length (Recent r)))); [done|].
  by replace (S (length (Recent r)) - MaxRecentFailures)%nat with O by lia.
Qed.

Lemma Append_bounded e r : bounded (Append e r).
Proof.
  unfold Append, set_Recent, bounded. cbn [Recent].
  destruct (Nat.ltb_spec MaxRecentFailures (length (Recent r ++ [e]))); [rewrite length_drop|]; lia.
Qed.

Lemma stand_scan_Some e l l' : stand_scan e l = Some l' ->
  exists a x b, l = a ++ x :: b /\ l' = a ++ e :: b /\ ev_Kind x = ev_Kind e /\
    forallb Standing (a ++ [x]) = true.
Proof.
  revert l'; induction l as [|x l IH]; intros l' H; cbn [stand_scan] in H; [done|].
  destruct (Standing x) eqn:Hx; [|done]. case_bool_decide as Hk.
  - injection H as <-. exists [], x, l. simpl. by rewrite Hx.
  - destruct (stand_scan e l) as [l1|] eqn:Hl; [|done]. injection H as <-.
    destruct (IH _ eq_refl) as (a & y & b & -> & -> & Hy & Hs).
    exists (x :: a), y, b. simpl. by rewrite Hx.
Qed.

Lemma stand_scan_None e l : stand_scan e l = None ->
  exists a b, l = a ++ b /\ forallb Standing a = true /\
    Forall (fun x => ev_Kind x <> ev_Kind e) a /\
    match b with [] => True | x :: _ => Standing x = false end.
Proof.
  induction l as [|x l IH]; intros H; cbn [stand_scan] in H; [by exists [], []|].
  destruct (Standing x) eqn:Hx; [|by exists [], (x :: l)]. case_bool_decide; [done|].
  destruct (stand_scan e l) eqn:Hl; [done|].
  destruct IH as (a & b & -> & Ha & Hn & Hb); [done|].
  exists (x :: a), b. simpl. rewrite Hx. split_and!; try done. by constructor.
Qed.

(** A log as a run of standing entries, one per kind, after everything older. *)
Definition standing_block (block : list FailureEvent) : Prop :=
  forallb Standing block = true /\ NoDup (map ev_Kind block).
Definition no_standing_last (base : list FailureEvent) : Prop :=
  match last base with Some x => Standing x = false | None => True end.

Lemma standing_block_length block : standing_block block -> (length block <= 2)%nat.
Proof.
  intros [Hs Hn]. rewrite <- (length_map ev_Kind).
  apply (submseteq_length _ [FailureOffline; FailureStalled]), NoDup_submseteq; [done|].
  intros k Hk. apply list_elem_of_In, List.in_map_iff in Hk as (x & <- & Hx).
  apply List.forallb_forall with (x := x) in Hs; [|done].
  unfold Standing in Hs. apply orb_true_iff in Hs as [Hs|Hs]; boolp; rewrite Hs; set_solver.
Qed.

Lemma no_standing_last_drop j base : no_standing_last base -> no_standing_last (drop j base).
Proof.
  unfold no_standing_last. revert base; induction j as [|j IH]; intros [|x base] H; try done.
  cbn [drop]. apply IH. destruct base; [done|]. exact H.
Qed.

Lemma stand_scan_block e base block :
  no_standing_last base -> forallb Standing block = true ->
  stand_scan e (reverse (base ++ block))
  = (fun l => l ++ reverse base) <$> stand_scan e (reverse block).
Proof.
  intros Hb Hs. rewrite reverse_app.
  assert (match reverse base with [] => True | x :: _ => Standing x = false end) as Hr.
  { unfold no_standing_last in Hb. rewrite <- head_reverse in Hb. by destruct (reverse base). }
  assert (forallb Standing (reverse block) = true) as Hs'.
  { rewrite List.forallb_forall in *. intros x Hx. apply Hs.
    apply list_elem_of_In in Hx. rewrite elem_of_reverse in Hx. by apply list_elem_of_In. }
  revert Hs' Hr. generalize (reverse block) as a, (reverse base) as b. clear.
  intros a b Ha Hb. induction a as [|x a IH]; simpl in *.
  - destruct b as [|y b]; [done|]. simpl. by rewrite Hb.
  - boolp. rewrite H. case_bool_decide; [done|]. rewrite IH by done. by destruct (stand_scan e a).
Qed.

Lemma Stand_step e r base block :
  bounded r -> Recent r = base ++ block -> no_standing_last base -> standing_block block ->
  Standing e = true ->
  exists block' j, Recent (Stand e r) = drop j base ++ block' /\ standing_block block' /\
    (length block + j <= length block')%nat.
Proof.
  intros Hr Hrec Hbase [Hs Hn] He. unfold Stand. rewrite Hrec, stand_scan_block by done.
  destruct (stand_scan e (reverse block)) as [l|] eqn:Hscan; cbn [fmap option_fmap option_map].
  - apply stand_scan_Some in Hscan as (a & x & b & Hl & -> & Hk & _).
    apply (f_equal reverse) in Hl. rewrite reverse_involutive, reverse_app, reverse_cons in Hl.
    exists (reverse b ++ e :: reverse a), O. subst block. cbn [set_Recent Recent].
    rewrite !reverse_app, reverse_cons, reverse_involutive, <- !app_assoc in *. split_and!; [done| |].
    + split; rewrite ?forallb_app, ?map_app in *; cbn in *; [|by rewrite <- Hk].
      boolp. rewrite H, He. done.
    + rewrite !length_app. cbn. lia.
  - apply stand_scan_None in Hscan as (a & b & Hl & Ha & Hka & Hb).
    assert (b = []) as ->.
    { destruct b as [|y b]; [done|]. exfalso. rewrite List.forallb_forall in Hs.
      rewrite (Hs y) in Hb; [done|]. apply list_elem_of_In. rewrite <- elem_of_reverse, Hl. set_solver. }
    rewrite app_nil_r in Hl.
    assert (standing_block (block ++ [e])) as Hblock.
    { split; [rewrite forallb_app; cbn; by rewrite Hs, He|].
      rewrite map_app. apply NoDup_app. split_and!; [done| |apply NoDup_singleton].
      intros k Hk ->%list_elem_of_singleton.
      apply list_elem_of_In, List.in_map_iff in Hk as (x & Hx & Hin).
      rewrite Forall_forall in Hka. apply (Hka x); [|done].
      rewrite <- Hl, elem_of_reverse. by apply list_elem_of_In. }
    pose proof (standing_block_length _ Hblock) as H2. rewrite length_app in H2; cbn in H2.
    unfold bounded in Hr. rewrite Hrec, length_app in Hr. unfold MaxRecentFailures in *.
    eexists (block ++ [e]), _. rewrite Append_suffix, Hrec, !length_app.
    rewrite <- app_assoc. cbn [length]. unfold MaxRecentFailures. rewrite drop_app_le by lia.
    split_and!; [done|done|lia].
Qed.

Lemma Stand_bounded e r : bounded r -> bounded (Stand e r).
Proof.
  intros Hr. unfold Stand. destruct (stand_scan e (reverse (Recent r))) as [l|] eqn:H;
    [|apply Append_bounded].
  apply stand_scan_Some in H as (a & x & b & Hl & -> & _).
  apply (f_equal length) in Hl. unfold bounded, set_Recent in *. cbn [Recent].
  rewrite length_reverse in *. rewrite length_app in *. cbn in *. lia.
Qed.

(** However often an offline or stalled condition is recorded, the bounded log loses at most
    its two oldest events to it: each kind stands once, refreshed in place. *)
Theorem Stand_evicts_at_most_two es r base block :
  bounded r -> Recent r = base ++ block -> no_standing_last base -> standing_block block ->
  Forall (fun e => Standing e = true) es ->
  exists block' j, Recent (foldl (fun r e => Stand e r) r es) = drop j base ++ block' /\
    standing_block block' /\ (j <= 2)%nat /\ bounded (foldl (fun r e => Stand e r) r es).
Proof.
  intros Hr Hrec Hb Hk Hes.
  cut (exists block' j, Recent (foldl (fun r e => Stand e r) r es) = drop j base ++ block' /\
    standing_block block' /\ (length block + j <= length block')%nat /\
    bounded (foldl (fun r e => Stand e r) r es)).
  { intros (block' & j & ? & Hk' & ? & ?). pose proof (standing_block_length _ Hk').
    exists block', j. split_and!; [done|done|lia|done]. }
  revert r base block Hr Hrec Hb Hk; induction Hes as [|e es He Hes IH];
    intros r base block Hr Hrec Hb Hk.
  - exists block, O. by rewrite drop_0, Nat.add_0_r.
  - destruct (Stand_step e r base block) as (b1 & j1 & H1 & Hk1 & L1); [done..|].
    destruct (IH (Stand e r) (drop j1 base) b1) as (b2 & j2 & H2 & Hk2 & L2 & B2);
      [by apply Stand_bounded|done|by apply no_standing_last_drop|done|].
    cbn [foldl]. exists b2, (j2 + j1)%nat. rewrite H2, drop_drop, Nat.add_comm.
    split_and!; [done|done|lia|done].
Qed.

Lemma Stand_evicts_at_most_two_witness :
  let tick := mkFailureEvent "t0" FailureTick "r" "m" in
  let off at_ := mkFailureEvent at_ FailureOffline "r" "m" in
  let stall at_ := mkFailureEvent at_ FailureStalled "r" "m" in
  let r := mkFailureRecord None (replicate 20 tick) 20 None in
  let es := [off "t1"; stall "t2"; off "t3"; stall "t4"; off "t5"] in
  exists block' j,
    Recent (foldl (fun r e => Stand e r) r es) = drop j (replicate 20 tick) ++ block' /\
    standing_block block' /\ (j <= 2)%nat /\ bounded (foldl (fun r e => Stand e r) r es).
Proof.
  intros tick off stall r es.
  apply (Stand_evicts_at_most_two es r (replicate 20 tick) []).
  - unfold bounded. vm_compute. lia.
  - reflexivity.
  - vm_compute. reflexivity.
  - split; [reflexivity|constructor].
  - repeat constructor.
Defined.
