(* ===== verification/Store.v ===== *)
(** The open, locked fingerprint store ([src/internal/engine/state.go]) and the buffer that batches
    its commits ([src/internal/engine/commitbuffer.go]). The state directory is a [world]: the
    document on disk, the flock, and what each flush told [onFlush]. What the environment decides,
    the clock and the outcome of each system call, is an argument. *)

From S2P Require Import Prelude GoLib Crypto GoTime GoJson StateDoc.

(** ** The store *)

Record Store := mkStore {
  installID : string;
  lock : bool;
  specs : gmap string string;
  entries : gmap Key Fingerprint;
  corrupt : bool;
  onFlush : bool
}.

Definition set_entries (m : gmap Key Fingerprint) (s : Store) : Store :=
  mkStore (installID s) (lock s) (specs s) m (corrupt s) (onFlush s).
Definition set_specs (m : gmap string string) (s : Store) : Store :=
  mkStore (installID s) (lock s) m (entries s) (corrupt s) (onFlush s).
Definition set_lock (b : bool) (s : Store) : Store :=
  mkStore (installID s) b (specs s) (entries s) (corrupt s) (onFlush s).

(** The state directory. [flushing] is what [onFlush] was called with, oldest first. *)
Record world := mkWorld {
  disk : file;
  flocked : bool;
  flushing : list bool
}.

Definition set_disk (f : file) (w : world) : world := mkWorld f (flocked w) (flushing w).
Definition set_flocked (b : bool) (w : world) : world := mkWorld (disk w) b (flushing w).

(** The clock when a flush encodes, and the error of [platform.WriteAtomic], which replaces the
    document or leaves it alone. *)
Record io := mkIO { io_now : Z; io_write : option string }.

(** Errors of [open] before the lock is held: [platform.EnsureDir] and [os.OpenFile]. *)
Record open_io := mkOpenIO { ensure_dir : option string; open_lock : option string }.

Definition Corrupt (s : Store) : bool := corrupt s.
Definition Len (s : Store) : Z := Z.of_nat (size (entries s)).

Definition store_get (s : Store) (k : Key) : option Fingerprint := entries s !! k.

Definition open (o : open_io) (install : string) (maxBytes : Z) (w : world)
    : result state_error Store * world :=
  match ensure_dir o, open_lock o with
  | Some msg, _ => (Err (DirFailed msg), w)
  | None, Some msg => (Err (DirFailed msg), w)
  | None, None =>
      if flocked w then (Err LockBusy, w)
      else
        let doc :=
          let! d := load (disk w) maxBytes in
          if ForeignTo d install then Err (Foreign (doc_InstallID d)) else Ok d in
        let s :=
          match doc with
          | Ok d => mkStore install true (doc_SourceSpecs d) (doc_Entries d) false false
          | Err _ => mkStore install true ∅ ∅ true false
          end in
        (Ok s, set_flocked true w)
  end.

Definition Open (o : open_io) (install : string) (w : world) := open o install maxDocumentBytes w.

Definition Close (s : Store) (w : world) : Store * world :=
  if lock s then (set_lock false s, set_flocked false w) else (s, w).

Definition truncate_second (t : Z) : Z := t - t mod second.

Definition flush (e : io) (s : Store) (w : world) : option state_error * world :=
  let w := mkWorld (disk w) (flocked w) (flushing w ++ (if onFlush s then [true; false] else [])) in
  match encode (installID s) (truncate_second (io_now e)) (specs s) (entries s) with
  | Err err => (Some err, w)
  | Ok body =>
      match io_write e with
      | Some msg => (Some (WriteFailed msg), w)
      | None => (None, set_disk (file_of body) w)
      end
  end.

(** [CommitAll]: the updates go into the entries in memory, then one document replacement. *)
Definition CommitAll (e : io) (updates : gmap Key Fingerprint) (s : Store) (w : world)
    : option state_error * Store * world :=
  let s := set_entries (updates ∪ entries s) s in
  let '(err, w) := flush e s w in (err, s, w).

Definition SpecFor (s : Store) (sourceID : string) : option string := specs s !! sourceID.

Definition of_source (sourceID : string) (kfp : Key * Fingerprint) : Prop := SourceID kfp.1 = sourceID.

(** [EnsureSpec]: the count of dropped entries, and the error. *)
Definition EnsureSpec (e : io) (sourceID specFP : string) (s : Store) (w : world)
    : Z * option state_error * Store * world :=
  let stored := specs s !! sourceID in
  if bool_decide (stored = Some specFP) then (0, None, s, w)
  else
    let kept := match stored with
      | Some _ => filter (fun kfp => SourceID kfp.1 <> sourceID) (entries s)
      | None => entries s
      end in
    let dropped := Z.of_nat (size (entries s)) - Z.of_nat (size kept) in
    let s := set_specs (<[sourceID := specFP]> (specs s)) (set_entries kept s) in
    let '(err, w) := flush e s w in (dropped, err, s, w).

Definition DropVanished (e : io) (sourceID : string) (live : gset string) (s : Store) (w : world)
    : Z * option state_error * Store * world :=
  let kept := filter (fun kfp => SourceID kfp.1 <> sourceID \/ ID kfp.1 ∈ live) (entries s) in
  let dropped := Z.of_nat (size (entries s)) - Z.of_nat (size kept) in
  let s := set_entries kept s in
  if dropped =? 0 then (0, None, s, w)
  else let '(err, w) := flush e s w in (dropped, err, s, w).

(** [editStore]: the deferred [Close] runs on every exit. *)
Definition editStore (o : open_io) (e : io) (install : string) (dryRun : bool)
    (edit : Store -> Z * Store) (w : world) : Z * option state_error * world :=
  match open o install pruneMaxDocumentBytes w with
  | (Err err, w) => (0, Some err, w)
  | (Ok s, w) =>
      let '(changed, s) := edit s in
      if dryRun || ((changed =? 0) && negb (corrupt s)) then (changed, None, (Close s w).2)
      else let '(err, w) := flush e s w in (changed, err, (Close s w).2)
  end.

(** [Prune]; [lstat] says whether a path still exists. The counts are removed and kept. *)
Definition prune_edit (lstat : string -> bool) (s : Store) : Z * Store :=
  let m := filter (fun kfp => Is_true (lstat (observedPath kfp.1 kfp.2))) (entries s) in
  (Z.of_nat (size (entries s)) - Z.of_nat (size m), set_entries m s).

Definition Prune (o : open_io) (e : io) (lstat : string -> bool) (install : string) (dryRun : bool)
    (w : world) : Z * Z * option state_error * world :=
  let kept :=
    match open o install pruneMaxDocumentBytes w with
    | (Ok s, _) => Z.of_nat (size (entries (prune_edit lstat s).2))
    | (Err _, _) => 0
    end in
  let '(removed, err, w) := editStore o e install dryRun (prune_edit lstat) w in
  (removed, kept, err, w).

Definition Reset (o : open_io) (e : io) (install : string) (dryRun : bool) (w : world)
    : Z * option state_error * world :=
  editStore o e install dryRun (fun s => (Z.of_nat (size (entries s)), set_entries ∅ s)) w.

Definition Peek (w : world) : result state_error Document := load (disk w) maxDocumentBytes.

(** ** The commit buffer *)

Record commitBuffer := mkBuffer {
  store : Store;
  pending : gmap Key Fingerprint;
  staleSpecs : gset string;
  limit : Z
}.

Definition defaultCommitBatch : Z := 200.

Definition newCommitBuffer (s : Store) (lim : Z) : commitBuffer :=
  mkBuffer s ∅ ∅ (if lim <=? 0 then defaultCommitBatch else lim).

Definition Get (b : commitBuffer) (k : Key) : option Fingerprint :=
  if bool_decide (SourceID k ∈ staleSpecs b) then None
  else match pending b !! k with
       | Some fp => Some fp
       | None => store_get (store b) k
       end.

Definition Flush (e : io) (b : commitBuffer) (w : world)
    : option state_error * commitBuffer * world :=
  if bool_decide (pending b = ∅) then (None, b, w)
  else
    let '(err, s, w) := CommitAll e (pending b) (store b) w in
    match err with
    | Some _ => (err, mkBuffer s (pending b) (staleSpecs b) (limit b), w)
    | None => (None, mkBuffer s ∅ (staleSpecs b) (limit b), w)
    end.

Definition Commit (e : io) (k : Key) (fp : Fingerprint) (b : commitBuffer) (w : world)
    : option state_error * commitBuffer * world :=
  let b := mkBuffer (store b) (<[k := fp]> (pending b)) (staleSpecs b) (limit b) in
  if limit b <=? Z.of_nat (size (pending b)) then Flush e b w else (None, b, w).

Definition set_store (s : Store) (b : commitBuffer) : commitBuffer :=
  mkBuffer s (pending b) (staleSpecs b) (limit b).

Definition buffer_EnsureSpec (e1 e2 : io) (sourceID specFP : string) (b : commitBuffer) (w : world)
    : Z * option state_error * commitBuffer * world :=
  let '(err, b, w) := Flush e1 b w in
  match err with
  | Some _ => (0, err, b, w)
  | None =>
      let '(n, err, s, w) := EnsureSpec e2 sourceID specFP (store b) w in
      (n, err, set_store s b, w)
  end.

Definition PreviewSpec (sourceID specFP : string) (b : commitBuffer) : commitBuffer :=
  match SpecFor (store b) sourceID with
  | Some stored =>
      if (stored =? specFP)%string then b
      else mkBuffer (store b) (pending b) ({[ sourceID ]} ∪ staleSpecs b) (limit b)
  | None => b
  end.

Definition buffer_DropVanished (e1 e2 : io) (sourceID : string) (live : gset string)
    (b : commitBuffer) (w : world) : Z * option state_error * commitBuffer * world :=
  let '(err, b, w) := Flush e1 b w in
  match err with
  | Some _ => (0, err, b, w)
  | None =>
      let '(n, err, s, w) := DropVanished e2 sourceID live (store b) w in
      (n, err, set_store s b, w)
  end.

(** ** A flush replaces the document or leaves it alone *)

Definition holds (s : Store) (f : file) : Prop :=
  exists t body, encode (installID s) t (specs s) (entries s) = Ok body /\ f = file_of body.

Lemma flush_cases e s w :
  exists err d, flush e s w = (err, mkWorld d (flocked w)
      (flushing w ++ (if onFlush s then [true; false] else []))) /\
    match err with
    | Some _ => d = disk w
    | None => holds s d
    end.
Proof.
  unfold flush, holds. destruct (encode _ _ _ _) as [body|err] eqn:He; [|by eexists (Some err), _].
  destruct (io_write e) as [msg|]; [by eexists (Some (WriteFailed msg)), _|].
  eexists None, _. split; [reflexivity|]. eauto.
Qed.

(** Take a flush apart by what it did. *)
Ltac flush_case e s w :=
  let err := fresh "err" in let d := fresh "d" in
  let Hf := fresh "Hflush" in let Hd := fresh "Hdisk" in
  destruct (flush_cases e s w) as (err & d & Hf & Hd); rewrite Hf in *;
  destruct err as [err|].

(** The store is durable all or nothing: a failed commit leaves the document byte for byte as it
    was, and after a successful one the next load gives back the install id, the generations and
    every fingerprint, the new ones over the old. *)
Theorem CommitAll_durable e updates s w err s' w' maxBytes :
  CommitAll e updates s w = (err, s', w') ->
  storable_state (installID s) (truncate_second (io_now e)) (specs s) (updates ∪ entries s) ->
  (forall body, encode (installID s) (truncate_second (io_now e)) (specs s) (updates ∪ entries s)
     = Ok body -> body_size body <= maxBytes) ->
  entries s' = updates ∪ entries s /\
  match err with
  | Some _ => disk w' = disk w
  | None => exists doc, load (disk w') maxBytes = Ok doc /\
      doc_InstallID doc = installID s /\ doc_SourceSpecs doc = specs s /\
      doc_Entries doc = map_imap (fun k fp => Some (normal_fp k fp)) (updates ∪ entries s)
  end.
Proof.
  unfold CommitAll, flush. cbn [installID specs entries set_entries].
  intros H Hst Hsize. destruct (encode _ _ _ _) as [body|] eqn:He; [|by injection H as <- <- <-].
  destruct (io_write e); injection H as <- <- <-; [done|]. split; [done|].
  eexists. split; [apply (encode_load_rt _ _ _ _ _ _ Hst He (Hsize _ eq_refl))|]. done.
Qed.

Lemma CommitAll_durable_witness :
  let s := mkStore Sample.install true Sample.specs ∅ false false in
  let updates := Sample.entries in
  let w := mkWorld FileAbsent true [] in
  let e := mkIO Sample.now None in
  exists body, encode Sample.install (truncate_second Sample.now) Sample.specs (updates ∪ ∅) = Ok body /\
  entries (CommitAll e updates s w).1.2 = updates ∪ ∅ /\
  match (CommitAll e updates s w).1.1 with
  | Some _ => disk (CommitAll e updates s w).2 = FileAbsent
  | None => exists doc, load (disk (CommitAll e updates s w).2) (body_size body) = Ok doc /\
      doc_InstallID doc = Sample.install /\ doc_SourceSpecs doc = Sample.specs /\
      doc_Entries doc = map_imap (fun k fp => Some (normal_fp k fp)) (updates ∪ ∅)
  end.
Proof.
  intros s updates w e.
  assert (storable_state Sample.install (truncate_second Sample.now) Sample.specs (updates ∪ ∅)) as Hst
    by (rewrite map_union_empty; exact Sample.storable).
  assert (encode Sample.install (truncate_second Sample.now) Sample.specs (updates ∪ ∅)
          = Ok (set_checksum (body_of Sample.install Sample.now Sample.specs Sample.entries)
                 (checksumOf (body_of Sample.install Sample.now Sample.specs Sample.entries)))) as He
    by (rewrite map_union_empty; exact (encode_accepts _ _ _ _ Sample.storable Sample.schema)).
  eexists. split; [exact He|].
  destruct (CommitAll e updates s w) as [[err s'] w'] eqn:Hc.
  apply (CommitAll_durable e updates s w err s' w' _ Hc Hst).
  intros body Hb. cbn [installID specs entries io_now s e] in Hb. rewrite He in Hb.
  injection Hb as <-. apply Z.le_refl.
Defined.

(** ** The buffer against the map it stands for *)

(** What the buffer and its store hold together, whatever is masked. *)
Definition buffered (b : commitBuffer) : gmap Key Fingerprint := pending b ∪ entries (store b).

Lemma Get_buffered b k :
  Get b k = if bool_decide (SourceID k ∈ staleSpecs b) then None else buffered b !! k.
Proof.
  unfold Get, buffered, store_get. case_bool_decide; [done|].
  destruct (pending b !! k) eqn:E; [by rewrite (lookup_union_Some_l _ _ _ _ E)|].
  by rewrite lookup_union_r.
Qed.

(** [Flush] never changes what is buffered; once it succeeds nothing is pending. *)
Lemma Flush_spec e b w err b' w' :
  Flush e b w = (err, b', w') ->
  buffered b' = buffered b /\ staleSpecs b' = staleSpecs b /\ limit b' = limit b /\
  installID (store b') = installID (store b) /\ specs (store b') = specs (store b) /\
  match err with
  | Some _ => pending b' = pending b /\ disk w' = disk w
  | None => pending b' = ∅ /\
      ((pending b = ∅ /\ b' = b /\ w' = w) \/ (pending b <> ∅ /\ holds (store b') (disk w')))
  end.
Proof.
  unfold Flush, CommitAll. case_bool_decide as Hp.
  - intros [= <- <- <-]. split_and!; try done. by left.
  - flush_case e (set_entries (pending b ∪ entries (store b)) (store b)) w;
      intros [= <- <- <-]; unfold buffered; cbn in *; rewrite ?map_empty_union.
    + split_and!; try done. by rewrite map_union_assoc, map_union_idemp.
    + split_and!; try done. by right.
Qed.

Lemma Commit_spec e k fp b w err b' w' :
  Commit e k fp b w = (err, b', w') ->
  buffered b' = <[k := fp]> (buffered b) /\ staleSpecs b' = staleSpecs b /\ limit b' = limit b /\
  installID (store b') = installID (store b) /\ specs (store b') = specs (store b) /\
  match err with
  | Some _ => pending b' = <[k := fp]> (pending b) /\ disk w' = disk w
  | None => (pending b' = ∅ /\ holds (store b') (disk w')) \/
      (pending b' = <[k := fp]> (pending b) /\ disk w' = disk w /\
       Z.of_nat (size (pending b')) < limit b')
  end.
Proof.
  unfold Commit. set (b0 := mkBuffer _ _ _ _).
  assert (buffered b0 = <[k := fp]> (buffered b)) as Hb
    by (unfold buffered, b0; cbn; by rewrite insert_union_l).
  destruct (Z.leb_spec (limit b0) (Z.of_nat (size (pending b0)))).
  - intros Hf. apply Flush_spec in Hf as (-> & -> & -> & -> & -> & He).
    split_and!; try done. destruct err; [done|]. destruct He as [He [(Hz & _)|[_ Hd]]]; [|by left].
    exfalso. by apply (insert_non_empty (pending b) k fp).
  - intros [= <- <- <-]. split_and!; try done. right. cbn. split_and!; [done|done|cbn in *; lia].
Qed.

(** A run of commits, each with its own environment; a failed one does not stop the rest. *)
Fixpoint run_commits (cs : list (io * Key * Fingerprint)) (b : commitBuffer) (w : world)
    : list (option state_error) * commitBuffer * world :=
  match cs with
  | [] => ([], b, w)
  | (e, k, fp) :: cs =>
      let '(err, b, w) := Commit e k fp b w in
      let '(errs, b, w) := run_commits cs b w in
      (err :: errs, b, w)
  end.

Lemma run_commits_spec cs b w errs b' w' :
  run_commits cs b w = (errs, b', w') ->
  buffered b' = foldl (fun m c => <[c.1.2 := c.2]> m) (buffered b) cs /\
  staleSpecs b' = staleSpecs b /\ limit b' = limit b /\
  (cs <> [] -> pending b' = ∅ -> holds (store b') (disk w')).
Proof.
  revert b w errs; induction cs as [|[[e k] fp] cs IH]; intros b w errs H; cbn [run_commits] in H.
  - injection H as <- <- <-. done.
  - destruct (Commit e k fp b w) as [[err b1] w1] eqn:Hc.
    destruct (run_commits cs b1 w1) as [[errs2 b2] w2] eqn:Hr. injection H as <- <- <-.
    destruct (IH _ _ _ Hr) as (Hb & Hs & Hl & Hd).
    apply Commit_spec in Hc as (Hb1 & Hs1 & Hl1 & _ & _ & He).
    cbn [foldl fst snd]. rewrite Hb, Hb1, Hs, Hs1, Hl, Hl1. split_and!; try done.
    intros _ Hp. destruct cs as [|c cs]; [|by apply Hd].
    injection Hr as <- <- <-.
    assert (<[k := fp]> (pending b) <> ∅) by apply insert_non_empty.
    destruct err; [naive_solver congruence|]. destruct He as [[_ He]|(He & _)]; [done|congruence].
Qed.

(** C39: batching is invisible: after any commits, whichever of their flushes failed, a read finds
    the last fingerprint committed for its key and else what was there before; and once a flush
    succeeds, nothing is pending and the document on disk is the encoding of exactly that map. *)
Theorem commit_buffer_refines cs b w errs b1 w1 e err b2 w2 :
  run_commits cs b w = (errs, b1, w1) -> cs <> [] ->
  Flush e b1 w1 = (err, b2, w2) ->
  let m := foldl (fun m c => <[c.1.2 := c.2]> m) (pending b ∪ entries (store b)) cs in
  (forall k, Get b2 k = if bool_decide (SourceID k ∈ staleSpecs b) then None else m !! k) /\
  (err = None -> pending b2 = ∅ /\ exists t body,
     encode (installID (store b2)) t (specs (store b2)) m = Ok body /\ disk w2 = file_of body).
Proof.
  intros Hr Hne Hf m.
  apply run_commits_spec in Hr as (Hb & Hs & Hl & Hd). specialize (Hd Hne).
  apply Flush_spec in Hf as (Hb2 & Hs2 & Hl2 & _ & _ & He). split.
  - intros k. rewrite Get_buffered, Hb2, Hs2, Hb, Hs. done.
  - intros ->. destruct He as [Hp He]. split; [done|].
    assert (entries (store b2) = m) as Hm.
    { change m with (foldl (fun m c => <[c.1.2 := c.2]> m) (buffered b) cs).
      rewrite <- Hb, <- Hb2. unfold buffered. by rewrite Hp, map_empty_union. }
    rewrite <- Hm. destruct He as [(Hp1 & -> & ->)|[_ He]]; [by apply Hd|exact He].
Qed.

Lemma commit_buffer_refines_witness :
  let s := mkStore "" true ∅ ∅ false false in
  let b := newCommitBuffer s 2 in
  let w := mkWorld FileAbsent true [] in
  let bad := mkIO 0 (Some "disk full") in
  let ok := mkIO 0 None in
  let cs := [(bad, mkKey "a" "/x", zero_fp); (bad, mkKey "a" "/y", Sample.fp)] in
  let r := run_commits cs b w in
  let f := Flush ok r.1.2 r.2 in
  let m := foldl (fun m c => <[c.1.2 := c.2]> m) (pending b ∪ entries (store b)) cs in
  (forall k, Get f.1.2 k = if bool_decide (SourceID k ∈ staleSpecs b) then None else m !! k) /\
  (f.1.1 = None -> pending f.1.2 = ∅ /\ exists t body,
     encode (installID (store f.1.2)) t (specs (store f.1.2)) m = Ok body /\ disk f.2 = file_of body).
Proof.
  intros s b w bad ok cs r f.
  apply (commit_buffer_refines cs b w r.1.1 r.1.2 r.2 ok f.1.1 f.1.2 f.2).
  - unfold r. by destruct (run_commits cs b w) as [[? ?] ?].
  - discriminate.
  - unfold f. by destruct (Flush ok r.1.2 r.2) as [[? ?] ?].
Defined.

(** The crash window: between flushes fewer fingerprints are pending than the limit. *)
Lemma Commit_window e k fp b w b' w' :
  0 < limit b -> Commit e k fp b w = (None, b', w') -> Z.of_nat (size (pending b')) < limit b'.
Proof.
  intros Hl Hc. apply Commit_spec in Hc as (_ & _ & Hlim & _ & _ & [[-> _]|(_ & _ & H)]); [|done].
  rewrite map_size_empty. lia.
Qed.

(** ** Spec generations and vanished files *)

(** What [map_lookup_filter] leaves, against the boolean the code tests. *)
Lemma filtered_lookup {A} (P : A -> Prop) `{forall x, Decision (P x)} (b : bool) (o : option A) :
  (b = true -> forall x, ~ P x) -> (b = false -> forall x, P x) ->
  (o ≫= fun x => guard (P x) ;; Some x) = if b then None else o.
Proof.
  intros Ht Hf. destruct o as [x|]; [|by destruct b]. cbn [mbind option_bind].
  case_guard; destruct b; naive_solver.
Qed.

Lemma EnsureSpec_spec e src fp s w n err s' w' :
  EnsureSpec e src fp s w = (n, err, s', w') ->
  installID s' = installID s /\
  SpecFor s' src = Some fp /\ (forall o, o <> src -> SpecFor s' o = SpecFor s o) /\
  (forall k, entries s' !! k =
     if bool_decide (SourceID k = src) &&
        match SpecFor s src with Some old => negb (old =? fp)%string | None => false end
     then None else entries s !! k) /\
  n = Z.of_nat (size (entries s)) - Z.of_nat (size (entries s')) /\
  (err = None -> (n = 0 /\ s' = s /\ w' = w) \/ holds s' (disk w')) /\
  (err <> None -> disk w' = disk w).
Proof.
  unfold EnsureSpec, SpecFor. case_bool_decide as Hs.
  - intros [= <- <- <- <-]. rewrite Hs, String.eqb_refl. cbn [negb]. split_and!; try done.
    + intros k. by rewrite andb_false_r.
    + lia.
    + auto.
  - set (kept := match specs s !! src with Some _ => _ | None => _ end).
    assert (forall k, kept !! k = if bool_decide (SourceID k = src) &&
        match specs s !! src with Some old => negb (old =? fp)%string | None => false end
        then None else entries s !! k) as Hk.
    { intros k. unfold kept. destruct (specs s !! src) as [old|]; [|by rewrite andb_false_r].
      assert ((old =? fp)%string = false) as -> by (apply String.eqb_neq; congruence).
      cbn [negb]. rewrite andb_true_r, map_lookup_filter.
      apply filtered_lookup; case_bool_decide; naive_solver. }
    set (s1 := set_specs _ _).
    flush_case e s1 w; intros [= <- <- <- <-]; cbn; split_and!; try done; auto.
    1,3: apply lookup_insert_eq. all: intros; by apply lookup_insert_ne.
Qed.

(** Changing how a source is read forgets exactly that source: its old fingerprints go, its
    new generation is recorded, every other source keeps its own, and a source seen for the first
    time adopts its entries. *)
Theorem EnsureSpec_forgets_only_stale e src fp s w n err s' w' :
  EnsureSpec e src fp s w = (n, err, s', w') ->
  SpecFor s' src = Some fp /\ (forall o, o <> src -> SpecFor s' o = SpecFor s o) /\
  (forall k, entries s' !! k =
     if bool_decide (SourceID k = src) &&
        match SpecFor s src with Some old => negb (old =? fp)%string | None => false end
     then None else entries s !! k) /\
  n = Z.of_nat (size (entries s)) - Z.of_nat (size (entries s')) /\
  (err <> None -> disk w' = disk w).
Proof. intros H. by apply EnsureSpec_spec in H as (_ & ? & ? & ? & ? & _ & ?). Qed.

Lemma EnsureSpec_forgets_only_stale_witness :
  let s := mkStore "" true {[ "a" := "old" ]} {[ mkKey "a" "/x" := zero_fp; mkKey "b" "/y" := zero_fp ]} false false in
  let w := mkWorld FileAbsent true [] in
  let r := EnsureSpec (mkIO 0 None) "a" "new" s w in
  SpecFor r.1.2 "a" = Some "new" /\ (forall o, o <> "a" -> SpecFor r.1.2 o = SpecFor s o) /\
  (forall k, entries r.1.2 !! k =
     if bool_decide (SourceID k = "a") &&
        match SpecFor s "a" with Some old => negb (old =? "new")%string | None => false end
     then None else entries s !! k) /\
  r.1.1.1 = Z.of_nat (size (entries s)) - Z.of_nat (size (entries r.1.2)) /\
  (r.1.1.2 <> None -> disk r.2 = disk w).
Proof.
  intros s w r.
  apply (EnsureSpec_forgets_only_stale (mkIO 0 None) "a" "new" s w r.1.1.1 r.1.1.2 r.1.2 r.2).
  unfold r. by destruct (EnsureSpec _ _ _ s w) as [[[? ?] ?] ?].
Defined.

(** A preview sees what a sync would: masking the sources whose generation changed reads, for
    every key, exactly as dropping their entries does. *)
Theorem PreviewSpec_reads_as_sync e1 e2 src fp b w n b' w' :
  buffer_EnsureSpec e1 e2 src fp b w = (n, None, b', w') ->
  forall k, Get (PreviewSpec src fp b) k = Get b' k.
Proof.
  unfold buffer_EnsureSpec. destruct (Flush e1 b w) as [[err b1] w1] eqn:Hf.
  apply Flush_spec in Hf as (Hb & Hst & _ & _ & Hsp & Hd).
  destruct err; [discriminate|]. destruct Hd as [Hp _].
  destruct (EnsureSpec e2 src fp (store b1) w1) as [[[m err] s2] w2] eqn:He.
  intros [= -> -> <- <-] k.
  apply EnsureSpec_spec in He as (_ & _ & _ & Hent & _).
  assert (buffered (set_store s2 b1) !! k = entries s2 !! k) as H2
    by (unfold buffered, set_store; cbn; by rewrite Hp, map_empty_union).
  assert (entries (store b1) = buffered b) as H1
    by (rewrite <- Hb; unfold buffered; by rewrite Hp, map_empty_union).
  rewrite (Get_buffered (set_store _ _)), H2, Hent, H1.
  change (staleSpecs (set_store s2 b1)) with (staleSpecs b1). rewrite Hst.
  unfold PreviewSpec, SpecFor. rewrite Hsp.
  destruct (specs (store b) !! src) as [old|]; [|rewrite andb_false_r; apply Get_buffered].
  destruct (old =? fp)%string; cbn [negb]; [rewrite andb_false_r; apply Get_buffered|].
  rewrite Get_buffered, andb_true_r. cbn [staleSpecs].
  repeat case_bool_decide; set_solver.
Qed.

Lemma PreviewSpec_reads_as_sync_witness :
  let s := mkStore "" true {[ "a" := Sample.install ]} {[ mkKey "a" "/x" := zero_fp ]} false false in
  let fp := "ba7816bf8f01cfea414140de5dae2223b00361a396177a9cb410ff61f20015ad" in
  let b := newCommitBuffer s 0 in
  let w := mkWorld FileAbsent true [] in
  let r := buffer_EnsureSpec (mkIO 0 None) (mkIO 0 None) "a" fp b w in
  r.1.1.2 = None /\ forall k, Get (PreviewSpec "a" fp b) k = Get r.1.2 k.
Proof.
  intros s fp b w r. split; [vm_compute; reflexivity|].
  apply (PreviewSpec_reads_as_sync (mkIO 0 None) (mkIO 0 None) "a" fp b w r.1.1.1 r.1.2 r.2).
  vm_compute. reflexivity.
Defined.

Lemma DropVanished_spec e src live s w n err s' w' :
  DropVanished e src live s w = (n, err, s', w') ->
  (forall k, entries s' !! k =
     if bool_decide (SourceID k = src) && negb (bool_decide (ID k ∈ live))
     then None else entries s !! k) /\
  specs s' = specs s /\
  n = Z.of_nat (size (entries s)) - Z.of_nat (size (entries s')) /\ 0 <= n /\
  (n = 0 -> w' = w /\ err = None) /\ (err <> None -> disk w' = disk w) /\
  (err = None -> n = 0 \/ holds s' (disk w')).
Proof.
  unfold DropVanished. set (kept := filter _ _).
  assert (forall k, kept !! k = if bool_decide (SourceID k = src) && negb (bool_decide (ID k ∈ live))
     then None else entries s !! k) as Hk.
  { intros k. unfold kept. rewrite map_lookup_filter.
    apply filtered_lookup; repeat case_bool_decide; naive_solver. }
  assert (0 <= Z.of_nat (size (entries s)) - Z.of_nat (size kept)).
  { assert (size kept <= size (entries s))%nat; [|lia].
    apply map_subseteq_size, map_filter_subseteq. }
  destruct (Z.eqb_spec (Z.of_nat (size (entries s)) - Z.of_nat (size kept)) 0) as [Hz|Hz].
  - intros [= <- <- <- <-]. cbn. split_and!; auto; lia.
  - flush_case e (set_entries kept s) w; intros [= <- <- <- <-]; cbn; split_and!; auto; done.
Qed.

(** Garbage collection forgets exactly the entries of the source whose file discovery no
    longer saw; a run with nothing to forget writes nothing. *)
Theorem DropVanished_exact e src live s w n err s' w' :
  DropVanished e src live s w = (n, err, s', w') ->
  (forall k, entries s' !! k =
     if bool_decide (SourceID k = src) && negb (bool_decide (ID k ∈ live))
     then None else entries s !! k) /\
  specs s' = specs s /\
  n = Z.of_nat (size (entries s)) - Z.of_nat (size (entries s')) /\ 0 <= n /\
  (n = 0 -> w' = w /\ err = None) /\ (err <> None -> disk w' = disk w) /\
  (err = None -> n = 0 \/ holds s' (disk w')).
Proof. apply DropVanished_spec. Qed.

Lemma DropVanished_exact_witness :
  let s := mkStore "" true ∅ {[ mkKey "a" "/x" := zero_fp; mkKey "a" "/y" := zero_fp ]} false false in
  let w := mkWorld FileAbsent true [] in
  let r := DropVanished (mkIO 0 None) "a" {[ "/y" ]} s w in
  (forall k, entries r.1.2 !! k =
     if bool_decide (SourceID k = "a") && negb (bool_decide (ID k ∈ ({[ "/y" ]} : gset string)))
     then None else entries s !! k) /\
  specs r.1.2 = specs s /\
  r.1.1.1 = Z.of_nat (size (entries s)) - Z.of_nat (size (entries r.1.2)) /\ 0 <= r.1.1.1 /\
  (r.1.1.1 = 0 -> r.2 = w /\ r.1.1.2 = None) /\ (r.1.1.2 <> None -> disk r.2 = disk w) /\
  (r.1.1.2 = None -> r.1.1.1 = 0 \/ holds r.1.2 (disk r.2)).
Proof.
  intros s w r.
  apply (DropVanished_exact (mkIO 0 None) "a" {[ "/y" ]} s w r.1.1.1 r.1.1.2 r.1.2 r.2).
  unfold r. by destruct (DropVanished _ _ _ s w) as [[[? ?] ?] ?].
Defined.

(** ** The operator's overrides and the lock *)

(** The operator's overrides respect the lock and give it back: while another process holds
    the store they are refused and change nothing; otherwise they return with the lock free again,
    and a dry run or a failed write leaves the document as it was. *)
Theorem editStore_releases o e install dryRun edit w n err w' :
  (forall s, lock (edit s).2 = lock s) ->
  editStore o e install dryRun edit w = (n, err, w') ->
  flocked w' = flocked w /\
  (flocked w = true -> err <> None /\ w' = w) /\
  (dryRun = true \/ err <> None -> disk w' = disk w).
Proof.
  intros Hedit. unfold editStore, open.
  destruct (ensure_dir o); [by intros [= <- <- <-]|].
  destruct (open_lock o); [by intros [= <- <- <-]|].
  destruct (flocked w) eqn:Hl; [by intros [= <- <- <-]|].
  set (s := match _ with Ok _ => _ | Err _ => _ end).
  assert (lock s = true) as Hs by (unfold s; by destruct (rbind _ _)).
  destruct (edit s) as [changed s1] eqn:He. intros H.
  assert (lock s1 = true) as Hs1 by (rewrite <- Hs, <- (Hedit s), He; done).
  destruct (dryRun || _) eqn:Hdry.
  - injection H as <- <- <-. unfold Close. rewrite Hs1. cbn. split_and!; try done; auto.
  - destruct dryRun; [done|].
    flush_case e s1 (set_flocked true w); injection H as <- <- <-; unfold Close; rewrite Hs1; cbn;
      split_and!; try done. by intros [?|?].
Qed.

Lemma prune_keeps_lock lstat s : lock (prune_edit lstat s).2 = lock s.
Proof. done. Qed.

Lemma editStore_releases_witness :
  let w := mkWorld (FileBytes 3 None) false [] in
  let r := editStore (mkOpenIO None None) (mkIO 0 (Some "disk full")) "" false
             (prune_edit (fun _ => false)) w in
  flocked r.2 = flocked w /\
  (flocked w = true -> r.1.2 <> None /\ r.2 = w) /\
  (false = true \/ r.1.2 <> None -> disk r.2 = disk w).
Proof.
  intros w r.
  apply (editStore_releases (mkOpenIO None None) (mkIO 0 (Some "disk full")) "" false
           (prune_edit (fun _ => false)) w r.1.1 r.1.2 r.2).
  - intros s. apply prune_keeps_lock.
  - vm_compute. reflexivity.
Defined.

(** An opened store is either what the document holds, for this install, or empty and said so. *)
Lemma open_outcome o install maxBytes w s w' :
  open o install maxBytes w = (Ok s, w') ->
  flocked w = false /\ flocked w' = true /\ disk w' = disk w /\ installID s = install /\
  lock s = true /\
  ((corrupt s = false /\ exists d, load (disk w) maxBytes = Ok d /\ ForeignTo d install = false /\
      specs s = doc_SourceSpecs d /\ entries s = doc_Entries d) \/
   (corrupt s = true /\ specs s = ∅ /\ entries s = ∅)).
Proof.
  unfold open. destruct (ensure_dir o), (open_lock o); try discriminate.
  destruct (flocked w) eqn:Hl; [discriminate|]. intros [= <- <-].
  destruct (load (disk w) maxBytes) as [d|err] eqn:Hd; cbn [rbind].
  - destruct (ForeignTo d install) eqn:Hfor; cbn; split_and!; auto. left. eauto 6.
  - cbn. split_and!; auto.
Qed.

(** Only one process has the store: an open store keeps every other out until it is closed. *)
Lemma open_excludes o o' install install' m m' w s w' :
  open o install m w = (Ok s, w') -> ensure_dir o' = None -> open_lock o' = None ->
  open o' install' m' w' = (Err LockBusy, w') /\
  forall s2 w2, Close s w' = (s2, w2) -> flocked w2 = false /\ disk w2 = disk w.
Proof.
  intros H Hd Ho. apply open_outcome in H as (_ & Hl & Hdisk & _ & Hs & _).
  unfold open. rewrite Hd, Ho, Hl. split; [done|].
  unfold Close. rewrite Hs. intros s2 w2 [= <- <-]. done.
Qed.
