(* ===== verification/Ticket.v ===== *)
(** The upload boundary: [src/internal/upload/target.go] (the machine owner's origins) and
    [ticket.go] (the local validation of one presigned PUT ticket). Go visits a map in no fixed
    order, so the two loops of [validateHeaders] take the order as an argument. *)

From S2P Require Import Prelude GoLib GoUrl GoText.

Inductive ticket_error :=
  | OriginDoesNotParse | OriginOpaque | OriginNoHost | OriginUser | OriginFragment | OriginQuery
  | OriginPath | OriginWildcard | OriginHttp | OriginNotLoopback | OriginScheme
  | PrefixOnVirtualHost | PrefixMissing | PrefixSlash | PrefixSegment (e : ticket_error)
  | PrefixNotLiteral | AddressingUnknown
  | UrlDoesNotParse | UrlOpaque | UrlNoHost | UrlUser | UrlFragment | UrlScheme | UrlHttpUnpinned
  | ErrNoTarget (origin : string)
  | NoObjectID | WrongObject | WrongMethod | WrongLength | LengthUnsigned
  | KeyEmpty | KeyTooLong | KeySlash | KeyBackslash | KeyControl | SegmentEmpty | SegmentDot
  | PathEmptySegment | PathDotSegment | PathEncodedSlash | PathEncodedBackslash | PathNotKey
  | DialectsMixed | DialectUnknown | NoSourceHash | NoTicketID
  | SourceHashMissing | SourceHashDiffers | TicketIDMissing | TicketIDDiffers
  | MetadataOutsideSet (name : string) | MetadataMissing (header : string)
  | MetadataDiffers (header : string) | BlobTypeMissing
  | HeaderEmpty (name : string) | TagUnknown (value : string)
  | MetadataUndeclared (name : string) | HeaderOutsideSet (name : string).

(** ** target.go *)

Inductive Addressing := VirtualHosted | PathStyle | addressingUnpinned | addressingOther (s : string).
#[global] Instance Addressing_eq_dec : EqDecision Addressing.
Proof. solve_decision. Defined.

Record TargetSpec := mkTargetSpec {
  Origin : string;
  ts_Addressing : Addressing;
  PathPrefix : string;
  AllowLoopbackHTTP : bool
}.

Record UploadTarget := mkTarget {
  scheme : string;
  host : string;
  port : string;
  addressing : Addressing;
  pathPrefix : string
}.

Definition UploadTargetList := list UploadTarget.

(** [strings.EqualFold] against a lower-case ASCII word. *)
Definition effectivePort (u : URL) : string :=
  if negb (Url.Port u =? "")%string then Url.Port u
  else if (to_lower (Scheme u) =? "http")%string then "80" else "443".

Definition isLoopbackHost (h : string) : bool := (h =? "localhost")%string || IP.is_loopback h.

Definition upperhex : string := "0123456789ABCDEF".

Definition unreserved (c : ascii) : bool :=
  is_upper c || is_lower c || is_digit c ||
  (c =? "-")%char || (c =? ".")%char || (c =? "_")%char || (c =? "~")%char || (c =? "/")%char.

Definition canonicalByte (c : ascii) : string :=
  if unreserved c then String c ""
  else
    let digit n := default "0"%char (String.get (Z.to_nat n) upperhex) in
    String "%" (String (digit (Z.shiftr (byte_code c) 4))
                 (String (digit (Z.land (byte_code c) 15)) "")).

Definition canonicalPath (key : string) : string := str_flat_map canonicalByte key.

Fixpoint validate_segs (segs : list string) : result ticket_error () :=
  match segs with
  | [] => Ok ()
  | seg :: r =>
      if (seg =? "")%string then Err SegmentEmpty
      else if (seg =? ".")%string || (seg =? "..")%string then Err SegmentDot
      else validate_segs r
  end.
Definition validateSegments (path : string) : result ticket_error () :=
  validate_segs (split_on "/" path).

Definition validatePathPrefix (a : Addressing) (prefix : string) : result ticket_error string :=
  match a with
  | VirtualHosted => if negb (prefix =? "")%string then Err PrefixOnVirtualHost else Ok ""
  | PathStyle =>
      if negb (has_prefix "/" prefix) || (prefix =? "/")%string then Err PrefixMissing
      else if has_suffix "/" prefix then Err PrefixSlash
      else
        let body := trim_prefix "/" prefix in
        match validateSegments body with
        | Err e => Err (PrefixSegment e)
        | Ok _ => if negb (canonicalPath body =? body)%string then Err PrefixNotLiteral
                  else Ok prefix
        end
  | _ => Err AddressingUnknown
  end.

Definition NewUploadTarget (spec : TargetSpec) : result ticket_error UploadTarget :=
  match Url.Parse (TrimSpace (Origin spec)) with
  | None => Err OriginDoesNotParse
  | Some u =>
      if negb (Opaque u =? "")%string then Err OriginOpaque
      else if (Host u =? "")%string then Err OriginNoHost
      else if User u then Err OriginUser
      else if negb (Fragment u =? "")%string then Err OriginFragment
      else if negb (RawQuery u =? "")%string then Err OriginQuery
      else if negb (Path u =? "")%string && negb (Path u =? "/")%string then Err OriginPath
      else
        let host := to_lower (Url.Hostname u) in
        if str_contains "*" host then Err OriginWildcard
        else
          let scheme := to_lower (Scheme u) in
          let! _ :=
            (if (scheme =? "https")%string then Ok ()
             else if (scheme =? "http")%string then
               if negb (AllowLoopbackHTTP spec) then Err OriginHttp
               else if negb (isLoopbackHost host) then Err OriginNotLoopback
               else Ok ()
             else Err OriginScheme) in
          let port := effectivePort u in
          let! prefix := validatePathPrefix (ts_Addressing spec) (PathPrefix spec) in
          Ok (mkTarget scheme host port (ts_Addressing spec) prefix)
  end.

Definition target_origin (t : UploadTarget) : string :=
  scheme t +:+ "://" +:+ Url.JoinHostPort (host t) (port t).

Definition originOf (u : URL) : string :=
  to_lower (Scheme u) +:+ "://" +:+ Url.JoinHostPort (to_lower (Url.Hostname u)) (effectivePort u).

Definition matchesOrigin (t : UploadTarget) (u : URL) : bool :=
  (target_origin t =? originOf u)%string.

Definition parseTicketURL (raw : string) : result ticket_error URL :=
  match Url.Parse raw with
  | None => Err UrlDoesNotParse
  | Some u =>
      if negb (Opaque u =? "")%string then Err UrlOpaque
      else if (Host u =? "")%string then Err UrlNoHost
      else if User u then Err UrlUser
      else if negb (Fragment u =? "")%string || negb (RawFragment u =? "")%string then Err UrlFragment
      else if negb (Scheme u =? "https")%string && negb (Scheme u =? "http")%string then Err UrlScheme
      else Ok u
  end.

Definition unpinnedTarget (u : URL) : result ticket_error UploadTarget :=
  if negb (Scheme u =? "https")%string then Err UrlHttpUnpinned
  else Ok (mkTarget "https" (to_lower (Url.Hostname u)) (effectivePort u) addressingUnpinned "").

Definition match_ (l : UploadTargetList) (rawURL : string)
    : result ticket_error (UploadTarget * URL) :=
  let! u := parseTicketURL rawURL in
  match l with
  | [] => let! t := unpinnedTarget u in Ok (t, u)
  | _ => match List.find (fun t => matchesOrigin t u) l with
         | Some t => Ok (t, u)
         | None => Err (ErrNoTarget (originOf u))
         end
  end.

(** ** ticket.go *)

Record headerDialect := mkDialect {
  metadataPrefix : string;
  sourceHash : string;
  ticketID : string;
  tagging : string;
  azure : bool
}.

Definition headerDialects : list headerDialect :=
  [ mkDialect "x-amz-meta-" "x-amz-meta-source-hash" "x-amz-meta-ticket-id" "x-amz-tagging" false;
    mkDialect "x-goog-meta-" "x-goog-meta-source-hash" "x-goog-meta-ticket-id" "" false;
    mkDialect "x-ms-meta-" "x-ms-meta-source_hash" "x-ms-meta-ticket_id" "x-ms-tags" true ].

Definition MetadataNames : list string :=
  ["manifest-version"; "source-id"; "shipped-hash"; "artifact-class";
   "agent-version"; "shape-sniff"; "derived"; "enrich-status"; "kind"].

Definition taggingValues : list string := ["class=trajectory"; "class=context"].

Definition maxKeyLength : Z := 1024.

Record PreparedUpload := mkPreparedUpload {
  pu_ObjectID : string;
  pu_Key : string;
  pu_Body : string;
  pu_SourceHash : string;
  pu_Metadata : gmap string string
}.

(** [ExpiresAt] is [None] for the zero time, otherwise the instant. *)
Record Ticket := mkTicket {
  TicketID : string;
  t_ObjectID : string;
  Method : string;
  t_URL : string;
  ExpiresAt : option Z;
  RequiredHeaders : gmap string string;
  ContentLength : Z;
  ContentLengthSigned : bool
}.

Definition validateKey (key : string) : result ticket_error () :=
  if (key =? "")%string then Err KeyEmpty
  else if maxKeyLength <? slen key then Err KeyTooLong
  else if has_prefix "/" key || has_suffix "/" key then Err KeySlash
  else if str_contains "\" key then Err KeyBackslash
  else if str_existsb Url.control key then Err KeyControl
  else validateSegments key.

Definition hasDotSegment (escaped : string) : bool :=
  let segments := split_on "/" escaped in
  bool_decide ("." ∈ segments) || bool_decide (".." ∈ segments).

Definition validatePath (target : UploadTarget) (prepared : PreparedUpload) (escaped : string)
    : result ticket_error () :=
  let! _ := validateKey (pu_Key prepared) in
  let lower := to_lower escaped in
  if str_contains "//" escaped then Err PathEmptySegment
  else if hasDotSegment escaped then Err PathDotSegment
  else if str_contains "%2f" lower then Err PathEncodedSlash
  else if str_contains "%5c" lower then Err PathEncodedBackslash
  else
    let want := pathPrefix target +:+ "/" +:+ canonicalPath (pu_Key prepared) in
    match addressing target with
    | VirtualHosted | PathStyle => if negb (escaped =? want)%string then Err PathNotKey else Ok ()
    | addressingUnpinned =>
        match cut_suffix want escaped with
        | None => Err PathNotKey
        | Some bucket => if 1 <? count_byte "/" bucket then Err PathNotKey else Ok ()
        end
    | addressingOther _ => Err AddressingUnknown
    end.

Definition metadataHeader (d : headerDialect) (name : string) : string :=
  metadataPrefix d +:+ (if azure d then replace_byte "-" "_" name else name).

Definition metadataName (d : headerDialect) (header : string) : string :=
  let name := trim_prefix (metadataPrefix d) header in
  if azure d then replace_byte "_" "-" name else name.

Fixpoint find_dialect (l : list headerDialect) (h : gmap string string) (found : option headerDialect)
    : result ticket_error headerDialect :=
  match l with
  | [] => match found with Some d => Ok d | None => Err DialectUnknown end
  | d :: r =>
      match h !! sourceHash d with
      | None => find_dialect r h found
      | Some _ => match found with Some _ => Err DialectsMixed | None => find_dialect r h (Some d) end
      end
  end.
Definition ticketHeaderDialect (h : gmap string string) : result ticket_error headerDialect :=
  find_dialect headerDialects h None.

(** One pass of the loop over the declared metadata, then of the loop over the headers. *)
Definition check_declared (d : headerDialect) (h : gmap string string) (nw : string * string)
    : result ticket_error () :=
  let '(name, want) := nw in
  if negb (bool_decide (name ∈ MetadataNames)) then Err (MetadataOutsideSet name)
  else
    let header := metadataHeader d name in
    match h !! header with
    | None => Err (MetadataMissing header)
    | Some got => if negb (got =? want)%string then Err (MetadataDiffers header) else Ok ()
    end.

Definition check_header (d : headerDialect) (md : gmap string string) (ng : string * string)
    : result ticket_error () :=
  let '(name, got) := ng in
  if (got =? "")%string then Err (HeaderEmpty name)
  else if (name =? sourceHash d)%string || (name =? ticketID d)%string then Ok ()
  else if (name =? tagging d)%string && negb (tagging d =? "")%string then
    if negb (bool_decide (got ∈ taggingValues)) then Err (TagUnknown got) else Ok ()
  else if azure d && (name =? "x-ms-blob-type")%string then Ok ()
  else if has_prefix (metadataPrefix d) name && bool_decide (metadataName d name ∈ MetadataNames) then
    if negb (default "" (md !! metadataName d name) =? got)%string then Err (MetadataUndeclared name)
    else Ok ()
  else Err (HeaderOutsideSet name).

Fixpoint check_all {A} (f : A -> result ticket_error ()) (l : list A) : result ticket_error () :=
  match l with [] => Ok () | x :: r => let! _ := f x in check_all f r end.

Section Validate.
(** The order in which a map is visited. *)
Variable visit : gmap string string -> list (string * string).

Definition validateHeaders (prepared : PreparedUpload) (ticket : Ticket) : result ticket_error () :=
  let h := RequiredHeaders ticket in
  let! dialect := ticketHeaderDialect h in
  if (pu_SourceHash prepared =? "")%string then Err NoSourceHash
  else if (TicketID ticket =? "")%string then Err NoTicketID
  else
    let! _ := match h !! sourceHash dialect with
              | None => Err SourceHashMissing
              | Some got => if negb (got =? pu_SourceHash prepared)%string then Err SourceHashDiffers
                            else Ok ()
              end in
    let! _ := match h !! ticketID dialect with
              | None => Err TicketIDMissing
              | Some got => if negb (got =? TicketID ticket)%string then Err TicketIDDiffers
                            else Ok ()
              end in
    let! _ := check_all (check_declared dialect h) (visit (pu_Metadata prepared)) in
    if azure dialect && negb (default "" (h !! "x-ms-blob-type") =? "BlockBlob")%string
    then Err BlobTypeMissing
    else check_all (check_header dialect (pu_Metadata prepared)) (visit h).

Definition ValidateTicket (targets : UploadTargetList) (prepared : PreparedUpload) (ticket : Ticket)
    : result ticket_error () :=
  let! tu := match_ targets (t_URL ticket) in
  let '(target, u) := tu in
  if (pu_ObjectID prepared =? "")%string then Err NoObjectID
  else if negb (t_ObjectID ticket =? pu_ObjectID prepared)%string then Err WrongObject
  else if negb (Method ticket =? "PUT")%string then Err WrongMethod
  else if negb (ContentLength ticket =? slen (pu_Body prepared)) then Err WrongLength
  else if negb (ContentLengthSigned ticket) then Err LengthUnsigned
  else
    let! _ := validatePath target prepared (Url.EscapedPath u) in
    validateHeaders prepared ticket.
End Validate.
