(* ===== verification/TicketSafe.v ===== *)
(** What the local ticket validation of [Ticket] guarantees: canonical key spellings, origins, the
    exact-key path check, the closed header set, and the two theorems about [ValidateTicket]. *)

From S2P Require Import Prelude GoLib GoUrl Ticket.

(** ** The canonical spelling of a key *)

Lemma str_flat_map_app f a b : str_flat_map f (a +:+ b) = str_flat_map f a +:+ str_flat_map f b.
Proof. induction a; simpl; [done|]. by rewrite IHa, string_app_assoc. Qed.

(** What one byte becomes: itself, or "%" and two digits that are not those of "/"; the digits of
    a backslash only for a backslash. *)
Definition byte_form (c : ascii) : bool :=
  match canonicalByte c with
  | String d "" => (d =? c)%char && negb (d =? "%")%char
  | String d (String x (String y "")) =>
      (d =? "%")%char && negb (c =? "/")%char && negb (c =? ".")%char && negb (x =? "%")%char && negb (y =? "%")%char
      && negb (x =? "/")%char && negb (y =? "/")%char
      && bool_decide (Url.unescape (canonicalByte c) = Some (String c ""))
      && negb (bool_decide (to_lower (canonicalByte c) = "%2f"))
      && ((c =? "\")%char || negb (bool_decide (to_lower (canonicalByte c) = "%5c")))
  | _ => false
  end.

Lemma canonicalByte_form c : byte_form c = true.
Proof. apply (all_bytes_spec byte_form). vm_compute. reflexivity. Qed.

Lemma canonicalByte_cases c :
  (canonicalByte c = String c "" /\ c <> "%"%char) \/
  (exists x y, canonicalByte c = String "%" (String x (String y "")) /\
     c <> "/"%char /\ c <> "."%char /\ x <> "%"%char /\ y <> "%"%char /\ x <> "/"%char /\ y <> "/"%char /\
     Url.unescape (canonicalByte c) = Some (String c "") /\
     to_lower (canonicalByte c) <> "%2f" /\
     (c = "\"%char \/ to_lower (canonicalByte c) <> "%5c")).
Proof.
  pose proof (canonicalByte_form c) as H. unfold byte_form in H.
  destruct (canonicalByte c) as [|d s] eqn:E; [done|].
  destruct s as [|x [|y [|? ?]]]; try done.
  - left. apply andb_true_iff in H as [H1 H2]. apply Ascii.eqb_eq in H1 as ->. split; [done|].
    by apply negb_true_iff, Ascii.eqb_neq in H2.
  - right. rewrite !andb_true_iff, orb_true_iff, !negb_true_iff, !Ascii.eqb_neq, !Ascii.eqb_eq,
      !bool_decide_eq_false, bool_decide_eq_true in H.
    destruct H as [[[[[[[[[-> ?] ?] ?] ?] ?] ?] ?] ?] ?]. exists x, y. naive_solver.
Qed.

Lemma unescape_plain c r : c <> "%"%char -> Url.unescape (String c r) = String c <$> Url.unescape r.
Proof. intros H. destruct c as [[] [] [] [] [] [] [] []]; try reflexivity. by destruct H. Qed.

Lemma unescape_canonicalPath k : Url.unescape (canonicalPath k) = Some k.
Proof.
  unfold canonicalPath. induction k as [|c k IH]; [done|]. cbn [str_flat_map].
  destruct (canonicalByte_cases c) as [[-> Hc]|(x & y & E & _ & _ & _ & _ & _ & _ & Hu & _)].
  - cbn [String.append]. by rewrite unescape_plain, IH.
  - rewrite E in *. cbn [String.append] in *. cbn [Url.unescape] in Hu |- *.
    destruct (IP.hex_value x), (IP.hex_value y); try done. rewrite IH. cbn in *. congruence.
Qed.

Lemma canonicalPath_inj : Inj (=) (=) canonicalPath.
Proof. intros a b H. apply (f_equal Url.unescape) in H. rewrite !unescape_canonicalPath in H. congruence. Qed.

Lemma canonicalPath_app a b : canonicalPath (a +:+ b) = canonicalPath a +:+ canonicalPath b.
Proof. apply str_flat_map_app. Qed.

Lemma split_on_cons_other sep c r :
  c <> sep -> exists h t, split_on sep r = h :: t /\ split_on sep (String c r) = String c h :: t.
Proof.
  intros H. cbn. apply Ascii.eqb_neq in H. rewrite H.
  pose proof (split_on_nonempty sep r). destruct (split_on sep r); [done|]. eauto.
Qed.

Lemma split_on_prepend sep c r h t :
  c <> sep -> split_on sep r = h :: t -> split_on sep (String c r) = String c h :: t.
Proof. intros H E. destruct (split_on_cons_other sep c r H) as (? & ? & E' & ->). congruence. Qed.

Lemma split_on_app sep a b : split_on sep (a +:+ String sep b) = split_on sep a ++ split_on sep b.
Proof.
  induction a as [|c a IH]; cbn [String.append].
  - cbn. by rewrite Ascii.eqb_refl.
  - destruct (Ascii.eqb_spec c sep) as [->|Hc].
    + cbn. rewrite Ascii.eqb_refl, IH. done.
    + destruct (split_on_cons_other sep c (a +:+ String sep b) Hc) as (h & t & E1 & ->).
      destruct (split_on_cons_other sep c a Hc) as (h' & t' & E2 & ->).
      rewrite E1, E2 in IH. cbn in *. congruence.
Qed.

Lemma split_canonicalPath k : split_on "/" (canonicalPath k) = map canonicalPath (split_on "/" k).
Proof.
  unfold canonicalPath at 1. induction k as [|c k IH]; [done|]. cbn [str_flat_map].
  destruct (canonicalByte_cases c) as [[E Hc]|(x & y & E & Hs & _ & _ & _ & Hx & Hy & _)]; rewrite E;
    cbn [String.append].
  - destruct (Ascii.eqb_spec c "/") as [->|Hn].
    + cbn [split_on]. rewrite IH. done.
    + destruct (split_on_cons_other "/" c (str_flat_map canonicalByte k) Hn) as (h & t & E1 & ->).
      destruct (split_on_cons_other "/" c k Hn) as (h' & t' & E2 & ->).
      rewrite E1, E2 in IH. cbn in IH |- *. injection IH as -> ->.
      unfold canonicalPath at 2. cbn [str_flat_map]. by rewrite E.
  - destruct (split_on_cons_other "/" c k Hs) as (h' & t' & E2 & ->). rewrite E2 in IH. cbn in IH.
    pose proof (split_on_prepend "/" y _ _ _ Hy IH) as IHy.
    pose proof (split_on_prepend "/" x _ _ _ Hx IHy) as IHx.
    rewrite (split_on_prepend "/" "%" _ _ _ ltac:(done) IHx).
    cbn [map]. f_equal. unfold canonicalPath. cbn [str_flat_map]. by rewrite E.
Qed.

(** ** The named refusals never hit a canonical path *)

Lemma str_map_app f a b : str_map f (a +:+ b) = str_map f a +:+ str_map f b.
Proof. induction a; simpl; congruence. Qed.

Lemma to_lower_percent c : c <> "%"%char -> to_lower_byte c <> "%"%char.
Proof.
  intros H E. assert (negb (c =? "%")%char && (to_lower_byte c =? "%")%char = false) as F.
  { apply negb_true_iff.
    apply (all_bytes_spec (fun c => negb (negb (c =? "%")%char && (to_lower_byte c =? "%")%char))).
    vm_compute. reflexivity. }
  rewrite E, Ascii.eqb_refl, andb_true_r in F. apply negb_false_iff, Ascii.eqb_eq in F. done.
Qed.

Lemma contains_skip p c r :
  c <> "%"%char -> has_prefix "%" p = true -> str_contains p (String c r) = str_contains p r.
Proof.
  intros Hc [p' ->]%has_prefix_spec. cbn [str_contains has_prefix String.append].
  destruct (Ascii.eqb_spec "%" c); [by subst|done].
Qed.

Lemma contains_escape p k :
  has_prefix "%" p = true -> String.length p = 3%nat ->
  str_contains p (to_lower (canonicalPath k)) = true ->
  exists a c b, k = a +:+ String c b /\ to_lower (canonicalByte c) = p.
Proof.
  intros Hp Hl. unfold to_lower, canonicalPath. induction k as [|c k IH]; cbn [str_flat_map].
  { destruct p; [done|]. cbn. done. }
  rewrite str_map_app. intros H.
  assert (str_contains p (str_map to_lower_byte (str_flat_map canonicalByte k)) = true ->
    exists a c' b, String c k = a +:+ String c' b /\ str_map to_lower_byte (canonicalByte c') = p) as Hrec.
  { intros H'. destruct (IH H') as (a & c' & b & -> & ?). by exists (String c a), c', b. }
  destruct (canonicalByte_cases c) as [[E Hc]|(x & y & E & _ & _ & Hx & Hy & _)].
  - rewrite E in H. cbn [str_map String.append] in H.
    rewrite contains_skip in H by (done || by apply to_lower_percent). auto.
  - rewrite E in H. cbn [str_map String.append] in H.
    apply has_prefix_spec in Hp as [p' ->]. destruct p' as [|x' [|y' [|]]]; try done.
    change ("%" +:+ String x' (String y' "")) with (String "%" (String x' (String y' ""))) in *.
    cbn [str_contains] in H. apply orb_true_iff in H as [H|H].
    + cbn [has_prefix] in H. rewrite !andb_true_iff, !Ascii.eqb_eq in H. destruct H as (_ & Hx1 & Hy1 & _).
      exists "", c, k. split; [done|]. rewrite E. cbn [str_map]. by rewrite Hx1, Hy1.
    + change (str_contains (String "%" (String x' (String y' "")))
        (String (to_lower_byte x) (String (to_lower_byte y)
           (str_map to_lower_byte (str_flat_map canonicalByte k)))) = true) in H.
      rewrite !contains_skip in H by (done || by apply to_lower_percent). auto.
Qed.

Lemma canonical_no_encoded_slash k : str_contains "%2f" (to_lower (canonicalPath k)) = false.
Proof.
  apply not_true_is_false. intros (a & c & b & _ & E)%contains_escape; [|done|done].
  destruct (canonicalByte_cases c) as [[E' _]|(x & y & E' & H)]; [by rewrite E' in E|].
  naive_solver.
Qed.

Lemma canonical_no_encoded_backslash k :
  no_byte "\" k = true -> str_contains "%5c" (to_lower (canonicalPath k)) = false.
Proof.
  intros Hk. apply not_true_is_false. intros (a & c & b & -> & E)%contains_escape; [|done|done].
  unfold no_byte in Hk. rewrite str_forallb_app in Hk. cbn in Hk.
  destruct (canonicalByte_cases c) as [[E' _]|(x & y & E' & H)]; [by rewrite E' in E|].
  destruct H as (_ & _ & _ & _ & _ & _ & _ & _ & [->|]); [|done].
  cbn in Hk. by rewrite andb_false_r in Hk.
Qed.

Lemma contains_double_slash s :
  str_contains "//" s = true -> "" ∈ tail (split_on "/" s).
Proof.
  induction s as [|c r IH]; [done|]. cbn [str_contains]. intros [H|H]%orb_true_iff.
  - apply has_prefix_spec in H as [r' [= -> ->]]. cbn. apply list_elem_of_here.
  - specialize (IH H). destruct (Ascii.eqb_spec c "/") as [->|Hn].
    + cbn. pose proof (split_on_nonempty "/" r). destruct (split_on "/" r); [done|].
      by apply list_elem_of_further.
    + destruct (split_on_cons_other "/" c r Hn) as (h & t & E & ->). by rewrite E in IH.
Qed.

Lemma contains_byte a s : str_contains (String a "") s = negb (no_byte a s).
Proof.
  unfold no_byte. induction s as [|c r IH]; [done|]. cbn [str_contains has_prefix str_forallb].
  rewrite IH, andb_true_r, negb_andb, negb_involutive. f_equal. apply Ascii.eqb_sym.
Qed.

Definition seg_ok (s : string) : Prop := s <> "" /\ s <> "." /\ s <> "..".

Lemma validate_segs_spec l : validate_segs l = Ok () <-> Forall seg_ok l.
Proof.
  unfold seg_ok. induction l as [|s l IH]; cbn; [done|]. rewrite Forall_cons, <- IH.
  destruct (String.eqb_spec s ""), (String.eqb_spec s "."), (String.eqb_spec s ".."); cbn; naive_solver.
Qed.

(** A path whose segments are proper, spelled canonically, passes all four refusals. *)
Lemma canonical_passes p segs :
  split_on "/" p = "" :: segs -> Forall seg_ok segs -> no_byte "\" p = true ->
  str_contains "//" (canonicalPath p) = false /\ hasDotSegment (canonicalPath p) = false /\
  str_contains "%2f" (to_lower (canonicalPath p)) = false /\
  str_contains "%5c" (to_lower (canonicalPath p)) = false.
Proof.
  intros Hs Hok Hb.
  assert (forall s, s ∈ segs -> seg_ok (canonicalPath s)) as Hc.
  { intros s Hin. apply (proj1 (Forall_forall _ _) Hok) in Hin as (H1 & H2 & H3).
    unfold seg_ok. split_and!; intros E; [apply H1|apply H2|apply H3]; by apply canonicalPath_inj. }
  split_and!; auto using canonical_no_encoded_slash, canonical_no_encoded_backslash.
  - apply not_true_is_false. intros H%contains_double_slash.
    rewrite split_canonicalPath, Hs in H. cbn in H.
    apply list_elem_of_fmap in H as (s & E & Hin). destruct (Hc s Hin) as [? _]. congruence.
  - unfold hasDotSegment. rewrite split_canonicalPath, Hs. cbn [map].
    apply orb_false_iff. split; apply bool_decide_eq_false; intros H;
      apply elem_of_cons in H as [H|H]; try done;
      apply list_elem_of_fmap in H as (s & E & Hin); destruct (Hc s Hin) as (? & ? & ?); congruence.
Qed.

(** ** Origins *)

(** What a target built by [NewUploadTarget] satisfies. *)
Record target_ok (t : UploadTarget) : Prop := {
  ok_scheme : scheme t = "https" \/ (scheme t = "http" /\ isLoopbackHost (host t) = true);
  ok_port : port t <> "" /\ str_forallb is_digit (port t) = true;
  ok_host : str_contains "*" (host t) = false;
  ok_prefix : exists segs, split_on "/" (pathPrefix t) = "" :: segs /\ Forall seg_ok segs /\
    canonicalPath (pathPrefix t) = pathPrefix t /\ (addressing t = PathStyle <-> segs <> []);
  ok_addressing : addressing t = VirtualHosted \/ addressing t = PathStyle
}.

Lemma port_digits u : str_forallb is_digit (Url.Port u) = true.
Proof.
  unfold Url.Port, Url.splitHostPort. destruct (Url.cut_last ":" (Host u)) as [[h p]|]; [|done].
  destruct (str_forallb is_digit p) eqn:E; done.
Qed.

Lemma effectivePort_digits u :
  effectivePort u <> "" /\ str_forallb is_digit (effectivePort u) = true.
Proof.
  unfold effectivePort. destruct (String.eqb_spec (Url.Port u) "") as [E|E]; cbn [negb].
  - by destruct (_ =? _)%string.
  - split; [done|apply port_digits].
Qed.

Lemma validatePathPrefix_spec a prefix p :
  validatePathPrefix a prefix = Ok p ->
  (a = VirtualHosted \/ a = PathStyle) /\ p = prefix /\
  exists segs, split_on "/" p = "" :: segs /\ Forall seg_ok segs /\ canonicalPath p = p /\
    (a = PathStyle <-> segs <> []).
Proof.
  unfold validatePathPrefix. destruct a; try done.
  - destruct (String.eqb_spec prefix "") as [->|]; [|done]. intros [= <-]. split_and!; auto.
    exists []. naive_solver.
  - destruct (_ || _) eqn:E1; [done|]. destruct (has_suffix _ _); [done|].
    apply orb_false_iff in E1 as [E1 _]. apply negb_false_iff, has_prefix_spec in E1 as [body ->].
    unfold trim_prefix. rewrite (proj2 (has_prefix_spec "/" _)) by eauto.
    change (str_drop _ _) with body.
    destruct (validateSegments body) as [[]|] eqn:E2; [|done].
    destruct (String.eqb_spec (canonicalPath body) body) as [Ec|]; [|done]. intros [= <-].
    split_and!; auto. exists (split_on "/" body).
    split_and!; [done|by apply validate_segs_spec|change (canonicalPath (String "/" body)) with (String "/" (canonicalPath body)); by rewrite Ec|].
    split; [intros _; apply split_on_nonempty|done].
Qed.

Lemma NewUploadTarget_spec spec t :
  NewUploadTarget spec = Ok t ->
  target_ok t /\ addressing t = ts_Addressing spec /\ pathPrefix t = PathPrefix spec /\
  (scheme t = "http" -> AllowLoopbackHTTP spec = true).
Proof.
  unfold NewUploadTarget. destruct (Url.Parse _) as [u|]; [|done].
  intros H. inv_ok. match goal with H : validatePathPrefix _ _ = Ok _ |- _ =>
    apply validatePathPrefix_spec in H as (Ha & -> & segs & Hs & Hok & Hc & Hp) end.
  repeat match goal with H : (if _ then _ else _) = Ok _ |- _ => case_in H end; inv_ok; boolp.
  all: split_and!; cbn; try done; try congruence.
  all: constructor; cbn; eauto using effectivePort_digits; try congruence.
Qed.

Lemma cut_at_last a b p q :
  no_byte ":" p = true -> no_byte ":" q = true ->
  a +:+ ":" +:+ p = b +:+ ":" +:+ q -> a = b /\ p = q.
Proof.
  intros Hp Hq H. apply (f_equal (split_on ":")) in H. cbn [String.append] in H.
  rewrite !split_on_app, (split_on_no_sep _ p), (split_on_no_sep _ q) in H by done.
  apply app_inj_tail in H as [H ->]. split; [|done].
  by rewrite <- (join_split ":" a), H, join_split.
Qed.

Lemma digits_no_colon p : str_forallb is_digit p = true -> no_byte ":" p = true.
Proof.
  apply str_forallb_impl. intros c Hc. destruct (Ascii.eqb_spec c ":") as [->|]; done.
Qed.

Definition bracket (h : string) : string :=
  if str_contains ":" h then "[" +:+ (h +:+ "]") else h.

Lemma JoinHostPort_bracket h p : Url.JoinHostPort h p = bracket h +:+ (":" +:+ p).
Proof.
  unfold Url.JoinHostPort, bracket. destruct (str_contains ":" h); [|done].
  by rewrite !string_app_assoc.
Qed.

Lemma bracket_inj h h' : bracket h = bracket h' -> h = h'.
Proof.
  unfold bracket. rewrite !contains_byte.
  assert (forall a b, no_byte ":" b = false -> a = "[" +:+ (b +:+ "]") -> no_byte ":" a = false) as Hb.
  { intros a b E ->. unfold no_byte in *. rewrite !str_forallb_app, E. by rewrite andb_false_r. }
  destruct (no_byte ":" h) eqn:E1, (no_byte ":" h') eqn:E2; cbn [negb]; intros H; try done.
  - apply Hb in H; congruence.
  - symmetry in H. apply Hb in H; congruence.
  - injection H as H. apply (f_equal str_rev) in H. rewrite !str_rev_append in H. injection H as H.
    apply (f_equal str_rev) in H. by rewrite !str_rev_involutive in H.
Qed.

Lemma JoinHostPort_inj h p h' p' :
  str_forallb is_digit p = true -> str_forallb is_digit p' = true ->
  Url.JoinHostPort h p = Url.JoinHostPort h' p' -> h = h' /\ p = p'.
Proof.
  intros Hp%digits_no_colon Hp'%digits_no_colon. rewrite !JoinHostPort_bracket.
  intros H. apply cut_at_last in H as [H ->]; [|done..]. by apply bracket_inj in H.
Qed.

Lemma matchesOrigin_pins t u :
  target_ok t -> (Scheme u = "https" \/ Scheme u = "http") -> matchesOrigin t u = true ->
  scheme t = Scheme u /\ host t = to_lower (Url.Hostname u) /\ port t = effectivePort u.
Proof.
  intros [Hs [_ Hp] _ _ _] Hu H%String.eqb_eq. unfold target_origin, originOf in H.
  destruct (effectivePort_digits u) as [_ Hpu].
  destruct Hs as [Hs|[Hs _]], Hu as [Hu|Hu]; rewrite Hs, Hu in *; cbn [to_lower str_map] in H;
    try (cbn in H; discriminate H); injection H as H;
    apply JoinHostPort_inj in H; try done; naive_solver.
Qed.

(** ** The path check decides the exact key *)

Lemma validateKey_spec key :
  validateKey key = Ok () -> Forall seg_ok (split_on "/" key) /\ no_byte "\" key = true.
Proof.
  unfold validateKey. intros H. inv_ok. split; [by apply validate_segs_spec|].
  rewrite contains_byte in Heqb2. by apply negb_false_iff in Heqb2.
Qed.

Lemma no_byte_canonical p : no_byte "\" (canonicalPath p) = true.
Proof.
  assert (forall c, no_byte "\" (canonicalByte c) = true) as Hb
    by (apply all_bytes_spec; vm_compute; reflexivity).
  unfold canonicalPath, no_byte in *. induction p as [|c p IH]; [done|]. cbn [str_flat_map].
  by rewrite str_forallb_app, Hb, IH.
Qed.

(** The full path below a declared target. *)
Lemma want_passes t key :
  target_ok t -> validateKey key = Ok () ->
  let want := pathPrefix t +:+ "/" +:+ canonicalPath key in
  str_contains "//" want = false /\ hasDotSegment want = false /\
  str_contains "%2f" (to_lower want) = false /\ str_contains "%5c" (to_lower want) = false.
Proof.
  intros [_ _ _ (segs & Hs & Hok & Hc & _) _] [Hk Hb]%validateKey_spec want.
  assert (want = canonicalPath (pathPrefix t +:+ String "/" key)) as ->.
  { rewrite canonicalPath_app, Hc. done. }
  apply canonical_passes with (segs := segs ++ split_on "/" key).
  - by rewrite split_on_app, Hs.
  - by apply Forall_app.
  - pose proof (no_byte_canonical (pathPrefix t)) as Hp. rewrite Hc in Hp.
    unfold no_byte in *. rewrite str_forallb_app, Hp. done.
Qed.

Definition refusals_pass (escaped : string) : Prop :=
  str_contains "//" escaped = false /\ hasDotSegment escaped = false /\
  str_contains "%2f" (to_lower escaped) = false /\ str_contains "%5c" (to_lower escaped) = false.

(** The paths that name [key] at a target: the declared prefix and the canonical key, or, with no
    declared layout, the canonical key at the root or below one proper segment. *)
Definition names_key (t : UploadTarget) (key escaped : string) : Prop :=
  match addressing t with
  | VirtualHosted | PathStyle => escaped = pathPrefix t +:+ "/" +:+ canonicalPath key
  | addressingUnpinned =>
      refusals_pass escaped /\
      exists bucket, escaped = bucket +:+ "/" +:+ canonicalPath key /\
        (bucket = "" \/ exists seg, bucket = "/" +:+ seg /\ seg_ok seg /\ no_byte "/" seg = true)
  | addressingOther _ => False
  end.

Lemma count_byte_app a x y : count_byte a (x +:+ y) = count_byte a x + count_byte a y.
Proof. induction x; cbn [String.append count_byte]; lia. Qed.

Lemma count_byte_none a x : no_byte a x = true <-> count_byte a x = 0.
Proof.
  unfold no_byte. induction x as [|c x IH]; cbn; [done|].
  assert (0 <= count_byte a x) by (clear; induction x; cbn; [lia|case_match; lia]).
  destruct (Ascii.eqb_spec c a); cbn; [split; [done|lia]|]. by rewrite IH.
Qed.

Lemma bucket_shape key bucket :
  has_prefix "/" (bucket +:+ "/" +:+ key) = true -> refusals_pass (bucket +:+ "/" +:+ key) ->
  (1 <? count_byte "/" bucket) = false ->
  bucket = "" \/ exists seg, bucket = "/" +:+ seg /\ seg_ok seg /\ no_byte "/" seg = true.
Proof.
  intros Hp (Hd & Hdot & _) Hc. destruct bucket as [|c seg]; [by left|right].
  apply has_prefix_spec in Hp as [r [= -> _]]. exists seg. cbn [count_byte] in Hc.
  rewrite Ascii.eqb_refl in Hc. boolp.
  assert (no_byte "/" seg = true) as Hn.
  { apply count_byte_none. assert (0 <= count_byte "/" seg); [|lia].
    clear. induction seg; cbn; [lia|case_match; lia]. }
  split_and!; try done. unfold hasDotSegment in Hdot.
  change (String "/" seg +:+ "/" +:+ key) with (String "/" (seg +:+ String "/" key)) in Hdot, Hd.
  cbn [split_on] in Hdot. rewrite Ascii.eqb_refl, split_on_app_sep in Hdot by done. boolp.
  rewrite !elem_of_cons in *. unfold seg_ok. split_and!; intros ->; [done|naive_solver..].
Qed.

Lemma validatePath_iff t prepared escaped :
  target_ok t \/ (addressing t = addressingUnpinned /\ pathPrefix t = "") ->
  has_prefix "/" escaped = true \/ escaped = "" ->
  validatePath t prepared escaped = Ok () <->
  validateKey (pu_Key prepared) = Ok () /\ names_key t (pu_Key prepared) escaped.
Proof.
  intros Ht Hroot. unfold validatePath, names_key.
  destruct (validateKey _) as [[]|] eqn:Ek; cbn [rbind]; [|naive_solver].
  destruct Ht as [Ht|[Ha Hp]].
  - pose proof (want_passes t _ Ht Ek) as (H1 & H2 & H3 & H4).
    destruct (ok_addressing _ Ht) as [->| ->]; split.
    1,3: intros H; inv_ok; boolp; done.
    all: intros [_ ->]; rewrite H1, H2, H3, H4, String.eqb_refl; done.
  - rewrite Ha, Hp. change ("" +:+ "/" +:+ ?x) with ("/" +:+ x). split.
    + intros H. inv_ok. destruct (cut_suffix _ escaped) as [bucket|] eqn:Ec; [|done]. inv_ok.
      apply cut_suffix_spec in Ec as ->. split; [done|]. split; [done|]. exists bucket. split; [done|].
      eapply bucket_shape; eauto; [|done]. destruct Hroot as [|Hroot]; [done|].
      by destruct bucket.
    + intros [_ [(H1 & H2 & H3 & H4) (bucket & Hb & Hs)]]. rewrite H1, H2, H3, H4.
      rewrite (proj2 (cut_suffix_spec _ _ bucket) Hb).
      destruct Hs as [->|(seg & -> & _ & Hn)]; [done|].
      apply count_byte_none in Hn. cbn [String.append count_byte]. rewrite Ascii.eqb_refl, Hn. done.
Qed.

Lemma names_declared t key escaped :
  target_ok t -> names_key t key escaped -> escaped = pathPrefix t +:+ "/" +:+ canonicalPath key.
Proof. intros Ht. unfold names_key. by destruct (ok_addressing _ Ht) as [->| ->]. Qed.

(** A parsed URL that names a host has a rooted path, or none. *)
Lemma set_raw_rooted p path raw :
  Url.set_raw Url.encodePath p = Some (path, raw) -> has_prefix "/" p = true \/ p = "" ->
  (has_prefix "/" path = true \/ path = "") /\ (has_prefix "/" raw = true \/ raw = "").
Proof.
  unfold Url.set_raw. destruct (Url.unescape p) as [q|] eqn:E; [|done]. intros [= <- <-] H. split.
  - destruct H as [[r ->]%has_prefix_spec| ->]; [|by injection E as <-; right].
    change ("/" +:+ r) with (String "/" r) in E. rewrite unescape_plain in E by done.
    destruct (Url.unescape r); [|done]. injection E as <-. by left.
  - by destruct (_ =? _)%string; [right|].
Qed.

Lemma escaped_rooted raw u :
  Url.Parse raw = Some u -> Host u <> "" ->
  has_prefix "/" (Url.EscapedPath u) = true \/ Url.EscapedPath u = "".
Proof.
  unfold Url.Parse. destruct (Url.cut_byte "#" raw) as [[r frag] fl].
  destruct (str_existsb _ r); [done|]. destruct (r =? "*")%string; [by intros [= <-]|].
  destruct (Url.getScheme r) as [[sch rest]|]; [|done].
  destruct (Url.parse_rest _ rest) as [v|] eqn:Ev; [|done].
  destruct (Url.set_raw Url.encodeFragment frag) as [[f rf]|]; [|done]. intros [= <-]. cbn [Host].
  unfold Url.EscapedPath. cbn [RawPath Path]. intros Hh.
  assert ((has_prefix "/" (Path v) = true \/ Path v = "") /\
          (has_prefix "/" (RawPath v) = true \/ RawPath v = "")) as [Hp Hr].
  { revert Ev. unfold Url.parse_rest. destruct (Url.cut_byte "?" rest) as [[r' q] fl'].
    destruct (_ && _); [by intros [= <-]|]. destruct (_ && _); [done|].
    destruct (_ && has_prefix "//" r').
    - destruct (Url.cut_byte "/" _) as [[a p] found].
      destruct (Url.parseAuthority a) as [[us h]|]; [|done].
      destruct (Url.set_raw _ _) as [[pa rw]|] eqn:Es; [|done]. intros [= <-].
      apply set_raw_rooted in Es; [done|]. destruct found; [by left|by right].
    - destruct (Url.set_raw _ _) as [[pa rw]|]; [|done]. by intros [= <-]. }
  destruct (_ && _) eqn:E.
  - by destruct Hr as [Hr|Hr]; [left|right].
  - destruct Hp as [[x ->]%has_prefix_spec| ->]; [left|by right]. done.
Qed.

(** ** The header set *)

Lemma check_all_spec {A} (f : A -> result ticket_error ()) l :
  check_all f l = Ok () <-> Forall (fun x => f x = Ok ()) l.
Proof.
  induction l as [|x l IH]; cbn; [done|]. rewrite Forall_cons, <- IH.
  destruct (f x) as [[]|]; cbn; naive_solver.
Qed.

Definition allowed_header (d : headerDialect) (md : gmap string string) (n v : string) : Prop :=
  n = sourceHash d \/ n = ticketID d \/ (n = tagging d /\ tagging d <> "" /\ v ∈ taggingValues) \/
  (azure d = true /\ n = "x-ms-blob-type") \/
  (has_prefix (metadataPrefix d) n = true /\ metadataName d n ∈ MetadataNames /\
   md !! metadataName d n = Some v).

(** What the headers of an accepted ticket are: one provider's, holding the two identities, all
    declared metadata and nothing else. *)
Definition headers_bound (prepared : PreparedUpload) (ticket : Ticket) : Prop :=
  let h := RequiredHeaders ticket in
  pu_SourceHash prepared <> "" /\ TicketID ticket <> "" /\
  exists d, d ∈ headerDialects /\
    (forall d', d' ∈ headerDialects -> is_Some (h !! sourceHash d') -> d' = d) /\
    h !! sourceHash d = Some (pu_SourceHash prepared) /\
    h !! ticketID d = Some (TicketID ticket) /\
    (azure d = true -> h !! "x-ms-blob-type" = Some "BlockBlob") /\
    (forall n w, pu_Metadata prepared !! n = Some w ->
       n ∈ MetadataNames /\ h !! metadataHeader d n = Some w) /\
    (forall n v, h !! n = Some v -> v <> "" /\ allowed_header d (pu_Metadata prepared) n v).

Lemma in_dialects (P : headerDialect -> Prop) :
  (forall d, d ∈ headerDialects -> P d) <->
  P (mkDialect "x-amz-meta-" "x-amz-meta-source-hash" "x-amz-meta-ticket-id" "x-amz-tagging" false) /\
  P (mkDialect "x-goog-meta-" "x-goog-meta-source-hash" "x-goog-meta-ticket-id" "" false) /\
  P (mkDialect "x-ms-meta-" "x-ms-meta-source_hash" "x-ms-meta-ticket_id" "x-ms-tags" true).
Proof. unfold headerDialects. rewrite <- Forall_forall, !Forall_cons, Forall_nil. naive_solver. Qed.

Lemma find_dialect_spec h d :
  ticketHeaderDialect h = Ok d <->
  d ∈ headerDialects /\ is_Some (h !! sourceHash d) /\
  (forall d', d' ∈ headerDialects -> is_Some (h !! sourceHash d') -> d' = d).
Proof.
  split.
  - unfold ticketHeaderDialect. cbn [headerDialects find_dialect sourceHash]. rewrite in_dialects.
    cbn [sourceHash]. unfold is_Some.
    destruct (h !! "x-amz-meta-source-hash") eqn:E1, (h !! "x-goog-meta-source-hash") eqn:E2,
      (h !! "x-ms-meta-source_hash") eqn:E3; intros [= <-]; cbn [sourceHash];
      rewrite ?E1, ?E2, ?E3; (split; [apply list_elem_of_In; cbn; tauto|]); naive_solver.
  - intros (Hin & Hd & Hu). rewrite in_dialects in Hu. cbn [sourceHash] in Hu.
    unfold headerDialects in Hin. rewrite !elem_of_cons, elem_of_nil in Hin.
    unfold ticketHeaderDialect, is_Some in *. cbn [headerDialects find_dialect sourceHash] in *.
    destruct Hin as [->|[->|[->|[]]]]; cbn [sourceHash] in *;
    destruct (h !! "x-amz-meta-source-hash") eqn:E1, (h !! "x-goog-meta-source-hash") eqn:E2,
      (h !! "x-ms-meta-source_hash") eqn:E3; naive_solver.
Qed.

Lemma check_declared_spec d h n w :
  check_declared d h (n, w) = Ok () <-> n ∈ MetadataNames /\ h !! metadataHeader d n = Some w.
Proof.
  unfold check_declared. destruct (bool_decide (n ∈ MetadataNames)) eqn:E; boolp; cbn [negb].
  - destruct (h !! _) as [got|]; [|naive_solver].
    destruct (String.eqb_spec got w); cbn [negb]; naive_solver.
  - naive_solver.
Qed.

Lemma check_header_spec d md n v :
  d ∈ headerDialects ->
  check_header d md (n, v) = Ok () <-> v <> "" /\ allowed_header d md n v.
Proof.
  intros Hd. unfold check_header, allowed_header.
  assert (has_prefix (metadataPrefix d) (tagging d) = true -> tagging d = "") as Ht.
  { revert Hd. unfold headerDialects. rewrite !elem_of_cons, elem_of_nil.
    intros [->|[->|[->|[]]]]; done. }
  assert (azure d = true -> tagging d <> "x-ms-blob-type" /\
    has_prefix (metadataPrefix d) "x-ms-blob-type" = false) as Hz.
  { revert Hd. unfold headerDialects. rewrite !elem_of_cons, elem_of_nil.
    intros [->|[->|[->|[]]]]; done. }
  destruct (String.eqb_spec v "") as [|Hv]; [naive_solver|].
  destruct (String.eqb_spec n (sourceHash d)); cbn [orb]; [naive_solver|].
  destruct (String.eqb_spec n (ticketID d)); cbn [orb]; [naive_solver|].
  destruct (String.eqb_spec n (tagging d)); cbn [andb].
  { destruct (String.eqb_spec (tagging d) "") as [Et|Et]; cbn [negb andb].
    - subst n. rewrite Et in *.
      assert (has_prefix (metadataPrefix d) "" = false) as ->.
      { revert Hd. unfold headerDialects. rewrite !elem_of_cons, elem_of_nil.
        intros [->|[->|[->|[]]]]; done. }
      rewrite andb_false_r. cbn [andb]. split; [done|].
      intros (_ & [|[|[(_ & ? & _)|[(_ & [=])|(? & _)]]]]); done.
    - destruct (bool_decide (v ∈ taggingValues)) eqn:E; boolp; cbn [negb]; [naive_solver|].
      subst n. split; [done|]. intros (_ & [|[|[(_ & _ & ?)|[(Ha & Hb)|(Hp & _)]]]]); try done.
      + by apply Hz in Ha as [? _].
      + by apply Ht in Hp. }
  destruct (azure d && (n =? "x-ms-blob-type")%string) eqn:Ea; boolp; [naive_solver|].
  assert (forall P : Prop, (P <-> has_prefix (metadataPrefix d) n = true /\
      metadataName d n ∈ MetadataNames /\ md !! metadataName d n = Some v) ->
    P <-> v <> "" /\ (n = sourceHash d \/ n = ticketID d \/
      (n = tagging d /\ tagging d <> "" /\ v ∈ taggingValues) \/
      (azure d = true /\ n = "x-ms-blob-type") \/
      (has_prefix (metadataPrefix d) n = true /\ metadataName d n ∈ MetadataNames /\
       md !! metadataName d n = Some v))) as Hlast.
  { intros P ->. split; [intros H; split; [done|by do 4 right]|].
    intros (_ & [|[|[(? & _)|[(Ha & ->)|H]]]]); try done. by rewrite Ha in Ea. }
  apply Hlast. clear Hlast. destruct (has_prefix _ n); cbn [andb]; [|split; [done|by intros (? & _)]].
  destruct (bool_decide _) eqn:Em; boolp; [|split; [done|by intros (_ & ? & _)]].
  destruct (md !! metadataName d n) as [w|]; cbn [from_option id].
  - destruct (String.eqb_spec w v) as [->|]; cbn [negb].
    + split; [by intros _|done].
    + split; [done|]. by intros (_ & _ & [=]).
  - destruct (String.eqb_spec "" v); cbn [negb]; [congruence|]. split; [done|]. by intros (_ & _ & [=]).
Qed.

Section Accepts.
Context (visit : gmap string string -> list (string * string)).
(** A Go map is visited in some order, each entry once. *)
Hypothesis visit_perm : forall m, visit m ≡ₚ map_to_list m.

Lemma Forall_visit (P : string * string -> Prop) m :
  Forall P (visit m) <-> forall n v, m !! n = Some v -> P (n, v).
Proof.
  rewrite (visit_perm m). rewrite Forall_forall. split.
  - intros H n v Hm. by apply H, elem_of_map_to_list.
  - intros H [n v] Hin%elem_of_map_to_list. auto.
Qed.

Lemma validateHeaders_iff prepared ticket :
  validateHeaders visit prepared ticket = Ok () <-> headers_bound prepared ticket.
Proof.
  unfold validateHeaders, headers_bound. split.
  - intros H. inv_ok. boolp. split_and!; try done.
    match goal with H : ticketHeaderDialect _ = Ok ?d |- _ =>
      exists d; apply find_dialect_spec in H as (Hd & Hs & Hu) end.
    destruct (_ !! sourceHash x) eqn:E1; [|done]. destruct (_ !! ticketID x) eqn:E2; [|done].
    inv_ok. boolp. subst. repeat match goal with u : () |- _ => destruct u end.
    rewrite !check_all_spec, !Forall_visit in *. split_and!; try done.
    + intros Ha. rewrite Ha in *. cbn [andb] in *. boolp.
      by destruct (RequiredHeaders ticket !! "x-ms-blob-type") as [bt|] in *; simplify_eq/=.
    + intros n w Hn. apply check_declared_spec; eauto.
    + intros n v Hn. apply check_header_spec; eauto.
  - intros (Hs & Ht & d & Hd & Hu & E1 & E2 & Hb & Hdecl & Hclosed).
    rewrite (proj2 (find_dialect_spec _ d)) by eauto. cbn [rbind].
    apply String.eqb_neq in Hs, Ht. rewrite Hs, Ht, E1, E2, !String.eqb_refl. cbn [negb rbind].
    assert (check_all (check_declared d (RequiredHeaders ticket)) (visit (pu_Metadata prepared)) = Ok ()) as ->.
    { apply check_all_spec, Forall_visit. intros n w Hn. apply check_declared_spec; eauto. }
    cbn [rbind].
    assert (azure d && negb (default "" (RequiredHeaders ticket !! "x-ms-blob-type") =? "BlockBlob")%string
      = false) as ->.
    { destruct (azure d); [|done]. by rewrite Hb. }
    apply check_all_spec, Forall_visit. intros n v Hn. apply check_header_spec; eauto.
Qed.

(** Where an accepted ticket points: below the first declared target of its origin, or, when the
    machine owner declared none, anywhere over https. *)
Definition accepted_path (targets : UploadTargetList) (u : URL) (key : string) : Prop :=
  match targets with
  | [] => Scheme u = "https" /\
      names_key (mkTarget "https" (to_lower (Url.Hostname u)) (effectivePort u) addressingUnpinned "")
        key (Url.EscapedPath u)
  | _ => exists t, List.find (fun t => matchesOrigin t u) targets = Some t /\
                   names_key t key (Url.EscapedPath u)
  end.

Lemma parseTicketURL_spec raw u :
  parseTicketURL raw = Ok u ->
  Url.Parse raw = Some u /\ Host u <> "" /\ (Scheme u = "https" \/ Scheme u = "http").
Proof.
  unfold parseTicketURL. destruct (Url.Parse raw) as [v|]; [|done]. intros H. inv_ok. boolp.
  split_and!; try done. apply andb_false_iff in Heqb3 as [E|E]; boolp; auto.
Qed.

Lemma match_accepted targets prepared raw :
  Forall target_ok targets ->
  (exists t u, match_ targets raw = Ok (t, u) /\ validatePath t prepared (Url.EscapedPath u) = Ok ()) <->
  (exists u, parseTicketURL raw = Ok u /\ validateKey (pu_Key prepared) = Ok () /\
             accepted_path targets u (pu_Key prepared)).
Proof.
  intros Hok. unfold match_. destruct (parseTicketURL raw) as [u|] eqn:Eu; cbn [rbind]; [|naive_solver].
  destruct (parseTicketURL_spec _ _ Eu) as (Hp & Hh & _).
  pose proof (escaped_rooted _ _ Hp Hh) as Hr.
  transitivity (validateKey (pu_Key prepared) = Ok () /\ accepted_path targets u (pu_Key prepared));
    [|split; [eauto|intros (? & [= <-] & ?); done]].
  destruct targets as [|t0 ts]; cbn [accepted_path].
  - unfold unpinnedTarget. destruct (String.eqb_spec (Scheme u) "https") as [Es|Es]; cbn [negb rbind].
    + rewrite Es. split.
      * intros (t & u' & [= <- <-] & H). apply validatePath_iff in H; naive_solver.
      * intros (Hk & _ & H). eexists _, _. split; [reflexivity|]. apply validatePath_iff; auto.
    + split; [by intros (? & ? & [=] & _)|naive_solver].
  - destruct (List.find _ _) as [t|] eqn:Ef; [|split; [by intros (? & ? & [=] & _)|naive_solver]].
    assert (target_ok t) as Ht.
    { apply List.find_some in Ef as [Hin _]. apply list_elem_of_In in Hin.
      by apply (proj1 (Forall_forall _ _) Hok). }
    split.
    + intros (t' & u' & [= <- <-] & H). apply validatePath_iff in H; naive_solver.
    + intros (Hk & t' & [= <-] & H). eexists _, _. split; [reflexivity|].
      apply validatePath_iff; auto.
Qed.

(** C7: a ticket is spent exactly when it is a PUT for the prepared object's own id, its signed length
    is the length of the sealed bytes, its path is the exact canonical spelling of the object's key at
    a declared origin (or, with none declared, over https at the root or below one bucket), and its
    headers are one provider's closed set holding the object's digest, its ticket id, all declared
    metadata and nothing else; in whatever order the maps are visited. *)
Theorem ValidateTicket_exact targets prepared ticket :
  Forall target_ok targets ->
  ValidateTicket visit targets prepared ticket = Ok () <->
  (exists u, parseTicketURL (t_URL ticket) = Ok u /\ validateKey (pu_Key prepared) = Ok () /\
             accepted_path targets u (pu_Key prepared)) /\
  pu_ObjectID prepared <> "" /\ t_ObjectID ticket = pu_ObjectID prepared /\ Method ticket = "PUT" /\
  ContentLength ticket = slen (pu_Body prepared) /\ ContentLengthSigned ticket = true /\
  headers_bound prepared ticket.
Proof.
  intros Hok. rewrite <- (match_accepted _ prepared) by done. rewrite <- validateHeaders_iff.
  unfold ValidateTicket. split.
  - intros H. inv_ok. destruct x as [t u]. inv_ok. boolp.
    repeat match goal with u : () |- _ => destruct u end. naive_solver.
  - intros ((t & u & -> & Hp) & Hid & -> & -> & -> & -> & Hh). cbn [rbind].
    apply String.eqb_neq in Hid. rewrite Hid, !String.eqb_refl, Z.eqb_refl. cbn [negb].
    by rewrite Hp.
Qed.

(** With declared origins a URL can only ever spend one key: any two objects whose tickets carry the
    same URL have the same key, the URL's scheme, host and port are those of a declared target, and
    the bytes leave in clear text only towards a loopback host the owner opted in. *)
Theorem pinned_ticket_confined specs targets p1 p2 t1 t2 :
  mapM (fun s => match NewUploadTarget s with Ok t => Some t | Err _ => None end) specs = Some targets ->
  targets <> [] -> t_URL t1 = t_URL t2 ->
  ValidateTicket visit targets p1 t1 = Ok () -> ValidateTicket visit targets p2 t2 = Ok () ->
  pu_Key p1 = pu_Key p2 /\
  exists spec target u, spec ∈ specs /\ NewUploadTarget spec = Ok target /\
    parseTicketURL (t_URL t1) = Ok u /\
    Scheme u = scheme target /\ to_lower (Url.Hostname u) = host target /\
    effectivePort u = port target /\
    Url.EscapedPath u = PathPrefix spec +:+ "/" +:+ canonicalPath (pu_Key p1) /\
    (Scheme u <> "https" -> AllowLoopbackHTTP spec = true /\ isLoopbackHost (host target) = true).
Proof.
  intros Hm Hne Hurl H1 H2. apply mapM_Some in Hm.
  assert (Forall target_ok targets) as Hok.
  { clear -Hm. induction Hm as [|s t ? ? H _ IH]; constructor; [|done].
    destruct (NewUploadTarget s) eqn:E; [|done]. injection H as ->. by apply NewUploadTarget_spec in E as []. }
  apply ValidateTicket_exact in H1 as ((u & Hu & Hk1 & Hp1) & _); [|done].
  apply ValidateTicket_exact in H2 as ((u2 & Hu2 & Hk2 & Hp2) & _); [|done].
  rewrite <- Hurl, Hu in Hu2. injection Hu2 as <-.
  destruct targets as [|t0 ts]; [done|]. cbn [accepted_path] in *.
  destruct Hp1 as (t & Hf & Hn1), Hp2 as (t' & Hf' & Hn2). rewrite Hf in Hf'. injection Hf' as <-.
  apply List.find_some in Hf as [Hin Horig]. apply list_elem_of_In in Hin.
  pose proof (proj1 (Forall_forall _ _) Hok _ Hin) as Ht.
  destruct (parseTicketURL_spec _ _ Hu) as (_ & _ & Hsch).
  destruct (matchesOrigin_pins _ _ Ht Hsch Horig) as (Es & Eh & Ep).
  apply list_elem_of_lookup in Hin as [i Hi]. eapply Forall2_lookup_r in Hm as (spec & Hspec & Hb); [|done].
  destruct (NewUploadTarget spec) as [t'|] eqn:Et; [|done]. injection Hb as ->.
  destruct (NewUploadTarget_spec _ _ Et) as (_ & Ha & Hpre & Hloop).
  apply names_declared in Hn1, Hn2; [|done..]. split.
  - rewrite Hn1 in Hn2. apply (inj (String.append _)), (inj (String.append _)), canonicalPath_inj in Hn2.
    done.
  - exists spec, t, u. rewrite <- Hpre, Es, Eh, Ep. split_and!; try done.
    + apply list_elem_of_lookup. eauto.
    + intros Hs. destruct (ok_scheme _ Ht) as [Hc|[Hhttp Hl]]; [congruence|]. split; [auto|]. by rewrite Eh in Hl.
Qed.
End Accepts.

Module SampleTicket.

Definition spec : TargetSpec :=
  mkTargetSpec "https://Store.example:443/" PathStyle "/bucket" false.
Definition targets : UploadTargetList :=
  match NewUploadTarget spec with Ok t => [t] | Err _ => [] end.

Definition prepared : PreparedUpload :=
  mkPreparedUpload "0" "v1/organization=acme/a.age" "sealed" "d1" (<["source-id" := "claude"]> ∅).
Definition ticket : Ticket :=
  mkTicket "t-1" "0" "PUT" "https://store.example/bucket/v1/organization%3Dacme/a.age?X-Amz-Signature=s"
    None (<["x-amz-meta-source-hash" := "d1"]> (<["x-amz-meta-ticket-id" := "t-1"]>
           (<["x-amz-meta-source-id" := "claude"]> (<["x-amz-tagging" := "class=trajectory"]> ∅))))
    6 true.

Lemma accepted : ValidateTicket map_to_list targets prepared ticket = Ok ().
Proof. vm_compute. reflexivity. Qed.

Lemma ValidateTicket_exact_witness :
  headers_bound prepared ticket /\
  (ValidateTicket map_to_list targets prepared ticket = Ok () -> ContentLength ticket = 6).
Proof.
  assert (Forall target_ok targets) as Hok.
  { apply Forall_singleton. exact (proj1 (NewUploadTarget_spec spec _ eq_refl)). }
  pose proof (proj1 (ValidateTicket_exact map_to_list (fun m => reflexivity _) targets prepared ticket Hok)
    accepted) as H.
  split; [apply H|intros _; apply H].
Defined.

Lemma pinned_ticket_confined_witness :
  targets <> [] /\
  exists u, parseTicketURL (t_URL ticket) = Ok u /\
    Url.EscapedPath u = "/bucket/" +:+ canonicalPath (pu_Key prepared).
Proof.
  split; [done|].
  destruct (pinned_ticket_confined map_to_list (fun m => reflexivity _) [spec] targets prepared prepared
    ticket ticket ltac:(vm_compute; reflexivity) ltac:(done) eq_refl accepted accepted)
    as (_ & s & t & u & Hin & _ & Hu & _ & _ & _ & Hp & _).
  apply list_elem_of_singleton in Hin as ->. exists u. split; [exact Hu|exact Hp].
Defined.

End SampleTicket.
