(* ===== verification/ControlPlane.v ===== *)
(** The control-plane client: [src/internal/controlplane/revocation.go] (the revocation latch and
    its record on disk), [backend.go] (the signed exchange) and [uploads.go] (upload
    authorization). The HTTP round trip, the JSON codec and what the file system answers are the
    world [W], the class [PlaneNet]. *)

From S2P Require Import Prelude GoLib GoJson GoText Vocab.

(** ** The world of the client *)

(** [plane_post] is one POST of a payload under a signature preamble: the status and the bounded
    body, or the transport's error. [enrollment_lock] is [LockEnrollment], [save_file] the atomic
    write of a file: an error, or the write done. *)
Class PlaneNet (W : Type) := {
  plane_post : W -> string -> string -> string -> result error (Z * string) * W;
  plane_now : W -> Z;
  enrollment_lock : W -> option error;
  save_fails : W -> option error
}.

(** ** revocation.go *)

Record Revocation := mkRevocation {
  rv_InstallID : string;
  rv_Organization : string;
  rv_Endpoint : string;
  DetectedAt : option Z;
  Notified : bool
}.
#[global] Instance Revocation_eq_dec : EqDecision Revocation.
Proof. solve_decision. Defined.

(** What is at [revocation.json]: nothing, something unreadable, something that does not decode, or
    a record. *)
Inductive revocation_file :=
  | NoFile
  | Unreadable (e : error)
  | Undecodable (e : error)
  | Holds (r : Revocation).

(** The install's identity as the enrollment record has it. *)
Record Enrollment := mkEnrollment {
  en_InstallID : string;
  en_Organization : string;
  en_Endpoint : string
}.

Definition Revocation_error (r : Revocation) : error :=
  mkError ("This machine's install was revoked from " +:+ rv_Organization r)
    [AsRevocation; ErrCredentialsRefused].

Definition LoadRevocation (file : revocation_file) (enrollment : option Enrollment)
    : result error (option Revocation) :=
  match enrollment with
  | None => Ok None
  | Some e =>
      match file with
      | NoFile => Ok None
      | Unreadable err => Err err
      | Undecodable err => Err (mkError (Error err) (ErrInvalidRevocation :: wraps err))
      | Holds r =>
          if (rv_InstallID r =? "")%string || (rv_Organization r =? "")%string
             || (rv_Endpoint r =? "")%string || bool_decide (DetectedAt r = None)
          then Err (mkError "missing required fields" [ErrInvalidRevocation])
          else if negb (rv_InstallID r =? en_InstallID e)%string
               || negb (rv_Organization r =? en_Organization e)%string
               || negb (trim_suffix "/" (rv_Endpoint r) =? trim_suffix "/" (en_Endpoint e))%string
          then Ok None
          else Ok (Some r)
      end
  end.

(** ** The client *)

(** [deviceKey] is only tested for being present. [revoked] is the in-memory latch and
    [disk] what [stateDir] holds. *)
Record Client := mkClient {
  endpoint : string;
  stateDir : string;
  installID : string;
  organization : string;
  deviceKey : bool
}.

Record plane_state := mkPlane { revoked : option Revocation; disk : revocation_file }.

Definition own_enrollment (c : Client) : Enrollment :=
  mkEnrollment (installID c) (organization c) (endpoint c).

(** [(c *Client) Revocation]: nil, or the error to stop on. *)
Definition client_Revocation (c : Client) (p : plane_state) : option error * plane_state :=
  match revoked p with
  | Some r => (Some (Revocation_error r), p)
  | None =>
      if (stateDir c =? "")%string then (None, p)
      else match LoadRevocation (disk p) (Some (own_enrollment c)) with
           | Err e => (Some e, p)
           | Ok None => (None, p)
           | Ok (Some r) => (Some (Revocation_error r), mkPlane (Some r) (disk p))
           end
  end.

Definition errors_Join (a b : error) : error :=
  mkError (Error a +:+ String "010" (Error b)) (wraps a ++ wraps b).

Section Client.
Context {W : Type} {net : PlaneNet W}.

Definition recordRevocation (c : Client) (w : W) (p : plane_state) : error * plane_state :=
  let r := mkRevocation (installID c) (organization c) (endpoint c) (Some (plane_now w)) false in
  let p := mkPlane (Some r) (disk p) in
  if (stateDir c =? "")%string then (Revocation_error r, p)
  else match enrollment_lock w with
  | Some e => (errors_Join (Revocation_error r) e, p)
  | None =>
      match LoadRevocation (disk p) (Some (own_enrollment c)) with
      | Err e => (errors_Join (Revocation_error r) e, p)
      | Ok (Some previous) => (Revocation_error previous, mkPlane (Some previous) (disk p))
      | Ok None =>
          match save_fails w with
          | Some e => (errors_Join (Revocation_error r) (wrap_error "persist revocation: " e), p)
          | None => (Revocation_error r, mkPlane (Some r) (Holds r))
          end
      end
  end.

Definition StatusForbidden : Z := 403.
Definition revoked_body : string := "this install is revoked".

(** [exchange], of the signed calls: the response, the client's state and the world after. *)
Definition exchange (c : Client) (path preamble payload : string) (p : plane_state) (w : W)
    : result error (Z * string) * plane_state * W :=
  if (installID c =? "")%string || (organization c =? "")%string || negb (deviceKey c)
  then (Err (mkError "backend: this install is not enrolled" [ErrNotEnrolled]), p, w)
  else
    let '(stop, p) := client_Revocation c p in
    match stop with
    | Some e => (Err e, p, w)
    | None =>
        let '(resp, w) := plane_post w path preamble payload in
        match resp with
        | Err e => (Err (wrap_error ("backend: " +:+ path +:+ ": ") e), p, w)
        | Ok (status, raw) =>
            if (status =? StatusForbidden) && (TrimSpace raw =? revoked_body)%string then
              let '(e, p) := recordRevocation c w p in (Err e, p, w)
            else (Ok (status, raw), p, w)
        end
    end.
End Client.

(** ** uploads.go *)

Record UploadMetadata := mkUploadMetadata {
  um_ManifestVersion : string;
  um_SourceID : string;
  um_ShippedHash : string;
  um_ArtifactClass : string;
  um_AgentVersion : string;
  um_ShapeSniff : string;
  um_Derived : string;
  um_EnrichStatus : string;
  um_Kind : string
}.

Record UploadObject := mkUploadObject {
  uo_ObjectID : string;
  uo_Key : string;
  Size : Z;
  uo_SourceHash : string;
  uo_Metadata : UploadMetadata
}.

Record AuthorizeRequest := mkAuthorizeRequest {
  WriterID : string;
  IssuedAt : option Z;
  Objects : list UploadObject
}.

(** A ticket as the plane issued it; [RequiredHeaders] is nil or a map. *)
Record IssuedTicket := mkIssued {
  i_TicketID : string;
  i_ObjectID : string;
  AlreadyPresent : bool;
  i_Method : string;
  i_URL : string;
  i_ExpiresAt : option Z;
  i_RequiredHeaders : option (gmap string string);
  i_ContentLength : Z;
  i_ContentLengthSigned : bool
}.

(** The JSON codec of the two messages. *)
Class PlaneCodec := {
  marshal_request : AuthorizeRequest -> result error string;
  unmarshal_response : string -> result error (list IssuedTicket)
}.

Definition uploadAuthorizePath : string := "/v2/uploads/authorize".
Definition uploadAuthorizePreamble : string :=
  "trajectory-shipper-upload-authorize-v2" +:+ String "010" ("POST" +:+ String "010"
    ("/v2/uploads/authorize" +:+ String "010" "")).

Definition truncate (s : string) (n : nat) : string :=
  if slen s <=? Z.of_nat n then s
  else String.substring 0 n s +:+ String "226" (String "128" (String "166" "")).

(** An already-present answer carries the two ids and nothing else. *)
Definition valid_already_present (t : IssuedTicket) : bool :=
  negb (AlreadyPresent t &&
    ((i_TicketID t =? "")%string || (i_ObjectID t =? "")%string || negb (i_Method t =? "")%string
     || negb (i_URL t =? "")%string || negb (bool_decide (i_ExpiresAt t = None))
     || negb (bool_decide (i_RequiredHeaders t = None)) || negb (i_ContentLength t =? 0)
     || i_ContentLengthSigned t)).

Section Authorize.
Context {W : Type} {net : PlaneNet W} {codec : PlaneCodec}.

(** What a response means, once one arrived. *)
Definition authorize_answer (req : AuthorizeRequest) (status : Z) (raw : string)
    : result error (list IssuedTicket) :=
  let http := " (HTTP " +:+ int_text status +:+ ")" in
  let reason := truncate (TrimSpace raw) 200 in
  if status =? 200 then
    match unmarshal_response raw with
    | Err e => Err (wrap_error "backend: decode: " e)
    | Ok tickets =>
        if negb (Zlen tickets =? Zlen (Objects req))
        then Err (errors_New ("backend: " +:+ uploadAuthorizePath +:+ " issued " +:+
               int_text (Zlen tickets) +:+ " tickets for " +:+ int_text (Zlen (Objects req)) +:+ " objects"))
        else match List.find (fun t => negb (valid_already_present t)) tickets with
             | Some t => Err (errors_New ("backend: invalid already-present answer for object " +:+ i_ObjectID t))
             | None => Ok tickets
             end
    end
  else if (status =? 401) || (status =? StatusForbidden) then
    Err (mkError ("backend: " +:+ uploadAuthorizePath +:+ " refused this install's credentials" +:+ http)
           [ErrCredentialsRefused])
  else if (status =? 429) || (500 <=? status) then
    Err (mkError ("backend: upload authorization is unavailable" +:+ http +:+ ": " +:+ reason)
           [ErrAuthorizeUnavailable])
  else Err (errors_New ("backend: " +:+ uploadAuthorizePath +:+ " returned" +:+ http +:+ ": " +:+ reason)).

Definition AuthorizeUploads (c : Client) (req : AuthorizeRequest) (p : plane_state) (w : W)
    : result error (list IssuedTicket) * plane_state * W :=
  if (WriterID req =? "")%string
  then (Err (errors_New "backend: authorize request carries no writer_id"), p, w)
  else if bool_decide (IssuedAt req = None)
  then (Err (errors_New "backend: authorize request carries no issued_at"), p, w)
  else match Objects req with
  | [] => (Err (errors_New "backend: authorize request carries no objects"), p, w)
  | _ =>
      match marshal_request req with
      | Err e => (Err (wrap_error "backend: encode authorize request: " e), p, w)
      | Ok payload =>
          let '(resp, p, w) := exchange c uploadAuthorizePath uploadAuthorizePreamble payload p w in
          match resp with
          | Err e => (Err e, p, w)
          | Ok (status, raw) => (authorize_answer req status raw, p, w)
          end
      end
  end.
End Authorize.

(** ** The revocation latch *)

Section Latch.
Context {W : Type} {net : PlaneNet W}.

Definition enrolled (c : Client) : Prop :=
  installID c <> "" /\ organization c <> "" /\ deviceKey c = true.

(** A signed call is refused locally: an error that stops the run, and nothing is sent. *)
Definition refuses_locally (c : Client) (p : plane_state) : Prop :=
  forall (w : W) path preamble payload, exists e p',
    exchange c path preamble payload p w = (Err e, p', w).

Lemma exchange_enrolled c : enrolled c ->
  (installID c =? "")%string || (organization c =? "")%string || negb (deviceKey c) = false.
Proof.
  intros (H1%String.eqb_neq & H2%String.eqb_neq & H3). by rewrite H1, H2, H3.
Qed.

Lemma stopped_refuses c p e p' :
  client_Revocation c p = (Some e, p') -> refuses_locally c p.
Proof.
  intros H w path preamble payload. unfold exchange. rewrite H.
  destruct (_ || _); eauto.
Qed.

Lemma LoadRevocation_own c r :
  enrolled c -> endpoint c <> "" -> rv_InstallID r = installID c -> rv_Organization r = organization c ->
  rv_Endpoint r = endpoint c -> DetectedAt r <> None ->
  LoadRevocation (Holds r) (Some (own_enrollment c)) = Ok (Some r).
Proof.
  intros (H1%String.eqb_neq & H2%String.eqb_neq & _) He%String.eqb_neq Ei Eo Ee Hd.
  unfold LoadRevocation, own_enrollment. cbn [en_InstallID en_Organization en_Endpoint].
  rewrite Ei, Eo, Ee, H1, H2, He, !String.eqb_refl, bool_decide_eq_false_2 by done. done.
Qed.

Lemma Is_join_l a b s : Is (Some a) s = true -> Is (Some (errors_Join a b)) s = true.
Proof. cbn. rewrite !bool_decide_eq_true. set_solver. Qed.

Lemma recordRevocation_spec c (w : W) p e p' :
  enrolled c -> endpoint c <> "" -> recordRevocation c w p = (e, p') ->
  Is (Some e) ErrCredentialsRefused = true /\ Is (Some e) AsRevocation = true /\
  (exists r, revoked p' = Some r) /\
  (stateDir c <> "" -> enrollment_lock w = None -> save_fails w = None ->
   exists e', client_Revocation c (mkPlane None (disk p')) = (Some e', p') \/
              client_Revocation c (mkPlane None (disk p')) = (Some e', mkPlane None (disk p'))).
Proof.
  intros Hen He. unfold recordRevocation. cbv zeta. cbn [disk].
  assert (forall r, Is (Some (Revocation_error r)) ErrCredentialsRefused = true /\
                    Is (Some (Revocation_error r)) AsRevocation = true) as HI
    by (intros r; split; reflexivity).
  destruct (String.eqb_spec (stateDir c) "") as [Es|Es].
  { intros [= <- <-]. split_and!; [apply HI..|by eexists|done]. }
  assert (forall f r, LoadRevocation f (Some (own_enrollment c)) = Ok (Some r) ->
    client_Revocation c (mkPlane None f) = (Some (Revocation_error r), mkPlane (Some r) f)) as Hload.
  { intros f r H. unfold client_Revocation. cbn [revoked disk]. apply String.eqb_neq in Es.
    by rewrite Es, H. }
  destruct (enrollment_lock w) as [el|] eqn:El.
  { intros [= <- <-]. split_and!; [apply Is_join_l, HI..|by eexists|done]. }
  destruct (LoadRevocation (disk p) (Some (own_enrollment c))) as [[prev|]|el] eqn:Ef.
  - intros [= <- <-]. split_and!; [apply HI..|by eexists|]. intros _ _ _. eexists. left. by apply Hload.
  - destruct (save_fails w) as [es|] eqn:Ew; intros [= <- <-].
    + split_and!; [apply Is_join_l, HI..|by eexists|done].
    + split_and!; [apply HI..|by eexists|]. intros _ _ _. eexists. left. apply Hload.
      by apply LoadRevocation_own.
  - intros [= <- <-]. split_and!; [apply Is_join_l, HI..|by eexists|]. intros _ _ _. exists el. right.
    unfold client_Revocation. cbn [revoked disk]. apply String.eqb_neq in Es. by rewrite Es, Ef.
Qed.

Lemma forbidden_latches c path preamble payload p (w : W) raw w' :
  enrolled c -> endpoint c <> "" ->
  client_Revocation c p = (None, p) -> plane_post w path preamble payload = (Ok (403, raw), w') ->
  TrimSpace raw = revoked_body ->
  exists e p', exchange c path preamble payload p w = (Err e, p', w') /\
    Is (Some e) ErrCredentialsRefused = true /\ Is (Some e) AsRevocation = true /\
    refuses_locally c p' /\
    (stateDir c <> "" -> enrollment_lock w' = None -> save_fails w' = None ->
     refuses_locally c (mkPlane None (disk p'))).
Proof.
  intros Hen He Hr Hp Hraw. unfold exchange. rewrite exchange_enrolled, Hr, Hp, Hraw by done. cbn [andb].
  rewrite Z.eqb_refl, String.eqb_refl. cbn [andb].
  destruct (recordRevocation c w' p) as [e p'] eqn:E.
  destruct (recordRevocation_spec _ _ _ _ _ Hen He E) as (H1 & H2 & [r Hrev] & Hdisk).
  exists e, p'. split_and!; try done.
  - apply (stopped_refuses _ _ (Revocation_error r) p'). unfold client_Revocation. by rewrite Hrev.
  - intros Hs Hl Hf. destruct (Hdisk Hs Hl Hf) as [e' [H|H]]; by eapply stopped_refuses.
Qed.

(** Once the plane has answered that the install is revoked, the call fails as a refusal of the
    credentials and no later signed call of this process reaches the network; and when the record
    could be saved, neither does any of a restarted process. *)
Theorem revocation_latches c path preamble payload p (w : W) raw w' :
  enrolled c -> endpoint c <> "" ->
  client_Revocation c p = (None, p) -> plane_post w path preamble payload = (Ok (403, raw), w') ->
  TrimSpace raw = revoked_body ->
  exists e p', exchange c path preamble payload p w = (Err e, p', w') /\
    Is (Some e) ErrCredentialsRefused = true /\ Is (Some e) AsRevocation = true /\
    refuses_locally c p' /\
    (stateDir c <> "" -> enrollment_lock w' = None -> save_fails w' = None ->
     refuses_locally c (mkPlane None (disk p'))).
Proof. apply forbidden_latches. Qed.
End Latch.

Module SamplePlane.

(** A plane that refuses the install for good; the world counts the requests it saw. *)
#[export] Instance revoking : PlaneNet nat := {|
  plane_post := fun w _ _ _ => (Ok (403, "this install is revoked" +:+ String "010" ""), S w);
  plane_now := fun _ => 1790000000;
  enrollment_lock := fun _ => None;
  save_fails := fun _ => None
|}.

Definition client : Client := mkClient "https://plane.example" "/state" "install-1" "acme" true.

Lemma revocation_latches_witness :
  enrolled client /\
  exists e p', exchange client "/v1/config" "" "{}" (mkPlane None NoFile) 0%nat = (Err e, p', 1%nat) /\
    Is (Some e) ErrCredentialsRefused = true /\ refuses_locally client (mkPlane None (disk p')).
Proof.
  assert (enrolled client) as Hen by (unfold enrolled; cbn; split_and!; done).
  split; [done|].
  destruct (revocation_latches client "/v1/config" "" "{}" (mkPlane None NoFile) 0%nat _ 1%nat Hen
    ltac:(done) eq_refl eq_refl ltac:(vm_compute; reflexivity)) as (e & p' & H & H1 & _ & _ & H2).
  exists e, p'. split_and!; try done. by apply H2.
Defined.

End SamplePlane.
