(* ===== verification/Spec.v ===== *)
(** What the engine sees of [src/internal/sources]: a compiled source and its resolved form
    ([spec.go]), what discovery hands over ([gather.go]: candidates, payloads, discoveries), the
    state key of a candidate, and the fingerprint of a source's specification. *)

From S2P Require Import Prelude GoLib Crypto GoJson Vocab StateDoc.

(** ** Sources *)

Record SniffSpec := mkSniffSpec { Kind : string; MagicHex : string; MaxScanBytes : Z }.
Record IdentityRule := mkIdentityRule { Match : string; ir_Key : string }.

Record Source := mkSource {
  src_ID : string;
  Description : string;
  src_Enabled : option bool;
  Gather : string;
  ArtifactClass : string;
  Roots : list string;
  RequireSubdir : string;
  Include : list string;
  Exclude : list string;
  MaxFileBytes : Z;
  src_Sniff : option SniffSpec;
  Enrichers : gmap string bool;
  src_Scrub : option bool;
  src_Identity : option IdentityRule;
  Emit : string;
  Family : string
}.

Definition IsEnabledByDefault (s : Source) : bool := default true (src_Enabled s).

Record Resolved := mkResolved {
  source : Source;
  Root : string;
  RootUnresolvedReason : string;
  Enabled : bool;
  res_SpecFingerprint : string
}.

(** ** The specification fingerprint *)

Definition write_component (label : string) (values : list string) : string :=
  label +:+ ":" +:+ int_text (Zlen values) +:+ ":" +:+
  foldr (fun v r => int_text (slen v) +:+ ":" +:+ v +:+ r) "" values.

Definition spec_text (s : Source) : string :=
  write_component "gather" [Gather s] +:+
  write_component "roots" (Roots s) +:+
  write_component "require_subdir" [RequireSubdir s] +:+
  write_component "include" (Include s) +:+
  write_component "exclude" (Exclude s) +:+
  write_component "emit" [Emit s] +:+
  match src_Identity s with
  | Some i => write_component "identity" [Match i; ir_Key i]
  | None => ""
  end.

Definition SpecFingerprint (s : Source) : string := sha256_hex (spec_text s).

(** ** Discovery's results *)

(** [Compare] is nil or bytes. *)
Record Payload := mkPayload {
  Bytes : string;
  pl_MTime : Z;
  Warning : string;
  Compare : option string
}.

(** [Load] is what calling the candidate's loader returns, [frame_size] what [singleFrameSize]
    reads in its header (nothing when the file does not open or is not one sized frame). *)
Record Candidate := mkCandidate {
  CWD : string;
  cand_Repository : option Repository;
  AlwaysLoad : bool;
  Path : string;
  RelPath : string;
  cand_Identity : string;
  Series : string;
  Load : result error Payload;
  Size : Z;
  MTime : Z;
  frame_size : option Z
}.

Record OversizeFile := mkOversize { ov_RelPath : string; ov_Size : Z; Limit : Z }.

Record Discovery := mkDiscovery {
  disc_Health : option HealthState;
  disc_Oversize : list OversizeFile;
  disc_Unreadable : Z;
  disc_UnreadableExample : string;
  disc_UnreadableReason : string;
  disc_Sniff : SniffResult;
  disc_AgentVersion : string;
  Candidates : list Candidate;
  disc_Reason : string;
  disc_SniffFailures : Z;
  disc_Ignored : bool
}.

Definition KeyOf (sourceID : string) (c : Candidate) : Key :=
  mkKey sourceID (str_or (cand_Identity c) (str_or (Series c) (Path c))).

Definition IsZstd (path : string) : bool := has_suffix ".zst" path.

Definition LoadBytes (c : Candidate) (maxBytes : Z) : Z :=
  if negb (IsZstd (Path c)) || (maxBytes <=? 0) then Size c
  else match frame_size c with
       | Some size => if size <? maxBytes then size else maxBytes
       | None => maxBytes
       end.

(** ** The fingerprinted text determines every field it is made of *)

(** The decimal value of a digit string, and that [int_text] writes it. *)
Fixpoint text_value (s : string) (acc : Z) : Z :=
  match s with "" => acc | String c r => text_value r (10 * acc + (byte_code c - 48)) end.

Lemma nat_text_value fuel n s acc :
  0 <= n < 10 ^ Z.of_nat fuel -> (fuel <> O) ->
  text_value (nat_text fuel n s) acc
  = text_value s (acc * 10 ^ (slen (nat_text fuel n s) - slen s) + n) /\
  slen s <= slen (nat_text fuel n s).
Proof.
  revert n s acc; induction fuel as [|fuel IH]; intros n s acc Hn Hf; [done|].
  cbn [nat_text]. set (c := byte_of (48 + n mod 10)).
  assert (byte_code c - 48 = n mod 10) as Hc.
  { unfold c. rewrite byte_code_of; [lia|]. pose proof (Z.mod_pos_bound n 10). lia. }
  assert (slen (String c s) = slen s + 1) as Hlen by (unfold slen; cbn [String.length]; lia).
  destruct (Z.ltb_spec n 10).
  - cbn [text_value]. rewrite Hlen, Hc. replace (slen s + 1 - slen s) with 1 by lia.
    rewrite Z.mod_small by lia. split; [f_equal; lia|lia].
  - assert (fuel <> O) as Hf' by (intros ->; cbn in Hn; lia).
    destruct (IH (n / 10) (String c s) acc) as [-> Hge]; [|done|].
    + split; [apply Z.div_pos; lia|]. apply Z.div_lt_upper_bound; [lia|].
      rewrite <- Z.pow_succ_r, <- Nat2Z.inj_succ by lia. apply Hn.
    + cbn [text_value]. rewrite Hc, Hlen in *. split; [|lia]. f_equal.
      set (k := slen (nat_text fuel (n / 10) (String c s))) in *.
      replace (k - slen s) with (Z.succ (k - (slen s + 1))) by lia.
      rewrite Z.pow_succ_r by lia. pose proof (Z.div_mod n 10). lia.
Qed.

Lemma int_text_value n : 0 <= n -> text_value (int_text n) 0 = n.
Proof.
  intros Hn. unfold int_text. destruct (Z.ltb_spec n 0); [lia|].
  destruct (nat_text_value (S (Z.to_nat (Z.log2 n))) n "" 0) as [-> _]; [|done|cbn [text_value]; lia].
  split; [done|]. destruct (Z.eq_dec n 0) as [->|]; [done|].
  pose proof (Z.log2_spec n). pose proof (Z.log2_nonneg n).
  replace (Z.of_nat (S (Z.to_nat (Z.log2 n)))) with (Z.succ (Z.log2 n)) by lia.
  eapply Z.lt_le_trans; [apply H0; lia|]. apply Z.pow_le_mono_l. lia.
Qed.

Lemma nat_text_digits fuel n s :
  str_forallb is_digit s = true -> str_forallb is_digit (nat_text fuel n s) = true.
Proof.
  revert n s; induction fuel as [|fuel IH]; intros n s Hs; [done|]. cbn [nat_text].
  assert (str_forallb is_digit (String (byte_of (48 + n mod 10)) s) = true) as Hc.
  { cbn [str_forallb]. rewrite Hs, andb_true_r. unfold is_digit, in_range.
    pose proof (Z.mod_pos_bound n 10). rewrite byte_code_of by lia.
    change (byte_code "0") with 48. change (byte_code "9") with 57.
    apply andb_true_iff. split; apply Z.leb_le; lia. }
  destruct (n <? 10); [done|]. by apply IH.
Qed.

Lemma int_text_no_colon n : 0 <= n -> no_byte ":" (int_text n) = true.
Proof.
  intros Hn. unfold int_text. destruct (Z.ltb_spec n 0); [lia|].
  apply (str_forallb_impl is_digit); [|by apply nat_text_digits].
  intros c Hc. destruct (c =? ":")%char eqn:E; [|done]. apply Ascii.eqb_eq in E as ->. done.
Qed.

Lemma colon_split a b r r' :
  no_byte ":" a = true -> no_byte ":" b = true ->
  a +:+ ":" +:+ r = b +:+ ":" +:+ r' -> a = b /\ r = r'.
Proof.
  revert b; induction a as [|c a IH]; intros [|d b] Ha Hb H; cbn in *.
  - by injection H as ->.
  - injection H as <- _. cbn in Hb. discriminate.
  - injection H as -> _. cbn in Ha. discriminate.
  - injection H as <- H. boolp. destruct (IH b) as [-> ->]; done.
Qed.

Lemma int_text_split n m r r' :
  0 <= n -> 0 <= m -> int_text n +:+ ":" +:+ r = int_text m +:+ ":" +:+ r' -> n = m /\ r = r'.
Proof.
  intros Hn Hm H. apply colon_split in H as [H ->]; try by apply int_text_no_colon.
  split; [|done]. by rewrite <- (int_text_value n), <- (int_text_value m), H.
Qed.

Lemma append_split a b r r' : slen a = slen b -> a +:+ r = b +:+ r' -> a = b /\ r = r'.
Proof.
  unfold slen. revert b; induction a as [|c a IH]; intros [|d b] Hl H; cbn in *; try lia; [done|].
  injection H as -> H. destruct (IH b) as [-> ->]; [lia|done|done].
Qed.

Lemma component_values_split l l' r r' :
  length l = length l' ->
  foldr (fun v r => int_text (slen v) +:+ ":" +:+ v +:+ r) "" l +:+ r
  = foldr (fun v r => int_text (slen v) +:+ ":" +:+ v +:+ r) "" l' +:+ r' ->
  l = l' /\ r = r'.
Proof.
  revert l'; induction l as [|v l IH]; intros [|v' l'] Hl H; try discriminate Hl; [done|].
  cbn [foldr] in H. rewrite !string_app_assoc in H.
  apply int_text_split in H as [Hs H]; [|apply slen_nonneg..].
  apply append_split in H as [-> H]; [|done].
  apply IH in H as [-> ->]; [done|]. by injection Hl.
Qed.

Lemma write_component_split label l l' r r' :
  write_component label l +:+ r = write_component label l' +:+ r' -> l = l' /\ r = r'.
Proof.
  unfold write_component. rewrite !string_app_assoc. intros H.
  apply append_split in H as [_ H]; [|done].
  injection H as H. apply int_text_split in H as [Hn H]; [|apply Zlen_nonneg..].
  apply component_values_split in H; [done|]. unfold Zlen in Hn. lia.
Qed.

(** The specification fingerprint is taken over a text that no other reading can produce: two
    sources with the same text gather the same way, from the same roots, with the same patterns,
    emit key and identity rule. *)
Theorem spec_text_injective s s' :
  spec_text s = spec_text s' ->
  Gather s = Gather s' /\ Roots s = Roots s' /\ RequireSubdir s = RequireSubdir s' /\
  Include s = Include s' /\ Exclude s = Exclude s' /\ Emit s = Emit s' /\
  src_Identity s = src_Identity s'.
Proof.
  unfold spec_text. intros H.
  do 6 (apply write_component_split in H as [? H]).
  split_and!; try congruence.
  destruct (src_Identity s) as [[m k]|], (src_Identity s') as [[m' k']|]; try done.
  cbn [Match ir_Key] in H.
  rewrite <- (string_app_nil_r (write_component _ [m; k])),
    <- (string_app_nil_r (write_component _ [m'; k'])) in H.
  apply write_component_split in H as [[= -> ->] _]. done.
Qed.

Definition sample_source (root : string) : Source :=
  mkSource "a" "" None "files" "transcript" [root] "" ["**"] [] 0 None ∅ None None "" "f".

Lemma spec_text_injective_witness :
  let s := sample_source "~/.a" in let s' := mkSource "b" "other" (Some false) "files" "x" ["~/.a"] "" ["**"] [] 5 None ∅ None None "" "g" in
  spec_text s = spec_text s' /\
  Gather s = Gather s' /\ Roots s = Roots s' /\ RequireSubdir s = RequireSubdir s' /\
  Include s = Include s' /\ Exclude s = Exclude s' /\ Emit s = Emit s' /\
  src_Identity s = src_Identity s'.
Proof.
  intros s s'. split; [reflexivity|]. apply (spec_text_injective s s'). reflexivity.
Defined.
