(* ===== verification/Upload.v ===== *)
(** The write path ([src/internal/engine/upload.go]) and the results a source pass exchanges
    ([pool.go], [file.go]): sealed objects, groups bounded by the batcher, one authorization with at
    most one reauthorization, and the verdict-to-decision map. The port is an interface: [UploadPort]
    is its operation, [UploadPortLaws] what [VendPort] promises of it. *)

From S2P Require Import Prelude GoLib GoJson Vocab StateDoc Spec.

(** ** What a source pass exchanges *)

Inductive intentKind := intentNone | intentRefresh | intentShipped | intentBackoff.
#[global] Instance intentKind_eq_dec : EqDecision intentKind.
Proof. solve_decision. Defined.

Record intent := mkIntent {
  kind : intentKind;
  in_key : Key;
  in_fp : Fingerprint;
  reason : string
}.
Definition no_intent : intent := mkIntent intentNone (mkKey "" "") zero_fp "".

Record RawUnit := mkRawUnit {
  unit_NativePath : string;
  Content : string;
  unit_SourceHash : string
}.

(** A sealed object waiting for an upload slot. [md] is nil or a map. *)
Record pendingPut := mkPendingPut {
  pp_key : Key;
  objectKey : string;
  obj : string;
  md : option (gmap string string);
  next : Fingerprint
}.

(** [pending] is not a field here: the compute leg returns it beside the result. *)
Record fileResult := mkFileResult {
  idx : nat;
  outcome : FileOutcome;
  r_intent : intent;
  unit_ : option RawUnit;
  unavailable : bool;
  offline : bool;
  loadWarning : string
}.

Definition set_outcome (o : FileOutcome) (r : fileResult) : fileResult :=
  mkFileResult (idx r) o (r_intent r) (unit_ r) (unavailable r) (offline r) (loadWarning r).
Definition set_intent (i : intent) (r : fileResult) : fileResult :=
  mkFileResult (idx r) (outcome r) i (unit_ r) (unavailable r) (offline r) (loadWarning r).

Record stagedUpload := mkStaged { st_res : fileResult; st_pending : pendingPut }.

(** ** The batcher *)

Definition maxBatchObjects : Z := 32.
Definition maxBatchBytes : Z := Z.shiftl 64 20.

(** [maxObjects] is fixed per pass. What [send] is called with is returned, in order. *)
Record batcher := mkBatcher { items : list stagedUpload; bytes : Z }.
Definition empty_batcher : batcher := mkBatcher [] 0.

Definition take_items (b : batcher) : list stagedUpload * batcher := (items b, empty_batcher).

Definition batcher_flush (b : batcher) : list (list stagedUpload) * batcher :=
  let '(held, b) := take_items b in
  (match held with [] => [] | _ => [held] end, b).

Definition add (maxObjects : Z) (it : stagedUpload) (size : Z) (b : batcher)
    : list (list stagedUpload) * batcher :=
  let '(sent1, b) :=
    if (0 <? Zlen (items b)) && (maxBatchBytes <? bytes b + size) then batcher_flush b
    else ([], b) in
  let b := mkBatcher (items b ++ [it]) (bytes b + size) in
  let '(sent2, b) :=
    if (maxObjects <=? Zlen (items b)) || (maxBatchBytes <=? bytes b) then batcher_flush b
    else ([], b) in
  (sent1 ++ sent2, b).

(** ** The port *)

Record PreparedObject := mkPrepared {
  ObjectID : string;
  po_Key : string;
  Body : string;
  po_SourceHash : string;
  Metadata : gmap string string
}.

(** One call of the port against the world it talks to: an outcome per object, nil for a confirmed
    PUT, and the world after. *)
Class UploadPort (W : Type) :=
  AuthorizeAndUpload : W -> list PreparedObject -> list (option error) * W.

(** What an implementation promises: one outcome per input object. *)
Class UploadPortLaws (W : Type) `{!UploadPort W} : Prop :=
  port_answers_each : forall w batch, length (AuthorizeAndUpload w batch).1 = length batch.

Definition preparedFrom (i : nat) (key body : string) (m : option (gmap string string))
    : PreparedObject :=
  let m := default ∅ m in
  mkPrepared (int_text (Z.of_nat i)) key body (default "" (m !! "source-hash"))
    (delete "source-hash" m).

Definition with_id (i : nat) (o : PreparedObject) : PreparedObject :=
  mkPrepared (int_text (Z.of_nat i)) (po_Key o) (Body o) (po_SourceHash o) (Metadata o).

Definition prepared_batch (its : list stagedUpload) : list PreparedObject :=
  imap (fun i it => preparedFrom i (objectKey (st_pending it)) (obj (st_pending it))
                      (md (st_pending it))) its.

(** The positions whose ticket had expired. *)
Definition expired_at (outcomes : list (option error)) : list nat :=
  filter (fun i => Is_true (Is (default None (outcomes !! i)) ErrTicketExpired))
    (seq 0 (length outcomes)).

(** The group with the verdicts of the second call written over the expired ones. *)
Definition overwrite (outcomes : list (option error)) (l : list (nat * option error))
    : list (option error) :=
  foldl (fun acc p => <[p.1 := p.2]> acc) outcomes l.

Definition port_mismatch (got want : nat) (what : string) : error :=
  errors_New ("engine: the upload port answered " +:+ int_text (Z.of_nat got) +:+
    " outcomes for " +:+ int_text (Z.of_nat want) +:+ what).

Section Send.
Context {W : Type} `{!UploadPort W}.

Definition authorizeAndUpload (w : W) (its : list stagedUpload) : list (option error) * W :=
  let batch := prepared_batch its in
  let '(outcomes, w) := AuthorizeAndUpload w batch in
  if negb (length outcomes =? length batch)%nat
  then (replicate (length batch)
          (Some (port_mismatch (length outcomes) (length batch) " objects")), w)
  else
    let expired := expired_at outcomes in
    match expired with
    | [] => (outcomes, w)
    | _ =>
        let again := imap (fun i at_ => with_id i (default (mkPrepared "" "" "" "" ∅) (batch !! at_)))
                       expired in
        let '(second_, w) := AuthorizeAndUpload w again in
        if negb (length second_ =? length again)%nat
        then
          let err := port_mismatch (length second_) (length again) " reauthorized objects" in
          (overwrite outcomes (map (fun at_ => (at_, Some err)) expired), w)
        else (overwrite outcomes (zip expired second_), w)
    end.
End Send.

(** ** Verdicts *)

Definition stopsRun (err : option error) : bool :=
  Is err ErrCredentialsRefused || Is err ErrUploadUnavailable || Is err ErrOffline.

Definition alreadyPresentReason : string :=
  "no bytes sent: the control plane answered that the archive already holds this object".

Definition applyUploadOutcome (it : stagedUpload) (oc : option error) : fileResult :=
  let r := st_res it in
  let present := Is oc ErrAlreadyPresent in
  match oc with
  | Some e =>
      if negb present then
        let out := set_fatal (Is oc ErrCredentialsRefused)
                     (set_decision DecisionFailed (Error e) (outcome r)) in
        let off := Is oc ErrOffline in
        mkFileResult (idx r) out (r_intent r) (unit_ r)
          (Is oc ErrUploadUnavailable || off) off (loadWarning r)
      else
        set_intent (mkIntent intentShipped (pp_key (st_pending it)) (next (st_pending it)) "")
          (set_outcome (set_decision DecisionShipped alreadyPresentReason (outcome r)) r)
  | None =>
      set_intent (mkIntent intentShipped (pp_key (st_pending it)) (next (st_pending it)) "")
        (set_outcome (set_decision DecisionShipped (fo_Reason (outcome r)) (outcome r)) r)
  end.

(** [sourcePass.abandon]; [fatal] and [haltReason] are the pass's latches. *)
Definition abandon (fatal : bool) (haltReason : string) (it : stagedUpload) : fileResult :=
  let r := st_res it in
  let why := if fatal then "not attempted: this install's credentials were refused"
             else "not attempted: " +:+ haltReason in
  mkFileResult (idx r) (set_fatal fatal (set_decision DecisionFailed why (outcome r)))
    (r_intent r) (unit_ r) (negb fatal) (offline r) (loadWarning r).

Definition sendBatch {W} `{!UploadPort W} (w : W) (its : list stagedUpload)
    : list fileResult * W :=
  let '(outcomes, w) := authorizeAndUpload w its in
  (imap (fun i it => applyUploadOutcome it (default None (outcomes !! i))) its, w).

(** ** Groups *)

Definition isize (it : stagedUpload) : Z := slen (obj (st_pending it)).

Definition group_ok (maxObjects : Z) (g : list stagedUpload) : Prop :=
  g <> [] /\ Zlen g <= maxObjects /\
  (Zsum (map isize g) <= maxBatchBytes \/ length g = 1%nat).

Definition held_ok (maxObjects : Z) (b : batcher) : Prop :=
  Zlen (items b) < maxObjects /\ bytes b = Zsum (map isize (items b)) /\ bytes b < maxBatchBytes.

Lemma empty_held_ok maxObjects : 0 < maxObjects -> held_ok maxObjects empty_batcher.
Proof. intros H. unfold held_ok. cbn. split_and!; [done|done|reflexivity]. Qed.

Lemma isize_nonneg it : 0 <= isize it.
Proof. apply slen_nonneg. Qed.

Lemma Zsum_isize_nonneg l : 0 <= Zsum (map isize l).
Proof.
  apply Zsum_nonneg. apply List.Forall_map, Forall_forall. intros x _. apply isize_nonneg.
Qed.

Lemma batcher_flush_spec maxObjects b sent b' :
  batcher_flush b = (sent, b') -> held_ok maxObjects b \/ group_ok maxObjects (items b) ->
  b' = empty_batcher /\ mjoin sent = items b /\ Forall (group_ok maxObjects) sent.
Proof.
  unfold batcher_flush, take_items. intros [= <- <-] H.
  destruct (items b) as [|x l] eqn:E; split_and!; try done; [by rewrite <- app_nil_r|].
  apply Forall_singleton. destruct H as [(H1 & H2 & H3)|H]; [|done].
  rewrite E in *. split_and!; [done|lia|left; lia].
Qed.

Lemma add_spec maxObjects it b sent b' :
  0 < maxObjects -> held_ok maxObjects b -> add maxObjects it (isize it) b = (sent, b') ->
  held_ok maxObjects b' /\ mjoin sent ++ items b' = items b ++ [it] /\
  Forall (group_ok maxObjects) sent.
Proof.
  intros Hm Hb. unfold add.
  set (first := if _ && _ then batcher_flush b else ([], b)).
  assert (exists s1 b1, first = (s1, b1) /\ held_ok maxObjects b1 /\ mjoin s1 ++ items b1 = items b /\
    Forall (group_ok maxObjects) s1 /\
    (items b1 = [] \/ bytes b1 + isize it <= maxBatchBytes)) as (s1 & b1 & -> & Hb1 & Hj1 & Hg1 & Hfit).
  { unfold first. destruct ((0 <? _) && _) eqn:E.
    - destruct (batcher_flush b) as [s1 b1] eqn:Hf.
      destruct (batcher_flush_spec maxObjects _ _ _ Hf) as (-> & Hj & Hg); [by left|].
      exists s1, empty_batcher. cbn. rewrite app_nil_r. split_and!; auto using empty_held_ok.
    - exists [], b. split_and!; try done. apply andb_false_iff in E as [E|E]; boolp; [left|right; done].
      destruct (items b); [done|]. rewrite Zlen_cons in E. pose proof (Zlen_nonneg l). lia. }
  destruct Hb1 as (Hl & Hby & Hmax). pose proof (Zsum_isize_nonneg (items b1)) as Hpos.
  assert (group_ok maxObjects (items b1 ++ [it])) as Hgrp.
  { split_and!; [by destruct (items b1)|autorewrite with shipper; lia|].
    rewrite map_app, Zsum_app. cbn [map Zsum foldr].
    destruct Hfit as [->|Hfit]; [by right|left]. unfold Zsum in *. cbn. lia. }
  destruct ((maxObjects <=? _) || _) eqn:E.
  - destruct (batcher_flush _) as [s2 b2] eqn:Hf.
    apply (batcher_flush_spec maxObjects) in Hf as (-> & Hj & Hg); [|by right].
    intros [= <- <-]. cbn [items] in Hj. split_and!; [by apply empty_held_ok| |by apply Forall_app].
    cbn [items empty_batcher]. rewrite app_nil_r, join_app, Hj, <- Hj1. by rewrite app_assoc.
  - intros [= <- <-]. cbn in E. boolp. unfold held_ok. cbn.
    rewrite app_nil_r. split_and!; [lia|rewrite map_app, Zsum_app; cbn; lia|lia| |done].
    by rewrite app_assoc, Hj1.
Qed.

(** Adding objects one after another; what is sent, oldest group first. *)
Fixpoint add_all (maxObjects : Z) (its : list stagedUpload) (b : batcher)
    : list (list stagedUpload) * batcher :=
  match its with
  | [] => ([], b)
  | it :: its =>
      let '(sent1, b) := add maxObjects it (isize it) b in
      let '(sent2, b) := add_all maxObjects its b in
      (sent1 ++ sent2, b)
  end.

(** An authorization group never breaks the protocol's bounds: at most [maxObjects] objects
    and 64 MiB of ciphertext, unless one object alone is larger; and the groups sent, then what is
    still held, are exactly the objects staged, in order, none lost and none twice. *)
Theorem batcher_groups_bounded maxObjects its b sent b' :
  0 < maxObjects -> held_ok maxObjects b -> add_all maxObjects its b = (sent, b') ->
  Forall (group_ok maxObjects) sent /\ held_ok maxObjects b' /\
  mjoin sent ++ items b' = items b ++ its.
Proof.
  intros Hm. revert b sent; induction its as [|it its IH]; intros b sent Hb H; cbn [add_all] in H.
  - injection H as <- <-. cbn. by rewrite app_nil_r.
  - destruct (add maxObjects it (isize it) b) as [s1 b1] eqn:Ha.
    destruct (add_all maxObjects its b1) as [s2 b2] eqn:Hr. injection H as <- <-.
    apply add_spec in Ha as (Hb1 & Hj1 & Hg1); [|done..].
    destruct (IH _ _ Hb1 Hr) as (Hg & Hb2 & Hj). split_and!; [by apply Forall_app|done|].
    rewrite join_app, <- app_assoc, Hj, app_assoc, Hj1, <- app_assoc. done.
Qed.

Definition sample_staged (key : string) (body : string) : stagedUpload :=
  mkStaged (mkFileResult 0 zero_outcome no_intent None false false "")
    (mkPendingPut (mkKey "a" key) key body None zero_fp).

Lemma batcher_groups_bounded_witness :
  let its := [sample_staged "x" "abc"; sample_staged "y" "d"; sample_staged "z" "e"] in
  let r := add_all 2 its empty_batcher in
  Forall (group_ok 2) r.1 /\ held_ok 2 r.2 /\ mjoin r.1 ++ items r.2 = items empty_batcher ++ its.
Proof.
  intros its r. apply (batcher_groups_bounded 2 its empty_batcher r.1 r.2).
  - lia.
  - apply empty_held_ok. lia.
  - reflexivity.
Defined.

(** ** One authorization and at most one more *)

Lemma int_text_inj n m : int_text (Z.of_nat n) = int_text (Z.of_nat m) -> n = m.
Proof.
  intros H. apply (f_equal (fun s => text_value s 0)) in H.
  rewrite !int_text_value in H by lia. lia.
Qed.

(** Objects numbered by position have distinct ids. *)
Lemma numbered_NoDup {A} (f : nat -> A -> PreparedObject) (l : list A) :
  (forall i x, ObjectID (f i x) = int_text (Z.of_nat i)) -> NoDup (map ObjectID (imap f l)).
Proof.
  intros Hf. apply NoDup_alt. intros i j o Hi Hj.
  change (map ObjectID (imap f l)) with (ObjectID <$> imap f l) in *.
  rewrite list_lookup_fmap, list_lookup_imap in Hi, Hj.
  destruct (l !! i), (l !! j); try done. cbn in Hi, Hj. rewrite Hf in Hi, Hj.
  apply int_text_inj. congruence.
Qed.

Lemma overwrite_length outs l : length (overwrite outs l) = length outs.
Proof.
  unfold overwrite. revert outs; induction l as [|p l IH]; intros outs; cbn [foldl]; [done|].
  by rewrite IH, length_insert.
Qed.

Lemma overwrite_other outs l i : i ∉ l.*1 -> overwrite outs l !! i = outs !! i.
Proof.
  unfold overwrite. revert outs; induction l as [|[j v] l IH]; intros outs Hi; [done|].
  cbn in *. rewrite IH by set_solver. apply list_lookup_insert_ne. set_solver.
Qed.

Lemma overwrite_hit outs l i v :
  NoDup l.*1 -> (i, v) ∈ l -> (i < length outs)%nat -> overwrite outs l !! i = Some v.
Proof.
  unfold overwrite. revert outs; induction l as [|[j u] l IH]; intros outs Hn Hin Hi;
    [by apply not_elem_of_nil in Hin|].
  cbn in *. apply NoDup_cons in Hn as [Hj Hn]. apply elem_of_cons in Hin as [[= <- <-]|Hin].
  - etransitivity; [by apply overwrite_other|]. by apply list_lookup_insert_eq.
  - apply IH; [done|done|]. by rewrite length_insert.
Qed.

Lemma expired_at_spec outs i :
  i ∈ expired_at outs <-> Is (default None (outs !! i)) ErrTicketExpired = true.
Proof.
  unfold expired_at. rewrite list_elem_of_filter, elem_of_seq, Is_true_true. split; [by intros [? _]|].
  intros H. split; [done|]. destruct (outs !! i) eqn:E; [|done].
  apply lookup_lt_Some in E. lia.
Qed.

Lemma expired_at_NoDup outs : NoDup (expired_at outs).
Proof. apply NoDup_filter, NoDup_seq. Qed.

Lemma expired_at_bound outs i : i ∈ expired_at outs -> (i < length outs)%nat.
Proof. unfold expired_at. rewrite list_elem_of_filter, elem_of_seq. lia. Qed.

(** The port with every call written down. *)
#[global] Instance logged_port (W : Type) `{!UploadPort W} : UploadPort (W * list (list PreparedObject)) :=
  fun st batch =>
    let '(outs, w) := AuthorizeAndUpload st.1 batch in (outs, (w, st.2 ++ [batch])).

Section Twice.
Context {W : Type} `{!UploadPort W, !UploadPortLaws W}.

(** A group is authorized once, and at most once more: the second call carries exactly the
    objects whose ticket had expired, renumbered; each object's verdict is the last one it was
    given, whatever it says, and there is one verdict per object. *)
Theorem authorize_at_most_twice w its outs w' calls :
  authorizeAndUpload (w, []) its = (outs, (w', calls)) ->
  let batch := prepared_batch its in
  let '(first, w1) := AuthorizeAndUpload w batch in
  length outs = length its /\ Forall (fun c => NoDup (map ObjectID c)) calls /\
  ((expired_at first = [] /\ calls = [batch] /\ outs = first) \/
   (exists again second_, calls = [batch; again] /\ AuthorizeAndUpload w1 again = (second_, w') /\
      length again = length (expired_at first) /\
      (forall j i, expired_at first !! j = Some i ->
         again !! j = with_id j <$> batch !! i /\ outs !! i = second_ !! j) /\
      (forall i, i ∉ expired_at first -> outs !! i = first !! i))).
Proof.
  unfold authorizeAndUpload. set (batch := prepared_batch its).
  assert (length batch = length its) as Hlb by (unfold batch, prepared_batch; apply length_imap).
  assert (NoDup (map ObjectID batch)) as Hids by (by apply numbered_NoDup).
  pose proof (port_answers_each w batch) as Hlen.
  unfold AuthorizeAndUpload at 1, logged_port at 1. cbn [fst snd].
  destruct (AuthorizeAndUpload w batch) as [first w1] eqn:Hc. cbn [fst] in Hlen.
  rewrite Hlen, Nat.eqb_refl. cbn [negb app].
  destruct (expired_at first) as [|e0 el] eqn:He.
  - intros [= <- <- <-]. split_and!; [congruence|by apply Forall_singleton|by left].
  - rewrite <- He. set (again := imap _ (expired_at first)).
    assert (length again = length (expired_at first)) as Hla by apply length_imap.
    unfold AuthorizeAndUpload at 1, logged_port at 1. cbn [fst snd].
    pose proof (port_answers_each w1 again) as Hlen2.
    destruct (AuthorizeAndUpload w1 again) as [second_ w2] eqn:Hc2. cbn [fst] in Hlen2.
    rewrite Hlen2, Nat.eqb_refl. cbn [negb app]. intros [= <- <- <-].
    assert ((zip (expired_at first) second_).*1 = expired_at first) as Hfst
      by (apply fst_zip; lia).
    split_and!; [rewrite overwrite_length; congruence| |right; exists again, second_; split_and!; try done].
    + repeat constructor; [done|]. by apply numbered_NoDup.
    + intros j i Hj. assert (i ∈ expired_at first) as Hin by (by eapply list_elem_of_lookup_2).
      pose proof (expired_at_bound _ _ Hin) as Hi. split.
      * unfold again. rewrite list_lookup_imap, Hj. cbn.
        destruct (batch !! i) eqn:Eb; [done|]. apply lookup_ge_None in Eb. lia.
      * apply lookup_lt_Some in Hj as Hjl.
        destruct (lookup_lt_is_Some_2 second_ j) as [v Hv]; [lia|]. rewrite Hv.
        apply overwrite_hit; [rewrite Hfst; apply expired_at_NoDup| |done].
        apply list_elem_of_lookup. exists j. rewrite lookup_zip_with, Hj. cbn. by rewrite Hv.
    + intros i Hi. apply overwrite_other. by rewrite Hfst.
Qed.

(** One verdict per object, in the order of the objects. *)
Lemma authorizeAndUpload_length w its : length (authorizeAndUpload w its).1 = length its.
Proof.
  unfold authorizeAndUpload. set (batch := prepared_batch its).
  assert (length batch = length its) as Hlb by (unfold batch, prepared_batch; apply length_imap).
  pose proof (port_answers_each w batch) as Hlen.
  destruct (AuthorizeAndUpload w batch) as [first w1]. cbn [fst] in Hlen.
  rewrite Hlen, Nat.eqb_refl. cbn [negb]. destruct (expired_at first); [cbn; congruence|].
  set (again := imap _ _). destruct (AuthorizeAndUpload w1 again) as [second_ w2].
  case_goal; cbn [fst]; rewrite overwrite_length; congruence.
Qed.

Lemma sendBatch_length w its : length (sendBatch w its).1 = length its.
Proof.
  unfold sendBatch. destruct (authorizeAndUpload w its). cbn. apply length_imap.
Qed.
End Twice.

(** A port that says a fixed ticket is expired the first time it sees it. *)
#[local] Instance expiring_port : UploadPort bool := fun fresh batch =>
  (map (fun o => if fresh && (po_Key o =? "x")%string
                 then Some (mkError "expired" [ErrTicketExpired]) else None) batch, false).

Lemma authorize_at_most_twice_witness :
  let its := [sample_staged "x" "abc"; sample_staged "y" "d"] in
  let r := authorizeAndUpload (true, []) its in
  let batch := prepared_batch its in
  length r.1 = length its /\ Forall (fun c => NoDup (map ObjectID c)) r.2.2 /\
  (forall i, i ∉ expired_at (AuthorizeAndUpload true batch).1 ->
     r.1 !! i = (AuthorizeAndUpload true batch).1 !! i \/ r.2.2 = [batch]).
Proof.
  intros its r batch.
  assert (UploadPortLaws bool) as Hlaws by (intros w b; cbn; apply length_map).
  destruct (authorize_at_most_twice true its r.1 r.2.1 r.2.2) as (H1 & H2 & H3).
  { unfold r. by destruct (authorizeAndUpload _ its) as [? [? ?]]. }
  split_and!; [exact H1|exact H2|].
  destruct H3 as [(_ & H3 & _)|(again & second_ & _ & _ & _ & _ & H3)]; [by right|left; by apply H3].
Defined.

(** ** What a verdict decides *)

Lemma applyUploadOutcome_idx it oc : idx (applyUploadOutcome it oc) = idx (st_res it).
Proof. unfold applyUploadOutcome. destruct oc; [case_goal|]; done. Qed.

(** A fingerprint is to be committed only for an object confirmed, or answered already present. *)
Lemma applyUploadOutcome_commits it oc :
  r_intent (st_res it) = no_intent ->
  let r := applyUploadOutcome it oc in
  if match oc with None => true | Some _ => Is oc ErrAlreadyPresent end
  then r_intent r = mkIntent intentShipped (pp_key (st_pending it)) (next (st_pending it)) "" /\
       fo_Decision (outcome r) = DecisionShipped /\ Fatal (outcome r) = Fatal (outcome (st_res it)) /\
       unavailable r = unavailable (st_res it)
  else r_intent r = no_intent /\ fo_Decision (outcome r) = DecisionFailed /\
       Fatal (outcome r) = Is oc ErrCredentialsRefused /\
       unavailable r = Is oc ErrUploadUnavailable || Is oc ErrOffline.
Proof.
  intros Hi. unfold applyUploadOutcome. destruct oc as [e|]; [|done].
  destruct (Is (Some e) ErrAlreadyPresent); done.
Qed.
