(* ===== verification/VendPort.v ===== *)
(** The write path, assembled: [src/app/vendupload.go] over the control-plane client of
    [ControlPlane], the ticket validation of [Ticket] and the uploader
    ([src/internal/upload/http.go]). It implements the engine's [UploadPort]; what it promises is
    proved in [VendSafe]. Go visits a map and runs the PUTs of a group in no fixed order, so both
    orders are parameters. *)

From S2P Require Import Prelude GoLib GoJson Vocab StateDoc Spec Upload GoUrl Ticket ControlPlane.

(** ** http.go: one PUT *)

Record PutRequest := mkPut {
  pr_URL : string;
  pr_Headers : gmap string string;
  pr_ContentLength : Z;
  pr_Body : string;
  pr_Timeout : Z
}.

(** The object store behind a presigned URL: a status and the text of the answer, or the
    transport's error. [instant] is the clock in nanoseconds. *)
Class StoreNet (W : Type) := {
  store_put : W -> PutRequest -> result error (Z * string) * W;
  instant : W -> Z
}.

Inductive put_error :=
  | Transport (e : error)
  | StatusError (Status : Z) (Reason : string).

(** Seconds. *)
Definition operationOverhead : Z := 90.
Definition minThroughput : Z := Z.shiftl 64 10.
Definition maxOperation : Z := 30 * 60.
Definition operation_bound (body : string) : Z :=
  Z.min (operationOverhead + slen body / minThroughput) maxOperation.

Definition put_request (ticket : Ticket) (body : string) : PutRequest :=
  mkPut (t_URL ticket) (RequiredHeaders ticket) (ContentLength ticket) body (operation_bound body).

(** Nil, or what went wrong. *)
Definition upload_put {W} {st : StoreNet W} (w : W) (ticket : Ticket) (body : string)
    : option put_error * W :=
  let '(resp, w) := store_put w (put_request ticket body) in
  match resp with
  | Err e => (Some (Transport (wrap_error "upload: PUT object: " e)), w)
  | Ok (status, reason) =>
      if negb (status =? 200) then (Some (StatusError status reason), w) else (None, w)
  end.

Definition put_error_value (e : put_error) : error :=
  match e with
  | Transport e => e
  | StatusError status reason =>
      errors_New ("upload: object store answered HTTP " +:+ int_text status +:+
        (if (reason =? "")%string then "" else ": " +:+ reason))
  end.

(** ** vendupload.go *)

Definition printableASCII (v : string) (max : Z) : bool :=
  (slen v <=? max) && negb (str_existsb (fun r => (byte_code r <? 32) || (126 <? byte_code r)) v).

Definition empty_metadata : UploadMetadata := mkUploadMetadata "" "" "" "" "" "" "" "" "".

(** One name of the loop: the metadata so far and the warnings. *)
Definition upload_name (acc : UploadMetadata * list string) (nv : string * string)
    : result error (UploadMetadata * list string) :=
  let '(m, dropped) := acc in
  let '(name, v) := nv in
  let '(mkUploadMetadata a b c d e f g h i) := m in
  if (name =? "manifest-version")%string then Ok (mkUploadMetadata v b c d e f g h i, dropped)
  else if (name =? "source-id")%string then Ok (mkUploadMetadata a v c d e f g h i, dropped)
  else if (name =? "shipped-hash")%string then Ok (mkUploadMetadata a b v d e f g h i, dropped)
  else if (name =? "artifact-class")%string then Ok (mkUploadMetadata a b c v e f g h i, dropped)
  else if (name =? "agent-version")%string then
    if negb (printableASCII v 128)
    then Ok (m, dropped ++ ["agent-version is not printable ASCII within 128 bytes"])
    else Ok (mkUploadMetadata a b c d v f g h i, dropped)
  else if (name =? "shape-sniff")%string then Ok (mkUploadMetadata a b c d e v g h i, dropped)
  else if (name =? "derived")%string then Ok (mkUploadMetadata a b c d e f v h i, dropped)
  else if (name =? "enrich-status")%string then Ok (mkUploadMetadata a b c d e f g v i, dropped)
  else if (name =? "kind")%string then Ok (mkUploadMetadata a b c d e f g h v, dropped)
  else if (name =? "source-hash")%string || (name =? "ticket-id")%string
  then Err (errors_New ("metadata " +:+ name +:+ " is derived by the server and may not be requested"))
  else Err (errors_New ("metadata " +:+ name +:+ " is outside the closed request set")).

Fixpoint fold_ok {A B} (f : A -> B -> result error A) (a : A) (l : list B) : result error A :=
  match l with [] => Ok a | x :: r => let! a := f a x in fold_ok f a r end.

Definition toUploadTicket (t : IssuedTicket) : Ticket :=
  mkTicket (i_TicketID t) (i_ObjectID t) (i_Method t) (i_URL t) (i_ExpiresAt t)
    (default ∅ (i_RequiredHeaders t)) (i_ContentLength t) (i_ContentLengthSigned t).

Definition toPreparedUpload (o : PreparedObject) : PreparedUpload :=
  mkPreparedUpload (ObjectID o) (po_Key o) (Body o) (po_SourceHash o) (Metadata o).

(** [platform.Offline]. *)
Definition Offline (err : error) : bool :=
  negb (Is (Some err) Canceled) && Is (Some err) AsDialFailure.

(** [live] is [ctx.Err() == nil]; [%w: %v] drops the chain of the second error. *)
Definition classifyAuthorize (live : bool) (err : error) : error :=
  if Is (Some err) ErrCredentialsRefused then err
  else if Is (Some err) ErrAuthorizeUnavailable then
    mkError ("engine: upload unavailable: " +:+ Error err) [ErrUploadUnavailable]
  else if live && Offline err then
    mkError ("engine: offline: " +:+ Error err) (ErrOffline :: wraps err)
  else err.

(** The port's constants: the client, the allowlist, the writer id, whether the run's context is
    still live, and the two orders Go leaves open. *)
Record vendPort := mkVendPort {
  client : Client;
  targets : UploadTargetList;
  writerID : string;
  live : bool;
  visit : gmap string string -> list (string * string);
  schedule : list nat -> list nat
}.

Section Vend.
Context {W : Type} {net : PlaneNet W} {st : StoreNet W} {codec : PlaneCodec}.
Context (p : vendPort).

Definition uploadMetadata (md : gmap string string) : result error (UploadMetadata * list string) :=
  fold_ok upload_name (empty_metadata, []) (visit p md).

Definition request_object (o : PreparedObject) : result error UploadObject :=
  match uploadMetadata (Metadata o) with
  | Err e => Err (wrap_error ("upload: object " +:+ ObjectID o +:+ ": ") e)
  | Ok (md, _) => Ok (mkUploadObject (ObjectID o) (po_Key o) (slen (Body o)) (po_SourceHash o) md)
  end.

Fixpoint request_objects (batch : list PreparedObject) : result error (list UploadObject) :=
  match batch with
  | [] => Ok []
  | o :: r => let! x := request_object o in let! xs := request_objects r in Ok (x :: xs)
  end.

Definition request (batch : list PreparedObject) (w : W) : result error AuthorizeRequest :=
  let! objects := request_objects batch in
  Ok (mkAuthorizeRequest (writerID p) (Some (plane_now w)) objects).

(** A refusal of a ticket past its own expiry asks for one fresh ticket. *)
Definition classifyPut (w : W) (err : put_error) (ticket : Ticket) : error :=
  let e := put_error_value err in
  match err with
  | Transport _ => e
  | StatusError status _ =>
      if (status =? 403) || (status =? 400) then
        match ExpiresAt ticket with
        | Some t => if t <? instant w
                    then mkError ("engine: ticket expired: " +:+ Error e) [ErrTicketExpired] else e
        | None => e
        end
      else e
  end.

Definition ticket_refusal (e : ticket_error) : error := errors_New "upload: ticket refused".

Definition send (w : W) (obj : PreparedObject) (issued : IssuedTicket) : option error * W :=
  if AlreadyPresent issued then (None, w)
  else
    let ticket := toUploadTicket issued in
    match ValidateTicket (visit p) (targets p) (toPreparedUpload obj) ticket with
    | Err e => (Some (ticket_refusal e), w)
    | Ok _ =>
        let '(err, w) := upload_put w ticket (Body obj) in
        match err with
        | None => (None, w)
        | Some e => (Some (classifyPut w e ticket), w)
        end
    end.

(** Tickets by object id; two naming one object refuse the batch. *)
Fixpoint index_tickets (tickets : list IssuedTicket) (m : gmap string IssuedTicket)
    : result error (gmap string IssuedTicket) :=
  match tickets with
  | [] => Ok m
  | t :: r =>
      match m !! i_ObjectID t with
      | Some _ => Err (errors_New ("upload: the control plane issued two tickets naming object " +:+
                        i_ObjectID t))
      | None => index_tickets r (<[i_ObjectID t := t]> m)
      end
  end.

Definition no_ticket (o : PreparedObject) : error :=
  errors_New ("upload: the control plane issued no ticket for object " +:+ ObjectID o).
Definition already_present : error :=
  mkError "engine: the archive already holds this object" [ErrAlreadyPresent].

(** The outcomes decided before a PUT starts, and the positions that start one. *)
Definition local_outcome (m : gmap string IssuedTicket) (o : PreparedObject) : option error :=
  match m !! ObjectID o with
  | None => Some (no_ticket o)
  | Some t => if AlreadyPresent t then Some already_present else None
  end.

Definition starts_put (m : gmap string IssuedTicket) (o : PreparedObject) : bool :=
  match m !! ObjectID o with Some t => negb (AlreadyPresent t) | None => false end.

Definition put_at (m : gmap string IssuedTicket) (batch : list PreparedObject)
    (acc : list (option error) * W) (i : nat) : list (option error) * W :=
  let '(out, w) := acc in
  match batch !! i with
  | Some o =>
      match m !! ObjectID o with
      | Some t => let '(e, w) := send w o t in (<[i := e]> out, w)
      | None => (out, w)
      end
  | None => (out, w)
  end.

Definition started (m : gmap string IssuedTicket) (batch : list PreparedObject) : list nat :=
  filter (fun i => Is_true (match batch !! i with Some o => starts_put m o | None => false end))
    (seq 0 (length batch)).

Definition sameOutcome (batch : list PreparedObject) (e : error) : list (option error) :=
  replicate (length batch) (Some e).

(** [AuthorizeAndUpload] of the port, over the client's state. *)
Definition vend (cw : plane_state * W) (batch : list PreparedObject)
    : list (option error) * (plane_state * W) :=
  let '(cs, w) := cw in
  match request batch w with
  | Err e => (sameOutcome batch e, (cs, w))
  | Ok req =>
      let '(resp, cs, w) := AuthorizeUploads (client p) req cs w in
      match resp with
      | Err e => (sameOutcome batch (classifyAuthorize (live p) e), (cs, w))
      | Ok tickets =>
          match index_tickets tickets ∅ with
          | Err e => (sameOutcome batch e, (cs, w))
          | Ok m =>
              let '(out, w) := foldl (put_at m batch) (map (local_outcome m) batch, w)
                                 (schedule p (started m batch)) in
              (out, (cs, w))
          end
      end
  end.

#[export] Instance vend_port : UploadPort (plane_state * W) := vend.

End Vend.
