(* ===== verification/VendSafe.v ===== *)
(** What the assembled write path promises ([VendPort]): one outcome per object, no byte to the store
    without an accepted ticket, a confirmation only for a stored object, failures that stop exactly
    the runs they should; and what happens to an object whose agent version is out of grammar. *)

From S2P Require Import Prelude GoLib GoJson GoText Vocab StateDoc Spec Upload GoUrl Ticket TicketSafe ControlPlane VendPort.

(** ** A world that remembers the PUTs it answered *)

Definition Logged (W : Type) : Type := W * list (PutRequest * result error (Z * string)).

#[export] Instance logged_plane {W} {net : PlaneNet W} : PlaneNet (Logged W) := {|
  plane_post := fun w path pre pay => let '(r, w') := plane_post w.1 path pre pay in (r, (w', w.2));
  plane_now := fun w => plane_now w.1;
  enrollment_lock := fun w => enrollment_lock w.1;
  save_fails := fun w => save_fails w.1
|}.

#[export] Instance logged_store {W} {st : StoreNet W} : StoreNet (Logged W) := {|
  store_put := fun w r => let '(a, w') := store_put w.1 r in (a, (w', w.2 ++ [(r, a)]));
  instant := fun w => instant w.1
|}.

Section Safe.
Context {W : Type} {net : PlaneNet W} {st : StoreNet W} {codec : PlaneCodec} (p : vendPort).
Hypothesis schedule_perm : forall l, schedule p l ≡ₚ l.

Lemma put_at_length m batch out (w : W) i :
  length (put_at p m batch (out, w) i).1 = length out.
Proof.
  unfold put_at. destruct (batch !! i) as [o|]; [|done]. destruct (m !! _); [|done].
  destruct (send p w o i0). cbn. apply length_insert.
Qed.

Lemma puts_length m batch l out (w : W) :
  length (foldl (put_at p m batch) (out, w) l).1 = length out.
Proof.
  revert out w. induction l as [|i l IH]; intros out w; cbn [foldl]; [done|].
  destruct (put_at p m batch (out, w) i) as [out' w'] eqn:E. rewrite IH.
  pose proof (put_at_length m batch out w i) as H. by rewrite E in H.
Qed.

#[export] Instance vend_port_laws : @UploadPortLaws (plane_state * W) (vend_port p).
Proof.
  intros [cs w] batch. unfold AuthorizeAndUpload, vend_port, vend.
  destruct (request p batch w) as [req|e]; [|apply length_replicate].
  destruct (AuthorizeUploads _ req cs w) as [[[tickets|e] cs'] w']; [|apply length_replicate].
  destruct (index_tickets tickets ∅) as [m|e]; [|apply length_replicate].
  pose proof (puts_length m batch (schedule p (started m batch)) (map (local_outcome m) batch) w') as H.
  destruct (foldl _ _ _) as [out w'']. cbn [fst] in *. by rewrite H, length_map.
Qed.
End Safe.

(** ** Nothing is sent without an accepted ticket *)

Section Sends.
Context {W : Type} {net : PlaneNet W} {st : StoreNet W} {codec : PlaneCodec} (p : vendPort).
Hypothesis schedule_perm : forall l, schedule p l ≡ₚ l.

Definition event : Type := PutRequest * result error (Z * string).

(** A PUT of object [i] under a ticket the plane issued and the local validation accepted. *)
Definition validated_put (m : gmap string IssuedTicket) (batch : list PreparedObject)
    (ie : nat * event) : Prop :=
  exists o t, batch !! ie.1 = Some o /\ m !! ObjectID o = Some t /\
    ValidateTicket (visit p) (targets p) (toPreparedUpload o) (toUploadTicket t) = Ok () /\
    ie.2.1 = put_request (toUploadTicket t) (Body o).

Definition stored (ie : nat * event) : Prop := exists reason, ie.2.2 = Ok (200, reason).

Lemma send_logged (w : Logged W) o t e w' :
  AlreadyPresent t = false -> send p w o t = (e, w') ->
  (w' = w /\ e <> None) \/
  exists a, w'.2 = w.2 ++ [(put_request (toUploadTicket t) (Body o), a)] /\
    ValidateTicket (visit p) (targets p) (toPreparedUpload o) (toUploadTicket t) = Ok () /\
    (e = None -> exists reason, a = Ok (200, reason)).
Proof.
  intros Ha. unfold send. rewrite Ha.
  destruct (ValidateTicket _ _ _ _) as [[]|]; [|intros [= <- <-]; by left].
  unfold upload_put. cbn [store_put logged_store]. destruct (store_put w.1 _) as [a w1].
  intros H. right. exists a. destruct a as [[status reason]|er].
  - destruct (Z.eqb_spec status 200) as [->|]; cbn [negb] in H; injection H as <- <-; naive_solver.
  - injection H as <- <-. naive_solver.
Qed.

Lemma puts_logged m batch l out (w : Logged W) out' w' :
  NoDup l -> (forall i, i ∈ l -> exists o t, batch !! i = Some o /\ m !! ObjectID o = Some t /\
                                         AlreadyPresent t = false) ->
  length out = length batch ->
  foldl (put_at p m batch) (out, w) l = (out', w') ->
  exists evs, w'.2 = w.2 ++ map snd evs /\ sublist (map fst evs) l /\ Forall (validated_put m batch) evs /\
    (forall i, i ∉ l -> out' !! i = out !! i) /\
    (forall i, i ∈ l -> out' !! i = Some None -> exists ie, ie ∈ evs /\ ie.1 = i /\ stored ie).
Proof.
  intros Hnd Hl. revert out w. induction l as [|i l IH]; intros out w Hlen; cbn [foldl].
  { intros [= <- <-]. exists []. cbn. rewrite app_nil_r. split_and!; try done. 
    intros i Hi. by apply not_elem_of_nil in Hi. }
  apply NoDup_cons in Hnd as [Hi Hnd].
  destruct (Hl i ltac:(by left)) as (o & t & Ho & Ht & Ha).
  unfold put_at at 2. rewrite Ho, Ht. destruct (send p w o t) as [e w1] eqn:Es. intros Hf.
  apply IH in Hf as (evs & Hlog & Hsub & Hval & Hout & Hok); [|done|by intros; apply Hl; right|by rewrite length_insert].
  assert (out' !! i = Some e) as Hoi.
  { rewrite Hout by done. apply list_lookup_insert_eq. rewrite Hlen. by eapply lookup_lt_Some. }
  assert (forall j, j ∉ i :: l -> out' !! j = out !! j) as Hother.
  { intros j Hj%not_elem_of_cons. rewrite Hout by naive_solver. apply list_lookup_insert_ne. naive_solver. }
  destruct (send_logged _ _ _ _ _ Ha Es) as [[-> He]|(a & Hw1 & Hv & Hn)].
  - exists evs. split_and!; try done; [by constructor|]. intros j [->|Hj]%elem_of_cons Hj'; [|by apply Hok].
    rewrite Hoi in Hj'. congruence.
  - exists ((i, (put_request (toUploadTicket t) (Body o), a)) :: evs). split_and!.
    + rewrite Hlog, Hw1, <- app_assoc. done.
    + cbn. by constructor.
    + constructor; [|done]. exists o, t. done.
    + done.
    + intros j [->|Hj]%elem_of_cons Hj'.
      * rewrite Hoi in Hj'. eexists. split; [by left|]. split; [done|]. apply Hn. congruence.
      * destruct (Hok j Hj Hj') as (ie & Hin & H). exists ie. split; [by right|done].
Qed.

Lemma started_spec m batch i :
  i ∈ started m batch -> exists o t, batch !! i = Some o /\ m !! ObjectID o = Some t /\ AlreadyPresent t = false.
Proof.
  unfold started. intros [H _]%list_elem_of_filter. unfold starts_put in H.
  destruct (batch !! i) as [o|]; [|done]. destruct (m !! ObjectID o) as [t|] eqn:E; [|done].
  exists o, t. split_and!; try done. by destruct (AlreadyPresent t).
Qed.

Lemma started_NoDup m batch : NoDup (started m batch).
Proof. apply NoDup_filter, NoDup_ListNoDup, List.seq_NoDup. Qed.

Lemma not_started_confirmed m batch i :
  map (local_outcome m) batch !! i = Some None -> i ∈ started m batch.
Proof.
  intros H. rewrite list_lookup_fmap in H. destruct (batch !! i) as [o|] eqn:E; [|done].
  cbn in H. apply list_elem_of_filter. rewrite E. split.
  - unfold starts_put. unfold local_outcome in H. destruct (m !! ObjectID o) as [t|]; [|done].
    by destruct (AlreadyPresent t).
  - apply elem_of_seq. apply lookup_lt_Some in E. lia.
Qed.

Lemma AuthorizeUploads_log c req cs (w : Logged W) r cs' w' :
  AuthorizeUploads c req cs w = (r, cs', w') -> w'.2 = w.2.
Proof.
  unfold AuthorizeUploads. destruct (_ =? _)%string; [by intros [= <- <- <-]|].
  destruct (bool_decide _); [by intros [= <- <- <-]|]. destruct (Objects req); [by intros [= <- <- <-]|].
  destruct (marshal_request req); [|by intros [= <- <- <-]].
  unfold exchange. destruct (_ || _); [by intros [= <- <- <-]|].
  destruct (client_Revocation c cs) as [[e|] cs1]; [by intros [= <- <- <-]|].
  cbn [plane_post logged_plane]. destruct (plane_post w.1 _ _ _) as [[[status raw]|e] w1].
  - destruct (_ && _); [|by intros [= <- <- <-]]. destruct (recordRevocation _ _ _). by intros [= <- <- <-].
  - by intros [= <- <- <-].
Qed.

(** C8: in one authorization group, every PUT the store saw was of a distinct object of the group,
    carried exactly its sealed bytes and the headers of a ticket the plane issued for it and the
    local validation accepted; and an object is reported confirmed only if the store answered 200 to
    its own PUT. *)
Theorem vend_confirms_only_stored batch cs (w : Logged W) out cs' w' :
  vend p (cs, w) batch = (out, (cs', w')) ->
  exists m evs, w'.2 = w.2 ++ map snd evs /\ NoDup (map fst evs) /\
    Forall (validated_put m batch) evs /\
    forall i, out !! i = Some None -> exists ie, ie ∈ evs /\ ie.1 = i /\ stored ie.
Proof.
  unfold vend.
  assert (forall e (w1 : Logged W), w1.2 = w.2 -> exists m evs, w1.2 = w.2 ++ map snd evs /\ NoDup (map fst evs) /\
    Forall (validated_put m batch) evs /\
    forall i, sameOutcome batch e !! i = Some None -> exists ie, ie ∈ evs /\ ie.1 = i /\ stored ie) as Hnone.
  { intros e w1 ->. exists ∅, []. cbn. rewrite app_nil_r. split_and!; try done; [constructor|].
    intros i [H _]%lookup_replicate. done. }
  destruct (request p batch w) as [req|e]; [|intros [= <- <- <-]; by apply Hnone].
  destruct (AuthorizeUploads (client p) req cs w) as [[[tickets|e] cs1] w1] eqn:Ea;
    apply AuthorizeUploads_log in Ea; [|intros [= <- <- <-]; by apply Hnone].
  destruct (index_tickets tickets ∅) as [m|e]; [|intros [= <- <- <-]; by apply Hnone].
  destruct (foldl _ _ _) as [out1 w2] eqn:Ef. intros [= <- <- <-].
  assert (NoDup (schedule p (started m batch))) as Hnd by (rewrite schedule_perm; apply started_NoDup).
  apply puts_logged in Ef as (evs & Hlog & Hsub & Hval & Hout & Hok); [|done| |by rewrite length_map].
  - exists m, evs. rewrite Hlog, Ea. split_and!; try done; [by eapply sublist_NoDup|].
    intros i Hi. destruct (decide (i ∈ schedule p (started m batch))) as [Hin|Hin]; [by apply Hok|].
    rewrite Hout in Hi by done. exfalso. apply Hin. rewrite schedule_perm. by apply not_started_confirmed.
  - intros i Hi. rewrite schedule_perm in Hi. by apply started_spec.
Qed.
End Sends.

(** ** An agent version out of the request grammar *)

Section AgentVersion.
Context {W : Type} {net : PlaneNet W} {st : StoreNet W} {codec : PlaneCodec} (p : vendPort).
Hypothesis visit_perm : forall m, visit p m ≡ₚ map_to_list m.

Lemma upload_name_agent m d n v m' d' :
  upload_name (m, d) (n, v) = Ok (m', d') -> um_AgentVersion m = "" ->
  (n = "agent-version" -> printableASCII v 128 = false) -> um_AgentVersion m' = "".
Proof.
  destruct m as [x1 x2 x3 x4 x5 x6 x7 x8 x9]. unfold upload_name. cbn [um_AgentVersion]. intros H -> Hn.
  destruct (String.eqb_spec n "agent-version") as [Hag|_].
  - rewrite Hag in H. cbn [String.eqb Ascii.eqb Bool.eqb] in H. rewrite Hn in H by exact Hag. by injection H as <- <-.
  - repeat match type of H with
      (if ?b then _ else _) = _ => destruct b; [first [discriminate H|injection H as <- _; reflexivity]|] end.
    discriminate H.
Qed.

Lemma fold_name_agent l m d m' d' :
  fold_ok upload_name (m, d) l = Ok (m', d') -> um_AgentVersion m = "" ->
  (forall v, ("agent-version", v) ∈ l -> printableASCII v 128 = false) -> um_AgentVersion m' = "".
Proof.
  revert m d. induction l as [|[n v] l IH]; intros m d; cbn [fold_ok].
  - by intros [= -> ->].
  - destruct (upload_name (m, d) (n, v)) as [[m1 d1]|] eqn:E; cbn [rbind]; [|done].
    intros H Hm Hl. eapply IH; [done| |].
    + eapply upload_name_agent; [done..|]. intros ->. apply Hl. by left.
    + intros v' Hv. apply Hl. by right.
Qed.

(** An object whose agent version is out of the request grammar is requested without it, so the
    plane issues a ticket without that header, and the local validation, which compares the ticket
    with the undropped metadata, refuses that ticket: the object is not sent. *)
Theorem dropped_agent_version_never_ships o v uo t (w : W) :
  Metadata o !! "agent-version" = Some v -> printableASCII v 128 = false ->
  request_object p o = Ok uo -> AlreadyPresent t = false ->
  (forall d, d ∈ headerDialects ->
     default ∅ (i_RequiredHeaders t) !! metadataHeader d "agent-version" = None) ->
  um_AgentVersion (uo_Metadata uo) = "" /\ exists e, send p w o t = (Some e, w).
Proof.
  intros Hv Hp Hr Ha Hd. split.
  - unfold request_object, uploadMetadata in Hr.
    destruct (fold_ok _ _ _) as [[md dropped]|] eqn:E; [|done]. injection Hr as <-. cbn [uo_Metadata].
    eapply fold_name_agent; [exact E|done|]. intros v' Hin.
    rewrite visit_perm in Hin. apply elem_of_map_to_list in Hin. congruence.
  - unfold send. rewrite Ha. destruct (ValidateTicket _ _ _ _) as [[]|] eqn:E; [|eauto]. exfalso.
    unfold ValidateTicket in E. inv_ok. destruct x. inv_ok.
    match goal with H : validateHeaders _ _ _ = Ok _ |- _ =>
      destruct (validateHeaders_iff (visit p) visit_perm (toPreparedUpload o) (toUploadTicket t)) as [Hi _];
      destruct x; specialize (Hi H) end.
    destruct Hi as (_ & _ & d & Hin & _ & _ & _ & _ & Hdecl & _).
    destruct (Hdecl _ _ Hv) as [_ Hh]. cbn [RequiredHeaders toUploadTicket] in Hh. by rewrite Hd in Hh.
Qed.
End AgentVersion.

(** ** Which failures stop a run *)

Section Status.
Context {W : Type} {net : PlaneNet W} {st : StoreNet W} {codec : PlaneCodec} (p : vendPort).

(** When the plane answers an authorization with a failure status, nothing is sent and every
    object of the group gets one verdict: 401 and 403 are a refusal of the credentials, 429 and the
    5xx statuses an unavailable plane, which stops the run but never reads as a refusal, and every
    other status is the batch's own failure and stops nothing. *)
Theorem vend_status_map batch cs cs1 (w w1 : W) req payload status raw :
  request p batch w = Ok req -> writerID p <> "" -> batch <> [] -> marshal_request req = Ok payload ->
  enrolled (client p) -> client_Revocation (client p) cs = (None, cs1) ->
  plane_post w uploadAuthorizePath uploadAuthorizePreamble payload = (Ok (status, raw), w1) ->
  (status <> 403 \/ TrimSpace raw <> revoked_body) -> status <> 200 ->
  exists e, vend p (cs, w) batch = (sameOutcome batch e, (cs1, w1)) /\
    Is (Some e) ErrCredentialsRefused = bool_decide (status = 401 \/ status = 403) /\
    Is (Some e) ErrUploadUnavailable = bool_decide (status = 429 \/ 500 <= status) /\
    Is (Some e) ErrOffline = false /\
    stopsRun (Some e) = bool_decide (status ∈ [401; 403; 429] \/ 500 <= status).
Proof.
  intros Hreq Hw Hb Hpay Hen Hrev Hpost Hraw Hok. unfold vend. rewrite Hreq.
  unfold request in Hreq. destruct (request_objects p batch) as [objs|] eqn:Eo; [|done].
  cbn [rbind] in Hreq. injection Hreq as <-.
  assert (objs <> []) as Hobjs.
  { destruct batch as [|o batch]; [done|]. cbn in Eo. destruct (request_object p o); [|done].
    cbn in Eo. destruct (request_objects p batch); [|done]. by injection Eo as <-. }
  unfold AuthorizeUploads. cbn [WriterID IssuedAt Objects].
  apply String.eqb_neq in Hw. rewrite Hw, bool_decide_eq_false_2 by done.
  destruct objs as [|ob objs]; [done|]. rewrite Hpay. unfold exchange.
  rewrite exchange_enrolled, Hrev, Hpost by done.
  assert ((status =? StatusForbidden) && (TrimSpace raw =? revoked_body)%string = false) as ->.
  { apply andb_false_iff. unfold StatusForbidden. destruct Hraw; [left; by apply Z.eqb_neq|right; by apply String.eqb_neq]. }
  unfold authorize_answer. apply Z.eqb_neq in Hok as Hok'. rewrite Hok'. unfold StatusForbidden.
  destruct (decide (status = 401 \/ status = 403)) as [Hd|Hd].
  { assert ((status =? 401) || (status =? 403) = true) as -> by lia.
    eexists. split; [reflexivity|]. unfold classifyAuthorize. destruct Hd as [-> | ->]; split_and!; done. }
  assert ((status =? 401) || (status =? 403) = false) as -> by lia.
  rewrite (bool_decide_eq_false_2 _ Hd).
  destruct (decide (status = 429 \/ 500 <= status)) as [Hu|Hu].
  - assert ((status =? 429) || (500 <=? status) = true) as -> by lia. rewrite (bool_decide_eq_true_2 _ Hu).
    eexists. split; [reflexivity|]. split_and!; try done.
    symmetry. apply bool_decide_eq_true. set_unfold. tauto.
  - assert ((status =? 429) || (500 <=? status) = false) as -> by lia. rewrite (bool_decide_eq_false_2 _ Hu).
    eexists. split; [reflexivity|].
    unfold classifyAuthorize, Offline. cbn [Is wraps errors_New]. rewrite andb_false_r.
    split_and!; try done. symmetry. apply bool_decide_eq_false. set_unfold. tauto.
Qed.
End Status.

Module SampleVend.

(** A plane that answers a fixed status, a store that answers 200, a codec that reads one ticket out
    of "granted". *)
Definition plane (status : Z) (raw : string) : PlaneNet nat := {|
  plane_post := fun w _ _ _ => (Ok (status, raw), S w);
  plane_now := fun _ => 1790000000;
  enrollment_lock := fun _ => None;
  save_fails := fun _ => None
|}.
Definition store : StoreNet nat := {|
  store_put := fun w _ => (Ok (200, ""), S w);
  instant := fun _ => 1790000000
|}.

Definition issued : IssuedTicket :=
  mkIssued (TicketID SampleTicket.ticket) "0" false "PUT" (t_URL SampleTicket.ticket) None
    (Some (RequiredHeaders SampleTicket.ticket)) 6 true.
Definition codec : PlaneCodec := {|
  marshal_request := fun _ => Ok "{}";
  unmarshal_response := fun raw =>
    if (raw =? "granted")%string then Ok [issued] else Err (errors_New "bad json")
|}.

Definition port : vendPort :=
  mkVendPort SamplePlane.client SampleTicket.targets "writer" true map_to_list id.
Definition object : PreparedObject :=
  mkPrepared "0" "v1/organization=acme/a.age" "sealed" "d1" (<["source-id" := "claude"]> ∅).

Definition vend_run := vend (net := @logged_plane nat (plane 200 "granted"))
  (st := @logged_store nat store) (codec := codec) port (mkPlane None NoFile, (0%nat, [])) [object].

Lemma runs : vend_run.1 = [None] /\ length vend_run.2.2.2 = 1%nat.
Proof. vm_compute. done. Qed.

Lemma vend_confirms_only_stored_witness :
  vend_run.1 = [None] /\ exists ie : nat * event, ie.1 = 0%nat /\ stored ie.
Proof.
  split; [exact (proj1 runs)|].
  assert (vend_run = ([None], (vend_run.2.1, vend_run.2.2))) as E
    by (rewrite <- (proj1 runs); rewrite <- !surjective_pairing; reflexivity).
  destruct (vend_confirms_only_stored (net := plane 200 "granted") (st := store) (codec := codec) port
    (fun l => reflexivity l) [object] (mkPlane None NoFile) (0%nat, []) _ _ _ E)
    as (m & evs & _ & _ & _ & H).
  destruct (H 0%nat eq_refl) as (ie & _ & H1 & H2). exists ie. split; [exact H1|exact H2].
Defined.

(** A version string with a tab in it. *)
Definition tabbed : string := "1.2" +:+ String "009" "beta".
Definition bad_object : PreparedObject :=
  mkPrepared "0" "v1/organization=acme/a.age" "sealed" "d1"
    (<["source-id" := "claude"]> (<["agent-version" := tabbed]> ∅)).

Lemma dropped_agent_version_never_ships_witness :
  printableASCII tabbed 128 = false /\
  exists e, send (st := store) port 0%nat bad_object issued = (Some e, 0%nat).
Proof.
  split; [reflexivity|].
  destruct (dropped_agent_version_never_ships (st := store) port (fun m => reflexivity _) bad_object
    tabbed _ issued 0%nat eq_refl eq_refl eq_refl eq_refl) as [_ H]; [|exact H].
  intros d Hd. unfold headerDialects in Hd. rewrite !elem_of_cons, elem_of_nil in Hd.
  destruct Hd as [->|[->|[->|[]]]]; vm_compute; reflexivity.
Defined.

Lemma vend_status_map_witness :
  enrolled SamplePlane.client /\
  exists e cw, vend (net := plane 403 "no") (st := store) (codec := codec) port (mkPlane None NoFile, 0%nat) [object]
    = (sameOutcome [object] e, cw) /\ stopsRun (Some e) = true.
Proof.
  assert (enrolled SamplePlane.client) as Hen by (unfold enrolled; cbn; split_and!; done).
  split; [done|].
  destruct (vend_status_map (net := plane 403 "no") (st := store) (codec := codec) port [object]
    (mkPlane None NoFile) _ 0%nat 1%nat _ "{}" 403 "no" eq_refl ltac:(done) ltac:(done) eq_refl Hen eq_refl
    eq_refl ltac:(right; done) ltac:(lia)) as (e & H & _ & _ & _ & Hs).
  eexists e, _. split; [exact H|]. rewrite Hs. reflexivity.
Defined.

End SampleVend.
