(* ===== verification/Manifest.v ===== *)
(** The manifest of a mirror object and what sealing fills in: [src/internal/transforms/manifest.go],
    [Seal] of [src/internal/transforms/seal.go], and [src/internal/engine/manifest.go]. The text of a
    manifest and the tar, zstd and age layers around it are the interface [Container], which [Sealing]
    implements; the redaction engine is the interface [Scrubber]. *)

From S2P Require Import Prelude GoLib Crypto GoTime GoJson Vocab StateDoc Naming Spec.

(** ** Redaction, as the engine sees it *)

(** [via] is empty on the zero value, which [Seal] refuses. *)
Record Scrubbed := mkScrubbed { b : string; via : string }.
Definition Unscrubbed (raw reason : string) : Scrubbed := mkScrubbed raw reason.

Record ScrubResult := mkScrubResult {
  Out : Scrubbed;
  BytesRedacted : Z;
  BytesTotal : Z;
  sr_RuleHits : gmap string Z;
  sr_ScanMode : string
}.

Definition scrub_density (r : ScrubResult) : Z * Z :=
  if BytesTotal r =? 0 then (0, 1) else (BytesRedacted r, BytesTotal r).

Record Hint := mkHint { hint_Family : string; JSONL : bool }.

Class Scrubber := Scrub : string -> Hint -> result error ScrubResult.

(** ** The manifest *)

Record RedactionSummary := mkRedaction {
  rd_Density : Z * Z;
  rd_RuleHits : gmap string Z;
  rd_ScanMode : string
}.
Record Encryption := mkEncryption { Scheme : string; RecipientKeyIDs : list string }.
Record Client := mkClient {
  cl_Version : string; Commit_ : string; Modified : bool; GoVersion : string; OS : string; Arch : string
}.
Record DBProvenance := mkDBProvenance {
  DBPath : string; ReadMethod : string; Keyspaces : list string; RowsRead : Z
}.

Record Manifest := mkManifest {
  m_ManifestVersion : Z;
  m_OrganizationID : string;
  m_InstallID : string;
  m_SourceID : string;
  SourceFamily : string;
  m_NativePath : string;
  m_Gather : string;
  m_ArtifactClass : string;
  m_SourceHash : string;
  ShippedHash : string;
  PayloadSize : Z;
  PayloadMTime : option Z;
  m_AgentVersion : string;
  ShapeSniff : string;
  m_Repository : option Repository;
  Redaction : option RedactionSummary;
  m_Encryption : option Encryption;
  m_Client : Client;
  m_ConfigVersion : Z;
  m_ConfigExpired : bool;
  SealedAt : string;
  m_RunID : string;
  Derived : bool;
  m_Enricher : option EnricherRef;
  DerivedFrom : list string;
  EnrichStatus : string;
  EnrichMismatches : Z;
  m_DBProvenance : option DBProvenance;
  EnrichRepeats : Z;
  EnrichTail : Z;
  EnrichAmbiguous : Z;
  EnrichLineDecodeErrors : Z
}.

Definition ManifestVersion : Z := 1.

Definition ObjectMetadata (m : Manifest) : gmap string string :=
  let md : gmap string string :=
    <["manifest-version" := int_text (m_ManifestVersion m)]> (
    <["source-id" := m_SourceID m]> (
    <["source-hash" := m_SourceHash m]> (
    <["shipped-hash" := ShippedHash m]> (
    <["artifact-class" := m_ArtifactClass m]> ∅)))) in
  let md := if negb (m_AgentVersion m =? "")%string
            then <["agent-version" := m_AgentVersion m]> md else md in
  let md := if negb (ShapeSniff m =? "")%string
            then <["shape-sniff" := ShapeSniff m]> md else md in
  let md := if Derived m then <["derived" := "true"]> md else md in
  if negb (EnrichStatus m =? "")%string then <["enrich-status" := EnrichStatus m]> md else md.

(** ** Sealing *)

(** [Manifest.Encode], whose JSON holds a floating-point density and is validated by the schema, and
    [writeContainer]: the container of manifest text, payload and payload time, to recipients. *)
Class Container := {
  Encode : Manifest -> result error string;
  writeContainer : string -> string -> option Z -> list string -> result error string
}.

Definition Hash (s : string) : string := sha256_hex s.

Definition set_sealed (shipped : string) (size : Z) (enc : Encryption) (m : Manifest) : Manifest :=
  mkManifest (m_ManifestVersion m) (m_OrganizationID m) (m_InstallID m) (m_SourceID m)
    (SourceFamily m) (m_NativePath m) (m_Gather m) (m_ArtifactClass m) (m_SourceHash m) shipped size
    (PayloadMTime m) (m_AgentVersion m) (ShapeSniff m) (m_Repository m) (Redaction m) (Some enc)
    (m_Client m) (m_ConfigVersion m) (m_ConfigExpired m) (SealedAt m) (m_RunID m) (Derived m)
    (m_Enricher m) (DerivedFrom m) (EnrichStatus m) (EnrichMismatches m) (m_DBProvenance m)
    (EnrichRepeats m) (EnrichTail m) (EnrichAmbiguous m) (EnrichLineDecodeErrors m).

(** Recipients are their key ids. *)
Definition Seal `{!Container} (m : Manifest) (scrubbed : Scrubbed) (recipients : list string)
    : result error (string * Manifest) :=
  if (Zlen recipients =? 0)
  then Err (errors_New "seal: no age recipients: encryption is not optional")
  else if (via scrubbed =? "")%string
  then Err (errors_New "seal: payload neither scrubbed nor declared Unscrubbed with a reason")
  else if (SealedAt m =? "")%string
  then Err (errors_New "seal: sealed_at must be set by the caller")
  else
    let payload := b scrubbed in
    let enc := default (mkEncryption "age" []) (m_Encryption m) in
    let enc := match RecipientKeyIDs enc with
               | [] => mkEncryption (Scheme enc) recipients
               | _ => enc
               end in
    let m := set_sealed (Hash payload) (slen payload) enc m in
    let! manifestJSON := Encode m in
    let! o := writeContainer manifestJSON payload (PayloadMTime m) recipients in
    Ok (o, m).

(** ** The engine's manifests *)

Record Plan := mkPlan {
  OrganizationID : string;
  StateDir : string;
  MaxFilesPerRun : Z;
  Interval : Z;
  plan_Sources : list Resolved;
  RulePacks : list string;
  SecretKeyNames : list string;
  ConfigVersion : Z;
  ConfigExpired : bool
}.

(** What a run is configured with. [scrubErr] is the compile failure of the redaction rules, [user]
    the placeholder username. *)
Record Options := mkOptions {
  o_Plan : Plan;
  InstallID : string;
  NameKey : list Z;
  Recipients : list string;
  Unbounded : bool;
  DryRun : bool;
  RunID : string;
  CommitBatch : Z;
  Workers : Z;
  UploadWorkers : Z;
  o_Client : Client;
  user : string;
  scrubErr : option error
}.

Definition orgOf (p : Plan) : string :=
  if (OrganizationID p =? "")%string then "default" else OrganizationID p.

Definition baseManifest (o : Options) (src : Source) (nativePath : string) (now : Z) : Manifest :=
  mkManifest ManifestVersion (orgOf (o_Plan o)) (InstallID o) (src_ID src) (Family src)
    (ApplyUserPlaceholder nativePath (user o)) (Gather src) (ArtifactClass src) "" "" 0 None "" ""
    None None None (o_Client o) (ConfigVersion (o_Plan o)) (ConfigExpired (o_Plan o))
    (format_rfc3339 now) (RunID o) false None [] "" 0 None 0 0 0 0.

(** [%q] of a key segment; a segment that reaches it is plain text. *)
Definition naming_error_text (e : naming_error) : string :=
  match e with
  | BadSegment kind v =>
      "identity: " +:+ kind +:+ " segment " +:+ dquote +:+ v +:+ dquote +:+
      " is not a legal key segment"
  | BadNameKey len =>
      "identity: name_key is " +:+ int_text len +:+ " bytes, want " +:+ int_text NameKeySize
  | BadStateName name =>
      "identity: state object name " +:+ dquote +:+ name +:+ dquote +:+
      " must be non-empty and contain no slash"
  end.

Definition mirrorKey (o : Options) (sourceID relPath : string) : result naming_error string :=
  MirrorKey (orgOf (o_Plan o)) (InstallID o) sourceID (NameKey o) (CanonicalPath relPath (user o)).

Definition sniff_text (s : SniffResult) : string :=
  match s with
  | SniffUnset => ""
  | SniffOK => "ok"
  | SniffEmpty => "empty"
  | SniffUnexpectedShape => "unexpected_shape"
  | SniffUnreadable => "unreadable"
  end.

Definition scrubs (src : Source) : bool := default true (src_Scrub src).

Definition placeheld_repo (o : Options) (r : Repository) : Repository :=
  mkRepository (ApplyUserPlaceholder (GitDir r) (user o))
    (ApplyUserPlaceholder (MainWorktree r) (user o)) (Remotes r).

Definition manifestFor (o : Options) (src : Source) (cand : Candidate) (disc : Discovery)
    (sourceHash : string) (mtime : Z) (res : ScrubResult) (now : Z) : Manifest :=
  let m := baseManifest o src (Path cand) now in
  mkManifest (m_ManifestVersion m) (m_OrganizationID m) (m_InstallID m) (m_SourceID m)
    (SourceFamily m) (m_NativePath m) (m_Gather m) (m_ArtifactClass m) sourceHash (ShippedHash m)
    (PayloadSize m) (Some mtime) (disc_AgentVersion disc)
    (str_or (sniff_text (disc_Sniff disc)) (sniff_text SniffOK))
    (placeheld_repo o <$> cand_Repository cand)
    (if scrubs src then Some (mkRedaction (scrub_density res) (sr_RuleHits res) (sr_ScanMode res))
     else None)
    (m_Encryption m) (m_Client m) (m_ConfigVersion m) (m_ConfigExpired m) (SealedAt m) (m_RunID m)
    (Derived m) (m_Enricher m) (DerivedFrom m) (EnrichStatus m) (EnrichMismatches m)
    (m_DBProvenance m) (EnrichRepeats m) (EnrichTail m) (EnrichAmbiguous m)
    (EnrichLineDecodeErrors m).

(** ** Facts *)

(** What a sealed manifest says of the payload is true of it, and it is never sealed to nobody or
    from bytes nobody vouched for. *)
Lemma Seal_spec `{!Container} m sc recipients o m' :
  Seal m sc recipients = Ok (o, m') ->
  recipients <> [] /\ via sc <> "" /\ SealedAt m <> "" /\
  ShippedHash m' = sha256_hex (b sc) /\ PayloadSize m' = slen (b sc) /\
  (exists json, Encode m' = Ok json /\ writeContainer json (b sc) (PayloadMTime m) recipients = Ok o) /\
  (exists enc, m' = set_sealed (sha256_hex (b sc)) (slen (b sc)) enc m /\
     (m_Encryption m = None -> enc = mkEncryption "age" recipients)).
Proof.
  unfold Seal. intros Hs. inv_ok. boolp. split_and!; try done.
  - by intros ->.
  - eexists. done.
  - eexists. split; [done|]. intros ->. done.
Qed.
