(* ===== verification/FilePrep.v ===== *)
(** The compute leg of one file ([src/internal/engine/file.go]) and the retry backoff
    ([backoffFor], [engine.go]): change detection, read, scrub, seal, in that order. A panic is
    [None]; clock readings are an argument, one per place the code reads the clock. *)

From S2P Require Import Prelude GoLib Crypto GoTime GoJson Vocab StateDoc Naming Spec Manifest Upload.

(** ** Backoff *)

Definition backoffCap : Z := hour.

(** Shifting by a negative count panics. *)
Definition backoffFor (attempt spread : Z) : option Z :=
  let n := Z.min attempt 8 in
  if n <? 0 then None
  else
    let d := Z.min (int64 (Z.shiftl minute n)) backoffCap in
    let jitter := Z.quot (int64 (int64 (spread mod 9) * d)) 64 in
    Some (int64 (d - jitter)).

Definition keySpread (k : Key) : Z :=
  fnv64a (Sha256.bytes_of (SourceID k) ++ Sha256.bytes_of (ID k)).

(** ** One file *)

Record fileJob := mkFileJob {
  job_idx : nat;
  cand : Candidate;
  fp : Fingerprint;
  seen : bool
}.

Record clocks := mkClocks { at_parked : Z; at_stat : Z; at_seal : Z; at_backoff : Z }.

Definition recomputeWindow : Z := 24 * hour.

Definition unchangedByStat (key : Key) (fp : Fingerprint) (seen : bool) (c : Candidate)
    (staging : bool) (now : Z) : bool :=
  seen && (SourceSize fp =? Size c) && (SourceMTime fp =? MTime c) &&
  negb (SourceHash fp =? "")%string && (Path c =? observedPath key fp)%string &&
  negb (staging && (now - MTime c <? recomputeWindow)).

Definition scrubSource `{!Scrubber} (src : Source) (raw : string) (jsonl : bool)
    (err : option error) : result error ScrubResult :=
  if negb (scrubs src)
  then Ok (mkScrubResult (Unscrubbed raw "source scrub: false") 0 (slen raw) ∅ "")
  else match err with
       | Some e => Err e
       | None => Scrub raw (mkHint (Family src) jsonl)
       end.

Definition failAndBackOff (o : Options) (res : fileResult) (key : Key) (fp : Fingerprint)
    (why : string) (now : Z) : option fileResult :=
  let res := set_outcome (set_decision DecisionParked why (outcome res)) res in
  if DryRun o then Some res
  else
    let attempts := int64 (Attempts fp + 1) in
    match backoffFor attempts (keySpread key) with
    | None => None
    | Some d =>
        let next := mkFingerprint (fo_NativePath (outcome res)) (SourceSize fp) (SourceMTime fp)
          (SourceHash fp) (Enricher fp) (OutputHash fp) true why (now + d) attempts in
        Some (set_intent (mkIntent intentBackoff key next why) res)
    end.

Definition set_bytes_in (n : Z) (why : string) (o : FileOutcome) : FileOutcome :=
  mkFileOutcome (Fatal o) (fo_Derived o) (fo_SourceID o) (fo_NativePath o) (fo_RelPath o)
    (fo_ObjectKey o) (fo_Decision o) n (BytesOut o) (Density o) (RuleHits o) why.
Definition set_scrubbed (res : ScrubResult) (o : FileOutcome) : FileOutcome :=
  mkFileOutcome (Fatal o) (fo_Derived o) (fo_SourceID o) (fo_NativePath o) (fo_RelPath o)
    (fo_ObjectKey o) (fo_Decision o) (BytesIn o) (BytesOut o) (scrub_density res)
    (sr_RuleHits res) (fo_Reason o).
Definition set_object_key (k : string) (o : FileOutcome) : FileOutcome :=
  mkFileOutcome (Fatal o) (fo_Derived o) (fo_SourceID o) (fo_NativePath o) (fo_RelPath o)
    k (fo_Decision o) (BytesIn o) (BytesOut o) (Density o) (RuleHits o) (fo_Reason o).
Definition set_bytes_out (n : Z) (o : FileOutcome) : FileOutcome :=
  mkFileOutcome (Fatal o) (fo_Derived o) (fo_SourceID o) (fo_NativePath o) (fo_RelPath o)
    (fo_ObjectKey o) (fo_Decision o) (BytesIn o) n (Density o) (RuleHits o) (fo_Reason o).

(** The refreshed entry of a file whose content did not change. *)
Definition refreshed (c : Candidate) (fp : Fingerprint) : Fingerprint :=
  mkFingerprint (Path c) (Size c) (MTime c) (SourceHash fp) (Enricher fp) (OutputHash fp)
    false "" 0 0.

Section Prepare.
Context {scr : Scrubber} {con : Container}.
Variables (o : Options) (src : Source) (disc : Discovery) (staging : bool).

(** From the scrub on: what is left of [prepareFile] once the content is known to be new. *)
Definition seal_leg (key : Key) (c : Candidate) (fp : Fingerprint) (res : fileResult)
    (raw sourceHash changeHash : string) (mtime : Z) (clk : clocks)
    : option (fileResult * option pendingPut) :=
  let jsonl := match src_Sniff src with Some s => (Kind s =? "jsonl")%string | None => false end in
  match scrubSource src raw jsonl (scrubErr o) with
  | Err e =>
      r ← failAndBackOff o res key fp ("scrub failed closed: " +:+ Error e) (at_backoff clk);
      Some (r, None)
  | Ok scrubbed =>
      let res := set_outcome (set_scrubbed scrubbed (outcome res)) res in
      match mirrorKey o (src_ID src) (str_or (cand_Identity c) (RelPath c)) with
      | Err e =>
          Some (set_outcome (set_decision DecisionFailed (naming_error_text e) (outcome res)) res, None)
      | Ok objKey =>
          let res := set_outcome (set_object_key objKey (outcome res)) res in
          let manifest := manifestFor o src c disc sourceHash mtime scrubbed (at_seal clk) in
          match Seal manifest (Out scrubbed) (Recipients o) with
          | Err e => Some (set_outcome (set_decision DecisionFailed (Error e) (outcome res)) res, None)
          | Ok (object_, sealed) =>
              let res := set_outcome (set_bytes_out (slen object_) (outcome res)) res in
              if DryRun o
              then Some (set_outcome (set_decision DecisionShipped
                           (str_or (fo_Reason (outcome res)) "would ship (preview)") (outcome res)) res,
                         None)
              else Some (res, Some (mkPendingPut key objKey object_ (Some (ObjectMetadata sealed))
                     (mkFingerprint (Path c) (Size c) (MTime c) changeHash None "" false "" 0 0)))
          end
      end
  end.

Definition prepareFile (job : fileJob) (clk : clocks) : option (fileResult * option pendingPut) :=
  let c := cand job in
  let out := mkFileOutcome false false (src_ID src) (Path c) (RelPath c) "" DecisionUnset 0 0 (0, 1)
               ∅ "" in
  let res := mkFileResult (job_idx job) out no_intent None false false "" in
  let key := KeyOf (src_ID src) c in
  let fp := fp job in
  let seen := seen job in
  let newSnapshot := negb (Series c =? "")%string && negb (Path c =? observedPath key fp)%string in
  if Parked fp && (at_parked clk <? BackoffUntil fp) && negb newSnapshot
  then
    Some (set_outcome (set_decision DecisionSkipped
            ("parked until " +:+ format_rfc3339 (BackoffUntil fp) +:+ ": " +:+ LastError fp) out) res,
          None)
  else if negb (AlwaysLoad c) && unchangedByStat key fp seen c staging (at_stat clk)
  then Some (set_outcome (set_decision DecisionUnchanged "size and mtime unchanged" out) res, None)
  else
    match Load c with
    | Err e => r ← failAndBackOff o res key fp (Error e) (at_backoff clk); Some (r, None)
    | Ok payload =>
        let raw := Bytes payload in
        let out := set_bytes_in (slen raw) (Warning payload) out in
        let sourceHash := Hash raw in
        let changeHash := match Compare payload with Some c => Hash c | None => sourceHash end in
        let unit_ := if staging then Some (mkRawUnit (Path c) raw sourceHash) else None in
        let res := mkFileResult (job_idx job) out no_intent unit_ false false (Warning payload) in
        if seen && (changeHash =? SourceHash fp)%string
        then
          let res := set_outcome (set_decision DecisionUnchanged "content hash unchanged" out) res in
          Some (if DryRun o then res
                else set_intent (mkIntent intentRefresh key (refreshed c fp) "") res, None)
        else
          let shrank := seen && (Size c <? SourceSize fp) && (Path c =? observedPath key fp)%string in
          let res := if shrank
            then set_outcome (set_decision DecisionUnset "file shrank: truncation or rewrite" out) res
            else res in
          seal_leg key c fp res raw sourceHash changeHash (pl_MTime payload) clk
    end.
End Prepare.

(** ** Backoff: a ceiling, a floor, and no panic *)

Definition base_delay (attempt : Z) : Z := Z.min (minute * 2 ^ Z.min attempt 8) hour.

Lemma base_delay_range attempt : 0 <= attempt -> minute <= base_delay attempt <= hour.
Proof.
  intros H. unfold base_delay. split; [|lia].
  assert (1 <= 2 ^ Z.min attempt 8) as Hp by (apply (Z.pow_le_mono_r 2 0); lia).
  revert Hp. generalize (2 ^ Z.min attempt 8). intros p Hp. unfold hour, minute, second in *. lia.
Qed.

Lemma backoffFor_delay attempt spread :
  0 <= attempt ->
  backoffFor attempt spread
  = Some (base_delay attempt - (spread mod 9) * base_delay attempt / 64).
Proof.
  intros H. pose proof (base_delay_range attempt H) as Hb. unfold backoffFor.
  destruct (Z.ltb_spec (Z.min attempt 8) 0); [lia|].
  pose proof (Z.mod_pos_bound spread 9) as Hs.
  assert (2 ^ Z.min attempt 8 <= 2 ^ 8) as Hp by (apply Z.pow_le_mono_r; lia).
  assert (1 <= 2 ^ Z.min attempt 8) as Hp1 by (apply (Z.pow_le_mono_r 2 0); lia).
  rewrite Z.shiftl_mul_pow2 by lia.
  rewrite (int64_id (minute * _)) by (unfold minute, second; lia).
  fold (base_delay attempt). unfold backoffCap. fold (base_delay attempt).
  set (d := base_delay attempt) in *. unfold hour, minute, second in Hb.
  rewrite (int64_id (spread mod 9)) by lia.
  assert (0 <= spread mod 9 * d <= 8 * d) by nia.
  rewrite (int64_id (spread mod 9 * d)) by lia.
  rewrite Z.quot_div_nonneg by lia.
  assert (0 <= spread mod 9 * d / 64 <= d) by (split; [apply Z.div_pos; lia|apply Z.div_le_upper_bound; lia]).
  rewrite int64_id by lia. done.
Qed.

(** A file that keeps failing is retried after a minute doubled per failure, never more than an
    hour later and never more than an eighth sooner; the computation neither overflows nor panics
    for any attempt count the store can hold. *)
Theorem backoffFor_bounds attempt spread :
  0 <= attempt ->
  exists d, backoffFor attempt spread = Some d /\
    d <= base_delay attempt /\ 7 * base_delay attempt <= 8 * d /\ d <= hour /\
    (attempt <= 5 -> base_delay attempt = minute * 2 ^ attempt).
Proof.
  intros H. pose proof (base_delay_range attempt H) as Hb.
  eexists. split; [by apply backoffFor_delay|].
  pose proof (Z.mod_pos_bound spread 9) as Hs. set (d := base_delay attempt) in *.
  unfold hour, minute, second in Hb.
  assert (0 <= spread mod 9 * d <= 8 * d) by nia.
  assert (0 <= spread mod 9 * d / 64) by (apply Z.div_pos; lia).
  assert (64 * (spread mod 9 * d / 64) <= spread mod 9 * d) by (apply Z.mul_div_le; lia).
  split_and!; [lia|lia|unfold hour, minute, second; lia|].
  intros Ha. unfold d, base_delay. rewrite (Z.min_l attempt 8) by lia.
  assert (2 ^ attempt <= 2 ^ 5) by (apply Z.pow_le_mono_r; lia).
  unfold hour, minute, second. lia.
Qed.

Lemma backoffFor_bounds_witness :
  exists d, backoffFor 3 12345678901234567890 = Some d /\
    d <= base_delay 3 /\ 7 * base_delay 3 <= 8 * d /\ d <= hour /\
    (3 <= 5 -> base_delay 3 = minute * 2 ^ 3).
Proof. apply (backoffFor_bounds 3 12345678901234567890). lia. Defined.

(** ** What the compute leg promises the loop *)

Record prepared_ok (o : Options) (src : Source) (job : fileJob) (r : fileResult)
    (p : option pendingPut) : Prop := {
  ok_idx : idx r = job_idx job;
  ok_quiet : Fatal (outcome r) = false /\ unavailable r = false /\ offline r = false;
  ok_intent :
    match kind (r_intent r) with
    | intentNone => r_intent r = no_intent
    | intentShipped => False
    | intentRefresh =>
        fo_Decision (outcome r) = DecisionUnchanged /\ seen job = true /\
        in_key (r_intent r) = KeyOf (src_ID src) (cand job) /\
        SourceHash (in_fp (r_intent r)) = SourceHash (fp job) /\ Attempts (in_fp (r_intent r)) = 0
    | intentBackoff =>
        fo_Decision (outcome r) = DecisionParked /\
        in_key (r_intent r) = KeyOf (src_ID src) (cand job) /\
        SourceHash (in_fp (r_intent r)) = SourceHash (fp job) /\
        Attempts (in_fp (r_intent r)) = int64 (Attempts (fp job) + 1) /\
        0 <= Attempts (in_fp (r_intent r))
    end;
  ok_pending :
    match p with
    | None => fo_Decision (outcome r) <> DecisionUnset
    | Some pp =>
        DryRun o = false /\ r_intent r = no_intent /\
        pp_key pp = KeyOf (src_ID src) (cand job) /\ Parked (next pp) = false /\
        Attempts (next pp) = 0
    end;
  ok_dry : DryRun o = true -> r_intent r = no_intent
}.

Lemma backoffFor_nonneg attempt spread d : backoffFor attempt spread = Some d -> 0 <= attempt.
Proof.
  unfold backoffFor. destruct (Z.ltb_spec (Z.min attempt 8) 0); [done|]. lia.
Qed.

Section PreparedOk.
Context {scr : Scrubber} {con : Container}.
Variables (o : Options) (src : Source) (disc : Discovery) (staging : bool).

(** The results [prepareFile] has before it decides: quiet, with no intent. *)
Definition quiet (job : fileJob) (r : fileResult) : Prop :=
  idx r = job_idx job /\ Fatal (outcome r) = false /\ unavailable r = false /\ offline r = false /\
  r_intent r = no_intent.

Lemma failAndBackOff_ok job r why now r' :
  quiet job r ->
  failAndBackOff o r (KeyOf (src_ID src) (cand job)) (fp job) why now = Some r' ->
  prepared_ok o src job r' None.
Proof.
  intros (H1 & H2 & H3 & H4 & H5). unfold failAndBackOff. destruct (DryRun o) eqn:Hdry.
  - intros [= <-]. constructor; cbn; rewrite ?H5; cbn; auto; done.
  - destruct (backoffFor _ _) eqn:Hb; [|done]. apply backoffFor_nonneg in Hb.
    intros [= <-]. constructor; cbn; auto; congruence.
Qed.

Lemma decided_ok job r d why :
  quiet job r -> d <> DecisionUnset ->
  prepared_ok o src job (set_outcome (set_decision d why (outcome r)) r) None.
Proof.
  intros (H1 & H2 & H3 & H4 & H5) Hd. constructor; cbn; rewrite ?H5; cbn; auto.
Qed.

Lemma seal_leg_ok job c r raw sh ch mt clk r' p :
  quiet job r -> c = cand job ->
  seal_leg o src disc (KeyOf (src_ID src) c) c (fp job) r raw sh ch mt clk = Some (r', p) ->
  prepared_ok o src job r' p.
Proof.
  intros Hq ->. unfold seal_leg.
  set (jsonl := match src_Sniff src with Some _ => _ | None => _ end).
  destruct (scrubSource _ _ _ _) as [sc|e].
  2:{ destruct (failAndBackOff _ _ _ _ _ _) eqn:Hf; [|done].
      intros [= <- <-]. by eapply failAndBackOff_ok. }
  destruct (mirrorKey _ _ _) as [k|e]; [|intros [= <- <-]; by apply decided_ok].
  destruct (Seal _ _ _) as [[ob sealed]|e]; [|intros [= <- <-]; by apply decided_ok].
  destruct (DryRun o) eqn:Hdry; intros [= <- <-]; [by apply decided_ok|].
  destruct Hq as (H1 & H2 & H3 & H4 & H5). constructor; cbn; rewrite ?H5; cbn; auto.
Qed.

Lemma prepareFile_ok job clk r p :
  prepareFile o src disc staging job clk = Some (r, p) -> prepared_ok o src job r p.
Proof.
  unfold prepareFile. set (out := mkFileOutcome _ _ _ _ _ _ _ _ _ _ _ _).
  set (res := mkFileResult _ _ _ None _ _ _).
  assert (quiet job res) as Hq by done.
  match goal with |- (if ?t then _ else _) = _ -> _ => destruct t end;
    [intros [= <- <-]; by apply (decided_ok job res)|].
  match goal with |- (if ?t then _ else _) = _ -> _ => destruct t end;
    [intros [= <- <-]; by apply (decided_ok job res)|].
  destruct (Load (cand job)) as [pl|e].
  2:{ destruct (failAndBackOff _ _ _ _ _ _) eqn:Hf; [|done].
      intros [= <- <-]. by eapply failAndBackOff_ok. }
  set (sh := Hash (Bytes pl)). set (ch := match Compare pl with Some _ => _ | None => _ end).
  destruct (seen job && (ch =? SourceHash (fp job))%string) eqn:Hsame.
  - boolp. intros [= <- <-]. destruct (DryRun o) eqn:Hdry; constructor; cbn; auto; try done.
    congruence.
  - intros Hs. eapply seal_leg_ok; [|reflexivity|exact Hs]. case_goal; done.
Qed.
End PreparedOk.

(** ** The properties of the compute leg *)

(** Nothing is sent, and one of the conditions for sending failed. *)
Ltac refuse :=
  split; [done|]; intros (? & ? & ? & ? & ? & ? & ? & ? & ? & ? & ? & ?); congruence.

(** The hash a payload is compared and recorded by. *)
Definition change_hash (pl : Payload) : string :=
  match Compare pl with Some c => Hash c | None => Hash (Bytes pl) end.
Definition jsonl_of (src : Source) : bool :=
  match src_Sniff src with Some s => (Kind s =? "jsonl")%string | None => false end.

Section Properties.
Context {scr : Scrubber} {con : Container}.
Variables (o : Options) (src : Source) (disc : Discovery) (staging : bool).

Lemma failAndBackOff_total r key fp why now :
  0 <= Attempts fp < 2 ^ 63 - 1 -> exists r', failAndBackOff o r key fp why now = Some r'.
Proof.
  intros H. unfold failAndBackOff. destruct (DryRun o); [eauto|].
  rewrite int64_id by lia. rewrite backoffFor_delay by lia. eauto.
Qed.

Lemma prepareFile_total job clk :
  0 <= Attempts (fp job) < 2 ^ 63 - 1 ->
  exists r p, prepareFile o src disc staging job clk = Some (r, p).
Proof.
  intros Ha. unfold prepareFile.
  match goal with |- context [if ?t then _ else _] => destruct t end; [eauto|].
  match goal with |- context [if ?t then _ else _] => destruct t end; [eauto|].
  destruct (Load (cand job)) as [pl|e].
  2:{ edestruct failAndBackOff_total as [r Hr]; [exact Ha|]. rewrite Hr. cbn. eauto. }
  match goal with |- context [if ?t then _ else _] => destruct t end; [destruct (DryRun o); eauto|].
  unfold seal_leg. destruct (scrubSource _ _ _ _) as [sc|e].
  2:{ edestruct failAndBackOff_total as [r Hr]; [exact Ha|]. rewrite Hr. cbn. eauto. }
  destruct (mirrorKey _ _ _); [|eauto]. destruct (Seal _ _ _) as [[? ?]|]; [|eauto].
  destruct (DryRun o); eauto.
Qed.

(** The compute leg always decides, and never commits a ship itself: for every attempt count
    the store can hold it returns; a result either carries a sealed object to upload and no durable
    write, or a decision; its only durable writes refresh or back off this file's own entry, with
    the recorded hash of the last completed ship kept as it was. *)
Theorem prepareFile_contract job clk :
  0 <= Attempts (fp job) < 2 ^ 63 - 1 ->
  exists r p, prepareFile o src disc staging job clk = Some (r, p) /\ prepared_ok o src job r p.
Proof.
  intros Ha. destruct (prepareFile_total job clk Ha) as (r & p & H).
  exists r, p. split; [done|]. by eapply prepareFile_ok.
Qed.

(** C10: a file is sent exactly when it should be: it is not waiting out a backoff, its stat or the
    source's nature calls for a read, the read succeeds, the content differs from what last shipped,
    and scrubbing, naming and sealing all succeed. *)
Theorem prepareFile_sends_iff job clk r p :
  DryRun o = false -> prepareFile o src disc staging job clk = Some (r, p) ->
  let c := cand job in
  let key := KeyOf (src_ID src) c in
  (p <> None <->
   (Parked (fp job) && (at_parked clk <? BackoffUntil (fp job)) &&
      negb (negb (Series c =? "")%string && negb (Path c =? observedPath key (fp job))%string)) = false /\
   (negb (AlwaysLoad c) && unchangedByStat key (fp job) (seen job) c staging (at_stat clk)) = false /\
   exists pl sc k ob m,
     Load c = Ok pl /\ (seen job && (change_hash pl =? SourceHash (fp job))%string) = false /\
     scrubSource src (Bytes pl) (jsonl_of src) (scrubErr o) = Ok sc /\
     mirrorKey o (src_ID src) (str_or (cand_Identity c) (RelPath c)) = Ok k /\
     Seal (manifestFor o src c disc (Hash (Bytes pl)) (pl_MTime pl) sc (at_seal clk)) (Out sc)
       (Recipients o) = Ok (ob, m)).
Proof.
  intros Hdry H c key. revert H. unfold prepareFile. fold c key.
  destruct (Parked _ && _ && _) eqn:Hp; [intros [= <- <-]; refuse|].
  destruct (negb (AlwaysLoad c) && _) eqn:Hs; [intros [= <- <-]; refuse|].
  destruct (Load c) as [pl|e] eqn:Hl.
  2:{ destruct (failAndBackOff _ _ _ _ _ _); [|done]. intros [= <- <-]. refuse. }
  fold (change_hash pl).
  destruct (seen job && (change_hash pl =? _)%string) eqn:Hc.
  { intros [= <- <-]. refuse. }
  unfold seal_leg. fold (jsonl_of src).
  destruct (scrubSource _ _ _ _) as [sc|e] eqn:Hsc.
  2:{ destruct (failAndBackOff _ _ _ _ _ _); [|done]. intros [= <- <-]. refuse. }
  destruct (mirrorKey _ _ _) as [k|e] eqn:Hk; [|intros [= <- <-]; refuse].
  destruct (Seal _ _ _) as [[ob m]|e] eqn:Hseal; [|intros [= <- <-]; refuse].
  rewrite Hdry. intros [= <- <-]. split; [|done]. intros _. split_and!; [done..|].
  exists pl, sc, k, ob, m. done.
Qed.

Lemma prepared_sealed job clk r pp :
  prepareFile o src disc staging job clk = Some (r, Some pp) ->
  exists pl sc json m,
    Load (cand job) = Ok pl /\
    (if scrubs src then scrubErr o = None /\
       Scrub (Bytes pl) (mkHint (Family src) (jsonl_of src)) = Ok sc
     else Out sc = Unscrubbed (Bytes pl) "source scrub: false") /\
    via (Out sc) <> "" /\ Recipients o <> [] /\
    Encode m = Ok json /\
    writeContainer json (b (Out sc)) (Some (pl_MTime pl)) (Recipients o) = Ok (obj pp) /\
    m_SourceHash m = sha256_hex (Bytes pl) /\ ShippedHash m = sha256_hex (b (Out sc)) /\
    m_Encryption m = Some (mkEncryption "age" (Recipients o)) /\
    md pp = Some (ObjectMetadata m) /\
    mirrorKey o (src_ID src) (str_or (cand_Identity (cand job)) (RelPath (cand job)))
      = Ok (objectKey pp) /\
    SourceHash (next pp) = change_hash pl.
Proof.
  unfold prepareFile.
  match goal with |- (if ?t then _ else _) = _ -> _ => destruct t end; [done|].
  match goal with |- (if ?t then _ else _) = _ -> _ => destruct t end; [done|].
  destruct (Load (cand job)) as [pl|e]; [|by destruct (failAndBackOff _ _ _ _ _ _)].
  match goal with |- (if ?t then _ else _) = _ -> _ => destruct t end; [done|].
  unfold seal_leg. fold (jsonl_of src).
  destruct (scrubSource _ _ _ _) as [sc|e] eqn:Hsc; [|by destruct (failAndBackOff _ _ _ _ _ _)].
  destruct (mirrorKey _ _ _) as [k|e]; [|done].
  destruct (Seal _ _ _) as [[ob m]|e] eqn:Hseal; [|done].
  destruct (DryRun o); [done|]. intros [= <- <-].
  apply Seal_spec in Hseal as (Hr & Hv & _ & Hh & _ & (json & He & Hw) & (enc & Hm & Henc)).
  exists pl, sc, json, m. cbn [obj md objectKey next SourceHash]. split_and!; try done.
  - unfold scrubSource in Hsc. destruct (scrubs src); cbn [negb] in Hsc.
    + by destruct (scrubErr o).
    + by injection Hsc as <-.
  - by rewrite Hm.
  - rewrite Hm, (Henc eq_refl). done.
Qed.

(** C9: redaction fails closed: whatever leaves for the network is the sealing, to at least one
    recipient, of bytes the scrubber returned for exactly what was read (or of a source declared
    unscrubbed), under a manifest with the true digests of both and under the file's own key; the
    fingerprint to commit records the content that was read. *)
Theorem sealed_only_scrubbed job clk r pp :
  prepareFile o src disc staging job clk = Some (r, Some pp) ->
  exists pl sc json m,
    Load (cand job) = Ok pl /\
    (if scrubs src then scrubErr o = None /\
       Scrub (Bytes pl) (mkHint (Family src) (jsonl_of src)) = Ok sc
     else Out sc = Unscrubbed (Bytes pl) "source scrub: false") /\
    via (Out sc) <> "" /\ Recipients o <> [] /\
    Encode m = Ok json /\
    writeContainer json (b (Out sc)) (Some (pl_MTime pl)) (Recipients o) = Ok (obj pp) /\
    m_SourceHash m = sha256_hex (Bytes pl) /\ ShippedHash m = sha256_hex (b (Out sc)) /\
    m_Encryption m = Some (mkEncryption "age" (Recipients o)) /\
    md pp = Some (ObjectMetadata m) /\
    mirrorKey o (src_ID src) (str_or (cand_Identity (cand job)) (RelPath (cand job)))
      = Ok (objectKey pp) /\
    SourceHash (next pp) = change_hash pl.
Proof. apply prepared_sealed. Qed.
End Properties.

(** ** A concrete run *)

Module SampleRun.
#[local] Instance scrubber : Scrubber := fun raw _ =>
  Ok (mkScrubResult (mkScrubbed raw "scrubber") 0 (slen raw) ∅ "bytes").
#[local] Instance container : Container := {|
  Encode := fun m => Ok (m_SourceHash m);
  writeContainer := fun json payload _ _ => Ok (json +:+ payload)
|}.
Definition src : Source := sample_source "/home/ann/.a".
Definition generation : string := "ba7816bf8f01cfea414140de5dae2223b00361a396177a9cb410ff61f20015ad".
Definition resolved : Resolved := mkResolved src "/home/ann/.a" "" true generation.
Definition options (dry : bool) : Options :=
  mkOptions (mkPlan "org" "/home/ann/.state" 10 hour [resolved] [] [] 1 false)
    "01234567-89ab-4cde-8fab-0123456789ab" (replicate 32 7) ["age1x"] false dry "run" 0 0 0
    (mkClient "1" "" false "" "" "") "ann" None.
Definition candidate (load : result error Payload) : Candidate :=
  mkCandidate "" None false "/home/ann/.a/x" "x" "" "" load 3 (5 * second) None.
Definition the_file : Candidate := candidate (Ok (mkPayload "abc" (5 * second) "" None)).
Definition disc : Discovery :=
  mkDiscovery (Some Collected) [] 0 "" "" SniffOK "" [the_file] "" 0 false.
Definition job : fileJob := mkFileJob 0 the_file zero_fp false.
Definition clk : clocks := mkClocks (9 * second) (9 * second) (9 * second) (9 * second).
Definition sealed : fileResult * pendingPut := Eval vm_compute in
  match prepareFile (options false) src disc false job clk with
  | Some (r, Some pp) => (r, pp)
  | _ => (mkFileResult 0 zero_outcome no_intent None false false "", st_pending (sample_staged "" ""))
  end.

Lemma seals : prepareFile (options false) src disc false job clk = Some (sealed.1, Some sealed.2).
Proof. vm_compute. reflexivity. Qed.

Lemma prepareFile_contract_witness :
  exists r p, prepareFile (options false) src disc false job clk = Some (r, p) /\
    prepared_ok (options false) src job r p.
Proof. apply (prepareFile_contract (options false) src disc false job clk). vm_compute. split; congruence. Defined.

Lemma prepareFile_sends_iff_witness :
  prepareFile (options false) src disc false job clk = Some (sealed.1, Some sealed.2) /\
  exists pl sc k ob m,
     Load (cand job) = Ok pl /\ (seen job && (change_hash pl =? SourceHash (fp job))%string) = false /\
     scrubSource src (Bytes pl) (jsonl_of src) (scrubErr (options false)) = Ok sc /\
     mirrorKey (options false) (src_ID src) (str_or (cand_Identity (cand job)) (RelPath (cand job)))
       = Ok k /\
     Seal (manifestFor (options false) src (cand job) disc (Hash (Bytes pl)) (pl_MTime pl) sc
             (at_seal clk)) (Out sc) (Recipients (options false)) = Ok (ob, m).
Proof.
  split; [exact seals|].
  apply (prepareFile_sends_iff (options false) src disc false job clk sealed.1 (Some sealed.2)
           eq_refl seals).
  discriminate.
Defined.

Lemma sealed_only_scrubbed_witness :
  prepareFile (options false) src disc false job clk = Some (sealed.1, Some sealed.2) /\
  exists pl sc json m,
    Load (cand job) = Ok pl /\
    (if scrubs src then scrubErr (options false) = None /\
       Scrub (Bytes pl) (mkHint (Family src) (jsonl_of src)) = Ok sc
     else Out sc = Unscrubbed (Bytes pl) "source scrub: false") /\
    via (Out sc) <> "" /\ Recipients (options false) <> [] /\
    Encode m = Ok json /\
    writeContainer json (b (Out sc)) (Some (pl_MTime pl)) (Recipients (options false)) = Ok (obj sealed.2) /\
    m_SourceHash m = sha256_hex (Bytes pl) /\ ShippedHash m = sha256_hex (b (Out sc)) /\
    m_Encryption m = Some (mkEncryption "age" (Recipients (options false))) /\
    md sealed.2 = Some (ObjectMetadata m) /\
    mirrorKey (options false) (src_ID src) (str_or (cand_Identity (cand job)) (RelPath (cand job)))
      = Ok (objectKey sealed.2) /\
    SourceHash (next sealed.2) = change_hash pl.
Proof.
  split; [exact seals|].
  exact (sealed_only_scrubbed (options false) src disc false job clk sealed.1 sealed.2 seals).
Defined.
End SampleRun.
