(* ===== verification/Pool.v ===== *)
(** One source's file pass: [src/internal/engine/pool.go]. Everything the loop goroutine writes when a
    result is settled is the [ledger]; what is in flight around it, the jobs being computed, the
    results and batches in the two channels, the groups being uploaded and the accumulator, is the
    [flight]. The loop and its goroutines interleave as the step relation [step]: a goroutine
    finishes in any order and at any time, the loop admits, stages, settles and decides. The clock,
    the context and the outcome of each document write are chosen at every step.

    The compute leg is the interface [FileWorker], which [FilePrep] implements; the upload port is
    [UploadPort]. *)

From S2P Require Import Prelude GoLib GoJson Vocab StateDoc Store Spec Manifest Upload FilePrep.

(** ** The compute leg, as the loop sees it *)

Class FileWorker := prepares : fileJob -> fileResult -> option pendingPut -> Prop.

Class FileWorkerLaws (o : Options) (src : Source) `{!FileWorker} : Prop := {
  worker_ok : forall j r p, prepares j r p -> prepared_ok o src j r p;
  worker_total : forall j, 0 <= Attempts (fp j) < 2 ^ 63 - 1 -> exists r p, prepares j r p
}.

(** ** Widths *)

(** [gomaxprocs] is [runtime.GOMAXPROCS(0)]. *)
Definition concurrency (o : Options) (gomaxprocs candidates : Z) : Z :=
  let w := if Workers o <=? 0 then gomaxprocs else Workers o in
  Z.max 1 (Z.min w candidates).

Definition uploadConcurrency (o : Options) (compute : Z) : Z :=
  if 0 <? UploadWorkers o then UploadWorkers o else 8 * compute.

(** ** What settling a result writes *)

Record tally := mkTally {
  t_Shipped : Z; t_Unchanged : Z; t_Skipped : Z; t_Parked : Z; t_Failed : Z
}.

Definition bump (d : Decision) (t : tally) : tally :=
  let 'mkTally s u k p f := t in
  match d with
  | DecisionShipped => mkTally (s + 1) u k p f
  | DecisionUnchanged => mkTally s (u + 1) k p f
  | DecisionSkipped => mkTally s u (k + 1) p f
  | DecisionParked => mkTally s u k (p + 1) f
  | DecisionFailed => mkTally s u k p (f + 1)
  | DecisionUnset => t
  end.

(** The fields of the source outcome a pass writes. *)
Record notes := mkNotes {
  n_Unreadable : Z; n_UnreadableReason : string; n_Reason : string
}.

Record Entry := mkEntry {
  en_Decision : Decision;
  en_SourceID : string;
  en_File : string;
  en_BytesIn : Z;
  en_BytesOut : Z;
  en_Density : Z * Z;
  en_RuleHits : gmap string Z;
  en_ObjectKey : string;
  en_ConfigVersion : Z;
  en_Reason : string
}.

Record ledger := mkLedger {
  buf : commitBuffer;
  dir : world;
  budget : Z;
  slots : list (option FileOutcome);
  units : list (option RawUnit);
  decided : Z;
  counts : tally;
  note : notes;
  fatal : bool;
  fatalReason : string;
  uploadHalted : bool;
  p_offline : bool;
  haltReason : string;
  unchangedElided : Z;
  audit : list Entry;
  progress : list (Z * FileOutcome)
}.

Definition set_store_of (bf : commitBuffer) (w : world) (L : ledger) : ledger :=
  mkLedger bf w (budget L) (slots L) (units L) (decided L) (counts L) (note L) (fatal L)
    (fatalReason L) (uploadHalted L) (p_offline L) (haltReason L) (unchangedElided L) (audit L)
    (progress L).

Section Fold.
(** Whether the run has a log and a progress callback; the detail a schema failure is reported with. *)
Variables (o : Options) (src : Source) (hasLog hasProgress : bool) (schema_detail : string).

Definition commit_error_text (e : state_error) : string :=
  match e with
  | SchemaInvalid => "state: document does not satisfy its schema: " +:+ schema_detail
  | WriteFailed msg => msg
  | _ => ""
  end.

Definition applyIntent (e : io) (r : fileResult) (L : ledger) : fileResult * ledger :=
  match kind (r_intent r) with
  | intentNone => (r, L)
  | k =>
      let '(err, bf, w) := Commit e (in_key (r_intent r)) (in_fp (r_intent r)) (buf L) (dir L) in
      let L := set_store_of bf w L in
      match err with
      | None => (r, L)
      | Some err =>
          let text := commit_error_text err in
          let out :=
            match k with
            | intentRefresh => set_decision DecisionFailed text (outcome r)
            | intentShipped =>
                set_decision DecisionFailed ("upload succeeded but commit failed: " +:+ text) (outcome r)
            | _ =>
                set_reason (reason (r_intent r) +:+ " (and the backoff could not be recorded: " +:+
                            text +:+ ")") (outcome r)
            end in
          (set_outcome out r, L)
      end
  end.

Definition entry_of (f : FileOutcome) : Entry :=
  mkEntry (fo_Decision f) (fo_SourceID f) (fo_NativePath f) (BytesIn f) (BytesOut f) (Density f)
    (RuleHits f) (fo_ObjectKey f) (ConfigVersion (o_Plan o)) (fo_Reason f).

Definition refunded (d : Decision) : bool :=
  match d with DecisionUnchanged | DecisionSkipped => true | _ => false end.

Definition fold (e : io) (r : fileResult) (L : ledger) : ledger :=
  if (Fatal (outcome r) && fatal L) || (unavailable r && uploadHalted L)
  then (applyIntent e r L).2
  else
    let '(r, L) := applyIntent e r L in
    let f := outcome r in
    let d := fo_Decision f in
    let warned := negb (loadWarning r =? "")%string in
    let stops := Fatal f in
    let halts := negb (Fatal f) && unavailable r in
    let told := negb stops && negb halts in
    let elide := told && hasLog && bool_decide (d = DecisionUnchanged) && (BytesIn f =? 0) in
    let writes := told && hasLog && negb elide in
    mkLedger (buf L) (dir L)
      (if refunded d then budget L + 1 else budget L)
      (<[idx r := Some f]> (slots L)) (<[idx r := unit_ r]> (units L))
      (decided L + 1) (bump d (counts L))
      (if warned then mkNotes (n_Unreadable (note L) + 1) (loadWarning r) (loadWarning r) else note L)
      (stops || fatal L) (if stops then fo_Reason f else fatalReason L)
      (halts || uploadHalted L) (if halts then offline r else p_offline L)
      (if halts then fo_Reason f else haltReason L)
      (if elide then unchangedElided L + 1 else unchangedElided L)
      (if writes then audit L ++ [entry_of f] else audit L)
      (if told && hasProgress then progress L ++ [(decided L + 1, f)] else progress L).
End Fold.

(** ** The loop and what is in flight *)

Inductive phase := Admitting | Selecting | Finished.
#[global] Instance phase_eq_dec : EqDecision phase.
Proof. solve_decision. Defined.

(** [uploads] is the history of verdicts, kept for the theorems: no step reads it. *)
Record flight (W : Type) := mkFlight {
  at_ : phase;
  next_ : nat;
  inFlight : Z;
  computing : Z;
  inFlightBytes : Z;
  charges : gmap nat Z;
  stopped : option error;
  jobs : list fileJob;
  results : list (fileResult * option pendingPut);
  staged : batcher;
  groups : list (list stagedUpload);
  batches : list (list fileResult);
  port : W;
  uploads : list (stagedUpload * option error)
}.
Arguments mkFlight {W}. Arguments at_ {W}. Arguments next_ {W}. Arguments inFlight {W}.
Arguments computing {W}. Arguments inFlightBytes {W}. Arguments charges {W}.
Arguments stopped {W}. Arguments jobs {W}. Arguments results {W}. Arguments staged {W}.
Arguments groups {W}. Arguments batches {W}. Arguments port {W}. Arguments uploads {W}.

Section Pass.
Context {W : Type} `{!UploadPort W, !FileWorker}.
Variables (o : Options) (src : Source) (disc : Discovery) (staging : bool).
Variables (hasLog hasProgress : bool) (schema_detail : string).
(** [platform.MaxInFlightBytes()] and [runtime.GOMAXPROCS(0)]. *)
Variables (maxInFlightBytes gomaxprocs : Z).

Definition candidates : list Candidate := Candidates disc.
Definition n : nat := length candidates.
Definition computeLimit : Z := concurrency o gomaxprocs (Z.of_nat n).
Definition uploadLimit : Z := uploadConcurrency o computeLimit.
Definition limit_ : Z := computeLimit + uploadLimit.
Definition maxObjects : Z := Z.max 1 (Z.min maxBatchObjects (Z.quot uploadLimit 2)).

Definition state : Type := flight W * ledger.

(** [charge], with the cache it leaves; [now] is the clock [unchangedByStat] reads. *)
Definition charge (now : Z) (i : nat) (st : state) : Z * gmap nat Z :=
  let '(F, L) := st in
  match candidates !! i with
  | None => (0, charges F)
  | Some c =>
      if negb (IsZstd (Path c)) then (Size c, charges F)
      else match charges F !! i with
           | Some v => (v, charges F)
           | None =>
               let key := KeyOf (src_ID src) c in
               let found := Get (buf L) key in
               let fp := default zero_fp found in
               let v := if unchangedByStat key fp (bool_decide (is_Some found)) c staging now
                        then Size c else LoadBytes c (MaxFileBytes src) in
               (v, <[i := v]> (charges F))
           end
  end.

(** The gates of [canAdmit] on one more file, in the order they matter. *)
Inductive gate :=
  | GateClosed
  | GateStop (err : error)
  | GateBudget
  | GateMemory
  | GateOpen.

Definition canAdmit (ctx : option error) (now : Z) (st : state) : gate :=
  let '(F, L) := st in
  if bool_decide (is_Some (stopped F)) || fatal L || uploadHalted L || (n <=? next_ F)%nat
  then GateClosed
  else match ctx with
       | Some err => GateStop err
       | None =>
           if budget L <=? 0 then GateBudget
           else if (0 <? inFlight F) && (maxInFlightBytes <? inFlightBytes F + (charge now (next_ F) st).1)
           then GateMemory
           else GateOpen
       end.

Definition set_budget (n : Z) (L : ledger) : ledger :=
  mkLedger (buf L) (dir L) n (slots L) (units L) (decided L) (counts L) (note L) (fatal L)
    (fatalReason L) (uploadHalted L) (p_offline L) (haltReason L) (unchangedElided L) (audit L)
    (progress L).

(** One more file: its fingerprint is read here, before the goroutine starts. *)
Definition launch (now : Z) (c : Candidate) (st : state) : state :=
  let '(F, L) := st in
  let '(sz, cache) := charge now (next_ F) st in
  let found := Get (buf L) (KeyOf (src_ID src) c) in
  let job := mkFileJob (next_ F) c (default zero_fp found) (bool_decide (is_Some found)) in
  (mkFlight (at_ F) (S (next_ F)) (inFlight F + 1) (computing F + 1) (inFlightBytes F + sz) cache
     (stopped F) (jobs F ++ [job]) (results F) (staged F) (groups F) (batches F) (port F) (uploads F),
   set_budget (budget L - 1) L).

(** The loop leaves the admission loop: it records a cancelled context, sends what is held when no
    compute is left to join it, and ends when nothing is in flight. The size of the candidate the
    memory gate refused stays cached. *)
Definition close_turn (g : gate) (now : Z) (st : state) : state :=
  let '(F, L) := st in
  let stop := match g with GateStop err => Some err | _ => stopped F end in
  let cache := match g with GateMemory => (charge now (next_ F) st).2 | _ => charges F end in
  let '(sent, held) := if computing F =? 0 then batcher_flush (staged F) else ([], staged F) in
  (mkFlight (if inFlight F =? 0 then Finished else Selecting) (next_ F) (inFlight F) (computing F)
     (inFlightBytes F) cache stop (jobs F) (results F) held (groups F ++ sent) (batches F) (port F)
     (uploads F), L).

(** [settle]: a decided file releases its slot and its share of the gate, then is folded. *)
Definition settle (now : Z) (e : io) (r : fileResult) (st : state) : state :=
  let '(F, L) := st in
  let '(sz, cache) := charge now (idx r) st in
  (mkFlight (at_ F) (next_ F) (inFlight F - 1) (computing F) (inFlightBytes F - sz)
     (delete (idx r) cache) (stopped F) (jobs F) (results F) (staged F) (groups F) (batches F)
     (port F) (uploads F),
   fold o hasLog hasProgress schema_detail e r L).

Fixpoint settle_all (now : Z) (env : nat -> io) (rs : list fileResult) (st : state) : state :=
  match rs with
  | [] => st
  | r :: rs => settle_all now (fun k => env (S k)) rs (settle now (env O) r st)
  end.

Definition set_staged (b : batcher) (sent : list (list stagedUpload)) (st : state) : state :=
  let '(F, L) := st in
  (mkFlight (at_ F) (next_ F) (inFlight F) (computing F) (inFlightBytes F) (charges F) (stopped F)
     (jobs F) (results F) b (groups F ++ sent) (batches F) (port F) (uploads F), L).

Definition latched (L : ledger) : bool := fatal L || uploadHalted L.

(** A result arrives: [stageUpload] for a sealed object, [settle] for the rest. *)
Definition on_result (now : Z) (e : io) (r : fileResult) (p : option pendingPut) (st : state)
    : state :=
  let L := st.2 in
  match p with
  | None => settle now e r st
  | Some pp =>
      let it := mkStaged r pp in
      if latched L then settle now e (abandon (fatal L) (haltReason L) it) st
      else let '(sent, b) := add maxObjects it (slen (obj pp)) (staged st.1) in set_staged b sent st
  end.

(** [drainStaged], asked after a batch was settled. *)
Definition drainStaged (st : state) : list fileResult * state :=
  let '(F, L) := st in
  if negb (latched L) then ([], st)
  else let '(its, b) := take_items (staged F) in
       (map (abandon (fatal L) (haltReason L)) its, set_staged b [] st).

(** A batch arrives: every member is settled, then what a latch leaves unsent. *)
Definition on_batch (now : Z) (env : nat -> io) (done_ : list fileResult) (st : state) : state :=
  let st := settle_all now env done_ st in
  let '(drained, st) := drainStaged st in
  settle_all now (fun k => env (length done_ + k)%nat) drained st.

Definition with_phase (ph : phase) (st : state) : state :=
  let '(F, L) := st in
  (mkFlight ph (next_ F) (inFlight F) (computing F) (inFlightBytes F) (charges F) (stopped F)
     (jobs F) (results F) (staged F) (groups F) (batches F) (port F) (uploads F), L).

Definition set_results (rs : list (fileResult * option pendingPut)) (st : state) : state :=
  let '(F, L) := st in
  (mkFlight (at_ F) (next_ F) (inFlight F) (computing F - 1) (inFlightBytes F) (charges F)
     (stopped F) (jobs F) rs (staged F) (groups F) (batches F) (port F) (uploads F), L).

Definition set_batches (bs : list (list fileResult)) (st : state) : state :=
  let '(F, L) := st in
  (mkFlight (at_ F) (next_ F) (inFlight F) (computing F) (inFlightBytes F) (charges F) (stopped F)
     (jobs F) (results F) (staged F) (groups F) bs (port F) (uploads F), L).

(** A goroutine's compute leg ends and its result is in the channel. *)
Definition computed (before after : list fileJob) (r : fileResult) (p : option pendingPut)
    (st : state) : state :=
  let '(F, L) := st in
  (mkFlight (at_ F) (next_ F) (inFlight F) (computing F) (inFlightBytes F) (charges F) (stopped F)
     (before ++ after) (results F ++ [(r, p)]) (staged F) (groups F) (batches F) (port F)
     (uploads F), L).

(** A group's goroutine has authorized and put its members, and its batch is in the channel. *)
Definition uploaded (before after : list (list stagedUpload)) (g : list stagedUpload) (st : state)
    : state :=
  let '(F, L) := st in
  let '(rs, w) := sendBatch (port F) g in
  let verdicts := (authorizeAndUpload (port F) g).1 in
  (mkFlight (at_ F) (next_ F) (inFlight F) (computing F) (inFlightBytes F) (charges F) (stopped F)
     (jobs F) (results F) (staged F) (before ++ after) (batches F ++ [rs]) w
     (uploads F ++ zip g verdicts), L).

(** ** Steps *)

(** A job may finish its compute leg, and a group its upload, at any time: the source further makes them
    wait for one of [computeLimit] and [uploadLimit] slots, so its runs are among these, and what holds
    of every run here holds of them; no order of the slots can block them, as a goroutine gives its
    slot back whatever happens. Byte counts are sums of file sizes and stay far below 2^63. *)
Inductive step : state -> state -> Prop :=
  | step_admit F L ctx now c :
      at_ F = Admitting -> inFlight F < limit_ -> canAdmit ctx now (F, L) = GateOpen ->
      candidates !! next_ F = Some c ->
      step (F, L) (launch now c (F, L))
  | step_turn_full F L now :
      at_ F = Admitting -> limit_ <= inFlight F ->
      step (F, L) (close_turn GateClosed now (F, L))
  | step_turn F L ctx now g :
      at_ F = Admitting -> inFlight F < limit_ -> canAdmit ctx now (F, L) = g -> g <> GateOpen ->
      step (F, L) (close_turn g now (F, L))
  | step_compute F L before j after r p :
      jobs F = before ++ j :: after -> prepares j r p ->
      step (F, L) (computed before after r p (F, L))
  | step_upload F L before g after :
      groups F = before ++ g :: after ->
      step (F, L) (uploaded before after g (F, L))
  | step_result F L now e r p rest :
      at_ F = Selecting -> results F = (r, p) :: rest ->
      step (F, L) (with_phase Admitting (on_result now e r p (set_results rest (F, L))))
  | step_batch F L now env rs rest :
      at_ F = Selecting -> batches F = rs :: rest ->
      step (F, L) (with_phase Admitting (on_batch now env rs (set_batches rest (F, L)))).

(** ** The end of the pass *)

Definition assemble (L : ledger) : list FileOutcome := omap id (slots L).
Definition stagedUnits (L : ledger) : list RawUnit := omap id (units L).

Definition elided_entry (L : ledger) : list Entry :=
  if (0 <? unchangedElided L) && hasLog then
    let noun := if unchangedElided L =? 1 then "file" else "files" in
    [mkEntry DecisionUnchanged (src_ID src) "" 0 0 (0, 1) ∅ "" (ConfigVersion (o_Plan o))
       (int_text (unchangedElided L) +:+ " " +:+ noun +:+
        " unchanged by size and mtime, not opened; per-file entries elided")]
  else [].

Definition failure_entry (why : string) : list Entry :=
  if hasLog
  then [mkEntry DecisionFailed (src_ID src) "" 0 0 (0, 1) ∅ "" 0 why] else [].

(** What [run] leaves and returns once the loop has ended. [pr_Remaining] is added to the report's. *)
Record passResult := mkPassResult {
  pr_Files : list FileOutcome;
  pr_Reason : string;
  pr_audit : list Entry;
  pr_err : option error;
  pr_Truncated : bool;
  pr_Remaining : Z
}.

Definition of_files (files : list FileOutcome) : string :=
  int_text (Zlen files) +:+ " of " +:+ int_text (Z.of_nat n) +:+ " files; ".

Definition finish (st : state) : passResult :=
  let '(F, L) := st in
  let files := assemble L in
  let log := audit L ++ elided_entry L in
  if fatal L then
    mkPassResult files (n_Reason (note L))
      (log ++ failure_entry ("run abandoned: " +:+ fatalReason L))
      (Some (mkError ("this install's credentials were refused: collection stopped after " +:+
                      of_files files +:+
                      "this install may have been revoked or re-enrolled elsewhere. " +:+
                      "`quesma-shipper doctor` reports what the control plane says")
               [ErrCredentialsRefused]))
      false 0
  else if uploadHalted L then
    let why := "uploads stopped: " +:+ haltReason L in
    let '(text, s) :=
      if p_offline L
      then ("engine: the control plane could not be reached", ErrOffline)
      else ("engine: upload authorization is unavailable", ErrUploadUnavailable) in
    mkPassResult files why (log ++ failure_entry why)
      (Some (mkError (text +:+ ": collection stopped after " +:+ of_files files +:+
                      "nothing new was committed and the next run retries. " +:+ haltReason L) [s]))
      false 0
  else match stopped F with
       | Some err => mkPassResult files (n_Reason (note L)) log (Some err) false 0
       | None =>
           let left_ := Z.of_nat n - Z.of_nat (next_ F) in
           mkPassResult files (n_Reason (note L)) log None (0 <? left_) left_
       end.

(** The state [run] starts from. *)
Definition start (b : commitBuffer) (w : world) (files : Z) (pw : W) (nt : notes) : state :=
  (mkFlight Admitting O 0 0 0 ∅ None [] [] empty_batcher [] [] pw [],
   mkLedger b w files (replicate n None) (replicate n None) 0 (mkTally 0 0 0 0 0) nt
     false "" false false "" 0 [] []).
End Pass.

(** The steps of a source pass taken apart. A [step] of [Pool] settles a batch of results one by one;
    a [micro] step does one thing, with the results still in the loop's hands beside the state. Every
    invariant of the pass is proved on [micro] steps and holds of every reachable state. *)

Section Steps.
Context {W : Type} {upl : UploadPort W} {wrk : FileWorker}.
Variables (o : Options) (src : Source) (disc : Discovery) (staging : bool).
Variables (hasLog hasProgress : bool) (schema_detail : string).
Variables (maxInFlightBytes gomaxprocs : Z).

Notation limit_ := (limit_ o disc gomaxprocs).
Notation maxObjects := (maxObjects o disc gomaxprocs).
Notation step := (step o src disc staging hasLog hasProgress schema_detail maxInFlightBytes gomaxprocs).
Notation settle := (settle o src disc staging hasLog hasProgress schema_detail).
Notation settle_all := (settle_all o src disc staging hasLog hasProgress schema_detail).
Notation canAdmit := (canAdmit src disc staging maxInFlightBytes).
Notation launch := (launch src disc staging).
Notation close_turn := (close_turn src disc staging).
Notation state := (state (W := W)).

Inductive micro : list fileResult * state -> list fileResult * state -> Prop :=
  | micro_admit F L ctx now c :
      at_ F = Admitting -> inFlight F < limit_ -> canAdmit ctx now (F, L) = GateOpen ->
      candidates disc !! next_ F = Some c ->
      micro ([], (F, L)) ([], launch now c (F, L))
  | micro_close F L now g :
      at_ F = Admitting -> g <> GateOpen ->
      (limit_ <= inFlight F \/ exists ctx, canAdmit ctx now (F, L) = g) ->
      micro ([], (F, L)) ([], close_turn g now (F, L))
  | micro_compute F L before j after r p :
      jobs F = before ++ j :: after -> prepares j r p ->
      micro ([], (F, L)) ([], computed before after r p (F, L))
  | micro_upload F L before g after :
      groups F = before ++ g :: after ->
      micro ([], (F, L)) ([], uploaded before after g (F, L))
  | micro_result F L r rest :
      at_ F = Selecting -> results F = (r, None) :: rest ->
      micro ([], (F, L)) ([r], set_results rest (F, L))
  | micro_abandon F L r pp rest :
      at_ F = Selecting -> results F = (r, Some pp) :: rest -> latched L = true ->
      micro ([], (F, L)) ([abandon (fatal L) (haltReason L) (mkStaged r pp)], set_results rest (F, L))
  | micro_stage F L r pp rest sent b :
      at_ F = Selecting -> results F = (r, Some pp) :: rest -> latched L = false ->
      add maxObjects (mkStaged r pp) (isize (mkStaged r pp)) (staged F) = (sent, b) ->
      micro ([], (F, L)) ([], set_staged b sent (set_results rest (F, L)))
  | micro_batch F L rs rest :
      at_ F = Selecting -> batches F = rs :: rest ->
      micro ([], (F, L)) (rs, set_batches rest (F, L))
  | micro_settle now e r rs st : micro (r :: rs, st) (rs, settle now e r st)
  | micro_drain F L :
      latched L = true ->
      micro ([], (F, L)) (map (abandon (fatal L) (haltReason L)) (items (staged F)),
                          set_staged empty_batcher [] (F, L))
  | micro_turn F L :
      at_ F = Selecting -> micro ([], (F, L)) ([], with_phase Admitting (F, L)).

Lemma at_settle now e r (st : state) : at_ (settle now e r st).1 = at_ st.1.
Proof. destruct st as [F L]. unfold Pool.settle. by destruct (charge _ _ _ _ _ _). Qed.

Lemma at_settle_all now env rs (st : state) : at_ (settle_all now env rs st).1 = at_ st.1.
Proof.
  revert env st; induction rs as [|r rs IH]; intros env st; [done|].
  cbn [Pool.settle_all]. by rewrite IH, at_settle.
Qed.

Lemma settle_all_micro now env rs (st : state) :
  rtc micro (rs, st) ([], settle_all now env rs st).
Proof.
  revert env st; induction rs as [|r rs IH]; intros env st; [apply rtc_refl|].
  cbn [Pool.settle_all]. eapply rtc_l; [apply (micro_settle now (env O))|]. apply IH.
Qed.

(** Every step is a run of micro steps that leaves the loop's hands empty. *)
Lemma step_micro st st' : step st st' -> rtc micro ([], st) ([], st').
Proof.
  destruct 1.
  - by apply rtc_once, (micro_admit _ _ ctx).
  - apply rtc_once, micro_close; auto.
  - apply rtc_once, micro_close; eauto.
  - apply rtc_once. by eapply micro_compute.
  - apply rtc_once. by eapply micro_upload.
  - destruct p as [pp|]; unfold on_result.
    + change ((set_results rest (F, L)).2) with L. destruct (latched L) eqn:Hl.
      * eapply rtc_l; [by eapply micro_abandon|].
        eapply rtc_l; [apply (micro_settle now e)|].
        destruct (settle now e _ _) as [F' L'] eqn:E. apply rtc_once, micro_turn.
        change F' with (F', L').1. rewrite <- E, at_settle. done.
      * change ((set_results rest (F, L)).1) with (set_results rest (F, L)).1.
        destruct (add _ _ _ _) as [sent b] eqn:Ha.
        eapply rtc_l; [eapply micro_stage; eauto|]. by apply rtc_once, micro_turn.
    + eapply rtc_l; [by eapply micro_result|]. eapply rtc_l; [apply (micro_settle now e)|].
      destruct (settle now e _ _) as [F' L'] eqn:E. apply rtc_once, micro_turn.
      change F' with (F', L').1. rewrite <- E, at_settle. done.
  - eapply rtc_l; [by eapply micro_batch|]. unfold on_batch.
    etrans; [apply (settle_all_micro now env rs)|].
    assert (at_ (settle_all now env rs (set_batches rest (F, L))).1 = Selecting) as Hat
      by (rewrite at_settle_all; done).
    destruct (settle_all now env rs (set_batches rest (F, L))) as [F1 L1]. cbn [fst] in Hat.
    unfold drainStaged. destruct (latched L1) eqn:Hl; cbn [negb].
    + cbn [take_items]. eapply rtc_l; [by apply micro_drain|].
      set (drained := map _ _).
      etrans; [apply (settle_all_micro now (fun k => env (length rs + k)%nat) drained)|].
      destruct (settle_all _ _ drained _) as [F2 L2] eqn:E.
      apply rtc_once, micro_turn. change F2 with (F2, L2).1. rewrite <- E, at_settle_all. done.
    + cbn [Pool.settle_all]. by apply rtc_once, micro_turn.
Qed.

(** Rule induction: what every micro step preserves holds of every reachable state. *)
Lemma micro_invariant (Q : list fileResult -> state -> Prop) :
  (forall c c', Q c.1 c.2 -> micro c c' -> Q c'.1 c'.2) ->
  forall st st', rtc step st st' -> Q [] st -> Q [] st'.
Proof.
  intros HQ st st' Hr. induction Hr as [|st1 st2 st3 Hs Hr IH]; intros H; [done|]. apply IH.
  apply step_micro in Hs. clear -HQ Hs H.
  assert (forall c c', rtc micro c c' -> Q c.1 c.2 -> Q c'.1 c'.2) as Hm
    by (intros c c' Hc; induction Hc; eauto).
  apply (Hm ([], st1) ([], st2) Hs H).
Qed.
End Steps.
