(* ===== verification/Derived.v ===== *)
(** Enrichment: [src/internal/engine/derived.go] over the contract of
    [src/internal/transforms/enrich.go]. An enricher is a record of operations; its objects are
    prepared, authorized in bounded groups and committed one by one, and a refusal stops the
    enricher. Every clock reading and every outcome of a document write is chosen by the argument
    [env], one per object. *)

From S2P Require Import Prelude GoLib Crypto GoTime GoJson Vocab StateDoc Store Naming Spec Manifest Upload FilePrep Pool.

(** ** enrich.go *)

Inductive Status := StatusOK | StatusSkipped | StatusMismatch | StatusError.
Definition status_text (s : Status) : string :=
  match s with
  | StatusOK => "ok" | StatusSkipped => "skipped" | StatusMismatch => "mismatch" | StatusError => "error"
  end.

Record DerivedObject := mkDerived {
  d_NativePath : string;
  Payload : string;
  d_DerivedFrom : list string;
  d_OutputHash : string;
  d_Status : Status;
  Mismatches : Z;
  Repeats : Z;
  Tail : Z;
  Ambiguous : Z;
  LineDecodeErrors : Z;
  DBReadMethod : string;
  DBKeyspaces : list string;
  DBRowsRead : Z
}.

Record Input := mkInput { Units : list RawUnit; in_DBPath : string; ScratchDir : string }.

Record EnrichResult := mkEnrichResult {
  er_Objects : list DerivedObject;
  er_Skipped : Z;
  Mismatched : Z;
  Errors : Z;
  Notes : list string;
  Infos : list string
}.

Record Enricher := mkEnricher {
  e_ID : string;
  e_Version : Z;
  DBCandidates : list string;
  NeedsUnits : bool;
  Enrich : Input -> EnrichResult
}.

(** [Registry.For]; the registry is the compiled set by id. *)
Definition Registry_For (r : gmap string Enricher) (id : string) : result error Enricher :=
  match r !! id with
  | Some e => Ok e
  | None => Err (errors_New ("enrich: no enricher " +:+ id +:+ " in this build"))
  end.

(** ** derived.go *)

(** The ids switched on, sorted; an id this build does not have is passed over. A nil registry is
    [None]. *)
Definition enrichersFor (registry : option (gmap string Enricher)) (src : Source) : list Enricher :=
  match registry with
  | None => []
  | Some r =>
      let ids := map fst (filter (fun kv => Is_true kv.2) (map_to_list (Enrichers src))) in
      let ids := merge_sort (fun a b => Is_true (str_leb a b)) ids in
      omap (fun id => match Registry_For r id with Ok e => Some e | Err _ => None end) ids
  end.

Section Derived.
Context {scr : Scrubber} {con : Container}.
Variables (o : Options) (src : Source) (root : string) (e : Enricher) (dbPath : string).

Definition derived_outcome (d : DerivedObject) : FileOutcome :=
  mkFileOutcome false true (src_ID src) (d_NativePath d) "" "" DecisionUnset (slen (Payload d)) 0
    (0, 1) ∅ "".

(** A derived path is placed in the mirror relative to the source's root. *)
Definition derived_rel (nativePath : string) : string :=
  if negb (root =? "")%string && has_prefix root nativePath
  then trim_prefix "/" (trim_prefix root nativePath) else nativePath.

Definition enricher_ref : EnricherRef := mkEnricherRef (e_ID e) (e_Version e).

Definition derived_manifest (d : DerivedObject) (res : ScrubResult) (now : Z) : Manifest :=
  let m := baseManifest o src (d_NativePath d) now in
  mkManifest (m_ManifestVersion m) (m_OrganizationID m) (m_InstallID m) (m_SourceID m)
    (SourceFamily m) (m_NativePath m) (m_Gather m) (m_ArtifactClass m) (Hash (Payload d))
    (ShippedHash m) (PayloadSize m) (PayloadMTime m) (m_AgentVersion m) (sniff_text SniffOK)
    (m_Repository m)
    (if scrubs src then Some (mkRedaction (scrub_density res) (sr_RuleHits res) "") else None)
    (m_Encryption m) (m_Client m) (m_ConfigVersion m) (m_ConfigExpired m) (SealedAt m) (m_RunID m)
    true (Some enricher_ref) (d_DerivedFrom d) (status_text (d_Status d)) (Mismatches d)
    (Some (mkDBProvenance (ApplyUserPlaceholder dbPath (user o)) (DBReadMethod d) (DBKeyspaces d)
             (DBRowsRead d)))
    (Repeats d) (Tail d) (Ambiguous d) (LineDecodeErrors d).

Definition failed_outcome (fo : FileOutcome) (why : string) : FileOutcome * option pendingPut :=
  (set_decision DecisionFailed why fo, None).

Definition prepareDerived (bf : commitBuffer) (now : Z) (d : DerivedObject)
    : FileOutcome * option pendingPut :=
  let fo := derived_outcome d in
  let key := mkKey (src_ID src) (d_NativePath d) in
  let found := Get bf key in
  let fp := default zero_fp found in
  if bool_decide (is_Some found) && (OutputHash fp =? d_OutputHash d)%string
     && negb (SourceHash fp =? "")%string
  then (set_decision DecisionUnchanged "enricher output hash unchanged" fo, None)
  else match scrubSource src (Payload d) true (scrubErr o) with
  | Err err => failed_outcome fo ("scrub failed closed on derived payload: " +:+ Error err)
  | Ok res =>
      match mirrorKey o (src_ID src) (derived_rel (d_NativePath d)) with
      | Err err => failed_outcome fo (naming_error_text err)
      | Ok objectKey =>
          let fo := set_object_key objectKey fo in
          match Seal (derived_manifest d res now) (Out res) (Recipients o) with
          | Err err => failed_outcome fo (Error err)
          | Ok (object_, sealed) =>
              let fo := set_bytes_out (slen object_) fo in
              if DryRun o
              then (set_decision DecisionShipped "would ship derived object (preview)" fo, None)
              else (fo, Some (mkPendingPut key objectKey object_ (Some (ObjectMetadata sealed))
                     (mkFingerprint "" 0 0 (Hash (Payload d)) (Some enricher_ref) (d_OutputHash d)
                        false "" 0 0)))
          end
      end
  end.

(** What shipping the objects of one enricher changes. *)
Record derived_state (W : Type) := mkDerivedState {
  fos : list FileOutcome;
  ds_shipped : Z;
  ds_failed : Z;
  halted : option error;
  ds_group : batcher;
  ds_buf : commitBuffer;
  ds_dir : world;
  ds_port : W
}.
Arguments mkDerivedState {W}. Arguments fos {W}. Arguments ds_shipped {W}. Arguments ds_failed {W}.
Arguments halted {W}. Arguments ds_group {W}. Arguments ds_buf {W}. Arguments ds_dir {W}.
Arguments ds_port {W}.

Context {W : Type} {port : UploadPort W}.
Variable schema_detail : string.

Definition commitDerived (w : io) (bf : commitBuffer) (dir : world) (fo : FileOutcome)
    (pp : pendingPut) (oc : option error) : FileOutcome * commitBuffer * world :=
  let present := Is oc ErrAlreadyPresent in
  let confirmed :=
    let '(err, bf, dir) := Commit w (pp_key pp) (next pp) bf dir in
    match err with
    | Some err =>
        (set_decision DecisionFailed
           ("derived upload succeeded but commit failed: " +:+ commit_error_text schema_detail err) fo,
         bf, dir)
    | None =>
        (set_decision DecisionShipped (if present then alreadyPresentReason else fo_Reason fo) fo, bf, dir)
    end in
  match oc with
  | Some err => if present then confirmed else (set_decision DecisionFailed (Error err) fo, bf, dir)
  | None => confirmed
  end.

(** The verdict on one member of a sent group. *)
Definition take_verdict (env : nat -> io) (st : derived_state W) (g : stagedUpload * option error)
    : derived_state W :=
  let '(it, oc) := g in
  let i := idx (st_res it) in
  let '(fo, bf, dir) := commitDerived (env i) (ds_buf st) (ds_dir st) (outcome (st_res it))
                          (st_pending it) oc in
  let isShipped := bool_decide (fo_Decision fo = DecisionShipped) in
  let isFailed := bool_decide (fo_Decision fo = DecisionFailed) in
  let counts := negb (stopsRun oc) || bool_decide (halted st = None) in
  mkDerivedState (<[i := fo]> (fos st))
    (if isShipped then ds_shipped st + 1 else ds_shipped st)
    (if isFailed && counts then ds_failed st + 1 else ds_failed st)
    (if stopsRun oc && bool_decide (halted st = None) then oc else halted st)
    (ds_group st) bf dir (ds_port st).

(** [send] of the group: one authorization, then the verdicts in order. *)
Definition send_group (env : nat -> io) (st : derived_state W) (its : list stagedUpload)
    : derived_state W :=
  let '(outcomes, w) := authorizeAndUpload (ds_port st) its in
  let st := mkDerivedState (fos st) (ds_shipped st) (ds_failed st) (halted st) (ds_group st)
              (ds_buf st) (ds_dir st) w in
  foldl (take_verdict env) st (zip its outcomes).

Definition set_group (b : batcher) (st : derived_state W) : derived_state W :=
  mkDerivedState (fos st) (ds_shipped st) (ds_failed st) (halted st) b (ds_buf st) (ds_dir st)
    (ds_port st).

Definition set_fo (i : nat) (fo : FileOutcome) (failed : bool) (st : derived_state W)
    : derived_state W :=
  mkDerivedState (<[i := fo]> (fos st)) (ds_shipped st)
    (if failed then ds_failed st + 1 else ds_failed st) (halted st) (ds_group st) (ds_buf st)
    (ds_dir st) (ds_port st).

(** One object: not attempted after a halt, decided on the spot, or handed to the group. *)
Definition ship_one (env : nat -> io) (st : derived_state W) (i : nat) (d : DerivedObject)
    : derived_state W :=
  match halted st with
  | Some err =>
      set_fo i (set_decision DecisionFailed ("not attempted: " +:+ Error err) (derived_outcome d)) false st
  | None =>
      match prepareDerived (ds_buf st) (io_now (env i)) d with
      | (fo, None) => set_fo i fo (bool_decide (fo_Decision fo = DecisionFailed)) st
      | (fo, Some pp) =>
          let it := mkStaged (mkFileResult i fo no_intent None false false "") pp in
          let '(sent, b) := add maxBatchObjects it (slen (obj pp)) (ds_group st) in
          foldl (send_group env) (set_group b st) sent
      end
  end.

Fixpoint ship_all (env : nat -> io) (st : derived_state W) (i : nat) (objects : list DerivedObject)
    : derived_state W :=
  match objects with
  | [] => st
  | d :: r => ship_all env (ship_one env st i d) (S i) r
  end.

(** [shipDerivedGroups]: the last group is sent whether or not the enricher was halted. *)
Definition shipDerivedGroups (env : nat -> io) (objects : list DerivedObject) (bf : commitBuffer)
    (dir : world) (w : W) : derived_state W :=
  let st := mkDerivedState (replicate (length objects) zero_outcome) 0 0 None empty_batcher bf dir w in
  let st := ship_all env st 0 objects in
  let '(sent, b) := batcher_flush (ds_group st) in
  foldl (send_group env) (set_group b st) sent.
End Derived.

(** ** Every object has one outcome, and only an uploaded one is remembered *)

Section Accounts.
Context {scr : Scrubber} {con : Container} {W : Type} {port : UploadPort W}.
Variables (o : Options) (src : Source) (root : string) (e : Enricher) (dbPath schema_detail : string).
Variables (objects : list DerivedObject) (bf0 : commitBuffer).

Notation key_of d := (mkKey (src_ID src) (d_NativePath d)).

Definition commit_failed : string := "derived upload succeeded but commit failed: ".

(** The object was confirmed by the port: shipped, or uploaded with a document write that failed. *)
Definition confirmed (fo : FileOutcome) : Prop :=
  fo_Decision fo = DecisionShipped \/
  (fo_Decision fo = DecisionFailed /\ has_prefix commit_failed (fo_Reason fo) = true).

Definition outcome_for (fo : FileOutcome) (d : DerivedObject) : Prop :=
  fo_NativePath fo = d_NativePath d /\ fo_SourceID fo = src_ID src /\ fo_Derived fo = true.

Definition shipped_count (l : list FileOutcome) : Z :=
  Zlen (filter (fun fo => fo_Decision fo = DecisionShipped) l).

(** An item on its way to a verdict. *)
Definition in_air_ok (it : stagedUpload) : Prop :=
  exists d, objects !! idx (st_res it) = Some d /\ outcome_for (outcome (st_res it)) d /\
    pp_key (st_pending it) = key_of d /\ SourceHash (next (st_pending it)) = Hash (Payload d).

Record accounted (air : list stagedUpload) (i : nat) (st : derived_state W) : Prop := {
  ac_len : length (fos _ st) = length objects;
  ac_air : Forall in_air_ok air;
  ac_once : NoDup (map (fun it => idx (st_res it)) air);
  ac_open : forall j, (i <= j < length objects)%nat \/ j ∈ map (fun it => idx (st_res it)) air ->
    fos _ st !! j = Some zero_outcome;
  ac_bound : Forall (fun it => (idx (st_res it) < i)%nat) air;
  ac_done : forall j, (j < i)%nat -> j ∉ map (fun it => idx (st_res it)) air ->
    exists fo d, fos _ st !! j = Some fo /\ objects !! j = Some d /\ outcome_for fo d /\
      fo_Decision fo <> DecisionUnset;
  ac_count : DryRun o = false -> ds_shipped _ st = shipped_count (fos _ st);
  ac_buf : forall k, buffered (ds_buf _ st) !! k = buffered bf0 !! k \/
    exists j d fo fp, objects !! j = Some d /\ fos _ st !! j = Some fo /\ confirmed fo /\ k = key_of d /\
      buffered (ds_buf _ st) !! k = Some fp /\ SourceHash fp = Hash (Payload d)
}.

Lemma shipped_count_insert l j fo :
  l !! j = Some zero_outcome ->
  shipped_count (<[j := fo]> l) =
  shipped_count l + (if bool_decide (fo_Decision fo = DecisionShipped) then 1 else 0).
Proof.
  intros H. unfold shipped_count. rewrite insert_take_drop by (by eapply lookup_lt_Some).
  rewrite <- (take_drop_middle l j zero_outcome H) at 3.
  rewrite !filter_app, !filter_cons. cbn [fo_Decision zero_outcome].
  case_bool_decide; repeat case_decide; try done; autorewrite with shipper; lia.
Qed.

(** What a verdict makes of an item. *)
Lemma commitDerived_spec w bf dir fo pp oc fo' bf' dir' :
  commitDerived schema_detail w bf dir fo pp oc = (fo', bf', dir') ->
  fo_NativePath fo' = fo_NativePath fo /\ fo_SourceID fo' = fo_SourceID fo /\
  fo_Derived fo' = fo_Derived fo /\ fo_Decision fo' <> DecisionUnset /\
  (bf' = bf \/ confirmed fo' /\ buffered bf' = <[pp_key pp := next pp]> (buffered bf)).
Proof.
  unfold commitDerived. destruct (Commit w _ _ bf dir) as [[err bf1] dir1] eqn:Ec.
  apply Commit_spec in Ec as (Hb & _).
  assert (forall fo1, (match err with
      | Some err => (set_decision DecisionFailed (commit_failed +:+ commit_error_text schema_detail err) fo, bf1, dir1)
      | None => (set_decision DecisionShipped (if Is oc ErrAlreadyPresent then alreadyPresentReason else fo_Reason fo) fo, bf1, dir1)
      end) = (fo1, bf', dir') ->
    fo_NativePath fo1 = fo_NativePath fo /\ fo_SourceID fo1 = fo_SourceID fo /\
    fo_Derived fo1 = fo_Derived fo /\ fo_Decision fo1 <> DecisionUnset /\
    (bf' = bf \/ confirmed fo1 /\ buffered bf' = <[pp_key pp := next pp]> (buffered bf))) as Hc.
  { intros fo1. destruct err as [err|]; intros [= <- <- <-]; cbn; split_and!; try done.
    - right. split; [right|done]. split; [done|]. apply has_prefix_spec. eexists. reflexivity.
    - right. split; [by left|done]. }
  destruct oc as [er|]; [|apply Hc].
  destruct (Is (Some er) ErrAlreadyPresent); [apply Hc|]. intros [= <- <- <-]. cbn. split_and!; auto; done.
Qed.

Lemma accounted_put air i st j fo d failed :
  accounted air i st -> j = i -> objects !! j = Some d -> outcome_for fo d ->
  fo_Decision fo <> DecisionUnset -> (DryRun o = false -> fo_Decision fo <> DecisionShipped) ->
  accounted air (S i) (set_fo j fo failed st).
Proof.
  intros [H1 H2 H3 H4 H5 H6 H7 H8] -> Hd Hf Hdec Hs.
  assert (i ∉ map (fun it => idx (st_res it)) air) as Hi.
  { intros (it & -> & Hin)%list_elem_of_fmap. apply (proj1 (Forall_forall _ _) H5) in Hin. lia. }
  assert (i < length objects)%nat as Hlt by (by eapply lookup_lt_Some).
  constructor; cbn [set_fo fos ds_shipped ds_buf]; try done.
  - by rewrite length_insert.
  - intros j Hj. rewrite list_lookup_insert_ne; [apply H4; destruct Hj; [left; lia|by right]|].
    intros ->. destruct Hj; [lia|done].
  - eapply Forall_impl; [exact H5|]. cbn. lia.
  - intros j Hj Hn. destruct (decide (j = i)) as [->|].
    + exists fo, d. rewrite list_lookup_insert_eq by lia. done.
    + rewrite list_lookup_insert_ne by done. apply H6; [lia|done].
  - intros Hdry. rewrite shipped_count_insert by (apply H4; left; lia).
    rewrite bool_decide_eq_false_2 by auto. rewrite H7 by done. lia.
  - intros k. destruct (H8 k) as [|(j & d' & fo' & fp' & Hj & Hfo & H)]; [by left|right].
    exists j, d', fo', fp'. split; [done|]. split; [|done]. rewrite list_lookup_insert_ne; [done|].
    intros <-. rewrite H4 in Hfo by (left; lia). injection Hfo as <-.
    destruct H as ([H|[H _]] & _); done.
Qed.

Lemma accounted_verdict env it air i st oc :
  accounted (it :: air) i st -> accounted air i (take_verdict schema_detail env st (it, oc)).
Proof.
  intros [H1 H2 H3 H4 H5 H6 H7 H8]. unfold take_verdict.
  destruct (commitDerived _ _ _ _ _ _ _) as [[fo bf] dir] eqn:Ec.
  apply commitDerived_spec in Ec as (Hp & Hsrc & Hder & Hdec & Hbuf).
  apply Forall_cons in H2 as [(d & Hd & (Ho1 & Ho2 & Ho3) & Hk & Hh) H2]. cbn [map] in *.
  apply NoDup_cons in H3 as [Hni H3]. apply Forall_cons in H5 as [Hlt H5].
  set (j := idx (st_res it)) in *.
  assert (fos _ st !! j = Some zero_outcome) as Hz by (apply H4; right; by left).
  assert (j < length (fos _ st))%nat as Hjl by (by eapply lookup_lt_Some).
  constructor; cbn [fos ds_shipped ds_buf]; try done.
  - by rewrite length_insert.
  - intros x Hx. rewrite list_lookup_insert_ne; [apply H4; destruct Hx; [by left|right; by right]|].
    intros <-. destruct Hx; [lia|done].
  - intros x Hx Hn. destruct (decide (x = j)) as [->|Hne].
    + exists fo, d. rewrite list_lookup_insert_eq by done. split_and!; try done. unfold outcome_for.
      rewrite Hp, Hsrc, Hder. done.
    + rewrite list_lookup_insert_ne by done. apply H6; [done|]. by intros [->|]%elem_of_cons.
  - intros Hdry. rewrite shipped_count_insert, H7 by done. case_match; lia.
  - intros k. destruct Hbuf as [->|[Hc Hb]].
    + destruct (H8 k) as [|(x & d' & fo' & fp' & Hx & Hfo & H)]; [by left|right].
      exists x, d', fo', fp'. split; [done|]. split; [|done]. rewrite list_lookup_insert_ne; [done|].
      intros <-. rewrite Hz in Hfo. injection Hfo as <-. destruct H as ([H|[H _]] & _); done.
    + destruct (decide (k = key_of d)) as [->|Hne].
      * right. exists j, d, fo, (next (st_pending it)). rewrite Hb, Hk, lookup_insert_eq.
        rewrite list_lookup_insert_eq by done. done.
      * rewrite Hb, Hk, lookup_insert_ne by done.
        destruct (H8 k) as [|(x & d' & fo' & fp' & Hx & Hfo & H)]; [by left|right].
        exists x, d', fo', fp'. split; [done|]. split; [|done]. rewrite list_lookup_insert_ne; [done|].
        intros <-. rewrite Hz in Hfo. injection Hfo as <-. destruct H as ([H|[H _]] & _); done.
Qed.

Context {laws : UploadPortLaws W}.

Lemma accounted_verdicts env its outcomes air i st :
  length outcomes = length its -> accounted (its ++ air) i st ->
  accounted air i (foldl (take_verdict schema_detail env) st (zip its outcomes)).
Proof.
  revert outcomes st. induction its as [|it its IH]; intros [|oc outcomes] st Hl H; try done.
  cbn [zip zip_with foldl]. apply IH; [by injection Hl|]. by apply accounted_verdict.
Qed.

Lemma accounted_sends env sent air i st :
  accounted (mjoin sent ++ air) i st ->
  accounted air i (foldl (send_group schema_detail env) st sent).
Proof.
  revert st. induction sent as [|g sent IH]; intros st H; cbn [foldl]; [done|].
  apply IH. unfold send_group. pose proof (authorizeAndUpload_length (ds_port _ st) g) as Hl.
  destruct (authorizeAndUpload _ g) as [outcomes w]. apply accounted_verdicts; [done|].
  cbn [mjoin list_join] in H. rewrite <- app_assoc in H. destruct H. by constructor.
Qed.

Lemma sends_group env sent st :
  ds_group _ (foldl (send_group schema_detail env) st sent) = ds_group _ st.
Proof.
  revert st. induction sent as [|g sent IH]; intros st; cbn [foldl]; [done|]. rewrite IH.
  unfold send_group. destruct (authorizeAndUpload _ g) as [outcomes w].
  generalize (zip g outcomes). intros l.
  assert (forall s0, ds_group _ (foldl (take_verdict schema_detail env) s0 l) = ds_group _ s0) as ->; [|done].
  induction l as [|[it oc] l IHl]; intros s0; cbn [foldl]; [done|]. rewrite IHl. unfold take_verdict.
  by destruct (commitDerived _ _ _ _ _ _ _) as [[fo bf] dir].
Qed.

Lemma prepareDerived_spec bf now d fo pp :
  prepareDerived o src root e dbPath bf now d = (fo, pp) ->
  outcome_for fo d /\
  match pp with
  | None => fo_Decision fo <> DecisionUnset /\ (DryRun o = false -> fo_Decision fo <> DecisionShipped)
  | Some pp => pp_key pp = key_of d /\ SourceHash (next pp) = Hash (Payload d)
  end.
Proof.
  unfold prepareDerived, failed_outcome, outcome_for. destruct (_ && _); [by intros [= <- <-]|].
  destruct (scrubSource _ _ _ _); [|by intros [= <- <-]].
  destruct (mirrorKey _ _ _); [|by intros [= <- <-]].
  destruct (Seal _ _ _) as [[ob sealed]|]; [|by intros [= <- <-]].
  destruct (DryRun o); by intros [= <- <-].
Qed.

Definition holding (st : derived_state W) (i : nat) : Prop :=
  held_ok maxBatchObjects (ds_group _ st) /\ accounted (items (ds_group _ st)) i st.

Lemma accounted_air it air i st :
  accounted air i st -> idx (st_res it) = i -> (i < length objects)%nat -> in_air_ok it ->
  accounted (air ++ [it]) (S i) st.
Proof.
  intros [H1 H2 H3 H4 H5 H6 H7 H8] Hi Hlt Hok.
  assert (i ∉ map (fun it => idx (st_res it)) air) as Hn.
  { intros (x & Hx & Hin)%list_elem_of_fmap. apply (proj1 (Forall_forall _ _) H5) in Hin. lia. }
  constructor; try done.
  - apply Forall_app_2; [done|by constructor].
  - rewrite map_app. apply NoDup_app. cbn. rewrite Hi. split_and!; [done| |apply NoDup_singleton].
    intros x Hx Hin. apply list_elem_of_singleton in Hin as ->. done.
  - intros j Hj. apply H4. rewrite map_app in Hj. cbn in Hj. rewrite Hi, elem_of_app, list_elem_of_singleton in Hj.
    destruct Hj as [|[| ->]]; [left; lia|by right|left; lia].
  - apply Forall_app_2; [eapply Forall_impl; [exact H5|cbn; lia]|]. constructor; [lia|done].
  - intros j Hj Hnj. rewrite map_app in Hnj. cbn in Hnj. rewrite Hi, elem_of_app, list_elem_of_singleton in Hnj.
    apply H6; [|tauto]. destruct (decide (j = i)); [tauto|lia].
Qed.

Lemma ship_one_ok env st i d :
  objects !! i = Some d -> holding st i -> holding (ship_one o src root e dbPath schema_detail env st i d) (S i).
Proof.
  intros Hd [Hh Hac]. unfold ship_one. destruct (halted _ st) as [err|].
  { split; [done|]. eapply accounted_put; eauto; done. }
  destruct (prepareDerived _ _ _ _ _ _ _ _) as [fo [pp|]] eqn:Ep; apply prepareDerived_spec in Ep as (Ho & Hpp).
  2:{ split; [done|]. eapply accounted_put; naive_solver. }
  destruct Hpp as [Hk Hs].
  set (it := mkStaged _ pp). destruct (add maxBatchObjects it (slen (obj pp)) (ds_group _ st)) as [sent b] eqn:Ea.
  apply (add_spec maxBatchObjects it) in Ea as (Hb & Hj & _); [|done..].
  assert (ds_group _ (foldl (send_group schema_detail env) (set_group b st) sent) = b) as Hg
    by apply sends_group.
  split; rewrite Hg; [done|]. apply accounted_sends. rewrite Hj.
  assert (accounted (items (ds_group _ st) ++ [it]) (S i) st) as Hac'.
  { apply accounted_air; try done; [by eapply lookup_lt_Some|]. by exists d. }
  destruct Hac'. by constructor.
Qed.

Lemma ship_all_ok env st i l :
  objects = take i objects ++ l -> (i <= length objects)%nat -> holding st i ->
  holding (ship_all o src root e dbPath schema_detail env st i l) (length objects).
Proof.
  revert st i. induction l as [|d l IH]; intros st i Hl Hi H; cbn [ship_all].
  - apply (f_equal length) in Hl. rewrite length_app, length_take in Hl. cbn in Hl.
    replace (length objects) with i by lia. done.
  - assert (objects !! i = Some d) as Hd.
    { rewrite Hl, lookup_app_r by (rewrite length_take; lia). by rewrite length_take, Nat.min_l, Nat.sub_diag by lia. }
    apply lookup_lt_Some in Hd as Hlt. apply IH; [|lia|by apply ship_one_ok].
    rewrite (take_S_r _ _ _ Hd), <- app_assoc. done.
Qed.

(** An enricher's objects come back one outcome each, in order and all decided, none is lost between
    the groups; the shipped count is exact; and the fingerprint store changes only for an object
    whose own upload the port confirmed, to the digest of the bytes that were derived. *)
Theorem derived_objects_accounted env dir w st :
  shipDerivedGroups o src root e dbPath schema_detail env objects bf0 dir w = st ->
  Forall2 (fun fo d => outcome_for fo d /\ fo_Decision fo <> DecisionUnset) (fos _ st) objects /\
  (DryRun o = false -> ds_shipped _ st = shipped_count (fos _ st)) /\
  forall k, buffered (ds_buf _ st) !! k <> buffered bf0 !! k ->
    exists j d fo fp, objects !! j = Some d /\ fos _ st !! j = Some fo /\ confirmed fo /\ k = key_of d /\
      buffered (ds_buf _ st) !! k = Some fp /\ SourceHash fp = Hash (Payload d).
Proof.
  intros <-. unfold shipDerivedGroups. set (st0 := mkDerivedState _ _ _ _ _ _ _ _ _).
  assert (holding st0 0) as H0.
  { split; [by apply empty_held_ok|]. constructor; cbn; try done; try by constructor.
    - apply length_replicate.
    - intros j [Hj|Hj%elem_of_nil]; [|done]. apply lookup_replicate. split; [done|lia].
    - lia.
    - intros _. unfold shipped_count. clear. induction (length objects) as [|k IH]; [done|].
      cbn [replicate]. rewrite filter_cons_False by done. done. }
  apply (ship_all_ok env st0 0 objects eq_refl ltac:(lia)) in H0 as [Hh Hac].
  set (st1 := ship_all _ _ _ _ _ _ _ _ _ _) in *.
  destruct (batcher_flush (ds_group _ st1)) as [sent b] eqn:Ef.
  apply (batcher_flush_spec maxBatchObjects) in Ef as (-> & Hj & _); [|by left].
  assert (accounted [] (length objects)
    (foldl (send_group schema_detail env) (set_group empty_batcher st1) sent)) as [H1 _ _ _ _ H6 H7 H8].
  { apply accounted_sends. rewrite Hj, app_nil_r. destruct Hac. by constructor. }
  split_and!; [|done|intros k Hk; destruct (H8 k); done].
  apply Forall2_same_length_lookup. split; [done|]. intros j fo d Hf Hd.
  destruct (H6 j) as (fo' & d' & Hf' & Hd' & Ho & Hdec); [by eapply lookup_lt_Some|apply not_elem_of_nil|].
  naive_solver.
Qed.
End Accounts.

Module SampleDerived.

(** One derived object, a redaction that passes everything, a container that is the payload and a
    port that confirms everything. *)
#[local] Instance scrubber : Scrubber := fun raw _ => Ok (mkScrubResult (mkScrubbed raw "scrub") 0 (slen raw) ∅ "").
#[local] Instance container : Container := {|
  Encode := fun _ => Ok "{}";
  writeContainer := fun json payload _ _ => Ok (json +:+ payload)
|}.
#[local] Instance confirming : UploadPort nat := fun w batch => (map (fun _ => None) batch, S w).
#[local] Instance confirming_laws : UploadPortLaws nat.
Proof. intros w batch. apply length_map. Qed.

Definition object_ : DerivedObject :=
  mkDerived "/home/a/c.jsonl.enriched.jsonl" "{}" ["h0"] "out1" StatusOK 0 0 0 0 0 "live" ["k"] 2.
Definition enricher : Enricher := mkEnricher "cursor" 3 [] true (fun _ => mkEnrichResult [object_] 0 0 0 [] []).
Definition options : Options := FilePrep.SampleRun.options false.
Definition source : Source := FilePrep.SampleRun.src.
Definition buffer : commitBuffer := newCommitBuffer (mkStore "i" true ∅ ∅ false false) 0.
Definition shipped_ : derived_state nat :=
  shipDerivedGroups options source "/home/a" enricher "" "" (fun _ => mkIO 0 None) [object_] buffer
    (mkWorld FileAbsent true []) 0%nat.

Lemma derived_objects_accounted_witness :
  exists fo, fos _ shipped_ = [fo] /\ fo_NativePath fo = d_NativePath object_ /\
    fo_Decision fo <> DecisionUnset.
Proof.
  destruct (derived_objects_accounted options source "/home/a" enricher "" "" [object_] buffer
    (fun _ => mkIO 0 None) (mkWorld FileAbsent true []) 0%nat shipped_ eq_refl) as [H _].
  apply Forall2_cons_inv_r in H as (fo & l & ((Hp & _) & Hd) & Hl & E).
  apply Forall2_nil_inv_r in Hl. rewrite Hl in E. exists fo.
  split; [exact E|]. split; [exact Hp|exact Hd].
Defined.

End SampleDerived.
