(* ===== verification/PoolInv.v ===== *)
(** The invariants of a source pass: what is in flight is accounted for, widths and the memory gate
    hold, budget is never overspent, and the ledger says what was decided. *)

From stdpp Require Import list_tactics.
From S2P Require Import Prelude GoLib GoJson Vocab StateDoc Store Spec Manifest Upload FilePrep.
From S2P Require Import Pool.

Definition staged_idx (it : stagedUpload) : nat := idx (st_res it).
Definition result_idx (x : fileResult * option pendingPut) : nat := idx x.1.

(** Every place an admitted, undecided candidate can be, with the results in the loop's hands. *)
Definition in_air {W} (hands : list fileResult) (F : flight W) : list nat :=
  map idx hands ++ map job_idx (jobs F) ++ map result_idx (results F) ++
  map staged_idx (items (staged F)) ++ map staged_idx (mjoin (groups F)) ++
  map idx (mjoin (batches F)).

Lemma abandon_idx f why it : idx (abandon f why it) = idx (st_res it).
Proof. done. Qed.

Lemma map_abandon_idx f why its : map idx (map (abandon f why) its) = map staged_idx its.
Proof. rewrite List.map_map. done. Qed.

Lemma sendBatch_idx {W} `{!UploadPort W, !UploadPortLaws W} w g :
  map idx (sendBatch w g).1 = map staged_idx g.
Proof.
  unfold sendBatch. destruct (authorizeAndUpload w g) as [outs w']. cbn [fst].
  apply list_eq. intros i.
  change (map idx ?l) with (idx <$> l). change (map staged_idx ?l) with (staged_idx <$> l).
  rewrite !list_lookup_fmap, list_lookup_imap. destruct (g !! i); [|done]. cbn.
  by rewrite applyUploadOutcome_idx.
Qed.

Lemma mjoin_middle {A} (a b : list (list A)) g : mjoin (a ++ g :: b) ≡ₚ g ++ mjoin (a ++ b).
Proof. rewrite !join_app. change (mjoin (g :: b)) with (g ++ mjoin b). solve_Permutation. Qed.

Section Inv.
Context {W : Type} {upl : UploadPort W} {uplL : UploadPortLaws W} {wrk : FileWorker}.
Variables (o : Options) (src : Source) (disc : Discovery) (staging : bool).
Variables (hasLog hasProgress : bool) (schema_detail : string).
Variables (maxInFlightBytes gomaxprocs : Z).
Context {wrkL : FileWorkerLaws o src}.

Notation limit_ := (limit_ o disc gomaxprocs).
Notation maxObjects := (maxObjects o disc gomaxprocs).
Notation step := (step o src disc staging hasLog hasProgress schema_detail maxInFlightBytes gomaxprocs).
Notation micro := (micro o src disc staging hasLog hasProgress schema_detail maxInFlightBytes gomaxprocs).
Notation settle := (settle o src disc staging hasLog hasProgress schema_detail).
Notation fold := (fold o hasLog hasProgress schema_detail).
Notation canAdmit := (canAdmit src disc staging maxInFlightBytes).
Notation launch := (launch src disc staging).
Notation close_turn := (close_turn src disc staging).
Notation charge := (charge src disc staging).
Notation state := (state (W := W)).

Definition air (c : list fileResult * state) : list nat := in_air c.1 c.2.1.

(** ** A micro step admits one candidate, settles one, or moves them about *)

Inductive effect (c c' : list fileResult * state) : Prop :=
  | effect_admit ctx now cand :
      c.1 = [] -> c'.1 = [] -> inFlight c.2.1 < limit_ -> canAdmit ctx now c.2 = GateOpen ->
      candidates disc !! next_ c.2.1 = Some cand -> c'.2 = launch now cand c.2 ->
      air c' ≡ₚ next_ c.2.1 :: air c -> effect c c'
  | effect_settle now e r :
      c.1 = r :: c'.1 -> c'.2 = settle now e r c.2 -> air c ≡ₚ idx r :: air c' -> effect c c'
  | effect_move :
      air c' ≡ₚ air c -> next_ c'.2.1 = next_ c.2.1 -> inFlight c'.2.1 = inFlight c.2.1 ->
      inFlightBytes c'.2.1 = inFlightBytes c.2.1 -> c'.2.2 = c.2.2 ->
      (charges c'.2.1 = charges c.2.1 \/
       exists now, charges c'.2.1 = (charge now (next_ c.2.1) c.2).2) -> effect c c'.

(** [charge] with a new cache only ever records the candidate it was asked about. *)
Lemma charge_cache now i (st : state) j : j <> i -> (charge now i st).2 !! j = charges st.1 !! j.
Proof.
  destruct st as [F L]. unfold Pool.charge. intros Hj. destruct (candidates disc !! i); [|done].
  case_goal; [done|]. destruct (charges F !! i); [done|]. cbn. by apply lookup_insert_ne.
Qed.

Lemma flush_air b sent b' :
  batcher_flush b = (sent, b') ->
  map staged_idx (items b') ++ map staged_idx (mjoin sent) = map staged_idx (items b).
Proof.
  unfold batcher_flush, take_items. intros [= <- <-]. cbn. destruct (items b); [done|].
  change (mjoin [?l]) with (l ++ []). by rewrite app_nil_r.
Qed.

Lemma micro_effect c c' :
  (0 < maxObjects -> held_ok maxObjects (staged c.2.1)) -> micro c c' -> effect c c'.
Proof.
  intros Hheld Hm. destruct Hm as [F L ctx now c Hat Hlt Hg Hc|F L now g Hat Hg Hw
    |F L before j after r p Hj Hp|F L before g after Hgr|F L r rest Hat Hr|F L r pp rest Hat Hr Hl
    |F L r pp rest sent b Hat Hr Hl Ha|F L rs rest Hat Hb|now e r rs st|F L Hl|F L Hat].
  - eapply (effect_admit _ _ ctx now c); try done. unfold air, in_air, Pool.launch. cbn [fst snd].
    destruct (charge now (next_ F) (F, L)). cbn. rewrite map_app. cbn. solve_Permutation.
  - apply effect_move; unfold air, in_air, Pool.close_turn; cbn [fst snd];
      destruct (if computing F =? 0 then _ else _) as [sent held] eqn:Hf; auto; cbn.
    + rewrite join_app, map_app.
      assert (map staged_idx (items held) ++ map staged_idx (mjoin sent)
              = map staged_idx (items (staged F))) as He.
      { destruct (computing F =? 0); [by apply flush_air|]. injection Hf as <- <-. cbn. by rewrite app_nil_r. }
      rewrite <- He. solve_Permutation.
    + destruct g; auto. right. by exists now.
  - apply effect_move; auto. unfold air, in_air, computed. cbn. rewrite Hj, !map_app. cbn.
    apply worker_ok, ok_idx in Hp. unfold result_idx at 2. cbn. rewrite Hp. solve_Permutation.
  - unfold uploaded. destruct (sendBatch (port F) g) as [rs w] eqn:Hs.
    apply effect_move; auto. unfold air, in_air. cbn.
    rewrite (join_app (batches F)), map_app, Hgr, (mjoin_middle before after g), map_app. change (mjoin [rs]) with (rs ++ []). rewrite app_nil_r.
    replace (map idx rs) with (map staged_idx g) by (rewrite <- (sendBatch_idx (port F)), Hs; done).
    solve_Permutation.
  - apply effect_move; auto. unfold air, in_air. cbn. rewrite Hr. cbn. solve_Permutation.
  - apply effect_move; auto. unfold air, in_air. cbn. rewrite Hr. cbn. solve_Permutation.
  - apply effect_move; auto. unfold air, in_air. cbn. rewrite Hr. cbn.
    assert (0 < maxObjects) as Hmo by (unfold Pool.maxObjects; lia).
    apply add_spec in Ha as (_ & Hj & _); [|done|by apply Hheld].
    apply (f_equal (map staged_idx)) in Hj. rewrite !map_app in Hj. cbn in Hj.
    rewrite join_app, map_app. unfold result_idx at 2. cbn.
    transitivity (map job_idx (jobs F) ++ map result_idx rest ++
      (map staged_idx (mjoin sent) ++ map staged_idx (items b)) ++ map staged_idx (mjoin (groups F)) ++
      map idx (mjoin (batches F))); [solve_Permutation|].
    rewrite Hj. solve_Permutation.
  - apply effect_move; auto. unfold air, in_air. cbn. rewrite Hb.
    change (mjoin (rs :: rest)) with (rs ++ mjoin rest). rewrite map_app. solve_Permutation.
  - eapply (effect_settle _ _ now e r); try done. unfold air, in_air, Pool.settle.
    destruct st as [F L]. cbn [fst snd]. destruct (charge now (idx r) (F, L)). cbn. done.
  - apply effect_move; auto. unfold air, in_air. cbn. rewrite map_abandon_idx, app_nil_r.
    solve_Permutation.
  - apply effect_move; auto.
Qed.

(** ** The accumulator and the counters *)

Record plumbing (hands : list fileResult) (st : state) : Prop := {
  pl_held : held_ok maxObjects (staged st.1);
  pl_groups : Forall (group_ok maxObjects) (groups st.1);
  pl_computing : computing st.1 = Zlen (jobs st.1) + Zlen (results st.1);
  pl_batches : Forall (fun rs => rs <> []) (batches st.1)
}.

Lemma maxObjects_pos : 0 < maxObjects.
Proof. unfold Pool.maxObjects. lia. Qed.

Lemma plumbing_micro c c' : plumbing c.1 c.2 -> micro c c' -> plumbing c'.1 c'.2.
Proof.
  intros [H1 H2 H3 H4] Hm.
  destruct Hm as [F L ctx now c Hat Hlt Hg Hc|F L now g Hat Hg Hw
    |F L before j after r p Hj Hp|F L before g after Hgr|F L r rest Hat Hr|F L r pp rest Hat Hr Hl
    |F L r pp rest sent b Hat Hr Hl Ha|F L rs rest Hat Hb|now e r rs [F L]|F L Hl|F L Hat];
    cbn [fst snd] in *.
  - unfold Pool.launch. destruct (charge now (next_ F) (F, L)).
    constructor; cbn; try done. autorewrite with shipper. lia.
  - unfold Pool.close_turn. destruct (computing F =? 0).
    + destruct (batcher_flush (staged F)) as [sent b] eqn:Hf.
      apply (batcher_flush_spec maxObjects) in Hf as (-> & _ & Hok); [|by left].
      constructor; cbn; [apply empty_held_ok, maxObjects_pos|by apply Forall_app|done|done].
    + constructor; cbn; [done|by rewrite app_nil_r|done|done].
  - constructor; cbn; try done. rewrite Hj in H3. autorewrite with shipper in *. lia.
  - unfold uploaded. pose proof (sendBatch_length (port F) g) as Hlen.
    destruct (sendBatch (port F) g) as [rs w].
    rewrite Hgr in H2. apply Forall_app in H2 as [? [Hok ?]%Forall_cons].
    constructor; cbn; try done; apply Forall_app; [done|]. split; [done|]. apply Forall_singleton.
    intros ->. cbn in Hlen. destruct Hok as [Hne _]. by destruct g.
  - constructor; cbn; try done. rewrite Hr in H3. autorewrite with shipper in H3. lia.
  - constructor; cbn; try done. rewrite Hr in H3. autorewrite with shipper in H3. lia.
  - apply add_spec in Ha as (Hb & _ & Hs); [|apply maxObjects_pos|done].
    constructor; cbn; [done|by apply Forall_app| |done].
    rewrite Hr in H3. autorewrite with shipper in H3. lia.
  - rewrite Hb in H4. apply Forall_cons in H4 as [_ H4]. done.
  - unfold Pool.settle. destruct (charge now (idx r) (F, L)). done.
  - constructor; cbn; [apply empty_held_ok, maxObjects_pos|by rewrite app_nil_r|done|done].
  - done.
Qed.

(** ** Every admitted candidate is in exactly one place, or settled *)

Record acct (hands : list fileResult) (st : state) : Prop := {
  ac_plumbing : plumbing hands st;
  ac_count : inFlight st.1 = Zlen (in_air hands st.1);
  ac_idx : exists settled, in_air hands st.1 ++ settled ≡ₚ seq 0 (next_ st.1);
  ac_next : (next_ st.1 <= n disc)%nat;
  ac_limit : inFlight st.1 <= limit_
}.

Lemma canAdmit_open ctx now (st : state) :
  canAdmit ctx now st = GateOpen ->
  stopped st.1 = None /\ ctx = None /\ latched st.2 = false /\ (next_ st.1 < n disc)%nat /\
  0 < budget st.2 /\
  (inFlight st.1 <= 0 \/ inFlightBytes st.1 + (charge now (next_ st.1) st).1 <= maxInFlightBytes).
Proof.
  destruct st as [F L]. unfold Pool.canAdmit. cbn [fst snd].
  destruct (bool_decide (is_Some (stopped F)) || fatal L || uploadHalted L || _) eqn:E; [done|].
  destruct ctx; [done|]. destruct (budget L <=? 0) eqn:Hb; [done|].
  destruct ((0 <? inFlight F) && _) eqn:Hm; [done|]. intros _.
  unfold latched. boolp. apply Nat.leb_gt in H0.
  rewrite H1, H2. split_and!; try done.
  - by apply eq_None_not_Some.
  - apply andb_false_iff in Hm as [Hm|Hm]; boolp; auto.
Qed.

Lemma Zlen_perm {A} (l l' : list A) : l ≡ₚ l' -> Zlen l = Zlen l'.
Proof. unfold Zlen. by intros ->. Qed.

Lemma acct_micro c c' : acct c.1 c.2 -> micro c c' -> acct c'.1 c'.2.
Proof.
  intros [Hp Hc [settled Hi] Hn Hl] Hm. pose proof (plumbing_micro _ _ Hp Hm) as Hp'.
  apply micro_effect in Hm; [|intros _; apply Hp].
  destruct Hm as [ctx now cd H1 H2 Hlt Hg Hcd Hst Hair|now e r H1 H2 Hair|Hair Hnx Hif _ _ _].
  - apply canAdmit_open in Hg as (_ & _ & _ & Hnn & _).
    apply Zlen_perm in Hair as Hlen. rewrite Zlen_cons in Hlen. unfold air in Hair, Hlen.
    assert (next_ c'.2.1 = S (next_ c.2.1) /\ inFlight c'.2.1 = inFlight c.2.1 + 1) as [E1 E2].
    { rewrite Hst. unfold Pool.launch. destruct c.2 as [F L]. by destruct (charge _ _ _). }
    constructor; rewrite ?E1, ?E2; [done|lia| |lia|lia].
    exists settled. rewrite Hair, seq_S. cbn. rewrite <- Hi. solve_Permutation.
  - apply Zlen_perm in Hair as Hlen. rewrite Zlen_cons in Hlen. unfold air in Hair, Hlen.
    assert (next_ c'.2.1 = next_ c.2.1 /\ inFlight c'.2.1 = inFlight c.2.1 - 1) as [E1 E2].
    { rewrite H2. unfold Pool.settle. destruct c.2 as [F L]. by destruct (charge _ _ _). }
    constructor; rewrite ?E1, ?E2; [done|lia| |done|lia].
    exists (idx r :: settled). rewrite <- Hi, Hair. solve_Permutation.
  - apply Zlen_perm in Hair as Hlen. unfold air in Hair, Hlen.
    constructor; rewrite ?Hnx, ?Hif; [done|lia| |done|done].
    exists settled. rewrite Hair. done.
Qed.

Lemma in_air_bound hands (st : state) i :
  acct hands st -> i ∈ in_air hands st.1 -> (i < next_ st.1)%nat.
Proof.
  intros [_ _ [settled Hi] _ _] Hin.
  assert (i ∈ seq 0 (next_ st.1)) as H by (rewrite <- Hi; set_solver).
  apply elem_of_seq in H. lia.
Qed.

Lemma in_air_NoDup hands (st : state) : acct hands st -> NoDup (in_air hands st.1).
Proof.
  intros [_ _ [settled Hi] _ _].
  assert (NoDup (in_air hands st.1 ++ settled)) as H by (rewrite Hi; apply NoDup_seq).
  by apply NoDup_app in H as [? _].
Qed.

(** ** The memory gate *)

(** A candidate's share of the gate, as its charge is remembered. *)
Definition share (F : flight W) (i : nat) : Z :=
  match candidates disc !! i with
  | None => 0
  | Some c => if IsZstd (Path c) then default 0 (charges F !! i) else Size c
  end.

Definition remembered (F : flight W) (i : nat) : Prop :=
  match candidates disc !! i with
  | Some c => IsZstd (Path c) = true -> is_Some (charges F !! i)
  | None => True
  end.

Definition sizes_ok : Prop :=
  Forall (fun c => 0 <= Size c /\ match frame_size c with Some s => 0 <= s | None => True end)
    (candidates disc).

Lemma charge_remembered now i (st : state) :
  remembered st.1 i -> charge now i st = (share st.1 i, charges st.1).
Proof.
  destruct st as [F L]. unfold remembered, share, Pool.charge. cbn [fst].
  destruct (candidates disc !! i) as [c|]; [|done]. destruct (IsZstd (Path c)); [|done].
  intros [v Hv]; [done|]. cbn. by rewrite Hv.
Qed.

(** The charge just read is remembered, and is not negative. *)
Lemma charge_new now i (st : state) (F' : flight W) :
  sizes_ok -> (forall j v, charges st.1 !! j = Some v -> 0 <= v) ->
  charges F' = (charge now i st).2 ->
  remembered F' i /\ share F' i = (charge now i st).1 /\
  (forall j v, charges F' !! j = Some v -> 0 <= v).
Proof.
  intros Hok Hnn HF. unfold remembered, share. rewrite HF. clear HF F'.
  destruct st as [F L]. unfold Pool.charge. cbn [fst] in *.
  destruct (candidates disc !! i) as [c|] eqn:Hc; [|done].
  unfold sizes_ok in Hok. rewrite Forall_lookup in Hok. destruct (Hok _ _ Hc) as [Hs Hf].
  destruct (IsZstd (Path c)) eqn:Hz; cbn [negb]; [|done].
  destruct (charges F !! i) as [v|] eqn:Hv; cbn [fst snd]; [rewrite Hv; done|].
  rewrite lookup_insert_eq. split_and!; [done|done|].
  intros j v Hj. destruct (decide (j = i)) as [->|Hne].
  - rewrite lookup_insert_eq in Hj. injection Hj as <-. case_goal; [done|].
    unfold LoadBytes. rewrite Hz. cbn [negb orb]. destruct (MaxFileBytes src <=? 0) eqn:Hm; [done|].
    boolp. destruct (frame_size c) as [s|]; [case_goal|]; lia.
  - rewrite lookup_insert_ne in Hj by done. by eapply Hnn.
Qed.

Record gated (hands : list fileResult) (st : state) : Prop := {
  ga_acct : acct hands st;
  ga_remembered : Forall (remembered st.1) (in_air hands st.1);
  ga_nonneg : forall j v, charges st.1 !! j = Some v -> 0 <= v;
  ga_sum : inFlightBytes st.1 = Zsum (map (share st.1) (in_air hands st.1));
  ga_gate : inFlight st.1 <= 1 \/ inFlightBytes st.1 <= maxInFlightBytes
}.

Lemma share_agree (F F' : flight W) (l : list nat) :
  (forall i, i ∈ l -> charges F' !! i = charges F !! i) ->
  map (share F') l = map (share F) l /\ (Forall (remembered F) l -> Forall (remembered F') l).
Proof.
  intros H. split.
  - apply List.map_ext_in. intros i Hi. unfold share. rewrite H; [done|]. by apply list_elem_of_In.
  - intros Hr. rewrite Forall_forall in *. intros i Hi. specialize (Hr i Hi).
    unfold remembered in *. by rewrite H.
Qed.

Lemma share_nonneg (F : flight W) i :
  sizes_ok -> (forall j v, charges F !! j = Some v -> 0 <= v) -> 0 <= share F i.
Proof.
  intros Hok Hnn. unfold share. destruct (candidates disc !! i) as [c|] eqn:Hc; [|done].
  unfold sizes_ok in Hok. rewrite Forall_lookup in Hok. destruct (Hok _ _ Hc) as [Hs _].
  destruct (IsZstd (Path c)); [|done]. destruct (charges F !! i) eqn:Hv; [by eapply Hnn|done].
Qed.

Lemma gated_micro c c' : sizes_ok -> gated c.1 c.2 -> micro c c' -> gated c'.1 c'.2.
Proof.
  intros Hok [Ha Hr Hnn Hs Hg] Hm. pose proof (acct_micro _ _ Ha Hm) as Ha'.
  pose proof (in_air_NoDup _ _ Ha) as Hnd.
  pose proof Hm as Hm0.
  apply micro_effect in Hm; [|intros _; apply Ha].
  destruct Hm as [ctx now cd H1 H2 Hlt Hopen Hcd Hst Hair|now e r H1 H2 Hair|Hair Hnx Hif Hby Hled Hch].
  - apply canAdmit_open in Hopen as (_ & _ & _ & Hnn2 & _ & Hmem). unfold air in Hair.
    assert (charges c'.2.1 = (charge now (next_ c.2.1) c.2).2 /\
            inFlightBytes c'.2.1 = inFlightBytes c.2.1 + (charge now (next_ c.2.1) c.2).1 /\
            inFlight c'.2.1 = inFlight c.2.1 + 1) as (E1 & E2 & E3).
    { rewrite Hst. unfold Pool.launch. destruct c.2 as [F L]. by destruct (charge _ _ _). }
    destruct (charge_new now (next_ c.2.1) c.2 c'.2.1 Hok Hnn E1) as (Hrem & Hsh & Hnn').
    assert (forall i, i ∈ in_air c.1 c.2.1 -> charges c'.2.1 !! i = charges c.2.1 !! i) as Hag.
    { intros i Hi. apply (in_air_bound _ _ _ Ha) in Hi. rewrite E1. apply charge_cache. lia. }
    destruct (share_agree _ _ _ Hag) as [Hsame Hrem'].
    constructor; [done| |done| |].
    + rewrite Hair. constructor; auto.
    + rewrite (Zsum_perm _ _ (Permutation_map _ Hair)). cbn [map Zsum foldr].
      fold (Zsum (map (share c'.2.1) (in_air c.1 c.2.1))). rewrite Hsame, <- Hs, Hsh. lia.
    + destruct Ha as [_ Hcnt _ _ _]. pose proof (Zlen_nonneg (in_air c.1 c.2.1)). lia.
  - unfold air in Hair.
    assert (remembered c.2.1 (idx r)) as Hrr
      by (rewrite Hair in Hr; by apply Forall_cons in Hr as [? _]).
    assert (charges c'.2.1 = delete (idx r) (charges c.2.1) /\
            inFlightBytes c'.2.1 = inFlightBytes c.2.1 - share c.2.1 (idx r) /\
            inFlight c'.2.1 = inFlight c.2.1 - 1) as (E1 & E2 & E3).
    { rewrite H2. unfold Pool.settle. pose proof (charge_remembered now (idx r) c.2 Hrr) as Hc.
      destruct c.2 as [F L]. rewrite Hc. done. }
    assert (idx r ∉ in_air c'.1 c'.2.1) as Hnot
      by (rewrite Hair in Hnd; by apply NoDup_cons in Hnd as [? _]).
    assert (forall i, i ∈ in_air c'.1 c'.2.1 -> charges c'.2.1 !! i = charges c.2.1 !! i) as Hag.
    { intros i Hi. rewrite E1. apply lookup_delete_ne. by intros <-. }
    destruct (share_agree _ _ _ Hag) as [Hsame Hrem'].
    pose proof (share_nonneg c.2.1 (idx r) Hok Hnn).
    constructor; [done| | | |].
    + apply Hrem'. rewrite Hair in Hr. by apply Forall_cons in Hr as [_ ?].
    + intros j v Hj. rewrite E1 in Hj. apply lookup_delete_Some in Hj as [_ Hj]. by eapply Hnn.
    + rewrite Hsame, E2, Hs, (Zsum_perm _ _ (Permutation_map _ Hair)). cbn [map Zsum foldr].
      unfold Zsum. lia.
    + lia.
  - unfold air in Hair.
    assert (forall i, i ∈ in_air c'.1 c'.2.1 -> charges c'.2.1 !! i = charges c.2.1 !! i) as Hag.
    { intros i Hi. rewrite Hair in Hi. apply (in_air_bound _ _ _ Ha) in Hi.
      destruct Hch as [->|[now ->]]; [done|]. apply charge_cache. lia. }
    destruct (share_agree _ _ _ Hag) as [Hsame Hrem'].
    constructor; [done| | | |].
    + apply Hrem'. by rewrite Hair.
    + destruct Hch as [->|[now Hch]]; [done|]. by apply (charge_new now (next_ c.2.1) c.2 c'.2.1).
    + rewrite Hby, Hs, Hsame. symmetry. apply Zsum_perm, Permutation_map, Hair.
    + by rewrite Hby, Hif.
Qed.
End Inv.
