(* ===== verification/PoolSafe.v ===== *)
(** What a source pass makes durable: every fingerprint it commits records a ship that was confirmed,
    or keeps the hash that was recorded before. *)

From stdpp Require Import list_tactics.
From S2P Require Import Prelude GoLib GoJson Vocab StateDoc Store Spec Manifest Upload FilePrep.
From S2P Require Import Pool PoolInv.

(** The verdicts that let a fingerprint be committed. *)
Definition confirmed (oc : option error) : bool :=
  match oc with None => true | Some _ => Is oc ErrAlreadyPresent end.

(** A recorded hash is justified by the state the pass began with, or by a confirmed upload of this
    key, and nothing is claimed by an empty one. *)
Definition justified (b0 : commitBuffer) (ups : list (stagedUpload * option error)) (k : Key)
    (h : string) : Prop :=
  h = "" \/ (exists fp0, buffered b0 !! k = Some fp0 /\ SourceHash fp0 = h) \/
  (exists it oc, (it, oc) ∈ ups /\ confirmed oc = true /\ pp_key (st_pending it) = k /\
     SourceHash (next (st_pending it)) = h).

Lemma justified_mono b0 ups ups' k h : justified b0 ups k h -> justified b0 (ups ++ ups') k h.
Proof.
  intros [H|[H|(it & oc & Hin & H)]]; [by left|by right; left|].
  right. right. exists it, oc. split; [set_solver|done].
Qed.

Section Safe.
Context {W : Type} {upl : UploadPort W} {uplL : UploadPortLaws W} {wrk : FileWorker}.
Variables (o : Options) (src : Source) (disc : Discovery) (staging : bool).
Variables (hasLog hasProgress : bool) (schema_detail : string).
Variables (maxInFlightBytes gomaxprocs : Z).
Context {wrkL : FileWorkerLaws o src}.
(** The buffer the pass begins with, and a bound on the attempt counts in it. *)
Variables (b0 : commitBuffer) (A0 : Z).

Notation step := (step o src disc staging hasLog hasProgress schema_detail maxInFlightBytes gomaxprocs).
Notation micro := (micro o src disc staging hasLog hasProgress schema_detail maxInFlightBytes gomaxprocs).
Notation settle := (settle o src disc staging hasLog hasProgress schema_detail).
Notation fold := (fold o hasLog hasProgress schema_detail).
Notation applyIntent := (applyIntent schema_detail).
Notation charge := (charge src disc staging).
Notation state := (state (W := W)).

Definition entry_ok (F : flight W) (k : Key) (f : Fingerprint) : Prop :=
  justified b0 (uploads F) k (SourceHash f) /\ 0 <= Attempts f <= A0 + Z.of_nat (next_ F).

Definition job_ok (F : flight W) (j : fileJob) : Prop :=
  justified b0 (uploads F) (KeyOf (src_ID src) (cand j)) (SourceHash (fp j)) /\
  0 <= Attempts (fp j) /\ Attempts (fp j) + 1 <= A0 + Z.of_nat (next_ F).

Definition intent_ok (F : flight W) (r : fileResult) : Prop :=
  r_intent r = no_intent \/ entry_ok F (in_key (r_intent r)) (in_fp (r_intent r)).

Definition staged_ok (it : stagedUpload) : Prop :=
  r_intent (st_res it) = no_intent /\ Attempts (next (st_pending it)) = 0 /\
  Fatal (outcome (st_res it)) = false /\ unavailable (st_res it) = false.

Definition result_ok (F : flight W) (x : fileResult * option pendingPut) : Prop :=
  intent_ok F x.1 /\ Fatal (outcome x.1) = false /\ unavailable x.1 = false /\
  match x.2 with Some pp => staged_ok (mkStaged x.1 pp) | None => True end.

Record sound (hands : list fileResult) (st : state) : Prop := {
  so_store : map_Forall (entry_ok st.1) (buffered (buf st.2));
  so_jobs : Forall (job_ok st.1) (jobs st.1);
  so_results : Forall (result_ok st.1) (results st.1);
  so_staged : Forall staged_ok (items (staged st.1));
  so_groups : Forall (Forall staged_ok) (groups st.1);
  so_batches : Forall (Forall (intent_ok st.1)) (batches st.1);
  so_hands : Forall (intent_ok st.1) hands
}.

(** What holds of a fingerprint stays so as verdicts arrive and candidates are admitted. *)
Definition later (F F' : flight W) : Prop :=
  (exists l, uploads F' = uploads F ++ l) /\ (next_ F <= next_ F')%nat.

Lemma entry_ok_later F F' k f : later F F' -> entry_ok F k f -> entry_ok F' k f.
Proof.
  intros [[l Hl] Hn] [Hj Ha]. split; [rewrite Hl; by apply justified_mono|]. lia.
Qed.

Lemma job_ok_later F F' j : later F F' -> job_ok F j -> job_ok F' j.
Proof.
  intros [[l Hl] Hn] (Hj & Ha & Hb). split_and!; [rewrite Hl; by apply justified_mono|lia..].
Qed.

Lemma intent_ok_later F F' r : later F F' -> intent_ok F r -> intent_ok F' r.
Proof. intros Hl [H|H]; [by left|right]. by eapply entry_ok_later. Qed.

Lemma result_ok_later F F' x : later F F' -> result_ok F x -> result_ok F' x.
Proof. intros Hl (H & H'). split; [|done]. by eapply intent_ok_later. Qed.

Lemma sound_later (F F' : flight W) (L L' : ledger) hands hands' :
  later F F' -> sound hands (F, L) ->
  buffered (buf L') = buffered (buf L) ->
  (Forall (job_ok F) (jobs F) -> Forall (job_ok F') (jobs F')) ->
  (Forall (result_ok F) (results F) -> Forall (result_ok F') (results F')) ->
  (Forall staged_ok (items (staged F)) -> Forall staged_ok (items (staged F'))) ->
  (Forall (Forall staged_ok) (groups F) -> Forall (Forall staged_ok) (groups F')) ->
  (Forall (Forall (intent_ok F)) (batches F) -> Forall (Forall (intent_ok F')) (batches F')) ->
  (Forall (intent_ok F) hands -> Forall (intent_ok F') hands') ->
  sound hands' (F', L').
Proof.
  intros Hl [H1 H2 H3 H4 H5 H6 H7] Hb Hj Hr Hs Hg Hba Hh. constructor; cbn in *; auto.
  rewrite Hb. intros k f Hk. eapply entry_ok_later; [exact Hl|]. by apply H1.
Qed.

Lemma later_same (F F' : flight W) : uploads F' = uploads F -> next_ F' = next_ F -> later F F'.
Proof. intros Hu Hn. split; [exists []; by rewrite app_nil_r|lia]. Qed.

Lemma abandon_ok (F : flight W) f why it : staged_ok it -> intent_ok F (abandon f why it).
Proof. intros (H & _). by left. Qed.

(** A settled result leaves the buffer as its intent says, whatever the commit's fate. *)
Lemma applyIntent_buffered e r L :
  buffered (buf (applyIntent e r L).2)
  = if bool_decide (kind (r_intent r) = intentNone) then buffered (buf L)
    else <[in_key (r_intent r) := in_fp (r_intent r)]> (buffered (buf L)).
Proof.
  unfold Pool.applyIntent. destruct (kind (r_intent r)) eqn:Hk; [done|..];
    destruct (Commit _ _ _ _ _) as [[err bf] w] eqn:Hc; apply Commit_spec in Hc as [Hb _];
    rewrite bool_decide_eq_false_2 by done; destruct err; cbn; done.
Qed.

Lemma fold_buf e r L : buf (fold e r L) = buf (applyIntent e r L).2.
Proof.
  unfold Pool.fold. destruct (_ || _); [done|]. by destruct (applyIntent e r L).
Qed.

Lemma sound_settle now e r hands (st : state) :
  sound (r :: hands) st -> sound hands (settle now e r st).
Proof.
  intros [H1 H2 H3 H4 H5 H6 H7]. destruct st as [F L]. unfold Pool.settle.
  destruct (charge now (idx r) (F, L)) as [sz cache]. apply Forall_cons in H7 as [Hr H7].
  constructor; cbn in *; try done. rewrite fold_buf, applyIntent_buffered.
  case_bool_decide as Hk; [done|]. apply map_Forall_insert_2; [|done].
  destruct Hr as [Hr|Hr]; [|done]. by rewrite Hr in Hk.
Qed.

Lemma prepared_result_ok F j r p :
  job_ok F j -> prepared_ok o src j r p -> A0 + Z.of_nat (next_ F) < 2 ^ 63 ->
  result_ok F (r, p).
Proof.
  intros (Hj & Ha & Hb) [_ (Hf & Hu & _) Hi Hp _] Hmax. split_and!; [|done|done|].
  - unfold intent_ok, entry_ok. destruct (kind (r_intent r)); [by left|right|done|right]; cbn [fst].
    + destruct Hi as (_ & _ & -> & -> & ->). split; [done|lia].
    + destruct Hi as (_ & -> & -> & E & Hpos). split; [done|].
      rewrite int64_id in E by lia. lia.
  - destruct p as [pp|]; [|done]. destruct Hp as (_ & Hn & _ & _ & Hz). split_and!; done.
Qed.

Lemma sendBatch_intents (F : flight W) w g :
  Forall staged_ok g -> (exists l, uploads F = l ++ zip g (authorizeAndUpload w g).1) ->
  0 <= A0 -> Forall (intent_ok F) (sendBatch w g).1.
Proof.
  intros Hg [l Hu] HA. unfold sendBatch. pose proof (authorizeAndUpload_length w g) as Hlen.
  destruct (authorizeAndUpload w g) as [outs w']. cbn [fst] in *.
  apply Forall_lookup. intros i r Hi. rewrite list_lookup_imap in Hi.
  destruct (g !! i) as [it|] eqn:Hit; [|done]. cbn in Hi. injection Hi as <-.
  rewrite Forall_lookup in Hg. destruct (Hg _ _ Hit) as (Hno & Hz & _).
  destruct (outs !! i) as [oc|] eqn:Hoc.
  2:{ apply lookup_ge_None in Hoc. apply lookup_lt_Some in Hit. lia. }
  cbn. pose proof (applyUploadOutcome_commits it oc Hno) as Hc. cbn zeta in Hc.
  fold (confirmed oc) in Hc. destruct (confirmed oc) eqn:Hconf.
  - destruct Hc as [Hc _]. right. rewrite Hc. cbn. split; [|lia].
    right. right. exists it, oc. split_and!; try done. rewrite Hu. apply elem_of_app. right.
    apply list_elem_of_lookup. exists i. rewrite lookup_zip_with, Hit. cbn. by rewrite Hoc.
  - left. apply Hc.
Qed.

Lemma Forall_mjoin {A} (P : A -> Prop) (l : list (list A)) : Forall P (mjoin l) <-> Forall (Forall P) l.
Proof.
  induction l as [|x l IH]; [by split; constructor|].
  change (mjoin (x :: l)) with (x ++ mjoin l). by rewrite Forall_app, Forall_cons, IH.
Qed.

Lemma flush_staged (b : batcher) sent b' :
  batcher_flush b = (sent, b') -> Forall staged_ok (items b) ->
  Forall staged_ok (items b') /\ Forall (Forall staged_ok) sent.
Proof.
  unfold batcher_flush, take_items. intros [= <- <-] H. split; [constructor|].
  destruct (items b); [constructor|]. by apply Forall_singleton.
Qed.

Hypothesis A0_nonneg : 0 <= A0.
Hypothesis A0_room : A0 + Z.of_nat (n disc) < 2 ^ 63 - 1.

Lemma sound_micro c c' :
  acct o disc gomaxprocs c.1 c.2 -> sound c.1 c.2 -> micro c c' -> sound c'.1 c'.2.
Proof.
  intros Hacct Hs Hm. pose proof (ac_next _ _ _ _ _ Hacct) as Hnx.
  destruct Hm as [F L ctx now c Hat Hlt Hg Hc|F L now g Hat Hg Hw
    |F L before j after r p Hj Hp|F L before g after Hgr|F L r rest Hat Hr|F L r pp rest Hat Hr Hl
    |F L r pp rest sent b Hat Hr Hl Ha|F L rs rest Hat Hb|now e r rs st|F L Hl|F L Hat];
    cbn [fst snd] in *.
  - unfold Pool.launch. destruct (charge now (next_ F) (F, L)) as [sz cache].
    set (F' := mkFlight _ _ _ _ _ _ _ _ _ _ _ _ _ _).
    assert (later F F') as Hlater by (split; [exists []; by rewrite app_nil_r|cbn; lia]).
    eapply (sound_later F F'); [done|exact Hs|..]; cbn; try done.
    2:{ intros H3. eapply Forall_impl; [exact H3|]. intros x. by apply result_ok_later. }
    2:{ intros H6. eapply Forall_impl; [exact H6|]. intros l Hl. eapply Forall_impl; [exact Hl|].
        intros x. by apply intent_ok_later. }
    + intros Hj. apply Forall_app. split.
      * eapply Forall_impl; [exact Hj|]. intros j. by apply job_ok_later.
      * apply Forall_singleton. unfold job_ok. cbn.
        pose proof (so_store _ _ Hs) as Hst. cbn in Hst. rewrite Get_buffered.
        case_bool_decide; [cbn; split; [by left|lia]|].
        destruct (buffered (buf L) !! _) as [f|] eqn:Hf; [|cbn; split; [by left|lia]].
        apply Hst in Hf as [Hjust Hatt]. cbn. split; [done|lia].
  - unfold Pool.close_turn. destruct (if computing F =? 0 then _ else _) as [sent held] eqn:Hf.
    assert (Forall staged_ok (items held) /\ Forall (Forall staged_ok) sent) as [Hh Hse].
    { pose proof (so_staged _ _ Hs) as H4. cbn in H4. destruct (computing F =? 0).
      - by eapply flush_staged.
      - injection Hf as <- <-. auto. }
    eapply (sound_later F); [by apply later_same|exact Hs|..]; cbn; try done.
    intros H5. by apply Forall_app.
  - pose proof (so_jobs _ _ Hs) as Hjobs. cbn in Hjobs. rewrite Hj in Hjobs.
    apply Forall_app in Hjobs as [Hb1 [Hj1 Hb2]%Forall_cons].
    eapply (sound_later F); [by apply later_same|exact Hs|..]; cbn; try done.
    + intros _. by apply Forall_app.
    + intros H3. apply Forall_app. split; [done|]. apply Forall_singleton.
      eapply (prepared_result_ok F); [exact Hj1|by apply worker_ok|lia].
  - unfold uploaded. destruct (sendBatch (port F) g) as [rs w] eqn:Hsb.
    set (verdicts := (authorizeAndUpload (port F) g).1).
    pose proof (so_groups _ _ Hs) as H5. cbn in H5. rewrite Hgr in H5.
    apply Forall_app in H5 as [Hb1 [Hg1 Hb2]%Forall_cons].
    set (F' := mkFlight _ _ _ _ _ _ _ _ _ _ _ _ _ _).
    assert (later F F') as Hlater by (split; [by eexists|done]).
    eapply (sound_later F F'); [done|exact Hs|..]; cbn; try done.
    + intros H2. eapply Forall_impl; [exact H2|]. intros j. by apply job_ok_later.
    + intros H3. eapply Forall_impl; [exact H3|]. intros x. by apply result_ok_later.
    + intros _. by apply Forall_app.
    + intros H6. apply Forall_app. split.
      * eapply Forall_impl; [exact H6|]. intros l Hl. eapply Forall_impl; [exact Hl|].
        intros x. by apply intent_ok_later.
      * apply Forall_singleton. change rs with (rs, w).1. rewrite <- Hsb.
        apply sendBatch_intents; [done|by eexists|done].
  - pose proof (so_results _ _ Hs) as H3. cbn in H3. rewrite Hr in H3.
    apply Forall_cons in H3 as [[Hi _] H3].
    eapply (sound_later F); [by apply later_same|exact Hs|..]; cbn; try done. intros _.
    apply Forall_singleton. exact Hi.
  - pose proof (so_results _ _ Hs) as H3. cbn in H3. rewrite Hr in H3.
    apply Forall_cons in H3 as [(_ & _ & _ & Hst) H3].
    eapply (sound_later F); [by apply later_same|exact Hs|..]; cbn; try done.
    intros _. apply Forall_singleton. by apply (abandon_ok F).
  - pose proof (so_results _ _ Hs) as H3. cbn in H3. rewrite Hr in H3.
    apply Forall_cons in H3 as [(_ & _ & _ & Hst) H3].
    pose proof (so_staged _ _ Hs) as H4. cbn in H4.
    apply add_spec in Ha as (_ & Hj & _); [|apply maxObjects_pos|apply Hacct].
    assert (Forall staged_ok (mjoin sent ++ items b)) as Hall
      by (rewrite Hj; apply Forall_app; split; [done|by apply Forall_singleton]).
    apply Forall_app in Hall as [Hse Hit]. rewrite Forall_mjoin in Hse.
    eapply (sound_later F); [by apply later_same|exact Hs|..]; cbn; try done.
    intros H5. by apply Forall_app.
  - pose proof (so_batches _ _ Hs) as H6. cbn in H6. rewrite Hb in H6.
    apply Forall_cons in H6 as [Hrs H6].
    eapply (sound_later F); [by apply later_same|exact Hs|..]; cbn; done.
  - by apply sound_settle.
  - pose proof (so_staged _ _ Hs) as H4. cbn in H4.
    eapply (sound_later F); [by apply later_same|exact Hs|..]; cbn; try done.
    + by rewrite app_nil_r.
    + intros _. apply List.Forall_map. eapply Forall_impl; [exact H4|].
      intros it. apply (abandon_ok F).
  - eapply (sound_later F); [by apply later_same|exact Hs|..]; done.
Qed.
End Safe.
