(* ===== verification/PoolProps.v ===== *)
(** The properties of a source pass: accounting, memory, budget, what it makes durable, what a refusal
    stops, that it never gets stuck, that it ends, and what it has decided when it does. *)

From stdpp Require Import list_tactics.
From S2P Require Import Prelude GoLib GoJson Vocab StateDoc Store Spec Manifest Upload FilePrep.
From S2P Require Import Pool PoolInv PoolSafe.

(** ** The frame of a fold *)

Lemma applyIntent_frame detail e r L :
  let '(r', L') := applyIntent detail e r L in
  idx r' = idx r /\ Fatal (outcome r') = Fatal (outcome r) /\ unavailable r' = unavailable r /\
  (fo_Decision (outcome r') = fo_Decision (outcome r) \/ fo_Decision (outcome r') = DecisionFailed) /\
  slots L' = slots L /\ budget L' = budget L /\ counts L' = counts L /\ decided L' = decided L /\
  fatal L' = fatal L /\ uploadHalted L' = uploadHalted L.
Proof.
  unfold applyIntent. destruct (kind (r_intent r)); [by auto 20|..];
    destruct (Commit _ _ _ _ _) as [[err bf] w]; destruct err; cbn; auto 20.
Qed.

(** Decisions that cost budget for good. *)
Definition spent (t : tally) : Z := t_Shipped t + t_Parked t + t_Failed t.
Definition tallied (t : tally) : Z := spent t + t_Unchanged t + t_Skipped t.

Lemma bump_spent d t :
  spent (bump d t) = spent t + match d with DecisionShipped | DecisionParked | DecisionFailed => 1 | _ => 0 end.
Proof. destruct t, d; unfold spent; cbn; lia. Qed.

Lemma bump_tallied d t : d <> DecisionUnset -> tallied (bump d t) = tallied t + 1.
Proof. destruct t, d; unfold tallied, spent; cbn; lia || done. Qed.

Lemma fold_frame o hasLog hasProgress detail e r L :
  let L' := fold o hasLog hasProgress detail e r L in
  (latched L = true /\ slots L' = slots L /\ budget L' = budget L /\ counts L' = counts L /\
     decided L' = decided L /\ latched L' = latched L) \/
  (exists f, slots L' = <[idx r := Some f]> (slots L) /\
     budget L' = budget L + (if refunded (fo_Decision f) then 1 else 0) /\
     counts L' = bump (fo_Decision f) (counts L) /\ decided L' = decided L + 1 /\
     latched L' = latched L || Fatal (outcome r) || unavailable r /\
     (fo_Decision (outcome r) <> DecisionUnset -> fo_Decision f <> DecisionUnset)).
Proof.
  unfold fold. pose proof (applyIntent_frame detail e r L) as Hf.
  destruct (applyIntent detail e r L) as [r' L1] eqn:He.
  destruct Hf as (Hi & HF & Hu & Hd & Hs & Hb & Hc & Hdec & Hfa & Hh).
  destruct ((Fatal (outcome r) && fatal L) || (unavailable r && uploadHalted L)) eqn:Hsup.
  - left. unfold latched. cbn [snd]. rewrite Hfa, Hh, Hs, Hb, Hc, Hdec. split_and!; try done.
    destruct (fatal L), (uploadHalted L); try done. by rewrite !andb_false_r in Hsup.
  - right. exists (outcome r'). cbn [slots budget counts decided latched fatal uploadHalted].
    unfold latched. cbn [fatal uploadHalted]. rewrite Hi, Hs, Hb, Hc, Hdec, Hfa, Hh, HF, Hu.
    split_and!; try done.
    + destruct (refunded _); lia.
    + destruct (fatal L), (uploadHalted L), (Fatal (outcome r)), (unavailable r); done.
    + intros Hne. destruct Hd as [->| ->]; done.
Qed.

Section Props.
Context {W : Type} {upl : UploadPort W} {uplL : UploadPortLaws W} {wrk : FileWorker}.
Variables (o : Options) (src : Source) (disc : Discovery) (staging : bool).
Variables (hasLog hasProgress : bool) (schema_detail : string).
Variables (maxInFlightBytes gomaxprocs : Z).
Context {wrkL : FileWorkerLaws o src}.

Notation limit_ := (limit_ o disc gomaxprocs).
Notation maxObjects := (maxObjects o disc gomaxprocs).
Notation step := (step o src disc staging hasLog hasProgress schema_detail maxInFlightBytes gomaxprocs).
Notation micro := (micro o src disc staging hasLog hasProgress schema_detail maxInFlightBytes gomaxprocs).
Notation settle := (settle o src disc staging hasLog hasProgress schema_detail).
Notation settle_all := (settle_all o src disc staging hasLog hasProgress schema_detail).
Notation fold := (fold o hasLog hasProgress schema_detail).
Notation canAdmit := (canAdmit src disc staging maxInFlightBytes).
Notation launch := (launch src disc staging).
Notation charge := (charge src disc staging).
Notation close_turn := (close_turn src disc staging).
Notation acct := (acct o disc gomaxprocs).
Notation gated := (gated o disc maxInFlightBytes gomaxprocs).
Notation start := (start disc).
Notation finish := (finish o src disc hasLog).
Notation state := (state (W := W)).

(** ** Where a pass begins *)

Lemma limit_pos : 0 < limit_.
Proof.
  unfold Pool.limit_, uploadLimit, uploadConcurrency, computeLimit, concurrency.
  destruct (0 <? UploadWorkers o) eqn:E; boolp; lia.
Qed.

Lemma start_gated b w files (pw : W) nt : gated [] (start b w files pw nt).
Proof.
  constructor; cbn; try done; [|lia].
  constructor; cbn; [| |by exists []|lia|].
  - constructor; cbn; try done; [apply empty_held_ok, maxObjects_pos|constructor..].
  - done.
  - pose proof limit_pos. lia.
Qed.

Definition reachable (b : commitBuffer) (w : world) (files : Z) (pw : W) (nt : notes) (st : state)
    : Prop := rtc step (start b w files pw nt) st.

Lemma reachable_by (Q : list fileResult -> state -> Prop) b w files pw nt st :
  (forall c c', Q c.1 c.2 -> micro c c' -> Q c'.1 c'.2) -> Q [] (start b w files pw nt) ->
  reachable b w files pw nt st -> Q [] st.
Proof. intros HQ H0 H. eapply micro_invariant; [exact HQ|exact H|exact H0]. Qed.

Lemma reachable_acct b w files pw nt st : reachable b w files pw nt st -> acct [] st.
Proof.
  apply (reachable_by (fun h s => acct h s)).
  - intros c c' Ha Hm. by eapply acct_micro.
  - eapply ga_acct, start_gated.
Qed.

(** Every admitted candidate is in exactly one place until it is settled: being computed, in the
    result channel, held for a group, in a group being sent, or in a batch; the loop's counters are
    the exact numbers of these, never above the limit that sizes the channels, so no goroutine ever
    blocks handing a result back. *)
Theorem pass_accounts b w files pw nt st :
  reachable b w files pw nt st ->
  inFlight st.1 = Zlen (in_air [] st.1) /\ NoDup (in_air [] st.1) /\
  Forall (fun i => (i < next_ st.1 <= n disc)%nat) (in_air [] st.1) /\
  computing st.1 = Zlen (jobs st.1) + Zlen (results st.1) /\
  inFlight st.1 <= limit_ /\ Zlen (results st.1) <= limit_ /\ Zlen (batches st.1) <= limit_ /\
  Forall (group_ok maxObjects) (groups st.1).
Proof.
  intros H. apply reachable_acct in H as Ha. pose proof (in_air_NoDup o disc gomaxprocs _ _ Ha) as Hnd.
  assert (Forall (fun i => (i < next_ st.1 <= n disc)%nat) (in_air [] st.1)) as Hbd.
  { apply Forall_forall. intros i Hi. apply (in_air_bound o src disc gomaxprocs _ _ _ Ha) in Hi.
    pose proof (ac_next _ _ _ _ _ Ha). lia. }
  destruct Ha as [Hp Hc _ _ Hl].
  assert (Zlen (results st.1) <= inFlight st.1 /\ Zlen (batches st.1) <= inFlight st.1) as [Hr Hb].
  { rewrite Hc. unfold in_air, Zlen. rewrite !length_app, !length_map.
    pose proof (pl_batches _ _ _ _ _ Hp) as Hne.
    assert (length (batches st.1) <= length (mjoin (batches st.1)))%nat; [|lia].
    induction Hne as [|rs l Hrs Hl' IH]; [done|].
    change (mjoin (rs :: l)) with (rs ++ mjoin l). rewrite length_app. destruct rs; [done|]. cbn. lia. }
  split_and!; try done; [apply Hp|lia|lia|apply Hp].
Qed.

(** C6: the raw bytes of the files in flight stay within the process's bound, unless one file alone
    is larger and runs by itself; a compressed file counts for what it decodes to. *)
Theorem pass_memory_gate b w files pw nt st :
  sizes_ok disc -> reachable b w files pw nt st ->
  (2 <= inFlight st.1 -> inFlightBytes st.1 <= maxInFlightBytes) /\
  inFlightBytes st.1 = Zsum (map (share disc st.1) (in_air [] st.1)) /\
  (inFlight st.1 = 0 -> inFlightBytes st.1 = 0).
Proof.
  intros Hok H.
  apply (reachable_by (fun h s => gated h s)) in H;
    [|intros c c' Ha Hm; by eapply gated_micro|apply start_gated].
  destruct H as [Ha _ _ Hs Hg]. split_and!; [lia|done|].
  intros Hz. rewrite Hs. destruct Ha as [_ Hc _ _ _]. rewrite Hz in Hc.
  destruct (in_air [] st.1); [done|]. rewrite Zlen_cons in Hc. pose proof (Zlen_nonneg l). lia.
Qed.

(** ** What becomes durable *)

Lemma start_sound b w files (pw : W) nt A0 :
  0 <= A0 -> map_Forall (fun _ f => 0 <= Attempts f <= A0) (buffered b) ->
  sound src b A0 [] (start b w files pw nt).
Proof.
  intros HA Hb. constructor; cbn; try done; [|constructor..].
  intros k f Hk. split; [right; left; eauto|]. specialize (Hb _ _ Hk). cbn in *. lia.
Qed.

Definition good (b : commitBuffer) (A0 : Z) (hands : list fileResult) (st : state) : Prop :=
  acct hands st /\ sound src b A0 hands st.

Lemma reachable_good b w files pw nt st A0 :
  0 <= A0 -> A0 + Z.of_nat (n disc) < 2 ^ 63 - 1 ->
  map_Forall (fun _ f => 0 <= Attempts f <= A0) (buffered b) ->
  reachable b w files pw nt st -> good b A0 [] st.
Proof.
  intros HA Hroom Hb. apply (reachable_by (good b A0)).
  - intros c c' [H1 H2] Hm. split; [by eapply acct_micro|by eapply sound_micro].
  - split; [eapply ga_acct, start_gated|by apply start_sound].
Qed.

(** C2: the pass commits only what this machine read and sent: whatever the interleaving and
    whatever the port answers, a source hash the store holds afterwards is one it held before, or
    that of an object whose upload was confirmed or answered already present, under that object's
    own key; no failure path ever records one. *)
Theorem pass_commits_only_confirmed b w files pw nt st A0 :
  0 <= A0 -> A0 + Z.of_nat (n disc) < 2 ^ 63 - 1 ->
  map_Forall (fun _ f => 0 <= Attempts f <= A0) (buffered b) ->
  reachable b w files pw nt st ->
  forall k f, buffered (buf st.2) !! k = Some f ->
    SourceHash f = "" \/
    (exists f0, buffered b !! k = Some f0 /\ SourceHash f0 = SourceHash f) \/
    (exists it oc, (it, oc) ∈ uploads st.1 /\ confirmed oc = true /\ pp_key (st_pending it) = k /\
       SourceHash (next (st_pending it)) = SourceHash f).
Proof.
  intros HA Hroom Hb H k f Hk. destruct (reachable_good _ _ _ _ _ _ _ HA Hroom Hb H) as [_ Hs].
  by destruct (so_store _ _ _ _ _ Hs k f Hk) as [Hj _].
Qed.

(** ** The budget *)

Record budgeted (B0 : Z) (hands : list fileResult) (st : state) : Prop := {
  bu_acct : acct hands st;
  bu_nonneg : 0 <= budget st.2;
  bu_spent : budget st.2 + inFlight st.1 + spent (counts st.2) <= B0
}.

Lemma settle_flight now e r (st : state) :
  next_ (settle now e r st).1 = next_ st.1 /\ inFlight (settle now e r st).1 = inFlight st.1 - 1 /\
  at_ (settle now e r st).1 = at_ st.1 /\ (settle now e r st).2 = fold e r st.2.
Proof. destruct st as [F L]. unfold Pool.settle. by destruct (charge _ _ _). Qed.

Lemma admit_flight now c (st : state) :
  next_ (launch now c st).1 = S (next_ st.1) /\ inFlight (launch now c st).1 = inFlight st.1 + 1 /\
  (launch now c st).2 = set_budget (budget st.2 - 1) st.2.
Proof. destruct st as [F L]. unfold Pool.launch. by destruct (charge _ _ _). Qed.

Lemma budgeted_micro B0 c c' : budgeted B0 c.1 c.2 -> micro c c' -> budgeted B0 c'.1 c'.2.
Proof.
  intros [Ha Hn Hs] Hm. assert (acct c'.1 c'.2) as Ha' by (by eapply acct_micro).
  pose proof (micro_effect _ _ _ _ _ _ _ _ _ c c'
    (fun _ => pl_held _ _ _ _ _ (ac_plumbing _ _ _ _ _ Ha)) Hm) as He.
  destruct He as [ctx now cd H1 H2 Hlt Hg Hcd Hst Hair|now e r H1 H2 Hair|Hair Hnx Hif _ Hled _].
  - apply canAdmit_open in Hg as (_ & _ & _ & _ & Hpos & _).
    destruct (admit_flight now cd c.2) as (_ & E2 & E3).
    constructor; [done|..]; rewrite Hst, ?E2, E3; cbn; lia.
  - destruct (settle_flight now e r c.2) as (_ & E2 & _ & E3).
    destruct (fold_frame o hasLog hasProgress schema_detail e r c.2.2)
      as [(_ & _ & Eb & Ec & _)|(f & _ & Eb & Ec & _)];
      constructor; [done| | |done|..]; rewrite H2, ?E2, E3, Eb, ?Ec; try lia.
    + destruct (refunded _); lia.
    + rewrite bump_spent. destruct (fo_Decision f); cbn; lia.
  - constructor; [done|..]; rewrite Hled, ?Hif; done.
Qed.

(** The run-wide budget is never overspent: it never goes below zero, and what is left, what is
    in flight and every file shipped, parked or failed fit in what the pass was given, however the
    files finish; only files left alone are refunded. *)
Theorem pass_budget b w files pw nt st :
  0 <= files -> reachable b w files pw nt st ->
  0 <= budget st.2 /\
  budget st.2 + inFlight st.1 +
    (t_Shipped (counts st.2) + t_Parked (counts st.2) + t_Failed (counts st.2)) <= files.
Proof.
  intros Hf H. apply (reachable_by (budgeted files)) in H.
  - destruct H as [_ H1 H2]. done.
  - intros c c' Hb Hm. by eapply budgeted_micro.
  - constructor; [eapply ga_acct, start_gated|done|]. cbn. unfold spent. cbn. lia.
Qed.

(** ** Turns of the loop *)

(** What settling leaves alone. *)
Definition same_places (F F' : flight W) : Prop :=
  at_ F' = at_ F /\ next_ F' = next_ F /\ jobs F' = jobs F /\ results F' = results F /\
  staged F' = staged F /\ groups F' = groups F /\ batches F' = batches F /\ computing F' = computing F.

Lemma settle_places now e r (st : state) : same_places st.1 (settle now e r st).1.
Proof. destruct st as [F L]. unfold Pool.settle. by destruct (charge _ _ _). Qed.

Lemma settle_all_places now env rs (st : state) : same_places st.1 (settle_all now env rs st).1.
Proof.
  revert env st; induction rs as [|r rs IH]; intros env st; [done|]. cbn [Pool.settle_all].
  pose proof (settle_places now (env O) r st) as (E1 & E2 & E3 & E4 & E5 & E6 & E7 & E8).
  unfold same_places. destruct (IH (fun k => env (S k)) (settle now (env O) r st))
    as (-> & -> & -> & -> & -> & -> & -> & ->). done.
Qed.

Record turn (st : state) : Prop := {
  tu_selecting : at_ st.1 = Selecting ->
    0 < inFlight st.1 /\ (computing st.1 = 0 -> items (staged st.1) = []);
  tu_finished : at_ st.1 = Finished ->
    inFlight st.1 = 0 /\
    (stopped st.1 <> None \/ latched st.2 = true \/ next_ st.1 = n disc \/ budget st.2 <= 0);
  tu_latched : latched st.2 = true -> items (staged st.1) = []
}.

Lemma turn_admitting (st : state) :
  at_ st.1 = Admitting -> (latched st.2 = true -> items (staged st.1) = []) -> turn st.
Proof. intros H1 H2. constructor; [congruence..|done]. Qed.

(** A result that neither refuses nor halts latches nothing. *)
Lemma settle_quiet now e r (st : state) :
  Fatal (outcome r) = false -> unavailable r = false ->
  latched (settle now e r st).2 = latched st.2.
Proof.
  intros Hf Hu. destruct (settle_flight now e r st) as (_ & _ & _ & ->).
  destruct (fold_frame o hasLog hasProgress schema_detail e r st.2)
    as [(_ & _ & _ & _ & _ & E)|(f & _ & _ & _ & _ & E & _)]; [done|].
  by rewrite E, Hf, Hu, !orb_false_r.
Qed.

Lemma canAdmit_closed ctx now (st : state) g :
  canAdmit ctx now st = g -> acct [] st -> inFlight st.1 = 0 ->
  match g with
  | GateClosed => stopped st.1 <> None \/ latched st.2 = true \/ next_ st.1 = n disc
  | GateBudget => budget st.2 <= 0
  | GateMemory => False
  | _ => True
  end.
Proof.
  destruct st as [F L]. unfold Pool.canAdmit. cbn [fst snd]. intros <- Ha Hz.
  pose proof (ac_next _ _ _ _ _ Ha) as Hn. cbn [fst] in Hn.
  destruct (bool_decide (is_Some (stopped F)) || fatal L || uploadHalted L || _) eqn:E.
  - unfold latched. apply orb_true_iff in E as [E|E].
    + apply orb_true_iff in E as [E|E]; [|right; left; by rewrite E, orb_true_r].
      apply orb_true_iff in E as [E|E]; [|right; left; by rewrite E].
      left. boolp. by intros E'; rewrite E' in E; destruct E.
    + right. right. apply Nat.leb_le in E. unfold n in *. lia.
  - destruct ctx; [done|]. destruct (budget L <=? 0) eqn:Hb; [by boolp|].
    rewrite Hz. destruct ((0 <? 0) && _) eqn:E2; [by boolp|done].
Qed.

Lemma turn_close g now F L :
  acct [] (F, L) -> turn (F, L) ->
  (inFlight F = 0 -> stopped (close_turn g now (F, L)).1 <> None \/ latched L = true \/
     next_ F = n disc \/ budget L <= 0) ->
  turn (close_turn g now (F, L)).
Proof.
  intros Ha Ht Hend. pose proof (tu_latched _ Ht) as Hl. cbn in Hl.
  pose proof (ac_count _ _ _ _ _ Ha) as Hcnt. pose proof (Zlen_nonneg (in_air [] F)). cbn in Hcnt.
  revert Hend. unfold Pool.close_turn.
  destruct (if computing F =? 0 then _ else _) as [sent held] eqn:Hf. intros Hend.
  assert ((latched L = true -> items held = []) /\ (computing F = 0 -> items held = [])) as [Hh1 Hh2].
  { destruct (Z.eqb_spec (computing F) 0); [by injection Hf as <- <-|].
    injection Hf as <- <-. split; [done|lia]. }
  destruct (Z.eqb_spec (inFlight F) 0); constructor; cbn in *; try done; auto.
  split; [lia|done].
Qed.

Lemma turn_step b A0 st st' : good b A0 [] st -> turn st -> step st st' -> turn st'.
Proof.
  intros [Ha Hs] Ht Hst. pose proof (tu_latched _ Ht) as Hl.
  destruct Hst as [F L ctx now c Hat Hlt Hg Hc|F L now Hat Hfull|F L ctx now g Hat Hlt Hg Hne
    |F L before j after r p Hj Hp|F L before g after Hgr|F L now e r p rest Hat Hr
    |F L now env rs rest Hat Hb]; cbn in Hl.
  - apply turn_admitting; [unfold Pool.launch; by destruct (charge _ _ _)|].
    apply canAdmit_open in Hg as (_ & _ & Hno & _).
    destruct (admit_flight now c (F, L)) as (_ & _ & ->). cbn [snd] in *.
    intros H. change (latched L = true) in H. congruence.
  - apply turn_close; [done..|]. pose proof limit_pos. lia.
  - apply turn_close; [done..|]. intros Hz.
    pose proof (canAdmit_closed ctx now (F, L) g Hg Ha Hz) as Hcl. cbn in Hcl.
    unfold Pool.close_turn. destruct (if computing F =? 0 then _ else _).
    destruct g; cbn; auto; naive_solver.
  - destruct Ht as [H1 H2 H3]. constructor; done.
  - destruct Ht as [H1 H2 H3]. unfold uploaded. destruct (sendBatch (port F) g). constructor; done.
  - pose proof (so_results _ _ _ _ _ Hs) as H3. cbn in H3. rewrite Hr in H3.
    apply Forall_cons in H3 as [(_ & Hf & Hu & Hst) _]. cbn in Hf, Hu, Hst.
    apply turn_admitting; [by destruct (on_result _ _ _ _ _ _ _ _ _ _ _ _ _)|].
    unfold on_result. change ((set_results rest (F, L)).2) with L.
    set (st1 := set_results rest (F, L)).
    assert (forall st2, (latched st2.2 = true -> items (staged st2.1) = []) ->
      latched (with_phase Admitting st2 : state).2 = true ->
      items (staged (with_phase Admitting st2 : state).1) = []) as Hph by (by intros [F2 L2]).
    apply Hph. destruct p as [pp|].
    + destruct (latched L) eqn:Hlt.
      * intros _. destruct (settle_places now e (abandon (fatal L) (haltReason L) (mkStaged r pp)) st1)
          as (_ & _ & _ & _ & -> & _). by apply Hl.
      * destruct (add _ _ _ _) as [sent bt]. cbn. congruence.
    + rewrite settle_quiet by done. destruct (settle_places now e r st1) as (_ & _ & _ & _ & -> & _).
      exact Hl.
  - apply turn_admitting; [by destruct (on_batch _ _ _ _ _ _ _ _ _ _ _)|].
    unfold on_batch. destruct (settle_all now env rs (set_batches rest (F, L))) as [F1 L1].
    unfold drainStaged. destruct (latched L1) eqn:Hl1; cbn [negb].
    + cbn [take_items]. set (drained := map _ _). set (st2 := set_staged empty_batcher [] (F1, L1)).
      pose proof (settle_all_places now (fun k => env (length rs + k)%nat) drained st2)
        as (_ & _ & _ & _ & E & _).
      destruct (settle_all now _ drained st2) as [F3 L3]. cbn in E |- *. by rewrite E.
    + cbn. congruence.
Qed.

Lemma reachable_turn b w files pw nt st A0 :
  0 <= A0 -> A0 + Z.of_nat (n disc) < 2 ^ 63 - 1 ->
  map_Forall (fun _ f => 0 <= Attempts f <= A0) (buffered b) ->
  reachable b w files pw nt st -> turn st.
Proof.
  intros HA Hroom Hb H. unfold reachable in H.
  apply (rtc_ind_r (fun s => turn s) (start b w files pw nt)) in H; [done| |].
  - constructor; done.
  - intros s1 s2 H1 H2 Ht. eapply turn_step; [|exact Ht|exact H2].
    by apply (reachable_good b w files pw nt).
Qed.

(** ** After a refusal or a halt *)

Lemma settle_latched now e r (st : state) :
  latched st.2 = true -> latched (settle now e r st).2 = true.
Proof.
  intros H. destruct (settle_flight now e r st) as (_ & _ & _ & ->).
  destruct (fold_frame o hasLog hasProgress schema_detail e r st.2)
    as [(_ & _ & _ & _ & _ & E)|(f & _ & _ & _ & _ & E & _)]; rewrite E, ?H; done.
Qed.

Lemma settle_all_latched now env rs (st : state) :
  latched st.2 = true -> latched (settle_all now env rs st).2 = true.
Proof.
  revert env st; induction rs as [|r rs IH]; intros env st H; [done|].
  cbn [Pool.settle_all]. by apply IH, settle_latched.
Qed.

(** Once the install was refused or the plane stopped answering, the pass winds down: nothing
    more is admitted, no further group is sent, nothing stays held, and the latch is never undone,
    while what is in flight is still collected. *)
Theorem pass_latch_stops b w files pw nt st st' A0 :
  0 <= A0 -> A0 + Z.of_nat (n disc) < 2 ^ 63 - 1 ->
  map_Forall (fun _ f => 0 <= Attempts f <= A0) (buffered b) ->
  reachable b w files pw nt st -> latched st.2 = true -> step st st' ->
  latched st'.2 = true /\ next_ st'.1 = next_ st.1 /\ items (staged st'.1) = [] /\
  (groups st'.1 = groups st.1 \/ exists before g after,
     groups st.1 = before ++ g :: after /\ groups st'.1 = before ++ after).
Proof.
  intros HA Hroom Hb Hr Hl Hst.
  assert (turn st) as Ht by (by eapply reachable_turn).
  pose proof (tu_latched _ Ht Hl) as Hh.
  assert (turn st') as Ht'.
  { eapply turn_step; [|exact Ht|exact Hst]. by eapply reachable_good. }
  cut (latched st'.2 = true /\ next_ st'.1 = next_ st.1 /\
    (groups st'.1 = groups st.1 \/ exists before g after,
       groups st.1 = before ++ g :: after /\ groups st'.1 = before ++ after)).
  { intros (H1 & H2 & H3). split_and!; [done|done|by apply tu_latched|done]. }
  clear Ht Ht' Hr HA Hroom Hb.
  destruct Hst as [F L ctx now c Hat Hlt Hg Hc|F L now Hat Hfull|F L ctx now g Hat Hlt Hg Hne
    |F L before j after r p Hj Hp|F L before g after Hgr|F L now e r p rest Hat Hr
    |F L now env rs rest Hat Hb]; cbn in Hl, Hh.
  - apply canAdmit_open in Hg as (_ & _ & Hno & _). cbn in Hno. congruence.
  - unfold Pool.close_turn, batcher_flush, take_items. rewrite Hh. cbn.
    destruct (computing F =? 0); cbn; rewrite app_nil_r; auto.
  - unfold Pool.close_turn, batcher_flush, take_items. rewrite Hh. cbn.
    destruct (computing F =? 0); cbn; rewrite app_nil_r; auto.
  - cbn. auto.
  - unfold uploaded. destruct (sendBatch (port F) g). cbn. split_and!; eauto 6.
  - unfold on_result. change ((set_results rest (F, L)).2) with L. rewrite Hl.
    set (st1 := set_results rest (F, L)).
    assert (forall r', latched (with_phase Admitting (settle now e r' st1) : state).2 = true /\
      next_ (with_phase Admitting (settle now e r' st1) : state).1 = next_ F /\
      groups (with_phase Admitting (settle now e r' st1) : state).1 = groups F) as Hall.
    { intros r'. destruct (settle_places now e r' st1) as (_ & E2 & _ & _ & _ & E6 & _).
      pose proof (settle_latched now e r' st1 Hl) as E. by destruct (settle now e r' st1). }
    destruct p as [pp|]; edestruct Hall as (-> & -> & ->); auto.
  - unfold on_batch. set (st1 := set_batches rest (F, L)).
    pose proof (settle_all_latched now env rs st1 Hl) as E.
    destruct (settle_all_places now env rs st1) as (_ & E2 & _ & _ & _ & E6 & _).
    destruct (settle_all now env rs st1) as [F1 L1]. cbn in E, E2, E6.
    unfold drainStaged. rewrite E. cbn [negb take_items].
    set (drained := map _ _). set (st2 := set_staged empty_batcher [] (F1, L1)).
    pose proof (settle_all_latched now (fun k => env (length rs + k)%nat) drained st2 E) as E'.
    destruct (settle_all_places now (fun k => env (length rs + k)%nat) drained st2)
      as (_ & E2' & _ & _ & _ & E6' & _).
    destruct (settle_all now _ drained st2) as [F3 L3]. cbn in *. rewrite app_nil_r in E6'.
    split_and!; [done|congruence|left; congruence].
Qed.

(** ** Never stuck *)

Lemma air_nonempty (F : flight W) :
  0 < Zlen (in_air [] F) -> jobs F <> [] \/ results F <> [] \/ items (staged F) <> [] \/
    mjoin (groups F) <> [] \/ mjoin (batches F) <> [].
Proof.
  unfold in_air. intros H. destruct (jobs F); [|by left]. destruct (results F); [|by right; left].
  destruct (items (staged F)); [|auto]. destruct (mjoin (groups F)); [|auto].
  destruct (mjoin (batches F)); [done|auto 6].
Qed.

(** C4: the pass never gets stuck: until it has finished, from every state it can reach, the loop or
    some goroutine can take a step. *)
Theorem pass_progress b w files pw nt st A0 :
  0 <= A0 -> A0 + Z.of_nat (n disc) < 2 ^ 63 - 1 ->
  map_Forall (fun _ f => 0 <= Attempts f <= A0) (buffered b) ->
  reachable b w files pw nt st -> at_ st.1 <> Finished -> exists st', step st st'.
Proof.
  intros HA Hroom Hb Hr Hfin.
  assert (good b A0 [] st) as [Ha Hs] by (by eapply reachable_good).
  assert (turn st) as Ht by (by eapply reachable_turn).
  destruct st as [F L]. cbn in Hfin. destruct (at_ F) eqn:Hat; [| |done].
  - destruct (Z.lt_ge_cases (inFlight F) limit_) as [Hlt|Hge]; [|eexists; by apply (step_turn_full _ _ _ _ _ _ _ _ _ F L 0)].
    destruct (canAdmit None 0 (F, L)) eqn:Hg;
      try (eexists; by eapply (step_turn _ _ _ _ _ _ _ _ _ F L None 0)).
    pose proof (canAdmit_open _ _ _ _ _ _ _ Hg) as (_ & _ & _ & Hn & _). cbn in Hn.
    destruct (lookup_lt_is_Some_2 _ _ Hn) as [c Hc].
    eexists. by eapply (step_admit _ _ _ _ _ _ _ _ _ F L None 0 c).
  - destruct (tu_selecting _ Ht Hat) as [Hpos Hheld]. cbn in Hpos, Hheld.
    pose proof (ac_count _ _ _ _ _ Ha) as Hcnt. cbn in Hcnt. rewrite Hcnt in Hpos.
    pose proof (air_nonempty F Hpos) as Hne.
    pose proof (ac_plumbing _ _ _ _ _ Ha) as Hp.
    pose proof (pl_computing _ _ _ _ _ Hp) as Hcomp. cbn in Hcomp.
    destruct (jobs F) as [|j js] eqn:Hj.
    + destruct (results F) as [|[r p] rest] eqn:Hres.
      * destruct (groups F) as [|g gs] eqn:Hgs; [|eexists; by eapply (step_upload _ _ _ _ _ _ _ _ _ F L [] g gs)].
        destruct (batches F) as [|rs rest] eqn:Hbs.
        -- rewrite Hheld in Hne; [naive_solver|]. by rewrite Hcomp.
        -- eexists. by eapply (step_batch _ _ _ _ _ _ _ _ _ F L 0 (fun _ => mkIO 0 None)).
      * eexists. by eapply (step_result _ _ _ _ _ _ _ _ _ F L 0 (mkIO 0 None)).
    + pose proof (so_jobs _ _ _ _ _ Hs) as Hjobs. cbn in Hjobs. rewrite Hj in Hjobs.
      apply Forall_cons in Hjobs as [(_ & H1 & H2) _].
      pose proof (ac_next _ _ _ _ _ Ha) as Hnx. cbn in Hnx, H2.
      destruct (worker_total j) as (r & p & Hp'); [lia|].
      eexists. by eapply (step_compute _ _ _ _ _ _ _ _ _ F L [] j js).
Qed.

(** ** Ending *)

Definition work (F : flight W) : nat :=
  (9 * (n disc - next_ F) + 7 * length (jobs F) + 6 * length (results F) +
   4 * length (items (staged F)) + 3 * length (mjoin (groups F)) + 2 * length (mjoin (batches F)) +
   match at_ F with Admitting => 1 | _ => 0 end)%nat.

Lemma work_places (F F' : flight W) : same_places F F' -> work F' = work F.
Proof. intros (E1 & E2 & E3 & E4 & E5 & E6 & E7 & _). unfold work. by rewrite E1, E2, E3, E4, E5, E6, E7. Qed.

Lemma work_turn (st : state) : (work (with_phase Admitting st : state).1 <= S (work st.1))%nat.
Proof. destruct st as [F L]. unfold work. cbn. destruct (at_ F); lia. Qed.

Lemma length_mjoin_middle {A} (a b : list (list A)) g :
  length (mjoin (a ++ g :: b)) = (length g + length (mjoin (a ++ b)))%nat.
Proof. rewrite (Permutation_length (mjoin_middle a b g)). apply length_app. Qed.

Lemma batcher_flush_length bt sent b' : batcher_flush bt = (sent, b') ->
  items b' = [] /\ length (mjoin sent) = length (items bt).
Proof.
  unfold batcher_flush, take_items. intros [= <- <-]. split; [done|].
  destruct (items bt) as [|x l]; [done|]. change (mjoin [x :: l]) with ((x :: l) ++ []).
  by rewrite app_nil_r.
Qed.

Lemma close_turn_work g now F L :
  at_ F = Admitting -> (work (close_turn g now (F, L)).1 < work F)%nat.
Proof.
  intros Hat. unfold Pool.close_turn.
  destruct (if computing F =? 0 then _ else _) as [sent held] eqn:Hf.
  unfold work. cbn. rewrite Hat, join_app, length_app.
  assert (length (items held) + length (mjoin sent) = length (items (staged F)))%nat.
  { destruct (computing F =? 0); [by apply batcher_flush_length in Hf as [-> ->]|].
    injection Hf as <- <-. cbn. lia. }
  destruct (inFlight F =? 0); lia.
Qed.

Lemma step_work st st' : acct [] st -> step st st' -> (work st'.1 < work st.1)%nat.
Proof.
  intros Ha Hst. pose proof (ac_plumbing _ _ _ _ _ Ha) as [Hheld Hgroups _ Hbatches].
  destruct Hst as [F L ctx now c Hat Hlt Hg Hc|F L now Hat Hfull|F L ctx now g Hat Hlt Hg Hne
    |F L before j after r p Hj Hp|F L before g after Hgr|F L now e r p rest Hat Hr
    |F L now env rs rest Hat Hb]; cbn [fst snd] in *.
  - unfold Pool.launch. destruct (charge now (next_ F) (F, L)). apply lookup_lt_Some in Hc.
    unfold work, n, candidates in *. cbn. rewrite Hat, length_app. cbn. lia.
  - by apply close_turn_work.
  - by apply close_turn_work.
  - unfold work. cbn. rewrite Hj, !length_app. cbn. lia.
  - unfold uploaded. pose proof (sendBatch_length (port F) g) as Hlen.
    destruct (sendBatch (port F) g) as [rs w]. cbn in Hlen.
    assert (length (mjoin (batches F ++ [rs])) = length (mjoin (batches F)) + length g)%nat as Hb.
    { rewrite join_app, length_app. change (mjoin [rs]) with (rs ++ []). by rewrite app_nil_r, Hlen. }
    unfold work. cbn [fst next_ jobs results staged groups batches at_].
    rewrite Hgr, (length_mjoin_middle before after g), Hb.
    rewrite Hgr in Hgroups. apply Forall_app in Hgroups as [_ [[Hne _] _]%Forall_cons].
    destruct g; [done|]. cbn. lia.
  - eapply Nat.le_lt_trans; [apply work_turn|]. unfold on_result.
    change ((set_results rest (F, L)).2) with L. set (st1 := set_results rest (F, L)).
    assert (work st1.1 + 6 = work F)%nat as Hw by (unfold work; cbn; rewrite Hr; cbn; lia).
    assert (forall r', work (settle now e r' st1).1 = work st1.1) as Hs
      by (intros r'; apply work_places, settle_places).
    destruct p as [pp|]; [|rewrite Hs; lia]. destruct (latched L); [rewrite Hs; lia|].
    destruct (add _ _ _ _) as [sent bt] eqn:Ha'.
    apply (add_spec maxObjects (mkStaged r pp)) in Ha' as (_ & Hjn & _); [|apply maxObjects_pos|done].
    apply (f_equal length) in Hjn. rewrite !length_app in Hjn. cbn in Hjn.
    unfold work in *. cbn in *. rewrite join_app, length_app. lia.
  - eapply Nat.le_lt_trans; [apply work_turn|]. unfold on_batch.
    set (st1 := set_batches rest (F, L)).
    assert (work st1.1 + 2 <= work F)%nat as Hw.
    { unfold work. cbn. rewrite Hb. change (mjoin (rs :: rest)) with (rs ++ mjoin rest).
      rewrite length_app. rewrite Hb in Hbatches. apply Forall_cons in Hbatches as [Hne _].
      destruct rs; [done|]. cbn. lia. }
    pose proof (work_places _ _ (settle_all_places now env rs st1)) as E1.
    destruct (settle_all now env rs st1) as [F1 L1]. cbn [fst] in E1. unfold drainStaged.
    destruct (negb (latched L1)); [cbn [fst Pool.settle_all]; lia|]. cbn [take_items].
    set (drained := map _ _). set (st2 := set_staged empty_batcher [] (F1, L1)).
    pose proof (work_places _ _ (settle_all_places now (fun k => env (length rs + k)%nat) drained st2)) as E2.
    assert (work st2.1 <= work F1)%nat
      by (unfold work; cbn; rewrite app_nil_r; lia).
    lia.
Qed.

(** C5: the pass ends: no interleaving takes more than nine steps per candidate and one more. *)
Theorem pass_terminates b w files pw nt k st :
  nsteps step k (start b w files pw nt) st -> (k <= 9 * n disc + 1)%nat.
Proof.
  assert (forall k st1 st2, reachable b w files pw nt st1 -> nsteps step k st1 st2 ->
    (k + work st2.1 <= work st1.1)%nat) as H.
  { clear k st. intros k st1 st2 Hr Hn. induction Hn as [st1|k st1 st2 st3 H12 H23 IH]; [lia|].
    assert (reachable b w files pw nt st2) as Hr2 by (eapply rtc_r; eauto).
    pose proof (step_work _ _ (reachable_acct _ _ _ _ _ _ Hr) H12). specialize (IH Hr2). lia. }
  intros Hn. specialize (H k _ _ (rtc_refl _ _) Hn).
  unfold work in H at 2. cbn in H. lia.
Qed.

(** ** What has been decided at the end *)

Definition decided_ (r : fileResult) : Prop := fo_Decision (outcome r) <> DecisionUnset.

Record booked (hands : list fileResult) (st : state) : Prop := {
  bo_acct : acct hands st;
  bo_len : length (slots st.2) = n disc;
  bo_filled : latched st.2 = false -> forall i, (i < next_ st.1)%nat -> i ∉ in_air hands st.1 ->
    exists f, slots st.2 !! i = Some (Some f);
  bo_open : forall i, (i < n disc)%nat -> i ∈ in_air hands st.1 \/ (next_ st.1 <= i)%nat ->
    slots st.2 !! i = Some None;
  bo_tally : latched st.2 = false ->
    tallied (counts st.2) = Z.of_nat (next_ st.1) - inFlight st.1;
  bo_hands : Forall decided_ hands;
  bo_results : Forall (fun x => x.2 = None -> decided_ x.1) (results st.1);
  bo_batches : Forall (Forall decided_) (batches st.1)
}.

Lemma applyUploadOutcome_decided it oc : decided_ (applyUploadOutcome it oc).
Proof. unfold decided_, applyUploadOutcome. destruct oc; [case_goal|]; done. Qed.

(** Decisions reach the hands of the loop already made. *)
Lemma decisions_micro c c' :
  Forall decided_ c.1 -> Forall (fun x => x.2 = None -> decided_ x.1) (results c.2.1) ->
  Forall (Forall decided_) (batches c.2.1) -> micro c c' ->
  Forall decided_ c'.1 /\ Forall (fun x => x.2 = None -> decided_ x.1) (results c'.2.1) /\
  Forall (Forall decided_) (batches c'.2.1).
Proof.
  intros H1 H2 H3 Hm.
  destruct Hm as [F L ctx now c Hat Hlt Hg Hc|F L now g Hat Hg Hw
    |F L before j after r p Hj Hp|F L before g after Hgr|F L r rest Hat Hr|F L r pp rest Hat Hr Hl
    |F L r pp rest sent b Hat Hr Hl Ha|F L rs rest Hat Hb|now e r rs st|F L Hl|F L Hat];
    cbn [fst snd] in *; try (rewrite Hr in H2; apply Forall_cons in H2 as [Hx H2]).
  - unfold Pool.launch. by destruct (charge now (next_ F) (F, L)).
  - unfold Pool.close_turn. by destruct (if computing F =? 0 then _ else _).
  - cbn. split_and!; [done| |done]. apply Forall_app. split; [done|]. apply Forall_singleton. cbn.
    intros ->. apply worker_ok in Hp as [_ _ _ Hd _]. exact Hd.
  - unfold uploaded, sendBatch. destruct (authorizeAndUpload (port F) g) as [outs w]. cbn.
    split_and!; [done|done|]. apply Forall_app. split; [done|]. apply Forall_singleton.
    apply Forall_lookup. intros i x Hi. rewrite list_lookup_imap in Hi.
    destruct (g !! i); [|done]. injection Hi as <-. apply applyUploadOutcome_decided.
  - split_and!; [apply Forall_singleton; by apply Hx|done|done].
  - split_and!; [by apply Forall_singleton|done|done].
  - done.
  - rewrite Hb in H3. by apply Forall_cons in H3 as [Hrs H3].
  - apply Forall_cons in H1 as [_ H1].
    destruct (settle_places now e r st) as (_ & _ & _ & E1 & _ & _ & E2 & _).
    change (results (settle now e r st).1) with (results (settle now e r st).1).
    rewrite E1, E2. done.
  - split_and!; [|done|done]. apply List.Forall_map, Forall_forall. done.
  - done.
Qed.

Lemma booked_micro c c' : booked c.1 c.2 -> micro c c' -> booked c'.1 c'.2.
Proof.
  intros [Ha Hlen Hfill Hopen Htal Hh Hr Hb] Hm.
  assert (acct c'.1 c'.2) as Ha' by (by eapply acct_micro).
  destruct (decisions_micro c c' Hh Hr Hb Hm) as (Hh' & Hr' & Hb').
  pose proof (in_air_NoDup o disc gomaxprocs _ _ Ha) as Hnd.
  pose proof (fun i => in_air_bound o src disc gomaxprocs _ _ i Ha) as Hbd.
  pose proof (micro_effect _ _ _ _ _ _ _ _ _ c c'
    (fun _ => pl_held _ _ _ _ _ (ac_plumbing _ _ _ _ _ Ha)) Hm) as He.
  destruct He as [ctx now cd H1 H2 Hlt Hg Hcd Hst Hair|now e r H1 H2 Hair|Hair Hnx Hif _ Hled _];
    unfold air in Hair.
  - assert (forall i, i ∈ in_air c'.1 c'.2.1 <-> i = next_ c.2.1 \/ i ∈ in_air c.1 c.2.1) as Hmem
      by (intros i; rewrite Hair; apply elem_of_cons).
    destruct (admit_flight now cd c.2) as (E1 & E2 & E3). rewrite <- Hst in E1, E2, E3.
    constructor; try done; rewrite ?E1, ?E2, E3.
    + done.
    + intros Hl i Hi Hn. rewrite Hmem in Hn. apply Hfill; [done|lia|tauto].
    + intros i Hi Hor. apply Hopen; [done|]. rewrite Hmem in Hor.
      destruct Hor as [[->|Hin]|Hge]; [right; lia|by left|right; lia].
    + intros Hl. specialize (Htal Hl). cbn. lia.
  - destruct (settle_flight now e r c.2) as (E1 & E2 & _ & E3). rewrite <- H2 in E1, E2, E3.
    assert (forall i, i ∈ in_air c.1 c.2.1 <-> i = idx r \/ i ∈ in_air c'.1 c'.2.1) as Hmem
      by (intros i; rewrite Hair; apply elem_of_cons).
    assert (idx r ∈ in_air c.1 c.2.1) as Hin by (apply Hmem; by left).
    assert (idx r ∉ in_air c'.1 c'.2.1) as Hout
      by (rewrite Hair in Hnd; by apply NoDup_cons in Hnd as [? _]).
    pose proof (Hbd _ Hin) as Hlt. pose proof (ac_next _ _ _ _ _ Ha) as Hnx.
    rewrite H1 in Hh. apply Forall_cons in Hh as [Hdr _].
    destruct (fold_frame o hasLog hasProgress schema_detail e r c.2.2)
      as [(Hl & Es & _ & Ec & _ & El)|(f & Es & _ & Ec & _ & El & Hd)];
      constructor; try done; rewrite ?E1, ?E2, E3, ?Es, ?Ec, ?El; try done; try congruence.
    + intros i Hi Hor. apply Hopen; [done|]. rewrite Hmem. tauto.
    + by rewrite length_insert.
    + intros Hl i Hi Hn. destruct (decide (i = idx r)) as [->|Hne].
      * exists f. apply list_lookup_insert_eq. lia.
      * rewrite list_lookup_insert_ne by done. apply Hfill; [|done|rewrite Hmem; tauto].
        by apply orb_false_iff in Hl as [[Hl _]%orb_false_iff _].
    + intros i Hi Hor. rewrite list_lookup_insert_ne.
      * apply Hopen; [done|]. rewrite Hmem. tauto.
      * intros <-. destruct Hor as [?|?]; [done|lia].
    + intros Hl. apply orb_false_iff in Hl as [[Hl _]%orb_false_iff _].
      rewrite bump_tallied by (by apply Hd). rewrite Htal by done. lia.
  - constructor; try done; rewrite ?Hled, ?Hnx, ?Hif; try done.
    + intros Hl i Hi Hn. rewrite Hair in Hn. by apply Hfill.
    + intros i Hi Hor. rewrite Hair in Hor. by apply Hopen.
Qed.

Lemma assemble_slots (l : list (option FileOutcome)) k :
  (k <= length l)%nat -> (forall i, (i < k)%nat -> exists f, l !! i = Some (Some f)) ->
  (forall i, (i < length l)%nat -> (k <= i)%nat -> l !! i = Some None) ->
  length (omap id l) = k /\ forall i, (i < k)%nat -> omap id l !! i = mjoin (l !! i).
Proof.
  revert k; induction l as [|x l IH]; intros k Hk Hf Ho.
  - cbn in Hk. split; [cbn; lia|]. intros i Hi. lia.
  - destruct k as [|k].
    + assert (omap id l = []) as E.
      { destruct (IH O) as [E _]; [lia|lia| |by destruct (omap id l)].
        intros i Hi _. apply (Ho (S i)); cbn; lia. }
      specialize (Ho O ltac:(cbn; lia) ltac:(lia)). injection Ho as ->. cbn. rewrite E.
      split; [done|]. lia.
    + destruct (Hf O) as [f Hx]; [lia|]. injection Hx as ->. cbn in Hk.
      destruct (IH k) as [E1 E2]; [lia| | |].
      * intros i Hi. apply (Hf (S i)). lia.
      * intros i Hi Hge. apply (Ho (S i)); cbn; lia.
      * cbn. rewrite E1. split; [done|]. intros [|i] Hi; [done|]. cbn. apply E2. lia.
Qed.

(** C3: a pass that ends without an error has decided every candidate it started, in candidate
    order: as many outcomes as candidates, counted once each, the rest of the candidates left only
    because the budget is spent; one that ends with an error says which latch ended it. *)
Theorem pass_complete b w files pw nt st A0 :
  0 <= A0 -> A0 + Z.of_nat (n disc) < 2 ^ 63 - 1 ->
  map_Forall (fun _ f => 0 <= Attempts f <= A0) (buffered b) ->
  reachable b w files pw nt st -> at_ st.1 = Finished ->
  let res := finish st in
  match pr_err res with
  | None =>
      Zlen (pr_Files res) = Z.of_nat (next_ st.1) /\
      (forall i, (i < next_ st.1)%nat -> exists f, slots st.2 !! i = Some (Some f) /\ pr_Files res !! i = Some f) /\
      tallied (counts st.2) = Zlen (pr_Files res) /\
      Zlen (pr_Files res) + pr_Remaining res = Z.of_nat (n disc) /\
      (pr_Truncated res = true <-> 0 < pr_Remaining res) /\ (pr_Truncated res = true -> budget st.2 <= 0)
  | Some e =>
      if latched st.2 then stopsRun (Some e) = true /\ (Is (Some e) ErrCredentialsRefused = fatal st.2)
      else stopped st.1 = Some e
  end.
Proof.
  intros HA Hroom Hb Hr Hfin res.
  assert (turn st) as Ht by (by eapply reachable_turn).
  destruct (tu_finished _ Ht Hfin) as [Hz Hend].
  apply (reachable_by booked) in Hr; [|intros c c' ? ?; by eapply booked_micro|].
  2:{ constructor; cbn; [eapply ga_acct, start_gated|by rewrite length_replicate|intros; lia| |done
        |constructor..].
      intros i Hi _. by apply lookup_replicate_2. }
  destruct Hr as [Ha Hlen Hfill Hopen Htal _ _ _].
  pose proof (ac_next _ _ _ _ _ Ha) as Hnx. pose proof (ac_count _ _ _ _ _ Ha) as Hcnt.
  assert (in_air [] st.1 = []) as Hair.
  { rewrite Hz in Hcnt. destruct (in_air [] st.1) as [|i l]; [done|].
    rewrite Zlen_cons in Hcnt. pose proof (Zlen_nonneg l). lia. }
  rewrite Hair in *. unfold res, Pool.finish. destruct st as [F L]. cbn [fst snd] in *.
  unfold latched in *. destruct (fatal L) eqn:Hfa; [done|]. destruct (uploadHalted L) eqn:Hha.
  { destruct (p_offline L); done. }
  destruct (stopped F) eqn:Hsto; cbn [pr_err pr_Files pr_Remaining pr_Truncated]; [done|].
  destruct (assemble_slots (slots L) (next_ F)) as [E1 E2].
  - lia.
  - intros i Hi. apply Hfill; [done|done|apply not_elem_of_nil].
  - intros i Hi Hge. apply Hopen; [lia|by right].
  - unfold assemble, Zlen. rewrite E1. split_and!; try done.
    + intros i Hi. destruct (Hfill eq_refl i Hi) as [f Hf]; [apply not_elem_of_nil|].
      exists f. split; [done|]. rewrite E2 by done. by rewrite Hf.
    + rewrite Htal by done. lia.
    + lia.
    + apply Z.ltb_lt.
    + intros H. boolp. destruct Hend as [Hend|[Hend|[Hend|Hend]]]; [done|done|lia|done].
Qed.

(** ** A preview *)

Record untouched (b : commitBuffer) (w : world) (pw : W) (hands : list fileResult) (st : state)
    : Prop := {
  un_store : buf st.2 = b /\ dir st.2 = w /\ port st.1 = pw /\ uploads st.1 = [];
  un_flight : items (staged st.1) = [] /\ groups st.1 = [] /\ batches st.1 = [];
  un_results : Forall (fun x => x.2 = None /\ kind (r_intent x.1) = intentNone) (results st.1);
  un_hands : Forall (fun r => kind (r_intent r) = intentNone) hands
}.

Lemma fold_no_intent e r L :
  kind (r_intent r) = intentNone -> buf (fold e r L) = buf L /\ dir (fold e r L) = dir L.
Proof.
  intros Hk. unfold Pool.fold, applyIntent. rewrite Hk. by destruct ((_ && _) || _).
Qed.

Lemma untouched_micro b w pw c c' :
  DryRun o = true -> untouched b w pw c.1 c.2 -> micro c c' -> untouched b w pw c'.1 c'.2.
Proof.
  intros Hdry [(H1 & H2 & H3 & H4) (H5 & H6 & H7) H8 H9] Hm.
  destruct Hm as [F L ctx now c Hat Hlt Hg Hc|F L now g Hat Hg Hw
    |F L before j after r p Hj Hp|F L before g after Hgr|F L r rest Hat Hr|F L r pp rest Hat Hr Hl
    |F L r pp rest sent bt Hat Hr Hl Ha|F L rs rest Hat Hb|now e r rs [F L]|F L Hl|F L Hat];
    cbn [fst snd] in *; try (rewrite Hr in H8; apply Forall_cons in H8 as [[Hx Hy] H8]).
  - unfold Pool.launch. by destruct (charge now (next_ F) (F, L)).
  - unfold Pool.close_turn, batcher_flush, take_items. rewrite H5.
    destruct (computing F =? 0); constructor; cbn; auto; by rewrite H6.
  - constructor; cbn; auto. apply Forall_app. split; [done|]. apply Forall_singleton. cbn.
    apply worker_ok in Hp as [_ _ _ Hpend Hno]. rewrite (Hno Hdry).
    split; [|done]. destruct p; [|done]. destruct Hpend as [? _]. congruence.
  - rewrite H6 in Hgr. by destruct before.
  - constructor; cbn; auto.
  - done.
  - done.
  - congruence.
  - apply Forall_cons in H9 as [Hk H9]. destruct (fold_no_intent e r L Hk) as [E1 E2].
    unfold Pool.settle. destruct (charge now (idx r) (F, L)).
    constructor; cbn; auto. split_and!; congruence.
  - constructor; cbn; auto; [by rewrite H6|by rewrite H5].
  - done.
Qed.

(** A preview touches nothing: whatever it reads and however it interleaves, it leaves the
    fingerprint store, its buffer and the state directory as they were, and never calls the port. *)
Theorem pass_preview_pure b w files pw nt st :
  DryRun o = true -> reachable b w files pw nt st ->
  buf st.2 = b /\ dir st.2 = w /\ port st.1 = pw /\ uploads st.1 = [] /\ groups st.1 = [].
Proof.
  intros Hdry H. apply (reachable_by (untouched b w pw)) in H.
  - destruct H as [(H1 & H2 & H3 & H4) (_ & H5 & _) _ _]. done.
  - intros c c' Hc Hm. by eapply untouched_micro.
  - constructor; cbn; auto.
Qed.
End Props.
