(* ===== verification/PoolRun.v ===== *)
(** The compute leg of [FilePrep] behind the interface of the pass, and a whole pass over one new
    file: admitted, sealed, sent in a group of one, confirmed, committed. *)

From S2P Require Import Prelude GoLib GoTime GoJson Vocab StateDoc Store Spec Manifest Upload FilePrep.
From S2P Require Import Pool PoolInv PoolSafe PoolProps.

(** ** The implementation of the interface *)

Definition prepare_worker {scr : Scrubber} {con : Container} (o : Options) (src : Source) (disc : Discovery)
    (staging : bool) : FileWorker :=
  fun j r p => exists clk, prepareFile o src disc staging j clk = Some (r, p).

Lemma prepare_worker_laws {scr : Scrubber} {con : Container} o src disc staging :
  @FileWorkerLaws o src (prepare_worker o src disc staging).
Proof.
  constructor.
  - intros j r p [clk H]. by eapply prepareFile_ok.
  - intros j Hj. destruct (prepareFile_total o src disc staging j (mkClocks 0 0 0 0) Hj)
      as (r & p & H). exists r, p. by eexists.
Qed.

(** ** Steps of a state that is not written as a pair *)

Section Moves.
Context {W : Type} {upl : UploadPort W} {wrk : FileWorker}.
Variables (o : Options) (src : Source) (disc : Discovery) (staging : bool).
Variables (hasLog hasProgress : bool) (schema_detail : string).
Variables (maxInFlightBytes gomaxprocs : Z).
Notation step := (step o src disc staging hasLog hasProgress schema_detail maxInFlightBytes gomaxprocs).
Notation state := (state (W := W)).

Lemma admits ctx now c (st : state) :
  at_ st.1 = Admitting -> inFlight st.1 < limit_ o disc gomaxprocs ->
  canAdmit src disc staging maxInFlightBytes ctx now st = GateOpen ->
  candidates disc !! next_ st.1 = Some c -> step st (launch src disc staging now c st).
Proof. destruct st as [F L]. apply step_admit. Qed.

Lemma closes ctx now g (st : state) :
  at_ st.1 = Admitting -> inFlight st.1 < limit_ o disc gomaxprocs ->
  canAdmit src disc staging maxInFlightBytes ctx now st = g -> g <> GateOpen ->
  step st (close_turn src disc staging g now st).
Proof. destruct st as [F L]. apply step_turn. Qed.

Lemma computes before j after r p (st : state) :
  jobs st.1 = before ++ j :: after -> prepares j r p -> step st (computed before after r p st).
Proof. destruct st as [F L]. apply step_compute. Qed.

Lemma uploads_group before g after (st : state) :
  groups st.1 = before ++ g :: after -> step st (uploaded before after g st).
Proof. destruct st as [F L]. apply step_upload. Qed.

Lemma takes_result now e r p rest (st : state) :
  at_ st.1 = Selecting -> results st.1 = (r, p) :: rest ->
  step st (with_phase Admitting (on_result o src disc staging hasLog hasProgress schema_detail
    gomaxprocs now e r p (set_results rest st))).
Proof. destruct st as [F L]. apply step_result. Qed.

Lemma takes_batch now env rs rest (st : state) :
  at_ st.1 = Selecting -> batches st.1 = rs :: rest ->
  step st (with_phase Admitting (on_batch o src disc staging hasLog hasProgress schema_detail
    now env rs (set_batches rest st))).
Proof. destruct st as [F L]. apply step_batch. Qed.
End Moves.

(** ** A pass over one file *)

Module Run.
#[local] Existing Instances SampleRun.scrubber SampleRun.container.
Definition o : Options := SampleRun.options false.
Definition src : Source := SampleRun.src.
Definition disc : Discovery := SampleRun.disc.
#[local] Instance worker : FileWorker := prepare_worker o src disc false.
#[local] Instance worker_laws : FileWorkerLaws o src := prepare_worker_laws o src disc false.

Definition opened : Store :=
  mkStore (InstallID o) true {[ src_ID src := SampleRun.generation ]} ∅ false false.
Definition buffer : commitBuffer := newCommitBuffer opened 0.
Definition dir0 : world := mkWorld FileAbsent true [].
Definition note0 : notes := mkNotes 0 "" "".
Definition gate : Z := 100.
Definition procs : Z := 2.
Definition e : io := mkIO 0 None.

(** Ports that give every object the same verdict. *)
Definition answering (verdict : option error) : UploadPort () :=
  fun w batch => (map (fun _ => verdict) batch, w).
Lemma answering_laws verdict : @UploadPortLaws () (answering verdict).
Proof. intros w batch. apply length_map. Qed.

Notation step p := (@step () p worker o src disc false true true "" gate procs).
Definition st0 : state := start disc buffer dir0 10 tt note0.
Definition st1 : state := launch src disc false 0 SampleRun.the_file st0.
Definition st2 : state := close_turn src disc false GateClosed 0 st1.
Definition st3 : state := computed [] [] SampleRun.sealed.1 (Some SampleRun.sealed.2) st2.
Definition st4 : state :=
  with_phase Admitting (on_result o src disc false true true "" procs 0 e SampleRun.sealed.1
    (Some SampleRun.sealed.2) (set_results [] st3)).
Definition st5 : state := close_turn src disc false GateClosed 0 st4.
Definition group_ : list stagedUpload := [mkStaged SampleRun.sealed.1 SampleRun.sealed.2].
Definition st6 (p : UploadPort ()) : state := @uploaded () p [] [] group_ st5.
Definition batch_ (p : UploadPort ()) : list fileResult := (@sendBatch () p tt group_).1.
Definition st7 (p : UploadPort ()) : state :=
  with_phase Admitting (on_batch o src disc false true true "" 0 (fun _ => e) (batch_ p)
    (set_batches [] (st6 p))).
Definition st8 (p : UploadPort ()) : state := close_turn src disc false GateClosed 0 (st7 p).

Ltac by_running := vm_compute; first [reflexivity | discriminate].

Lemma reach5 (p : UploadPort ()) : rtc (step p) st0 st5.
Proof.
  apply (rtc_l _ st0 st1); [apply (admits _ _ _ _ _ _ _ _ _ None); by_running|].
  apply (rtc_l _ st1 st2); [apply (closes _ _ _ _ _ _ _ _ _ None); by_running|].
  apply (rtc_l _ st2 st3).
  { apply (computes _ _ _ _ _ _ _ _ _ [] SampleRun.job []); [by_running|].
    exists SampleRun.clk. exact SampleRun.seals. }
  apply (rtc_l _ st3 st4); [apply takes_result; by_running|].
  apply rtc_once, (closes _ _ _ _ _ _ _ _ _ None); by_running.
Qed.

(** The run of a port that confirms, and of one that refuses the install's credentials. *)
Definition yes : UploadPort () := answering None.
Definition no : UploadPort () := answering (Some (mkError "401" [ErrCredentialsRefused])).

Lemma reach8_yes : rtc (step yes) st0 (st8 yes).
Proof.
  etrans; [apply reach5|].
  apply (rtc_l _ st5 (st6 yes));
    [apply (@uploads_group () yes worker o src disc false true true "" gate procs [] group_ [] st5); by_running|].
  apply (rtc_l _ (st6 yes) (st7 yes));
    [apply (@takes_batch () yes worker o src disc false true true "" gate procs 0 (fun _ => e) (batch_ yes) [] (st6 yes)); by_running|].
  apply rtc_once, (@closes () yes worker o src disc false true true "" gate procs None 0 GateClosed (st7 yes)); by_running.
Qed.

Lemma reach7_no : rtc (step no) st0 (st7 no).
Proof.
  etrans; [apply reach5|].
  apply (rtc_l _ st5 (st6 no));
    [apply (@uploads_group () no worker o src disc false true true "" gate procs [] group_ [] st5); by_running|].
  apply rtc_once,
    (@takes_batch () no worker o src disc false true true "" gate procs 0 (fun _ => e) (batch_ no) [] (st6 no)); by_running.
Qed.

Lemma last_step_no : step no (st7 no) (st8 no).
Proof. apply (@closes () no worker o src disc false true true "" gate procs None 0 GateClosed (st7 no)); by_running. Qed.

#[local] Existing Instance answering_laws.
#[local] Instance yes_laws : @UploadPortLaws () yes := answering_laws None.
#[local] Instance no_laws : @UploadPortLaws () no := answering_laws _.

Notation reaches p := (@reachable () p worker o src disc false true true "" gate procs buffer dir0 10 tt note0).

Lemma empty_attempts : map_Forall (fun _ f => 0 <= Attempts f <= 0) (buffered buffer).
Proof. intros k f H. by vm_compute in H. Qed.

Lemma pass_accounts_witness :
  reaches yes st5 /\
  inFlight st5.1 = Zlen (in_air [] st5.1) /\ NoDup (in_air [] st5.1) /\
  Forall (fun i => (i < next_ st5.1 <= n disc)%nat) (in_air [] st5.1) /\
  computing st5.1 = Zlen (jobs st5.1) + Zlen (results st5.1) /\
  inFlight st5.1 <= limit_ o disc procs /\ Zlen (results st5.1) <= limit_ o disc procs /\
  Zlen (batches st5.1) <= limit_ o disc procs /\
  Forall (group_ok (maxObjects o disc procs)) (groups st5.1).
Proof.
  split; [apply reach5|].
  exact (@pass_accounts () yes yes_laws worker o src disc false true true "" gate procs worker_laws
    buffer dir0 10 tt note0 st5 (reach5 yes)).
Defined.

Lemma disc_sizes : sizes_ok disc.
Proof. repeat constructor; vm_compute; congruence. Qed.

Lemma pass_memory_gate_witness :
  reaches yes st5 /\
  (2 <= inFlight st5.1 -> inFlightBytes st5.1 <= gate) /\
  inFlightBytes st5.1 = Zsum (map (share disc st5.1) (in_air [] st5.1)) /\
  (inFlight st5.1 = 0 -> inFlightBytes st5.1 = 0).
Proof.
  split; [apply reach5|].
  exact (@pass_memory_gate () yes yes_laws worker o src disc false true true "" gate procs
    worker_laws buffer dir0 10 tt note0 st5 disc_sizes (reach5 yes)).
Defined.

Lemma pass_commits_only_confirmed_witness :
  reaches yes (st8 yes) /\
  exists f, buffered (buf (st8 yes).2) !! KeyOf (src_ID src) SampleRun.the_file = Some f /\
    (SourceHash f = "" \/
     (exists f0, buffered buffer !! KeyOf (src_ID src) SampleRun.the_file = Some f0 /\
        SourceHash f0 = SourceHash f) \/
     (exists it oc, (it, oc) ∈ uploads (st8 yes).1 /\ confirmed oc = true /\
        pp_key (st_pending it) = KeyOf (src_ID src) SampleRun.the_file /\
        SourceHash (next (st_pending it)) = SourceHash f)).
Proof.
  split; [apply reach8_yes|]. exists (next SampleRun.sealed.2).
  assert (buffered (buf (st8 yes).2) !! KeyOf (src_ID src) SampleRun.the_file
          = Some (next SampleRun.sealed.2)) as Hk by by_running.
  split; [exact Hk|].
  exact (@pass_commits_only_confirmed () yes yes_laws worker o src disc false true true "" gate procs
    worker_laws buffer dir0 10 tt note0 (st8 yes) 0 ltac:(lia) ltac:(by_running) empty_attempts
    reach8_yes _ _ Hk).
Defined.

Lemma pass_budget_witness :
  reaches yes (st8 yes) /\ 0 <= budget (st8 yes).2 /\
  budget (st8 yes).2 + inFlight (st8 yes).1 +
    (t_Shipped (counts (st8 yes).2) + t_Parked (counts (st8 yes).2) + t_Failed (counts (st8 yes).2))
  <= 10.
Proof.
  split; [apply reach8_yes|].
  exact (@pass_budget () yes yes_laws worker o src disc false true true "" gate procs worker_laws
    buffer dir0 10 tt note0 (st8 yes) ltac:(lia) reach8_yes).
Defined.

Lemma pass_latch_stops_witness :
  latched (st7 no).2 = true /\ step no (st7 no) (st8 no) /\
  latched (st8 no).2 = true /\ next_ (st8 no).1 = next_ (st7 no).1 /\
  items (staged (st8 no).1) = [] /\
  (groups (st8 no).1 = groups (st7 no).1 \/ exists before g after,
     groups (st7 no).1 = before ++ g :: after /\ groups (st8 no).1 = before ++ after).
Proof.
  split; [by_running|]. split; [exact last_step_no|].
  exact (@pass_latch_stops () no no_laws worker o src disc false true true "" gate procs worker_laws
    buffer dir0 10 tt note0 (st7 no) (st8 no) 0 ltac:(lia) ltac:(by_running) empty_attempts
    reach7_no ltac:(by_running) last_step_no).
Defined.

Lemma pass_progress_witness :
  reaches yes st2 /\ exists st', step yes st2 st'.
Proof.
  assert (reaches yes st2) as Hr.
  { apply (rtc_l _ st0 st1); [apply (admits _ _ _ _ _ _ _ _ _ None); by_running|].
    apply rtc_once, (closes _ _ _ _ _ _ _ _ _ None); by_running. }
  split; [exact Hr|].
  exact (@pass_progress () yes yes_laws worker o src disc false true true "" gate procs worker_laws
    buffer dir0 10 tt note0 st2 0 ltac:(lia) ltac:(by_running) empty_attempts Hr
    ltac:(vm_compute; discriminate)).
Defined.

Lemma pass_terminates_witness :
  exists k, nsteps (step yes) k st0 (st8 yes) /\ (k <= 9 * n disc + 1)%nat.
Proof.
  destruct (rtc_nsteps_1 _ _ reach8_yes) as [k Hk]. exists k. split; [exact Hk|].
  exact (@pass_terminates () yes yes_laws worker o src disc false true true "" gate procs worker_laws
    buffer dir0 10 tt note0 k (st8 yes) Hk).
Defined.

Lemma pass_complete_witness :
  at_ (st8 yes).1 = Finished /\
  let res := finish o src disc true (st8 yes) in
  pr_err res = None /\
  match pr_err res with
  | None =>
      Zlen (pr_Files res) = Z.of_nat (next_ (st8 yes).1) /\
      (forall i, (i < next_ (st8 yes).1)%nat ->
         exists f, slots (st8 yes).2 !! i = Some (Some f) /\ pr_Files res !! i = Some f) /\
      tallied (counts (st8 yes).2) = Zlen (pr_Files res) /\
      Zlen (pr_Files res) + pr_Remaining res = Z.of_nat (n disc) /\
      (pr_Truncated res = true <-> 0 < pr_Remaining res) /\
      (pr_Truncated res = true -> budget (st8 yes).2 <= 0)
  | Some e => False
  end.
Proof.
  split; [by_running|]. intros res. split; [by_running|].
  pose proof (@pass_complete () yes yes_laws worker o src disc false true true "" gate procs
    worker_laws buffer dir0 10 tt note0 (st8 yes) 0 ltac:(lia) ltac:(by_running) empty_attempts
    reach8_yes ltac:(by_running)) as H.
  assert (pr_err (finish o src disc true (st8 yes)) = None) as He by by_running.
  unfold res. cbn zeta in H. rewrite He in *. exact H.
Defined.

(** The same file in a preview. *)
Definition o_dry : Options := SampleRun.options true.
Definition worker_dry : FileWorker := prepare_worker o_dry src disc false.
Lemma worker_dry_laws : @FileWorkerLaws o_dry src worker_dry.
Proof. apply prepare_worker_laws. Qed.

Lemma pass_preview_pure_witness :
  DryRun o_dry = true /\ buf st1.2 = buffer /\ dir st1.2 = dir0 /\ port st1.1 = tt /\
  uploads st1.1 = [] /\ groups st1.1 = [].
Proof.
  split; [reflexivity|].
  apply (@pass_preview_pure () yes worker_dry o_dry src disc false true true "" gate procs
    worker_dry_laws buffer dir0 10 tt note0 st1 eq_refl).
  apply rtc_once,
    (@admits () yes worker_dry o_dry src disc false true true "" gate procs None 0 SampleRun.the_file st0);
    by_running.
Defined.
End Run.
