(* ===== verification/Run.v ===== *)
(** One flush: [Run] of [src/internal/engine/engine.go]. Sources flush one after the other; of each,
    the file pass is the step relation of [Pool], run from its start to its end, and everything
    around it is a function. What the run's surroundings decide, clock readings, the outcome of
    document writes, a cancelled context, is the record [env]; discovery, the enrichers and the
    repository filter are parameters. *)

From S2P Require Import Prelude GoLib GoJson GoTime Vocab StateDoc Store Spec Manifest Upload FilePrep.
From S2P Require Import Pool Derived PoolInv PoolProps PoolRun.

(** ** Outcomes and reports, field by field *)

Definition initial_outcome (r : Resolved) : SourceOutcome :=
  mkSourceOutcome (src_ID (source r)) (Family (source r)) None SniffUnset "" "" (Root r) 0
    (negb (Emit (source r) =? "")%string) 0 0 "" 0 0 "" "" [] 0 0 0 0 [] "" 0 [].

Definition set_health (h : HealthState) (why : string) (x : SourceOutcome) : SourceOutcome :=
  mkSourceOutcome (so_SourceID x) (so_Family x) (Some h) (Sniff x) (so_AgentVersion x) why (so_Root x)
    (so_Remaining x) (Emitted x) (Oversize x) (OversizeLargest x) (OversizeExample x) (OversizeLimit x)
    (Unreadable x) (UnreadableExample x) (UnreadableReason x) (Files x) (Enriched x) (EnrichSkipped x)
    (so_EnrichMismatch x) (EnrichErrors x) (EnrichNotes x) (EnricherID x) (EnricherVersion x) (EnrichInfos x).

(** What discovery says of the source; the largest of the files over the cap is the example. *)
Definition largest (l : list OversizeFile) : Z * string * Z :=
  foldl (fun acc big => if acc.1.1 <? ov_Size big then (ov_Size big, ov_RelPath big, Limit big) else acc)
    (0, "", 0) l.

Definition with_discovery (d : Discovery) (x : SourceOutcome) : SourceOutcome :=
  let '(big, example, lim) := largest (disc_Oversize d) in
  mkSourceOutcome (so_SourceID x) (so_Family x) (disc_Health d) (disc_Sniff d) (disc_AgentVersion d)
    (disc_Reason d) (so_Root x) (so_Remaining x) (Emitted x) (Zlen (disc_Oversize d)) big example lim
    (disc_Unreadable d) (disc_UnreadableExample d) (disc_UnreadableReason d) (Files x) (Enriched x)
    (EnrichSkipped x) (so_EnrichMismatch x) (EnrichErrors x) (EnrichNotes x) (EnricherID x)
    (EnricherVersion x) (EnrichInfos x).

(** What the file pass writes. *)
Definition with_pass (L : ledger) (res : passResult) (x : SourceOutcome) : SourceOutcome :=
  mkSourceOutcome (so_SourceID x) (so_Family x) (Health x) (Sniff x) (so_AgentVersion x)
    (pr_Reason res) (so_Root x) (pr_Remaining res) (Emitted x) (Oversize x)
    (OversizeLargest x) (OversizeExample x) (OversizeLimit x) (n_Unreadable (note L)) (UnreadableExample x)
    (n_UnreadableReason (note L)) (pr_Files res) (Enriched x) (EnrichSkipped x) (so_EnrichMismatch x)
    (EnrichErrors x) (EnrichNotes x) (EnricherID x) (EnricherVersion x) (EnrichInfos x).

Definition with_enrichment (e : Enricher) (r : EnrichResult) (fos : list FileOutcome) (shipped : Z)
    (why : string) (x : SourceOutcome) : SourceOutcome :=
  mkSourceOutcome (so_SourceID x) (so_Family x) (Health x) (Sniff x) (so_AgentVersion x) why
    (so_Root x) (so_Remaining x) (Emitted x) (Oversize x) (OversizeLargest x) (OversizeExample x)
    (OversizeLimit x) (Unreadable x) (UnreadableExample x) (UnreadableReason x) (Files x ++ fos)
    (Enriched x + shipped) (EnrichSkipped x + er_Skipped r) (so_EnrichMismatch x + Mismatched r)
    (EnrichErrors x + Errors r) (EnrichNotes x ++ Notes r) (e_ID e) (e_Version e) (EnrichInfos x ++ Infos r).

Definition set_sources (l : list SourceOutcome) (p : Report) : Report :=
  mkReport (StartedAt p) (FinishedAt p) l (Shipped p) (Unchanged p) (Skipped p) (rep_Parked p)
    (rep_Failed p) (Truncated p) (rep_Remaining p) (BytesRead p) (BytesSealed p) (MedianFileBytes p)
    (rep_EnrichMismatch p) (Paused p) (PauseReason p) (StoreCorrupt p) (SlowestScrubNanos p) (SlowestScrubBytes p).

Definition add_pass (L : ledger) (res : passResult) (p : Report) : Report :=
  let t := counts L in
  mkReport (StartedAt p) (FinishedAt p) (Sources p) (Shipped p + t_Shipped t) (Unchanged p + t_Unchanged t)
    (Skipped p + t_Skipped t) (rep_Parked p + t_Parked t) (rep_Failed p + t_Failed t)
    (pr_Truncated res || Truncated p) (rep_Remaining p + pr_Remaining res) (BytesRead p) (BytesSealed p)
    (MedianFileBytes p) (rep_EnrichMismatch p) (Paused p) (PauseReason p) (StoreCorrupt p)
    (SlowestScrubNanos p) (SlowestScrubBytes p).

Definition add_enriched (shipped failed mismatched : Z) (p : Report) : Report :=
  mkReport (StartedAt p) (FinishedAt p) (Sources p) (Shipped p + shipped) (Unchanged p) (Skipped p)
    (rep_Parked p) (rep_Failed p + failed) (Truncated p) (rep_Remaining p) (BytesRead p) (BytesSealed p)
    (MedianFileBytes p) (rep_EnrichMismatch p + mismatched) (Paused p) (PauseReason p) (StoreCorrupt p)
    (SlowestScrubNanos p) (SlowestScrubBytes p).

(** ** The totals *)

Definition median (v : list Z) : Z :=
  match v with
  | [] => 0
  | _ => let sorted := merge_sort Z.le v in default 0 (sorted !! (length sorted / 2)%nat)
  end.

(** The files [summarize] counts: those of a source that is not emitted here, not derived. *)
Definition counted (p : Report) : list FileOutcome :=
  mjoin (map (fun s => if Emitted s then [] else filter (fun f => fo_Derived f = false) (Files s)) (Sources p)).

Definition summarize (finished slowestNanos slowestBytes : Z) (p : Report) : Report :=
  let files := counted p in
  let shippedIn := map BytesIn (filter (fun f => fo_Decision f = DecisionShipped) files) in
  mkReport (StartedAt p) finished (Sources p) (Shipped p) (Unchanged p) (Skipped p) (rep_Parked p)
    (rep_Failed p) (Truncated p) (rep_Remaining p) (BytesRead p + Zsum (map BytesIn files))
    (BytesSealed p + Zsum (map BytesOut files)) (median shippedIn) (rep_EnrichMismatch p) (Paused p)
    (PauseReason p) (StoreCorrupt p) slowestNanos slowestBytes.

(** ** One source *)

(** What the surroundings decide while one source flushes. [cancelled] is the context's error at its
    start. *)
Record env := mkEnv {
  cancelled : option error;
  spec_write : io * io;
  derived_write : nat -> nat -> io;
  gc_write : io * io;
  flush_write : io
}.

Record run_state (W : Type) := mkRun {
  r_buf : commitBuffer;
  r_dir : world;
  r_port : W;
  r_budget : Z;
  r_rep : Report;
  r_log : list Entry
}.
Arguments mkRun {W}. Arguments r_buf {W}. Arguments r_dir {W}. Arguments r_port {W}.
Arguments r_budget {W}. Arguments r_rep {W}. Arguments r_log {W}.

Section Run.
Context {scr : Scrubber} {con : Container} {W : Type} {upl : UploadPort W}.
Variables (o : Options) (hasLog0 hasProgress : bool) (schema_detail : string).
Variables (maxInFlightBytes gomaxprocs : Z).
Variable registry : option (gmap string Enricher).
(** [o.Registry.For] of the source's primitive and its [Discover], with the repository filter's verdict
    on every candidate, and the first existing database of an enricher. *)
Variable discover : Resolved -> result error Discovery.
Variable firstExisting : list string -> string.

(** A preview has no audit log. *)
Definition hasLog : bool := hasLog0 && negb (DryRun o).

Definition report_source (x : SourceOutcome) (rs : run_state W) : run_state W :=
  mkRun (r_buf rs) (r_dir rs) (r_port rs) (r_budget rs)
    (set_sources (Sources (r_rep rs) ++ [x]) (r_rep rs)) (r_log rs).

Definition append_log (l : list Entry) (rs : run_state W) : run_state W :=
  mkRun (r_buf rs) (r_dir rs) (r_port rs) (r_budget rs) (r_rep rs)
    (if hasLog then r_log rs ++ l else r_log rs).

Definition source_entry (d : Decision) (r : Resolved) (file : string) (bytesIn : Z) (why : string) : Entry :=
  mkEntry d (src_ID (source r)) file bytesIn 0 (0, 1) ∅ "" (ConfigVersion (o_Plan o)) why.

Definition discovery_entries (r : Resolved) (d : Discovery) : list Entry :=
  (if 0 <? disc_Unreadable d
   then [source_entry DecisionSkipped r (disc_UnreadableExample d) 0
           ("not readable during discovery: " +:+ disc_UnreadableReason d)] else []) ++
  map (fun big => source_entry DecisionSkipped r (ov_RelPath big) (ov_Size big)
        ("over the size cap: " +:+ int_text (ov_Size big) +:+ " bytes, limit " +:+ int_text (Limit big) +:+ " — not read"))
    (disc_Oversize d).

(** [PreviewSpec] or [EnsureSpec]. *)
Definition ensure_spec (e : env) (r : Resolved) (rs : run_state W) : option state_error * run_state W :=
  let id := src_ID (source r) in
  if DryRun o
  then (None, mkRun (PreviewSpec id (res_SpecFingerprint r) (r_buf rs)) (r_dir rs) (r_port rs)
                (r_budget rs) (r_rep rs) (r_log rs))
  else
    let '(_, err, b, w) := buffer_EnsureSpec (spec_write e).1 (spec_write e).2 id (res_SpecFingerprint r)
                             (r_buf rs) (r_dir rs) in
    (err, mkRun b w (r_port rs) (r_budget rs) (r_rep rs) (r_log rs)).

(** The pass starts with the notes discovery left. *)
Definition pass_start (d : Discovery) (rs : run_state W) : state (W := W) :=
  start d (r_buf rs) (r_dir rs) (r_budget rs) (r_port rs)
    (mkNotes (disc_Unreadable d) (disc_UnreadableReason d) (disc_Reason d)).

Definition run_worker (r : Resolved) (d : Discovery) (staging : bool) : FileWorker :=
  prepare_worker o (source r) d staging.

Definition pass_step (r : Resolved) (d : Discovery) (staging : bool) : relation (state (W := W)) :=
  @step W upl (run_worker r d staging) o (source r) d staging hasLog hasProgress schema_detail
    maxInFlightBytes gomaxprocs.

(** One enricher: its result, its shipping, and why it stopped the run if it did. *)
Definition enrichSource (e : env) (k : nat) (r : Resolved) (en : Enricher) (staged : list RawUnit)
    (x : SourceOutcome) (rs : run_state W) : option error * SourceOutcome * run_state W :=
  let dbPath := firstExisting (DBCandidates en) in
  let res := Enrich en (mkInput staged dbPath (StateDir (o_Plan o) +:+ "/scratch")) in
  let rs := append_log (map (fun n => source_entry DecisionSkipped r "" 0 ("enrich: " +:+ n)) (Notes res)) rs in
  let ds := shipDerivedGroups o (source r) (Root r) en dbPath schema_detail (derived_write e k)
              (er_Objects res) (r_buf rs) (r_dir rs) (r_port rs) in
  let why := match halted _ ds with
             | Some err => "uploads stopped: " +:+ Error err
             | None => so_Reason x
             end in
  let x := with_enrichment en res (fos _ ds) (ds_shipped _ ds) why x in
  let rs := mkRun (ds_buf _ ds) (ds_dir _ ds) (ds_port _ ds) (r_budget rs)
              (add_enriched (ds_shipped _ ds) (ds_failed _ ds) (Mismatched res) (r_rep rs)) (r_log rs) in
  match halted _ ds with
  | Some err =>
      (Some (wrap_error ("enricher " +:+ e_ID en +:+ " stopped: ") err), x,
       append_log [source_entry DecisionFailed r "" 0 why] rs)
  | None => (None, x, rs)
  end.

Fixpoint enrich_all (e : env) (k : nat) (r : Resolved) (l : list Enricher) (staged : list RawUnit)
    (x : SourceOutcome) (rs : run_state W) : option error * SourceOutcome * run_state W :=
  match l with
  | [] => (None, x, rs)
  | en :: l =>
      if bool_decide (staged = []) && NeedsUnits en then enrich_all e (S k) r l staged x rs
      else
        let '(err, x, rs) := enrichSource e k r en staged x rs in
        match err with
        | Some _ => (err, x, rs)
        | None => enrich_all e (S k) r l staged x rs
        end
  end.

(** What is still there: every candidate, and every file this flush has an outcome for. *)
Definition live_ids (r : Resolved) (d : Discovery) (x : SourceOutcome) : gset string :=
  list_to_set (map (fun c => ID (KeyOf (src_ID (source r)) c)) (Candidates d)) ∪
  list_to_set (map fo_NativePath (Files x)).

(** Only a source that collected, returned candidates and was not truncated proves absence. *)
Definition proves_absence (d : Discovery) (x : SourceOutcome) : bool :=
  negb (DryRun o) && bool_decide (Health x = Some Collected) && negb (bool_decide (Candidates d = []))
  && (so_Remaining x =? 0).

Definition collect_garbage (e : env) (r : Resolved) (d : Discovery) (x : SourceOutcome)
    (rs : run_state W) : option state_error * run_state W :=
  if proves_absence d x then
    let '(n, err, b, w) := buffer_DropVanished (gc_write e).1 (gc_write e).2 (src_ID (source r))
                             (live_ids r d x) (r_buf rs) (r_dir rs) in
    let rs := mkRun b w (r_port rs) (r_budget rs) (r_rep rs) (r_log rs) in
    match err with
    | Some _ => (err, rs)
    | None => (None, if 0 <? n then append_log [source_entry DecisionSkipped r "" 0
                ("forgot " +:+ int_text n +:+ " fingerprint(s) for files this source no longer has")] rs
              else rs)
    end
  else (None, rs).

Definition flush_run (w : io) (rs : run_state W) : option state_error * run_state W :=
  let '(err, b, d) := Flush w (r_buf rs) (r_dir rs) in
  (err, mkRun b d (r_port rs) (r_budget rs) (r_rep rs) (r_log rs)).

Definition state_failure (e : state_error) : error := errors_New (commit_error_text schema_detail e).

(** From the end of the file pass on. *)
Definition after_pass (e : env) (r : Resolved) (d : Discovery) (enrichers : list Enricher)
    (x : SourceOutcome) (rs : run_state W) (st : state (W := W)) : option error * run_state W :=
  let '(F, L) := st in
  let res := finish o (source r) d hasLog st in
  let x := with_pass L res x in
  let rs := mkRun (buf L) (dir L) (port F) (budget L) (add_pass L res (r_rep rs)) (r_log rs ++ pr_audit res) in
  match pr_err res with
  | Some err => (Some err, if stopsRun (Some err) then report_source x rs else rs)
  | None =>
      let '(err, x, rs) := enrich_all e 0 r enrichers (stagedUnits L) x rs in
      match err with
      | Some _ => (err, report_source x rs)
      | None =>
          let '(err, rs) := collect_garbage e r d x rs in
          match err with
          | Some err => (Some (state_failure err), rs)
          | None =>
              let '(err, rs) := flush_run (flush_write e) rs in
              match err with
              | Some err => (Some (state_failure err), rs)
              | None => (None, report_source x rs)
              end
          end
      end
  end.

(** What flushing one source can end in: an error that ends the run, or the next state. *)
Inductive flush_source (e : env) (r : Resolved) (rs : run_state W) : option error -> run_state W -> Prop :=
  | src_cancelled err :
      cancelled e = Some err -> flush_source e r rs (Some err) rs
  | src_disabled :
      cancelled e = None -> Enabled r = false ->
      flush_source e r rs None
        (report_source (set_health AgentAbsent "disabled by configuration" (initial_outcome r)) rs)
  | src_undiscovered err :
      cancelled e = None -> Enabled r = true -> discover r = Err err ->
      flush_source e r rs None
        (report_source (set_health MatchPresentUnreadable (Error err) (initial_outcome r)) rs)
  | src_spec_failed d err rs1 :
      cancelled e = None -> Enabled r = true -> discover r = Ok d ->
      ensure_spec e r rs = (Some err, rs1) ->
      flush_source e r rs (Some (state_failure err)) rs1
  | src_passed d rs1 st err rs2 :
      cancelled e = None -> Enabled r = true -> discover r = Ok d ->
      ensure_spec e r rs = (None, rs1) ->
      let enrichers := enrichersFor registry (source r) in
      let rs1 := append_log (discovery_entries r d) rs1 in
      rtc (pass_step r d (negb (bool_decide (enrichers = [])))) (pass_start d rs1) st ->
      at_ st.1 = Finished ->
      after_pass e r d enrichers (with_discovery d (initial_outcome r)) rs1 st = (err, rs2) ->
      flush_source e r rs err rs2.

(** The sources in order, up to the first error. *)
Inductive flush_sources : list (env * Resolved) -> run_state W -> option error -> run_state W -> Prop :=
  | sources_done rs : flush_sources [] rs None rs
  | sources_failed e r l rs err rs' :
      flush_source e r rs (Some err) rs' -> flush_sources ((e, r) :: l) rs (Some err) rs'
  | sources_next e r l rs rs1 err rs' :
      flush_source e r rs None rs1 -> flush_sources l rs1 err rs' -> flush_sources ((e, r) :: l) rs err rs'.

(** ** The whole run *)

(** What the run starts from and what decides its frame. [paused] is what the pause switch reads. *)
Record frame := mkFrame {
  hasUpload : bool;
  started : Z;
  paused : option string;
  sources_env : list env;
  heartbeat : option error;
  last_write : io;
  finished : Z;
  slowest : Z * Z
}.

Definition empty_report (started : Z) (corrupt : bool) : Report :=
  mkReport started 0 [] 0 0 0 0 0 false 0 0 0 0 0 false "" corrupt 0 0.

Definition set_paused (why : string) (p : Report) : Report :=
  mkReport (StartedAt p) (FinishedAt p) (Sources p) (Shipped p) (Unchanged p) (Skipped p) (rep_Parked p)
    (rep_Failed p) (Truncated p) (rep_Remaining p) (BytesRead p) (BytesSealed p) (MedianFileBytes p)
    (rep_EnrichMismatch p) true why (StoreCorrupt p) (SlowestScrubNanos p) (SlowestScrubBytes p).

(** [math.MaxInt]. *)
Definition run_budget : Z := if Unbounded o then 2 ^ 63 - 1 else MaxFilesPerRun (o_Plan o).

Definition sort_sources (l : list SourceOutcome) : list SourceOutcome :=
  merge_sort (fun a b => Is_true (str_leb (so_SourceID a) (so_SourceID b))) l.

Definition heartbeat_entry (err : option error) : list Entry :=
  match err with
  | Some e => [mkEntry DecisionFailed "" "" 0 0 (0, 1) ∅ "" 0 ("heartbeat write failed: " +:+ Error e)]
  | None => []
  end.

(** The two deferred steps of every return past the first guard: what is buffered is flushed, without
    hiding why the run stopped, then the report is totalled. *)
Definition close_run (f : frame) (err : option error) (rs : run_state W) : option error * run_state W :=
  let '(ferr, rs) := flush_run (last_write f) rs in
  let err := match err, ferr with
             | Some _, _ => err
             | None, Some e => Some (state_failure e)
             | None, None => None
             end in
  (err, mkRun (r_buf rs) (r_dir rs) (r_port rs) (r_budget rs)
          (summarize (finished f) (slowest f).1 (slowest f).2 (r_rep rs)) (r_log rs)).

Definition run_start (f : frame) (st : Store) (dir : world) (w : W) : run_state W :=
  mkRun (newCommitBuffer st (CommitBatch o)) dir w run_budget (empty_report (started f) (Corrupt st)) [].

Inductive run (f : frame) (st : Store) (dir : world) (w : W) : option error -> run_state W -> Prop :=
  | run_no_port :
      hasUpload f = false -> DryRun o = false ->
      run f st dir w
        (Some (errors_New "engine: no upload port; a run that ships needs one, and only preview runs without it"))
        (mkRun (newCommitBuffer st (CommitBatch o)) dir w run_budget (empty_report 0 false) [])
  | run_no_recipients err rs :
      hasUpload f || DryRun o = true -> Recipients o = [] ->
      close_run f (Some (errors_New "engine: no age recipients configured"))
        (mkRun (newCommitBuffer st (CommitBatch o)) dir w run_budget (empty_report 0 false) []) = (err, rs) ->
      run f st dir w err rs
  | run_paused why err rs :
      hasUpload f || DryRun o = true -> Recipients o <> [] -> DryRun o = false -> paused f = Some why ->
      close_run f None
        (mkRun (newCommitBuffer st (CommitBatch o)) dir w run_budget
           (set_paused why (empty_report (started f) (Corrupt st))) []) = (err, rs) ->
      run f st dir w err rs
  | run_stopped e err rs rs' :
      hasUpload f || DryRun o = true -> Recipients o <> [] -> DryRun o = true \/ paused f = None ->
      length (sources_env f) = length (plan_Sources (o_Plan o)) ->
      flush_sources (zip (sources_env f) (plan_Sources (o_Plan o))) (run_start f st dir w) (Some e) rs ->
      close_run f (Some e) rs = (err, rs') ->
      run f st dir w err rs'
  | run_completed err rs rs' :
      hasUpload f || DryRun o = true -> Recipients o <> [] -> DryRun o = true \/ paused f = None ->
      length (sources_env f) = length (plan_Sources (o_Plan o)) ->
      flush_sources (zip (sources_env f) (plan_Sources (o_Plan o))) (run_start f st dir w) None rs ->
      close_run f None
        (append_log (if DryRun o then [] else heartbeat_entry (heartbeat f))
          (mkRun (r_buf rs) (r_dir rs) (r_port rs) (r_budget rs)
             (set_sources (sort_sources (Sources (r_rep rs))) (r_rep rs)) (r_log rs))) = (err, rs') ->
      run f st dir w err rs'.
End Run.
