(* ===== verification/RunSafe.v ===== *)
(** What a whole run promises: every durable write goes through the commit buffer, so a run that
    reports success left nothing buffered and the document on disk is the store it ends with; a
    preview writes nothing and calls no port. *)

From S2P Require Import Prelude GoLib GoJson GoTime Vocab StateDoc Store Spec Manifest Upload FilePrep Pool Derived PoolInv PoolSafe PoolProps PoolRun Run.

(** ** What every commit keeps, the pass and the enrichers keep *)

Definition commit_closed (Q : commitBuffer -> world -> Prop) : Prop :=
  forall e k fp b w err b' w', Commit e k fp b w = (err, b', w') -> Q b w -> Q b' w'.

Section Keeps.
Context {scr : Scrubber} {con : Container} {W : Type} {upl : UploadPort W}.
Variables (o : Options) (hasLog0 hasProgress : bool) (schema_detail : string).
Variables (maxInFlightBytes gomaxprocs : Z).
Variable Q : commitBuffer -> world -> Prop.
Hypothesis HQ : commit_closed Q.

Lemma applyIntent_keeps e r L :
  Q (buf L) (dir L) ->
  Q (buf (applyIntent schema_detail e r L).2) (dir (applyIntent schema_detail e r L).2).
Proof.
  intros H. unfold applyIntent. destruct (kind (r_intent r)); [done|..];
    destruct (Commit _ _ _ _ _) as [[err b] w] eqn:Ec; apply HQ in Ec; destruct err; cbn; auto.
Qed.

Lemma fold_keeps hasLog e r L :
  Q (buf L) (dir L) ->
  Q (buf (fold o hasLog hasProgress schema_detail e r L)) (dir (fold o hasLog hasProgress schema_detail e r L)).
Proof.
  intros H. apply (applyIntent_keeps e r) in H. unfold fold. destruct (_ || _); [done|].
  by destruct (applyIntent _ e r L).
Qed.

Lemma micro_keeps {wrk : FileWorker} src disc staging hasLog c c' :
  Q (buf c.2.2) (dir c.2.2) ->
  @micro W upl wrk o src disc staging hasLog hasProgress schema_detail maxInFlightBytes gomaxprocs c c' ->
  Q (buf c'.2.2) (dir c'.2.2).
Proof.
  intros H Hm. destruct Hm; cbn [fst snd] in *; try done.
  - unfold launch. by destruct (charge _ _ _ _ _ _).
  - unfold close_turn. by destruct (if computing F =? 0 then _ else _) as [sent held].
  - unfold uploaded. by destruct (sendBatch _ _).
  - unfold settle. destruct st as [F L]. destruct (charge _ _ _ _ _ _). by apply fold_keeps.
Qed.

Lemma pass_keeps {wrk : FileWorker} src disc staging hasLog st st' :
  rtc (@step W upl wrk o src disc staging hasLog hasProgress schema_detail maxInFlightBytes gomaxprocs) st st' ->
  Q (buf st.2) (dir st.2) -> Q (buf st'.2) (dir st'.2).
Proof.
  apply (micro_invariant _ _ _ _ _ _ _ _ _ (fun _ st => Q (buf st.2) (dir st.2))).
  intros c c' H Hm. by eapply micro_keeps.
Qed.

Lemma derived_verdict_keeps env st g :
  Q (ds_buf W st) (ds_dir W st) ->
  Q (ds_buf W (take_verdict schema_detail env st g)) (ds_dir W (take_verdict schema_detail env st g)).
Proof.
  intros H. destruct g as [it oc]. unfold take_verdict, commitDerived.
  destruct (Commit _ _ _ _ _) as [[err b] w] eqn:Ec. apply HQ in Ec. specialize (Ec H).
  destruct oc as [er|]; [destruct (Is (Some er) ErrAlreadyPresent)|]; destruct err; done.
Qed.

Lemma derived_sends_keep env sent st :
  Q (ds_buf W st) (ds_dir W st) ->
  Q (ds_buf W (foldl (send_group schema_detail env) st sent))
    (ds_dir W (foldl (send_group schema_detail env) st sent)).
Proof.
  revert st. induction sent as [|g sent IH]; intros st H; cbn [foldl]; [done|]. apply IH.
  unfold send_group. destruct (authorizeAndUpload _ g) as [outs w].
  generalize (zip g outs). intros l. match goal with |- context [foldl _ ?s l] =>
    assert (Q (ds_buf W s) (ds_dir W s)) as H0 by done; revert H0; generalize s end.
  induction l as [|x l IHl]; intros s Hs; cbn [foldl]; [done|]. by apply IHl, derived_verdict_keeps.
Qed.

Lemma ship_all_keeps src root en dbPath env i l st :
  Q (ds_buf W st) (ds_dir W st) ->
  Q (ds_buf W (ship_all o src root en dbPath schema_detail env st i l))
    (ds_dir W (ship_all o src root en dbPath schema_detail env st i l)).
Proof.
  revert i st. induction l as [|d l IH]; intros i st H; cbn [ship_all]; [done|]. apply IH.
  unfold ship_one. destruct (halted W st); [done|].
  destruct (prepareDerived _ _ _ _ _ _ _ _) as [fo [pp|]]; [|done].
  destruct (add _ _ _ _) as [sent b]. by apply derived_sends_keep.
Qed.

Lemma shipDerivedGroups_keeps src root en dbPath env objects b dir w :
  Q b dir ->
  let ds := shipDerivedGroups o src root en dbPath schema_detail env objects b dir w in
  Q (ds_buf W ds) (ds_dir W ds).
Proof.
  intros H. unfold shipDerivedGroups. cbn zeta. destruct (batcher_flush _) as [sent bt].
  apply derived_sends_keep. cbn [set_group ds_buf ds_dir]. by apply ship_all_keeps.
Qed.

Notation in_run rs := (Q (r_buf rs) (r_dir rs)).

Lemma append_log_frame l (rs : run_state W) :
  r_buf (append_log o hasLog0 l rs) = r_buf rs /\ r_dir (append_log o hasLog0 l rs) = r_dir rs /\
  r_port (append_log o hasLog0 l rs) = r_port rs.
Proof. done. Qed.

Lemma enrichSource_keeps firstExisting e k r en staged x (rs : run_state W) :
  in_run rs -> in_run (enrichSource o hasLog0 schema_detail firstExisting e k r en staged x rs).2.
Proof.
  intros H. unfold enrichSource.
  match goal with |- context [shipDerivedGroups ?o ?s ?ro ?en ?db ?sd ?ev ?ob ?b ?d ?w] =>
    pose proof (shipDerivedGroups_keeps s ro en db ev ob b d w H) as Hd;
    set (ds := shipDerivedGroups o s ro en db sd ev ob b d w) in * end.
  cbn zeta. by destruct (halted W ds).
Qed.

Lemma enrich_all_keeps firstExisting e k r l staged x (rs : run_state W) :
  in_run rs -> in_run (enrich_all o hasLog0 schema_detail firstExisting e k r l staged x rs).2.
Proof.
  revert k x rs. induction l as [|en l IH]; intros k x rs H; cbn [enrich_all]; [done|].
  destruct (_ && _); [by apply IH|].
  pose proof (enrichSource_keeps firstExisting e k r en staged x rs H) as H1.
  destruct (enrichSource _ _ _ _ _ _ _ _ _ _ _) as [[err x1] rs1]. destruct err; [done|by apply IH].
Qed.
End Keeps.

(** ** A run that reports success is durable *)

Lemma set_entries_id s : set_entries (entries s) s = s.
Proof. by destruct s. Qed.

Lemma DropVanished_durable e src live s w n err s' w' :
  DropVanished e src live s w = (n, err, s', w') ->
  match err with Some _ => disk w' = disk w | None => (s' = s /\ w' = w) \/ holds s' (disk w') end.
Proof.
  unfold DropVanished. set (kept := filter _ _).
  assert (kept ⊆ entries s) as Hk by apply map_filter_subseteq.
  destruct (Z.eqb_spec (Z.of_nat (size (entries s)) - Z.of_nat (size kept)) 0) as [Hz|Hz].
  - intros [= <- <- <- <-]. left. split; [|done].
    assert (kept = entries s) as ->; [|apply set_entries_id].
    apply map_subseteq_size_eq; [done|lia].
  - flush_case e (set_entries kept s) w; intros [= <- <- <- <-]; auto.
Qed.

Lemma EnsureSpec_durable e src fp s w n err s' w' :
  EnsureSpec e src fp s w = (n, err, s', w') ->
  match err with Some _ => disk w' = disk w | None => (s' = s /\ w' = w) \/ holds s' (disk w') end.
Proof.
  intros H. apply EnsureSpec_spec in H as (_ & _ & _ & _ & _ & Hn & Hs).
  destruct err; [by apply Hs|]. destruct (Hn eq_refl) as [(_ & ? & ?)|]; auto.
Qed.

(** Something is still buffered, or the document is the store's, or nothing has happened yet. *)
Definition synced (s0 : Store) (d0 : file) (b : commitBuffer) (w : world) : Prop :=
  pending b <> ∅ \/ holds (store b) (disk w) \/ (store b = s0 /\ disk w = d0).

Definition durable (s0 : Store) (d0 : file) (b : commitBuffer) (w : world) : Prop :=
  pending b = ∅ /\ (holds (store b) (disk w) \/ (store b = s0 /\ disk w = d0)).

Lemma commit_synced s0 d0 : commit_closed (synced s0 d0).
Proof.
  intros e k fp b w err b' w' H _. apply Commit_spec in H as (_ & _ & _ & _ & _ & H). unfold synced.
  destruct err; [destruct H as [-> _]; left; apply insert_non_empty|].
  destruct H as [[_ H]|[-> _]]; [by right; left|left; apply insert_non_empty].
Qed.

Lemma durable_synced s0 d0 b w : durable s0 d0 b w -> synced s0 d0 b w.
Proof. intros [_ H]. by right. Qed.

Lemma Flush_durable s0 d0 e b w b' w' :
  Flush e b w = (None, b', w') -> synced s0 d0 b w -> durable s0 d0 b' w'.
Proof.
  intros H Hs. apply Flush_spec in H as (_ & _ & _ & _ & _ & Hp & [(Hp0 & -> & ->)|[_ Hh]]).
  - split; [done|]. destruct Hs as [?|?]; done.
  - split; [done|by left].
Qed.

(** An operation of the store behind a flush. *)
Lemma through_flush s0 d0 e b w b1 w1 s w2 :
  Flush e b w = (None, b1, w1) -> synced s0 d0 b w ->
  (s = store b1 /\ w2 = w1) \/ holds s (disk w2) -> synced s0 d0 (set_store s b1) w2.
Proof.
  intros Hf Hs Hop. apply durable_synced. pose proof (Flush_durable _ _ _ _ _ _ _ Hf Hs) as [Hp Hd].
  split; [done|]. cbn. destruct Hop as [[-> ->]|Hh]; [done|by left].
Qed.

Section Run.
Context {scr : Scrubber} {con : Container} {W : Type} {upl : UploadPort W}.
Variables (o : Options) (hasLog0 hasProgress : bool) (schema_detail : string).
Variables (maxInFlightBytes gomaxprocs : Z).
Variable registry : option (gmap string Enricher).
Variable discover : Resolved -> result error Discovery.
Variable firstExisting : list string -> string.

Notation flush_source := (flush_source o hasLog0 hasProgress schema_detail maxInFlightBytes gomaxprocs
  registry discover firstExisting).
Notation flush_sources := (flush_sources o hasLog0 hasProgress schema_detail maxInFlightBytes gomaxprocs
  registry discover firstExisting).
Notation run := (run o hasLog0 hasProgress schema_detail maxInFlightBytes gomaxprocs
  registry discover firstExisting).
Notation in_run Q rs := (Q (r_buf rs) (r_dir rs)).

Lemma ensure_spec_synced s0 d0 e r (rs rs' : run_state W) :
  ensure_spec o e r rs = (None, rs') -> in_run (synced s0 d0) rs -> in_run (synced s0 d0) rs'.
Proof.
  unfold ensure_spec, buffer_EnsureSpec. destruct (DryRun o).
  - intros [= <-] H. cbn. unfold PreviewSpec. destruct (SpecFor _ _) as [fp|]; [|done].
    by destruct (_ =? _)%string.
  - destruct (Flush _ _ _) as [[[ferr|] b1] w1] eqn:Hf; [discriminate|].
    destruct (EnsureSpec _ _ _ _ _) as [[[n err] s] w2] eqn:He. intros [= -> <-] H.
    eapply through_flush; [done..|]. by apply EnsureSpec_durable in He.
Qed.

Lemma collect_garbage_synced s0 d0 e r d x (rs rs' : run_state W) :
  collect_garbage o hasLog0 e r d x rs = (None, rs') -> in_run (synced s0 d0) rs -> in_run (synced s0 d0) rs'.
Proof.
  unfold collect_garbage, buffer_DropVanished. destruct (proves_absence o d x); [|by intros [= <-]].
  destruct (Flush _ _ _) as [[[ferr|] b1] w1] eqn:Hf; [discriminate|].
  destruct (DropVanished _ _ _ _ _) as [[[n err] s] w2] eqn:He. destruct err; [discriminate|].
  intros [= <-] H. destruct (0 <? n); cbn [append_log r_buf r_dir];
    (eapply through_flush; [done..|]; by apply DropVanished_durable in He).
Qed.

Lemma after_pass_synced s0 d0 e r d enrichers x (rs rs' : run_state W) st :
  after_pass o hasLog0 schema_detail firstExisting e r d enrichers x rs st = (None, rs') ->
  synced s0 d0 (buf st.2) (dir st.2) -> in_run (durable s0 d0) rs'.
Proof.
  destruct st as [F L]. unfold after_pass. cbn zeta. destruct (pr_err _); [discriminate|].
  set (x1 := with_pass _ _ _). set (rs1 := mkRun (buf L) _ _ _ _ _). intros H Hs.
  assert (in_run (synced s0 d0) rs1) as H1 by done.
  apply (enrich_all_keeps o hasLog0 schema_detail _ (commit_synced s0 d0) firstExisting e 0 r enrichers
    (stagedUnits L) x1) in H1.
  destruct (enrich_all _ _ _ _ _ _ _ _ _ _ _) as [[err x2] rs2]. destruct err; [discriminate|].
  cbn [snd] in H1. destruct (collect_garbage _ _ _ _ _ _ _) as [[gerr|] rs3] eqn:Hg; [discriminate|].
  eapply collect_garbage_synced in Hg; [|exact H1].
  unfold flush_run in H. destruct (Flush _ _ _) as [[[ferr|] b3] w3] eqn:Hf; [discriminate|].
  injection H as <-. cbn. by eapply Flush_durable.
Qed.

Lemma flush_source_synced s0 d0 e r (rs rs' : run_state W) :
  flush_source e r rs None rs' -> in_run (synced s0 d0) rs -> in_run (synced s0 d0) rs'.
Proof.
  intros H Hs. inversion_clear H as [|? ? |? ? ? Hd| |d rs1 st ? ? ? ? ? Hspec ens rs2 Hrun Hat Hafter]; try done.
  eapply ensure_spec_synced in Hspec; [|done].
  eapply durable_synced, after_pass_synced; [done|]. eapply pass_keeps; [apply commit_synced|exact Hrun|done].
Qed.

Lemma flush_sources_synced s0 d0 l err (rs rs' : run_state W) :
  flush_sources l rs err rs' -> err = None -> in_run (synced s0 d0) rs -> in_run (synced s0 d0) rs'.
Proof. induction 1; intros He Hs; try done. by eapply IHflush_sources, flush_source_synced. Qed.

Lemma close_run_durable s0 d0 f err (rs rs' : run_state W) :
  close_run schema_detail f err rs = (None, rs') -> in_run (synced s0 d0) rs ->
  err = None /\ in_run (durable s0 d0) rs'.
Proof.
  unfold close_run, flush_run. destruct (Flush _ _ _) as [[ferr b] w] eqn:Hf.
  destruct err; [discriminate|]. destruct ferr; [discriminate|]. intros [= <-] H. split; [done|].
  cbn. by eapply Flush_durable.
Qed.

Lemma start_synced st dir lim : synced st (disk dir) (newCommitBuffer st lim) dir.
Proof. by right; right. Qed.

(** C1: a run that reports success is durable: whatever was read, uploaded, enriched and forgotten,
    in whatever order the uploads finished, it leaves no fingerprint buffered, and the document on
    disk encodes exactly the store it ends with, unless it committed nothing at all and the document
    is the one it began with. *)
Theorem run_ok_durable f st dir (w : W) rs' :
  run f st dir w None rs' ->
  pending (r_buf rs') = ∅ /\
  (holds (store (r_buf rs')) (disk (r_dir rs')) \/
   (store (r_buf rs') = st /\ disk (r_dir rs') = disk dir)).
Proof.
  intros H. inversion_clear H as [|? ? ? ? Hc|? ? ? ? ? ? ? Hc|? ? ? ? ? ? ? ? ? Hc|? rs ? ? ? ? ? Hs Hc].
  - apply (close_run_durable st (disk dir)) in Hc as [? _]; [done|apply start_synced].
  - by apply (close_run_durable st (disk dir)) in Hc as [_ ?]; [|apply start_synced].
  - unfold close_run in Hc. by destruct (flush_run _ _) as [[] ?].
  - apply (flush_sources_synced st (disk dir)) in Hs; [|done|apply start_synced].
    by apply (close_run_durable st (disk dir)) in Hc as [_ ?].
Qed.
End Run.

(** ** What a source's garbage collection forgets *)

Section Garbage.
Context {W : Type}.
Variables (o : Options) (hasLog0 : bool).

(** Exactly the entries of the source that are not live; anything else is as it was. *)
Lemma collect_garbage_exact e r d x (rs rs' : run_state W) k :
  collect_garbage o hasLog0 e r d x rs = (None, rs') ->
  buffered (r_buf rs') !! k =
    if proves_absence o d x && bool_decide (SourceID k = src_ID (source r)) &&
       negb (bool_decide (ID k ∈ live_ids r d x))
    then None else buffered (r_buf rs) !! k.
Proof.
  unfold collect_garbage, buffer_DropVanished. destruct (proves_absence o d x); cbn [andb]; [|by intros [= <-]].
  destruct (Flush _ _ _) as [[[ferr|] b1] w1] eqn:Hf; [discriminate|].
  apply Flush_spec in Hf as (Hb & _ & _ & _ & _ & Hp & _).
  destruct (DropVanished _ _ _ _ _) as [[[n err] s] w2] eqn:He. destruct err; [discriminate|].
  apply DropVanished_spec in He as (Hk & _). intros [= H].
  assert (r_buf rs' = set_store s b1) as -> by (rewrite <- H; by destruct (0 <? n)).
  transitivity (entries s !! k); [unfold buffered; cbn; by rewrite Hp, map_empty_union|].
  rewrite Hk. replace (entries (store b1)) with (buffered (r_buf rs)); [done|].
  rewrite <- Hb. unfold buffered. by rewrite Hp, map_empty_union.
Qed.

Lemma live_ids_spec r d x p :
  p ∈ live_ids r d x <->
  (exists c, c ∈ Candidates d /\ p = ID (KeyOf (src_ID (source r)) c)) \/
  (exists f, f ∈ Files x /\ p = fo_NativePath f).
Proof.
  unfold live_ids. rewrite elem_of_union, !elem_of_list_to_set. rewrite !list_elem_of_fmap.
  split; (intros [(y & ? & ?)|(y & ? & ?)]; [left|right]; by exists y).
Qed.

(** No unit was staged, so an enricher that needs them is passed over and leaves no outcome. *)
Lemma enrich_all_idle_units {scr : Scrubber} {con : Container} {upl : UploadPort W} detail firstExisting
    e n r l x (rs : run_state W) :
  Forall (fun en => NeedsUnits en = true) l ->
  enrich_all o hasLog0 detail firstExisting e n r l [] x rs = (None, x, rs).
Proof.
  revert n. induction l as [|en l IH]; intros n H; cbn [enrich_all]; [done|].
  apply Forall_cons in H as [-> H]. cbn. by apply IH.
Qed.

(** Garbage collection forgets more than vanished files: when nothing was staged, the
    enrichers that need units leave no outcome, so the fingerprint of every object they derived
    earlier, although its transcript is still a candidate, is deleted with the vanished ones; what
    collection keeps is exactly the other sources' entries, the candidates' and those of the files
    this flush decided. *)
Theorem skipped_enricher_forgotten {scr : Scrubber} {con : Container} {upl : UploadPort W} detail
    firstExisting e n r l d x (rs rs' : run_state W) :
  Forall (fun en => NeedsUnits en = true) l -> proves_absence o d x = true ->
  collect_garbage o hasLog0 e r d (enrich_all o hasLog0 detail firstExisting e n r l [] x rs).1.2
    (enrich_all o hasLog0 detail firstExisting e n r l [] x rs).2 = (None, rs') ->
  forall k,
    (SourceID k = src_ID (source r) ->
     (forall c, c ∈ Candidates d -> ID k <> ID (KeyOf (src_ID (source r)) c)) ->
     (forall f, f ∈ Files x -> ID k <> fo_NativePath f) -> buffered (r_buf rs') !! k = None) /\
    (SourceID k <> src_ID (source r) \/
     (exists c, c ∈ Candidates d /\ ID k = ID (KeyOf (src_ID (source r)) c)) \/
     (exists f, f ∈ Files x /\ ID k = fo_NativePath f) ->
     buffered (r_buf rs') !! k = buffered (r_buf rs) !! k).
Proof.
  intros Hl Hp Hc k. rewrite enrich_all_idle_units in Hc by done. cbn [fst snd] in Hc.
  rewrite (collect_garbage_exact _ _ _ _ _ _ k Hc), Hp. cbn [andb].
  pose proof (live_ids_spec r d x (ID k)) as Hlive. split.
  - intros Hs H1 H2. rewrite bool_decide_eq_true_2, bool_decide_eq_false_2; [done| |done].
    intros [(c & ? & ?)|(f & ? & ?)]%Hlive; [by eapply H1|by eapply H2].
  - intros H. case_bool_decide as Hs; case_bool_decide as Hi; try done.
    destruct H as [H|H]; [done|]. destruct Hi. by apply Hlive.
Qed.
End Garbage.

(** ** A preview *)

Section Preview.
Context {scr : Scrubber} {con : Container} {W : Type} {upl : UploadPort W}.
Variables (o : Options) (hasLog0 hasProgress : bool) (schema_detail : string).
Variables (maxInFlightBytes gomaxprocs : Z).
Variable registry : option (gmap string Enricher).
Variable discover : Resolved -> result error Discovery.
Variable firstExisting : list string -> string.
Hypothesis Hdry : DryRun o = true.

Lemma no_log : hasLog o hasLog0 = false.
Proof. unfold hasLog. by rewrite Hdry, andb_false_r. Qed.

Lemma append_log_dry l (rs : run_state W) : append_log o hasLog0 l rs = rs.
Proof. unfold append_log. rewrite no_log. by destruct rs. Qed.

(** Without a log the pass appends nothing. *)
Lemma audit_micro {wrk : FileWorker} src disc staging c c' :
  audit c.2.2 = [] ->
  @micro W upl wrk o src disc staging false hasProgress schema_detail maxInFlightBytes gomaxprocs c c' ->
  audit c'.2.2 = [].
Proof.
  intros H Hm. destruct Hm; cbn [fst snd] in *; try done.
  - unfold launch. by destruct (charge _ _ _ _ _ _).
  - unfold close_turn. by destruct (if computing F =? 0 then _ else _) as [sent held].
  - unfold uploaded. by destruct (sendBatch _ _).
  - unfold settle. destruct st as [F L]. destruct (charge _ _ _ _ _ _). cbn [fst snd] in *.
    assert (audit (applyIntent schema_detail e r L).2 = []) as Ha.
    { unfold applyIntent. destruct (kind _); [done|..]; by destruct (Commit _ _ _ _ _) as [[[] ?] ?]. }
    unfold fold. destruct (_ || _); [done|]. destruct (applyIntent _ e r L) as [r1 L1].
    by rewrite andb_false_r.
Qed.

Lemma pass_silent src disc staging b w pw budget nt (st : state (W := W)) :
  rtc (@step W upl (prepare_worker o src disc staging) o src disc staging false hasProgress schema_detail
         maxInFlightBytes gomaxprocs) (start disc b w budget pw nt) st ->
  buf st.2 = b /\ dir st.2 = w /\ port st.1 = pw /\ audit st.2 = [].
Proof.
  intros H. assert (untouched b w pw [] st) as [(H1 & H2 & H3 & _) _ _ _].
  { revert H. apply (reachable_by o src disc staging false hasProgress schema_detail maxInFlightBytes
      gomaxprocs (untouched b w pw)); [|by constructor].
    intros c c' Hc Hm. pose proof (prepare_worker_laws o src disc staging). by eapply untouched_micro. }
  split_and!; try done. revert H.
  apply (reachable_by o src disc staging false hasProgress schema_detail maxInFlightBytes gomaxprocs
    (fun _ st => audit st.2 = [])); [|done].
  intros c c' Hc Hm. by eapply audit_micro.
Qed.

Lemma prepareDerived_dry src root en dbPath bf now d :
  (prepareDerived o src root en dbPath bf now d).2 = None.
Proof.
  unfold prepareDerived, failed_outcome. rewrite Hdry. destruct (_ && _); [done|].
  destruct (scrubSource _ _ _ _); [|done]. destruct (mirrorKey _ _ _); [|done].
  by destruct (Seal _ _ _) as [[? ?]|].
Qed.

Lemma derived_silent src root en dbPath env objects b dir (w : W) :
  let ds := shipDerivedGroups o src root en dbPath schema_detail env objects b dir w in
  ds_buf W ds = b /\ ds_dir W ds = dir /\ ds_port W ds = w.
Proof.
  unfold shipDerivedGroups. cbn zeta.
  match goal with |- context [ship_all _ _ _ _ _ _ _ ?s 0 _] => set (st0 := s) end.
  assert (forall i st, let st' := ship_all o src root en dbPath schema_detail env st i objects in
    items (ds_group W st) = [] -> items (ds_group W st') = [] /\
    ds_buf W st' = ds_buf W st /\ ds_dir W st' = ds_dir W st /\ ds_port W st' = ds_port W st) as H.
  { cbn zeta. generalize objects. intros l. induction l as [|d l IH]; intros i st Hg; cbn [ship_all]; [done|].
    assert (let st1 := ship_one o src root en dbPath schema_detail env st i d in
      ds_group W st1 = ds_group W st /\ ds_buf W st1 = ds_buf W st /\ ds_dir W st1 = ds_dir W st /\
      ds_port W st1 = ds_port W st) as (Eg & Eb & Ed & Ep).
    { unfold ship_one. destruct (halted W st); [done|].
      pose proof (prepareDerived_dry src root en dbPath (ds_buf W st) (io_now (env i)) d) as Hn.
      by destruct (prepareDerived _ _ _ _ _ _ _ _) as [fo [pp|]]. }
    destruct (IH (S i) (ship_one o src root en dbPath schema_detail env st i d)) as (H1 & H2 & H3 & H4);
      [by rewrite Eg|]. split_and!; congruence. }
  destruct (H 0%nat st0 eq_refl) as (Hg & Hb & Hd & Hp).
  unfold batcher_flush, take_items. rewrite Hg. cbn. done.
Qed.

(** The run has changed nothing outside its report. *)
Definition idle (st : Store) (dir : world) (w : W) (rs : run_state W) : Prop :=
  store (r_buf rs) = st /\ pending (r_buf rs) = ∅ /\ r_dir rs = dir /\ r_port rs = w /\ r_log rs = [].

Lemma Flush_idle e b w : pending b = ∅ -> Flush e b w = (None, b, w).
Proof. intros H. unfold Flush. by rewrite bool_decide_eq_true_2. Qed.

Lemma enrich_all_idle st dir w e k r l staged x (rs : run_state W) :
  idle st dir w rs -> idle st dir w (enrich_all o hasLog0 schema_detail firstExisting e k r l staged x rs).2.
Proof.
  revert k x rs. induction l as [|en l IH]; intros k x rs H; cbn [enrich_all]; [done|].
  destruct (_ && _); [by apply IH|].
  assert (idle st dir w (enrichSource o hasLog0 schema_detail firstExisting e k r en staged x rs).2) as H1.
  { unfold enrichSource. rewrite append_log_dry.
    match goal with |- context [shipDerivedGroups ?o ?s ?ro ?en ?db ?sd ?ev ?ob ?b ?d ?w] =>
      destruct (derived_silent s ro en db ev ob b d w) as (E1 & E2 & E3);
      set (ds := shipDerivedGroups o s ro en db sd ev ob b d w) in * end.
    clearbody ds. cbn zeta. unfold idle. destruct (halted W ds); rewrite ?append_log_dry; cbn;
      rewrite E1, E2, E3; exact H. }
  destruct (enrichSource _ _ _ _ _ _ _ _ _ _ _) as [[err x1] rs1]. destruct err; [done|by apply IH].
Qed.

Notation flush_source := (flush_source o hasLog0 hasProgress schema_detail maxInFlightBytes gomaxprocs
  registry discover firstExisting).
Notation flush_sources := (flush_sources o hasLog0 hasProgress schema_detail maxInFlightBytes gomaxprocs
  registry discover firstExisting).
Notation run := (run o hasLog0 hasProgress schema_detail maxInFlightBytes gomaxprocs
  registry discover firstExisting).

Lemma after_pass_idle st dir w e r d enrichers x (rs rs' : run_state W) err F L :
  after_pass o hasLog0 schema_detail firstExisting e r d enrichers x rs (F, L) = (err, rs') ->
  r_log rs = [] -> audit L = [] -> store (buf L) = st -> pending (buf L) = ∅ -> Pool.dir L = dir ->
  port F = w -> idle st dir w rs'.
Proof.
  intros H Hl Ha Hs Hp Hd Hw. unfold after_pass in H. cbn zeta in H. rewrite no_log in H.
  set (res := finish o (source r) d false (F, L)) in *.
  assert (pr_audit res = []) as Hau.
  { unfold res, finish, elided_entry, failure_entry. rewrite Ha, andb_false_r.
    destruct (fatal L), (uploadHalted L), (p_offline L), (stopped F); done. }
  set (x1 := with_pass L res _) in *. set (rs1 := mkRun _ _ _ _ _ _) in *.
  assert (idle st dir w rs1) as H1 by (unfold idle, rs1; by rewrite Hau, Hl).
  destruct (pr_err res) as [perr|].
  { injection H as <- <-. by destruct (stopsRun _). }
  apply (enrich_all_idle _ _ _ e 0 r enrichers (stagedUnits L) x1) in H1.
  destruct (enrich_all _ _ _ _ _ _ _ _ _ _ _) as [[eerr x2] rs2]. cbn [snd] in H1.
  destruct eerr; [by injection H as <- <-|].
  unfold collect_garbage, proves_absence in H. rewrite Hdry in H. cbn [negb andb] in H.
  unfold flush_run in H. destruct H1 as (E1 & E2 & E3 & E4 & E5). rewrite (Flush_idle _ _ _ E2) in H.
  injection H as <- <-. done.
Qed.

Lemma flush_source_idle st dir w e r err (rs rs' : run_state W) :
  flush_source e r rs err rs' -> idle st dir w rs -> idle st dir w rs'.
Proof.
  intros H Hi. destruct H as [| | |d err rs1 Hc He Hdi Hspec|d rs1 fin err rs3 Hc He Hdi Hspec ens rs2 Hrun Hat Hafter]; try done.
  - unfold ensure_spec in Hspec. by rewrite Hdry in Hspec.
  - unfold ensure_spec in Hspec. rewrite Hdry in Hspec. injection Hspec as <-.
    destruct fin as [F L]. unfold pass_step, run_worker in Hrun. rewrite no_log in Hrun.
    apply pass_silent in Hrun as (Hb & Hd & Hw & Ha).
    unfold rs2 in *. rewrite append_log_dry in *. destruct Hi as (E1 & E2 & E3 & E4 & E5).
    cbn [r_buf r_dir r_port fst snd] in *.
    assert (store (PreviewSpec (src_ID (source r)) (res_SpecFingerprint r) (r_buf rs)) = st /\
            pending (PreviewSpec (src_ID (source r)) (res_SpecFingerprint r) (r_buf rs)) = ∅) as [P1 P2].
    { unfold PreviewSpec. destruct (SpecFor _ _) as [fp|]; [|done]. by destruct (_ =? _)%string. }
    eapply after_pass_idle; [exact Hafter|..]; cbn; congruence.
Qed.

Lemma flush_sources_idle st dir w l err (rs rs' : run_state W) :
  flush_sources l rs err rs' -> idle st dir w rs -> idle st dir w rs'.
Proof. induction 1; intros Hi; eauto using flush_source_idle. Qed.

Lemma close_run_idle st dir w f err err' (rs rs' : run_state W) :
  close_run schema_detail f err rs = (err', rs') -> idle st dir w rs -> err' = err /\ idle st dir w rs'.
Proof.
  intros H (E1 & E2 & E3 & E4 & E5). unfold close_run, flush_run in H. rewrite (Flush_idle _ _ _ E2) in H.
  destruct err; injection H as <- <-; done.
Qed.

(** A preview touches nothing: whatever it discovers, reads and enriches, in whatever order its
    workers finish, and however it ends, it leaves the store, the state directory and the port as
    they were, buffers no fingerprint and appends no audit line. *)
Theorem run_preview_pure f st dir (w : W) err rs' :
  run f st dir w err rs' ->
  store (r_buf rs') = st /\ pending (r_buf rs') = ∅ /\ r_dir rs' = dir /\ r_port rs' = w /\
  r_log rs' = [].
Proof.
  intros H. destruct H as [? Hd|? ? ? ? Hc|? ? ? ? ? Hd|? ? ? ? ? ? ? ? Hs Hc|? rs ? ? ? ? ? Hs Hc];
    try congruence.
  - by eapply close_run_idle in Hc as [_ ?].
  - apply (flush_sources_idle st dir w) in Hs; [|done]. by eapply close_run_idle in Hc as [_ ?].
  - apply (flush_sources_idle st dir w) in Hs; [|done]. rewrite append_log_dry in Hc.
    by eapply close_run_idle in Hc as [_ ?].
Qed.
End Preview.

(** Whole runs at concrete inputs: one new file read, sealed, confirmed, committed and written out;
    the same file in a preview; and an idle run that forgets a derived object. *)

Module SampleFlush.
Import PoolRun.Run.
#[local] Existing Instances SampleRun.scrubber SampleRun.container.
#[local] Existing Instance yes.

Definition quiet : env := mkEnv None (e, e) (fun _ _ => e) (e, e) e.
Definition frame_ : frame := mkFrame true 0 None [quiet] None e 0 (0, 0).
Definition found_ (r : Resolved) : result error Discovery := Ok disc.
Definition nowhere (l : list string) : string := "".

(** ** One new file *)

Definition begun : run_state () := run_start o frame_ opened dir0 tt.
Definition flushed : option error * run_state () :=
  after_pass o true "" nowhere quiet SampleRun.resolved disc []
    (with_discovery disc (initial_outcome SampleRun.resolved)) begun (st8 yes).
Definition ended : option error * run_state () :=
  close_run "" frame_ None
    (append_log o true (heartbeat_entry None)
      (mkRun (r_buf flushed.2) (r_dir flushed.2) (r_port flushed.2) (r_budget flushed.2)
        (set_sources (sort_sources (Sources (r_rep flushed.2))) (r_rep flushed.2)) (r_log flushed.2))).

Lemma flushes : flush_source o true true "" gate procs None found_ nowhere quiet SampleRun.resolved begun
  None flushed.2.
Proof.
  apply (src_passed _ _ _ _ _ _ _ _ _ _ _ _ disc begun (st8 yes)); [reflexivity..| | | |].
  - vm_compute. reflexivity.
  - exact reach8_yes.
  - vm_compute. reflexivity.
  - vm_compute. reflexivity.
Qed.

Lemma flush_runs : run o true true "" gate procs None found_ nowhere frame_ opened dir0 tt None ended.2.
Proof.
  apply (run_completed _ _ _ _ _ _ _ _ _ _ _ _ _ None flushed.2 ended.2).
  - reflexivity.
  - discriminate.
  - right. reflexivity.
  - reflexivity.
  - eapply sources_next; [exact flushes|]. apply sources_done.
  - vm_compute. reflexivity.
Qed.

Lemma run_ok_durable_witness :
  Shipped (r_rep ended.2) = 1 /\ pending (r_buf ended.2) = ∅ /\
  (holds (store (r_buf ended.2)) (disk (r_dir ended.2)) \/
   (store (r_buf ended.2) = opened /\ disk (r_dir ended.2) = disk dir0)).
Proof.
  split; [vm_compute; reflexivity|].
  exact (run_ok_durable o true true "" gate procs None found_ nowhere frame_ opened dir0 tt ended.2 flush_runs).
Defined.

(** ** The same file, previewed *)

Definition sealed_dry : fileResult * option pendingPut := Eval vm_compute in
  default (SampleRun.sealed.1, None) (prepareFile o_dry src disc false SampleRun.job SampleRun.clk).
Definition dry3 : state := computed [] [] sealed_dry.1 sealed_dry.2 st2.
Definition dry4 : state :=
  with_phase Admitting (on_result o_dry src disc false false true "" procs 0 e sealed_dry.1
    sealed_dry.2 (set_results [] dry3)).
Definition dry5 : state := close_turn src disc false GateClosed 0 dry4.

Lemma reach_dry : rtc (@Pool.step () yes worker_dry o_dry src disc false false true "" gate procs) st0 dry5.
Proof.
  apply (rtc_l _ st0 st1); [apply (admits _ _ _ _ _ _ _ _ _ None); by_running|].
  apply (rtc_l _ st1 st2); [apply (closes _ _ _ _ _ _ _ _ _ None); by_running|].
  apply (rtc_l _ st2 dry3).
  { apply (computes _ _ _ _ _ _ _ _ _ [] SampleRun.job []); [by_running|].
    exists SampleRun.clk. vm_compute. reflexivity. }
  apply (rtc_l _ dry3 dry4); [apply takes_result; by_running|].
  apply rtc_once, (closes _ _ _ _ _ _ _ _ _ None); by_running.
Qed.

Definition begun_dry : run_state () := run_start o_dry frame_ opened dir0 tt.
Definition flushed_dry : option error * run_state () :=
  after_pass o_dry true "" nowhere quiet SampleRun.resolved disc []
    (with_discovery disc (initial_outcome SampleRun.resolved)) begun_dry dry5.
Definition ended_dry : option error * run_state () :=
  close_run "" frame_ None
    (mkRun (r_buf flushed_dry.2) (r_dir flushed_dry.2) (r_port flushed_dry.2) (r_budget flushed_dry.2)
      (set_sources (sort_sources (Sources (r_rep flushed_dry.2))) (r_rep flushed_dry.2)) (r_log flushed_dry.2)).

Lemma runs_dry : run o_dry true true "" gate procs None found_ nowhere frame_ opened dir0 tt None ended_dry.2.
Proof.
  apply (run_completed _ _ _ _ _ _ _ _ _ _ _ _ _ None flushed_dry.2 ended_dry.2).
  - reflexivity.
  - discriminate.
  - left. reflexivity.
  - reflexivity.
  - eapply sources_next; [|apply sources_done].
    apply (src_passed _ _ _ _ _ _ _ _ _ _ _ _ disc begun_dry dry5); [reflexivity..| | | |].
    + vm_compute. reflexivity.
    + exact reach_dry.
    + vm_compute. reflexivity.
    + vm_compute. reflexivity.
  - vm_compute. reflexivity.
Qed.

Lemma run_preview_pure_witness :
  Shipped (r_rep ended_dry.2) = 1 /\ store (r_buf ended_dry.2) = opened /\
  pending (r_buf ended_dry.2) = ∅ /\ r_dir ended_dry.2 = dir0 /\ r_port ended_dry.2 = tt /\
  r_log ended_dry.2 = [].
Proof.
  split; [vm_compute; reflexivity|].
  exact (run_preview_pure o_dry true true "" gate procs None found_ nowhere eq_refl frame_ opened dir0 tt
    None ended_dry.2 runs_dry).
Defined.

(** ** An idle run: the transcript is unchanged, its derived object is forgotten *)

Definition transcript : Candidate := SampleRun.the_file.
Definition derived_key : Key := mkKey (src_ID src) "/home/ann/.a/x.enriched.jsonl".
Definition derived_fp : Fingerprint := mkFingerprint "" 0 0 SampleRun.generation (Some (mkEnricherRef "cursor" 3)) "out1" false "" 0 0.
Definition remembered : Store := set_entries {[ derived_key := derived_fp ]} opened.
Definition idle_outcome : SourceOutcome :=
  with_pass (st8 yes).2 (mkPassResult [set_decision DecisionUnchanged "" (outcome SampleRun.sealed.1)] "" [] None false 0)
    (with_discovery disc (initial_outcome SampleRun.resolved)).
Definition resting : run_state () := mkRun (newCommitBuffer remembered 0) dir0 tt 10 (empty_report 0 false) [].
Definition joiner : Enricher := mkEnricher "cursor" 3 [] true (fun _ => mkEnrichResult [] 0 0 0 [] []).
Definition collected : option state_error * run_state () :=
  collect_garbage o true quiet SampleRun.resolved disc
    (enrich_all o true "" nowhere quiet 0 SampleRun.resolved [joiner] [] idle_outcome resting).1.2
    (enrich_all o true "" nowhere quiet 0 SampleRun.resolved [joiner] [] idle_outcome resting).2.

Lemma skipped_enricher_forgotten_witness :
  buffered (r_buf resting) !! derived_key = Some derived_fp /\
  buffered (r_buf collected.2) !! derived_key = None.
Proof.
  split; [vm_compute; reflexivity|].
  refine (proj1 (skipped_enricher_forgotten o true "" nowhere quiet 0 SampleRun.resolved [joiner] disc
    idle_outcome resting collected.2 _ _ _ derived_key) _ _ _).
  - repeat constructor.
  - vm_compute. reflexivity.
  - vm_compute. reflexivity.
  - reflexivity.
  - intros c [->|H]%elem_of_cons; [vm_compute; discriminate|by apply not_elem_of_nil in H].
  - intros c [->|H]%elem_of_cons; [vm_compute; discriminate|by apply not_elem_of_nil in H].
Defined.
End SampleFlush.
