(* ===== verification/Schedule.v ===== *)
(** The tick interval: [src/internal/config/schedule.go] over [time.ParseDuration] of the standard
    library, whose fractions are computed in double precision ([SpecFloat]). A duration is an int64
    of nanoseconds. *)

From Stdlib Require Import SpecFloat.
From S2P Require Import Prelude GoLib GoTime GoText.

(** ** Doubles *)

Definition float64_of (z : Z) : spec_float := binary_normalize 53 1024 z 0 false.
Definition float64_mul : spec_float -> spec_float -> spec_float := SFmul 53 1024.
Definition float64_div : spec_float -> spec_float -> spec_float := SFdiv 53 1024.

(** [uint64] of a finite, not negative double: truncation. *)
Definition uint64_of_float (f : spec_float) : Z :=
  match f with
  | S754_finite _ m e => Z.shiftl (Zpos m) e
  | _ => 0
  end.

(** ** [time.ParseDuration] *)

Definition unitMap (u : string) : option Z :=
  if (u =? "ns")%string then Some 1
  else if (u =? "us")%string || (u =? "µs")%string || (u =? "μs")%string then Some 1000
  else if (u =? "ms")%string then Some 1000000
  else if (u =? "s")%string then Some second
  else if (u =? "m")%string then Some minute
  else if (u =? "h")%string then Some hour
  else None.

Fixpoint leadingInt (x : Z) (s : string) : option (Z * string) :=
  match s with
  | String c r =>
      if is_digit c then
        if 2 ^ 63 / 10 <? x then None
        else let x := 10 * x + (byte_code c - 48) in
             if 2 ^ 63 <? x then None else leadingInt x r
      else Some (x, s)
  | "" => Some (x, s)
  end.

Fixpoint leadingFraction (x : Z) (scale : spec_float) (overflow : bool) (s : string)
    : Z * spec_float * string :=
  match s with
  | String c r =>
      if is_digit c then
        if overflow then leadingFraction x scale true r
        else if (2 ^ 63 - 1) / 10 <? x then leadingFraction x scale true r
        else let y := 10 * x + (byte_code c - 48) in
             if 2 ^ 63 <? y then leadingFraction x scale true r
             else leadingFraction y (float64_mul scale (float64_of 10)) false r
      else (x, scale, s)
  | "" => (x, scale, s)
  end.

Definition starts_number (s : string) : bool :=
  match s with String c _ => (c =? ".")%char || is_digit c | "" => false end.

Fixpoint take_unit (s : string) : string * string :=
  match s with
  | String c r =>
      if (c =? ".")%char || is_digit c then ("", s)
      else let '(u, r) := take_unit r in (String c u, r)
  | "" => ("", "")
  end.

(** One number with its unit: the nanoseconds it is worth and what follows. *)
Definition parse_term (s : string) : option (Z * string) :=
  if negb (starts_number s) then None
  else match leadingInt 0 s with
  | None => None
  | Some (v, s1) =>
      let pre := negb (String.length s1 =? String.length s)%nat in
      let '(f, scale, s2, post) :=
        match s1 with
        | String "." r =>
            let '(f, scale, r') := leadingFraction 0 (float64_of 1) false r in
            (f, scale, r', negb (String.length r' =? String.length r)%nat)
        | _ => (0, float64_of 1, s1, false)
        end in
      if negb pre && negb post then None
      else
        let '(u, s3) := take_unit s2 in
        if (u =? "")%string then None
        else match unitMap u with
        | None => None
        | Some unit =>
            if 2 ^ 63 / unit <? v then None
            else
              let v := v * unit in
              let v := if 0 <? f
                then uint64 (v + uint64_of_float (float64_mul (float64_of f) (float64_div (float64_of unit) scale)))
                else v in
              if (0 <? f) && (2 ^ 63 <? v) then None else Some (v, s3)
        end
  end.

(** [fuel] bounds the bytes left; every term takes at least two. *)
Fixpoint parse_terms (fuel : nat) (d : Z) (s : string) : option Z :=
  if (s =? "")%string then Some d
  else match fuel with
  | O => None
  | S fuel =>
      match parse_term s with
      | None => None
      | Some (v, r) => let d := uint64 (d + v) in if 2 ^ 63 <? d then None else parse_terms fuel d r
      end
  end.

Definition ParseDuration (orig : string) : option Z :=
  let '(neg, s) :=
    match orig with
    | String "-" r => (true, r)
    | String "+" r => (false, r)
    | _ => (false, orig)
    end in
  if (s =? "0")%string then Some 0
  else if (s =? "")%string then None
  else match parse_terms (String.length s) 0 s with
  | None => None
  | Some d => if neg then Some (int64 (- int64 d)) else if 2 ^ 63 - 1 <? d then None else Some d
  end.

(** ** schedule.go *)

Definition DefaultTick : Z := 15 * minute.
Definition MinTick : Z := minute.

(** What was wrong with the schedule, which the warning quotes. *)
Inductive tick_warning :=
  | NotADuration (schedule : string)
  | NotPositive (schedule : string)
  | UnderFloor (schedule : string).

Definition parseSchedule (s : string) : result (string -> tick_warning) Z :=
  match ParseDuration s with
  | None => Err NotADuration
  | Some d => if d <=? 0 then Err NotPositive else Ok d
  end.

Definition TickInterval (schedule : string) : Z * option tick_warning :=
  let s := TrimSpace schedule in
  if (s =? "")%string then (DefaultTick, None)
  else match parseSchedule s with
  | Err why => (DefaultTick, Some (why schedule))
  | Ok d => if d <? MinTick then (MinTick, Some (UnderFloor schedule)) else (d, None)
  end.

Example durations :
  map ParseDuration ["1h15m30.918s"; "-1.5h"; "0"; "9223372036854775807ns"; "9223372036854775808ns";
    "-9223372036854775808ns"; ".5m"; "3000000h"; "1"; "s"; "5µs"; "0.3333333333333333333h"]
  = [Some 4530918000000; Some (-5400000000000); Some 0; Some (2 ^ 63 - 1); None;
     Some (- 2 ^ 63); Some 30000000000; None; None; None; Some 5000; Some 1200000000000].
Proof. vm_compute. reflexivity. Qed.
