(* ===== verification/Deny.v ===== *)
(** Where a source may be read from: root expansion ([src/internal/sources/pathexp.go]), the compiled
    deny list ([deny.go]) and the globs a served document may add
    ([shipper-protocol/exclusions.go]). Paths are Unix paths. The file system and the glob library
    are interfaces; [os.Expand] and [filepath.Clean] are the standard library's and are modelled. *)

From S2P Require Import Prelude GoLib Naming GoPath.

(** ** The machine *)

(** What [os.Stat] and [filepath.EvalSymlinks] answer: nothing on an error, else whether the path is
    a directory, or its resolved form. *)
Class FileSystem := {
  Stat : string -> option bool;
  EvalSymlinks : string -> option string
}.

(** The doublestar library: [Match] of a pattern and a slash-separated path (nothing on a malformed
    pattern), [Glob] below a root, and [ValidatePattern]. *)
Class Doublestar := {
  ds_Match : string -> string -> option bool;
  ds_Glob : string -> string -> result string (list string);
  ds_ValidatePattern : string -> bool
}.

(** ** [os.Expand] *)

Definition isShellSpecialVar (c : ascii) : bool :=
  match c with
  | "*" | "#" | "$" | "@" | "!" | "?" | "-" => true
  | _ => is_digit c
  end%char.

Definition isAlphaNum (c : ascii) : bool := (c =? "_")%char || is_digit c || is_lower c || is_upper c.

Fixpoint take_while (f : ascii -> bool) (s : string) : string :=
  match s with
  | String c r => if f c then String c (take_while f r) else ""
  | "" => ""
  end.

(** The name in front of [s], which follows a dollar, and how many bytes it takes. *)
Definition getShellName (s : string) : string * nat :=
  match s with
  | String "{" r =>
      match r with
      | String c (String "}" _) => if isShellSpecialVar c then (String c "", 3%nat) else
          if (c =? "}")%char then ("", 2%nat) else (String c "", 3%nat)
      | _ =>
          let name := take_while (fun c => negb (c =? "}")%char) r in
          if (String.length name =? String.length r)%nat then ("", 1%nat)
          else if (name =? "")%string then ("", 2%nat)
          else (name, (String.length name + 2)%nat)
      end
  | String c _ =>
      if isShellSpecialVar c then (String c "", 1%nat)
      else let name := take_while isAlphaNum s in (name, String.length name)
  | "" => ("", O)
  end.

Inductive piece := Lit (c : ascii) | Var (name : string).

(** The text as literal bytes and variables; malformed references are dropped, a dollar that names
    nothing stays. [fuel] bounds the bytes left. *)
Fixpoint pieces (fuel : nat) (s : string) : list piece :=
  match fuel, s with
  | O, _ | _, "" => []
  | S fuel, String "$" r =>
      if (r =? "")%string then [Lit "$"]
      else
        let '(name, w) := getShellName r in
        let here := if (name =? "")%string then if (w =? 0)%nat then [Lit "$"] else [] else [Var name] in
        here ++ pieces fuel (str_drop w r)
  | S fuel, String c r => Lit c :: pieces fuel r
  end.

Definition piece_text (mapping : string -> string) (p : piece) : string :=
  match p with Lit c => String c "" | Var name => mapping name end.

Definition os_Expand (s : string) (mapping : string -> string) : string :=
  foldr (fun p r => piece_text mapping p +:+ r) "" (pieces (String.length s) s).

(** The names [mapping] is called with, in order. *)
Definition os_Expand_names (s : string) : list string :=
  omap (fun p => match p with Var name => Some name | Lit _ => None end) (pieces (String.length s) s).

(** ** pathexp.go *)

Record Env := mkEnvironment { Home : string; Lookup : string -> option string }.

Inductive expand_error :=
  | EmptyRoot
  | ErrUnsetVar (root var : string)
  | NotAbsolute (root expanded : string).

Definition is_unset (e : Env) (name : string) : bool :=
  match Lookup e name with Some v => (v =? "")%string | None => true end.

(** The last unset variable is the one reported. *)
Definition expandVars (e : Env) (s : string) : result expand_error string :=
  match last (filter (fun name => is_unset e name = true) (os_Expand_names s)) with
  | Some name => Err (ErrUnsetVar s name)
  | None => Ok (os_Expand s (fun name => default "" (Lookup e name)))
  end.

Definition ExpandHome (p home : string) : string :=
  if has_prefix "~" p then home +:+ trim_prefix "~" p else p.

Definition IsAbs (p : string) : bool := has_prefix "/" p.

Definition ExpandRoot (e : Env) (root : string) : result expand_error string :=
  if (root =? "")%string then Err EmptyRoot
  else
    let! expanded := expandVars e root in
    let expanded := ExpandHome expanded (Home e) in
    if negb (IsAbs expanded) then Err (NotAbsolute root expanded) else Ok (Path.Clean expanded).

Definition FirstExistingFile {fs : FileSystem} (e : Env) (candidates : list string) : string :=
  default "" (head (omap (fun cand =>
    match ExpandRoot e cand with
    | Err _ => None
    | Ok path => if bool_decide (Stat path = Some false) then Some path else None
    end) candidates)).

(** ** deny.go *)

Definition CompiledDeny : list string := [
  "~/.aws/**"; "~/.ssh/**"; "~/.gnupg/**"; "~/.kube/**"; "~/.azure/**"; "~/.docker/config.json";
  "~/.config/gh/**"; "~/.config/gcloud/**"; "$APPDATA/gcloud/**"; "$APPDATA/GitHub CLI/**";
  "~/.netrc"; "~/.npmrc"; "~/.pypirc"; "~/.git-credentials";
  "**/.env"; "**/.env.*"; "**/id_rsa"; "**/id_ed25519"; "**/*.pem"; "**/*.p12"; "**/*.key";
  "~/Library/Keychains/**";
  "~/.claude/.credentials.json"; "~/.claude.json"; "~/.codex/auth.json";
  "~/.config/opencode/auth.json"; "~/.local/share/opencode/auth.json";
  "~/.copilot/config.json"; "~/.copilot/mcp-config*"; "~/.copilot/mcp-config*/**";
  "~/.copilot/mcp-oauth-config*"; "~/.copilot/mcp-oauth-config*/**"; "~/.copilot/mcp-secrets/**";
  "~/.copilot/ide/**";
  "$COPILOT_HOME/config.json"; "$COPILOT_HOME/mcp-config*"; "$COPILOT_HOME/mcp-config*/**";
  "$COPILOT_HOME/mcp-oauth-config*"; "$COPILOT_HOME/mcp-oauth-config*/**";
  "$COPILOT_HOME/mcp-secrets/**"; "$COPILOT_HOME/ide/**";
  "**/Code/User/globalStorage/state.vscdb*"; "**/auth.json"; "**/credentials.json";
  "**/.credentials.json";
  "~/.pi/agent/models.json"; "$PI_CODING_AGENT_DIR/models.json";
  "~/.hermes/config.yaml"; "$HERMES_HOME/config.yaml"; "~/.hermes/profiles/*/config.yaml"].

Definition normalize (p : string) : string := Path.Clean p.

Notation denyList := (list string).

(** [New]: the entries whose variables are set, expanded, each once. [os_env] is [os.LookupEnv]. *)
Definition deny_New (os_env : string -> option string) (home : string) : denyList :=
  let e := mkEnvironment home os_env in
  foldl (fun d p =>
    match expandVars e p with
    | Err _ => d
    | Ok expanded =>
        let e := normalize (ExpandHome expanded home) in
        if bool_decide (e ∈ d) then d else d ++ [e]
    end) [] CompiledDeny.

(** The containment the glob alone does not give. *)
Definition matchesTree (pat c : string) : bool :=
  match cut_suffix "/**" pat with
  | Some root => (c =? root)%string || has_prefix (root +:+ "/") c
  | None => false
  end.

Definition MatchTree (d : denyList) (dir : string) : option string :=
  let c := normalize dir in
  head (filter (fun pat => matchesTree pat c = true) d).

Section Deny.
Context {fs : FileSystem} {ds : Doublestar}.

Definition pattern_matches (pat c : string) : bool :=
  bool_decide (ds_Match pat c = Some true) || matchesTree pat c.

(** The first pattern in list order that matches. *)
Definition matchCandidate (d : denyList) (c : string) : option string :=
  head (filter (fun pat => pattern_matches pat c = true) d).

Definition MatchPair (d : denyList) (given resolved : string) : option string :=
  let c := normalize given in
  match matchCandidate d c with
  | Some pat => Some pat
  | None =>
      if (resolved =? "")%string then None
      else let r := normalize resolved in
           if negb (r =? c)%string then matchCandidate d r else None
  end.

Definition deny_Match (d : denyList) (path : string) : option string :=
  MatchPair d path (match EvalSymlinks path with Some r => r | None => "" end).

Inductive deny_error :=
  | RootDenied (root pat : string)
  | IncludeInvalid (glob why : string)
  | IncludeReaches (glob abs pat : string).

Definition CheckRoot (d : denyList) (root : string) : result deny_error () :=
  match deny_Match d root with
  | Some pat => Err (RootDenied root pat)
  | None => Ok ()
  end.

Fixpoint check_matches (d : denyList) (root glob : string) (matches : list string) : result deny_error () :=
  match matches with
  | [] => Ok ()
  | m :: r =>
      let abs := path_Join root m in
      match deny_Match d abs with
      | Some pat => Err (IncludeReaches glob abs pat)
      | None => check_matches d root glob r
      end
  end.

Fixpoint CheckIncludes (d : denyList) (root : string) (includes : list string) : result deny_error () :=
  match includes with
  | [] => Ok ()
  | glob :: r =>
      match ds_Glob root (trim_prefix "/" glob) with
      | Err why => Err (IncludeInvalid glob why)
      | Ok matches => let! _ := check_matches d root glob matches in CheckIncludes d root r
      end
  end.

(** ** exclusions.go *)

Inductive exclude_error := ExcludeBackslash | ExcludeNotRelative | ExcludeSegment | ExcludeGlob.

Definition ValidateExcludeAdd (pattern : string) : result exclude_error () :=
  if str_contains "\" pattern then Err ExcludeBackslash
  else if match pattern with
          | "" => true
          | String c r =>
              (c =? "/")%char || (c =? "~")%char || (c =? "$")%char || has_prefix ":" r
              || str_contains (String "000" "") pattern
          end then Err ExcludeNotRelative
  else if existsb (fun part => (part =? "")%string || (part =? ".")%string || (part =? "..")%string)
            (split_on "/" pattern) then Err ExcludeSegment
  else if negb (ds_ValidatePattern pattern) then Err ExcludeGlob
  else Ok ().
End Deny.

Record SourceExclusions := mkSourceExclusions {
  se_ID : string;
  se_Enabled : option bool;
  se_ExcludeAdd : list string
}.

Definition ReduceSourceExclusions (sources : list SourceExclusions) : list SourceExclusions :=
  let paused := map se_ID (filter (fun s => se_ExcludeAdd s <> []) sources) in
  map (fun s => mkSourceExclusions (se_ID s)
        (if bool_decide (se_ID s ∈ paused) then Some false else se_Enabled s) []) sources.

(** What the deny list and root expansion promise: an expanded root is absolute and clean, the list
    denies exactly what a compiled entry reaches by either form of a path, a pruned tree holds
    nothing that would have been collected, and an added exclude only ever narrows a source. *)

Lemma ExpandRoot_clean e root p : ExpandRoot e root = Ok p -> clean_abs p /\ root <> "".
Proof.
  unfold ExpandRoot. destruct (root =? "")%string eqn:Er; [discriminate|]. intros H. inv_ok.
  split; [|by apply String.eqb_neq].
  apply Clean_abs. by boolp.
Qed.

(** ** The list *)

(** A compiled entry whose variables are all set, as it is matched. *)
Definition compiled_pattern (os_env : string -> option string) (home pat : string) : Prop :=
  exists p text, p ∈ CompiledDeny /\ expandVars (mkEnvironment home os_env) p = Ok text /\
    pat = normalize (ExpandHome text home).

Lemma deny_New_spec os_env home pat : pat ∈ deny_New os_env home <-> compiled_pattern os_env home pat.
Proof.
  unfold deny_New, compiled_pattern. generalize CompiledDeny. intros l.
  set (f := fun d p => _).
  enough (forall d, pat ∈ foldl f d l <->
    pat ∈ d \/ exists p text, p ∈ l /\ expandVars (mkEnvironment home os_env) p = Ok text /\
      pat = normalize (ExpandHome text home)) as H.
  { rewrite H. split; [intros [H0|?]; [by apply not_elem_of_nil in H0|done]|by right]. }
  induction l as [|p l IH]; intros d; cbn [foldl].
  - split; [by left|]. intros [?|(p & t & H & _)]; [done|by apply not_elem_of_nil in H].
  - rewrite IH. unfold f at 1. destruct (expandVars _ p) as [text|err] eqn:Ee.
    + split.
      * intros [H|(q & t & Hq & Ht)]; [|right; exists q, t; split; [by apply elem_of_cons; right|done]].
        case_bool_decide; [by left|]. apply elem_of_app in H as [H|H]; [by left|].
        apply list_elem_of_singleton in H as ->. right. exists p, text.
        split; [apply elem_of_cons; by left|done].
      * intros [H|(q & t & [->|Hq]%elem_of_cons & Ht & Hpat)].
        -- left. case_bool_decide; [done|]. apply elem_of_app. by left.
        -- left. rewrite Ee in Ht. injection Ht as ->. rewrite Hpat. case_bool_decide; [done|].
           apply elem_of_app. right. by apply list_elem_of_singleton.
        -- right. by exists q, t.
    + split.
      * intros [H|(q & t & Hq & Ht)]; [by left|]. right. exists q, t. split; [by apply elem_of_cons; right|done].
      * intros [H|(q & t & [->|Hq]%elem_of_cons & Ht & Hpat)]; [by left|congruence|]. right. by exists q, t.
Qed.

Lemma head_filter {A} (P : A -> Prop) `{forall x, Decision (P x)} (l : list A) :
  match head (filter P l) with
  | Some x => x ∈ l /\ P x
  | None => forall x, x ∈ l -> ~ P x
  end.
Proof.
  destruct (filter P l) as [|x r] eqn:E; cbn.
  - intros x Hx HP. assert (x ∈ filter P l) as H1 by (by apply list_elem_of_filter).
    rewrite E in H1. by apply not_elem_of_nil in H1.
  - assert (x ∈ filter P l) as H1 by (rewrite E; apply elem_of_cons; by left).
    apply list_elem_of_filter in H1. tauto.
Qed.

Section Deny.
Context {fs : FileSystem} {ds : Doublestar}.

(** The forms of a path that are matched: as given, and as its symlinks resolve. *)
Definition form_of (path form : string) : Prop :=
  form = normalize path \/ exists r, EvalSymlinks path = Some r /\ r <> "" /\ form = normalize r.

Lemma matchCandidate_spec d c :
  match matchCandidate d c with
  | Some pat => pat ∈ d /\ pattern_matches pat c = true
  | None => forall pat, pat ∈ d -> pattern_matches pat c = false
  end.
Proof.
  unfold matchCandidate. pose proof (head_filter (fun pat => pattern_matches pat c = true) d) as H.
  destruct (head _); [done|]. intros pat Hp. specialize (H pat Hp). by destruct (pattern_matches pat c).
Qed.

Lemma deny_Match_spec d path :
  match deny_Match d path with
  | Some pat => pat ∈ d /\ exists form, form_of path form /\ pattern_matches pat form = true
  | None => forall pat form, pat ∈ d -> form_of path form -> pattern_matches pat form = false
  end.
Proof.
  unfold deny_Match, MatchPair, form_of.
  pose proof (matchCandidate_spec d (normalize path)) as H1.
  destruct (matchCandidate d (normalize path)) as [pat|].
  { destruct H1. split; [done|]. exists (normalize path). split; [by left|done]. }
  destruct (EvalSymlinks path) as [r|] eqn:Er; cbn [default].
  2:{ intros pat form Hp [->|(r & ? & _)]; [by apply H1|done]. }
  destruct (r =? "")%string eqn:Ee.
  { apply String.eqb_eq in Ee as ->. intros pat form Hp [->|(r' & E & ? & _)]; [by apply H1|congruence]. }
  apply String.eqb_neq in Ee.
  destruct (normalize r =? normalize path)%string eqn:En; cbv beta iota delta [negb].
  { apply String.eqb_eq in En. intros pat form Hp [->|(r' & E & _ & ->)]; [by apply H1|].
    injection E as <-. rewrite En. by apply H1. }
  pose proof (matchCandidate_spec d (normalize r)) as H2.
  destruct (matchCandidate d (normalize r)) as [pat|].
  - destruct H2. split; [done|]. exists (normalize r). split; [right; by exists r|done].
  - intros pat form Hp [->|(r' & E & _ & ->)]; [by apply H1|]. injection E as <-. by apply H2.
Qed.

(** The deny list is a floor nothing lifts: a path is denied exactly when an entry compiled into
    the build, whatever the configuration says, reaches it by its given or its symlink-resolved form;
    only an entry naming an unset variable is inert. *)
Theorem deny_exact os_env home path :
  (exists pat, deny_Match (deny_New os_env home) path = Some pat) <->
  exists pat form, compiled_pattern os_env home pat /\ form_of path form /\
    (ds_Match pat form = Some true \/ matchesTree pat form = true).
Proof.
  pose proof (deny_Match_spec (deny_New os_env home) path) as H. split.
  - intros [pat Hp]. rewrite Hp in H. destruct H as (Hin & form & Hf & Hm).
    exists pat, form. split_and!; [by apply deny_New_spec|done|].
    unfold pattern_matches in Hm. apply orb_true_iff in Hm as [Hm|Hm]; [left|by right].
    by apply bool_decide_eq_true in Hm.
  - intros (pat & form & Hc & Hf & Hm). destruct (deny_Match _ _) as [pat'|]; [by exists pat'|].
    apply deny_New_spec in Hc. specialize (H pat form Hc Hf). unfold pattern_matches in H.
    apply orb_false_iff in H as [H1 H2]. apply bool_decide_eq_false in H1.
    destruct Hm; [done|congruence].
Qed.

(** [p] is [dir] or lies below it. *)
Definition below (dir p : string) : Prop :=
  normalize p = normalize dir \/ has_prefix (normalize dir +:+ "/") (normalize p) = true.

(** A pruned directory's pattern reaches everything below it. *)
Lemma pruned_matches d dir p pat : MatchTree d dir = Some pat -> below dir p ->
  pat ∈ d /\ matchesTree pat (normalize p) = true.
Proof.
  unfold MatchTree. intros Ht Hb. cbv zeta in Ht.
  pose proof (head_filter (fun pat => matchesTree pat (normalize dir) = true) d) as H.
  rewrite Ht in H. destruct H as [Hin Hm]. split; [done|].
  unfold matchesTree in *. destruct (cut_suffix "/**" pat) as [root|]; [|done].
  destruct Hb as [->|Hb]; [done|]. apply has_prefix_spec in Hb as [r1 ->].
  apply orb_true_iff. right. apply orb_true_iff in Hm as [Hm|Hm].
  - apply String.eqb_eq in Hm as ->. apply has_prefix_spec. by eexists.
  - apply has_prefix_spec in Hm as [r ->]. apply has_prefix_spec. exists (r +:+ "/" +:+ r1).
    by rewrite !string_app_assoc.
Qed.

Lemma pruned_candidate d dir p pat : MatchTree d dir = Some pat -> below dir p ->
  is_Some (matchCandidate d (normalize p)).
Proof.
  intros Ht Hb. destruct (pruned_matches d dir p pat Ht Hb) as [Hin Hm].
  pose proof (matchCandidate_spec d (normalize p)) as Hs. destruct (matchCandidate d _); [done|].
  specialize (Hs pat Hin). unfold pattern_matches in Hs. by rewrite Hm, orb_true_r in Hs.
Qed.

(** Pruning loses nothing: when discovery skips a directory because a denied tree holds it, every
    path below it is one the list denies on its own. *)
Theorem pruned_tree_denied d dir p pat :
  MatchTree d dir = Some pat -> below dir p -> exists pat', deny_Match d p = Some pat'.
Proof.
  intros Ht Hb. destruct (pruned_candidate d dir p pat Ht Hb) as [pat' E].
  exists pat'. unfold deny_Match, MatchPair. by rewrite E.
Qed.

(** A root that passed the check. *)
Lemma CheckRoot_ok d root : CheckRoot d root = Ok () <-> deny_Match d root = None.
Proof. unfold CheckRoot. by destruct (deny_Match d root). Qed.

Lemma ValidateExcludeAdd_ok pattern :
  ValidateExcludeAdd pattern = Ok () ->
  IsAbs pattern = false /\ Forall (fun part => part <> "" /\ part <> "." /\ part <> "..") (split_on "/" pattern) /\
  ds_ValidatePattern pattern = true.
Proof.
  unfold ValidateExcludeAdd. destruct (str_contains "\" pattern); [discriminate|].
  destruct (match pattern with "" => true | _ => _ end) eqn:E1; [discriminate|].
  destruct (existsb _ _) eqn:E2; [discriminate|]. destruct (ds_ValidatePattern pattern) eqn:E3; [|discriminate].
  intros _. split_and!; [| |done].
  - destruct pattern as [|c r]; [done|]. unfold IsAbs. cbn [has_prefix].
    repeat (apply orb_false_iff in E1 as [E1 ?]).
    destruct ("/" =? c)%char eqn:E; [|done]. apply Ascii.eqb_eq in E as <-. discriminate E1.
  - apply Forall_forall. intros part Hp. apply list_elem_of_In in Hp.
    destruct (((part =? "") || (part =? ".") || (part =? ".."))%string) eqn:E4.
    + assert (existsb (fun part => (part =? "")%string || (part =? ".")%string || (part =? "..")%string)
        (split_on "/" pattern) = true) by (apply existsb_exists; by exists part). congruence.
    + repeat (apply orb_false_iff in E4 as [E4 ?]). boolp. done.
Qed.
End Deny.

(** A pruned tree at a concrete list. *)
Module SampleDeny.
#[local] Instance machine : FileSystem := {| Stat := fun _ => None; EvalSymlinks := fun _ => None |}.
#[local] Instance no_glob : Doublestar := {|
  ds_Match := fun pat p => Some (pat =? p)%string;
  ds_Glob := fun _ _ => Ok [];
  ds_ValidatePattern := fun _ => true |}.

Definition list_ : denyList := deny_New (fun _ => None) "/home/ann".

Lemma pruned_tree_denied_witness :
  MatchTree list_ "/home/ann/.ssh/keys/" = Some "/home/ann/.ssh/**" /\
  exists pat, deny_Match list_ "/home/ann/.ssh/keys/a/id" = Some pat.
Proof.
  split; [vm_compute; reflexivity|].
  apply (pruned_tree_denied list_ "/home/ann/.ssh/keys/" "/home/ann/.ssh/keys/a/id" "/home/ann/.ssh/**").
  - vm_compute. reflexivity.
  - right. vm_compute. reflexivity.
Defined.
End SampleDeny.
