(* ===== verification/Exemptions.v ===== *)
(** The compiled exemption baseline: [src/internal/transforms/exemptions.go]. *)

From S2P Require Import Prelude.

(** Field paths by family; "*" is every family. *)
Definition CompiledExemptions : gmap string (list string) := list_to_map [
  ("claude-code", ["uuid"; "parentUuid"; "logicalParentUuid"; "sessionId"; "agentId"; "message.id";
    "requestId"; "promptId"; "interruptedMessageId"; "slug"; "message.content[].id";
    "message.content[].tool_use_id"; "toolUseResult.tool_use_id"; "toolUseResult.results[].tool_use_id";
    "toolUseId"; "sourceToolUseID"; "attachment.toolUseID"; "cwd"; "wireToolInputs.*";
    "wireIngestContext.*"; "shapeHash"; "hash"; "requestDigest"; "tail[]"]);
  ("codex", ["payload.call_id"; "payload.response_id"; "payload.item.changes.*"]);
  ("cursor", ["composerId"; "bubbleId"; "checkpointId"; "requestId"; "content[].image.hex"]);
  ("copilot", ["id"; "parentId"; "data.toolCallId"; "data.toolRequests[].toolCallId";
    "data.parentToolCallId"; "data.permissionRequest.toolCallId"; "data.promptRequest.toolCallId";
    "data.apiCallId"; "data.message.apiCallId"; "data.messages[].apiCallId"; "data.modelCall.api_id";
    "data.responseChunk.id"; "data.toolTelemetry.properties.hashedUrl"; "data.context.cwd";
    "data.encryptedContent"; "data.reasoningOpaque"; "data.reasoningBlocks.blocks[].encrypted_content";
    "data.reasoningBlocks.blocks[].id"; "v.requests[].requestId"; "v[].requestId";
    "v.requests[].responseId"; "v[].responseId"; "v.requests[].response[].id"; "v[].response[].id";
    "v[].id"; "v.requests[].response[].toolCallId"; "v[].response[].toolCallId"; "v[].toolCallId";
    "v.metadata.toolCallRounds[].toolCalls[].id"; "v.metadata.toolCallRounds[].thinking.id";
    "v.metadata.toolCallRounds[].thinking.encrypted"; "v.metadata.toolCallRounds[].statefulMarker";
    "v[].result.metadata.toolCallRounds[].toolCalls[].id";
    "v[].result.metadata.toolCallRounds[].thinking.id";
    "v[].result.metadata.toolCallRounds[].thinking.encrypted";
    "v[].result.metadata.toolCallRounds[].statefulMarker";
    "v.requests[].result.metadata.toolCallRounds[].toolCalls[].id";
    "v.requests[].result.metadata.toolCallRounds[].thinking.id";
    "v.requests[].result.metadata.toolCallRounds[].thinking.encrypted";
    "v.requests[].result.metadata.toolCallRounds[].statefulMarker"; "v.metadata.toolCallResults.*";
    "v[].result.metadata.toolCallResults.*"; "v.requests[].result.metadata.toolCallResults.*";
    "v[].invocationMessage.uris.*"; "v[].pastTenseMessage.uris.*";
    "v[].response[].invocationMessage.uris.*"; "v[].response[].pastTenseMessage.uris.*";
    "v.requests[].response[].invocationMessage.uris.*";
    "v.requests[].response[].pastTenseMessage.uris.*"; "requests[].requestId"; "requests[].responseId";
    "requests[].response[].id"; "requests[].response[].toolCallId";
    "requests[].result.metadata.toolCallRounds[].toolCalls[].id";
    "requests[].result.metadata.toolCallRounds[].thinking.id";
    "requests[].result.metadata.toolCallRounds[].thinking.encrypted";
    "requests[].result.metadata.toolCallRounds[].statefulMarker";
    "requests[].result.metadata.toolCallResults.*"; "requests[].response[].invocationMessage.uris.*";
    "requests[].response[].pastTenseMessage.uris.*"]);
  ("pi", ["message.content[].id"; "message.toolCallId"]);
  ("opencode", ["id"; "parent_id"; "session_id"; "message_id"; "data.parentID"; "data.callID";
    "fork_session_id"; "data.content[].id"]);
  ("hermes", ["tool_call_id"; "tool_calls#json[].id"; "tool_calls#json[].call_id";
    "tool_calls#json[].response_item_id"]);
  ("*", ["timestamp"; "version"])].
