(* ===== verification/Heuristic.v ===== *)
(** The entropy backstop of the redaction engine: [src/internal/transforms/heuristic.go] up to the
    key-name matcher. Scores are computed in double precision; the base-two logarithm of [math] is
    an interface, its last bit being the platform's. That the probing scan finds what a scan byte by
    byte finds is proved below. *)

From Stdlib Require Import SpecFloat.
From S2P Require Import Prelude GoLib Naming Schedule.

(** [math.Log2]. *)
Class MathLog2 := Log2 : spec_float -> spec_float.

Definition float64_add : spec_float -> spec_float -> spec_float := SFadd 53 1024.
Definition float64_sub : spec_float -> spec_float -> spec_float := SFsub 53 1024.
(** A decimal constant [a / b] whose parts are exact: the nearest double. *)
Definition float64_const (a b : Z) : spec_float := float64_div (float64_of a) (float64_of b).
Definition float64_geb (x y : spec_float) : bool := SFleb y x.
Definition float64_zero : spec_float := float64_of 0.

(** ** Spans: [Span] of [packs.go] *)

Record Span := mkSpan { Start : nat; End_ : nat; RuleID : string }.
#[global] Instance Span_eq_dec : EqDecision Span.
Proof. solve_decision. Defined.

(** The slice [value[i:j]]. *)
Definition slice (s : string) (i j : nat) : string := str_take (j - i) (str_drop i s).

(** ** Configuration *)

Record EntropyConfig := mkEntropyConfig {
  MinLength : Z;
  MinBitsPerChar : spec_float;
  MinBitsPerCharHex : spec_float
}.

Definition DefaultEntropyConfig : EntropyConfig :=
  mkEntropyConfig 24 (float64_const 42 10) (float64_const 38 10).

Definition sentinelPrefix : string := "__REDACTED".
Definition isAlnumByte (c : ascii) : bool := isAlnum c.

Definition isCandidateByte (c : ascii) : bool :=
  isAlnumByte c || (c =? "+")%char || (c =? "=")%char || (c =? "_")%char || (c =? "-")%char.
Definition isHexByte (c : ascii) : bool :=
  is_digit c || in_range "a" "f" c || in_range "A" "F" c.

Definition entropySymbols : Z := 66.
Definition entropyHexBit : Z := 128.
Definition entropyHistSlots : nat := 128.
Definition entropyEstSlack : spec_float := float64_const 1 (10 ^ 9).

(** The class table: candidate bytes get ascending ranks from 1, hex digits the top bit too. *)
Definition class_step (st : list Z * Z) (c : nat) : list Z * Z :=
  let b := ascii_of_nat c in
  if isCandidateByte b
  then let rank := st.2 + 1 in
       (st.1 ++ [if isHexByte b then Z.lor rank entropyHexBit else rank], rank)
  else (st.1 ++ [0], st.2).
Definition buildEntropyClass : list Z := (foldl class_step ([], 0) (seq 0 256)).1.
Definition entropyClass : list Z := Eval vm_compute in buildEntropyClass.
Definition class_of (c : ascii) : Z := default 0 (entropyClass !! nat_of_ascii c).
Definition in_class (c : ascii) : bool := negb (class_of c =? 0).

Section Entropy.
Context {log2 : MathLog2}.

(** [entropyFloor]: the smallest number of distinct symbols that could reach the threshold. *)
Fixpoint floor_from (fuel : nat) (d : Z) (threshold : spec_float) : Z :=
  match fuel with
  | O => entropySymbols + 1
  | S f => if float64_geb (Log2 (float64_of d)) (float64_sub threshold entropyEstSlack) then d
           else floor_from f (d + 1) threshold
  end.
Definition entropyFloor (threshold : spec_float) : Z := floor_from 66 1 threshold.

Record entropyMatcher := mkEntropyMatcher {
  en_cfg : EntropyConfig;
  minRun : nat;
  minDistinct : Z;
  minDistinctHex : Z;
  skip : list string
}.

Definition newEntropyMatcher (cfg : EntropyConfig) (username : string) : entropyMatcher :=
  mkEntropyMatcher cfg (Z.to_nat (Z.max 1 (MinLength cfg)))
    (entropyFloor (MinBitsPerChar cfg)) (entropyFloor (MinBitsPerCharHex cfg))
    ([UserPlaceholder; sentinelPrefix] ++ (if 2 <=? slen username then [username] else [])).

(** ** Scores *)

Definition add_count (counts : list Z) (c : ascii) : list Z :=
  alter (Z.add 1) (Z.to_nat (Z.land (class_of c) (Z.lnot entropyHexBit))) counts.
Definition histogram (candidate : string) : list Z :=
  foldl add_count (replicate entropyHistSlots 0) (list_ascii_of_string candidate).
Definition distinct_of (counts : list Z) : Z := Zlen (filter (fun n => n <> 0) counts).
Definition hex_all (candidate : string) : Z :=
  foldl (fun acc c => Z.land acc (class_of c)) 255 (list_ascii_of_string candidate).

(** [n * log2 n], the table's entry or the same product computed. *)
Definition nLog2 (n : Z) : spec_float :=
  if n =? 0 then float64_zero else float64_mul (float64_of n) (Log2 (float64_of n)).
Definition estimateEntropyBits (counts : list Z) (total : spec_float) : spec_float :=
  let weighted := foldl (fun w n => float64_add w (nLog2 n)) float64_zero
                    (take (Z.to_nat (entropySymbols + 1)) counts) in
  float64_sub (Log2 total) (float64_div weighted total).

Definition exactEntropyBits (counts : list Z) (total : spec_float) : spec_float :=
  foldl (fun h c =>
    if c =? 0 then h
    else let p := float64_div (float64_of c) total in
         float64_sub h (float64_mul p (Log2 p))) float64_zero counts.

Definition clears (m : entropyMatcher) (candidate : string) : bool :=
  let counts := histogram candidate in
  let hex := negb (Z.land (hex_all candidate) entropyHexBit =? 0) in
  let threshold := if hex then MinBitsPerCharHex (en_cfg m) else MinBitsPerChar (en_cfg m) in
  let floor := if hex then minDistinctHex m else minDistinct m in
  if SFleb threshold float64_zero then false
  else if distinct_of counts <? floor then false
  else
    let total := float64_of (slen candidate) in
    let est := estimateEntropyBits counts total in
    if float64_geb est (float64_add threshold entropyEstSlack) then true
    else if SFltb est (float64_sub threshold entropyEstSlack) then false
    else float64_geb (exactEntropyBits counts total) threshold.

(** ** The skip list *)

(** Does [sub] begin [s], with no letter or digit before or after it? [prev] is the byte before. *)
Definition delimited_here (prev : option ascii) (s sub : string) : bool :=
  has_prefix sub s &&
  match prev with None => true | Some c => negb (isAlnumByte c) end &&
  match str_drop (String.length sub) s with "" => true | String c _ => negb (isAlnumByte c) end.
Fixpoint delimited_from (prev : option ascii) (s sub : string) : bool :=
  delimited_here prev s sub ||
  match s with "" => false | String c r => delimited_from (Some c) r sub end.
Definition containsDelimited (s sub : string) : bool :=
  if (sub =? "")%string then false else delimited_from None s sub.

Definition skipsCandidate (m : entropyMatcher) (candidate : string) : bool :=
  existsb (containsDelimited candidate) (skip m).

(** ** Match *)

Definition generic_entropy : string := "generic-entropy".

(** Walking back from [start] to [scanned], forward from [i], while the bytes are in class. *)
Fixpoint back (value : list ascii) (scanned start : nat) : nat :=
  match start with
  | O => O
  | S k => if (scanned <? start)%nat && from_option in_class false (value !! k) then back value scanned k
           else start
  end.
Fixpoint forward (l : list ascii) (i : nat) : nat :=
  match l with
  | c :: r => if in_class c then forward r (S i) else i
  | [] => i
  end.

(** The end of the alphanumeric word at [n], no further than [end_]; [s] is the value from [n] on. *)
Fixpoint word_end (end_ : nat) (s : string) (n : nat) : nat :=
  match s with
  | String c r => if (n <? end_)%nat && isAlnumByte c then word_end end_ r (S n) else n
  | "" => n
  end.

(** The alphanumeric words of [value[j:end]] that clear on their own. *)
Fixpoint clearing_words (m : entropyMatcher) (value : string) (end_ : nat) (fuel j : nat) : list Span :=
  match fuel with
  | O => []
  | S f =>
      if (j <? end_)%nat then
        let word := word_end end_ (str_drop j value) j in
        (if (minRun m <=? word - j)%nat && clears m (slice value j word)
         then [mkSpan j word generic_entropy] else []) ++
        clearing_words m value end_ f (S word)
      else []
  end.
Definition appendClearingWords (m : entropyMatcher) (value : string) (start end_ : nat) : list Span :=
  clearing_words m value end_ (end_ - start) start.

(** What one run of at least [minRun] candidate bytes contributes. *)
Definition run_spans (m : entropyMatcher) (value : string) (start i : nat) : list Span :=
  let candidate := slice value start i in
  if negb (clears m candidate) then []
  else if skipsCandidate m candidate then appendClearingWords m value start i
  else [mkSpan start i generic_entropy].

(** Every [minRun]-th byte is probed; a probe inside a run not yet seen walks to its ends. *)
Fixpoint probe (m : entropyMatcher) (value : string) (l : list ascii) (fuel p scanned : nat) : list Span :=
  match fuel with
  | O => []
  | S f =>
      match l !! p with
      | None => []
      | Some c =>
          if (p <? scanned)%nat || negb (in_class c) then probe m value l f (p + minRun m) scanned
          else
            let start := back l scanned p in
            let i := forward (drop (S p) l) (S p) in
            (if (i - start <? minRun m)%nat then [] else run_spans m value start i) ++
            probe m value l f (p + minRun m) i
      end
  end.

Definition entropy_Match (m : entropyMatcher) (value : string) : list Span :=
  if slen value <? MinLength (en_cfg m) then []
  else probe m value (list_ascii_of_string value) (S (String.length value)) (minRun m - 1) 0.
End Entropy.

(** The entropy backstop probes only every [minRun]-th byte of a value ([Heuristic]); it finds what a
    scan of every byte finds, in the same order. *)

(** ** The reference: every maximal run of candidate bytes *)

(** [cur] is where the run open at [pos] started. *)
Fixpoint runs (l : list ascii) (pos : nat) (cur : option nat) : list (nat * nat) :=
  match l with
  | [] => match cur with Some s => [(s, pos)] | None => [] end
  | c :: r =>
      if in_class c then runs r (S pos) (Some (default pos cur))
      else match cur with Some s => [(s, pos)] | None => [] end ++ runs r (S pos) None
  end.

Definition entropy_reference {log2 : MathLog2} (m : entropyMatcher) (value : string) : list Span :=
  if slen value <? MinLength (en_cfg m) then []
  else flat_map (fun se => if (se.2 - se.1 <? minRun m)%nat then [] else run_spans m value se.1 se.2)
         (runs (list_ascii_of_string value) 0 None).

Section Runs.
Variable l : list ascii.

Definition inC (k : nat) : bool := from_option in_class false (l !! k).
Definition fwd (x : nat) : nat := forward (drop x l) x.
Definition runs_from (x : nat) : list (nat * nat) := runs (drop x l) x None.

Lemma drop_lookup_cons x c : l !! x = Some c -> drop x l = c :: drop (S x) l.
Proof. intros H. by apply drop_S. Qed.

Lemma fwd_step x : fwd x = if inC x then fwd (S x) else x.
Proof.
  unfold fwd, inC. destruct (l !! x) as [c|] eqn:E; cbn [from_option].
  - rewrite (drop_lookup_cons x c E). cbn [forward]. by destruct (in_class c).
  - rewrite drop_ge by (by apply lookup_ge_None_1). done.
Qed.

Lemma inC_lt k : inC k = true -> (k < length l)%nat.
Proof. unfold inC. destruct (l !! k) eqn:E; [|done]. intros _. by eapply lookup_lt_Some. Qed.

Lemma fwd_spec x : (x <= fwd x)%nat /\ (forall k, (x <= k < fwd x)%nat -> inC k = true) /\ inC (fwd x) = false.
Proof.
  remember (length l - x)%nat as n eqn:Hn. revert x Hn. induction n as [|n IH]; intros x Hn; rewrite fwd_step.
  - destruct (inC x) eqn:E; [apply inC_lt in E; lia|]. split_and!; [lia|lia|done].
  - destruct (inC x) eqn:E; [|split_and!; [lia|lia|done]].
    destruct (IH (S x) ltac:(lia)) as (H1 & H2 & H3). split_and!; [lia| |done].
    intros k Hk. destruct (decide (k = x)) as [->|]; [done|]. apply H2. lia.
Qed.

Lemma fwd_reach x y : (x <= y)%nat -> (forall k, (x <= k < y)%nat -> inC k = true) -> fwd x = fwd y.
Proof.
  intros Hxy. induction Hxy as [|y Hxy IH]; intros H; [done|]. rewrite IH by (intros k Hk; apply H; lia).
  rewrite fwd_step. by rewrite H by lia.
Qed.

Lemma fwd_before x y : (x <= y)%nat -> inC y = false -> (fwd x <= y)%nat.
Proof.
  intros Hxy Hy. destruct (fwd_spec x) as (_ & H & _). destruct (decide (fwd x <= y)%nat); [done|].
  rewrite H in Hy by lia. done.
Qed.

Lemma back_spec scanned p : (scanned <= p)%nat ->
  let s := back l scanned p in
  (scanned <= s <= p)%nat /\ (forall k, (s <= k < p)%nat -> inC k = true) /\ (s = scanned \/ inC (s - 1) = false).
Proof.
  intros H. cbn zeta. induction p as [|p IH]; cbn [back]; [split; [lia|split; [lia|left; lia]]|].
  change (from_option in_class false (l !! p)) with (inC p).
  destruct (scanned <? S p)%nat eqn:E1; cbn [andb].
  2:{ apply Nat.ltb_ge in E1. split; [lia|split; [lia|left; lia]]. }
  destruct (inC p) eqn:E2.
  - destruct (IH ltac:(apply Nat.ltb_lt in E1; lia)) as (H1 & H2 & H3). split; [lia|split; [|done]].
    intros k Hk. destruct (decide (k = p)) as [->|]; [done|]. apply H2. lia.
  - split; [lia|split; [lia|right]]. by replace (S p - 1)%nat with p by lia.
Qed.

Lemma back_unique scanned p s :
  (scanned <= s <= p)%nat -> (forall k, (s <= k < p)%nat -> inC k = true) ->
  s = scanned \/ inC (s - 1) = false -> back l scanned p = s.
Proof.
  intros Hs Hin Hend. destruct (back_spec scanned p ltac:(lia)) as (H1 & H2 & H3). cbn zeta in *.
  set (t := back l scanned p) in *. destruct (lt_eq_lt_dec t s) as [[Hlt|]|Hgt]; [|done|]; exfalso.
  - destruct Hend as [->|He]; [lia|]. rewrite H2 in He by lia. done.
  - destruct H3 as [->|He]; [lia|]. rewrite Hin in He by lia. done.
Qed.

Lemma runs_open x s : runs (drop x l) x (Some s) = (s, fwd x) :: runs_from (fwd x).
Proof.
  remember (length l - x)%nat as n eqn:Hn. revert x Hn. induction n as [|n IH]; intros x Hn.
  - assert (fwd x = x) as ->.
    { rewrite fwd_step. destruct (inC x) eqn:E; [apply inC_lt in E; lia|done]. }
    unfold runs_from. by rewrite drop_ge by lia.
  - rewrite fwd_step. unfold inC. destruct (l !! x) as [c|] eqn:E.
    2:{ apply lookup_ge_None_1 in E. lia. }
    rewrite (drop_lookup_cons x c E). cbn [runs from_option]. destruct (in_class c) eqn:Ec.
    + cbn [default]. rewrite IH by lia. done.
    + cbn [app]. f_equal. unfold runs_from. rewrite (drop_lookup_cons x c E). cbn [runs]. by rewrite Ec.
Qed.

Lemma runs_from_out x : inC x = false -> runs_from x = runs_from (S x).
Proof.
  intros H. unfold runs_from, inC in *. destruct (l !! x) as [c|] eqn:E.
  - rewrite (drop_lookup_cons x c E). cbn [runs from_option] in *. by rewrite H.
  - apply lookup_ge_None_1 in E. by rewrite !drop_ge by lia.
Qed.

Lemma runs_from_in x : inC x = true -> runs_from x = (x, fwd x) :: runs_from (fwd x).
Proof.
  intros H. unfold runs_from at 1. unfold inC in H. destruct (l !! x) as [c|] eqn:E; [|done].
  rewrite (drop_lookup_cons x c E). cbn [runs from_option] in *. rewrite H. cbn [default].
  rewrite runs_open. assert (fwd x = fwd (S x)) as -> by (rewrite (fwd_step x); unfold inC; rewrite E; cbn; by rewrite H).
  done.
Qed.

(** The runs from [scanned] on, split at the one [p] is in. *)
Lemma runs_split scanned p : (scanned <= p)%nat -> inC p = true ->
  exists pre, runs_from scanned = pre ++ (back l scanned p, fwd (S p)) :: runs_from (fwd (S p)) /\
    Forall (fun se => (se.2 <= p)%nat) pre.
Proof.
  remember (p - scanned)%nat as n eqn:Hn. revert scanned Hn.
  induction n as [n IH] using lt_wf_ind. intros scanned Hn Hle Hp.
  assert (fwd p = fwd (S p)) as Hfp by (rewrite (fwd_step p); by rewrite Hp).
  destruct (decide (fwd scanned <= p)%nat) as [Hf|Hf].
  - assert (inC scanned = false \/ (scanned < fwd scanned)%nat) as Hc.
    { rewrite fwd_step. destruct (inC scanned) eqn:E; [right|by left].
      destruct (fwd_spec (S scanned)) as (? & _). lia. }
    assert (inC (fwd scanned) = false) as Hend by apply fwd_spec.
    assert (fwd scanned < p)%nat as Hlt.
    { destruct (decide (fwd scanned = p)) as [E|]; [rewrite E in Hend; congruence|lia]. }
    set (x := S (fwd scanned)).
    destruct (IH (p - x)%nat ltac:(destruct (fwd_spec scanned); lia) x eq_refl ltac:(lia) Hp) as (pre & E & Hpre).
    assert (back l x p = back l scanned p) as Hback.
    { symmetry. destruct (back_spec x p ltac:(lia)) as (H1 & H2 & H3). apply back_unique.
      - destruct (fwd_spec scanned). lia.
      - done.
      - right. destruct H3 as [->|H3]; [|done]. unfold x. by replace (S (fwd scanned) - 1)%nat with (fwd scanned) by lia. }
    rewrite <- Hback. destruct (inC scanned) eqn:Es.
    + exists ((scanned, fwd scanned) :: pre). rewrite (runs_from_in scanned Es), (runs_from_out (fwd scanned) Hend).
      fold x. rewrite E. split; [done|]. constructor; [cbn; lia|done].
    + exists pre. assert (fwd scanned = scanned) as Hsame by (rewrite fwd_step; idtac; rewrite Es; reflexivity).
      rewrite (runs_from_out scanned Es). unfold x in *. rewrite Hsame in *. by rewrite E.
  - assert (forall k, (scanned <= k <= p)%nat -> inC k = true) as Hall.
    { intros k Hk. apply (fwd_spec scanned). lia. }
    exists []. split; [|constructor]. rewrite runs_from_in by (apply Hall; lia).
    rewrite (fwd_reach scanned (S p)) by (try lia; intros k Hk; apply Hall; lia).
    rewrite (back_unique scanned p scanned); [done|lia|intros k Hk; apply Hall; lia|by left].
Qed.

Lemma runs_from_start x s e : (s, e) ∈ runs_from x -> (x <= s)%nat /\ (s < e)%nat /\ (forall k, (s <= k < e)%nat -> inC k = true).
Proof.
  remember (length l - x)%nat as n eqn:Hn. revert x Hn. induction n as [n IH] using lt_wf_ind. intros x Hn H.
  destruct (inC x) eqn:E.
  - rewrite (runs_from_in x E) in H. destruct (fwd_spec x) as (H1 & H2 & _).
    assert (x < fwd x)%nat as Hlt by (rewrite fwd_step, E; destruct (fwd_spec (S x)); lia).
    apply elem_of_cons in H as [[= -> ->]|H]; [split_and!; [lia|lia|done]|].
    pose proof (inC_lt x E). destruct (IH (length l - fwd x)%nat ltac:(lia) (fwd x) eq_refl H) as (H3 & H4 & H5).
    split_and!; [lia|done|done].
  - destruct (decide (x < length l)%nat) as [Hlt|Hge].
    + rewrite (runs_from_out x E) in H. destruct (IH (length l - S x)%nat ltac:(lia) (S x) eq_refl H) as (H3 & H4 & H5).
      split_and!; [lia|done|done].
    + unfold runs_from in H. rewrite drop_ge in H by lia. by apply elem_of_nil in H.
Qed.
End Runs.

Section Probe.
Context {log2 : MathLog2}.
Variables (m : entropyMatcher) (value : string).
Hypothesis Hrun : (1 <= minRun m)%nat.
Let l := list_ascii_of_string value.

Definition of_run (se : nat * nat) : list Span :=
  if (se.2 - se.1 <? minRun m)%nat then [] else run_spans m value se.1 se.2.

Lemma short_runs pre : Forall (fun se => (se.2 - se.1 < minRun m)%nat) pre -> flat_map of_run pre = [].
Proof.
  induction 1 as [|se pre H _ IH]; [done|]. cbn. rewrite IH, app_nil_r. unfold of_run.
  by rewrite (proj2 (Nat.ltb_lt _ _) H).
Qed.

(** Every run still to come that is long enough ends after the next probe. *)
Lemma probe_runs fuel p scanned :
  (length l < p + fuel)%nat ->
  (forall s e, (s, e) ∈ runs_from l scanned -> (minRun m <= e - s)%nat -> (p < e)%nat) ->
  probe m value l fuel p scanned = flat_map of_run (runs_from l scanned).
Proof.
  revert p scanned. induction fuel as [|fuel IH]; intros p scanned Hf Hinv.
  - cbn [probe]. symmetry. apply short_runs, Forall_forall. intros [s e] Hin. cbn.
    destruct (decide (e - s < minRun m)%nat); [done|].
    destruct (runs_from_start l scanned s e Hin) as (_ & Hlt & Hc). pose proof (Hinv s e Hin ltac:(lia)).
    pose proof (inC_lt l (e - 1) (Hc (e - 1)%nat ltac:(lia))). lia.
  - cbn [probe]. destruct (l !! p) as [c|] eqn:E.
    2:{ apply lookup_ge_None_1 in E. symmetry. apply short_runs, Forall_forall. intros [s e] Hin. cbn.
        destruct (decide (e - s < minRun m)%nat); [done|].
        destruct (runs_from_start l scanned s e Hin) as (_ & Hlt & Hc). pose proof (Hinv s e Hin ltac:(lia)).
        pose proof (inC_lt l (e - 1) (Hc (e - 1)%nat ltac:(lia))). lia. }
    assert (inC l p = in_class c) as Hp by (unfold inC; by rewrite E).
    destruct (p <? scanned)%nat eqn:E1; cbn [orb].
    + apply Nat.ltb_lt in E1. apply IH; [lia|]. intros s e Hin Hlong.
      destruct (runs_from_start l scanned s e Hin) as (H1 & _). lia.
    + apply Nat.ltb_ge in E1. destruct (in_class c) eqn:Ec; cbn [negb].
      * destruct (runs_split l scanned p E1 Hp) as (pre & Eq & Hpre). fold (fwd l (S p)). rewrite Eq.
        rewrite flat_map_app, (short_runs pre). 2:{
          apply Forall_forall. intros [s e] Hin. cbn. destruct (decide (e - s < minRun m)%nat); [done|].
          assert (p < e)%nat as H1 by (apply (Hinv s e); [rewrite Eq; apply elem_of_app; by left|lia]).
          pose proof (proj1 (Forall_forall _ _) Hpre _ Hin) as H2. cbn in H2. lia. }
        cbn [app flat_map]. f_equal. apply IH; [lia|]. intros s e Hin Hlong.
        destruct (runs_from_start l _ s e Hin) as (H1 & _). destruct (fwd_spec l (S p)). lia.
      * apply IH; [lia|]. intros s e Hin Hlong. pose proof (Hinv s e Hin Hlong) as H1.
        destruct (runs_from_start l scanned s e Hin) as (_ & _ & Hc).
        destruct (decide (s <= p)%nat) as [Hs|Hs]; [rewrite Hc in Hp by lia; done|lia].
Qed.
End Probe.

(** Probing every [minRun]-th byte loses nothing: the backstop reports exactly what a scan of every
    byte would, the maximal runs of candidate bytes that are long enough, clear their threshold and
    are not the scrubber's own output, in order. *)
Theorem entropy_Match_exact {log2 : MathLog2} cfg username value :
  let m := newEntropyMatcher cfg username in
  entropy_Match m value = entropy_reference m value.
Proof.
  intros m. unfold entropy_Match, entropy_reference. destruct (_ <? _); [done|].
  change (runs (list_ascii_of_string value) 0 None) with (runs_from (list_ascii_of_string value) 0).
  assert (1 <= minRun m)%nat as Hrun by (cbn; lia).
  apply probe_runs; [done| |].
  - assert (length (list_ascii_of_string value) = String.length value) as ->; [|lia].
    induction value as [|c s IH]; [done|]. cbn. by rewrite IH.
  - intros s e Hin Hlong. destruct (runs_from_start _ 0 s e Hin). lia.
Qed.
