(* ===== verification/Spans.v ===== *)
(** Spans of the redaction engine: [src/internal/transforms/matcher.go] (sentinels, exemptions and
    the resolution of overlapping spans), [keyname.go] (field names that name a secret) and
    [drops.go] (fields replaced whole). *)

From S2P Require Import Prelude GoLib GoUrl Naming Vocab Schedule Heuristic.

(** ** Case mapping *)

(** [strings.ToUpper] and [strings.ToLower]: byte-wise on ASCII; the Unicode tables, which decide the
    rest, are an interface. *)
Class GoUnicode := { wide_upper : string -> string; wide_lower : string -> string }.

Definition isASCII (s : string) : bool := str_forallb (fun c => byte_code c <? 128) s.
Definition to_upper_byte (c : ascii) : ascii := if is_lower c then byte_of (byte_code c - 32) else c.
Definition ToUpper {u : GoUnicode} (s : string) : string :=
  if isASCII s then str_map to_upper_byte s else wide_upper s.
Definition ToLower {u : GoUnicode} (s : string) : string :=
  if isASCII s then to_lower s else wide_lower s.

(** ** matcher.go: sentinels *)

Notation FieldPath := string (only parsing).

Definition Sentinel (ruleID : string) : string := sentinelPrefix +:+ ":" +:+ ruleID +:+ "__".

Definition cut_prefix (p s : string) : option string :=
  if has_prefix p s then Some (str_drop (String.length p) s) else None.

Definition isSentinel (s : string) : bool :=
  match cut_prefix (sentinelPrefix +:+ ":") s with
  | None => false
  | Some id =>
      match cut_suffix "__" id with
      | None => false
      | Some id =>
          negb (id =? "")%string &&
          str_forallb (fun c => (c =? "-")%char || is_lower c || is_digit c) id
      end
  end.

(** ** matcher.go: exemptions *)

Record ExemptionSet := mkExemptionSet {
  byFamily : gmap string (gset string);
  global : gset string
}.

Definition NewExemptionSet (spec : gmap string (list string)) : ExemptionSet :=
  mkExemptionSet (list_to_set <$> delete "*" spec) (list_to_set (default [] (spec !! "*"))).

Definition Exempt (e : ExemptionSet) (family : string) (field : FieldPath) : bool :=
  bool_decide (field ∈ global e) || bool_decide (field ∈ default ∅ (byFamily e !! family)).

Definition joinFieldPath (parent child : string) : string :=
  if (parent =? "")%string then child else parent +:+ "." +:+ child.

Definition ExemptKeys (e : ExemptionSet) (family : string) (parent : FieldPath) : bool :=
  Exempt e family (joinFieldPath parent "*").

(** ** matcher.go: resolving overlaps *)

(** The comparator of the sort, a total order: start, then priority (0 a pattern, 1 a heuristic),
    then the longer first, then the rule. *)
Definition prioritizedSpan : Type := Span * nat.
Definition span_before (a b : prioritizedSpan) : bool :=
  let '(sa, pa) := a in let '(sb, pb) := b in
  if negb (Start sa =? Start sb)%nat then (Start sa <? Start sb)%nat
  else if negb (pa =? pb)%nat then (pa <? pb)%nat
  else if negb (End_ sa =? End_ sb)%nat then (End_ sb <? End_ sa)%nat
  else str_leb (RuleID sa) (RuleID sb).
Definition before_span (a b : prioritizedSpan) : Prop := Is_true (span_before a b).
#[global] Instance before_span_dec : RelDecision before_span.
Proof. intros a b. unfold before_span. apply _. Defined.

Definition hit (id : string) (hits : gmap string Z) : gmap string Z :=
  <[id := default 0 (hits !! id) + 1]> hits.

(** One span against the last one kept; the list holds the last first. *)
Definition resolve_step (st : list Span * Z * gmap string Z) (s : Span) : list Span * Z * gmap string Z :=
  let '(resolved, redacted, hits) := st in
  let push := (s :: resolved, redacted + Z.of_nat (End_ s - Start s), hit (RuleID s) hits) in
  match resolved with
  | last :: r =>
      if (Start s <? End_ last)%nat then
        if (End_ last <? End_ s)%nat
        then (mkSpan (Start last) (End_ s) (RuleID last) :: r, redacted + Z.of_nat (End_ s - End_ last), hits)
        else st
      else push
  | [] => push
  end.

Definition resolveSpans (patternSpans heuristicSpans : list Span) : list Span * Z * gmap string Z :=
  let spans := map (fun s => (s, 0%nat)) patternSpans ++ map (fun s => (s, 1%nat)) heuristicSpans in
  let '(resolved, redacted, hits) :=
    foldl resolve_step ([], 0, ∅) (map fst (merge_sort before_span spans)) in
  (rev resolved, redacted, hits).

(** ** keyname.go *)

Definition secretWords : list string :=
  ["password"; "passwd"; "pwd"; "secret"; "token"; "apikey"; "credential"; "credentials"; "auth";
   "authorization"; "cookie"].
Definition keyQualifiers : list string :=
  ["api"; "secret"; "private"; "access"; "signing"; "encryption"; "auth"].

Section KeyNames.
Context {u : GoUnicode}.

Definition flush_word (cur : option string) : list string :=
  match cur with Some w => [ToLower w] | None => [] end.

(** [prev] is the byte before, [cur] the word open so far. *)
Fixpoint split_words (prev : option ascii) (cur : option string) (key : string) : list string :=
  match key with
  | "" => flush_word cur
  | String c r =>
      let one := String c "" in
      let was p := from_option p false prev in
      if (c =? "_")%char || (c =? "-")%char || (c =? ".")%char || (c =? " ")%char || (c =? ":")%char || (c =? "/")%char
      then flush_word cur ++ split_words (Some c) None r
      else if is_upper c && (was is_lower || was is_digit)
      then flush_word cur ++ split_words (Some c) (Some one) r
      else if is_upper c && was is_upper && match r with String d _ => is_lower d | "" => false end
      then flush_word cur ++ split_words (Some c) (Some one) r
      else split_words (Some c) (Some (default "" cur +:+ one)) r
  end.
Definition splitKeyWords (key : string) : list string := split_words None None key.

Definition matchesSecretKeyName (key : string) : bool :=
  match rev (splitKeyWords key) with
  | [] => false
  | last :: before =>
      bool_decide (last ∈ secretWords) ||
      (last =? "key")%string &&
      match before with q :: _ => bool_decide (q ∈ keyQualifiers) | [] => false end
  end.
End KeyNames.

(** ** drops.go *)

Definition Dropped : string := "dropped".
Definition droppedSentinel : string := Sentinel Dropped.
Definition dropMinLength : nat := 160.

(** Marks a path as descending into a string that holds a JSON document ([jsonwalk.go]). *)
Definition embeddedSuffix : string := "#json".

Definition CompiledDrops : gmap string (list string) := list_to_map [
  ("claude-code", [
    "message.content[].signature"; "message.content[].data";
    "message.content[].source.data"; "message.content[].content[].source.data";
    "attachment.prompt[].source.data"; "toolUseResult.file.base64"]);
  ("codex", [
    "payload.encrypted_content"; "payload.content[].encrypted_content";
    "payload.replacement_history[].encrypted_content";
    "payload.replacement_history[].content[].encrypted_content";
    "payload.guardian_history[].encrypted_content";
    "payload.guardian_history[].content[].encrypted_content";
    "payload.output[].encrypted_content";
    "payload.replacement_history[].output[].encrypted_content";
    "payload.guardian_history[].output[].encrypted_content";
    "payload.item.output[].encrypted_content";
    "payload.content[].image_url"; "payload.output[].image_url";
    "payload.replacement_history[].content[].image_url";
    "payload.replacement_history[].output[].image_url";
    "payload.guardian_history[].content[].image_url";
    "payload.guardian_history[].output[].image_url";
    "payload.images[]"; "payload.item.content[].image_url"; "payload.item.result";
    "payload.item.result.content[].data";
    "payload.item.result._meta.codex/toolSurface.screenshot.url";
    "payload.result"; "payload.result.Ok.content[].data"; "payload.item.output[].image_url";
    "payload.content[].audio_url"; "payload.output[].audio_url";
    "payload.replacement_history[].content[].audio_url";
    "payload.replacement_history[].output[].audio_url";
    "payload.guardian_history[].content[].audio_url";
    "payload.guardian_history[].output[].audio_url";
    "payload.item.content[].audio_url"; "payload.item.output[].audio_url";
    "payload.item.content_items[].imageUrl"; "payload.item.content_items[].audioUrl"]);
  ("pi", ["message.content[].thinkingSignature"; "message.content[].data"]);
  ("opencode", ["data.content[].state.reasoningEncryptedContent"])].

Inductive drop_error :=
  | DropNeedsFamily (family : string)
  | DropNeedsPath (family : string)
  | DropEmbedded (family path : string)
  | DropTwice (family path : string).

Fixpoint compile_paths (family : string) (paths : list string) (set : gset string)
    : result drop_error (gset string) :=
  match paths with
  | [] => Ok set
  | path :: r =>
      if (path =? "")%string then Err (DropNeedsPath family)
      else if str_contains embeddedSuffix path then Err (DropEmbedded family path)
      else if bool_decide (path ∈ set) then Err (DropTwice family path)
      else compile_paths family r ({[path]} ∪ set)
  end.

(** The families in the order the map is visited. *)
Fixpoint compileDrops (spec : list (string * list string)) (out : gmap string (gset string))
    : result drop_error (gmap string (gset string)) :=
  match spec with
  | [] => Ok out
  | (family, paths) :: r =>
      if (family =? "*")%string || (family =? "")%string then Err (DropNeedsFamily family)
      else
        let! set := compile_paths family paths ∅ in
        compileDrops r (<[family := set]> out)
  end.
