(* ===== verification/Redact.v ===== *)
(** The redaction of one value: [src/internal/transforms/scrub.go] (the engine, the plan of a value,
    escapes, the user's name, base64) and [keyNameMatcher] of [heuristic.go]. What a compiled
    regular expression finds is an interface, as it is in the source ([gatedMatcher]); the keyword
    gates, the entropy backstop and everything that combines them are the source's. *)

From S2P Require Import Prelude GoLib Prefilter Naming GoUrl Vocab Schedule Heuristic Spans.

(** [encoding/base64]: [DecodeString] of the four standard encodings. Carriage returns and newlines
    are skipped; a padded encoding wants its padding, a raw one refuses it. *)

Record Encoding := mkEncoding { url_alphabet : bool; padded : bool }.
Definition StdEncoding : Encoding := mkEncoding false true.
Definition RawStdEncoding : Encoding := mkEncoding false false.
Definition URLEncoding : Encoding := mkEncoding true true.
Definition RawURLEncoding : Encoding := mkEncoding true false.

Definition sextet (e : Encoding) (c : ascii) : option Z :=
  if is_upper c then Some (byte_code c - 65)
  else if is_lower c then Some (byte_code c - 71)
  else if is_digit c then Some (byte_code c + 4)
  else if (c =? (if url_alphabet e then "-" else "+"))%char then Some 62
  else if (c =? (if url_alphabet e then "_" else "/"))%char then Some 63
  else None.

Definition is_pad (e : Encoding) (c : ascii) : bool := padded e && (c =? "=")%char.

(** The first [n] of the three bytes of a group. *)
Definition group_bytes (n : nat) (a b c d : Z) : string :=
  let v := Z.lor (Z.lor (Z.shiftl a 18) (Z.shiftl b 12)) (Z.lor (Z.shiftl c 6) d) in
  string_of_list_ascii (take n [byte_of (Z.shiftr v 16); byte_of (Z.land (Z.shiftr v 8) 255); byte_of (Z.land v 255)]).

Fixpoint decode_groups (e : Encoding) (fuel : nat) (s : string) : option string :=
  match fuel with
  | O => None
  | S f =>
      match s with
      | "" => Some ""
      | String a (String b r) =>
          match sextet e a, sextet e b with
          | Some x, Some y =>
              match r with
              | "" => if padded e then None else Some (group_bytes 1 x y 0 0)
              | String c r =>
                  match sextet e c with
                  | Some z =>
                      match r with
                      | "" => if padded e then None else Some (group_bytes 2 x y z 0)
                      | String d r =>
                          match sextet e d with
                          | Some w => t ← decode_groups e f r; Some (group_bytes 3 x y z w +:+ t)
                          | None => if is_pad e d && (r =? "")%string then Some (group_bytes 2 x y z 0) else None
                          end
                      end
                  | None =>
                      if is_pad e c then
                        match r with
                        | String d r => if is_pad e d && (r =? "")%string then Some (group_bytes 1 x y 0 0) else None
                        | "" => None
                        end
                      else None
                  end
              end
          | _, _ => None
          end
      | String _ "" => None
      end
  end.

Fixpoint skip_newlines (s : string) : string :=
  match s with
  | "" => ""
  | String c r => if (c =? "010")%char || (c =? "013")%char then skip_newlines r else String c (skip_newlines r)
  end.

Definition DecodeString (e : Encoding) (s : string) : option string :=
  let s := skip_newlines s in decode_groups e (S (String.length s)) s.

Example decodes :
  map (fun '(e, s) => DecodeString e s)
    [(StdEncoding, "TWFu"); (StdEncoding, "TWE="); (StdEncoding, "TQ=="); (StdEncoding, "TQ"); (RawStdEncoding, "TQ");
     (RawStdEncoding, "TWE="); (StdEncoding, "TQ==x"); (URLEncoding, "-_8="); (StdEncoding, "T")]
  = [Some "Man"; Some "Ma"; Some "M"; None; Some "M"; None; None; Some (String "251" (String "255" "")); None].
Proof. vm_compute. reflexivity. Qed.

(** ** Rules *)

(** A compiled rule: [MatchScanned] is what its pattern, scanner, guard and checksum find in a value. *)
Record Rule := mkRule { rule_id : string; Keywords : list string; MatchScanned : string -> list Span }.

(** The vendored corpora, compiled; and the key-name alternation of the configured names, the spans
    being the values it captures. *)
Class Corpora := {
  packs_Load : string -> result error (list Rule);
  key_name_regexp : list string -> string -> list Span
}.

Record gatedPattern := mkGatedPattern { gp_m : string -> list Span; gp_gate : Z }.

(** ** heuristic.go: the key-name matcher *)

Record configuredName := mkConfiguredName { upper : string; cn_suffix : bool }.
Record keyNameMatcher := mkKeyNames {
  kn_re : string -> list Span;
  kn_names : list configuredName;
  kn_stems : list string
}.

Definition key_name : string := "key-name".

Definition DefaultSecretKeyNames : list string :=
  ["AWS_SECRET_ACCESS_KEY"; "AWS_SESSION_TOKEN"; "AWS_ACCESS_KEY_ID"; "ANTHROPIC_API_KEY"; "OPENAI_API_KEY";
   "GEMINI_API_KEY"; "GITHUB_TOKEN"; "GH_TOKEN"; "GITLAB_TOKEN"; "STRIPE_SECRET_KEY"; "DATABASE_URL";
   "REDIS_URL"; "*_TOKEN"; "*_SECRET"; "*_PASSWORD"; "*_APIKEY"; "*_API_KEY"; "*_PRIVATE_KEY";
   "*_CREDENTIALS"; "*_PASSWD"].

Section Engine.
Context {u : GoUnicode} {log2 : MathLog2} {corpora : Corpora}.

Definition configured (n : string) : configuredName :=
  match cut_prefix "*" n with
  | Some rest => mkConfiguredName (ToUpper rest) true
  | None => mkConfiguredName (ToUpper n) false
  end.
Definition literal_of (n : string) : string := default n (cut_prefix "*" n).

Definition newKeyNameMatcher (names : list string) : keyNameMatcher :=
  let literals := map literal_of names in
  let unfiltered := existsb (fun l => (l =? "")%string || negb (isASCII l)) literals in
  mkKeyNames
    (fun value => map (fun s => mkSpan (Start s) (End_ s) key_name) (key_name_regexp names value))
    (map configured names)
    (if unfiltered then [] else map ToLower literals).

Definition MatchesKeyName (m : keyNameMatcher) (key : string) : bool :=
  if (key =? "")%string then false
  else if matchesSecretKeyName key then true
  else
    let up := ToUpper key in
    existsb (fun n => if cn_suffix n then has_suffix (upper n) up else (up =? upper n)%string) (kn_names m).

(** ** scrub.go: the engine *)

Record Config := mkScrubConfig {
  cfg_RulePacks : list string;
  cfg_Exemptions : gmap string (list string);
  cfg_Username : string;
  cfg_SecretKeyNames : list string;
  cfg_Entropy : EntropyConfig;
  cfg_Drops : gmap string (list string)
}.

Record Scrubber := mkScrubber {
  patterns : list gatedPattern;
  entropy : option entropyMatcher;
  pathUser : string;
  keyNames : keyNameMatcher;
  exempt : ExemptionSet;
  drops : gmap string (gset string);
  prefilter : Prefilter;
  keyValue : list gatedPattern;
  keyValuePrefilter : Prefilter
}.

Definition base64MinLength : Z := 32.
Definition keyValueRules : list string := ["aws-secret-key"; "secret-access-key"].

Inductive scrub_error :=
  | NegativeMinLength
  | BadDrop (e : drop_error)
  | BadPack (e : error)
  | BadKeywords (e : prefilter_error).

Definition lift_err {E F A} (f : E -> F) (r : result E A) : result F A :=
  match r with Ok a => Ok a | Err e => Err (f e) end.

(** What [New] has gathered: the patterns, the key-and-value patterns, and a builder for each. *)
Record gathered := mkGathered {
  ga_entropy : option entropyMatcher;
  ga_patterns : list gatedPattern;
  ga_builder : PrefilterBuilder;
  ga_keyValue : list gatedPattern;
  ga_kvBuilder : PrefilterBuilder
}.

Definition add_rule (g : gathered) (r : Rule) : result scrub_error gathered :=
  let! gb := lift_err BadKeywords (AddKeywords (Keywords r) (ga_builder g)) in
  let pats := ga_patterns g ++ [mkGatedPattern (MatchScanned r) gb.1] in
  if bool_decide (rule_id r ∈ keyValueRules) then
    let! kb := lift_err BadKeywords (AddKeywords (Keywords r) (ga_kvBuilder g)) in
    Ok (mkGathered (ga_entropy g) pats gb.2
          (ga_keyValue g ++ [mkGatedPattern (MatchScanned r) kb.1]) kb.2)
  else Ok (mkGathered (ga_entropy g) pats gb.2 (ga_keyValue g) (ga_kvBuilder g)).

Fixpoint add_rules (g : gathered) (rs : list Rule) : result scrub_error gathered :=
  match rs with
  | [] => Ok g
  | r :: rest => let! g := add_rule g r in add_rules g rest
  end.

Fixpoint add_packs (cfg : Config) (g : gathered) (names : list string) : result scrub_error gathered :=
  match names with
  | [] => Ok g
  | name :: rest =>
      let! g :=
        (if (name =? generic_entropy)%string
         then Ok (mkGathered (Some (newEntropyMatcher (cfg_Entropy cfg) (cfg_Username cfg))) (ga_patterns g)
                    (ga_builder g) (ga_keyValue g) (ga_kvBuilder g))
         else let! rules := lift_err BadPack (packs_Load name) in add_rules g rules) in
      add_packs cfg g rest
  end.

(** [range] is the order the map of drops is visited in. *)
Definition New (range : gmap string (list string) -> list (string * list string)) (cfg : Config)
    : result scrub_error Scrubber :=
  let ex := NewExemptionSet (cfg_Exemptions cfg) in
  if MinLength (cfg_Entropy cfg) <? 0 then Err NegativeMinLength
  else
    let! byFam := lift_err BadDrop (compileDrops (range (cfg_Drops cfg)) ∅) in
    let byFam := map_imap (fun family set => Some (filter (fun path => Exempt ex family path = false) set)) byFam in
    let! g := add_packs cfg (mkGathered None [] NewPrefilterBuilder [] NewPrefilterBuilder) (cfg_RulePacks cfg) in
    let names := newKeyNameMatcher (cfg_SecretKeyNames cfg) in
    let! kb := lift_err BadKeywords (AddKeywords (kn_stems names) (ga_builder g)) in
    Ok (mkScrubber (ga_patterns g ++ [mkGatedPattern (kn_re names) kb.1]) (ga_entropy g) (cfg_Username cfg)
          names ex byFam (Build kb.2) (ga_keyValue g) (Build (ga_kvBuilder g))).

(** ** Plans *)

Record replacementSpan := mkReplacement { rs_Start : nat; rs_End : nat; Replacement : string }.
Record valuePlan := mkPlan { spans : list replacementSpan; redacted : Z; hits : gmap string Z }.

Fixpoint apply_from (cursor : nat) (l : list replacementSpan) (value : string) : string :=
  match l with
  | [] => str_drop cursor value
  | s :: r => slice value cursor (rs_Start s) +:+ Replacement s +:+ apply_from (rs_End s) r value
  end.
Definition plan_apply (p : valuePlan) (value : string) : string := apply_from 0 (spans p) value.

Definition whole_plan (value id : string) : valuePlan :=
  mkPlan [mkReplacement 0 (String.length value) (Sentinel id)] (slen value) {[ id := 1 ]}.

(** ** Patterns *)

Definition appendPatternSpans (s : Scrubber) (value : string) : list Span :=
  let seen := Scan (prefilter s) value in
  flat_map (fun p => if Has seen (gp_gate p) then gp_m p value else []) (patterns s).

Definition spansKeyAndValue (s : Scrubber) (doc : string) : bool :=
  match keyValue s with
  | [] => false
  | _ => let seen := Scan (keyValuePrefilter s) doc in
         existsb (fun p => Has seen (gp_gate p) && negb (bool_decide (gp_m p doc = []))) (keyValue s)
  end.

Definition keyNamesSecret (s : Scrubber) (key value : string) : bool :=
  negb (key =? "")%string && MatchesKeyName (keyNames s) key && negb (value =? "")%string &&
  negb (isSentinel value).

(** ** Escapes *)

(** A bit per byte boundary; the words of the source's bit set read as one integer, [None] when it
    was never allocated. *)
Notation bitset := Z (only parsing).
Definition setBit (b : bitset) (k : nat) : bitset := Z.lor b (Z.shiftl 1 (Z.of_nat k)).
Definition hasBit (b : bitset) (k : nat) : bool := Z.testbit b (Z.of_nat k).
Definition escapeIndex : Type := option bitset.
Definition splits_of (x : escapeIndex) : bitset := default 0 x.

Definition hex4 (s : list ascii) : option Z :=
  match s with
  | a :: b :: c :: d :: _ =>
      match IP.hex_value a, IP.hex_value b, IP.hex_value c, IP.hex_value d with
      | Some x, Some y, Some z, Some w => Some (((x * 16 + y) * 16 + z) * 16 + w)
      | _, _, _, _ => None
      end
  | _ => None
  end.

Definition backslash : ascii := "092".

(** The length of the escape that [s] begins with and the byte its shadow keeps. *)
Definition escapeAt (s : list ascii) : nat * ascii :=
  match s with
  | a :: c :: r =>
      if negb (a =? backslash)%char then (0%nat, zero)
      else if (c =? "n")%char then (2%nat, "010"%char)
      else if (c =? "t")%char then (2%nat, "009"%char)
      else if (c =? "r")%char then (2%nat, "013"%char)
      else if (c =? "034")%char || (c =? "/")%char || (c =? backslash)%char then (2%nat, c)
      else if (c =? "u")%char then
        match hex4 r with
        | None => (0%nat, zero)
        | Some n =>
            let b := byte_of n in
            (6%nat, if (n <? 128) && negb (isAlnumByte b) && negb (b =? "_")%char &&
                       negb (b =? backslash)%char && (32 <? n)
                    then b else " "%char)
        end
      else (0%nat, zero)
  | _ => (0%nat, zero)
  end.

(** One pass: [i] is the position of [s]. *)
Record shadow_state := mkShadow { sh_splits : bitset; starts : bitset; ends : bitset; again : bool }.

Definition note_escape (i n : nat) (last : ascii) (st : shadow_state) : shadow_state :=
  mkShadow (foldl setBit (sh_splits st) (map S (seq i (n - 1)))) (setBit (starts st) i)
    (setBit (ends st) (i + n)) (again st || (last =? backslash)%char).

Fixpoint shadow_pass (fuel i : nat) (s : list ascii) (st : shadow_state) : list ascii * shadow_state :=
  match fuel with
  | O => (s, st)
  | S f =>
      match s with
      | [] => ([], st)
      | c :: r =>
          let '(n, last) := escapeAt s in
          match n with
          | O => let '(out, st) := shadow_pass f (S i) r st in (c :: out, st)
          | S k =>
              let '(out, st) := shadow_pass f (i + n) (drop n s) (note_escape i n last st) in
              (replicate k " "%char ++ last :: out, st)
          end
      end
  end.

(** Passes until one leaves no backslash behind; every such pass removes at least one. *)
Fixpoint shadow_passes (fuel : nat) (s : list ascii) (st : shadow_state) : list ascii * shadow_state :=
  match fuel with
  | O => (s, st)
  | S f =>
      let '(s, st) := shadow_pass (length s) 0 s (mkShadow (sh_splits st) (starts st) (ends st) false) in
      if again st then shadow_passes f s st else (s, st)
  end.

Fixpoint has_escape (s : list ascii) : bool :=
  match s with [] => false | _ :: r => negb ((escapeAt s).1 =? 0)%nat || has_escape r end.

Definition escapeShadow (value : list ascii) : list ascii * escapeIndex :=
  if negb (has_escape value) then ([], None)
  else
    let '(shadow, st) := shadow_passes (S (length value)) value (mkShadow 0 0 0 false) in
    (shadow, Some (Z.lor (sh_splits st) (Z.land (starts st) (ends st)))).

Fixpoint snap_start (b : bitset) (start : nat) : nat :=
  match start with
  | S k => if hasBit b start then snap_start b k else start
  | O => O
  end.
Fixpoint snap_end (fuel : nat) (b : bitset) (end_ : nat) : nat :=
  match fuel with
  | O => end_
  | S f => if hasBit b end_ then snap_end f b (S end_) else end_
  end.
(** No bit lies above the highest one, so as many turns are enough. *)
Definition snap (x : escapeIndex) (s : Span) : Span :=
  let b := splits_of x in
  mkSpan (snap_start b (Start s)) (snap_end (S (Z.to_nat (Z.log2 b))) b (End_ s)) (RuleID s).
Definition snapAll (x : escapeIndex) (l : list Span) : list Span := map (snap x) l.

(** [unionSpan]: spans that overlap are folded into one under the earliest rule. *)
Definition covers (o s : Span) : bool := (Start o <=? Start s)%nat && (End_ s <=? End_ o)%nat.
Definition overlaps (o s : Span) : bool := (Start o <? End_ s)%nat && (Start s <? End_ o)%nat.

Fixpoint take_overlap (l : list Span) (s : Span) : option (Span * list Span) :=
  match l with
  | [] => None
  | o :: r =>
      if overlaps o s then Some (o, r)
      else match take_overlap r s with Some (x, r) => Some (x, o :: r) | None => None end
  end.
Fixpoint union_into (fuel : nat) (l : list Span) (s : Span) : list Span :=
  match fuel with
  | O => l ++ [s]
  | S f =>
      match take_overlap l s with
      | None => l ++ [s]
      | Some (o, l) =>
          union_into f l
            (mkSpan (Nat.min (Start s) (Start o)) (Nat.max (End_ s) (End_ o))
               (if (Start o <=? Start s)%nat then RuleID o else RuleID s))
      end
  end.
Definition unionSpan (l : list Span) (s : Span) : list Span :=
  if existsb (fun o => covers o s) l then l else union_into (length l) l s.

Definition only_backslashes (s : string) : bool := str_forallb (fun c => (c =? backslash)%char) s.

Definition unionEscapeShadow (s : Scrubber) (value shadow : string) (escapes : escapeIndex) (l : list Span)
    : list Span :=
  let l := filter (fun sp => only_backslashes (slice value (Start sp) (End_ sp)) = false) l in
  let found := snapAll escapes (appendPatternSpans s shadow) in
  foldl unionSpan (snapAll escapes l) found.

(** ** Heads and tails of heuristic runs *)

Definition start_leb (a b : Span) : Prop := (Start a <= Start b)%nat.
#[global] Instance start_leb_dec : RelDecision start_leb := fun a b => le_dec _ _.

(** The patterns from the first that ends after [run] starts. *)
Fixpoint skip_ended (run : Span) (ps : list Span) : list Span :=
  match ps with
  | p :: r => if (End_ p <=? Start run)%nat then skip_ended run r else ps
  | [] => []
  end.

Fixpoint trim_runs (m : entropyMatcher) (value : string) (escapes : escapeIndex) (runs ps : list Span)
    : list Span * list Span :=
  match runs with
  | [] => ([], [])
  | run :: rest =>
      let ps := skip_ended run ps in
      match ps with
      | p :: _ =>
          if (Start p <=? Start run)%nat || (End_ run <=? Start p)%nat
          then let '(runs, heads) := trim_runs m value escapes rest ps in (run :: runs, heads)
          else
            let first := Start p in
            let here := map (fun h => snap escapes (mkSpan (Start run + Start h) (Start run + End_ h) (RuleID h)))
                          (entropy_Match m (slice value (Start run) first)) in
            let '(runs, heads) := trim_runs m value escapes rest ps in
            (mkSpan first (End_ run) (RuleID run) :: runs, here ++ heads)
      | [] => let '(runs, heads) := trim_runs m value escapes rest ps in (run :: runs, heads)
      end
  end.
Definition trimAtPatterns (m : entropyMatcher) (value : string) (runs ps : list Span) (escapes : escapeIndex)
    : list Span :=
  let '(runs, heads) := trim_runs m value escapes runs (merge_sort start_leb ps) in runs ++ heads.
End Engine.

(** ** The user's name *)

(** [strings.Index]. *)
Fixpoint str_index (p s : string) : option nat :=
  if has_prefix p s then Some 0%nat
  else match s with "" => None | String _ r => S <$> str_index p r end.

Definition path_user : string := "path-user".

Definition alnum_at (value : string) (k : nat) : bool := from_option isAlnumByte false (String.get k value).
Definition last_alnum (r : string) : bool := alnum_at r (String.length r - 1).
Definition first_alnum (r : string) : bool := alnum_at r 0.

(** The replaced spans that end at or before [start], the last of them in hand. *)
Fixpoint skip_blocked (start : nat) (prev : option replacementSpan) (rest : list replacementSpan)
    : option replacementSpan * list replacementSpan :=
  match rest with
  | b :: r => if (rs_End b <=? start)%nat then skip_blocked start (Some b) r else (prev, rest)
  | [] => (prev, [])
  end.

Definition left_ok (value : string) (start : nat) (prev : option replacementSpan) : bool :=
  let plain := (start =? 0)%nat || negb (alnum_at value (start - 1)) in
  match prev with
  | Some b => if (rs_End b =? start)%nat then negb (last_alnum (Replacement b)) else plain
  | None => plain
  end.
Definition right_ok (value : string) (end_ : nat) (rest : list replacementSpan) : bool :=
  let plain := (end_ =? String.length value)%nat || negb (alnum_at value end_) in
  match rest with
  | b :: _ => if (rs_Start b =? end_)%nat then negb (first_alnum (Replacement b)) else plain
  | [] => plain
  end.

Fixpoint path_user_loop (fuel : nat) (value username : string) (from : nat)
    (prev : option replacementSpan) (rest : list replacementSpan) : list replacementSpan :=
  match fuel with
  | O => []
  | S f =>
      if (String.length value <? from + String.length username)%nat then []
      else
      match str_index username (str_drop from value) with
      | None => []
      | Some rel =>
          let start := (from + rel)%nat in
          let end_ := (start + String.length username)%nat in
          let '(prev, rest) := skip_blocked start prev rest in
          let next := path_user_loop f value username end_ prev rest in
          let blocked := match rest with b :: _ => (rs_Start b <? end_)%nat | [] => false end in
          if blocked then next
          else if left_ok value start prev && right_ok value end_ rest
          then mkReplacement start end_ UserPlaceholder :: next
          else next
      end
  end.

Definition pathUserReplacementSpans (value username : string) (blocked : list replacementSpan)
    : list replacementSpan * Z :=
  if (slen username <? 2) || (value =? "")%string || negb (str_contains username value) then ([], 0)
  else
    let l := path_user_loop (S (String.length value)) value username 0 None blocked in
    (l, Zlen l * slen username).

(** ** One level of base64 *)

(** [strings.TrimSpace], with the white space of Unicode. *)
Definition wide_spaces : list string :=
  map string_of_list_ascii
    (map (map ascii_of_nat)
       ([[194; 133]; [194; 160]; [225; 154; 128]; [226; 128; 168]; [226; 128; 169]; [226; 128; 175];
         [226; 129; 159]; [227; 128; 128]]%nat ++
        map (fun k => [226; 128; 128 + k]%nat) (seq 0 11))).
Definition cut_space (spaces : list string) (s : string) : option string :=
  match s with
  | "" => None
  | String c r => if is_space c then Some r else head (omap (fun w => cut_prefix w s) spaces)
  end.
Fixpoint trim_left_by (fuel : nat) (spaces : list string) (s : string) : string :=
  match fuel with
  | O => s
  | S f => match cut_space spaces s with Some r => trim_left_by f spaces r | None => s end
  end.
Definition TrimSpace (s : string) : string :=
  let s := trim_left_by (String.length s) wide_spaces s in
  str_rev (trim_left_by (String.length s) (map str_rev wide_spaces) (str_rev s)).

Definition base64Shaped (s : string) : bool :=
  str_forallb (fun c => isAlnumByte c || (c =? "+")%char || (c =? "/")%char || (c =? "=")%char ||
                        (c =? "-")%char || (c =? "_")%char || (c =? "013")%char) s.

(** The first encoding that decodes decides. *)
Fixpoint decode_first (encodings : list Encoding) (s : string) : option string :=
  match encodings with
  | [] => None
  | e :: r =>
      match DecodeString e s with
      | Some d => if (d =? "")%string then decode_first r s else Some d
      | None => decode_first r s
      end
  end.

Definition base64Hit (s : Scrubber) (value : string) : option string :=
  let trimmed := TrimSpace value in
  if negb (base64Shaped trimmed) then None
  else match decode_first [StdEncoding; RawStdEncoding; URLEncoding; RawURLEncoding] trimmed with
       | None => None
       | Some text => RuleID <$> head (appendPatternSpans s text)
       end.

(** ** The plan of a value *)

Section Plan.
Context {log2 : MathLog2}.

Definition replacement_of (s : Span) : replacementSpan :=
  mkReplacement (Start s) (End_ s) (Sentinel (RuleID s)).

Definition start_of_leb (a b : replacementSpan) : Prop := (rs_Start a <= rs_Start b)%nat.
#[global] Instance start_of_leb_dec : RelDecision start_of_leb := fun a b => le_dec _ _.

(** What the detectors found in a value: pattern spans, heuristic spans, and the escapes they were
    widened to. *)
Definition detect (s : Scrubber) (value : string) (entropy : option entropyMatcher)
    : list Span * list Span * escapeIndex :=
  let patternSpans := appendPatternSpans s value in
  let heuristicSpans := match entropy with Some m => entropy_Match m value | None => [] end in
  if str_existsb (fun c => (c =? backslash)%char) value then
    let '(shadow, escapes) := escapeShadow (list_ascii_of_string value) in
    match escapes with
    | None => (patternSpans, heuristicSpans, None)
    | Some _ => (unionEscapeShadow s value (string_of_list_ascii shadow) escapes patternSpans,
                 snapAll escapes heuristicSpans, escapes)
    end
  else (patternSpans, heuristicSpans, None).

Definition add_user (s : Scrubber) (value : string) (plan : valuePlan) : valuePlan :=
  if (pathUser s =? "")%string then plan
  else
    let '(pathSpans, n) := pathUserReplacementSpans value (pathUser s) (spans plan) in
    if 0 <? n
    then mkPlan (merge_sort start_of_leb (spans plan ++ pathSpans)) (redacted plan + n) (hit path_user (hits plan))
    else plan.

Definition planValueWith (s : Scrubber) (value : string) (entropy : option entropyMatcher) (secretKey : bool)
    : valuePlan :=
  if secretKey then whole_plan value key_name
  else
    let '(patternSpans, heuristicSpans, escapes) := detect s value entropy in
    let nothing := bool_decide (patternSpans = []) && bool_decide (heuristicSpans = []) in
    match (if nothing && (base64MinLength <=? slen value) then base64Hit s value else None) with
    | Some id => whole_plan value id
    | None =>
        let heuristicSpans :=
          match entropy, patternSpans, heuristicSpans with
          | Some m, _ :: _, _ :: _ => trimAtPatterns m value heuristicSpans patternSpans escapes
          | _, _, _ => heuristicSpans
          end in
        let '(resolved, redacted, hits) := resolveSpans patternSpans heuristicSpans in
        add_user s value (mkPlan (map replacement_of resolved) redacted hits)
    end.

Definition planValue (s : Scrubber) (value : string) (secretKey : bool) (field : FieldPath) (family : string)
    : valuePlan :=
  planValueWith s value (if Exempt (exempt s) family field then None else entropy s) secretKey.

Definition planKey (s : Scrubber) (key : string) (parent : FieldPath) (family : string) : valuePlan :=
  let field := joinFieldPath parent key in
  planValueWith s key
    (if Exempt (exempt s) family field || ExemptKeys (exempt s) family parent then None else entropy s) false.

Definition scrubRawText (s : Scrubber) (text : string) : string * valuePlan :=
  let plan := planValueWith s text None false in (plan_apply plan text, plan).
End Plan.
