(* ===== verification/SpansSafe.v ===== *)
(** What [resolveSpans] ([Spans]) promises: overlapping spans become disjoint ones, in order, that
    cover exactly what was found, each under the rule that found its first byte, and the ledger counts
    them exactly. *)

From S2P Require Import Prelude GoLib Naming GoUrl Redact Vocab Prefilter Schedule Heuristic Spans.

(** ** Resolving overlaps *)

Definition width (s : Span) : Z := Z.of_nat (End_ s - Start s).
Definition covered (l : list Span) (k : nat) : Prop := exists s, s ∈ l /\ (Start s <= k < End_ s)%nat.
Definition span_in (n : nat) (s : Span) : Prop := (Start s < End_ s)%nat /\ (End_ s <= n)%nat.

Lemma covered_cons s l k : covered (s :: l) k <-> (Start s <= k < End_ s)%nat \/ covered l k.
Proof.
  unfold covered. split.
  - intros (x & Hx & Hk). apply elem_of_cons in Hx as [->|Hx]; [by left|right; by exists x].
  - intros [Hk|(x & Hx & Hk)]; [exists s; split; [by left|done]|exists x; split; [by right|done]].
Qed.

Lemma covered_app l1 l2 k : covered (l1 ++ l2) k <-> covered l1 k \/ covered l2 k.
Proof.
  unfold covered. setoid_rewrite elem_of_app. split.
  - intros (x & [Hx|Hx] & Hk); [left|right]; by exists x.
  - intros [(x & Hx & Hk)|(x & Hx & Hk)]; exists x; split; auto.
Qed.

(** Last first: every span ends where the one after it starts, or before. *)
Fixpoint separated_rev (l : list Span) : Prop :=
  match l with
  | [] => True
  | a :: r => (Start a < End_ a)%nat /\ match r with b :: _ => (End_ b <= Start a)%nat | [] => True end /\ separated_rev r
  end.

Record resolving (input : list Span) (st : list Span * Z * gmap string Z) : Prop := {
  rv_sep : separated_rev st.1.1;
  rv_red : st.1.2 = Zsum (map width st.1.1);
  rv_cov : forall k, covered st.1.1 k <-> covered input k;
  rv_hits : forall id, default 0 (st.2 !! id) = Zlen (filter (fun s => RuleID s = id) st.1.1);
  rv_start : forall s, s ∈ st.1.1 -> exists i, i ∈ input /\ Start i = Start s /\ RuleID i = RuleID s;
  rv_end : forall s, s ∈ st.1.1 -> exists i, i ∈ input /\ End_ i = End_ s
}.

Lemma Zlen_filter_hit (s : Span) (l : list Span) id h :
  default 0 (h !! id) = Zlen (filter (fun x => RuleID x = id) l) ->
  default 0 (hit (RuleID s) h !! id) = Zlen (filter (fun x => RuleID x = id) (s :: l)).
Proof.
  intros H. rewrite filter_cons. unfold hit. destruct (decide (RuleID s = id)) as [->|Hne].
  - rewrite lookup_insert_eq, Zlen_cons, <- H. cbn. lia.
  - by rewrite lookup_insert_ne.
Qed.

Lemma resolve_step_ok input st s :
  resolving input st -> (Start s < End_ s)%nat ->
  (forall a, head st.1.1 = Some a -> (Start a <= Start s)%nat) ->
  resolving (input ++ [s]) (resolve_step st s) /\
  forall a, head (resolve_step st s).1.1 = Some a -> (Start a <= Start s)%nat.
Proof.
  destruct st as [[res red] hits]. intros [Hsep Hred Hcov Hhits Hst Hen] Hs Hle. cbn [fst snd] in *.
  assert (forall k, covered (input ++ [s]) k <-> covered input k \/ (Start s <= k < End_ s)%nat) as Hin.
  { intros k. rewrite covered_app, covered_cons. split; [intros [?|[?|(? & H & _)]]; auto|intros [?|?]; auto].
    by apply elem_of_nil in H. }
  assert (forall P : Span -> Prop, (exists i, i ∈ input /\ P i) -> exists i, i ∈ input ++ [s] /\ P i) as Hmono.
  { intros P (i & Hi & HP). exists i. split; [apply elem_of_app; by left|done]. }
  assert (s ∈ input ++ [s]) as Hself by (apply elem_of_app; right; by left).
  assert (resolving (input ++ [s]) (s :: res, red + Z.of_nat (End_ s - Start s), hit (RuleID s) hits) \/ 
    exists last r, res = last :: r /\ (Start s < End_ last)%nat) as Hcase.
  { destruct res as [|last r].
    - left. constructor; cbn [fst snd].
      + done.
      + rewrite Hred. cbn. unfold width. lia.
      + intros k. rewrite covered_cons, Hin, Hcov. tauto.
      + intros id. by apply Zlen_filter_hit.
      + intros x Hx. apply elem_of_cons in Hx as [->|Hx]; [by exists s|by apply elem_of_nil in Hx].
      + intros x Hx. apply elem_of_cons in Hx as [->|Hx]; [by exists s|by apply elem_of_nil in Hx].
    - destruct (decide (Start s < End_ last)%nat) as [Hlt|Hge]; [right; by exists last, r|left].
      constructor; cbn [fst snd].
      + split; [done|]. split; [lia|done].
      + rewrite Hred. cbn [map Zsum foldr]. unfold width at 3. unfold Zsum. lia.
      + intros k. rewrite covered_cons, Hin, Hcov. tauto.
      + intros id. by apply Zlen_filter_hit.
      + intros x Hx. apply elem_of_cons in Hx as [->|Hx]; [by exists s|]. by apply Hmono, Hst.
      + intros x Hx. apply elem_of_cons in Hx as [->|Hx]; [by exists s|]. by apply Hmono, Hen. }
  unfold resolve_step. destruct res as [|last r].
  { destruct Hcase as [H|(? & ? & [=] & _)]. split; [done|]. intros a [= <-]. lia. }
  destruct (Start s <? End_ last)%nat eqn:E1.
  2:{ destruct Hcase as [H|(? & ? & [= <- <-] & H)]; [|apply Nat.ltb_ge in E1; lia].
      split; [done|]. intros a [= <-]. lia. }
  apply Nat.ltb_lt in E1. specialize (Hle last eq_refl).
  destruct (End_ last <? End_ s)%nat eqn:E2; [apply Nat.ltb_lt in E2|apply Nat.ltb_ge in E2]; cbn [fst snd].
  - split; [|intros a [= <-]; cbn; lia]. constructor; cbn [fst snd].
    + destruct Hsep as (H1 & H2 & H3). split; [cbn; lia|done].
    + destruct Hsep as (H1 & _). rewrite Hred. cbn [map Zsum foldr]. unfold width at 1 3. unfold Zsum. cbn. lia.
    + intros k. rewrite Hin, <- Hcov, !covered_cons. cbn. split; intros H.
      * destruct H as [H|H]; [|tauto]. destruct (decide (k < End_ last)%nat); [left; left; lia|right; lia].
      * destruct H as [[H|H]|H]; [left; lia|tauto|left; lia].
    + intros id. rewrite Hhits, !filter_cons. cbn [RuleID]. case_decide; [by rewrite !Zlen_cons|done].
    + intros x Hx. apply elem_of_cons in Hx as [->|Hx]; cbn; apply Hmono; [apply Hst; by left|apply Hst; by right].
    + intros x Hx. apply elem_of_cons in Hx as [->|Hx]; cbn; [by exists s|apply Hmono, Hen; by right].
  - split; [|intros a [= <-]; cbn; lia]. constructor; cbn [fst snd]; try done.
    + intros k. rewrite Hin, <- Hcov, !covered_cons. split; [tauto|]. intros [H|H]; [done|left; lia].
    + intros x Hx. by apply Hmono, Hst.
    + intros x Hx. by apply Hmono, Hen.
Qed.

Lemma resolving_nil : resolving [] ([], 0, ∅).
Proof.
  constructor; cbn [fst snd]; try done; intros s Hs; by apply elem_of_nil in Hs.
Qed.

Definition starts_sorted (l : list Span) : Prop := StronglySorted (fun a b => (Start a <= Start b)%nat) l.

Lemma resolve_all l input st :
  resolving input st -> Forall (fun s => (Start s < End_ s)%nat) l -> starts_sorted l ->
  (forall a s, head st.1.1 = Some a -> s ∈ l -> (Start a <= Start s)%nat) ->
  resolving (input ++ l) (foldl resolve_step st l).
Proof.
  revert input st. induction l as [|s l IH]; intros input st Hr Hl Hs Hle; cbn [foldl].
  { by rewrite app_nil_r. }
  apply Forall_cons in Hl as [H1 Hl]. apply StronglySorted_inv in Hs as [Hs Hhd].
  destruct (resolve_step_ok input st s Hr H1) as [Hr' Hle'].
  { intros a Ha. apply (Hle a s Ha). by left. }
  rewrite cons_middle, app_assoc. apply IH; [done..|].
  intros a x Ha Hx. specialize (Hle' a Ha). pose proof (proj1 (Forall_forall _ _) Hhd x Hx). cbn in *. lia.
Qed.

Lemma span_before_start a b : before_span a b -> (Start a.1 <= Start b.1)%nat.
Proof.
  destruct a as [sa pa], b as [sb pb]. unfold before_span, span_before. cbn.
  destruct (Nat.eqb_spec (Start sa) (Start sb)) as [->|Hne]; [done|]. cbn. intros H.
  apply Is_true_true, Nat.ltb_lt in H. lia.
Qed.

#[export] Instance before_span_total : Total before_span.
Proof.
  intros [sa pa] [sb pb]. unfold before_span, span_before.
  destruct (Nat.eqb_spec (Start sa) (Start sb)) as [->|Hne]; cbn [negb].
  2:{ rewrite (proj2 (Nat.eqb_neq (Start sb) (Start sa))) by done. cbn [negb].
      destruct (Nat.ltb_spec (Start sa) (Start sb)); [by left|right]. apply Is_true_true, Nat.ltb_lt. lia. }
  rewrite Nat.eqb_refl. cbn [negb].
  destruct (Nat.eqb_spec pa pb) as [->|Hne]; cbn [negb].
  2:{ rewrite (proj2 (Nat.eqb_neq pb pa)) by done. cbn [negb].
      destruct (Nat.ltb_spec pa pb); [by left|right]. apply Is_true_true, Nat.ltb_lt. lia. }
  rewrite Nat.eqb_refl. cbn [negb].
  destruct (Nat.eqb_spec (End_ sa) (End_ sb)) as [->|Hne]; cbn [negb].
  2:{ rewrite (proj2 (Nat.eqb_neq (End_ sb) (End_ sa))) by done. cbn [negb].
      destruct (Nat.ltb_spec (End_ sb) (End_ sa)); [by left|right]. apply Is_true_true, Nat.ltb_lt. lia. }
  rewrite Nat.eqb_refl. cbn [negb].
  destruct (str_leb_total (RuleID sa) (RuleID sb)) as [->| ->]; [by left|by right].
Qed.

Lemma sorted_starts t :
  Sorted before_span t -> Sorted (fun a b => (Start a <= Start b)%nat) (map fst t).
Proof.
  induction 1 as [|a l' Hs IH Hd]; cbn; constructor; [done|].
  destruct Hd as [|b l' Hb]; cbn; constructor. by apply span_before_start.
Qed.

(** In order: every span starts where the one before it ends, or after, and all lie in the value. *)
Fixpoint separated (l : list Span) : Prop :=
  match l with
  | [] => True
  | a :: r => (Start a < End_ a)%nat /\ match r with b :: _ => (End_ a <= Start b)%nat | [] => True end /\ separated r
  end.

Lemma separated_snoc l a :
  separated l -> (Start a < End_ a)%nat ->
  match last l with Some b => (End_ b <= Start a)%nat | None => True end -> separated (l ++ [a]).
Proof.
  induction l as [|x l IH]; [done|]. intros (H1 & H2 & H3) Ha Hlast. cbn [app separated].
  destruct l as [|y l]; [by split|]. split; [done|]. split; [done|]. by apply IH.
Qed.

Lemma separated_rev_ok l : separated_rev l -> separated (rev l).
Proof.
  induction l as [|a l IH]; [done|]. intros (H1 & H2 & H3). cbn [rev].
  apply separated_snoc; [by apply IH|done|]. destruct l as [|b l]; [done|]. cbn [rev]. by rewrite last_snoc.
Qed.

(** What [resolveSpans] answers: disjoint spans in order that cover exactly what was found, each
    starting, under its rule, and ending where a found span does, and an exact ledger. *)
Record resolved_ok (input res : list Span) (red : Z) (hits : gmap string Z) : Prop := {
  ro_sep : separated res;
  ro_red : red = Zsum (map width res);
  ro_cov : forall k, covered res k <-> covered input k;
  ro_hits : forall id, default 0 (hits !! id) = Zlen (filter (fun s => RuleID s = id) res);
  ro_start : forall s, s ∈ res -> exists i, i ∈ input /\ Start i = Start s /\ RuleID i = RuleID s;
  ro_end : forall s, s ∈ res -> exists i, i ∈ input /\ End_ i = End_ s
}.

Lemma covered_perm l1 l2 k : (forall s, s ∈ l1 <-> s ∈ l2) -> covered l1 k <-> covered l2 k.
Proof. intros H. unfold covered. by setoid_rewrite H. Qed.

Lemma resolveSpans_spec ps hs :
  Forall (fun s => (Start s < End_ s)%nat) (ps ++ hs) ->
  let '(res, red, hits) := resolveSpans ps hs in resolved_ok (ps ++ hs) res red hits.
Proof.
  intros Hall. unfold resolveSpans. set (tagged := map _ ps ++ map _ hs).
  set (l := map fst (merge_sort before_span tagged)).
  assert (Permutation l (ps ++ hs)) as Hperm.
  { unfold l. rewrite merge_sort_Permutation. unfold tagged. rewrite map_app, !List.map_map.
    cbn [fst]. by rewrite !List.map_id. }
  assert (starts_sorted l) as Hsorted.
  { unfold l, starts_sorted. apply Sorted_StronglySorted; [intros a b c; lia|].
    apply sorted_starts, (Sorted_merge_sort _). }
  pose proof (resolve_all l [] ([], 0, ∅)) as H.
  destruct (foldl resolve_step ([], 0, ∅) l) as [[res red] hits]. cbn [app] in H.
  destruct H as [H1 H2 H3 H4 H5 H6].
  - apply resolving_nil.
  - by rewrite Hperm.
  - done.
  - done.
  - cbn [fst snd] in *.
    assert (forall s, s ∈ rev res <-> s ∈ res) as Hrev by (intros s; by rewrite <- (Permutation_rev res)).
    constructor.
    + by apply separated_rev_ok.
    + rewrite H2. apply Zsum_perm. apply Permutation_map. apply Permutation_rev.
    + intros k. rewrite (covered_perm (rev res) res) by apply Hrev.
      rewrite H3. apply covered_perm. intros s. by rewrite Hperm.
    + intros id. rewrite H4. unfold Zlen. f_equal. apply Permutation_length, filter_Permutation, Permutation_rev.
    + intros s Hs. apply Hrev in Hs. destruct (H5 s Hs) as (i & Hi & E). exists i. by rewrite <- Hperm.
    + intros s Hs. apply Hrev in Hs. destruct (H6 s Hs) as (i & Hi & E). exists i. by rewrite <- Hperm.
Qed.
