(* ===== verification/EscapeSafe.v ===== *)
(** What the escape index of a value promises ([Redact]): the shadow of a value settles, spans widened
    to whole escapes cut none, and folding hits together loses no byte. *)

From S2P Require Import Prelude GoLib Naming GoUrl Redact Vocab Prefilter Schedule Heuristic Spans SpansSafe.

(** ** Escapes *)

Lemma escapeAt_bound s : (0 < (escapeAt s).1)%nat -> ((escapeAt s).1 <= length s)%nat.
Proof.
  unfold escapeAt. destruct s as [|a [|c r]]; cbn [fst]; [lia|lia|]. cbn [length].
  destruct (negb _); cbn [fst]; [lia|]. destruct (c =? "n")%char; cbn [fst]; [lia|].
  destruct (c =? "t")%char; cbn [fst]; [lia|]. destruct (c =? "r")%char; cbn [fst]; [lia|].
  destruct (_ || _); cbn [fst]; [lia|]. destruct (c =? "u")%char; cbn [fst]; [|lia].
  destruct (hex4 r) eqn:E; cbn [fst]; [|lia]. unfold hex4 in E.
  destruct r as [|? [|? [|? [|? ?]]]]; try discriminate. cbn. lia.
Qed.

Lemma hasBit_setBit b k j : hasBit (setBit b k) j = true <-> hasBit b j = true \/ j = k.
Proof.
  unfold hasBit, setBit. rewrite Z.lor_spec, Z.shiftl_spec, orb_true_iff by lia.
  split; intros [H|H]; try (by left); right.
  - destruct (decide (j = k)) as [|Hne]; [done|]. exfalso.
    destruct (Z_lt_dec (Z.of_nat j - Z.of_nat k) 0); [by rewrite Z.testbit_neg_r in H|].
    change 1 with (2 ^ 0) in H. rewrite Z.pow2_bits_eqb in H by lia. apply Z.eqb_eq in H. lia.
  - subst j. by rewrite Z.sub_diag.
Qed.

Lemma hasBit_setBits l b j : hasBit (foldl setBit b l) j = true <-> hasBit b j = true \/ j ∈ l.
Proof.
  revert b. induction l as [|k l IH]; intros b; cbn [foldl].
  - split; [by left|]. intros [H|H]; [done|by apply elem_of_nil in H].
  - rewrite IH, hasBit_setBit, elem_of_cons. tauto.
Qed.

Lemma setBit_nonneg b k : 0 <= b -> 0 <= setBit b k.
Proof. intros H. apply Z.lor_nonneg. split; [done|]. by apply Z.shiftl_nonneg. Qed.
Lemma setBits_nonneg l b : 0 <= b -> 0 <= foldl setBit b l.
Proof. revert b. induction l as [|k l IH]; intros b H; cbn; [done|]. by apply IH, setBit_nonneg. Qed.

(** The bits of a value of [n] bytes: all strictly inside it. *)
Record bits_in (n : nat) (st : shadow_state) : Prop := {
  bi_splits : forall k, hasBit (sh_splits st) k = true -> (0 < k < n)%nat;
  bi_starts : forall k, hasBit (starts st) k = true -> (k < n)%nat;
  bi_ends : forall k, hasBit (ends st) k = true -> (0 < k)%nat;
  bi_nonneg : 0 <= sh_splits st /\ 0 <= starts st /\ 0 <= ends st
}.

Lemma note_escape_in n i k last st :
  bits_in n st -> (0 < k)%nat -> (i + k <= n)%nat -> bits_in n (note_escape i k last st).
Proof.
  intros [H1 H2 H3 (H4 & H5 & H6)] Hk Hi. constructor; cbn.
  - intros j Hj. apply hasBit_setBits in Hj as [Hj|Hj]; [by apply H1|].
    apply list_elem_of_fmap in Hj as (x & -> & Hx). apply elem_of_seq in Hx. lia.
  - intros j Hj. apply hasBit_setBit in Hj as [Hj| ->]; [by apply H2|lia].
  - intros j Hj. apply hasBit_setBit in Hj as [Hj| ->]; [by apply H3|lia].
  - split_and!; [by apply setBits_nonneg|by apply setBit_nonneg|by apply setBit_nonneg].
Qed.

Lemma shadow_pass_spec fuel i s st n :
  bits_in n st -> (i + length s = n)%nat ->
  let '(out, st') := shadow_pass fuel i s st in
  length out = length s /\ bits_in n st' /\
  (forall k, hasBit (sh_splits st) k = true -> hasBit (sh_splits st') k = true).
Proof.
  revert i s st. induction fuel as [|fuel IH]; intros i s st Hb Hi; cbn [shadow_pass]; [done|].
  destruct s as [|c r]; [done|]. pose proof (escapeAt_bound (c :: r)) as Hbound.
  destruct (escapeAt (c :: r)) as [[|k] last] eqn:E; cbn [fst] in *.
  - specialize (IH (S i) r st Hb ltac:(cbn in Hi; lia)). destruct (shadow_pass fuel (S i) r st) as [out st'].
    destruct IH as (H1 & H2 & H3). cbn. split_and!; [lia|done|done].
  - specialize (Hbound ltac:(lia)).
    assert (bits_in n (note_escape i (S k) last st)) as Hb' by (apply note_escape_in; [done|lia|lia]).
    specialize (IH (i + S k)%nat (drop (S k) (c :: r)) _ Hb').
    rewrite length_drop in IH. specialize (IH ltac:(lia)).
    destruct (shadow_pass fuel (i + S k) (drop (S k) (c :: r)) (note_escape i (S k) last st)) as [out st'].
    destruct IH as (H1 & H2 & H3). split_and!; [|done|].
    + rewrite length_app, length_replicate. cbn [length]. rewrite H1. cbn [length] in *. lia.
    + intros j Hj. apply H3. cbn. apply hasBit_setBits. by left.
Qed.

Lemma shadow_passes_spec fuel s st n :
  bits_in n st -> length s = n ->
  let '(out, st') := shadow_passes fuel s st in
  length out = n /\ bits_in n st' /\
  (forall k, hasBit (sh_splits st) k = true -> hasBit (sh_splits st') k = true).
Proof.
  revert s st. induction fuel as [|fuel IH]; intros s st Hb Hs; cbn [shadow_passes]; [done|].
  set (st0 := mkShadow _ _ _ _). assert (bits_in n st0) as Hb0 by (by destruct Hb; constructor).
  pose proof (shadow_pass_spec (length s) 0 s st0 n Hb0 ltac:(lia)) as H.
  destruct (shadow_pass (length s) 0 s st0) as [out st1]. destruct H as (H1 & H2 & H3).
  destruct (again st1); [|split_and!; [lia|done|done]].
  specialize (IH out st1 H2 ltac:(lia)). destruct (shadow_passes fuel out st1) as [out' st'].
  destruct IH as (H4 & H5 & H6). split_and!; [done|done|]. intros k Hk. by apply H6, H3.
Qed.

Record escapes_ok (n : nat) (x : escapeIndex) : Prop := {
  ek_in : forall k, hasBit (splits_of x) k = true -> (0 < k < n)%nat;
  ek_nonneg : 0 <= splits_of x
}.

Lemma hasBit_0 k : hasBit 0 k = false.
Proof. apply Z.bits_0. Qed.

Lemma escapeShadow_spec value :
  let '(shadow, x) := escapeShadow value in
  escapes_ok (length value) x /\ (x <> None -> length shadow = length value).
Proof.
  unfold escapeShadow. destruct (negb _).
  { split; [|done]. constructor; [|done]. cbn. intros k. by rewrite hasBit_0. }
  assert (bits_in (length value) (mkShadow 0 0 0 false)) as Hb.
  { constructor; cbn; [intros k; by rewrite hasBit_0..|done]. }
  pose proof (shadow_passes_spec (S (length value)) value _ (length value) Hb eq_refl) as H.
  destruct (shadow_passes _ _ _) as [out st]. destruct H as (H1 & [H2 H3 H4 (H5 & H6 & H7)] & _).
  split; [|done]. constructor.
  - intros k. cbn. unfold hasBit. rewrite Z.lor_spec, Z.land_spec, orb_true_iff, andb_true_iff.
    intros [H|[Ha Hc]]; [by apply H2|]. split; [by apply H4|by apply H3].
  - cbn. apply Z.lor_nonneg. split; [done|]. apply Z.land_nonneg. by left.
Qed.

(** *** Widening to whole escapes *)

Lemma snap_start_spec b k :
  (snap_start b k <= k)%nat /\ (snap_start b k = 0%nat \/ hasBit b (snap_start b k) = false).
Proof.
  induction k as [|k IH]; cbn [snap_start]; [by split; [|left]|].
  destruct (hasBit b (S k)) eqn:E; [|by split; [|right]]. destruct IH as [H1 H2]. split; [lia|done].
Qed.

Lemma snap_end_spec n b fuel k :
  (forall j, hasBit b j = true -> (j < n)%nat) -> (k <= n)%nat -> (n <= fuel + k)%nat ->
  (k <= snap_end fuel b k <= n)%nat /\ hasBit b (snap_end fuel b k) = false.
Proof.
  intros Hb. revert k. induction fuel as [|fuel IH]; intros k Hk Hf; cbn [snap_end].
  { split; [lia|]. destruct (hasBit b k) eqn:E; [|done]. apply Hb in E. lia. }
  destruct (hasBit b k) eqn:E; [|by split; [lia|]]. pose proof (Hb k E).
  destruct (IH (S k) ltac:(lia) ltac:(lia)) as [H1 H2]. split; [lia|done].
Qed.

Lemma snap_end_stop b fuel k : hasBit b k = false -> snap_end fuel b k = k.
Proof. intros H. destruct fuel; cbn; [done|by rewrite H]. Qed.

Lemma snap_end_fuel b k : 0 <= b ->
  hasBit b (snap_end (S (Z.to_nat (Z.log2 b))) b k) = false.
Proof.
  intros Hb. assert (forall j, hasBit b j = true -> (j <= Z.to_nat (Z.log2 b))%nat) as Hlog.
  { intros j Hj. destruct (decide (j <= Z.to_nat (Z.log2 b))%nat) as [|Hgt]; [done|]. unfold hasBit in Hj.
    rewrite Z.bits_above_log2 in Hj by lia. done. }
  destruct (decide (k <= S (Z.to_nat (Z.log2 b)))%nat) as [Hk|Hk].
  - apply (snap_end_spec (S (Z.to_nat (Z.log2 b)))); [|done|lia]. intros j Hj. apply Hlog in Hj. lia.
  - rewrite snap_end_stop; destruct (hasBit b k) eqn:E; try done; apply Hlog in E; lia.
Qed.

(** A cut at [k] splits no escape. *)
Definition clean (x : escapeIndex) (k : nat) : Prop := hasBit (splits_of x) k = false.
Definition clean_span (x : escapeIndex) (s : Span) : Prop := clean x (Start s) /\ clean x (End_ s).

Lemma clean_None k : clean None k.
Proof. apply hasBit_0. Qed.

Lemma snap_spec n x s :
  escapes_ok n x -> span_in n s ->
  span_in n (snap x s) /\ clean_span x (snap x s) /\
  (Start (snap x s) <= Start s)%nat /\ (End_ s <= End_ (snap x s))%nat.
Proof.
  intros [H1 H2] [H3 H4]. unfold snap, clean_span, clean, span_in. cbn [Start End_].
  destruct (snap_start_spec (splits_of x) (Start s)) as [H5 H6].
  pose proof (snap_end_fuel (splits_of x) (End_ s) H2) as H7.
  assert (forall f k, (k <= n)%nat -> (k <= snap_end f (splits_of x) k <= n)%nat) as H8.
  { induction f as [|f IH]; intros k Hk; cbn; [lia|]. destruct (hasBit (splits_of x) k) eqn:E; [|lia].
    apply H1 in E. specialize (IH (S k) ltac:(lia)). lia. }
  specialize (H8 (S (Z.to_nat (Z.log2 (splits_of x)))) (End_ s) H4).
  split_and!; try lia; [|done]. destruct H6 as [->|H6]; [|done].
  destruct (hasBit (splits_of x) 0) eqn:E; [|done]. apply H1 in E. lia.
Qed.

Lemma snapAll_spec n x l :
  escapes_ok n x -> Forall (span_in n) l ->
  Forall (span_in n) (snapAll x l) /\ Forall (clean_span x) (snapAll x l) /\
  forall k, covered l k -> covered (snapAll x l) k.
Proof.
  intros Hx Hl. unfold snapAll. rewrite !Forall_map. split_and!.
  - eapply Forall_impl; [exact Hl|]. intros s Hs. by apply (snap_spec n x s).
  - eapply Forall_impl; [exact Hl|]. intros s Hs. by apply (snap_spec n x s).
  - intros k (s & Hs & Hk). pose proof (proj1 (Forall_forall _ _) Hl s Hs) as Hin.
    destruct (snap_spec n x s Hx Hin) as (_ & _ & H1 & H2). exists (snap x s). split; [|lia].
    apply list_elem_of_fmap. by exists s.
Qed.

(** *** Folding the hits on the shadow in *)

Lemma Forall_snoc_1 {A} (P : A -> Prop) l a : Forall P l -> P a -> Forall P (l ++ [a]).
Proof. intros H1 H2. apply Forall_app. split; [done|]. constructor; [done|constructor]. Qed.

Lemma take_overlap_spec l s o r : take_overlap l s = Some (o, r) -> l ≡ₚ o :: r /\ overlaps o s = true.
Proof.
  revert o r. induction l as [|x l IH]; intros o r; cbn [take_overlap]; [done|].
  destruct (overlaps x s) eqn:E; [by intros [= <- <-]|].
  destruct (take_overlap l s) as [[y q]|]; [|done]. intros [= <- <-].
  destruct (IH _ _ eq_refl) as [H1 H2]. split; [|done]. rewrite H1. apply perm_swap.
Qed.

Lemma union_into_spec n x fuel l s :
  Forall (span_in n) l -> span_in n s -> Forall (clean_span x) l -> clean_span x s ->
  Forall (span_in n) (union_into fuel l s) /\ Forall (clean_span x) (union_into fuel l s) /\
  forall k, covered l k \/ (Start s <= k < End_ s)%nat -> covered (union_into fuel l s) k.
Proof.
  revert l s. induction fuel as [|fuel IH]; intros l s Hl Hs Hcl Hcs; cbn [union_into].
  1: { split_and!; [by apply Forall_snoc_1..|]. intros k Hk. rewrite covered_app, covered_cons. tauto. }
  destruct (take_overlap l s) as [[o r]|] eqn:E.
  2:{ split_and!; [by apply Forall_snoc_1..|]. intros k Hk. rewrite covered_app, covered_cons. tauto. }
  apply take_overlap_spec in E as [Hp Ho]. rewrite Hp in Hl, Hcl.
  apply Forall_cons in Hl as [Ho1 Hr], Hcl as [Ho2 Hcr]. set (s' := mkSpan _ _ _).
  destruct (IH r s') as (H1 & H2 & H3); [done| |done| |].
  - destruct Hs, Ho1. unfold span_in. cbn. lia.
  - destruct Hcs, Ho2. split; cbn; [destruct (Nat.min_dec (Start s) (Start o)) as [->| ->]
      |destruct (Nat.max_dec (End_ s) (End_ o)) as [->| ->]]; done.
  - split_and!; [done|done|]. intros k Hk. apply H3. cbn. destruct Hk as [Hk|Hk]; [|right; lia].
    apply (covered_perm _ (o :: r)) in Hk; [|intros y; by rewrite Hp]. apply covered_cons in Hk as [Hk|Hk]; [right; lia|by left].
Qed.

Lemma unionSpan_spec n x l s :
  Forall (span_in n) l -> span_in n s -> Forall (clean_span x) l -> clean_span x s ->
  Forall (span_in n) (unionSpan l s) /\ Forall (clean_span x) (unionSpan l s) /\
  forall k, covered l k \/ (Start s <= k < End_ s)%nat -> covered (unionSpan l s) k.
Proof.
  intros Hl Hs Hcl Hcs. unfold unionSpan. destruct (existsb _ _) eqn:E; [|by apply union_into_spec].
  split_and!; [done|done|]. intros k [Hk|Hk]; [done|].
  apply existsb_exists in E as (o & Ho & E). apply list_elem_of_In in Ho. unfold covers in E.
  apply andb_true_iff in E as [E1 E2]. apply Nat.leb_le in E1, E2. exists o. split; [done|lia].
Qed.

Lemma unionSpans_spec n x found l :
  Forall (span_in n) l -> Forall (span_in n) found -> Forall (clean_span x) l -> Forall (clean_span x) found ->
  Forall (span_in n) (foldl unionSpan l found) /\ Forall (clean_span x) (foldl unionSpan l found) /\
  forall k, covered l k \/ covered found k -> covered (foldl unionSpan l found) k.
Proof.
  revert l. induction found as [|s found IH]; intros l Hl Hf Hcl Hcf; cbn [foldl].
  - split_and!; [done|done|]. intros k [H|(s & H & _)]; [done|by apply elem_of_nil in H].
  - apply Forall_cons in Hf as [Hs Hf], Hcf as [Hcs Hcf].
    destruct (unionSpan_spec n x l s Hl Hs Hcl Hcs) as (H1 & H2 & H3).
    destruct (IH _ H1 Hf H2 Hcf) as (H4 & H5 & H6). split_and!; [done|done|]. intros k Hk. apply H6.
    rewrite covered_cons in Hk. destruct Hk as [Hk|[Hk|Hk]]; [left; auto|left; auto|by right].
Qed.

(** *** The escapes of a value *)

(** The escapes found reading from left to right: where each starts and how long it is. *)
Fixpoint escapes_from (fuel i : nat) (s : list ascii) : list (nat * nat) :=
  match fuel, s with
  | S f, _ :: r =>
      match (escapeAt s).1 with
      | O => escapes_from f (S i) r
      | S k => (i, S k) :: escapes_from f (i + S k) (drop (S k) s)
      end
  | _, _ => []
  end.
Definition escapes_of (value : string) : list (nat * nat) :=
  escapes_from (String.length value) 0 (list_ascii_of_string value).

Lemma shadow_pass_bits fuel : forall i s st p n j,
  (p, n) ∈ escapes_from fuel i s -> (p < j < p + n)%nat -> hasBit (sh_splits (shadow_pass fuel i s st).2) j = true.
Proof.
  assert (forall fuel i s st j, hasBit (sh_splits st) j = true ->
    hasBit (sh_splits (shadow_pass fuel i s st).2) j = true) as Hmono.
  { induction fuel0 as [|f IH]; intros i s st j Hj; cbn [shadow_pass]; [done|]. destruct s as [|c r]; [done|].
    destruct (escapeAt (c :: r)) as [[|k] last].
    - specialize (IH (S i) r st j Hj). by destruct (shadow_pass f (S i) r st).
    - specialize (IH (i + S k)%nat (drop (S k) (c :: r)) (note_escape i (S k) last st) j).
      destruct (shadow_pass f (i + S k) _ _). apply IH. cbn. apply hasBit_setBits. by left. }
  induction fuel as [|f IH]; intros i s st p n j Hin Hj; cbn [escapes_from shadow_pass] in *; [by apply elem_of_nil in Hin|].
  destruct s as [|c r]; [by apply elem_of_nil in Hin|].
  destruct (escapeAt (c :: r)) as [[|k] last]; cbn [fst] in Hin.
  - specialize (IH (S i) r st p n j Hin Hj). by destruct (shadow_pass f (S i) r st).
  - specialize (Hmono f (i + S k)%nat (drop (S k) (c :: r)) (note_escape i (S k) last st) j).
    specialize (IH (i + S k)%nat (drop (S k) (c :: r)) (note_escape i (S k) last st) p n j).
    destruct (shadow_pass f (i + S k) _ _) as [out st']. cbn [snd] in *.
    apply elem_of_cons in Hin as [[= -> ->]|Hin]; [|by apply IH]. apply Hmono. cbn.
    apply hasBit_setBits. right. apply list_elem_of_fmap. exists (j - 1)%nat. split; [lia|].
    apply elem_of_seq. lia.
Qed.

Lemma no_escape_none fuel i s : has_escape s = false -> escapes_from fuel i s = [].
Proof.
  revert i s. induction fuel as [|f IH]; intros i s H; [done|]. destruct s as [|c r]; [done|].
  cbn [has_escape] in H. apply orb_false_iff in H as [H1 H2]. apply negb_false_iff, Nat.eqb_eq in H1.
  cbn [escapes_from]. rewrite H1. by apply IH.
Qed.

(** A clean cut falls inside no escape. *)
Lemma clean_cut value x p n k :
  (escapeShadow (list_ascii_of_string value)).2 = x -> (p, n) ∈ escapes_of value -> clean x k ->
  ~ (p < k < p + n)%nat.
Proof.
  intros <- Hin Hc Hk. unfold clean, escapeShadow in Hc. set (l := list_ascii_of_string value) in *.
  destruct (has_escape l) eqn:E; cbn [negb] in Hc.
  2:{ unfold escapes_of in Hin. fold l in Hin. rewrite no_escape_none in Hin by done. by apply elem_of_nil in Hin. }
  change (shadow_passes (S (length l)) l (mkShadow 0 0 0 false)) with
    (let '(s, st) := shadow_pass (length l) 0 l (mkShadow 0 0 0 false) in
     if again st then shadow_passes (length l) s st else (s, st)) in Hc.
  unfold escapes_of in Hin. rewrite <- length_list_ascii in Hin. fold l in Hin.
  pose proof (shadow_pass_bits _ _ _ (mkShadow 0 0 0 false) _ _ k Hin Hk) as Hbit.
  assert (bits_in (length l) (mkShadow 0 0 0 false)) as Hb.
  { constructor; cbn; [intros j; by rewrite hasBit_0..|done]. }
  pose proof (shadow_pass_spec (length l) 0 l _ _ Hb ltac:(lia)) as H.
  destruct (shadow_pass (length l) 0 l _) as [s1 st1]. cbn [snd] in Hbit. destruct H as (H1 & H2 & _).
  assert (hasBit (sh_splits (if again st1 then shadow_passes (length l) s1 st1 else (s1, st1)).2) k = true) as Hb1.
  { destruct (again st1); [|done]. pose proof (shadow_passes_spec (length l) s1 st1 _ H2 H1) as H.
    destruct (shadow_passes _ _ _) as [s2 st2]. destruct H as (_ & _ & H). by apply H. }
  destruct (if again st1 then _ else _) as [s2 st2]. cbn [snd splits_of default] in *. cbn in Hc.
  unfold hasBit in *. rewrite Z.lor_spec in Hc. by rewrite Hb1 in Hc.
Qed.

(** ** Blanking escapes level by level settles *)

Definition backslashes (s : list ascii) : nat := length (filter (fun c => c = backslash) s).

Lemma backslashes_app a b : backslashes (a ++ b) = (backslashes a + backslashes b)%nat.
Proof. unfold backslashes. by rewrite filter_app, length_app. Qed.
Lemma backslashes_cons c s : backslashes (c :: s) = ((if decide (c = backslash) then 1 else 0) + backslashes s)%nat.
Proof. unfold backslashes. rewrite filter_cons. by destruct (decide _). Qed.
Lemma backslashes_le s : (backslashes s <= length s)%nat.
Proof. apply length_filter. Qed.
Lemma backslashes_blank k : backslashes (replicate k " "%char) = 0%nat.
Proof. induction k as [|k IH]; [done|]. cbn [replicate]. rewrite backslashes_cons, IH. by destruct (decide _). Qed.

Lemma not_alnum_not_hex c : isAlnumByte c = false -> IP.hex_value c = None.
Proof. destruct c as [[] [] [] [] [] [] [] []]; (reflexivity || discriminate). Qed.

(** An escape costs the backslash it starts with, and one more when it keeps one. *)
Lemma escapeAt_cost s k last : escapeAt s = (S k, last) ->
  (1 + (if decide (last = backslash) then 1 else 0) + backslashes (drop (S k) s) <= backslashes s)%nat /\
  IP.hex_value last = None.
Proof.
  unfold escapeAt. destruct s as [|a [|c r]]; [done|done|]. destruct (a =? backslash)%char eqn:Ea; cbn [negb]; [|done].
  apply Ascii.eqb_eq in Ea as ->. rewrite !backslashes_cons, (decide_True (P := backslash = backslash)) by done.
  destruct (c =? "n")%char; [intros [= <- <-]; cbn [drop]; rewrite ?drop_0; split; [repeat destruct (decide _); (discriminate || lia)|done]|].
  destruct (c =? "t")%char; [intros [= <- <-]; cbn [drop]; rewrite ?drop_0; split; [repeat destruct (decide _); (discriminate || lia)|done]|].
  destruct (c =? "r")%char; [intros [= <- <-]; cbn [drop]; rewrite ?drop_0; split; [repeat destruct (decide _); (discriminate || lia)|done]|].
  destruct (_ || _) eqn:Eq.
  { intros [= <- <-]. cbn [drop]. rewrite drop_0. split; [destruct (decide (c = backslash)); lia|].
    rewrite !orb_true_iff, !Ascii.eqb_eq in Eq. by destruct Eq as [[->| ->]| ->]. }
  destruct (c =? "u")%char; [|done]. destruct (hex4 r) as [h|] eqn:Eh; [|done].
  intros [= <- <-]. destruct r as [|w [|x [|y [|z r]]]]; try discriminate Eh. cbn [drop]. rewrite drop_0.
  rewrite !backslashes_cons. destruct (_ && _) eqn:Eb.
  - rewrite !andb_true_iff, !negb_true_iff in Eb. destruct Eb as [[[[_ Ha] _] Hb] _].
    rewrite (decide_False (P := byte_of h = backslash)) by (intros Hq; by rewrite Hq in Hb).
    split; [lia|by apply not_alnum_not_hex].
  - split; [repeat destruct (decide _); (discriminate || lia)|done].
Qed.

(** A pass keeps a byte, or writes one that is no hexadecimal digit. *)
Definition blanked (c o : ascii) : Prop := o = c \/ IP.hex_value o = None.

Lemma shadow_pass_blanked fuel : forall i s st, Forall2 blanked s (shadow_pass fuel i s st).1.
Proof.
  assert (forall s : list ascii, Forall2 blanked s s) as Hrefl by (intros s; apply Forall_Forall2_diag, Forall_true; by left).
  induction fuel as [|f IH]; intros i s st; cbn [shadow_pass]; [apply Hrefl|].
  destruct s as [|c r]; [constructor|]. destruct (escapeAt (c :: r)) as [[|k] last] eqn:E.
  - specialize (IH (S i) r st). destruct (shadow_pass f (S i) r st) as [out st']. constructor; [by left|done].
  - specialize (IH (i + S k)%nat (drop (S k) (c :: r)) (note_escape i (S k) last st)).
    pose proof (escapeAt_bound (c :: r)) as Hb. rewrite E in Hb. cbn [fst] in Hb.
    destruct (escapeAt_cost _ _ _ E) as [_ Hl]. destruct (shadow_pass f (i + S k) _ _) as [out st']. cbn [fst] in *.
    rewrite <- (take_drop (S k) (c :: r)). replace (replicate k " "%char ++ last :: out)
      with ((replicate k " "%char ++ [last]) ++ out) by (by rewrite <- app_assoc).
    apply Forall2_app; [|done]. apply Forall2_same_length_lookup_2.
    { rewrite length_take, length_app, length_replicate. cbn [length] in *. lia. }
    intros j x y _ Hy. right. apply list_elem_of_lookup_2 in Hy. apply elem_of_app in Hy as [Hy|Hy].
    + apply elem_of_replicate in Hy as [-> _]. reflexivity.
    + apply list_elem_of_singleton in Hy as ->. done.
Qed.

Lemma shadow_pass_again fuel : forall i s st, again st = true -> again (shadow_pass fuel i s st).2 = true.
Proof.
  induction fuel as [|f IH]; intros i s st H; cbn [shadow_pass]; [done|]. destruct s as [|c r]; [done|].
  destruct (escapeAt (c :: r)) as [[|k] last].
  - specialize (IH (S i) r st H). by destruct (shadow_pass f (S i) r st).
  - specialize (IH (i + S k)%nat (drop (S k) (c :: r)) (note_escape i (S k) last st)).
    destruct (shadow_pass f (i + S k) _ _). apply IH. cbn. by rewrite H.
Qed.

Lemma shadow_pass_cost fuel : forall i s st, let '(out, st') := shadow_pass fuel i s st in
  (backslashes out <= backslashes s)%nat /\
  (again st = false -> again st' = true -> (backslashes out < backslashes s)%nat).
Proof.
  induction fuel as [|f IH]; intros i s st; cbn [shadow_pass]; [by split; [|intros ->]|].
  destruct s as [|c r]; [by split; [|intros ->]|]. destruct (escapeAt (c :: r)) as [[|k] last] eqn:E.
  - specialize (IH (S i) r st). destruct (shadow_pass f (S i) r st) as [out st']. destruct IH as [H1 H2].
    rewrite !backslashes_cons. split; [lia|]. intros G1 G2. specialize (H2 G1 G2). lia.
  - specialize (IH (i + S k)%nat (drop (S k) (c :: r)) (note_escape i (S k) last st)).
    destruct (escapeAt_cost _ _ _ E) as [Hc _]. destruct (shadow_pass f (i + S k) _ _) as [out st'].
    destruct IH as [H1 _]. rewrite backslashes_app, backslashes_blank, backslashes_cons. split; lia.
Qed.

Lemma hex4_blanked r out : Forall2 blanked r out -> hex4 r = None -> hex4 out = None.
Proof.
  intros H. unfold hex4.
  do 4 (destruct H as [|? ? ? ? ? H]; [done|]). repeat match goal with
    | H : blanked _ _ |- _ => destruct H as [->|H] end; rewrite ?H, ?H0, ?H1, ?H2, ?H3; try done;
    repeat match goal with |- context [IP.hex_value ?c] => destruct (IP.hex_value c) end; done.
Qed.

Lemma escapeAt_plain c r : c <> backslash -> (escapeAt (c :: r)).1 = 0%nat.
Proof. intros H. unfold escapeAt. destruct r; [done|]. by rewrite (proj2 (Ascii.eqb_neq _ _) H). Qed.

(** A pass that keeps no backslash leaves no escape. *)
Lemma shadow_pass_settled fuel : forall i s st, (length s <= fuel)%nat ->
  again (shadow_pass fuel i s st).2 = false -> has_escape (shadow_pass fuel i s st).1 = false.
Proof.
  induction fuel as [|f IH]; intros i s st Hf; cbn [shadow_pass]; [by destruct s; [|cbn in Hf; lia]|].
  destruct s as [|c r]; [done|]. destruct (escapeAt (c :: r)) as [[|k] last] eqn:E.
  - specialize (IH (S i) r st ltac:(cbn in Hf; lia)).
    assert ((escapeAt (c :: (shadow_pass f (S i) r st).1)).1 = 0%nat) as H0.
    2:{ destruct (shadow_pass f (S i) r st) as [out st']. cbn [fst snd] in *. intros Ha. cbn [has_escape]. by rewrite H0, IH. }
    destruct (decide (c = backslash)) as [->|Hc]; [|by apply escapeAt_plain].
    destruct r as [|d r]; [by destruct f|]. destruct f as [|f]; [cbn in Hf; lia|].
    assert (d <> backslash) as Hd by (intros ->; cbn in E; discriminate E).
    pose proof (escapeAt_plain d r Hd) as Ed. cbn [shadow_pass]. destruct (escapeAt (d :: r)) as [nd ld]. cbn [fst] in Ed. subst nd.
    pose proof (shadow_pass_blanked f (S (S i)) r st) as Hb. destruct (shadow_pass f (S (S i)) r st) as [out st']. cbn [fst] in *.
    revert E. unfold escapeAt. destruct (negb _); [done|].
    repeat (match goal with |- context [if ?b then _ else _] => destruct b eqn:? end; try done).
    all: destruct (hex4 r) eqn:Eh; intros [=]; try done.
    all: by rewrite (hex4_blanked _ _ Hb Eh).
  - specialize (IH (i + S k)%nat (drop (S k) (c :: r)) (note_escape i (S k) last st)).
    rewrite length_drop in IH. specialize (IH ltac:(cbn [length] in *; lia)).
    pose proof (shadow_pass_again f (i + S k) (drop (S k) (c :: r)) (note_escape i (S k) last st)) as Ha.
    destruct (shadow_pass f (i + S k) _ _) as [out st']. cbn [fst snd] in *. intros Hst.
    assert (last <> backslash) as Hl.
    { intros ->. cbn in Ha. rewrite Ha in Hst; [done|]. by rewrite orb_true_r. }
    assert (has_escape (last :: out) = false) as H.
    { cbn [has_escape]. by rewrite escapeAt_plain, IH. }
    clear -H. induction k as [|k IHk]; [done|]. cbn [replicate app has_escape]. by rewrite escapeAt_plain.
Qed.

Lemma shadow_passes_settled fuel : forall s st, (backslashes s < fuel)%nat ->
  has_escape (shadow_passes fuel s st).1 = false.
Proof.
  induction fuel as [|f IH]; intros s st Hf; [lia|]. cbn [shadow_passes].
  set (st0 := mkShadow _ _ _ false). pose proof (shadow_pass_cost (length s) 0 s st0) as Hc.
  pose proof (shadow_pass_settled (length s) 0 s st0 ltac:(lia)) as Hs.
  destruct (shadow_pass (length s) 0 s st0) as [out st1]. cbn [fst snd] in *. destruct Hc as [_ Hc].
  destruct (again st1); [|by apply Hs]. apply IH. specialize (Hc eq_refl eq_refl). lia.
Qed.

(** The shadow of a value is settled: however deep its escapes nest, the passes end, no escape is
    left in the shadow, and every byte keeps its place. *)
Theorem escapeShadow_settled value :
  let shadow := (escapeShadow value).1 in
  has_escape shadow = false /\ length shadow = (if has_escape value then length value else 0)%nat.
Proof.
  pose proof (escapeShadow_spec value) as H. unfold escapeShadow in *. destruct (has_escape value); cbn [negb] in *; [|done].
  pose proof (shadow_passes_settled (S (length value)) value (mkShadow 0 0 0 false)) as Hs.
  destruct (shadow_passes _ _ _) as [out st]. cbn [fst] in *. split; [|by apply H].
  apply Hs. pose proof (backslashes_le value). lia.
Qed.
