(* ===== verification/RedactSafe.v ===== *)
(** What the redaction of a value promises ([Redact]): the replaced spans are in order, disjoint and
    inside the value, the ledger counts them exactly, nothing a pattern found is left, and no
    detector's span cuts a JSON escape in two. *)

From S2P Require Import Prelude GoLib Naming GoUrl Redact Vocab Prefilter Schedule Heuristic Spans SpansSafe EscapeSafe.

(** ** What the detectors find *)

(** What the engine relies on: no rule's pattern matches an empty text or reaches outside its value,
    and runs of the backstop hold a byte at least ([newEntropyMatcher]). *)
Record engine_ok (s : Scrubber) : Prop := {
  eo_spans : forall p value, p ∈ patterns s -> Forall (span_in (String.length value)) (gp_m p value);
  eo_run : forall m, entropy s = Some m -> (1 <= minRun m)%nat
}.

Section Detect.
Context {u : GoUnicode} {log2 : MathLog2} {corpora : Corpora}.
Variable s : Scrubber.
Hypothesis Hs : engine_ok s.

Lemma pattern_spans_in value : Forall (span_in (String.length value)) (appendPatternSpans s value).
Proof.
  unfold appendPatternSpans. apply Forall_flat_map, Forall_forall. intros p Hp.
  destruct (Has _ _); [by apply Hs|constructor].
Qed.

Lemma union_shadow_ok value shadow escapes :
  escapes_ok (String.length value) escapes -> String.length shadow = String.length value ->
  let l := unionEscapeShadow s value shadow escapes (appendPatternSpans s value) in
  Forall (span_in (String.length value)) l /\ Forall (clean_span escapes) l /\
  (forall sp k, sp ∈ appendPatternSpans s value -> only_backslashes (slice value (Start sp) (End_ sp)) = false ->
     (Start sp <= k < End_ sp)%nat -> covered l k) /\
  (forall sp k, sp ∈ appendPatternSpans s shadow -> (Start sp <= k < End_ sp)%nat -> covered l k).
Proof.
  intros Hx Hlen. unfold unionEscapeShadow. set (kept := filter _ _).
  assert (Forall (span_in (String.length value)) kept) as Hkept.
  { apply Forall_forall. intros y Hy. apply list_elem_of_filter in Hy as [_ Hy].
    exact (proj1 (Forall_forall _ _) (pattern_spans_in value) y Hy). }
  pose proof (pattern_spans_in shadow) as Hsh. rewrite Hlen in Hsh.
  destruct (snapAll_spec _ escapes kept Hx Hkept) as (H1 & H2 & H3).
  destruct (snapAll_spec _ escapes _ Hx Hsh) as (H4 & H5 & H6).
  destruct (unionSpans_spec _ escapes _ _ H1 H4 H2 H5) as (H7 & H8 & H9).
  split_and!; [done|done| |].
  - intros sp k Hsp Hb Hk. apply H9. left. apply H3. exists sp. split; [|done]. by apply list_elem_of_filter.
  - intros sp k Hsp Hk. apply H9. right. apply H6. by exists sp.
Qed.
End Detect.

(** *** The backstop's spans *)

Section Backstop.
Context {log2 : MathLog2}.
Variables (m : entropyMatcher) (value : string).
Hypothesis Hrun : (1 <= minRun m)%nat.
Notation n := (String.length value).

Lemma word_end_bound end_ t j : (j <= end_)%nat -> (j <= word_end end_ t j <= end_)%nat.
Proof.
  revert j. induction t as [|c t IH]; intros j Hj; cbn [word_end]; [lia|].
  destruct (j <? end_)%nat eqn:E; cbn [andb]; [|lia]. apply Nat.ltb_lt in E.
  destruct (isAlnumByte c); [|lia]. specialize (IH (S j) ltac:(lia)). lia.
Qed.

Lemma clearing_words_in end_ fuel j : (end_ <= n)%nat -> Forall (span_in n) (clearing_words m value end_ fuel j).
Proof.
  intros He. revert j. induction fuel as [|fuel IH]; intros j; cbn [clearing_words]; [constructor|].
  destruct (j <? end_)%nat eqn:E; [|constructor]. apply Nat.ltb_lt in E.
  pose proof (word_end_bound end_ (str_drop j value) j ltac:(lia)).
  apply Forall_app. split; [|apply IH].
  destruct (minRun m <=? _)%nat eqn:E2; cbn [andb]; [|constructor]. apply Nat.leb_le in E2.
  destruct (clears _ _); [|constructor]. constructor; [|constructor]. split; cbn; lia.
Qed.

Lemma run_spans_in start i : (start < i)%nat -> (i <= n)%nat -> Forall (span_in n) (run_spans m value start i).
Proof.
  intros H1 H2. unfold run_spans. destruct (negb _); [constructor|].
  destruct (skipsCandidate _ _); [by apply clearing_words_in|]. constructor; [|constructor]. split; cbn; lia.
Qed.

Lemma forward_bound l i : (i <= forward l i <= i + length l)%nat.
Proof. revert i. induction l as [|c l IH]; intros i; cbn; [lia|]. destruct (in_class c); [specialize (IH (S i))|]; lia. Qed.
Lemma back_bound l scanned p : (back l scanned p <= p)%nat.
Proof. induction p as [|p IH]; cbn; [done|]. destruct (_ && _); lia. Qed.

Lemma probe_in fuel p scanned :
  Forall (span_in n) (probe m value (list_ascii_of_string value) fuel p scanned).
Proof.
  revert p scanned. induction fuel as [|fuel IH]; intros p scanned; cbn [probe]; [constructor|].
  destruct (_ !! p) as [c|] eqn:E; [|constructor]. apply lookup_lt_Some in E. rewrite length_list_ascii in E.
  destruct (_ || _); [apply IH|]. apply Forall_app. split; [|apply IH].
  destruct (_ <? _)%nat; [constructor|]. apply run_spans_in.
  - pose proof (back_bound (list_ascii_of_string value) scanned p).
    pose proof (forward_bound (drop (S p) (list_ascii_of_string value)) (S p)). lia.
  - pose proof (forward_bound (drop (S p) (list_ascii_of_string value)) (S p)) as H.
    rewrite length_drop, length_list_ascii in H. lia.
Qed.

Lemma entropy_spans_in : Forall (span_in n) (entropy_Match m value).
Proof. unfold entropy_Match. destruct (_ <? _); [constructor|]. apply probe_in. Qed.
End Backstop.

Lemma slice_length value i j : (i <= j)%nat -> (j <= String.length value)%nat ->
  String.length (slice value i j) = (j - i)%nat.
Proof. intros Hij Hj. apply length_str_take. rewrite length_str_drop. lia. Qed.

(** *** Trimming runs at patterns *)

Lemma skip_ended_incl run ps : skip_ended run ps ⊆ ps.
Proof.
  induction ps as [|p ps IH]; cbn; [done|]. destruct (_ <=? _)%nat; [|done]. set_solver.
Qed.

Lemma trim_runs_spec {log2 : MathLog2} m value x runs ps n :
  (1 <= minRun m)%nat -> String.length value = n -> escapes_ok n x ->
  Forall (span_in n) runs -> Forall (clean_span x) runs -> Forall (clean_span x) ps ->
  let '(runs', heads) := trim_runs m value x runs ps in
  Forall (span_in n) (runs' ++ heads) /\ Forall (clean_span x) (runs' ++ heads).
Proof.
  intros Hm Hn Hx. revert ps. induction runs as [|run runs IH]; intros ps Hr Hcr Hcp; cbn [trim_runs]; [by split; constructor|].
  apply Forall_cons in Hr as [Hr1 Hr], Hcr as [Hc1 Hcr].
  assert (Forall (clean_span x) (skip_ended run ps)) as Hcp'.
  { apply Forall_forall. intros y Hy. apply skip_ended_incl in Hy. by eapply Forall_forall in Hcp. }
  specialize (IH (skip_ended run ps) Hr Hcr Hcp'). destruct (skip_ended run ps) as [|p ps'] eqn:Ep.
  { destruct (trim_runs m value x runs []) as [runs' heads]. destruct IH as [H1 H2].
    split; cbn [app]; by constructor. }
  destruct ((Start p <=? Start run)%nat || (End_ run <=? Start p)%nat) eqn:E.
  { destruct (trim_runs m value x runs (p :: ps')) as [runs' heads]. destruct IH as [H1 H2].
    split; cbn [app]; by constructor. }
  apply orb_false_iff in E as [E1 E2]. apply Nat.leb_gt in E1, E2.
  destruct (trim_runs m value x runs (p :: ps')) as [runs' heads]. destruct IH as [H1 H2].
  apply Forall_app in H1 as [H1 H1'], H2 as [H2 H2']. destruct Hr1 as [Hr1 Hr2], Hc1 as [Hc1 Hc2].
  apply Forall_cons in Hcp' as [[Hp1 _] _].
  set (here := map _ (entropy_Match _ _)).
  assert (Forall (span_in n) here /\ Forall (clean_span x) here) as [Hh1 Hh2].
  { unfold here. rewrite !Forall_map.
    pose proof (entropy_spans_in m (slice value (Start run) (Start p)) Hm) as He.
    rewrite slice_length in He by (rewrite ?Hn; lia).
    split; (eapply Forall_impl; [exact He|]); intros h [Hh1 Hh2]; apply (snap_spec n x _ Hx); split; cbn; lia. }
  split; cbn [app]; (constructor; [split; cbn; (lia || done)|]); apply Forall_app; (split; [done|]); apply Forall_app; by split.
Qed.

(** ** What a value's detectors answer *)

Section Detected.
Context {u : GoUnicode} {log2 : MathLog2} {corpora : Corpora}.
Variable s : Scrubber.
Hypothesis Hs : engine_ok s.

Definition heuristics_of (ent : option entropyMatcher) (value : string) : list Span :=
  match ent with Some m => entropy_Match m value | None => [] end.

(** The spans found in [value], widened to whole escapes: inside the value, cutting no escape; and
    what a pattern found, in the value or in its shadow, is among them. *)
Record detected (value : string) (ent : option entropyMatcher) (ps hs : list Span) (x : escapeIndex) : Prop := {
  dt_escapes : escapes_ok (String.length value) x;
  dt_ps_in : Forall (span_in (String.length value)) ps;
  dt_ps_clean : Forall (clean_span x) ps;
  dt_hs_in : Forall (span_in (String.length value)) hs;
  dt_hs_clean : Forall (clean_span x) hs;
  dt_found : forall sp k, sp ∈ appendPatternSpans s value -> (Start sp <= k < End_ sp)%nat ->
    only_backslashes (slice value (Start sp) (End_ sp)) = false \/ has_escape (list_ascii_of_string value) = false ->
    covered ps k;
  dt_shadow : forall sp k, has_escape (list_ascii_of_string value) = true ->
    sp ∈ appendPatternSpans s (string_of_list_ascii (escapeShadow (list_ascii_of_string value)).1) ->
    (Start sp <= k < End_ sp)%nat -> covered ps k;
  dt_heuristics : forall k, covered (heuristics_of ent value) k -> covered hs k
}.

Lemma heuristics_in ent value :
  (forall m, ent = Some m -> entropy s = Some m) -> Forall (span_in (String.length value)) (heuristics_of ent value).
Proof.
  intros He. destruct ent as [m|]; [|constructor]. apply entropy_spans_in, Hs, He. reflexivity.
Qed.

Lemma clean_span_None l : Forall (clean_span None) l.
Proof. apply Forall_forall. intros sp _. split; apply clean_None. Qed.

Lemma escapeShadow_None value : (escapeShadow value).2 = None <-> has_escape value = false.
Proof.
  unfold escapeShadow. destruct (has_escape value); cbn [negb]; [|done].
  destruct (shadow_passes _ _ _) as [a b]. by split.
Qed.

Lemma no_backslash_no_escape value :
  str_existsb (fun c => (c =? backslash)%char) value = false -> has_escape (list_ascii_of_string value) = false.
Proof.
  induction value as [|c v IH]; [done|]. cbn [str_existsb list_ascii_of_string has_escape].
  intros H. rewrite str_existsb_cons in H. apply orb_false_iff in H as [Hc Hv]. apply orb_false_iff. split; [|by apply IH].
  unfold escapeAt. destruct (list_ascii_of_string v); [done|]. by rewrite Hc.
Qed.

Lemma detected_plain value ent :
  (forall m, ent = Some m -> entropy s = Some m) -> has_escape (list_ascii_of_string value) = false ->
  detected value ent (appendPatternSpans s value) (heuristics_of ent value) None.
Proof.
  intros He Hno. constructor.
  - constructor; [|done]. intros k. cbn. by rewrite hasBit_0.
  - by apply pattern_spans_in.
  - apply clean_span_None.
  - by apply heuristics_in.
  - apply clean_span_None.
  - intros sp k Hsp Hk _. by exists sp.
  - by rewrite Hno.
  - done.
Qed.

Lemma detect_spec value ent :
  (forall m, ent = Some m -> entropy s = Some m) ->
  let '(ps, hs, x) := detect s value ent in detected value ent ps hs x.
Proof.
  intros He. unfold detect. fold (heuristics_of ent value).
  destruct (str_existsb _ value) eqn:Eb; [|by apply detected_plain, no_backslash_no_escape].
  pose proof (escapeShadow_spec (list_ascii_of_string value)) as Hx.
  pose proof (escapeShadow_None (list_ascii_of_string value)) as Hn.
  destruct (escapeShadow (list_ascii_of_string value)) as [shadow [b|]] eqn:E; cbn [snd] in Hn.
  2:{ apply detected_plain; [done|]. by apply Hn. }
  destruct Hx as [Hx Hlen]. rewrite length_list_ascii in Hx, Hlen. specialize (Hlen ltac:(done)).
  destruct (union_shadow_ok s Hs value (string_of_list_ascii shadow) (Some b) Hx) as (H1 & H2 & H3 & H4).
  { by rewrite length_of_list_ascii. }
  destruct (snapAll_spec _ _ _ Hx (heuristics_in ent value He)) as (H5 & H6 & H7).
  constructor; [done..| | |done].
  - intros sp k Hsp Hk [Hb|Hb]; [by eapply H3|]. apply Hn in Hb. discriminate.
  - rewrite E. intros sp k _. apply H4.
Qed.
End Detected.

Lemma trimAtPatterns_spec {log2 : MathLog2} m value x runs ps :
  (1 <= minRun m)%nat -> escapes_ok (String.length value) x ->
  Forall (span_in (String.length value)) runs -> Forall (clean_span x) runs -> Forall (clean_span x) ps ->
  Forall (span_in (String.length value)) (trimAtPatterns m value runs ps x) /\
  Forall (clean_span x) (trimAtPatterns m value runs ps x).
Proof.
  intros Hm Hx Hr Hc Hp. unfold trimAtPatterns.
  pose proof (trim_runs_spec m value x runs (merge_sort start_leb ps) _ Hm eq_refl Hx Hr Hc) as H.
  destruct (trim_runs _ _ _ _ _) as [runs' heads]. apply H. by rewrite merge_sort_Permutation.
Qed.

(** ** Replaced spans *)

Definition rs_width (r : replacementSpan) : Z := Z.of_nat (rs_End r - rs_Start r).
Definition replaced (l : list replacementSpan) (k : nat) : Prop :=
  exists r, r ∈ l /\ (rs_Start r <= k < rs_End r)%nat.

(** From [cursor] on, in order and disjoint, none empty, and inside [n] bytes: no slice of
    [valuePlan.apply] is out of range. *)
Fixpoint ordered (cursor : nat) (l : list replacementSpan) (n : nat) : Prop :=
  match l with
  | [] => (cursor <= n)%nat
  | r :: rest => (cursor <= rs_Start r)%nat /\ (rs_Start r < rs_End r)%nat /\ ordered (rs_End r) rest n
  end.

Lemma ordered_le cursor l n : ordered cursor l n -> (cursor <= n)%nat.
Proof. revert cursor. induction l as [|r l IH]; intros cursor; cbn; [done|]. intros (H1 & H2 & H3). apply IH in H3. lia. Qed.

Lemma ordered_in cursor l n r : ordered cursor l n -> r ∈ l ->
  (cursor <= rs_Start r)%nat /\ (rs_Start r < rs_End r)%nat /\ (rs_End r <= n)%nat.
Proof.
  revert cursor. induction l as [|a l IH]; intros cursor H Hr; [by apply elem_of_nil in Hr|].
  destruct H as (H1 & H2 & H3). apply elem_of_cons in Hr as [->|Hr].
  - apply ordered_le in H3. lia.
  - specialize (IH _ H3 Hr). lia.
Qed.

Lemma separated_ordered l n : forall cursor,
  separated l -> Forall (fun s => End_ s <= n)%nat l -> (cursor <= n)%nat ->
  (forall a, head l = Some a -> (cursor <= Start a)%nat) ->
  ordered cursor (map replacement_of l) n.
Proof.
  induction l as [|a l IH]; intros cursor H Hn Hc Hhd; cbn [map ordered]; [done|].
  destruct H as (H1 & H2 & H3). apply Forall_cons in Hn as [Ha Hn]. cbn. split; [by apply Hhd|]. split; [done|].
  apply IH; [done..|]. intros b Hb. destruct l as [|b' l]; [done|]. by injection Hb as <-.
Qed.

Lemma resolved_in n ps hs res red hits :
  Forall (span_in n) (ps ++ hs) -> resolved_ok (ps ++ hs) res red hits ->
  ordered 0 (map replacement_of res) n.
Proof.
  intros Hin [Hsep _ _ _ _ Hend]. apply separated_ordered; [done| |lia|intros; lia].
  apply Forall_forall. intros r Hr. destruct (Hend r Hr) as (i & Hi & <-).
  by apply (proj1 (Forall_forall _ _) Hin) in Hi as [_ Hi].
Qed.

Lemma replaced_of l k : replaced (map replacement_of l) k <-> covered l k.
Proof.
  unfold replaced, covered. split.
  - intros (r & Hr & Hk). apply list_elem_of_fmap in Hr as (x & -> & Hx). by exists x.
  - intros (x & Hx & Hk). exists (replacement_of x). split; [|done]. apply list_elem_of_fmap. by exists x.
Qed.

Lemma replaced_app l1 l2 k : replaced (l1 ++ l2) k <-> replaced l1 k \/ replaced l2 k.
Proof.
  unfold replaced. setoid_rewrite elem_of_app. split.
  - intros (x & [Hx|Hx] & Hk); [left|right]; by exists x.
  - intros [(x & Hx & Hk)|(x & Hx & Hk)]; exists x; split; auto.
Qed.

(** *** The user's name *)

Lemma has_prefix_take p t : has_prefix p t = true -> str_take (String.length p) t = p.
Proof.
  revert t. induction p as [|c p IH]; intros t; [done|]. destruct t as [|d t]; cbn; [done|].
  intros H. apply andb_true_iff in H as [H1 H2]. apply Ascii.eqb_eq in H1 as ->. f_equal. by apply IH.
Qed.
Lemma has_prefix_length p t : has_prefix p t = true -> (String.length p <= String.length t)%nat.
Proof.
  revert t. induction p as [|c p IH]; intros t; cbn; [lia|]. destruct t as [|d t]; [done|].
  intros H. apply andb_true_iff in H as [_ H]. apply IH in H. cbn. lia.
Qed.

Lemma str_index_spec p t i : str_index p t = Some i -> has_prefix p (str_drop i t) = true.
Proof.
  revert i. induction t as [|c t IH]; intros i; cbn [str_index]; destruct (has_prefix p _) eqn:E; try done;
    try by intros [= <-].
  destruct (str_index p t) as [j|]; [|done]. intros [= <-]. cbn. by apply IH.
Qed.

Lemma str_drop_drop i j t : str_drop i (str_drop j t) = str_drop (j + i) t.
Proof. revert t. induction j as [|j IH]; intros t; [done|]. destruct t; cbn; [by destruct i|apply IH]. Qed.

Definition apart (a b : replacementSpan) : Prop := (rs_End a <= rs_Start b)%nat \/ (rs_End b <= rs_Start a)%nat.

Lemma ordered_weaken c c' l n : (c' <= c)%nat -> ordered c l n -> ordered c' l n.
Proof. intros Hc. destruct l as [|a l]; cbn; [lia|]. intros (H1 & H2 & H3). split; [lia|done]. Qed.

Lemma skip_blocked_spec start prev rest c n : ordered c rest n ->
  let '(_, rest') := skip_blocked start prev rest in
  ordered c rest' n /\ forall b, b ∈ rest -> b ∈ rest' \/ (rs_End b <= start)%nat.
Proof.
  revert prev c. induction rest as [|b rest IH]; intros prev c H; cbn [skip_blocked]; [split; [done|tauto]|].
  destruct (rs_End b <=? start)%nat eqn:E; [apply Nat.leb_le in E|split; [done|tauto]].
  destruct H as (H1 & H2 & H3). specialize (IH (Some b) (rs_End b) H3).
  destruct (skip_blocked start (Some b) rest) as [prev' rest']. destruct IH as [H4 H5].
  split; [eapply ordered_weaken; [|exact H4]; lia|].
  intros x Hx. apply elem_of_cons in Hx as [->|Hx]; [by right|by apply H5].
Qed.

(** A replaced occurrence of the name. *)
Definition user_span (value username : string) (r : replacementSpan) : Prop :=
  Replacement r = UserPlaceholder /\ slice value (rs_Start r) (rs_End r) = username /\
  (rs_End r - rs_Start r)%nat = String.length username.

Lemma path_user_loop_spec value username fuel : forall from prev rest c,
  (0 < String.length username)%nat -> (from <= String.length value)%nat ->
  ordered c rest (String.length value) ->
  let l := path_user_loop fuel value username from prev rest in
  ordered from l (String.length value) /\ Forall (user_span value username) l /\
  Forall (fun r => Forall (apart r) rest) l.
Proof.
  induction fuel as [|fuel IH]; intros from prev rest c Hu Hf Hr; cbn [path_user_loop].
  { split_and!; [done|constructor|constructor]. }
  destruct (_ <? _)%nat; [by split_and!; [|constructor|constructor]|].
  destruct (str_index username (str_drop from value)) as [rel|] eqn:E; [|by split_and!; [|constructor|constructor]].
  apply str_index_spec in E. rewrite str_drop_drop in E.
  pose proof (has_prefix_length _ _ E) as Hlen. rewrite length_str_drop in Hlen.
  pose proof (skip_blocked_spec (from + rel) prev rest c _ Hr) as Hsk.
  destruct (skip_blocked (from + rel) prev rest) as [prev' rest']. destruct Hsk as [Hr' Hin].
  set (end_ := (from + rel + String.length username)%nat).
  destruct (IH end_ prev' rest' c Hu ltac:(lia) Hr') as (H1 & H2 & H3).
  set (next := path_user_loop fuel value username end_ prev' rest') in *.
  assert (Forall (fun r => Forall (apart r) rest) next) as H3'.
  { apply Forall_forall. intros r Hn. apply Forall_forall. intros b Hb. destruct (Hin b Hb) as [Hb'|Hb'].
    - exact (proj1 (Forall_forall _ _) (proj1 (Forall_forall _ _) H3 r Hn) b Hb').
    - destruct (ordered_in _ _ _ _ H1 Hn) as [Hge _]. right. lia. }
  assert (ordered from next (String.length value)) as H1' by (eapply ordered_weaken; [|exact H1]; lia).
  destruct (match rest' with b :: _ => (rs_Start b <? end_)%nat | [] => false end) eqn:Eb; [done|].
  destruct (left_ok _ _ _ && right_ok _ _ _); [|done]. split_and!.
  - cbn [ordered rs_Start rs_End]. split_and!; [lia|lia|done].
  - constructor; [|done]. unfold user_span. cbn. unfold end_, slice.
    rewrite Nat.add_comm, Nat.add_sub. split_and!; [done|by apply has_prefix_take|done].
  - constructor; [|done]. apply Forall_forall. intros b Hb. destruct (Hin b Hb) as [Hb'|Hb']; [|right; cbn; lia].
    left. cbn. destruct rest' as [|b0 rest']; [by apply elem_of_nil in Hb'|]. apply Nat.ltb_ge in Eb.
    apply elem_of_cons in Hb' as [->|Hb']; [done|]. destruct Hr' as (_ & G1 & G2).
    destruct (ordered_in _ _ _ _ G2 Hb') as [G3 _]. lia.
Qed.

(** *** Merging them *)

Lemma apart_sym a b : apart a b -> apart b a.
Proof. unfold apart. tauto. Qed.

Lemma ForallOrdPairs_perm {A} (R : A -> A -> Prop) l l' :
  (forall a b, R a b -> R b a) -> l ≡ₚ l' -> ForallOrdPairs R l -> ForallOrdPairs R l'.
Proof.
  intros Hsym. induction 1 as [|a l l' Hp IH|a b l|l1 l2 l3 H1 IH1 H2 IH2]; intros H.
  - done.
  - inversion H as [|? ? Ha Hl]; subst. constructor; [by rewrite <- Hp|by apply IH].
  - inversion H as [|? ? Hb Hl]; subst. inversion Hl as [|? ? Ha Hl']; subst.
    apply Forall_cons in Hb as [Hba Hb]. constructor; [constructor; [by apply Hsym|done]|]. by constructor.
  - auto.
Qed.

Lemma ForallOrdPairs_app {A} (R : A -> A -> Prop) l1 l2 :
  ForallOrdPairs R l1 -> ForallOrdPairs R l2 -> Forall (fun a => Forall (R a) l2) l1 -> ForallOrdPairs R (l1 ++ l2).
Proof.
  intros H1 H2. induction H1 as [|a l1 Ha H1 IH]; [done|]. intros H. apply Forall_cons in H as [Hx H].
  constructor; [apply Forall_app; by split|by apply IH].
Qed.

Lemma ordered_apart c l n : ordered c l n -> ForallOrdPairs apart l.
Proof.
  revert c. induction l as [|a l IH]; intros c; [constructor|]. intros (H1 & H2 & H3). constructor; [|by eapply IH].
  apply Forall_forall. intros b Hb. left. by eapply ordered_in in Hb as [Hb _]; [|exact H3].
Qed.

Lemma sorted_apart_ordered l n c :
  StronglySorted start_of_leb l -> ForallOrdPairs apart l ->
  Forall (fun r => (c <= rs_Start r < rs_End r)%nat /\ (rs_End r <= n)%nat) l -> (c <= n)%nat -> ordered c l n.
Proof.
  revert c. induction l as [|a l IH]; intros c Hs Ha Hin Hc; cbn [ordered]; [done|].
  apply StronglySorted_inv in Hs as [Hs Hle]. inversion Ha as [|? ? Ha1 Ha2]; subst.
  apply Forall_cons in Hin as [Hin1 Hin2]. split; [lia|]. split; [lia|]. apply IH; [done|done| |lia].
  apply Forall_forall. intros b Hb. pose proof (proj1 (Forall_forall _ _) Hin2 b Hb) as Hb1.
  pose proof (proj1 (Forall_forall _ _) Ha1 b Hb) as Hb2. pose proof (proj1 (Forall_forall _ _) Hle b Hb) as Hb3.
  unfold start_of_leb in Hb3. unfold apart in Hb2. cbn beta in *. split; [|lia]. destruct Hb2; lia.
Qed.

#[export] Instance start_of_leb_total : Total start_of_leb.
Proof. intros a b. unfold start_of_leb. destruct (Nat.le_gt_cases (rs_Start a) (rs_Start b)); [by left|right; lia]. Qed.

Lemma merge_ordered l1 l2 n :
  ordered 0 l1 n -> ordered 0 l2 n -> Forall (fun r => Forall (apart r) l1) l2 ->
  ordered 0 (merge_sort start_of_leb (l1 ++ l2)) n.
Proof.
  intros H1 H2 H3. apply sorted_apart_ordered; [| | |lia].
  - apply Sorted_StronglySorted; [intros a b c; unfold start_of_leb; lia|]. apply (Sorted_merge_sort _).
  - eapply ForallOrdPairs_perm; [apply apart_sym|symmetry; apply merge_sort_Permutation|].
    apply ForallOrdPairs_app; [by eapply ordered_apart|by eapply ordered_apart|].
    apply Forall_forall. intros a Ha. apply Forall_forall. intros b Hb. apply apart_sym.
    exact (proj1 (Forall_forall _ _) (proj1 (Forall_forall _ _) H3 b Hb) a Ha).
  - rewrite merge_sort_Permutation. apply Forall_forall. intros r Hr. apply elem_of_app in Hr as [Hr|Hr];
      (eapply ordered_in in Hr; [|eassumption]); lia.
Qed.

(** ** The plan *)

Definition is_rule (id : string) (r : replacementSpan) : Prop := Replacement r = Sentinel id.
#[export] Instance is_rule_dec id r : base.Decision (is_rule id r).
Proof. unfold is_rule. apply _. Defined.

(** A plan fit for a value of [n] bytes, with its ledger exact. *)
Record plan_ok (n : nat) (p : valuePlan) : Prop := {
  pk_ordered : ordered 0 (spans p) n;
  pk_redacted : redacted p = Zsum (map rs_width (spans p));
  pk_hits : forall id, id <> path_user -> default 0 (hits p !! id) = Zlen (filter (is_rule id) (spans p))
}.

Lemma string_app_inj_l a b c : a +:+ b = a +:+ c -> b = c.
Proof. induction a as [|x a IH]; cbn; [done|]. intros [= H]. by apply IH. Qed.
Lemma string_app_inj_r a b c : a +:+ c = b +:+ c -> a = b.
Proof.
  intros H. assert (slen a = slen b) as Hl by (apply (f_equal slen) in H; rewrite !slen_app in H; lia).
  unfold slen in Hl. revert b H Hl.
  induction a as [|x a IH]; intros [|y b]; cbn [String.length]; [done|lia|lia|].
  intros [= -> H] Hl. f_equal. apply IH; [done|lia].
Qed.

Lemma Sentinel_inj a b : Sentinel a = Sentinel b -> a = b.
Proof. unfold Sentinel. intros H. apply string_app_inj_l, string_app_inj_l in H. by apply string_app_inj_r in H. Qed.
Lemma Sentinel_not_user id : UserPlaceholder <> Sentinel id.
Proof. unfold Sentinel, UserPlaceholder, sentinelPrefix. cbn. discriminate. Qed.

Lemma plan_resolved n ps hs :
  Forall (span_in n) (ps ++ hs) ->
  let '(res, red, hits) := resolveSpans ps hs in
  plan_ok n (mkPlan (map replacement_of res) red hits) /\
  (forall k, replaced (map replacement_of res) k <-> covered (ps ++ hs) k).
Proof.
  intros Hin. pose proof (resolveSpans_spec ps hs) as H. destruct (resolveSpans ps hs) as [[res red] hits].
  assert (resolved_ok (ps ++ hs) res red hits) as Hok.
  { apply H. eapply Forall_impl; [exact Hin|]. by intros x [Hx _]. }
  split; [|intros k; rewrite replaced_of; by apply Hok]. constructor; cbn.
  - by apply (resolved_in n ps hs res red hits).
  - rewrite List.map_map. by apply Hok.
  - intros id _. rewrite (ro_hits _ _ _ _ Hok). unfold Zlen. f_equal. clear -res.
    induction res as [|r res IH]; [done|]. cbn [map]. rewrite !filter_cons. unfold is_rule at 1. cbn [Replacement replacement_of].
    destruct (decide (RuleID r = id)) as [E|E]; destruct (decide (Sentinel (RuleID r) = Sentinel id)) as [E'|E'].
    + cbn. by rewrite IH.
    + by rewrite E in E'.
    + by apply Sentinel_inj in E'.
    + done.
Qed.

Lemma add_user_ok {corpora : Corpora} (s : Scrubber) value p :
  plan_ok (String.length value) p ->
  plan_ok (String.length value) (add_user s value p) /\
  (forall k, replaced (spans p) k -> replaced (spans (add_user s value p)) k).
Proof.
  intros [H1 H2 H3]. unfold add_user. destruct (_ =? _)%string; [by split; [constructor|]|].
  unfold pathUserReplacementSpans.
  destruct ((slen (pathUser s) <? 2) || _ || _) eqn:E; [by split; [constructor|]|].
  cbv zeta. cbn beta iota. destruct (0 <? _) eqn:En; [|split; [by constructor|done]].
  apply orb_false_iff in E as [E _]. apply orb_false_iff in E as [E _]. apply Z.ltb_ge in E. unfold slen in E.
  destruct (path_user_loop_spec value (pathUser s) (S (String.length value)) 0 None (spans p) 0 ltac:(lia) ltac:(lia) H1)
    as (G1 & G2 & G3). set (l := path_user_loop _ _ _ _ _ _) in *.
  assert (spans p ++ l ≡ₚ merge_sort start_of_leb (spans p ++ l)) as Hp by (symmetry; apply merge_sort_Permutation).
  split.
  - constructor; cbn [spans redacted hits].
    + by apply merge_ordered.
    + rewrite <- (Zsum_perm _ _ (Permutation_map rs_width Hp)), map_app, Zsum_app, H2. f_equal.
      clear -G2. induction G2 as [|r l (_ & _ & Hw) G2 IH]; [done|]. rewrite Zlen_cons. cbn [map Zsum foldr].
      unfold Zsum in IH. rewrite <- IH. unfold rs_width, slen. rewrite Hw. lia.
    + intros id Hid. unfold hit. rewrite lookup_insert_ne by done. rewrite H3 by done. unfold Zlen.
      rewrite <- (Permutation_length (filter_Permutation _ _ _ Hp)), filter_app, length_app.
      assert (filter (is_rule id) l = []) as ->; [|cbn; lia].
      clear -G2. induction G2 as [|r l (Hr & _) G2 IH]; [done|]. rewrite filter_cons, decide_False; [done|].
      unfold is_rule. rewrite Hr. apply Sentinel_not_user.
  - intros k (r & Hr & Hk). exists r. split; [|done]. cbn [spans]. rewrite <- Hp. apply elem_of_app. by left.
Qed.

Lemma add_user_rest {corpora : Corpora} (s : Scrubber) value p r :
  r ∈ spans (add_user s value p) -> r ∈ spans p \/ Replacement r = UserPlaceholder.
Proof.
  unfold add_user. destruct (_ =? _)%string; [by left|]. unfold pathUserReplacementSpans.
  destruct (_ || _ || _); [by left|]. cbv zeta. cbn beta iota. destruct (0 <? _); [|by left].
  cbn [spans]. rewrite merge_sort_Permutation, elem_of_app. intros [H|H]; [by left|right].
  revert H. generalize (@None replacementSpan) 0%nat (spans p). generalize (S (String.length value)).
  intros fuel. induction fuel as [|f IH]; intros prev from rest H; cbn [path_user_loop] in H; [by apply elem_of_nil in H|].
  destruct (_ <? _)%nat; [by apply elem_of_nil in H|].
  destruct (str_index _ _) as [rel|]; [|by apply elem_of_nil in H].
  destruct (skip_blocked _ _ _) as [prev' rest']. destruct (match rest' with b :: _ => _ | [] => false end); [by eapply IH|].
  destruct (_ && _); [|by eapply IH]. apply elem_of_cons in H as [->|H]; [done|by eapply IH].
Qed.

Lemma whole_plan_ok value id : value <> "" -> plan_ok (String.length value) (whole_plan value id).
Proof.
  intros Hne. assert (0 < String.length value)%nat by (destruct value; [done|cbn; lia]).
  constructor; unfold whole_plan; cbn [spans redacted hits].
  - cbn. lia.
  - unfold rs_width, slen. cbn. lia.
  - intros id' _. rewrite filter_cons. unfold is_rule. cbn [Replacement]. destruct (decide (id' = id)) as [->|Hn].
    + by rewrite lookup_singleton_eq, decide_True.
    + rewrite lookup_singleton_ne, decide_False by (try done; intros Hq; by apply Sentinel_inj in Hq). done.
Qed.

(** [apply] removes the replaced bytes, puts the replacements, and keeps the rest. *)
Lemma apply_from_length value l : forall cursor, ordered cursor l (String.length value) ->
  slen (apply_from cursor l value) =
  slen value - Z.of_nat cursor - Zsum (map rs_width l) + Zsum (map (fun r => slen (Replacement r)) l).
Proof.
  induction l as [|r l IH]; intros cursor; cbn [ordered apply_from map].
  - intros H. unfold slen. rewrite length_str_drop. cbn. lia.
  - intros (H1 & H2 & H3). pose proof (ordered_le _ _ _ H3) as H4. rewrite !slen_app, IH by done.
    unfold slen at 1. rewrite slice_length by lia. cbn [Zsum foldr]. unfold Zsum. unfold rs_width at 2. lia.
Qed.

Lemma detect_escapes {u : GoUnicode} {log2 : MathLog2} {corpora : Corpora} s value ent :
  (detect s value ent).2 = (escapeShadow (list_ascii_of_string value)).2.
Proof.
  unfold detect. destruct (str_existsb _ value) eqn:E.
  - destruct (escapeShadow _) as [shadow [b|]]; done.
  - symmetry. by apply escapeShadow_None, no_backslash_no_escape.
Qed.

Section Planned.
Context {u : GoUnicode} {log2 : MathLog2} {corpora : Corpora}.
Variable s : Scrubber.
Hypothesis Hs : engine_ok s.

(** What a plan owes its value. *)
Record planned (value : string) (ent : option entropyMatcher) (p : valuePlan) : Prop := {
  pn_ok : plan_ok (String.length value) p;
  pn_found : forall sp k, sp ∈ appendPatternSpans s value -> (Start sp <= k < End_ sp)%nat ->
    only_backslashes (slice value (Start sp) (End_ sp)) = false \/ has_escape (list_ascii_of_string value) = false ->
    replaced (spans p) k;
  pn_shadow : forall sp k, has_escape (list_ascii_of_string value) = true ->
    sp ∈ appendPatternSpans s (string_of_list_ascii (escapeShadow (list_ascii_of_string value)).1) ->
    (Start sp <= k < End_ sp)%nat -> replaced (spans p) k;
  pn_heuristics : forall k, (detect s value ent).1.1 = [] -> covered (heuristics_of ent value) k ->
    replaced (spans p) k;
  pn_escapes : forall r i n, r ∈ spans p -> Replacement r <> UserPlaceholder -> (i, n) ∈ escapes_of value ->
    ~ (i < rs_Start r < i + n)%nat /\ ~ (i < rs_End r < i + n)%nat
}.

Lemma escapes_in value i n : (i, n) ∈ escapes_of value -> (i + n <= String.length value)%nat.
Proof.
  assert (forall fuel j l, (i, n) ∈ escapes_from fuel j l -> (i + n <= j + length l)%nat) as H.
  { induction fuel as [|f IH]; intros j l Hin; cbn [escapes_from] in Hin; [by apply elem_of_nil in Hin|].
    destruct l as [|c r]; [by apply elem_of_nil in Hin|]. pose proof (escapeAt_bound (c :: r)) as Hb.
    destruct (escapeAt (c :: r)) as [[|k] last]; cbn [fst] in *.
    - apply IH in Hin. cbn. lia.
    - apply elem_of_cons in Hin as [[= -> ->]|Hin]; [lia|]. apply IH in Hin. rewrite length_drop in Hin.
      cbn [length] in *. lia. }
  intros Hin. apply H in Hin. by rewrite length_list_ascii in Hin.
Qed.

Lemma whole_planned value ent id :
  (forall m, ent = Some m -> entropy s = Some m) -> value <> "" -> planned value ent (whole_plan value id).
Proof.
  intros He Hne.
  assert (forall k, (k < String.length value)%nat -> replaced (spans (whole_plan value id)) k) as Hall.
  { intros k Hk. exists (mkReplacement 0 (String.length value) (Sentinel id)). split; [by left|]. cbn. lia. }
  constructor.
  - by apply whole_plan_ok.
  - intros sp k Hsp Hk _. apply Hall.
    pose proof (proj1 (Forall_forall _ _) (pattern_spans_in s Hs value) sp Hsp) as [_ H]. lia.
  - intros sp k Hx Hsp Hk. apply Hall.
    pose proof (proj1 (Forall_forall _ _) (pattern_spans_in s Hs _) sp Hsp) as [_ H].
    pose proof (escapeShadow_spec (list_ascii_of_string value)) as Hsh.
    pose proof (escapeShadow_None (list_ascii_of_string value)) as Hn.
    destruct (escapeShadow (list_ascii_of_string value)) as [shadow x]. cbn [fst snd] in *. destruct Hsh as [_ Hl].
    rewrite length_of_list_ascii, Hl, length_list_ascii in H by (intros ->; rewrite (proj1 Hn eq_refl) in Hx; done). lia.
  - intros k _ (sp & Hsp & Hk). apply Hall.
    pose proof (proj1 (Forall_forall _ _) (heuristics_in s Hs ent value He) sp Hsp) as [_ H]. lia.
  - intros r i n Hr _ Hin. apply elem_of_cons in Hr as [->|Hr]; [|by apply elem_of_nil in Hr]. cbn.
    apply escapes_in in Hin. lia.
Qed.

(** Both parts of the resolved spans, and the user's name: in the value, cutting no escape. *)
Lemma resolved_planned value ent ps hs hs' x :
  detected s value ent ps hs x -> detect s value ent = (ps, hs, x) ->
  Forall (span_in (String.length value)) hs' -> Forall (clean_span x) hs' -> (ps = [] -> hs' = hs) ->
  let '(res, red, ht) := resolveSpans ps hs' in
  planned value ent (add_user s value (mkPlan (map replacement_of res) red ht)).
Proof.
  intros [D1 D2 D3 D4 D5 D6 D7 D8] Hd Hin Hcl Hsame.
  assert (Forall (span_in (String.length value)) (ps ++ hs')) as Hall by by apply Forall_app.
  pose proof (plan_resolved _ ps hs' Hall) as Hp. pose proof (resolveSpans_spec ps hs') as Hr.
  destruct (resolveSpans ps hs') as [[res red] ht]. destruct Hp as [Hp Hcov].
  assert (resolved_ok (ps ++ hs') res red ht) as Hok.
  { apply Hr. eapply Forall_impl; [exact Hall|]. by intros y [Hy _]. }
  destruct (add_user_ok s value _ Hp) as [Hu Hmono]. cbn [spans] in Hmono.
  assert (forall k, covered (ps ++ hs') k -> replaced (spans (add_user s value (mkPlan (map replacement_of res) red ht))) k)
    as Hrep by (intros k Hk; by apply Hmono, Hcov).
  constructor.
  - done.
  - intros sp k Hsp Hk Hb. apply Hrep, covered_app. left. by eapply D6.
  - intros sp k Hx Hsp Hk. apply Hrep, covered_app. left. by eapply D7.
  - rewrite Hd. cbn. intros k E Hk. apply Hrep, covered_app. right. rewrite (Hsame E). by apply D8.
  - intros r i n Hr' Hne Hesc. pose proof (detect_escapes s value ent) as Hx. rewrite Hd in Hx. cbn in Hx.
    apply add_user_rest in Hr' as [Hr'|Hr']; [|done]. cbn [spans] in Hr'.
    apply list_elem_of_fmap in Hr' as (sp & -> & Hsp). cbn.
    assert (Forall (clean_span x) (ps ++ hs')) as Hclean by by apply Forall_app.
    split; eapply clean_cut; try done.
    + destruct (ro_start _ _ _ _ Hok sp Hsp) as (y & Hy & <- & _). exact (proj1 (proj1 (Forall_forall _ _) Hclean y Hy)).
    + destruct (ro_end _ _ _ _ Hok sp Hsp) as (y & Hy & <-). exact (proj2 (proj1 (Forall_forall _ _) Hclean y Hy)).
Qed.

Lemma planValueWith_planned value ent secretKey :
  (forall m, ent = Some m -> entropy s = Some m) -> (secretKey = true -> value <> "") ->
  planned value ent (planValueWith s value ent secretKey).
Proof.
  intros He Hk. unfold planValueWith. destruct secretKey; [by apply whole_planned; auto|].
  pose proof (detect_spec s Hs value ent He) as Hd.
  destruct (detect s value ent) as [[ps hs] x] eqn:Ed. cbn zeta beta iota.
  destruct (if _ && _ then base64Hit s value else None) as [id|] eqn:Eb.
  { apply whole_planned; [done|]. intros ->. destruct (_ && _) eqn:E in Eb; [|done].
    apply andb_true_iff in E as [_ E]. done. }
  set (hs' := match ent, ps, hs with Some m, _ :: _, _ :: _ => trimAtPatterns m value hs ps x | _, _, _ => hs end).
  assert (Forall (span_in (String.length value)) hs' /\ Forall (clean_span x) hs' /\ (ps = [] -> hs' = hs)) as (H1 & H2 & H3).
  { pose proof Hd as [D1 D2 D3 D4 D5 _ _ _]. unfold hs'. destruct ent as [m|]; [|done].
    destruct ps as [|p ps]; [done|]. destruct hs as [|h hs]; [done|].
    destruct (trimAtPatterns_spec m value x (h :: hs) (p :: ps)) as [G1 G2]; try done. by apply Hs, He. }
  pose proof (resolved_planned value ent ps hs hs' x Hd Ed H1 H2 H3) as H.
  by destruct (resolveSpans ps hs') as [[res red] ht].
Qed.
End Planned.

(** ** The engine [New] compiles *)

(** The corpora's law: a rule's spans, and the values behind configured key names, are in the value
    and not empty. *)
Class CorporaOk (corpora : Corpora) : Prop := {
  co_rules : forall name rules r value, packs_Load name = Ok rules -> r ∈ rules ->
    Forall (span_in (String.length value)) (MatchScanned r value);
  co_names : forall names value, Forall (span_in (String.length value)) (key_name_regexp names value)
}.

Section Compiled.
Context {u : GoUnicode} {log2 : MathLog2} {corpora : Corpora} {Hco : CorporaOk corpora}.

Definition pattern_ok (p : gatedPattern) : Prop :=
  forall value, Forall (span_in (String.length value)) (gp_m p value).
Definition gathered_ok (g : gathered) : Prop :=
  Forall pattern_ok (ga_patterns g) /\ forall m, ga_entropy g = Some m -> (1 <= minRun m)%nat.

Lemma add_rules_ok rs : forall g g', gathered_ok g ->
  (forall r value, r ∈ rs -> Forall (span_in (String.length value)) (MatchScanned r value)) ->
  add_rules g rs = Ok g' -> gathered_ok g'.
Proof.
  induction rs as [|r rs IH]; intros g g' Hg Hr; cbn [add_rules]; [by intros [= <-]|].
  destruct (add_rule g r) as [g1|e] eqn:E; cbn; [|done]. apply IH.
  - unfold add_rule in E. destruct (lift_err _ _) as [gb|]; cbn in E; [|done].
    assert (Forall pattern_ok (ga_patterns g ++ [mkGatedPattern (MatchScanned r) gb.1])) as Hp.
    { apply Forall_app. split; [apply Hg|]. constructor; [|constructor]. intros value. apply Hr. by left. }
    destruct (bool_decide _); [destruct (lift_err _ _) as [kb|]; cbn in E; [|done]|];
      injection E as <-; (split; [done|apply Hg]).
  - intros r' value Hin. apply Hr. by right.
Qed.

Lemma add_packs_ok cfg names : forall g g', gathered_ok g -> add_packs cfg g names = Ok g' -> gathered_ok g'.
Proof.
  induction names as [|name names IH]; intros g g' Hg; cbn [add_packs]; [by intros [= <-]|].
  destruct (name =? generic_entropy)%string; cbn.
  - apply IH. split; [apply Hg|]. intros m [= <-]. cbn. lia.
  - destruct (packs_Load name) as [rules|] eqn:E; cbn; [|done].
    destruct (add_rules g rules) as [g1|] eqn:E1; cbn; [|done]. apply IH. eapply add_rules_ok; [exact Hg| |exact E1].
    intros r value Hr. by eapply co_rules.
Qed.

Lemma New_engine_ok range cfg s : New range cfg = Ok s -> engine_ok s.
Proof.
  unfold New. destruct (_ <? _); [done|]. destruct (lift_err _ _) as [byFam|]; cbn; [|done].
  destruct (add_packs _ _ _) as [g|] eqn:E; cbn; [|done]. destruct (lift_err _ _) as [kb|]; cbn; [|done].
  intros [= <-]. apply add_packs_ok in E as [H1 H2]; [|by split; [constructor|]]. constructor; cbn; [|done].
  intros p value Hp. apply elem_of_app in Hp as [Hp|Hp].
  - by eapply Forall_forall in H1.
  - apply list_elem_of_singleton in Hp as ->. cbn. rewrite Forall_map. eapply Forall_impl; [apply co_names|].
    by intros y [Hy1 Hy2].
Qed.
End Compiled.

(** ** The theorems *)

Section Theorems.
Context {u : GoUnicode} {log2 : MathLog2} {corpora : Corpora} {Hco : CorporaOk corpora}.

Lemma planValue_planned range cfg s value secretKey field family :
  New range cfg = Ok s -> (secretKey = true -> value <> "") ->
  planned s value (if Exempt (exempt s) family field then None else entropy s)
    (planValue s value secretKey field family).
Proof.
  intros Hn Hk. apply New_engine_ok in Hn. apply planValueWith_planned; [done| |done].
  intros m. by destruct (Exempt _ _ _).
Qed.

(** C24: what an engine compiled by [New] replaces in a value: the spans are in order, disjoint and
    inside the value, so [apply] slices nothing out of range; the ledger counts the replaced bytes
    exactly, and the rules' hits; whatever a pattern found in the value, and in the shadow its escapes
    leave, is replaced, whatever the field's exemptions (a hit on nothing but backslashes in a value
    with escapes excepted); and what the entropy backstop found in a field not exempt is replaced when
    no pattern found anything. *)
Theorem plan_sound range cfg s value secretKey field family :
  New range cfg = Ok s -> (secretKey = true -> value <> "") ->
  let p := planValue s value secretKey field family in
  ordered 0 (spans p) (String.length value) /\
  redacted p = Zsum (map rs_width (spans p)) /\
  slen (plan_apply p value) = slen value - redacted p + Zsum (map (fun r => slen (Replacement r)) (spans p)) /\
  (forall id, id <> path_user -> default 0 (hits p !! id) = Zlen (filter (is_rule id) (spans p))) /\
  (forall sp k, sp ∈ appendPatternSpans s value -> (Start sp <= k < End_ sp)%nat ->
     only_backslashes (slice value (Start sp) (End_ sp)) = false \/ has_escape (list_ascii_of_string value) = false ->
     replaced (spans p) k) /\
  (forall sp k, has_escape (list_ascii_of_string value) = true ->
     sp ∈ appendPatternSpans s (string_of_list_ascii (escapeShadow (list_ascii_of_string value)).1) ->
     (Start sp <= k < End_ sp)%nat -> replaced (spans p) k) /\
  (forall m sp k, Exempt (exempt s) family field = false -> entropy s = Some m -> sp ∈ entropy_Match m value ->
     (detect s value (Some m)).1.1 = [] -> (Start sp <= k < End_ sp)%nat -> replaced (spans p) k).
Proof.
  intros Hn Hk. destruct (planValue_planned range cfg s value secretKey field family Hn Hk) as [[H1 H2 H3] H4 H5 H6 _].
  cbv zeta. split; [done|]. split; [done|]. split.
  { unfold plan_apply. rewrite (apply_from_length _ _ _ H1), H2. lia. }
  split; [done|]. split; [done|]. split; [done|].
  intros m sp k Hex Hent Hsp Hd Hin. rewrite Hex, Hent in H6. apply H6; [done|]. by exists sp.
Qed.

(** No detector cuts an escape: wherever a replaced span of an engine compiled by [New] starts or
    ends, it is not inside one of the escapes a reader of the value would find. *)
Theorem plan_keeps_escapes range cfg s value secretKey field family r i n :
  New range cfg = Ok s -> (secretKey = true -> value <> "") ->
  r ∈ spans (planValue s value secretKey field family) -> Replacement r <> UserPlaceholder ->
  (i, n) ∈ escapes_of value ->
  ~ (i < rs_Start r < i + n)%nat /\ ~ (i < rs_End r < i + n)%nat.
Proof.
  intros Hn Hk Hr Hu Hesc.
  by apply (pn_escapes _ _ _ _ (planValue_planned range cfg s value secretKey field family Hn Hk) r i n).
Qed.
End Theorems.

(** ** A concrete engine *)

Module SampleEngine.
#[export] Instance unicode : GoUnicode := {| wide_upper := fun s => s; wide_lower := fun s => s |}.
#[export] Instance log : MathLog2 := fun x => x.

(** One pack of one rule, for the literal [hunter2]. *)
Definition find (value : string) : list Span :=
  match str_index "hunter2" value with Some i => [mkSpan i (i + 7) "sample-rule"] | None => [] end.
#[export] Instance sample_corpora : Corpora :=
  {| packs_Load := fun name => if (name =? "sample")%string then Ok [mkRule "sample-rule" ["hunter2"] find] else Err (errors_New "no corpus");
     key_name_regexp := fun _ _ => [] |}.

#[export] Instance sample_corpora_ok : CorporaOk sample_corpora.
Proof.
  split; [|constructor]. intros name rules r value. cbn. destruct (name =? "sample")%string; [|done].
  intros [= <-] Hr. apply list_elem_of_singleton in Hr as ->. cbn. unfold find.
  destruct (str_index "hunter2" value) as [i|] eqn:E; [|constructor].
  apply str_index_spec, has_prefix_length in E. rewrite length_str_drop in E. cbn in E.
  constructor; [|constructor]. split; cbn; lia.
Qed.

Definition config : Config :=
  mkScrubConfig ["sample"] ∅ "nick" ["*_TOKEN"] DefaultEntropyConfig ∅.
Definition range (m : gmap string (list string)) : list (string * list string) := map_to_list m.
Definition compiled : result scrub_error Scrubber := New range config.

(** JSON text inside a string, with a secret: [{\"pw\":\"hunter2\"}]. *)
Definition value : string := "{\" +:+ String "034" "pw\" +:+ String "034" ":\" +:+ String "034" "hunter2\" +:+ String "034" "}".
Definition engine : Scrubber :=
  match compiled with Ok s => s | Err _ => mkScrubber [] None "" (mkKeyNames (fun _ => []) [] []) (NewExemptionSet ∅) ∅
    (Build NewPrefilterBuilder) [] (Build NewPrefilterBuilder) end.
Lemma engine_compiles : New range config = Ok engine.
Proof. unfold engine. change (New range config) with compiled. destruct compiled eqn:E; [done|]. exfalso. revert E. vm_compute. discriminate. Qed.
#[local] Opaque engine config.

Lemma plan_sound_witness : ordered 0 (spans (planValue engine value false "text" "claude-code")) (String.length value).
Proof. exact (proj1 (plan_sound range config engine value false "text" "claude-code" engine_compiles (fun e => False_ind _ (diff_false_true e)))). Defined.

Lemma sample_span :
  mkReplacement 10 17 "__REDACTED:sample-rule__" ∈ spans (planValue engine value false "text" "claude-code").
Proof. apply list_elem_of_lookup. exists 0%nat. vm_compute. reflexivity. Qed.
Lemma sample_escape : (17, 2)%nat ∈ escapes_of value.
Proof. apply list_elem_of_lookup. exists 3%nat. vm_compute. reflexivity. Qed.

Lemma plan_keeps_escapes_witness : ~ (17 < 10 < 17 + 2)%nat /\ ~ (17 < 17 < 17 + 2)%nat.
Proof.
  refine (plan_keeps_escapes range config engine value false "text" "claude-code"
    (mkReplacement 10 17 "__REDACTED:sample-rule__") 17 2 engine_compiles _ sample_span _ sample_escape).
  - intros e. exact (False_ind _ (diff_false_true e)).
  - intros e. discriminate e.
Defined.

(** The rewriting of the user's name is not held to escapes: a user called [nick] is found in the
    text [say \nick], whose [\n] is an escape, and the replacement leaves a lone backslash behind. *)
Theorem path_user_cuts_escape :
  exists s r, New range config = Ok s /\ r ∈ spans (planValue s "say \nick" false "text" "claude-code") /\
    (4, 2)%nat ∈ escapes_of "say \nick" /\ (4 < rs_Start r < 4 + 2)%nat /\
    plan_apply (planValue s "say \nick" false "text" "claude-code") "say \nick" = "say \__USER__".
Proof.
  exists engine, (mkReplacement 5 9 "__USER__"). split; [apply engine_compiles|]. split_and!.
  - apply list_elem_of_lookup. exists 0%nat. vm_compute. reflexivity.
  - apply list_elem_of_lookup. exists 0%nat. vm_compute. reflexivity.
  - cbn. lia.
  - cbn. lia.
  - vm_compute. reflexivity.
Qed.
End SampleEngine.
