(* ===== verification/JsonText.v ===== *)
(** [encoding/json/jsontext] as the walk uses it: the tokens of strict JSON text (with duplicate names
    and invalid UTF-8 allowed), [AppendUnquote] and [AppendQuote]; and the grammar of RFC 8259, which
    the walk's theorems are stated in. *)

From S2P Require Import Prelude GoLib GoUrl GoJson.

Definition json_space (c : ascii) : bool :=
  (c =? " ")%char || (c =? "009")%char || (c =? "010")%char || (c =? "013")%char.
Fixpoint skip_space (s : string) : string :=
  match s with
  | String c r => if json_space c then skip_space r else s
  | "" => ""
  end.

(** ** Strings *)

Definition bslash : ascii := "092".
Definition quote_mark : ascii := "034".
Definition is_hex_digit (c : ascii) : bool := if IP.hex_value c then true else false.
Definition simple_escape (c : ascii) : bool :=
  (c =? quote_mark)%char || (c =? bslash)%char || (c =? "/")%char || (c =? "b")%char || (c =? "f")%char ||
  (c =? "n")%char || (c =? "r")%char || (c =? "t")%char.

(** The body of a string token and what follows its closing quote, from behind the opening one.
    Control bytes and unknown escapes are errors; any byte from 128 on is let through. *)
Fixpoint lex_body (s : string) : option (string * string) :=
  match s with
  | "" => None
  | String c r =>
      if (c =? quote_mark)%char then Some ("", r)
      else if byte_code c <? 32 then None
      else if (c =? bslash)%char then
        match r with
        | String d r1 =>
            if simple_escape d then '(b, t) ← lex_body r1; Some (String c (String d b), t)
            else if (d =? "u")%char then
              match r1 with
              | String h1 (String h2 (String h3 (String h4 r2))) =>
                  if is_hex_digit h1 && is_hex_digit h2 && is_hex_digit h3 && is_hex_digit h4
                  then '(b, t) ← lex_body r2;
                       Some (String c (String d (String h1 (String h2 (String h3 (String h4 b))))), t)
                  else None
              | _ => None
              end
            else None
        | "" => None
        end
      else '(b, t) ← lex_body r; Some (String c b, t)
  end.

(** A whole string token, quotes included. *)
Definition lex_string (s : string) : option (string * string) :=
  match s with
  | String c r =>
      if (c =? quote_mark)%char
      then '(b, t) ← lex_body r; Some (String quote_mark (b +:+ String quote_mark ""), t)
      else None
  | "" => None
  end.

(** ** Numbers and literals *)

Fixpoint lex_digits (s : string) : string * string :=
  match s with
  | String c r => if is_digit c then let '(d, t) := lex_digits r in (String c d, t) else ("", s)
  | "" => ("", "")
  end.
Definition lex_digits1 (s : string) : option (string * string) :=
  let '(d, t) := lex_digits s in if (d =? "")%string then None else Some (d, t).

Definition lex_integer (s : string) : option (string * string) :=
  match s with
  | String c r => if (c =? "0")%char then Some (String c "", r) else lex_digits1 s
  | "" => None
  end.
Definition lex_fraction (s : string) : option (string * string) :=
  match s with
  | String c r => if (c =? ".")%char then '(d, t) ← lex_digits1 r; Some (String c d, t) else Some ("", s)
  | "" => Some ("", "")
  end.
Definition lex_exponent (s : string) : option (string * string) :=
  match s with
  | String c r =>
      if (c =? "e")%char || (c =? "E")%char then
        match r with
        | String g r1 =>
            if (g =? "+")%char || (g =? "-")%char
            then '(d, t) ← lex_digits1 r1; Some (String c (String g d), t)
            else '(d, t) ← lex_digits1 r; Some (String c d, t)
        | "" => None
        end
      else Some ("", s)
  | "" => Some ("", "")
  end.
Definition lex_number (s : string) : option (string * string) :=
  let '(sign, s1) := match s with
                     | String c r => if (c =? "-")%char then (String c "", r) else ("", s)
                     | "" => ("", "")
                     end in
  '(i, s2) ← lex_integer s1;
  '(f, s3) ← lex_fraction s2;
  '(e, s4) ← lex_exponent s3;
  Some (sign +:+ i +:+ f +:+ e, s4).

Definition lex_literal (s : string) : option (string * string) :=
  if has_prefix "null" s then Some ("null", str_drop 4 s)
  else if has_prefix "true" s then Some ("true", str_drop 4 s)
  else if has_prefix "false" s then Some ("false", str_drop 5 s)
  else None.

(** [Kind] of what begins a text, normalized. *)
Inductive Kind := KindObject | KindArray | KindString | KindNumber | KindOther.
Definition kind_of (s : string) : Kind :=
  match s with
  | String c _ =>
      if (c =? "{")%char then KindObject
      else if (c =? "[")%char then KindArray
      else if (c =? quote_mark)%char then KindString
      else if (c =? "-")%char || is_digit c then KindNumber
      else KindOther
  | "" => KindOther
  end.

(** ** [AppendUnquote] *)

Definition hex_unit (a b c d : ascii) : option Z :=
  match IP.hex_value a, IP.hex_value b, IP.hex_value c, IP.hex_value d with
  | Some x, Some y, Some z, Some w => Some (((x * 16 + y) * 16 + z) * 16 + w)
  | _, _, _, _ => None
  end.

(** [utf8.AppendRune] of a code point that is no surrogate. *)
Definition rune_bytes (r : Z) : string :=
  let tail k := byte_of (128 + Z.land (Z.shiftr r k) 63) in
  if r <? 128 then String (byte_of r) ""
  else if r <? 2048 then String (byte_of (192 + Z.shiftr r 6)) (String (tail 0) "")
  else if r <? 65536 then String (byte_of (224 + Z.shiftr r 12)) (String (tail 6) (String (tail 0) ""))
  else String (byte_of (240 + Z.shiftr r 18)) (String (tail 12) (String (tail 6) (String (tail 0) ""))).

Definition high_surrogate (v : Z) : bool := (55296 <=? v) && (v <? 56320).
Definition low_surrogate (v : Z) : bool := (56320 <=? v) && (v <? 57344).

Definition unescape_byte (c : ascii) : ascii :=
  if (c =? "b")%char then "008"
  else if (c =? "f")%char then "012"
  else if (c =? "n")%char then "010"
  else if (c =? "r")%char then "013"
  else if (c =? "t")%char then "009"
  else c.

(** The decoded text of a token's body: [skip] bytes belong to an encoding already copied; bytes that
    are no UTF-8 and halves of surrogate pairs become U+FFFD. *)
Fixpoint unquote_body (skip : nat) (s : string) : string :=
  match s with
  | "" => ""
  | String c r =>
      match skip with
      | S k => String c (unquote_body k r)
      | O =>
          if (c =? bslash)%char then
            match r with
            | String d r1 =>
                if (d =? "u")%char then
                  match r1 with
                  | String h1 (String h2 (String h3 (String h4 r2))) =>
                      match hex_unit h1 h2 h3 h4 with
                      | None => ""
                      | Some v =>
                          if high_surrogate v then
                            match r2 with
                            | String e1 (String e2 (String g1 (String g2 (String g3 (String g4 r3))))) =>
                                match hex_unit g1 g2 g3 g4 with
                                | Some w =>
                                    if (e1 =? bslash)%char && (e2 =? "u")%char && low_surrogate w
                                    then rune_bytes (65536 + (v - 55296) * 1024 + (w - 56320)) +:+ unquote_body O r3
                                    else replacement +:+ unquote_body O r2
                                | None => replacement +:+ unquote_body O r2
                                end
                            | _ => replacement +:+ unquote_body O r2
                            end
                          else if low_surrogate v then replacement +:+ unquote_body O r2
                          else rune_bytes v +:+ unquote_body O r2
                      end
                  | _ => ""
                  end
                else String (unescape_byte d) (unquote_body O r1)
            | "" => ""
            end
          else match rune_len s with
               | O => replacement +:+ unquote_body O r
               | S k => String c (unquote_body k r)
               end
      end
  end.

(** ** [AppendQuote] *)

(** Only what must be escaped is. *)
Definition quote_byte (c : ascii) : string :=
  let b := byte_code c in
  if (b =? 34) || (b =? 92) then String bslash (String c "")
  else if b =? 8 then "\b"
  else if b =? 12 then "\f"
  else if b =? 10 then "\n"
  else if b =? 13 then "\r"
  else if b =? 9 then "\t"
  else if b <? 32 then "\u00" +:+ hex2 b
  else String c "".
Fixpoint quote_bytes (s : string) : string :=
  match s with "" => "" | String c r => quote_byte c +:+ quote_bytes r end.

(** Text that is not UTF-8 is an error. *)
Definition AppendQuote (s : string) : option string :=
  if valid_utf8 s then Some (String quote_mark (quote_bytes s +:+ String quote_mark "")) else None.

(** ** The grammar *)

Inductive json :=
  | JLiteral (tok : string)
  | JNumber (tok : string)
  | JString (raw : string)
  | JArray (items : list json)
  | JObject (members : list (string * json)).

Definition all_space (s : string) : bool := str_forallb json_space s.
Definition string_token (raw : string) : Prop := lex_string raw = Some (raw, "").
Definition number_token (tok : string) : Prop := lex_number tok = Some (tok, "").
Definition literal_token (tok : string) : bool :=
  (tok =? "null")%string || (tok =? "true")%string || (tok =? "false")%string.

(** [spells v t]: the text [t] is the value [v], white space between the tokens being free. *)
Inductive spells : json -> string -> Prop :=
  | sp_literal tok : literal_token tok = true -> spells (JLiteral tok) tok
  | sp_number tok : number_token tok -> spells (JNumber tok) tok
  | sp_string raw : string_token raw -> spells (JString raw) raw
  | sp_array_nil a : all_space a = true -> spells (JArray []) ("[" +:+ a +:+ "]")
  | sp_array l t : spells_items l t -> spells (JArray l) ("[" +:+ t +:+ "]")
  | sp_object_nil a : all_space a = true -> spells (JObject []) ("{" +:+ a +:+ "}")
  | sp_object l t : spells_members l t -> spells (JObject l) ("{" +:+ t +:+ "}")
with spells_items : list json -> string -> Prop :=
  | si_one v t a b : spells v t -> all_space a = true -> all_space b = true ->
      spells_items [v] (a +:+ t +:+ b)
  | si_more v t l u a b : spells v t -> all_space a = true -> all_space b = true -> spells_items l u ->
      spells_items (v :: l) (a +:+ t +:+ b +:+ "," +:+ u)
with spells_members : list (string * json) -> string -> Prop :=
  | sm_one k v t a b c d : string_token k -> spells v t ->
      all_space a = true -> all_space b = true -> all_space c = true -> all_space d = true ->
      spells_members [(k, v)] (a +:+ k +:+ b +:+ ":" +:+ c +:+ t +:+ d)
  | sm_more k v t l u a b c d : string_token k -> spells v t ->
      all_space a = true -> all_space b = true -> all_space c = true -> all_space d = true ->
      spells_members l u ->
      spells_members ((k, v) :: l) (a +:+ k +:+ b +:+ ":" +:+ c +:+ t +:+ d +:+ "," +:+ u).

(** What the tokens of [JsonText] promise: a token read is a prefix of the text and a token of the
    grammar whatever follows it, and what [AppendQuote] writes is a string token that decodes to what
    was quoted. *)

Lemma string_ind_length (P : string -> Prop) :
  (forall s, (forall t, (String.length t < String.length s)%nat -> P t) -> P s) -> forall s, P s.
Proof. intros H s. induction s as [s IH] using (induction_ltof1 _ String.length). apply H, IH. Qed.

Lemma skip_space_spec s : exists a, s = a +:+ skip_space s /\ all_space a = true.
Proof.
  induction s as [|c s IH]; [by exists ""|]. cbn [skip_space]. destruct (json_space c) eqn:E.
  - destruct IH as (a & Ha & Hs). exists (String c a). cbn. rewrite <- Ha. split; [done|]. unfold all_space in *. cbn. by rewrite E.
  - by exists "".
Qed.

Lemma skip_space_length s : (String.length (skip_space s) <= String.length s)%nat.
Proof. induction s as [|c s IH]; cbn; [lia|]. destruct (json_space c); cbn; lia. Qed.

(** ** Tokens *)

Lemma lex_body_spec s : forall b t, lex_body s = Some (b, t) ->
  s = b +:+ String quote_mark t /\ forall t', lex_body (b +:+ String quote_mark t') = Some (b, t').
Proof.
  induction s as [s IH] using string_ind_length. intros b t H. destruct s as [|c r]; [done|]. cbn [lex_body] in H.
  destruct (c =? quote_mark)%char eqn:Eq.
  { injection H as <- <-. apply Ascii.eqb_eq in Eq as ->. split; [done|]. intros t'. cbn. done. }
  destruct (byte_code c <? 32) eqn:E32; [done|]. destruct (c =? bslash)%char eqn:Eb.
  - destruct r as [|d r1]; [done|]. destruct (simple_escape d) eqn:Es.
    + destruct (lex_body r1) as [[b' t1]|] eqn:E1; [|done]. injection H as <- <-.
      destruct (IH r1 ltac:(cbn; lia) _ _ E1) as [-> H']. split; [done|]. intros t'. cbn [append lex_body].
      by rewrite Eq, E32, Eb, Es, H'.
    + destruct (d =? "u")%char eqn:Eu; [|done].
      destruct r1 as [|h1 [|h2 [|h3 [|h4 r2]]]]; try discriminate H.
      destruct (_ && _) eqn:Eh; [|done]. destruct (lex_body r2) as [[b' t1]|] eqn:E1; [|done]. injection H as <- <-.
      destruct (IH r2 ltac:(cbn; lia) _ _ E1) as [-> H']. split; [done|]. intros t'. cbn [append lex_body].
      by rewrite Eq, E32, Eb, Es, Eu, Eh, H'.
  - destruct (lex_body r) as [[b' t1]|] eqn:E1; [|done]. injection H as <- <-.
    destruct (IH r ltac:(cbn; lia) _ _ E1) as [-> H']. split; [done|]. intros t'. cbn [append lex_body].
    by rewrite Eq, E32, Eb, H'.
Qed.

Lemma lex_string_spec s raw t : lex_string s = Some (raw, t) -> s = raw +:+ t /\ string_token raw /\ raw <> "".
Proof.
  unfold lex_string. destruct s as [|c r]; [done|]. destruct (c =? quote_mark)%char eqn:Eq; [|done].
  destruct (lex_body r) as [[b t1]|] eqn:E; [|done]. intros [= <- <-]. apply Ascii.eqb_eq in Eq as ->.
  destruct (lex_body_spec _ _ _ E) as [-> H]. split; [|split; [|done]].
  - cbn. by rewrite string_app_assoc.
  - unfold string_token, lex_string. cbn. by rewrite H.
Qed.

Lemma lex_digits_spec s d t : lex_digits s = (d, t) -> s = d +:+ t /\ lex_digits d = (d, "").
Proof.
  revert d t. induction s as [|c r IH]; intros d t; cbn [lex_digits]; [by intros [= <- <-]|].
  destruct (is_digit c) eqn:E; [|by intros [= <- <-]].
  destruct (lex_digits r) as [d' t'] eqn:E'. intros [= <- <-]. destruct (IH _ _ eq_refl) as [-> H].
  split; [done|]. cbn. by rewrite E, H.
Qed.

Lemma lex_digits1_spec s d t : lex_digits1 s = Some (d, t) -> s = d +:+ t /\ lex_digits1 d = Some (d, "") /\ d <> "".
Proof.
  unfold lex_digits1. destruct (lex_digits s) as [d' t'] eqn:E. destruct (d' =? "")%string eqn:E0; [done|].
  intros [= <- <-]. destruct (lex_digits_spec _ _ _ E) as [H1 H2]. rewrite H2, E0.
  split_and!; [done|done|]. intros ->. done.
Qed.

(** A text that goes on with no digit ends a run of digits. *)
Definition digit_free (x : string) : bool := match x with String c _ => negb (is_digit c) | "" => true end.

Definition dot_free (x : string) : bool := match x with String c _ => negb (c =? ".")%char | "" => true end.

Lemma lex_digits_app d x : lex_digits d = (d, "") -> digit_free x = true -> lex_digits (d +:+ x) = (d, x).
Proof.
  intros Hd Hx. induction d as [|c d IH].
  - destruct x as [|c x]; [done|]. cbn in *. apply negb_true_iff in Hx. by rewrite Hx.
  - cbn in Hd |- *. destruct (is_digit c); [|done]. destruct (lex_digits d) as [d' t'] eqn:E.
    injection Hd as -> ->. by rewrite IH.
Qed.

Lemma lex_digits1_app d x : lex_digits1 d = Some (d, "") -> digit_free x = true -> lex_digits1 (d +:+ x) = Some (d, x).
Proof.
  unfold lex_digits1. destruct (lex_digits d) as [d' t'] eqn:E. destruct (d' =? "")%string eqn:E0; [done|].
  intros [= -> ->] Hx. by rewrite (lex_digits_app d x E Hx), E0.
Qed.

Lemma lex_exponent_spec s e t : lex_exponent s = Some (e, t) ->
  s = e +:+ t /\ lex_exponent e = Some (e, "") /\ digit_free e = true /\ dot_free e = true.
Proof.
  unfold lex_exponent. destruct s as [|c r]; [by intros [= <- <-]|]. destruct (_ || _) eqn:Ec; [|by intros [= <- <-]].
  assert (is_digit c = false /\ (c =? ".")%char = false) as [Hc Hdot].
  { apply orb_true_iff in Ec as [Ec|Ec]; by apply Ascii.eqb_eq in Ec as ->. }
  destruct r as [|g r1]; [done|]. destruct ((g =? "+")%char || (g =? "-")%char) eqn:Eg.
  - destruct (lex_digits1 r1) as [[d t1]|] eqn:E; [|done]. intros [= <- <-].
    destruct (lex_digits1_spec _ _ _ E) as (-> & H & Hne). cbn [append]. rewrite Ec, Eg, H.
    split_and!; [done|done|unfold digit_free; by rewrite Hc|unfold dot_free; by rewrite Hdot].
  - destruct (lex_digits1 (String g r1)) as [[d t1]|] eqn:E; [|done]. intros [= <- <-].
    destruct (lex_digits1_spec _ _ _ E) as (Hd & H & Hne). destruct d as [|d0 d]; [done|].
    injection Hd as -> Hd. cbn [append]. rewrite Ec, Eg, H, Hd.
    split_and!; [done|done|unfold digit_free; by rewrite Hc|unfold dot_free; by rewrite Hdot].
Qed.

Lemma lex_fraction_spec s f t : lex_fraction s = Some (f, t) ->
  s = f +:+ t /\ digit_free f = true /\
  forall e, digit_free e = true -> dot_free e = true -> lex_fraction (f +:+ e) = Some (f, e).
Proof.
  assert (forall e, dot_free e = true -> lex_fraction e = Some ("", e)) as Hnone.
  { intros [|c e] H; [done|]. unfold dot_free in H. cbn [lex_fraction]. by destruct (c =? ".")%char. }
  unfold lex_fraction at 1. destruct s as [|c r]; [intros [= <- <-]; split_and!; [done|done|intros; by apply Hnone]|].
  destruct (c =? ".")%char eqn:Ec; [|intros [= <- <-]; split_and!; [done|done|intros; by apply Hnone]].
  destruct (lex_digits1 r) as [[d t1]|] eqn:E; [|done]. intros [= <- <-].
  destruct (lex_digits1_spec _ _ _ E) as (-> & H & Hne). apply Ascii.eqb_eq in Ec as ->. split_and!; [done|done|].
  intros e He _. cbn. by rewrite (lex_digits1_app d e H He).
Qed.

Lemma lex_integer_spec s i t : lex_integer s = Some (i, t) ->
  s = i +:+ t /\ i <> "" /\ forall x, digit_free x = true -> lex_integer (i +:+ x) = Some (i, x).
Proof.
  unfold lex_integer. destruct s as [|c r]; [done|]. destruct (c =? "0")%char eqn:Ec.
  - intros [= <- <-]. split_and!; [done|done|]. intros x _. cbn. by rewrite Ec.
  - intros H. destruct (lex_digits1_spec _ _ _ H) as (Hs & Hd & Hne). split_and!; [done|done|].
    intros x Hx. destruct i as [|c' i]; [done|]. injection Hs as <- Hs. cbn [append]. rewrite Ec.
    exact (lex_digits1_app _ x Hd Hx).
Qed.

Lemma lex_number_spec s tok t : lex_number s = Some (tok, t) -> s = tok +:+ t /\ number_token tok /\ tok <> "".
Proof.
  unfold number_token, lex_number.
  destruct (match s with String c r => if (c =? "-")%char then (String c "", r) else ("", s) | "" => ("", "") end)
    as [sign s1] eqn:Es.
  destruct (lex_integer s1) as [[i s2]|] eqn:Ei; [|done]. cbn [mbind option_bind].
  destruct (lex_fraction s2) as [[f s3]|] eqn:Ef; [|done]. cbn [mbind option_bind].
  destruct (lex_exponent s3) as [[e s4]|] eqn:Ee; [|done]. cbn [mbind option_bind]. intros [= <- <-].
  destruct (lex_integer_spec _ _ _ Ei) as (-> & Hi & Hi').
  destruct (lex_fraction_spec _ _ _ Ef) as (-> & Hf & Hf').
  destruct (lex_exponent_spec _ _ _ Ee) as (-> & He & He1 & He2).
  assert (s = sign +:+ i +:+ f +:+ e +:+ s4 /\
    match sign +:+ i +:+ f +:+ e with
    | String c r => if (c =? "-")%char then (String c "", r) else ("", sign +:+ i +:+ f +:+ e)
    | "" => ("", "") end = (sign, i +:+ f +:+ e)) as [-> Hsign].
  { destruct s as [|c r]; [by injection Es as <- Hq; destruct i|]. destruct (c =? "-")%char eqn:Ec.
    - injection Es as <- ->. cbn. by rewrite Ec.
    - injection Es as <- Hq. destruct i as [|c' i]; [done|]. injection Hq as <- ->. split; [done|]. cbn. by rewrite Ec. }
  split_and!.
  - by rewrite !string_app_assoc.
  - rewrite Hsign, Hi'.
    2:{ destruct f; [done|]. done. }
    cbn [mbind option_bind]. rewrite Hf' by done. cbn [mbind option_bind]. by rewrite He.
  - destruct sign; [|done]. cbn. by destruct i.
Qed.

Lemma lex_literal_spec s tok t : lex_literal s = Some (tok, t) -> s = tok +:+ t /\ literal_token tok = true /\ tok <> "".
Proof.
  unfold lex_literal.
  destruct (has_prefix "null" s) eqn:E1; [|destruct (has_prefix "true" s) eqn:E2; [|destruct (has_prefix "false" s) eqn:E3; [|done]]];
    intros [= <- <-]; [apply has_prefix_spec in E1 as [r ->]|apply has_prefix_spec in E2 as [r ->]|apply has_prefix_spec in E3 as [r ->]];
    split_and!; done.
Qed.

(** ** What is quoted *)

Lemma hex2_digits n : exists h1 h2, hex2 n = String h1 (String h2 "") /\ is_hex_digit h1 = true /\ is_hex_digit h2 = true.
Proof.
  assert (forall k, is_hex_digit (default "0"%char (String.get k "0123456789abcdef")) = true) as H.
  { intros k. do 16 (destruct k as [|k]; [reflexivity|]). by destruct k. }
  unfold hex2. eexists _, _. split; [reflexivity|]. by split.
Qed.

Lemma lex_quote_byte c x : lex_body (quote_byte c +:+ x) =
  '(b, t) ← lex_body x; Some (quote_byte c +:+ b, t).
Proof.
  unfold quote_byte. destruct ((byte_code c =? 34) || (byte_code c =? 92)) eqn:E1.
  { assert (simple_escape c = true) as Hs.
    { apply orb_true_iff in E1 as [E|E]; apply Z.eqb_eq in E;
        rewrite <- (byte_of_code c), E; reflexivity. }
    cbn [append lex_body]. rewrite Hs. destruct (lex_body x) as [[b t]|]; reflexivity. }
  destruct (byte_code c =? 8); [cbn; by destruct (lex_body x) as [[b t]|]|].
  destruct (byte_code c =? 12); [cbn; by destruct (lex_body x) as [[b t]|]|].
  destruct (byte_code c =? 10); [cbn; by destruct (lex_body x) as [[b t]|]|].
  destruct (byte_code c =? 13); [cbn; by destruct (lex_body x) as [[b t]|]|].
  destruct (byte_code c =? 9); [cbn; by destruct (lex_body x) as [[b t]|]|].
  destruct (byte_code c <? 32) eqn:E2.
  { destruct (hex2_digits (byte_code c)) as (h1 & h2 & -> & H1 & H2). cbn [append].
    change (lex_body (String "\" (String "u" (String "0" (String "0" (String h1 (String h2 x)))))))
      with (if is_hex_digit h1 && is_hex_digit h2 then '(b, t) ← lex_body x;
              Some (String "\" (String "u" (String "0" (String "0" (String h1 (String h2 b))))), t) else None).
    rewrite H1, H2. done. }
  cbn [append lex_body]. apply orb_false_iff in E1 as [Ea Eb].
  assert ((c =? quote_mark)%char = false) as -> by (apply Ascii.eqb_neq; intros ->; done).
  rewrite E2. assert ((c =? bslash)%char = false) as -> by (apply Ascii.eqb_neq; intros ->; done).
  by destruct (lex_body x) as [[b t]|].
Qed.

Lemma lex_quote_bytes s t : lex_body (quote_bytes s +:+ String quote_mark t) = Some (quote_bytes s, t).
Proof.
  induction s as [|c s IH]; [done|]. cbn [quote_bytes]. rewrite string_app_assoc, lex_quote_byte, IH. done.
Qed.

Lemma AppendQuote_token s q : AppendQuote s = Some q -> string_token q.
Proof.
  unfold AppendQuote. destruct (valid_utf8 s); [|done]. intros [= <-]. unfold string_token, lex_string.
  cbn. by rewrite lex_quote_bytes.
Qed.

(** ** What is quoted decodes to itself *)

Fixpoint conts (k : nat) (s : string) : bool :=
  match k, s with
  | S k, String c r => is_cont c && conts k r
  | S _, "" => false
  | O, _ => true
  end.

Lemma rune_len_conts c r k : rune_len (String c r) = S k ->
  conts k r = true /\ (k = 0%nat -> byte_code c < 128) /\ ((0 < k)%nat -> 128 <= byte_code c).
Proof.
  unfold rune_len. cbv zeta. destruct (byte_code c <? 128) eqn:E0; [intros [= <-]; apply Z.ltb_lt in E0; split_and!; [done|done|lia]|].
  apply Z.ltb_ge in E0. destruct r as [|c1 r1]; [done|]. destruct (_ && _).
  { destruct (is_cont c1) eqn:E1; [|done]. intros [= <-]. cbn. rewrite E1. split_and!; [done|done|lia]. }
  destruct r1 as [|c2 r2]; [done|]. destruct (_ && _).
  { destruct (is_cont c1 && is_cont c2) eqn:E1; cbn [andb]; [|done]. apply andb_true_iff in E1 as [E1 E2].
    destruct (_ && _); [|done]. intros [= <-]. cbn. rewrite E1, E2. split_and!; [done|done|lia]. }
  destruct r2 as [|c3 r3]; [done|]. destruct (_ && _); [|done].
  destruct (is_cont c1 && is_cont c2 && is_cont c3) eqn:E1; cbn [andb]; [|done].
  apply andb_true_iff in E1 as [E1 E3]. apply andb_true_iff in E1 as [E1 E2].
  destruct (_ && _); [|done]. intros [= <-]. cbn. rewrite E1, E2, E3. split_and!; [done|done|lia].
Qed.

Lemma quote_byte_high c : 128 <= byte_code c -> quote_byte c = String c "".
Proof.
  intros H. unfold quote_byte.
  repeat match goal with |- context [?a =? ?b] => rewrite (proj2 (Z.eqb_neq a b)) by lia end.
  by rewrite (proj2 (Z.ltb_ge _ _)) by lia.
Qed.
Lemma is_cont_high c : is_cont c = true -> 128 <= byte_code c.
Proof. unfold is_cont. rewrite andb_true_iff, !Z.leb_le. lia. Qed.

(** The bytes of an encoding go through quoting as they are. *)
Lemma rune_len_quoted c r k : rune_len (String c r) = S k -> rune_len (String c (quote_bytes r)) = S k.
Proof.
  intros H. pose proof (rune_len_conts c r k H) as (Hc & H0 & H1). revert H. unfold rune_len. cbv zeta.
  destruct (byte_code c <? 128) eqn:E0; [done|].
  assert (forall d t, is_cont d = true -> quote_bytes (String d t) = String d (quote_bytes t)) as Hq.
  { intros d t Hd. cbn [quote_bytes]. by rewrite quote_byte_high by by apply is_cont_high. }
  destruct k as [|[|[|[|k]]]].
  - apply Z.ltb_ge in E0. specialize (H0 eq_refl). lia.
  - destruct r as [|c1 r1]; [done|]. cbn in Hc. rewrite andb_true_r in Hc. rewrite (Hq _ _ Hc).
    destruct (_ && _); [done|]. destruct r1 as [|c2 r2]; [done|]. destruct (_ && _); [by destruct (_ && _)|].
    destruct r2 as [|c3 r3]; [done|]. destruct (_ && _); [by destruct (_ && _)|done].
  - destruct r as [|c1 [|c2 r2]]; try done; [cbn in Hc; by rewrite andb_false_r in Hc|]. cbn in Hc. rewrite andb_true_r in Hc.
    apply andb_true_iff in Hc as [Hc1 Hc2]. rewrite (Hq _ _ Hc1), (Hq _ _ Hc2).
    destruct (_ && _); [done|]. destruct (_ && _); [done|]. destruct r2 as [|c3 r3]; [done|].
    destruct (_ && _); [by destruct (_ && _)|done].
  - destruct r as [|c1 [|c2 [|c3 r3]]]; try done; [cbn in Hc; by rewrite ?andb_false_r in Hc..|]. cbn in Hc. rewrite andb_true_r in Hc.
    apply andb_true_iff in Hc as [Hc1 Hc]. apply andb_true_iff in Hc as [Hc2 Hc3].
    rewrite (Hq _ _ Hc1), (Hq _ _ Hc2), (Hq _ _ Hc3). done.
  - destruct r as [|c1 r1]; [done|]. destruct (_ && _); [by destruct (is_cont c1)|].
    destruct r1 as [|c2 r2]; [done|]. destruct (_ && _); [by destruct (_ && _)|].
    destruct r2 as [|c3 r3]; [done|]. destruct (_ && _); [by destruct (_ && _)|done].
Qed.

Lemma unquote_quote_low c x : byte_code c < 128 -> unquote_body 0 (quote_byte c +:+ x) = String c (unquote_body 0 x).
Proof.
  intros H. unfold quote_byte. destruct ((byte_code c =? 34) || (byte_code c =? 92)) eqn:E1.
  { apply orb_true_iff in E1 as [E|E]; apply Z.eqb_eq in E; rewrite <- (byte_of_code c), E; reflexivity. }
  destruct (byte_code c =? 8) eqn:E; [apply Z.eqb_eq in E; rewrite <- (byte_of_code c), E; reflexivity|clear E].
  destruct (byte_code c =? 12) eqn:E; [apply Z.eqb_eq in E; rewrite <- (byte_of_code c), E; reflexivity|clear E].
  destruct (byte_code c =? 10) eqn:E; [apply Z.eqb_eq in E; rewrite <- (byte_of_code c), E; reflexivity|clear E].
  destruct (byte_code c =? 13) eqn:E; [apply Z.eqb_eq in E; rewrite <- (byte_of_code c), E; reflexivity|clear E].
  destruct (byte_code c =? 9) eqn:E; [apply Z.eqb_eq in E; rewrite <- (byte_of_code c), E; reflexivity|clear E].
  destruct (byte_code c <? 32) eqn:E2.
  { apply Z.ltb_lt in E2. pose proof (byte_code_range c) as Hr. remember (byte_code c) as n eqn:En.
    assert (c = byte_of n) as -> by by rewrite En, byte_of_code. clear En.
    destruct (Z_of_nat_complete n ltac:(lia)) as [k ->].
    do 32 (destruct k as [|k]; [reflexivity|]). lia. }
  cbn [append unquote_body]. apply orb_false_iff in E1 as [_ Eb].
  assert ((c =? bslash)%char = false) as -> by (apply Ascii.eqb_neq; intros ->; done).
  unfold rune_len. by rewrite (proj2 (Z.ltb_lt _ _)) by lia.
Qed.

Lemma unquote_quote_loop s : forall k, conts k s = true -> valid_loop k s = true ->
  unquote_body k (quote_bytes s) = s.
Proof.
  induction s as [|c s IH]; intros k Hc Hv; [by destruct k|]. cbn [quote_bytes].
  destruct k as [|k]; cbn [valid_loop conts] in *.
  - destruct (rune_len (String c s)) as [|k] eqn:E; [done|]. pose proof (rune_len_conts c s k E) as (H1 & H2 & H3).
    destruct k as [|k].
    + rewrite unquote_quote_low by by apply H2. f_equal. by apply IH.
    + rewrite quote_byte_high by (apply H3; lia). cbn [append]. pose proof (rune_len_quoted c s (S k) E) as Hq.
      assert ((c =? bslash)%char = false) as Hb by (apply Ascii.eqb_neq; intros ->; specialize (H3 ltac:(lia)); done).
      cbn [unquote_body]. rewrite Hb, Hq. f_equal. by apply IH.
  - apply andb_true_iff in Hc as [Hc1 Hc2]. rewrite quote_byte_high by by apply is_cont_high. cbn. f_equal. by apply IH.
Qed.

Lemma unquote_plain_loop s : forall k, str_existsb (fun c => (c =? bslash)%char) s = false -> valid_loop k s = true ->
  unquote_body k s = s.
Proof.
  induction s as [|c s IH]; intros k Hb Hv; [by destruct k|]. rewrite str_existsb_cons in Hb.
  apply orb_false_iff in Hb as [Hc Hb]. cbn [valid_loop unquote_body] in *. destruct k as [|k]; [|f_equal; by apply IH].
  rewrite Hc. destruct (rune_len (String c s)); [done|]. f_equal. by apply IH.
Qed.

Lemma unquote_quote s : valid_utf8 s = true -> unquote_body 0 (quote_bytes s) = s.
Proof. by apply unquote_quote_loop. Qed.
