(* ===== verification/Walk.v ===== *)
(** The walk over a payload: [src/internal/transforms/jsonwalk.go] and [Scrub] of [scrub.go]. A line of
    JSON is read token by token; every key, string and embedded number gets its plan, and an edit swaps
    the token for the quoted result. A line that does not parse is scanned as raw text. *)

From S2P Require Import Prelude GoLib GoJson Naming GoUrl Redact Vocab Prefilter Schedule Heuristic Spans JsonText.

Definition maxDepth : nat := 256.

(** [errEmbeddedEdit] is an engine fault; the others send a line to the raw scanner. [Stuck] is no
    answer of the code: it marks a loop whose fuel ran out, which never happens ([WalkSafe]). *)
Inductive walk_error := errTooDeep | errTrailingContent | errSyntax | errEmbeddedEdit | Stuck.

(** What a walk accumulates. *)
Record walk_state := mkWalk { edits : list replacementSpan; w_redacted : Z; w_hits : gmap string Z }.
Definition fresh : walk_state := mkWalk [] 0 ∅.

Definition add_hits (a b : gmap string Z) : gmap string Z := union_with (fun x y => Some (x + y)) a b.

(** [replace]: the token [raw], which ends where [rest] begins, becomes the string [text]. *)
Definition replace (line raw rest text : string) (st : walk_state) : walk_state :=
  let end_ := (String.length line - String.length rest)%nat in
  mkWalk (edits st ++ [mkReplacement (end_ - String.length raw) end_ text]) (w_redacted st) (w_hits st).
Definition addLedger (p : valuePlan) (st : walk_state) : walk_state :=
  mkWalk (edits st) (w_redacted st + redacted p) (add_hits (w_hits st) (hits p)).
Definition addPlan (line raw rest text : string) (p : valuePlan) (st : walk_state) : walk_state :=
  if bool_decide (spans p = []) then st else addLedger p (replace line raw rest (plan_apply p text) st).
Definition add_inner (inner : walk_state) (st : walk_state) : walk_state :=
  mkWalk (edits st) (w_redacted st + w_redacted inner) (add_hits (w_hits st) (w_hits inner)).

(** The edits applied: the source's [errInvalidEdit], and an error of [AppendQuote], are [None]. *)
Fixpoint append_edits (cursor : nat) (es : list replacementSpan) (line : string) : option string :=
  match es with
  | [] => Some (str_drop cursor line)
  | e :: r =>
      if (rs_Start e <? cursor)%nat || (rs_End e <? rs_Start e)%nat || (String.length line <? rs_End e)%nat then None
      else
        q ← AppendQuote (Replacement e);
        t ← append_edits (rs_End e) r line;
        Some (slice line cursor (rs_Start e) +:+ q +:+ t)
  end.
Definition appendTo (st : walk_state) (line : string) : option string := append_edits 0 (edits st) line.

(** The body of a token, decoded. *)
Definition token_body (raw : string) : string := slice raw 1 (String.length raw - 1).
Definition decoded (raw : string) : string :=
  let body := token_body raw in
  if negb (str_existsb (fun c => (c =? bslash)%char) body) && valid_utf8 body then body
  else unquote_body 0 body.

Definition looksLikeDocument (text : string) : bool :=
  match skip_space text with
  | String c _ => (c =? "{")%char || (c =? "[")%char
  | "" => false
  end.

Section Walk.
Context {u : GoUnicode} {log2 : MathLog2}.
Variables (s : Scrubber) (family : string).

Section Level.
(** [embed path text] walks the text of a string as a document one level down: the text, whether it was
    one, and what the walk found. *)
Variable embed : string -> string -> result walk_error (string * bool * walk_state).
Variables (drops : gset string) (embedded : bool).

(** [walkString]: the text that replaces a string value, if any, and its ledger. *)
Definition walk_string (key path raw : string) : result walk_error (option string * walk_state) :=
  if (dropMinLength + 2 <=? String.length raw)%nat && bool_decide (path ∈ drops)
  then Ok (Some droppedSentinel, mkWalk [] (slen (decoded raw)) {[ Dropped := 1 ]})
  else
    let text := decoded raw in
    let secretKey := keyNamesSecret s key text in
    let! outer :=
      (if negb secretKey && looksLikeDocument text && negb (spansKeyAndValue s text)
       then let! e := embed path text in Ok (Some e)
       else Ok None) in
    match outer with
    | Some (out, true, inner) => Ok (if (out =? text)%string then None else Some out, inner)
    | _ =>
        let plan := planValue s text secretKey path family in
        if bool_decide (spans plan = []) then Ok (None, fresh)
        else
          let out := plan_apply plan text in
          let! e := (if looksLikeDocument out then embed path out else Ok (out, false, fresh)) in
          Ok (Some e.1.1, addLedger plan e.2)
    end.

(** [walkNumber], for the numbers of an embedded document. *)
Definition walk_number (key path raw : string) : option string * walk_state :=
  let plan := planValue s raw (keyNamesSecret s key raw) path family in
  if bool_decide (spans plan = []) then (None, fresh)
  else (Some (plan_apply plan raw), addLedger plan fresh).

(** A key: its replacement, the path its value is at, and the ledger. *)
Definition walk_key (path raw : string) : option string * string * walk_state :=
  let key := decoded raw in
  let plan := planKey s key path family in
  if bool_decide (spans plan = []) then (None, joinFieldPath path key, fresh)
  else (Some (plan_apply plan key), joinFieldPath path (plan_apply plan key), addLedger plan fresh).

Definition edit (line raw rest : string) (out : option string) (inner st : walk_state) : walk_state :=
  add_inner inner (match out with Some text => replace line raw rest text st | None => st end).

(** [self key path rest st] reads the value that [rest] begins with, one level down. *)
Variable self : string -> string -> string -> walk_state -> result walk_error (string * walk_state).
Variable line : string.

(** The members of an object up to its brace; [first] before the first one. *)
Fixpoint walk_members (fuel : nat) (first : bool) (path rest : string) (st : walk_state)
    : result walk_error (string * walk_state) :=
  match fuel with
  | O => Err Stuck
  | S f =>
      match skip_space rest with
      | "" => Err errSyntax
      | String c r =>
          if (c =? "}")%char then Ok (r, st)
          else
            let! rest :=
              (if first then Ok (String c r)
               else if (c =? ",")%char then Ok (skip_space r) else Err errSyntax) in
            match lex_string rest with
            | None => Err errSyntax
            | Some (raw, rest) =>
                let '(out, field, inner) := walk_key path raw in
                let st := edit line raw rest out inner st in
                match skip_space rest with
                | String d rest =>
                    if (d =? ":")%char then
                      let! next := self (decoded raw) field rest st in
                      walk_members f false path next.1 next.2
                    else Err errSyntax
                | "" => Err errSyntax
                end
            end
      end
  end.

Fixpoint walk_items (fuel : nat) (first : bool) (path rest : string) (st : walk_state)
    : result walk_error (string * walk_state) :=
  match fuel with
  | O => Err Stuck
  | S f =>
      match skip_space rest with
      | "" => Err errSyntax
      | String c r =>
          if (c =? "]")%char then Ok (r, st)
          else
            let! rest :=
              (if first then Ok (String c r)
               else if (c =? ",")%char then Ok r else Err errSyntax) in
            let! next := self "" path rest st in
            walk_items f false path next.1 next.2
      end
  end.

(** The value [rest] begins with. *)
Definition walk_value (key path rest : string) (st : walk_state) : result walk_error (string * walk_state) :=
  let rest := skip_space rest in
  match kind_of rest with
  | KindObject => walk_members (String.length rest) true path (str_drop 1 rest) st
  | KindArray => walk_items (String.length rest) true (path +:+ "[]") (str_drop 1 rest) st
  | KindString =>
      match lex_string rest with
      | None => Err errSyntax
      | Some (raw, rest) =>
          let! step := walk_string key path raw in
          Ok (rest, edit line raw rest step.1 step.2 st)
      end
  | KindNumber =>
      match lex_number rest with
      | None => Err errSyntax
      | Some (raw, rest) =>
          if embedded then let step := walk_number key path raw in Ok (rest, edit line raw rest step.1 step.2 st)
          else Ok (rest, st)
      end
  | KindOther =>
      match lex_literal rest with
      | None => Err errSyntax
      | Some (raw, rest) => Ok (rest, st)
      end
  end.
End Level.

(** [walkEmbedded]; [inner] walks the text one level down. *)
Definition walkEmbedded (inner : string -> result walk_error (string * walk_state)) (text : string)
    : result walk_error (string * bool * walk_state) :=
  match inner text with
  | Err errEmbeddedEdit => Err errEmbeddedEdit
  | Err _ => Ok (text, false, fresh)
  | Ok (rest, st) =>
      if negb (skip_space rest =? "")%string then Ok (text, false, fresh)
      else if bool_decide (edits st = []) then Ok (text, true, fresh)
      else match appendTo st text with
           | Some out => Ok (out, true, mkWalk [] (w_redacted st) (w_hits st))
           | None => Err errEmbeddedEdit
           end
  end.

(** [walk] with [levels] more levels allowed: none is [errTooDeep]. Inside an embedded document no drop
    applies. *)
Fixpoint walk (levels : nat) (embedded : bool) (drops : gset string) (line key path rest : string)
    (st : walk_state) : result walk_error (string * walk_state) :=
  match levels with
  | O => Err errTooDeep
  | S l =>
      walk_value
        (fun path => walkEmbedded (fun text => walk l true ∅ text "" (path +:+ embeddedSuffix) text fresh))
        drops embedded (walk l embedded drops line) line key path rest st
  end.

Definition walkLine (line : string) : result walk_error walk_state :=
  let! r := walk (S maxDepth) false (default ∅ (drops s !! family)) line "" "" line fresh in
  if (skip_space r.1 =? "")%string then Ok r.2 else Err errTrailingContent.
End Walk.

(** ** scrub.go: a whole payload *)

Definition ScanModeDecodedJSON : string := "decoded_json_values".
Definition ScanModeRawText : string := "raw_text".
Definition ScanModeMixed : string := "mixed".

Record Result := mkResult {
  res_Out : string;
  res_BytesRedacted : Z;
  res_BytesTotal : Z;
  RuleHits : gmap string Z;
  ScanMode : string;
  LinesParsed : Z;
  LinesRawScanned : Z
}.

Definition bytes_text (l : list nat) : string := string_of_list_ascii (map ascii_of_nat l).

Definition isBzip2 (p : string) : bool :=
  (10 <=? slen p) && has_prefix "BZh" p &&
  match String.get 3 p with Some c => in_range "1" "9" c | None => false end &&
  ((slice p 4 10 =? bytes_text [49; 65; 89; 38; 83; 89]%nat)%string ||
   (slice p 4 10 =? bytes_text [23; 114; 69; 56; 80; 144]%nat)%string).

(** The kind of a payload no text pattern can see into, empty for others. *)
Definition opaqueKind (p : string) : string :=
  if has_prefix (bytes_text [40; 181; 47; 253]%nat) p then "zstd"
  else if has_prefix (bytes_text [31; 139]%nat) p then "gzip"
  else if has_prefix (bytes_text [80; 75; 3; 4]%nat) p || has_prefix (bytes_text [80; 75; 5; 6]%nat) p ||
          has_prefix (bytes_text [80; 75; 7; 8]%nat) p then "zip"
  else if isBzip2 p then "bzip2"
  else if has_prefix (bytes_text [253; 55; 122; 88; 90; 0]%nat) p then "xz"
  else if has_prefix (bytes_text [83; 81; 76; 105; 116; 101; 32; 102; 111; 114; 109; 97; 116; 32; 51; 0]%nat) p then "sqlite"
  else "".

(** One line: its text, its ending with the carriage return before it, and what follows. *)
Fixpoint cut_newline (p : string) : option (string * string) :=
  match p with
  | "" => None
  | String c r =>
      if (c =? "010")%char then Some ("", r)
      else '(body, rest) ← cut_newline r; Some (String c body, rest)
  end.
Definition nextLine (p : string) : string * string * string :=
  match cut_newline p with
  | None => (p, "", "")
  | Some (body, rest) =>
      match cut_suffix (String "013" "") body with
      | Some body => (body, String "013" (String "010" ""), rest)
      | None => (body, String "010" "", rest)
      end
  end.

Section Scrub.
Context {u : GoUnicode} {log2 : MathLog2}.
Variables (s : Scrubber) (family : string).

(** What has been decided of the lines before: the output, [None] while it is the input, and the
    counts. *)
Record scrub_state := mkScrub {
  out : option string; sc_redacted : Z; sc_hits : gmap string Z; parsed : Z; raw_scanned : Z
}.
Definition push (text : string) (st : scrub_state) : scrub_state :=
  mkScrub ((fun o => o +:+ text) <$> out st) (sc_redacted st) (sc_hits st) (parsed st) (raw_scanned st).
(** [ensureOutput]: the input before the line, copied on the first change. *)
Definition ensureOutput (before : string) (st : scrub_state) : scrub_state :=
  mkScrub (Some (default before (out st))) (sc_redacted st) (sc_hits st) (parsed st) (raw_scanned st).
Definition record_parsed (w : walk_state) (st : scrub_state) : scrub_state :=
  mkScrub (out st) (sc_redacted st + w_redacted w) (add_hits (sc_hits st) (w_hits w)) (parsed st + 1) (raw_scanned st).
Definition record_raw (p : valuePlan) (st : scrub_state) : scrub_state :=
  mkScrub (out st) (sc_redacted st + redacted p) (add_hits (sc_hits st) (hits p)) (parsed st) (raw_scanned st + 1).

(** One line, [before] it the payload so far: [None] is the engine's failure. *)
Definition scrub_line (before body ending : string) (st : scrub_state) : option scrub_state :=
  if (TrimSpace body =? "")%string then Some (push ending (push body st))
  else
    match walkLine s family body with
    | Err errEmbeddedEdit => None
    | Ok w =>
        let st := record_parsed w st in
        st ← (if bool_decide (edits w = []) then Some (push body st)
              else text ← appendTo w body; Some (push text (ensureOutput before st)));
        Some (push ending st)
    | Err _ =>
        let '(text, plan) := scrubRawText s body in
        let st := record_raw plan st in
        Some (push ending
          (if (text =? body)%string then push body st else push text (ensureOutput before st)))
    end.

(** The lines of [rest]; each takes a byte at least. *)
Fixpoint scrub_lines (fuel : nat) (before rest : string) (st : scrub_state) : option scrub_state :=
  match fuel with
  | O => Some st
  | S f =>
      match rest with
      | "" => Some st
      | _ =>
          let '(body, ending, rest) := nextLine rest in
          st ← scrub_line before body ending st;
          scrub_lines f (before +:+ body +:+ ending) rest st
      end
  end.

Definition scan_mode (st : scrub_state) : string :=
  if (0 <? raw_scanned st) && (0 <? parsed st) then ScanModeMixed
  else if 0 <? raw_scanned st then ScanModeRawText
  else ScanModeDecodedJSON.
End Scrub.

Definition scrub_payload {u : GoUnicode} {log2 : MathLog2} (s : Scrubber) (payload family : string) (jsonl : bool)
    : result error Result :=
  let kind := opaqueKind payload in
  if negb (kind =? "")%string then Err (errors_New ("scrub refused: " +:+ kind +:+ " payload"))
  else if negb jsonl then
    let '(text, plan) := scrubRawText s payload in
    Ok (mkResult text (redacted plan) (slen payload) (hits plan) ScanModeRawText 0 1)
  else
    match scrub_lines s family (String.length payload) "" payload (mkScrub None 0 ∅ 0 0) with
    | None => Err (errors_New "scrub engine: apply JSON redaction spans")
    | Some st =>
        Ok (mkResult (default payload (out st)) (sc_redacted st) (slen payload) (sc_hits st) (scan_mode st)
              (parsed st) (raw_scanned st))
    end.

(** [noteCost]: the slowest scrub this engine has served and the size of its payload, the larger on equal
    durations. *)
Definition noteCost (d size : Z) (slowest : Z * Z) : Z * Z :=
  if d <? slowest.1 then slowest
  else if (d =? slowest.1) && (size <=? slowest.2) then slowest
  else (d, size).
