(* ===== verification/WalkSafe.v ===== *)
(** What the walk over a payload promises ([Walk]). *)

From S2P Require Import Prelude GoLib GoJson Naming GoUrl Redact Vocab Prefilter Schedule Heuristic Spans JsonText SpansSafe EscapeSafe RedactSafe Walk.

(** ** Token bodies *)

Lemma str_take_app a b : str_take (String.length a) (a +:+ b) = a.
Proof. induction a as [|c a IH]; cbn; [by destruct b|]. by rewrite IH. Qed.
Lemma length_app_string a b : String.length (a +:+ b) = (String.length a + String.length b)%nat.
Proof. induction a as [|c a IH]; cbn; [done|by rewrite IH]. Qed.

Lemma decoded_unquote raw : decoded raw = unquote_body 0 (token_body raw).
Proof.
  unfold decoded. destruct (_ && _) eqn:E; [|done]. apply andb_true_iff in E as [E1 E2].
  apply negb_true_iff in E1. symmetry. by apply unquote_plain_loop.
Qed.

(** What an edit writes decodes to the text it replaced the token with. *)
Lemma decoded_quote text q : AppendQuote text = Some q -> decoded q = text.
Proof.
  unfold AppendQuote. destruct (valid_utf8 text) eqn:E; [|done]. intros [= <-].
  rewrite decoded_unquote. unfold token_body, slice. cbn [String.length str_drop].
  rewrite length_app_string. cbn [String.length].
  replace (S (String.length (quote_bytes text) + 1) - 1 - 1)%nat with (String.length (quote_bytes text)) by lia.
  rewrite str_take_app. by apply unquote_quote.
Qed.

(** ** Edits *)

(** The edits [es] of the text [piece], which begins at [pos] of its line. *)
Fixpoint patch (pos : nat) (es : list replacementSpan) (piece : string) : option string :=
  match es with
  | [] => Some piece
  | e :: r =>
      if (rs_Start e <? pos)%nat || (rs_End e <? rs_Start e)%nat || (pos + String.length piece <? rs_End e)%nat then None
      else
        q ← AppendQuote (Replacement e);
        t ← patch (rs_End e) r (str_drop (rs_End e - pos) piece);
        Some (str_take (rs_Start e - pos) piece +:+ q +:+ t)
  end.

Lemma append_edits_patch es line : forall cursor, (cursor <= String.length line)%nat ->
  append_edits cursor es line = patch cursor es (str_drop cursor line).
Proof.
  induction es as [|e es IH]; intros cursor Hc; cbn [append_edits patch]; [done|].
  rewrite length_str_drop. replace (cursor + (String.length line - cursor))%nat with (String.length line) by lia.
  destruct (_ || _) eqn:E; [done|]. apply orb_false_iff in E as [E E3]. apply orb_false_iff in E as [E1 E2].
  apply Nat.ltb_ge in E1, E2, E3. destruct (AppendQuote _); cbn; [|done].
  rewrite IH by done. rewrite str_drop_drop. replace (cursor + (rs_End e - cursor))%nat with (rs_End e) by lia.
  done.
Qed.

(** Edits of [piece] alone. *)
Definition edits_in (pos : nat) (es : list replacementSpan) (piece : string) : Prop :=
  ordered pos es (pos + String.length piece).

Lemma str_take_app_le k a b : (k <= String.length a)%nat -> str_take k (a +:+ b) = str_take k a.
Proof. revert a. induction k as [|k IH]; intros a Hk; [done|]. destruct a; cbn in *; [lia|]. rewrite IH by lia. done. Qed.
Lemma str_drop_app_le k a b : (k <= String.length a)%nat -> str_drop k (a +:+ b) = str_drop k a +:+ b.
Proof. revert a. induction k as [|k IH]; intros a Hk; [done|]. destruct a; cbn in *; [lia|]. apply IH. lia. Qed.

Lemma str_take_app_more k a b : str_take (String.length a + k) (a +:+ b) = a +:+ str_take k b.
Proof. induction a as [|c a IH]; [done|]. cbn. by rewrite IH. Qed.

(** Edits of two neighbours are made one after the other. *)
Lemma patch_app es1 es2 p1 p2 : forall pos,
  ordered pos es1 (pos + String.length p1) -> ordered (pos + String.length p1) es2 (pos + String.length p1 + String.length p2) ->
  patch pos (es1 ++ es2) (p1 +:+ p2) =
  (t1 ← patch pos es1 p1; t2 ← patch (pos + String.length p1) es2 p2; Some (t1 +:+ t2)).
Proof.
  revert p1. induction es1 as [|e es1 IH]; intros p1 pos H1 H2; cbn [app patch].
  - cbn [mbind option_bind]. destruct es2 as [|e es2]; [done|]. destruct H2 as (H2 & H3 & H4).
    pose proof (ordered_le _ _ _ H4) as H5. cbn [patch]. rewrite length_app_string.
    rewrite !(proj2 (Nat.ltb_ge _ _)) by lia. cbn [orb].
    destruct (AppendQuote _) as [q|]; cbn [mbind option_bind]; [|done].
    replace (rs_End e - pos)%nat with (String.length p1 + (rs_End e - (pos + String.length p1)))%nat by lia.
    rewrite <- str_drop_drop, str_drop_app. destruct (patch _ _ _); cbn [mbind option_bind]; [|done].
    replace (rs_Start e - pos)%nat with (String.length p1 + (rs_Start e - (pos + String.length p1)))%nat by lia.
    by rewrite str_take_app_more, !string_app_assoc.
  - destruct H1 as (G1 & G2 & G3). pose proof (ordered_le _ _ _ G3) as G4.
    rewrite length_app_string, !(proj2 (Nat.ltb_ge _ _)) by lia. cbn [orb].
    destruct (AppendQuote _) as [q|]; cbn [mbind option_bind]; [|done].
    rewrite str_take_app_le, str_drop_app_le by lia.
    assert (rs_End e + String.length (str_drop (rs_End e - pos) p1) = pos + String.length p1)%nat as Hl
      by (rewrite length_str_drop; lia).
    rewrite IH by (rewrite Hl; done). rewrite Hl.
    destruct (patch (rs_End e) es1 _); cbn [mbind option_bind]; [|done].
    destruct (patch _ es2 p2); cbn [mbind option_bind]; [|done]. by rewrite !string_app_assoc.
Qed.

(** [t'] is [t] with its edits made. *)
Definition patches (pos : nat) (es : list replacementSpan) (t t' : string) : Prop :=
  ordered pos es (pos + String.length t) /\ patch pos es t = Some t'.

Lemma ordered_app l1 l2 n1 n2 c : ordered c l1 n1 -> ordered n1 l2 n2 -> ordered c (l1 ++ l2) n2.
Proof.
  revert c. induction l1 as [|a l1 IH]; intros c H1 H2.
  - cbn in H1. eapply ordered_weaken; [exact H1|exact H2].
  - destruct H1 as (G1 & G2 & G3). split_and!; [done|done|]. by apply IH.
Qed.

Lemma patches_nil pos t : patches pos [] t t.
Proof. split; [cbn; lia|done]. Qed.
Lemma patches_app pos es1 es2 t1 t2 t1' t2' :
  patches pos es1 t1 t1' -> patches (pos + String.length t1) es2 t2 t2' ->
  patches pos (es1 ++ es2) (t1 +:+ t2) (t1' +:+ t2').
Proof.
  intros [H1 H2] [H3 H4]. split.
  - rewrite length_app_string, Nat.add_assoc. by eapply ordered_app.
  - rewrite patch_app by done. by rewrite H2, H4.
Qed.
Lemma patches_keep pos es p t t' : patches (pos + String.length p) es t t' -> patches pos es (p +:+ t) (p +:+ t').
Proof. intros H. exact (patches_app pos [] es p t p t' (patches_nil pos p) H). Qed.
Lemma patches_token pos raw text q : AppendQuote text = Some q -> raw <> "" ->
  patches pos [mkReplacement pos (pos + String.length raw) text] raw q.
Proof.
  intros Hq Hne. assert (0 < String.length raw)%nat by (destruct raw; [done|cbn; lia]). split.
  - cbn. lia.
  - cbn [patch rs_Start rs_End Replacement]. rewrite !(proj2 (Nat.ltb_ge _ _)) by lia. cbn [orb]. rewrite Hq.
    cbn [mbind option_bind]. rewrite Nat.sub_diag. replace (pos + String.length raw - pos)%nat with (String.length raw) by lia.
    pose proof (str_drop_app raw "") as Hd. rewrite string_app_nil_r in Hd. rewrite Hd. cbn. by rewrite string_app_nil_r.
Qed.

Definition quotable (e : replacementSpan) : Prop := AppendQuote (Replacement e) <> None.

Section WalkSafe.
Context {u : GoUnicode} {log2 : MathLog2}.
Variables (s : Scrubber) (family : string).

Definition embed_at (l : nat) (path : string) : string -> result walk_error (string * bool * walk_state) :=
  walkEmbedded (fun text => walk s family l true ∅ text "" (path +:+ embeddedSuffix) text fresh).

(** What the walk makes of a value: the same tree with its strings, its keys and, inside an embedded
    document, its numbers replaced as their plans say. *)
Inductive rewritten : nat -> bool -> gset string -> string -> string -> json -> json -> Prop :=
  | rw_literal l emb drops key path tok : rewritten (S l) emb drops key path (JLiteral tok) (JLiteral tok)
  | rw_number l emb drops key path tok :
      emb = false \/ (walk_number s family key path tok).1 = None ->
      rewritten (S l) emb drops key path (JNumber tok) (JNumber tok)
  | rw_number_text l drops key path tok text q :
      (walk_number s family key path tok).1 = Some text -> AppendQuote text = Some q ->
      rewritten (S l) true drops key path (JNumber tok) (JString q)
  | rw_string l emb drops key path raw w :
      walk_string s family (embed_at l) drops key path raw = Ok (None, w) ->
      rewritten (S l) emb drops key path (JString raw) (JString raw)
  | rw_string_text l emb drops key path raw text q w :
      walk_string s family (embed_at l) drops key path raw = Ok (Some text, w) -> AppendQuote text = Some q ->
      rewritten (S l) emb drops key path (JString raw) (JString q)
  | rw_array l emb drops key path items items' :
      Forall2 (rewritten l emb drops "" (path +:+ "[]")) items items' ->
      rewritten (S l) emb drops key path (JArray items) (JArray items')
  | rw_object l emb drops key path members members' :
      Forall2 (fun m m' =>
        match (walk_key s family path m.1).1.1 with
        | None => m'.1 = m.1
        | Some text => AppendQuote text = Some m'.1
        end /\
        rewritten l emb drops (decoded m.1) (walk_key s family path m.1).1.2 m.2 m'.2) members members' ->
      rewritten (S l) emb drops key path (JObject members) (JObject members').

(** A value read from [rest], which ends the line: its text, its tree, the edits to it, and the text
    they leave. *)
Record value_read (l : nat) (emb : bool) (drops : gset string) (line key path rest : string) (st : walk_state)
    (rest' : string) (st' : walk_state) (a piece : string) (v : json) (es : list replacementSpan) : Prop := {
  vr_space : all_space a = true;
  vr_rest : rest = a +:+ piece +:+ rest';
  vr_spells : spells v piece;
  vr_edits : edits st' = edits st ++ es;
  vr_nonempty : piece <> "";
  vr_ordered : let pos := (String.length line - String.length rest + String.length a)%nat in
    ordered pos es (pos + String.length piece);
  vr_patched : Forall quotable es ->
    exists piece' v', spells v' piece' /\ rewritten l emb drops key path v v' /\
      patches (String.length line - String.length rest + String.length a) es piece piece'
}.

Definition reads_ok (l : nat) (emb : bool) (drops : gset string) (line : string)
    (self : string -> string -> string -> walk_state -> result walk_error (string * walk_state)) : Prop :=
  forall key path rest st rest' st', self key path rest st = Ok (rest', st') ->
    (String.length rest <= String.length line)%nat ->
    exists a piece v es, value_read l emb drops line key path rest st rest' st' a piece v es.

(** One token, edited or not. *)
Lemma edit_token line raw rest out inner st p : raw <> "" ->
  (String.length (p +:+ raw +:+ rest) <= String.length line)%nat ->
  let pos := (String.length line - String.length (p +:+ raw +:+ rest) + String.length p)%nat in
  exists es, edits (edit line raw rest out inner st) = edits st ++ es /\
    ordered pos es (pos + String.length raw) /\
    (Forall quotable es -> exists raw', patches pos es raw raw' /\
      match out with None => raw' = raw | Some text => AppendQuote text = Some raw' end).
Proof.
  intros Hne Hlen pos. rewrite !length_app_string in Hlen. destruct out as [text|]; cbn [edit add_inner edits replace].
  - set (end_ := (String.length line - String.length rest)%nat).
    assert (end_ - String.length raw = pos)%nat as -> by (unfold end_, pos; rewrite !length_app_string; lia).
    assert (end_ = pos + String.length raw)%nat as -> by (unfold end_, pos; rewrite !length_app_string; lia).
    assert (0 < String.length raw)%nat by (destruct raw; [done|cbn; lia]).
    eexists. split; [reflexivity|]. split; [cbn; lia|]. intros Hq. apply Forall_cons in Hq as [Hq _].
    unfold quotable in Hq. cbn in Hq. destruct (AppendQuote text) as [q|] eqn:E; [|done].
    exists q. split; [by apply patches_token|done].
  - exists []. rewrite app_nil_r. split; [done|]. split; [cbn; lia|]. intros _. exists raw. split; [apply patches_nil|done].
Qed.

(** ** Items of an array *)

Definition tail_items (first : bool) (l : list json) (t : string) : Prop :=
  (l = [] /\ all_space t = true) \/
  (if first then spells_items l t else exists a u, t = a +:+ "," +:+ u /\ all_space a = true /\ spells_items l u).

Lemma all_space_app a b : all_space a = true -> all_space b = true -> all_space (a +:+ b) = true.
Proof. unfold all_space. rewrite str_forallb_app. by intros -> ->. Qed.

Lemma tail_items_cons v t l body a :
  spells v t -> all_space a = true -> tail_items false l body -> spells_items (v :: l) (a +:+ t +:+ body).
Proof.
  intros Hv Ha [[-> Hb]|(b & u' & -> & Hb & Hl)]; [by apply si_one|by apply si_more].
Qed.

(** The tail of an array as the walk leaves it; [pos] is where it begins. *)
Record tail_read {A} (tail : list A -> string -> Prop) (rw : A -> A -> Prop) (close : string) (pos : nat)
    (rest : string) (st : walk_state) (rest' : string) (st' : walk_state)
    (body : string) (ms : list A) (es : list replacementSpan) : Prop := {
  tr_rest : rest = body +:+ close +:+ rest';
  tr_tail : tail ms body;
  tr_edits : edits st' = edits st ++ es;
  tr_ordered : ordered pos es (pos + String.length body);
  tr_patched : Forall quotable es ->
    exists body' ms', tail ms' body' /\ Forall2 rw ms ms' /\ patches pos es body body'
}.

(** A prefix without edits. *)
Lemma tail_read_keep {A} (tail tail' : list A -> string -> Prop) rw close pos p rest st rest' st' body ms es :
  (forall l t, tail l t -> tail' l (p +:+ t)) ->
  tail_read tail rw close (pos + String.length p) rest st rest' st' body ms es ->
  tail_read tail' rw close pos (p +:+ rest) st rest' st' (p +:+ body) ms es.
Proof.
  intros Ht [H1 H2 H3 H4 H5]. constructor.
  - by rewrite H1, string_app_assoc.
  - by apply Ht.
  - done.
  - eapply ordered_weaken; [|rewrite length_app_string, Nat.add_assoc; exact H4]. lia.
  - intros Hq. destruct (H5 Hq) as (body' & ms' & G1 & G2 & G3). exists (p +:+ body'), ms'.
    split_and!; [by apply Ht|done|by apply patches_keep].
Qed.

Section Reading.
Variables (l : nat) (emb : bool) (drops : gset string) (line : string).
Variable self : string -> string -> string -> walk_state -> result walk_error (string * walk_state).
Hypothesis Hself : reads_ok l emb drops line self.

(** A value and the tail behind it. *)
Lemma item_step key path rest st rest1 st1 a piece v es1 rest' st' body ms es2 :
  value_read l emb drops line key path rest st rest1 st1 a piece v es1 ->
  (String.length rest <= String.length line)%nat ->
  tail_read (tail_items false) (rewritten l emb drops "" path) "]"
    (String.length line - String.length rest1) rest1 st1 rest' st' body ms es2 -> key = "" ->
  exists t, tail_read spells_items (rewritten l emb drops "" path) "]" (String.length line - String.length rest)
    rest st rest' st' t (v :: ms) (es1 ++ es2).
Proof.
  intros [Ha Hr Hv He Hne Ho Hp] Hlen [T1 T2 T3 T4 T5] ->. cbv zeta in Ho.
  set (pos := (String.length line - String.length rest)%nat) in *.
  assert (String.length line - String.length rest1 = pos + String.length a + String.length piece)%nat as Hpos.
  { unfold pos. subst rest. rewrite !length_app_string in *. lia. }
  rewrite Hpos in *. exists (a +:+ piece +:+ body). constructor.
  - by rewrite Hr, T1, !string_app_assoc.
  - by apply tail_items_cons.
  - by rewrite T3, He, app_assoc.
  - rewrite !length_app_string. replace (pos + (String.length a + (String.length piece + String.length body)))%nat
      with (pos + String.length a + String.length piece + String.length body)%nat by lia.
    eapply ordered_app; [eapply ordered_weaken; [|exact Ho]; lia|exact T4].
  - intros Hq. apply Forall_app in Hq as [Hq1 Hq2].
    destruct (Hp Hq1) as (piece' & v' & G1 & G2 & G3). destruct (T5 Hq2) as (body' & ms' & G4 & G5 & G6).
    exists (a +:+ piece' +:+ body'), (v' :: ms'). split_and!.
    + by apply tail_items_cons.
    + by constructor.
    + apply patches_keep. by apply patches_app.
Qed.

Lemma walk_items_ok fuel : forall first path rest st rest' st',
  walk_items self fuel first path rest st = Ok (rest', st') ->
  (String.length rest <= String.length line)%nat ->
  exists body ms es, tail_read (tail_items first) (rewritten l emb drops "" path) "]"
    (String.length line - String.length rest) rest st rest' st' body ms es.
Proof.
  induction fuel as [|fuel IH]; intros first path rest st rest' st' H Hlen; cbn [walk_items] in H; [done|].
  destruct (skip_space_spec rest) as (sp & Hr & Hsp). destruct (skip_space rest) as [|c r] eqn:Esk; [done|].
  destruct (c =? "]")%char eqn:Ec.
  { injection H as <- <-. apply Ascii.eqb_eq in Ec as ->. exists sp, [], []. constructor.
    - done.
    - by left.
    - by rewrite app_nil_r.
    - cbn. lia.
    - intros _. exists sp, []. split_and!; [by left|constructor|apply patches_nil]. }
  assert (exists p rest0, rest = p +:+ rest0 /\ (rest0 = String c r \/ rest0 = r) /\
    (forall (ms : list json) t, spells_items ms t -> tail_items first ms (p +:+ t)) /\
    (let! next := self "" path rest0 st in walk_items self fuel false path next.1 next.2) = Ok (rest', st'))
    as (p & rest0 & Hp & _ & Htail & H').
  { destruct first; cbn [rbind] in H.
    - exists sp, (String c r). split_and!; [done|by left| |done]. intros ms t Ht. right.
      clear -Hsp Ht. destruct Ht as [v t a b|v t l0 w a b].
      + rewrite <- string_app_assoc. apply si_one; [done|by apply all_space_app|done].
      + rewrite <- string_app_assoc. apply si_more; [done|by apply all_space_app|done|done].
    - destruct (c =? ",")%char eqn:Ecom; cbn [rbind] in H; [|done]. apply Ascii.eqb_eq in Ecom as ->.
      exists (sp +:+ ","), r. split_and!; [by rewrite string_app_assoc|by right| |done].
      intros ms t Ht. right. exists sp, t. split; [by rewrite string_app_assoc|done]. }
  destruct (self "" path rest0 st) as [[rest1 st1]|] eqn:Es; cbn in H'; [|done].
  assert (String.length rest = String.length p + String.length rest0)%nat as Hl by (rewrite Hp; apply length_app_string).
  destruct (Hself _ _ _ _ _ _ Es ltac:(lia)) as (a & piece & v & es1 & Hv).
  assert (String.length rest1 <= String.length rest0)%nat as Hl1.
  { rewrite (vr_rest _ _ _ _ _ _ _ _ _ _ _ _ _ _ Hv), !length_app_string. lia. }
  destruct (IH false path rest1 st1 rest' st' H' ltac:(lia)) as (body & ms & es2 & Ht).
  destruct (item_step "" path rest0 st rest1 st1 a piece v es1 rest' st' body ms es2 Hv ltac:(lia) Ht eq_refl) as (t & Hstep).
  exists (p +:+ t), (v :: ms), (es1 ++ es2). rewrite Hp at 2. eapply tail_read_keep; [exact Htail|].
  replace (String.length line - String.length rest + String.length p)%nat
    with (String.length line - String.length rest0)%nat by lia. done.
Qed.

(** ** Members of an object *)

Definition tail_members (first : bool) (ms : list (string * json)) (t : string) : Prop :=
  (ms = [] /\ all_space t = true) \/
  (if first then spells_members ms t
   else exists a u, t = a +:+ "," +:+ u /\ all_space a = true /\ spells_members ms u).

Lemma tail_members_cons k v t ms body a b c :
  string_token k -> spells v t -> all_space a = true -> all_space b = true -> all_space c = true ->
  tail_members false ms body -> spells_members ((k, v) :: ms) (a +:+ k +:+ b +:+ ":" +:+ c +:+ t +:+ body).
Proof.
  intros Hk Hv Ha Hb Hc [[-> Hd]|(d & w & -> & Hd & Hl)]; [by apply sm_one|by apply sm_more].
Qed.

Lemma spells_members_space ms t a : all_space a = true -> spells_members ms t -> spells_members ms (a +:+ t).
Proof.
  intros Ha H. destruct H as [k v t a' b c d|k v t l0 w a' b c d]; rewrite <- string_app_assoc;
    [apply sm_one|apply sm_more]; try done; by apply all_space_app.
Qed.

Definition member_rewritten (path : string) (m m' : string * json) : Prop :=
  match (walk_key s family path m.1).1.1 with
  | None => m'.1 = m.1
  | Some text => AppendQuote text = Some m'.1
  end /\
  rewritten l emb drops (decoded m.1) (walk_key s family path m.1).1.2 m.2 m'.2.

(** A key, its value and the tail behind them. *)
Lemma member_step path raw b rest_v st rest1 st1 a piece v es1 rest' st' body ms es2 :
  string_token raw -> raw <> "" -> all_space b = true ->
  let rest_k := b +:+ ":" +:+ rest_v in
  let '(out, field, inner) := walk_key s family path raw in
  value_read l emb drops line (decoded raw) field rest_v (edit line raw rest_k out inner st) rest1 st1 a piece v es1 ->
  (String.length (raw +:+ rest_k) <= String.length line)%nat ->
  tail_read (tail_members false) (member_rewritten path) "}"
    (String.length line - String.length rest1) rest1 st1 rest' st' body ms es2 ->
  exists t es, tail_read spells_members (member_rewritten path) "}" (String.length line - String.length (raw +:+ rest_k))
    (raw +:+ rest_k) st rest' st' t ((raw, v) :: ms) es.
Proof.
  intros Hraw Hne Hb rest_k. destruct (walk_key s family path raw) as [[out field] inner] eqn:Ek.
  intros [Ha Hr Hv He Hne' Ho Hp] Hlen [T1 T2 T3 T4 T5]. cbv zeta in Ho.
  set (pos := (String.length line - String.length (raw +:+ rest_k))%nat) in *.
  destruct (edit_token line raw rest_k out inner st "" Hne Hlen) as (es0 & E1 & E2 & E3). cbn [append String.length] in E2, E3.
  rewrite Nat.add_0_r in E2, E3. fold pos in E2, E3.
  assert (String.length line - String.length rest_v = pos + String.length raw + String.length (b +:+ ":"))%nat as Hpv.
  { unfold pos, rest_k in *. rewrite !length_app_string in *. lia. }
  assert (String.length line - String.length rest1 = pos + String.length raw + String.length (b +:+ ":") + String.length a + String.length piece)%nat as Hp1.
  { unfold pos, rest_k in *. rewrite Hr in *. rewrite !length_app_string in *. lia. }
  rewrite Hpv in *. rewrite Hp1 in *.
  exists (raw +:+ b +:+ ":" +:+ a +:+ piece +:+ body), (es0 ++ es1 ++ es2). constructor.
  - unfold rest_k. by rewrite Hr, T1, !string_app_assoc.
  - exact (tail_members_cons raw v piece ms body "" b a Hraw Hv eq_refl Hb Ha T2).
  - by rewrite T3, He, E1, !app_assoc.
  - rewrite !length_app_string in *. eapply ordered_app; [exact E2|].
    eapply ordered_app; [eapply ordered_weaken; [|exact Ho]; lia|]. cbn [String.length] in *.
    replace (pos + (String.length raw + (String.length b + (1 + (String.length a + (String.length piece + String.length body))))))%nat
      with (pos + String.length raw + (String.length b + 1) + String.length a + String.length piece + String.length body)%nat by lia.
    exact T4.
  - intros Hq. apply Forall_app in Hq as [Hq0 Hq]. apply Forall_app in Hq as [Hq1 Hq2].
    destruct (E3 Hq0) as (raw' & G0 & Hraw'). destruct (Hp Hq1) as (piece' & v' & G1 & G2 & G3).
    destruct (T5 Hq2) as (body' & ms' & G4 & G5 & G6).
    exists (raw' +:+ b +:+ ":" +:+ a +:+ piece' +:+ body'), ((raw', v') :: ms'). split_and!.
    + apply (tail_members_cons raw' v' piece' ms' body' "" b a); try done.
      destruct out as [text|]; [by eapply AppendQuote_token|by rewrite Hraw'].
    + constructor; [|done]. unfold member_rewritten. cbn [fst snd]. by rewrite Ek.
    + apply patches_app; [done|]. rewrite <- (string_app_assoc b ":"), <- (string_app_assoc b ":" (a +:+ piece' +:+ body')).
      apply patches_keep, patches_keep. by apply patches_app.
Qed.

Lemma walk_members_ok fuel : forall first path rest st rest' st',
  walk_members s family self line fuel first path rest st = Ok (rest', st') ->
  (String.length rest <= String.length line)%nat ->
  exists body ms es, tail_read (tail_members first) (member_rewritten path) "}"
    (String.length line - String.length rest) rest st rest' st' body ms es.
Proof.
  induction fuel as [|fuel IH]; intros first path rest st rest' st' H Hlen; cbn [walk_members] in H; [done|].
  destruct (skip_space_spec rest) as (sp & Hr & Hsp). destruct (skip_space rest) as [|c r] eqn:Esk; [done|].
  destruct (c =? "}")%char eqn:Ec.
  { injection H as <- <-. apply Ascii.eqb_eq in Ec as ->. exists sp, [], []. constructor.
    - done.
    - by left.
    - by rewrite app_nil_r.
    - cbn. lia.
    - intros _. exists sp, []. split_and!; [by left|constructor|apply patches_nil]. }
  match type of H with rbind ?m ?f = _ => destruct m as [rest0|] eqn:Erest0; cbn [rbind] in H; [|done] end.
  assert (exists p, rest = p +:+ rest0 /\
    (forall (ms : list (string * json)) t, spells_members ms t -> tail_members first ms (p +:+ t)))
    as (p & Hp & Htail).
  { destruct first.
    - injection Erest0 as <-. exists sp. split; [done|]. intros ms t Ht. right. by apply spells_members_space.
    - destruct (c =? ",")%char eqn:Ecom; [|done]. injection Erest0 as <-. apply Ascii.eqb_eq in Ecom as ->.
      destruct (skip_space_spec r) as (sp2 & Hr2 & Hsp2). exists (sp +:+ "," +:+ sp2). split.
      + rewrite Hr, !string_app_assoc. cbn. by rewrite <- Hr2.
      + intros ms t Ht. right. exists sp, (sp2 +:+ t). split; [by rewrite !string_app_assoc|].
        split; [done|]. by apply spells_members_space. }
  destruct (lex_string rest0) as [[raw rest_k]|] eqn:El; [|done].
  destruct (lex_string_spec _ _ _ El) as (Hrest0 & Hraw & Hne).
  destruct (walk_key s family path raw) as [[out field] inner] eqn:Ek.
  destruct (skip_space_spec rest_k) as (b & Hrk & Hb). destruct (skip_space rest_k) as [|d rest_v] eqn:Esk2; [done|].
  destruct (d =? ":")%char eqn:Ed; [|done]. apply Ascii.eqb_eq in Ed as ->.
  destruct (self (decoded raw) field rest_v _) as [[rest1 st1]|] eqn:Es; cbn [rbind fst snd] in H; [|done].
  assert (String.length rest = String.length p + String.length rest0)%nat as Hl by (rewrite Hp; apply length_app_string).
  assert (String.length rest_v < String.length rest0)%nat as Hlv.
  { rewrite Hrest0, Hrk, !length_app_string. cbn. lia. }
  destruct (Hself _ _ _ _ _ _ Es ltac:(lia)) as (a & piece & v & es1 & Hv).
  assert (String.length rest1 <= String.length rest_v)%nat as Hl1.
  { rewrite (vr_rest _ _ _ _ _ _ _ _ _ _ _ _ _ _ Hv), !length_app_string. lia. }
  destruct (IH false path rest1 st1 rest' st' H ltac:(lia)) as (body & ms & es2 & Ht).
  pose proof (member_step path raw b rest_v st rest1 st1 a piece v es1 rest' st' body ms es2 Hraw Hne Hb) as Hstep.
  rewrite Ek in Hstep. cbv zeta in Hstep. change (b +:+ ":" +:+ rest_v) with (b +:+ String ":" rest_v) in Hstep. rewrite <- Hrk, <- Hrest0 in Hstep.
  destruct (Hstep Hv ltac:(lia) Ht) as (t & es & Hres).
  exists (p +:+ t), ((raw, v) :: ms), es. rewrite Hp at 2. eapply tail_read_keep; [exact Htail|].
  replace (String.length line - String.length rest + String.length p)%nat
    with (String.length line - String.length rest0)%nat by lia. done.
Qed.
End Reading.

(** ** The walk *)

Lemma kind_of_spec t : match kind_of t with
  | KindObject => exists r, t = "{" +:+ r | KindArray => exists r, t = "[" +:+ r | _ => True end.
Proof.
  unfold kind_of. destruct t as [|c r]; [done|]. destruct (c =? "{")%char eqn:E1; [apply Ascii.eqb_eq in E1 as ->; by exists r|].
  destruct (c =? "[")%char eqn:E2; [apply Ascii.eqb_eq in E2 as ->; by exists r|].
  destruct (c =? quote_mark)%char; [done|]. by destruct (_ || _).
Qed.

(** A bracketed tail is a value. *)
Lemma bracketed_read {A} (tail : list A -> string -> Prop) rw opens closes (node : list A -> json)
    l emb drops line key path rest st rest' st' a r body ms es :
  (forall xs t, tail xs t -> spells (node xs) (opens +:+ t +:+ closes)) ->
  (forall xs xs', Forall2 rw xs xs' -> rewritten (S l) emb drops key path (node xs) (node xs')) ->
  String.length opens = 1%nat -> all_space a = true -> rest = a +:+ opens +:+ r ->
  (String.length rest <= String.length line)%nat ->
  tail_read tail rw closes (String.length line - String.length r) r st rest' st' body ms es ->
  value_read (S l) emb drops line key path rest st rest' st' a (opens +:+ body +:+ closes) (node ms) es.
Proof.
  intros Hnode Hrw Hone Ha Hr Hlen [T1 T2 T3 T4 T5].
  assert (String.length line - String.length r = String.length line - String.length rest + String.length a + String.length opens)%nat as Hpos.
  { rewrite Hr, !length_app_string in *. lia. }
  rewrite Hpos in *. constructor.
  - done.
  - by rewrite Hr, T1, !string_app_assoc.
  - by apply Hnode.
  - done.
  - destruct opens; [done|]. done.
  - cbv zeta. rewrite !length_app_string. rewrite (Nat.add_assoc _ (String.length opens)), Nat.add_assoc.
    rewrite <- (app_nil_r es). eapply ordered_app; [eapply ordered_weaken; [|exact T4]; lia|]. cbn. lia.
  - intros Hq. destruct (T5 Hq) as (body' & ms' & G1 & G2 & G3). exists (opens +:+ body' +:+ closes), (node ms').
    split_and!; [by apply Hnode|by apply Hrw|]. apply patches_keep. rewrite <- (app_nil_r es).
    apply patches_app; [done|apply patches_nil].
Qed.

(** A token is a value. *)
Lemma token_read l emb drops line key path rest st a raw rest' out inner v :
  rest = a +:+ raw +:+ rest' -> all_space a = true -> raw <> "" -> spells v raw ->
  (String.length rest <= String.length line)%nat ->
  (forall raw', match out with None => raw' = raw | Some text => AppendQuote text = Some raw' end ->
     exists v', spells v' raw' /\ rewritten (S l) emb drops key path v v') ->
  exists es, value_read (S l) emb drops line key path rest st rest' (edit line raw rest' out inner st) a raw v es.
Proof.
  intros Hr Ha Hne Hv Hlen Hrw. subst rest.
  destruct (edit_token line raw rest' out inner st a Hne Hlen) as (es & E1 & E2 & E3).
  exists es. constructor; try done. intros Hq. destruct (E3 Hq) as (raw' & G1 & G2).
  destruct (Hrw raw' G2) as (v' & G3 & G4). by exists raw', v'.
Qed.

Lemma walk_ok l : forall emb drops line, reads_ok l emb drops line (walk s family l emb drops line).
Proof.
  induction l as [|l IH]; intros emb drops line key path rest st rest' st' H Hlen; [done|].
  cbn [walk] in H. unfold walk_value in H.
  change (fun path : string => walkEmbedded (fun text => walk s family l true ∅ text "" (path +:+ embeddedSuffix) text fresh))
    with (embed_at l) in H.
  destruct (skip_space_spec rest) as (a & Hr & Ha). set (rest0 := skip_space rest) in *.
  pose proof (kind_of_spec rest0) as Hk. destruct (kind_of rest0).
  - destruct Hk as [r Hr0]. rewrite Hr0 in H. cbn [append str_drop] in H.
    assert (String.length r <= String.length line)%nat as Hlr by (rewrite Hr, Hr0, !length_app_string in Hlen; lia).
    destruct (walk_members_ok l emb drops line _ (IH emb drops line) _ true path r st rest' st' H Hlr) as (body & ms & es & Ht).
    exists a, ("{" +:+ body +:+ "}"), (JObject ms), es.
    eapply (bracketed_read (tail_members true)); [| |done|done|by rewrite <- Hr0|done|exact Ht].
    + intros xs t [[-> Hs]|Hs]; [by apply sp_object_nil|by apply sp_object].
    + intros xs xs' Hx. apply rw_object. eapply Forall2_impl; [exact Hx|]. by intros m m' Hm.
  - destruct Hk as [r Hr0]. rewrite Hr0 in H. cbn [append str_drop] in H.
    assert (String.length r <= String.length line)%nat as Hlr by (rewrite Hr, Hr0, !length_app_string in Hlen; lia).
    destruct (walk_items_ok l emb drops line _ (IH emb drops line) _ true _ r st rest' st' H Hlr) as (body & ms & es & Ht).
    exists a, ("[" +:+ body +:+ "]"), (JArray ms), es.
    eapply (bracketed_read (tail_items true)); [| |done|done|by rewrite <- Hr0|done|exact Ht].
    + intros xs t [[-> Hs]|Hs]; [by apply sp_array_nil|by apply sp_array].
    + intros xs xs' Hx. by apply rw_array.
  - destruct (lex_string rest0) as [[raw rest1]|] eqn:El; [|done].
    destruct (lex_string_spec _ _ _ El) as (Hr0 & Hraw & Hne).
    destruct (walk_string s family (embed_at l) drops key path raw) as [[out inner]|] eqn:Ew; cbn [rbind fst snd] in H; [|done].
    injection H as <- <-. destruct (token_read l emb drops line key path rest st a raw rest1 out inner (JString raw))
      as [es He]; [by rewrite <- Hr0|done|done|by apply sp_string|done| |by exists a, raw, (JString raw), es].
    intros raw' Ho. exists (JString raw'). destruct out as [text|].
    + split; [apply sp_string; by eapply AppendQuote_token|by eapply rw_string_text].
    + subst raw'. split; [by apply sp_string|by eapply rw_string].
  - destruct (lex_number rest0) as [[raw rest1]|] eqn:El; [|done].
    destruct (lex_number_spec _ _ _ El) as (Hr0 & Hraw & Hne). destruct emb.
    + destruct (walk_number s family key path raw) as [out inner] eqn:Ew. cbn [fst snd] in H. injection H as <- <-.
      destruct (token_read l true drops line key path rest st a raw rest1 out inner (JNumber raw))
        as [es He]; [by rewrite <- Hr0|done|done|by apply sp_number|done| |by exists a, raw, (JNumber raw), es].
      intros raw' Ho. destruct out as [text|].
      * exists (JString raw'). split; [apply sp_string; by eapply AppendQuote_token|]. eapply rw_number_text; [|exact Ho]. by rewrite Ew.
      * subst raw'. exists (JNumber raw). split; [by apply sp_number|apply rw_number; right; by rewrite Ew].
    + injection H as <- <-. exists a, raw, (JNumber raw), []. constructor; try done.
      * by rewrite <- Hr0.
      * by apply sp_number.
      * by rewrite app_nil_r.
      * cbn. lia.
      * intros _. exists raw, (JNumber raw). split_and!; [by apply sp_number|apply rw_number; by left|apply patches_nil].
  - destruct (lex_literal rest0) as [[raw rest1]|] eqn:El; [|done].
    destruct (lex_literal_spec _ _ _ El) as (Hr0 & Hraw & Hne). injection H as <- <-.
    exists a, raw, (JLiteral raw), []. constructor; try done.
    + by rewrite <- Hr0.
    + by apply sp_literal.
    + by rewrite app_nil_r.
    + cbn. lia.
    + intros _. exists raw, (JLiteral raw). split_and!; [by apply sp_literal|apply rw_literal|apply patches_nil].
Qed.

(** *** It always answers *)

Definition never_stuck (line : string) (self : string -> string -> string -> walk_state -> result walk_error (string * walk_state)) : Prop :=
  forall key path rest st, (String.length rest <= String.length line)%nat -> self key path rest st <> Err Stuck.

Lemma reads_shrink l emb drops line self key path rest st rest' st' :
  reads_ok l emb drops line self -> self key path rest st = Ok (rest', st') ->
  (String.length rest <= String.length line)%nat -> (String.length rest' < String.length rest)%nat.
Proof.
  intros Hr H Hl. destruct (Hr _ _ _ _ _ _ H Hl) as (a & piece & v & es & [_ E _ _ Hne _ _]).
  rewrite E, !length_app_string. destruct piece; [done|]. cbn. lia.
Qed.

Lemma walk_items_total l emb drops line self : reads_ok l emb drops line self -> never_stuck line self ->
  forall fuel first path rest st, (String.length rest < fuel)%nat -> (String.length rest <= String.length line)%nat ->
  walk_items self fuel first path rest st <> Err Stuck.
Proof.
  intros Hr Hn. induction fuel as [|fuel IH]; intros first path rest st Hf Hl; cbn [walk_items]; [lia|].
  pose proof (skip_space_length rest) as Hs. destruct (skip_space rest) as [|c r]; [done|]. cbn [String.length] in Hs.
  destruct (c =? "]")%char; [done|].
  match goal with |- rbind ?m ?f <> _ => destruct m as [rest0|e] eqn:E0 end;
    [|destruct first; [done|]; destruct (c =? ",")%char; [done|]; by injection E0 as <-].
  assert (String.length rest0 <= String.length rest)%nat as H0.
  { destruct first; [injection E0 as <-; cbn; lia|]. destruct (c =? ",")%char; [|done]. injection E0 as <-. lia. }
  cbn [rbind]. destruct (self "" path rest0 st) as [[rest1 st1]|e] eqn:Es; cbn [rbind fst snd].
  - pose proof (reads_shrink _ _ _ _ _ _ _ _ _ _ _ Hr Es ltac:(lia)). apply IH; lia.
  - intros [= ->]. by apply (Hn "" path rest0 st); [lia|].
Qed.

Lemma walk_members_total l emb drops line self : reads_ok l emb drops line self -> never_stuck line self ->
  forall fuel first path rest st, (String.length rest < fuel)%nat -> (String.length rest <= String.length line)%nat ->
  walk_members s family self line fuel first path rest st <> Err Stuck.
Proof.
  intros Hr Hn. induction fuel as [|fuel IH]; intros first path rest st Hf Hl; cbn [walk_members]; [lia|].
  pose proof (skip_space_length rest) as Hs. destruct (skip_space rest) as [|c r]; [done|]. cbn [String.length] in Hs.
  destruct (c =? "}")%char; [done|].
  match goal with |- rbind ?m ?f <> _ => destruct m as [rest0|e] eqn:E0 end;
    [|destruct first; [done|]; destruct (c =? ",")%char; [done|]; by injection E0 as <-].
  assert (String.length rest0 <= String.length rest)%nat as H0.
  { destruct first; [injection E0 as <-; cbn; lia|]. destruct (c =? ",")%char; [|done]. injection E0 as <-.
    pose proof (skip_space_length r). lia. }
  cbn [rbind]. destruct (lex_string rest0) as [[raw rest_k]|] eqn:El; [|done].
  destruct (lex_string_spec _ _ _ El) as (Hrest0 & _ & _).
  destruct (walk_key s family path raw) as [[out field] inner]. pose proof (skip_space_length rest_k) as Hk.
  destruct (skip_space rest_k) as [|d rest_v]; [done|]. destruct (d =? ":")%char; [|done].
  assert (String.length rest_v < String.length rest0)%nat as Hv by (rewrite Hrest0, length_app_string; cbn in Hk; lia).
  destruct (self (decoded raw) field rest_v _) as [[rest1 st1]|e] eqn:Es; cbn [rbind fst snd].
  - pose proof (reads_shrink _ _ _ _ _ _ _ _ _ _ _ Hr Es ltac:(lia)). apply IH; lia.
  - intros [= ->]. by eapply Hn; [|exact Es]; lia.
Qed.

Lemma walk_string_total l drops key path raw : walk_string s family (embed_at l) drops key path raw <> Err Stuck.
Proof.
  assert (forall path text, embed_at l path text <> Err Stuck) as He.
  { intros path' text. unfold embed_at, walkEmbedded. destruct (walk _ _ _ _ _ _ _ _ _ _) as [[r st]|[]]; try done.
    destruct (negb _); [done|]. destruct (bool_decide _); [done|]. by destruct (appendTo _ _). }
  unfold walk_string. destruct (_ && _); [done|]. cbv zeta. destruct (_ && _).
  - destruct (embed_at l path (decoded raw)) as [[[out ok] inner]|e] eqn:E; cbn [rbind].
    2:{ intros [= ->]. by eapply He. }
    destruct ok; [done|]. destruct (bool_decide _); [done|].
    destruct (looksLikeDocument _); [|done]. destruct (embed_at l path (plan_apply _ _)) as [e2|e2] eqn:E2; [done|].
    intros [= ->]. by eapply He.
  - cbn [rbind]. destruct (bool_decide _); [done|]. destruct (looksLikeDocument _); [|done].
    destruct (embed_at l path (plan_apply _ _)) as [e2|e2] eqn:E2; [done|]. intros [= ->]. by eapply He.
Qed.

Lemma walk_total l : forall emb drops line key path rest st, (String.length rest <= String.length line)%nat ->
  walk s family l emb drops line key path rest st <> Err Stuck.
Proof.
  induction l as [|l IH]; intros emb drops line key path rest st Hl; [done|].
  cbn [walk]. unfold walk_value.
  change (fun path : string => walkEmbedded (fun text => walk s family l true ∅ text "" (path +:+ embeddedSuffix) text fresh))
    with (embed_at l).
  pose proof (skip_space_length rest) as Hs. set (rest0 := skip_space rest) in *.
  pose proof (kind_of_spec rest0) as Hk. destruct (kind_of rest0).
  - destruct Hk as [r Hr0]. rewrite Hr0 in *. cbn [append str_drop String.length] in *.
    eapply walk_members_total; [apply walk_ok|intros k p t st' Ht; by apply IH|lia|lia].
  - destruct Hk as [r Hr0]. rewrite Hr0 in *. cbn [append str_drop String.length] in *.
    eapply walk_items_total; [apply walk_ok|intros k p t st' Ht; by apply IH|lia|lia].
  - destruct (lex_string rest0) as [[raw rest1]|]; [|done].
    pose proof (walk_string_total l drops key path raw) as Ht.
    destruct (walk_string _ _ _ _ _ _ _) as [step|e]; cbn [rbind]; [done|]. by intros [= ->].
  - destruct (lex_number rest0) as [[raw rest1]|]; [|done]. by destruct emb.
  - by destruct (lex_literal rest0) as [[raw rest1]|].
Qed.

Lemma walkLine_never_stuck line : walkLine s family line <> Err Stuck.
Proof.
  unfold walkLine. pose proof (walk_total (S maxDepth) false (default ∅ (drops s !! family)) line "" "" line fresh (le_n _)) as H.
  destruct (walk _ _ _ _ _ _ _ _ _ _) as [[rest st]|e]; cbn [rbind fst snd]; [by destruct (_ =? _)%string|]. by intros [= ->].
Qed.

(** ** A line *)

Lemma patch_quotable es : forall pos t t', patch pos es t = Some t' -> Forall quotable es.
Proof.
  induction es as [|e es IH]; intros pos t t'; cbn [patch]; [constructor|].
  destruct (_ || _); [done|]. destruct (AppendQuote (Replacement e)) as [q|] eqn:E; cbn [mbind option_bind]; [|done].
  destruct (patch (rs_End e) es _) eqn:E2; cbn [mbind option_bind]; [|done]. intros _.
  constructor; [unfold quotable; by rewrite E|by eapply IH].
Qed.

Lemma skip_space_all t : skip_space t = "" -> all_space t = true.
Proof. intros H. destruct (skip_space_spec t) as (a & -> & Ha). rewrite H in *. by rewrite string_app_nil_r. Qed.

(** A document the walk reads to its end: what it is, and what its edits make of it. *)
Lemma document_read l emb drops key path text rest st :
  walk s family l emb drops text key path text fresh = Ok (rest, st) -> skip_space rest = "" ->
  exists a piece b v, text = a +:+ piece +:+ b /\ all_space a = true /\ all_space b = true /\ spells v piece /\
    match appendTo st text with
    | Some out => exists piece' v', out = a +:+ piece' +:+ b /\ spells v' piece' /\ rewritten l emb drops key path v v'
    | None => exists e, e ∈ edits st /\ valid_utf8 (Replacement e) = false
    end.
Proof.
  intros H Hb. apply skip_space_all in Hb.
  destruct (walk_ok l emb drops text key path text fresh rest st H (le_n _)) as (a & piece & v & es & [Ha E Hv He Hne Ho Hp]).
  exists a, piece, rest, v. split_and!; [done..|]. cbn [fresh edits app] in He.
  rewrite Nat.sub_diag in Ho, Hp. cbn [Nat.add] in Ho, Hp. cbv zeta in Ho.
  unfold appendTo. rewrite append_edits_patch by lia. cbn [str_drop]. rewrite He.
  assert (Forall quotable es -> exists piece' v', spells v' piece' /\ rewritten l emb drops key path v v' /\
    patch 0 es text = Some (a +:+ piece' +:+ rest)) as Hall.
  { intros Hq. destruct (Hp Hq) as (piece' & v' & G1 & G2 & G3). exists piece', v'. split_and!; [done|done|].
    rewrite E at 1. apply (patches_keep 0 es a (piece +:+ rest)). rewrite <- (app_nil_r es).
    apply patches_app; [done|apply patches_nil]. }
  destruct (patch 0 es text) as [out|] eqn:Ep.
  - destruct (Hall (patch_quotable _ _ _ _ Ep)) as (piece' & v' & G1 & G2 & [= ->]). by exists piece', v'.
  - destruct (decide (Forall (fun e => valid_utf8 (Replacement e) = true) es)) as [Hf|Hf].
    + destruct Hall as (piece' & v' & _ & _ & [=]). eapply Forall_impl; [exact Hf|].
      intros e Hv'. unfold quotable, AppendQuote. by rewrite Hv'.
    + apply not_Forall_Exists in Hf; [|apply _]. apply Exists_exists in Hf as (e & Hin & Hv').
      exists e. split; [done|]. by apply not_true_is_false.
Qed.

(** The walk always answers: no loop over the members of an object or the items of an array, at any
    depth of nesting or embedding, runs out of its turns. *)
Theorem walkLine_total line :
  (exists st, walkLine s family line = Ok st) \/
  exists e, walkLine s family line = Err e /\
    (e = errTooDeep \/ e = errTrailingContent \/ e = errSyntax \/ e = errEmbeddedEdit).
Proof.
  pose proof (walkLine_never_stuck line) as H. destruct (walkLine s family line) as [st|e]; [left; by exists st|right].
  exists e. split; [done|]. destruct e; auto; done.
Qed.

(** C23: a line the walk reads is one JSON document between white space, and what its edits make of it
    is again one, between the same white space: the same tree, where every string, key and (in a
    document embedded in a string) number is itself or the JSON string its plan says, literals and
    other numbers untouched. The edits never overlap nor leave the line: they fail only on text that
    is not UTF-8. *)
Theorem walkLine_preserves_json line st :
  walkLine s family line = Ok st ->
  exists a piece b v, line = a +:+ piece +:+ b /\ all_space a = true /\ all_space b = true /\ spells v piece /\
    match appendTo st line with
    | Some out => exists piece' v', out = a +:+ piece' +:+ b /\ spells v' piece' /\
        rewritten (S maxDepth) false (default ∅ (drops s !! family)) "" "" v v'
    | None => exists e, e ∈ edits st /\ valid_utf8 (Replacement e) = false
    end.
Proof.
  unfold walkLine. destruct (walk _ _ _ _ _ _ _ _ _ _) as [[rest st1]|e] eqn:E; cbn [rbind fst snd]; [|done].
  destruct (_ =? _)%string eqn:Eb; [|done]. intros [= <-]. apply String.eqb_eq in Eb. by eapply document_read.
Qed.

(** So is a string that holds a document: what replaces it, when the inner walk completes, is the
    document of the same tree, one level further down, with the numbers replaced too. *)
Theorem embedded_preserves_json l path text out w :
  embed_at l path text = Ok (out, true, w) ->
  exists a piece piece' b v v', text = a +:+ piece +:+ b /\ out = a +:+ piece' +:+ b /\
    all_space a = true /\ all_space b = true /\ spells v piece /\ spells v' piece' /\
    rewritten l true ∅ "" (path +:+ embeddedSuffix) v v'.
Proof.
  unfold embed_at, walkEmbedded. destruct (walk _ _ _ _ _ _ _ _ _ _) as [[rest st]|[]] eqn:E; try done.
  destruct (negb _) eqn:Eb; [done|]. apply negb_false_iff, String.eqb_eq in Eb.
  destruct (document_read _ _ _ _ _ _ _ _ E Eb) as (a & piece & b & v & H1 & H2 & H3 & H4 & H5).
  assert (match appendTo st text with Some o => o = out | None => False end -> exists a piece piece' b v v',
    text = a +:+ piece +:+ b /\ out = a +:+ piece' +:+ b /\
    all_space a = true /\ all_space b = true /\ spells v piece /\ spells v' piece' /\
    rewritten l true ∅ "" (path +:+ embeddedSuffix) v v') as Hgo.
  { destruct (appendTo st text) as [o|]; [|done]. intros ->. destruct H5 as (piece' & v' & G1 & G2 & G3).
    by exists a, piece, piece', b, v, v'. }
  destruct (bool_decide _) eqn:Ee.
  - intros [= <- <-]. apply bool_decide_eq_true in Ee. apply Hgo. unfold appendTo. by rewrite Ee.
  - destruct (appendTo st text) as [o|]; [|done]. intros [= <- <-]. by apply Hgo.
Qed.
End WalkSafe.
