(* ===== verification/ScrubSafe.v ===== *)
(** What scrubbing a payload promises ([Walk]): its lines stay its lines. *)

From S2P Require Import Prelude GoLib GoJson Naming GoUrl Redact Vocab Prefilter Schedule Heuristic Spans JsonText SpansSafe EscapeSafe RedactSafe Walk WalkSafe.

(** ** A payload *)

Lemma cut_newline_spec p body rest : cut_newline p = Some (body, rest) ->
  p = body +:+ String "010" rest /\ no_byte "010" body = true.
Proof.
  revert body rest. induction p as [|c p IH]; intros body rest; cbn [cut_newline]; [done|].
  destruct (c =? "010")%char eqn:E; [apply Ascii.eqb_eq in E as ->; by intros [= <- <-]|].
  destruct (cut_newline p) as [[body' rest']|]; cbn [mbind option_bind]; [|done]. intros [= <- <-].
  destruct (IH _ _ eq_refl) as [-> H]. split; [done|]. unfold no_byte in *. cbn. by rewrite E.
Qed.
Lemma cut_newline_none p : cut_newline p = None -> no_byte "010" p = true.
Proof.
  induction p as [|c p IH]; cbn [cut_newline]; [done|]. destruct (c =? "010")%char eqn:E; [done|].
  destruct (cut_newline p) as [[body' rest']|]; [done|]. intros _. unfold no_byte in *. cbn. rewrite E. by apply IH.
Qed.

Definition is_ending (e : string) : Prop := e = "" \/ e = String "010" "" \/ e = String "013" (String "010" "").

Lemma nextLine_spec p : p <> "" -> let '(body, ending, rest) := nextLine p in
  p = body +:+ ending +:+ rest /\ is_ending ending /\ no_byte "010" body = true /\
  (String.length rest < String.length p)%nat.
Proof.
  intros Hne. unfold nextLine. destruct (cut_newline p) as [[body rest]|] eqn:E.
  - apply cut_newline_spec in E as [-> Hb].
    destruct (cut_suffix _ body) as [body'|] eqn:Es.
    + apply cut_suffix_spec in Es as ->. split_and!.
      * by rewrite string_app_assoc.
      * by right; right.
      * unfold no_byte in *. rewrite str_forallb_app in Hb. by apply andb_true_iff in Hb as [Hb _].
      * rewrite length_app_string. cbn. lia.
    + split_and!; [done|by right; left|done|rewrite length_app_string; cbn; lia].
  - split_and!; [by rewrite !string_app_nil_r|by left|by apply cut_newline_none|]. destruct p; [done|cbn; lia].
Qed.

(** *** No edit breaks a line *)


Lemma quote_byte_line c : no_byte "010" (quote_byte c) = true.
Proof. destruct c as [[] [] [] [] [] [] [] []]; reflexivity. Qed.
Lemma AppendQuote_line t q : AppendQuote t = Some q -> no_byte "010" q = true.
Proof.
  unfold AppendQuote. destruct (valid_utf8 t); [|done]. intros [= <-].
  change (String quote_mark (quote_bytes t +:+ String quote_mark "")) with (String quote_mark "" +:+ (quote_bytes t +:+ String quote_mark "")).
  rewrite !no_byte_app. cbn [andb]. rewrite andb_true_r. induction t as [|c t IH]; [done|].
  cbn [quote_bytes]. rewrite no_byte_app, quote_byte_line. exact IH.
Qed.

Lemma patch_line es : forall pos t t', patch pos es t = Some t' -> no_byte "010" t = true -> no_byte "010" t' = true.
Proof.
  induction es as [|e es IH]; intros pos t t'; cbn [patch]; [by intros [= <-]|].
  destruct (_ || _); [done|]. destruct (AppendQuote (Replacement e)) as [q|] eqn:E; cbn [mbind option_bind]; [|done].
  destruct (patch (rs_End e) es _) as [t2|] eqn:E2; cbn [mbind option_bind]; [|done]. intros [= <-] H.
  rewrite !no_byte_app, no_byte_take by done. rewrite (AppendQuote_line _ _ E). cbn [andb].
  eapply IH; [exact E2|]. by apply no_byte_drop.
Qed.
Lemma appendTo_line st t t' : appendTo st t = Some t' -> no_byte "010" t = true -> no_byte "010" t' = true.
Proof. unfold appendTo. rewrite append_edits_patch by lia. apply patch_line. Qed.

Section ScrubSafe.
Context {u : GoUnicode} {log2 : MathLog2}.
Variables (s : Scrubber) (family : string).

(** One line of a payload and what became of it. *)
Record line_done := mkLine {
  ln_body : string; ln_ending : string; ln_out : string;
  ln_redacted : Z; ln_hits : gmap string Z; ln_parsed : Z; ln_raw : Z
}.

(** Blank lines are kept; a line that parses is edited and stays one line; any other is scanned raw. *)
Inductive line_scrubbed : line_done -> Prop :=
  | ls_blank body ending : TrimSpace body = "" -> line_scrubbed (mkLine body ending body 0 ∅ 0 0)
  | ls_parsed body ending w text : TrimSpace body <> "" -> walkLine s family body = Ok w ->
      appendTo w body = Some text -> no_byte "010" text = true ->
      line_scrubbed (mkLine body ending text (w_redacted w) (w_hits w) 1 0)
  | ls_raw body ending e : TrimSpace body <> "" -> walkLine s family body = Err e ->
      e = errTooDeep \/ e = errTrailingContent \/ e = errSyntax ->
      line_scrubbed (mkLine body ending (scrubRawText s body).1
        (redacted (scrubRawText s body).2) (hits (scrubRawText s body).2) 0 1).

Definition concat_lines (f : line_done -> string) (l : list line_done) : string :=
  foldr (fun ln t => f ln +:+ ln_ending ln +:+ t) "" l.

Lemma concat_lines_cons f ln l : concat_lines f (ln :: l) = f ln +:+ ln_ending ln +:+ concat_lines f l.
Proof. reflexivity. Qed.

(** The output so far, [before] being the input so far. *)
Definition written (before : string) (st : scrub_state) : string := default before (out st).

Definition count_hits (l : list line_done) (id : string) : Z := Zsum (map (fun ln => default 0 (ln_hits ln !! id)) l).

Lemma add_hits_lookup a b id : default 0 (add_hits a b !! id) = default 0 (a !! id) + default 0 (b !! id).
Proof. unfold add_hits. rewrite lookup_union_with. destruct (a !! id), (b !! id); cbn; lia. Qed.

(** What a step over one line adds. *)
Record line_step (before : string) (st : scrub_state) (ln : line_done) (st' : scrub_state) : Prop := {
  lp_line : line_scrubbed ln;
  lp_written : written (before +:+ ln_body ln +:+ ln_ending ln) st' = written before st +:+ ln_out ln +:+ ln_ending ln;
  lp_redacted : sc_redacted st' = sc_redacted st + ln_redacted ln;
  lp_hits : forall id, default 0 (sc_hits st' !! id) = default 0 (sc_hits st !! id) + default 0 (ln_hits ln !! id);
  lp_parsed : parsed st' = parsed st + ln_parsed ln;
  lp_raw : raw_scanned st' = raw_scanned st + ln_raw ln
}.

Lemma written_push before body ending st :
  written (before +:+ body +:+ ending) (push ending (push body st)) = written before st +:+ body +:+ ending.
Proof. unfold written, push. cbn. destruct (out st) as [o|]; cbn; [by rewrite string_app_assoc|done]. Qed.
Lemma written_ensure before x text ending st :
  written x (push ending (push text (ensureOutput before st))) = written before st +:+ text +:+ ending.
Proof. unfold written, push. cbn. by rewrite string_app_assoc. Qed.

Lemma scrub_line_ok before body ending st st' : no_byte "010" body = true ->
  scrub_line s family before body ending st = Some st' ->
  exists ln, ln_body ln = body /\ ln_ending ln = ending /\ line_step before st ln st'.
Proof.
  intros Hnb. unfold scrub_line. destruct (TrimSpace body =? "")%string eqn:Et.
  { apply String.eqb_eq in Et. intros [= <-]. exists (mkLine body ending body 0 ∅ 0 0). split_and!; [done|done|].
    constructor; cbn [ln_body ln_ending ln_out ln_redacted ln_hits ln_parsed ln_raw]; cbn; try lia;
      [by apply ls_blank|apply written_push|intros id; rewrite lookup_empty; cbn; lia]. }
  apply String.eqb_neq in Et. destruct (walkLine s family body) as [w|e] eqn:Ew.
  - assert (forall text, appendTo w body = Some text -> no_byte "010" text = true) as Hline
      by (intros text Ht; by eapply appendTo_line).
    destruct (bool_decide _) eqn:Ee; cbn [mbind option_bind].
    + apply bool_decide_eq_true in Ee. intros [= <-].
      assert (appendTo w body = Some body) as Ha by (unfold appendTo; by rewrite Ee).
      exists (mkLine body ending body (w_redacted w) (w_hits w) 1 0). split_and!; [done|done|].
      constructor; cbn [ln_body ln_ending ln_out ln_redacted ln_hits ln_parsed ln_raw].
      * by apply ls_parsed; auto.
      * by rewrite written_push.
      * done.
      * intros id. apply add_hits_lookup.
      * done.
      * cbn. lia.
    + destruct (appendTo w body) as [text|] eqn:Ha; cbn [mbind option_bind]; [|done]. intros [= <-].
      exists (mkLine body ending text (w_redacted w) (w_hits w) 1 0). split_and!; [done|done|].
      constructor; cbn [ln_body ln_ending ln_out ln_redacted ln_hits ln_parsed ln_raw].
      * apply ls_parsed; auto.
      * apply (written_ensure before _ text ending (record_parsed w st)).
      * done.
      * intros id. apply add_hits_lookup.
      * done.
      * cbn. lia.
  - assert (e <> errEmbeddedEdit -> e = errTooDeep \/ e = errTrailingContent \/ e = errSyntax) as He.
    { pose proof (walkLine_never_stuck s family body) as Hn. intros Hne. destruct e; auto; done. }
    intros H. assert (e <> errEmbeddedEdit) as Hne by (by intros ->).
    exists (mkLine body ending (scrubRawText s body).1 (redacted (scrubRawText s body).2) (hits (scrubRawText s body).2) 0 1).
    split_and!; [done|done|]. assert (let '(text, plan) := scrubRawText s body in
      Some (push ending (if (text =? body)%string then push body (record_raw plan st) else push text (ensureOutput before (record_raw plan st))))
      = Some st') as H' by (by destruct e). clear H.
    pose proof (ls_raw body ending e Et Ew (He Hne)) as Hls.
    destruct (scrubRawText s body) as [text plan]. injection H' as <-. cbn [fst snd] in *.
    constructor; cbn [ln_body ln_ending ln_out ln_redacted ln_hits ln_parsed ln_raw]; [done| | | | |].
    + destruct (text =? body)%string eqn:Eb; [|apply (written_ensure before _ text ending (record_raw plan st))]. apply String.eqb_eq in Eb as ->. by rewrite written_push.
    + by destruct (text =? body)%string.
    + intros id. transitivity (default 0 (sc_hits (record_raw plan st) !! id)); [by destruct (text =? body)%string|].
      apply add_hits_lookup.
    + destruct (text =? body)%string; cbn; lia.
    + by destruct (text =? body)%string.
Qed.

Lemma scrub_lines_ok fuel : forall before rest st st', (String.length rest <= fuel)%nat ->
  scrub_lines s family fuel before rest st = Some st' ->
  exists l, Forall line_scrubbed l /\ rest = concat_lines ln_body l /\
    Forall (fun ln => is_ending (ln_ending ln) /\ no_byte "010" (ln_body ln) = true) l /\
    written (before +:+ rest) st' = written before st +:+ concat_lines ln_out l /\
    sc_redacted st' = sc_redacted st + Zsum (map ln_redacted l) /\
    (forall id, default 0 (sc_hits st' !! id) = default 0 (sc_hits st !! id) + count_hits l id) /\
    parsed st' = parsed st + Zsum (map ln_parsed l) /\ raw_scanned st' = raw_scanned st + Zsum (map ln_raw l).
Proof.
  assert (forall before st, exists l, Forall line_scrubbed l /\ "" = concat_lines ln_body l /\
    Forall (fun ln => is_ending (ln_ending ln) /\ no_byte "010" (ln_body ln) = true) l /\
    written (before +:+ "") st = written before st +:+ concat_lines ln_out l /\
    sc_redacted st = sc_redacted st + Zsum (map ln_redacted l) /\
    (forall id, default 0 (sc_hits st !! id) = default 0 (sc_hits st !! id) + count_hits l id) /\
    parsed st = parsed st + Zsum (map ln_parsed l) /\ raw_scanned st = raw_scanned st + Zsum (map ln_raw l)) as Hnil.
  { intros before st. exists []. cbn. rewrite !string_app_nil_r. unfold count_hits. cbn.
    split_and!; try constructor; try lia; try done. }
  induction fuel as [|fuel IH]; intros before rest st st' Hf; cbn [scrub_lines].
  { intros [= <-]. destruct rest; [apply Hnil|cbn in Hf; lia]. }
  destruct rest as [|c r]; [intros [= <-]; apply Hnil|]. set (rest := String c r) in *.
  pose proof (nextLine_spec rest ltac:(done)) as Hn.
  destruct (nextLine rest) as [[body ending] rest'] eqn:En. destruct Hn as (H1 & H2 & H3 & H4).
  destruct (scrub_line s family before body ending st) as [st1|] eqn:Es; cbn [mbind option_bind]; [|done].
  intros H. destruct (scrub_line_ok _ _ _ _ _ H3 Es) as (ln & E1 & E2 & [L1 L2 L3 L4 L5 L6]).
  destruct (IH (before +:+ body +:+ ending) rest' st1 st' ltac:(lia) H) as (l & I1 & I2 & I3 & I4 & I5 & I6 & I7 & I8).
  exists (ln :: l). split; [by constructor|]. split; [by rewrite concat_lines_cons, E1, E2, <- I2, H1|].
  split; [constructor; [by rewrite E1, E2|done]|]. split.
  { rewrite H1, concat_lines_cons. rewrite E1, E2 in L2. rewrite !string_app_assoc in I4. rewrite I4, L2, E2. by rewrite !string_app_assoc. }
  cbn [map Zsum foldr]. unfold Zsum in *. split; [lia|]. split; [|lia]. intros id. rewrite I6, L4. unfold count_hits, Zsum. cbn. lia.
Qed.

Lemma payload_lines payload r :
  scrub_payload s payload family true = Ok r ->
  opaqueKind payload = "" /\
  exists l, Forall line_scrubbed l /\
    Forall (fun ln => is_ending (ln_ending ln) /\ no_byte "010" (ln_body ln) = true) l /\
    payload = concat_lines ln_body l /\ res_Out r = concat_lines ln_out l /\
    res_BytesTotal r = slen payload /\ res_BytesRedacted r = Zsum (map ln_redacted l) /\
    (forall id, default 0 (RuleHits r !! id) = count_hits l id) /\
    LinesParsed r = Zsum (map ln_parsed l) /\ LinesRawScanned r = Zsum (map ln_raw l).
Proof.
  unfold scrub_payload. destruct (negb _) eqn:Eo; [done|]. apply negb_false_iff, String.eqb_eq in Eo. cbn [negb].
  destruct (scrub_lines _ _ _ _ _ _) as [st|] eqn:E; [|done]. intros [= <-].
  destruct (scrub_lines_ok _ _ _ _ _ (le_n _) E) as (l & I1 & I2 & I3 & I4 & I5 & I6 & I7 & I8).
  split; [done|]. exists l. cbn [res_Out res_BytesTotal res_BytesRedacted RuleHits LinesParsed LinesRawScanned].
  cbn in I5, I7, I8. by split_and!.
Qed.

(** What scrubbing a payload of lines answers: a payload that is a compressed or database file is
    refused; otherwise the payload is a sequence of lines, in order, each with its own ending; a blank
    line is kept, one that parses is what its edits make of it and is still one line, any other is what
    the raw scan makes of it; and the ledger is the sum of the lines'. *)
Theorem scrub_payload_lines payload r :
  scrub_payload s payload family true = Ok r ->
  opaqueKind payload = "" /\
  exists l, Forall line_scrubbed l /\
    Forall (fun ln => is_ending (ln_ending ln) /\ no_byte "010" (ln_body ln) = true) l /\
    payload = concat_lines ln_body l /\ res_Out r = concat_lines ln_out l /\
    res_BytesTotal r = slen payload /\ res_BytesRedacted r = Zsum (map ln_redacted l) /\
    (forall id, default 0 (RuleHits r !! id) = count_hits l id) /\
    LinesParsed r = Zsum (map ln_parsed l) /\ LinesRawScanned r = Zsum (map ln_raw l).
Proof. apply payload_lines. Qed.

End ScrubSafe.

(** ** On the sample engine *)

Module SampleScrub.
Import SampleEngine.
Definition mark : string := String quote_mark "".
Definition nl : string := String "010" "".

(** Two lines: a record whose token names a secret, and a torn tail. *)
Definition record : string :=
  "{" +:+ mark +:+ "n" +:+ mark +:+ ": [1, " +:+ mark +:+ "x hunter2" +:+ mark +:+ "]}".
Definition payload : string := record +:+ nl +:+ nl +:+ "torn hunter2 {".

Definition scrubbed : Result :=
  mkResult ("{" +:+ mark +:+ "n" +:+ mark +:+ ": [1, " +:+ mark +:+ "x __REDACTED:sample-rule__" +:+ mark +:+ "]}" +:+ nl +:+ nl
            +:+ "torn __REDACTED:sample-rule__ {")
    14 (slen payload) {["sample-rule" := 2]} ScanModeMixed 1 1.

Lemma sample_scrubs : scrub_payload engine payload "claude-code" true = Ok scrubbed.
Proof. vm_compute. reflexivity. Qed.

Lemma scrub_payload_lines_witness : opaqueKind payload = "".
Proof. exact (proj1 (scrub_payload_lines engine "claude-code" payload scrubbed sample_scrubs)). Defined.

Lemma sample_line : exists st, walkLine engine "claude-code" record = Ok st.
Proof. eexists. vm_compute. reflexivity. Qed.

Lemma walkLine_preserves_json_witness : exists st a piece b v,
  walkLine engine "claude-code" record = Ok st /\ record = a +:+ piece +:+ b /\ spells v piece.
Proof.
  destruct sample_line as [st Hst].
  destruct (walkLine_preserves_json engine "claude-code" record st Hst) as (a & piece & b & v & H1 & _ & _ & H2 & _).
  exists st, a, piece, b, v. exact (conj Hst (conj H1 H2)).
Defined.

(** The arguments of a tool, stored as JSON text. *)
Definition arguments : string := "{" +:+ mark +:+ "AB_TOKEN" +:+ mark +:+ ": 12345678}".
Lemma sample_embedded : exists out w, embed_at engine "claude-code" 256 "args" arguments = Ok (out, true, w).
Proof. eexists _, _. vm_compute. reflexivity. Qed.

Lemma embedded_preserves_json_witness : exists out w a piece' b v',
  embed_at engine "claude-code" 256 "args" arguments = Ok (out, true, w) /\ out = a +:+ piece' +:+ b /\ spells v' piece'.
Proof.
  destruct sample_embedded as (out & w & H).
  destruct (embedded_preserves_json engine "claude-code" 256 "args" arguments out w H)
    as (a & piece & piece' & b & v & v' & _ & H2 & _ & _ & _ & H3 & _).
  exists out, w, a, piece', b, v'. exact (conj H (conj H2 H3)).
Defined.

(** The number behind a secret name becomes a JSON string. *)
Example number_redacted :
  walkLine engine "claude-code" ("{" +:+ mark +:+ "args" +:+ mark +:+ ":" +:+ mark +:+ "{\" +:+ mark +:+ "AB_TOKEN\" +:+ mark +:+ ":12}" +:+ mark +:+ "}")
  = Ok (mkWalk [mkReplacement 8 27 ("{" +:+ mark +:+ "AB_TOKEN" +:+ mark +:+ ":" +:+ mark +:+ "__REDACTED:key-name__" +:+ mark +:+ "}")]
          2 {["key-name" := 1]}).
Proof. vm_compute. reflexivity. Qed.
End SampleScrub.
