(* ===== verification/Config.v ===== *)
(** The layered configuration: [src/internal/config/layer.go], [document.go] (a decoded document) and
    [resolve.go]. Reading a document from YAML is not modelled. A Go map is visited in no fixed
    order, so the loop over a source's enrichers takes the order as an argument. Texts quote with
    [%q] strings that are plain. *)

From S2P Require Import Prelude GoLib GoUrl GoTime GoJson GoText Schedule Spec GoPath Deny Exemptions.

(** ** layer.go *)

Inductive Layer :=
  | LayerCompiledDefaults | LayerBundledCatalog | LayerUser | LayerRemote | LayerOther (n : Z).
#[global] Instance Layer_eq_dec : EqDecision Layer.
Proof. solve_decision. Defined.

Definition no_layer : Layer := LayerOther 0.

Definition IsLocal (l : Layer) : bool :=
  match l with
  | LayerCompiledDefaults | LayerBundledCatalog | LayerUser => true
  | _ => false
  end.

Definition layer_text (l : Layer) : string :=
  match l with
  | LayerCompiledDefaults => "compiled-defaults"
  | LayerBundledCatalog => "bundled-catalog"
  | LayerUser => "user"
  | LayerRemote => "remote"
  | LayerOther n => "layer(" +:+ int_text n +:+ ")"
  end.

(** ** document.go *)

Record UploadTarget := mkUploadTarget {
  ut_Origin : string;
  ut_Addressing : string;
  ut_PathPrefix : string;
  ut_AllowLoopbackHTTP : bool
}.

Record SourceOverride := mkOverride {
  ov_ID : string;
  ov_Enabled : option bool;
  ov_Roots : list string;
  ov_Include : list string;
  ov_Exclude : list string;
  ov_ExcludeAdd : list string;
  ov_MaxFileBytes : option Z;
  ov_Enrichers : gmap string bool
}.

Record Scrub := mkScrub { sc_RulePacks : list string; sc_SecretKeyNames : list string }.

Record Encryption := mkEncryptionConfig {
  en_AdditionalRecipients : list string;
  en_IncludeInstallRecipient : option bool
}.

(** [Mode] and [Autoupdate] hold one optional field each; [send] and [crash_report] are read and
    discarded. *)
Record Document := mkDocument {
  IssuedAt : option string;
  Org : option string;
  cd_ConfigVersion : option Z;
  Mode : option (option string);
  cd_Sources : list SourceOverride;
  cd_Scrub : option Scrub;
  cd_Encryption : option Encryption;
  cd_MaxFilesPerRun : option Z;
  cd_DrainDeadline : option string;
  cd_StateDir : option string;
  cd_UploadTargets : list UploadTarget;
  cd_StructuralEx : gmap string (list string);
  Autoupdate : option (option bool);
  cd_TelemetryEndpoint : option string
}.

Definition empty_document : Document :=
  mkDocument None None None None [] None None None None None [] ∅ None None.

(** [doc] may be nil. *)
Record LayeredDocument := mkLayered { ld_Layer : Layer; ld_Doc : option Document }.

(** ** The effective configuration *)

Record Origin := mkOrigin { or_Layer : Layer; Derived : bool }.

Record Effective := mkEffective {
  eff_ConfigVersion : Z;
  OrganizationID : string;
  eff_ConfigExpired : bool;
  Schedule : string;
  DrainDeadline : Z;
  eff_StateDir : string;
  eff_MaxFilesPerRun : Z;
  eff_Sources : list Resolved;
  Catalog : list Source;
  UploadTargets : list UploadTarget;
  eff_RulePacks : list string;
  eff_SecretKeyNames : list string;
  StructuralEx : gmap string (list string);
  AdditionalRecipients : list string;
  IncludeInstallRecipient : bool;
  AutoupdateEnabled : bool;
  TelemetryEndpoint : string;
  Provenance : gmap string Origin
}.

Record RejectionError := mkRejection { rej_Layer : Layer; Field : string; rej_Reason : string }.

Definition rejection_text (e : RejectionError) : string :=
  "config rejected: " +:+ Field e +:+ " (set by the " +:+ layer_text (rej_Layer e) +:+ " layer): " +:+
  rej_Reason e.

Definition q (s : string) : string := dquote +:+ s +:+ dquote.

(** The layer that last set the field; the zero layer when none did. *)
Definition origin_of (p : gmap string Origin) (field : string) : Layer :=
  match p !! field with Some o => or_Layer o | None => no_layer end.

Definition reject (e : Effective) (field why : string) : RejectionError :=
  mkRejection (origin_of (Provenance e) field) field why.

Definition set_origins (fields : list string) (l : Layer) (p : gmap string Origin) : gmap string Origin :=
  foldl (fun p f => <[f := mkOrigin l false]> p) p fields.
Definition set_derived (field : string) (p : gmap string Origin) : gmap string Origin :=
  <[field := mkOrigin no_layer true]> p.

Definition unionStrings (base add : list string) : list string :=
  foldl (fun out a => if bool_decide (a ∈ out) then out else out ++ [a]) base add.

Definition mergeExemptions (base add : gmap string (list string)) : gmap string (list string) :=
  map_fold (fun k v out => <[k := unionStrings (default [] (out !! k)) v]> out) base add.

(** ** applyDocument *)

(** The fields a document sets, in the order [applyDocument] attributes them. *)
Definition touched (d : Document) : list string :=
  (if bool_decide (cd_StructuralEx d = ∅) then [] else ["structural_exempt"]) ++
  (if bool_decide (is_Some (cd_ConfigVersion d)) then ["config_version"] else []) ++
  (match Mode d with Some (Some _) => ["mode.schedule"] | _ => [] end) ++
  (if bool_decide (is_Some (cd_MaxFilesPerRun d)) then ["max_files_per_run"] else []) ++
  (if bool_decide (is_Some (cd_DrainDeadline d)) then ["drain_deadline"] else []) ++
  (match Autoupdate d with Some (Some _) => ["autoupdate.enabled"] | _ => [] end) ++
  (if bool_decide (is_Some (cd_TelemetryEndpoint d)) then ["telemetry_endpoint"] else []) ++
  (if bool_decide (is_Some (cd_StateDir d)) then ["state_dir"] else []) ++
  (if bool_decide (cd_UploadTargets d = []) then [] else ["upload_targets"]) ++
  (match cd_Scrub d with
   | Some s => (if bool_decide (sc_RulePacks s = []) then [] else ["scrub.rule_packs"]) ++
               (if bool_decide (sc_SecretKeyNames s = []) then [] else ["scrub.secret_key_names"])
   | None => []
   end) ++
  (match cd_Encryption d with
   | Some en =>
       (if bool_decide (en_AdditionalRecipients en = []) then [] else ["encryption.additional_recipients"]) ++
       (if bool_decide (is_Some (en_IncludeInstallRecipient en)) then ["encryption.include_install_recipient"]
        else [])
   | None => []
   end).

(** The refusals of one document, in order. The library's own text of a bad duration is left out. *)
Definition drain_deadline (l : Layer) (d : Document) (dflt : Z) : result RejectionError Z :=
  match cd_DrainDeadline d with
  | None => Ok dflt
  | Some s =>
      match ParseDuration s with
      | None => Err (mkRejection l "drain_deadline" (q s +:+ " is not a duration"))
      | Some v =>
          if v <=? 0 then Err (mkRejection l "drain_deadline"
            "must be positive: a non-positive deadline makes every drain a no-op")
          else Ok v
      end
  end.

Definition autoupdate (l : Layer) (d : Document) (dflt : bool) : result RejectionError bool :=
  match Autoupdate d with
  | Some (Some on) =>
      if on && negb (IsLocal l) then Err (mkRejection l "autoupdate.enabled"
        "a non-local layer may turn self-update off but never on: re-enabling over a local refusal is a widen")
      else Ok on
  | _ => Ok dflt
  end.

Definition telemetry_endpoint (l : Layer) (d : Document) (dflt : string) : result RejectionError string :=
  match cd_TelemetryEndpoint d with
  | None => Ok dflt
  | Some s =>
      if IsLocal l then Err (mkRejection l "telemetry_endpoint"
        "served by the control plane only: it names a route on the control plane this install is enrolled with")
      else
        let endpoint := TrimSpace s in
        if negb (endpoint =? "")%string && negb (has_prefix "/" endpoint)
        then Err (mkRejection l "telemetry_endpoint"
          "must be a path beginning with /, resolved against the enrolled control-plane origin, never a URL")
        else Ok endpoint
  end.

Definition state_dir (l : Layer) (d : Document) (dflt : string) : result RejectionError string :=
  match cd_StateDir d with
  | None => Ok dflt
  | Some s =>
      if negb (IsLocal l) then Err (mkRejection l "state_dir"
        "machine-owner only: it holds the identity unit, the fingerprints and the pause state")
      else Ok s
  end.

Definition upload_targets (l : Layer) (d : Document) (dflt : list UploadTarget)
    : result RejectionError (list UploadTarget) :=
  match cd_UploadTargets d with
  | [] => Ok dflt
  | ts =>
      if negb (IsLocal l) then Err (mkRejection l "upload_targets"
        "machine-owner only: a presigned ticket authorizes itself, so this pin is the only control on destinations")
      else Ok ts
  end.

Definition applyDocument (eff : Effective) (l : Layer) (d : Document) : result RejectionError Effective :=
  let! drain := drain_deadline l d (DrainDeadline eff) in
  let! auto := autoupdate l d (AutoupdateEnabled eff) in
  let! telemetry := telemetry_endpoint l d (TelemetryEndpoint eff) in
  let! dir := state_dir l d (eff_StateDir eff) in
  let! targets := upload_targets l d (UploadTargets eff) in
  let scrub f := match cd_Scrub d with Some s => f s | None => [] end in
  Ok (mkEffective
    (default (eff_ConfigVersion eff) (cd_ConfigVersion d))
    (OrganizationID eff) (eff_ConfigExpired eff)
    (match Mode d with Some (Some s) => s | _ => Schedule eff end)
    drain dir
    (default (eff_MaxFilesPerRun eff) (cd_MaxFilesPerRun d))
    (eff_Sources eff) (Catalog eff) targets
    (unionStrings (eff_RulePacks eff) (scrub sc_RulePacks))
    (unionStrings (eff_SecretKeyNames eff) (scrub sc_SecretKeyNames))
    (mergeExemptions (StructuralEx eff) (cd_StructuralEx d))
    (unionStrings (AdditionalRecipients eff)
       (match cd_Encryption d with Some en => en_AdditionalRecipients en | None => [] end))
    (match cd_Encryption d with
     | Some en => default (IncludeInstallRecipient eff) (en_IncludeInstallRecipient en)
     | None => IncludeInstallRecipient eff
     end)
    auto telemetry
    (set_origins (touched d) l (Provenance eff))).

(** ** Source overrides *)

Definition source_field (id field : string) : string := "sources." +:+ id +:+ "." +:+ field.

Definition set_source (s : Source) (r : Resolved) : Resolved :=
  mkResolved s (Root r) (RootUnresolvedReason r) (Enabled r) (res_SpecFingerprint r).
Definition set_enabled (b : bool) (r : Resolved) : Resolved :=
  mkResolved (source r) (Root r) (RootUnresolvedReason r) b (res_SpecFingerprint r).
Definition set_fingerprint (fp : string) (r : Resolved) : Resolved :=
  mkResolved (source r) (Root r) (RootUnresolvedReason r) (Enabled r) fp.
Definition set_root (root why : string) (r : Resolved) : Resolved :=
  mkResolved (source r) root why (Enabled r) (res_SpecFingerprint r).

(** A slice of the document replaces the source's when it is not empty. *)
Definition or_list (new old : list string) : list string := match new with [] => old | _ => new end.

Definition set_exclude (l : list string) (s : Source) : Source :=
  mkSource (src_ID s) (Description s) (src_Enabled s) (Gather s) (ArtifactClass s) (Roots s)
    (RequireSubdir s) (Include s) l (MaxFileBytes s) (src_Sniff s) (Enrichers s) (src_Scrub s)
    (src_Identity s) (Emit s) (Family s).
Definition set_enrichers (m : gmap string bool) (s : Source) : Source :=
  mkSource (src_ID s) (Description s) (src_Enabled s) (Gather s) (ArtifactClass s) (Roots s)
    (RequireSubdir s) (Include s) (Exclude s) (MaxFileBytes s) (src_Sniff s) m (src_Scrub s)
    (src_Identity s) (Emit s) (Family s).
Definition apply_lists (o : SourceOverride) (s : Source) : Source :=
  mkSource (src_ID s) (Description s) (src_Enabled s) (Gather s) (ArtifactClass s)
    (or_list (ov_Roots o) (Roots s)) (RequireSubdir s) (or_list (ov_Include o) (Include s))
    (or_list (ov_Exclude o) (Exclude s)) (default (MaxFileBytes s) (ov_MaxFileBytes o)) (src_Sniff s)
    (Enrichers s) (src_Scrub s) (src_Identity s) (Emit s) (Family s).

(** One source while its overrides are folded. *)
Record folding := mkFolding {
  fd_src : Resolved;
  locallyDisabled : bool;
  additions : list string;
  fd_prov : gmap string Origin
}.

Definition exclude_error_text (e : exclude_error) : string :=
  match e with
  | ExcludeBackslash => "exclude_add must use forward slashes (/), not backslashes"
  | ExcludeNotRelative => "exclude_add must be a non-empty glob relative to the source root"
  | ExcludeSegment => "exclude_add must not contain empty, . or .. path segments"
  | ExcludeGlob => "exclude_add is not a valid doublestar glob"
  end.

Notation layeredOverride := (Layer * SourceOverride)%type.

Section Resolve.
Context {fs : FileSystem} {ds : Doublestar}.
(** The order a map is visited in; what [age.ParseX25519Recipient] accepts; the process environment. *)
Variable range : gmap string bool -> list (string * bool).
Variable ParseX25519Recipient : string -> bool.
Variable os_env : string -> option string.

Fixpoint validate_excludes (id : string) (l : Layer) (patterns : list string) : result RejectionError () :=
  match patterns with
  | [] => Ok ()
  | pattern :: r =>
      match ValidateExcludeAdd pattern with
      | Err e => Err (mkRejection l (source_field id "exclude_add") (exclude_error_text e))
      | Ok _ => validate_excludes id l r
      end
  end.

(** The toggles of one override: only of enrichers the source has, only off from a layer that is
    not local. *)
Fixpoint apply_enrichers (id : string) (l : Layer) (toggles : list (string * bool)) (m : gmap string bool)
    (p : gmap string Origin) : result RejectionError (gmap string bool * gmap string Origin) :=
  match toggles with
  | [] => Ok (m, p)
  | (name, on) :: r =>
      if bool_decide (m !! name = None)
      then Err (mkRejection l (source_field id ("enrichers." +:+ name))
             "the compiled catalog does not attach that enricher to this source")
      else if on && negb (IsLocal l) then apply_enrichers id l r m p
      else apply_enrichers id l r (<[name := on]> m)
             (set_origins [source_field id ("enrichers." +:+ name)] l p)
  end.

Definition override_fields (id : string) (o : SourceOverride) : list string :=
  (if bool_decide (ov_Roots o = []) then [] else [source_field id "roots"]) ++
  (if bool_decide (ov_Include o = []) then [] else [source_field id "include"]) ++
  (if bool_decide (ov_Exclude o = []) then [] else [source_field id "exclude"]) ++
  (if bool_decide (is_Some (ov_MaxFileBytes o)) then [source_field id "max_file_bytes"] else []).

(** One override. A remote enable of a locally disabled source drops the rest of the override with it. *)
Definition apply_override (id : string) (st : folding) (lo : layeredOverride)
    : result RejectionError folding :=
  let '(l, o) := lo in
  let! _ := validate_excludes id l (ov_ExcludeAdd o) in
  let p := if bool_decide (ov_ExcludeAdd o = []) then fd_prov st
           else set_origins [source_field id "exclude_add"] l (fd_prov st) in
  let st := mkFolding (fd_src st) (locallyDisabled st) (additions st ++ ov_ExcludeAdd o) p in
  if locallyDisabled st && negb (IsLocal l) && bool_decide (ov_Enabled o = Some true) then Ok st
  else
    let st := match ov_Enabled o with
      | Some on => mkFolding (set_enabled on (fd_src st)) (locallyDisabled st || (negb on && IsLocal l))
                     (additions st) (set_origins [source_field id "enabled"] l (fd_prov st))
      | None => st
      end in
    let src := apply_lists o (source (fd_src st)) in
    let! mp := apply_enrichers id l (range (ov_Enrichers o)) (Enrichers src)
                 (set_origins (override_fields id o) l (fd_prov st)) in
    Ok (mkFolding (set_source (set_enrichers mp.1 src) (fd_src st)) (locallyDisabled st) (additions st) mp.2).

Fixpoint apply_overrides (id : string) (st : folding) (los : list layeredOverride)
    : result RejectionError folding :=
  match los with
  | [] => Ok st
  | lo :: r => let! st := apply_override id st lo in apply_overrides id st r
  end.

(** After the overrides: the added excludes, then the fingerprint of what is now read. *)
Definition finish_source (st : folding) : Resolved * gmap string Origin :=
  let r := fd_src st in
  let s := set_exclude (unionStrings (Exclude (source r)) (additions st)) (source r) in
  let id := src_ID s in
  (set_fingerprint (SpecFingerprint s) (set_source s r),
   set_origins [source_field id "artifact_class"] LayerBundledCatalog
     (set_derived (source_field id "root") (set_derived (source_field id "spec_fingerprint") (fd_prov st)))).

Fixpoint applySourceOverrides (overrides : list layeredOverride) (srcs : list Resolved)
    (p : gmap string Origin) : result RejectionError (list Resolved * gmap string Origin) :=
  match srcs with
  | [] => Ok ([], p)
  | r :: rest =>
      let id := src_ID (source r) in
      let! st := apply_overrides id (mkFolding r false [] p)
                   (filter (fun lo => ov_ID lo.2 = id) overrides) in
      let '(r, p) := finish_source st in
      let! sp := applySourceOverrides overrides rest p in
      Ok (r :: sp.1, sp.2)
  end.

(** ** The checks of the merged configuration *)

Definition AcceptedConfigVersions : list Z := [1].

Definition set_version (v : Z) (p : gmap string Origin) (e : Effective) : Effective :=
  mkEffective v (OrganizationID e) (eff_ConfigExpired e) (Schedule e) (DrainDeadline e) (eff_StateDir e)
    (eff_MaxFilesPerRun e) (eff_Sources e) (Catalog e) (UploadTargets e) (eff_RulePacks e)
    (eff_SecretKeyNames e) (StructuralEx e) (AdditionalRecipients e) (IncludeInstallRecipient e)
    (AutoupdateEnabled e) (TelemetryEndpoint e) p.

Definition set_sources (l : list Resolved) (p : gmap string Origin) (e : Effective) : Effective :=
  mkEffective (eff_ConfigVersion e) (OrganizationID e) (eff_ConfigExpired e) (Schedule e) (DrainDeadline e)
    (eff_StateDir e) (eff_MaxFilesPerRun e) l (Catalog e) (UploadTargets e) (eff_RulePacks e)
    (eff_SecretKeyNames e) (StructuralEx e) (AdditionalRecipients e) (IncludeInstallRecipient e)
    (AutoupdateEnabled e) (TelemetryEndpoint e) p.

Definition checkConfigVersion (e : Effective) : result RejectionError Effective :=
  if eff_ConfigVersion e =? 0
  then Ok (set_version 1 (set_origins ["config_version"] LayerCompiledDefaults (Provenance e)) e)
  else if negb (bool_decide (eff_ConfigVersion e ∈ AcceptedConfigVersions))
  then Err (reject e "config_version"
         (int_text (eff_ConfigVersion e) +:+ " is not an accepted config_version [1]"))
  else Ok e.

Definition isLoopback (h : string) : bool := (h =? "localhost")%string || IP.is_loopback h.

(** What is wrong with one target, or the key two entries must not share. *)
Definition check_target (i : nat) (t : UploadTarget) : result string string :=
  let entry := "entry " +:+ int_text (Z.of_nat i) in
  let here := entry +:+ ": " +:+ q (ut_Origin t) in
  if (ut_Origin t =? "")%string then Err (entry +:+ " names no origin")
  else match Url.Parse (ut_Origin t) with
  | None => Err (here +:+ " is not a scheme://host[:port] origin")
  | Some u =>
      let host := Url.Hostname u in
      if (Host u =? "")%string then Err (here +:+ " is not a scheme://host[:port] origin")
      else if negb (Opaque u =? "")%string || (negb (GoUrl.Path u =? "")%string && negb (GoUrl.Path u =? "/")%string)
           || negb (RawQuery u =? "")%string || negb (Fragment u =? "")%string
      then Err (here +:+ " carries more than an origin: the bucket belongs in path_prefix")
      else if User u then Err (here +:+ " carries user information")
      else if str_contains "*" host
      then Err (here +:+ " is a wildcard host: a target is pinned or it is not a target")
      else
        let! _ :=
          (if (Scheme u =? "https")%string then Ok ()
           else if (Scheme u =? "http")%string then
             if ut_AllowLoopbackHTTP t then
               if isLoopback host then Ok ()
               else Err (here +:+ " is http but " +:+ q host +:+ " is not loopback")
             else Err (here +:+ " is http without allow_loopback_http: a presigned URL is a bearer credential")
           else Err (here +:+ " uses scheme " +:+ q (Scheme u) +:+ ", want https")) in
        let! _ :=
          (if (ut_Addressing t =? "virtual-hosted")%string then
             if negb (ut_PathPrefix t =? "")%string
             then Err (entry +:+ ": virtual-hosted addressing declares path_prefix " +:+ q (ut_PathPrefix t) +:+
                       ", but the bucket is already the host")
             else Ok ()
           else if (ut_Addressing t =? "path-style")%string then
             if negb (has_prefix "/" (ut_PathPrefix t)) || (ut_PathPrefix t =? "/")%string
                || has_suffix "/" (ut_PathPrefix t)
             then Err (entry +:+ ": path-style addressing needs a /bucket path_prefix, got " +:+ q (ut_PathPrefix t))
             else Ok ()
           else Err (entry +:+ ": addressing " +:+ q (ut_Addressing t) +:+
                     " is not one of [virtual-hosted path-style]")) in
        let port := str_or (Url.Port u) (if (Scheme u =? "http")%string then "80" else
                      if (Scheme u =? "https")%string then "443" else "") in
        Ok (to_lower (Scheme u) +:+ "://" +:+ Url.JoinHostPort (to_lower host) port)
  end.

Fixpoint check_targets (i : nat) (seen : list string) (ts : list UploadTarget) : result string () :=
  match ts with
  | [] => Ok ()
  | t :: r =>
      let! key := check_target i t in
      if bool_decide (key ∈ seen)
      then Err ("entry " +:+ int_text (Z.of_nat i) +:+ " repeats origin " +:+ q (ut_Origin t))
      else check_targets (S i) (key :: seen) r
  end.

Definition checkUploadTargets (e : Effective) : result RejectionError () :=
  match check_targets 0 [] (UploadTargets e) with
  | Ok _ => Ok ()
  | Err why => Err (reject e "upload_targets" why)
  end.

(** [packs.Available]: the embedded corpora and the heuristic packs, sorted. *)
Definition Available : list string :=
  merge_sort (fun a b => Is_true (str_leb a b))
    (["cloud-keys"; "gitleaks-core"; "pii-core"; "quesma-extra"] ++ ["generic-entropy"]).

Definition checkRulePacks (e : Effective) : result RejectionError () :=
  match filter (fun name => name ∉ Available) (eff_RulePacks e) with
  | [] => Ok ()
  | name :: _ => Err (reject e "scrub.rule_packs"
      (q name +:+ " is not a rule pack this build has [" +:+ join " " Available +:+ "]"))
  end.

Definition checkEncryption (e : Effective) : result RejectionError () :=
  match filter (fun r => ParseX25519Recipient r = false) (AdditionalRecipients e) with
  | r :: _ => Err (reject e "encryption.additional_recipients" (q r +:+ " is not an age X25519 recipient"))
  | [] =>
      if negb (IncludeInstallRecipient e) && bool_decide (AdditionalRecipients e = [])
      then Err (reject e "encryption.include_install_recipient"
        "withholding the install recipient with no additional_recipients would seal objects no key can open")
      else Ok ()
  end.

(** ** Roots *)

Definition catalog_source (c : list Source) (id : string) : option Source :=
  head (filter (fun s => src_ID s = id) c).

Definition layerIncludes (e : Effective) (src : Resolved) : list string :=
  let compiled := match catalog_source (Catalog e) (src_ID (source src)) with
                  | Some spec => Include spec | None => [] end in
  filter (fun glob => glob ∉ compiled) (Include (source src)).

Definition expand_error_text (e : expand_error) : string :=
  match e with
  | EmptyRoot => "empty root"
  | ErrUnsetVar root var => "root " +:+ q root +:+ " references unset variable " +:+ var
  | NotAbsolute root expanded => "root " +:+ q root +:+ " expanded to " +:+ q expanded +:+ ", which is not absolute"
  end.

Definition deny_error_text (e : deny_error) : string :=
  match e with
  | RootDenied root pat => "root " +:+ root +:+ " matches the compiled deny pattern " +:+ q pat
  | IncludeInvalid glob why => "include glob " +:+ q glob +:+ " is not valid: " +:+ why
  | IncludeReaches glob abs pat =>
      "include glob " +:+ q glob +:+ " reaches " +:+ abs +:+ ", which matches the compiled deny pattern " +:+ q pat
  end.

Definition requireSubdir (root subdir : string) : option string :=
  if (subdir =? "")%string then None
  else match Stat (path_Join root subdir) with
       | None => Some ("root " +:+ root +:+ " has no " +:+ subdir +:+ "/ directory")
       | Some false => Some ("root " +:+ root +:+ ": " +:+ subdir +:+ " exists but is not a directory")
       | Some true => None
       end.

(** The first candidate that qualifies, else why none did. *)
Fixpoint pick_candidates (deny : denyList) (e : Effective) (src : Resolved) (env : Env)
    (candidates : list string) (reasons : list string) : result RejectionError (string * list string) :=
  let id := src_ID (source src) in
  match candidates with
  | [] => Ok ("", reasons)
  | candidate :: r =>
      match ExpandRoot env candidate with
      | Err (ErrUnsetVar _ _ as err) => pick_candidates deny e src env r (reasons ++ [expand_error_text err])
      | Err err => Err (reject e (source_field id "roots") (expand_error_text err))
      | Ok expanded =>
          match CheckRoot deny expanded with
          | Err err => Err (reject e (source_field id "roots") (deny_error_text err))
          | Ok _ =>
              match Stat expanded with
              | None => pick_candidates deny e src env r (reasons ++ [expanded +:+ " does not exist"])
              | Some false => pick_candidates deny e src env r (reasons ++ [expanded +:+ " is not a directory"])
              | Some true =>
                  match requireSubdir expanded (RequireSubdir (source src)) with
                  | Some why => pick_candidates deny e src env r (reasons ++ [why])
                  | None =>
                      match CheckIncludes deny expanded (layerIncludes e src) with
                      | Err err => Err (reject e (source_field id "include") (deny_error_text err))
                      | Ok _ => Ok (expanded, reasons)
                      end
                  end
              end
          end
      end
  end.

Definition pickRoot (deny : denyList) (e : Effective) (src : Resolved) (env : Env)
    : result RejectionError (string * list string) :=
  pick_candidates deny e src env (Roots (source src)) [].

Fixpoint resolveRoots (deny : denyList) (e : Effective) (env : Env) (srcs : list Resolved)
    : result RejectionError (list Resolved) :=
  match srcs with
  | [] => Ok []
  | src :: r =>
      let! src :=
        (if negb (Enabled src) then Ok src
         else
           let! p := pickRoot deny e src env in
           Ok (set_root p.1 (if (p.1 =? "")%string then join "; " p.2 else RootUnresolvedReason src) src)) in
      let! r := resolveRoots deny e env r in
      Ok (src :: r)
  end.

(** [RefreshAbsentRoots]: the ids whose root now resolves, and the sources. *)
Definition refresh_source (deny : denyList) (e : Effective) (env : Env) (src : Resolved)
    : list string * Resolved :=
  if negb (Enabled src) || negb (Root src =? "")%string then ([], src)
  else match pickRoot deny e src env with
       | Err rej => ([], set_root (Root src) (rejection_text rej) src)
       | Ok (root, reasons) =>
           if (root =? "")%string then ([], set_root (Root src) (join "; " reasons) src)
           else ([src_ID (source src)], set_root root "" src)
       end.

Definition RefreshAbsentRoots (deny : denyList) (e : Effective) (env : Env) : list string * Effective :=
  let l := map (refresh_source deny e env) (eff_Sources e) in
  (mjoin (map fst l), set_sources (map snd l) (Provenance e) e).

(** ** Resolve *)

Record ResolveInput := mkResolveInput {
  in_Catalog : list Source;
  Layers : list LayeredDocument;
  in_ConfigExpired : bool;
  in_Env : Env;
  in_StateDir : string
}.

Definition default_fields : list string :=
  ["mode.schedule"; "max_files_per_run"; "send.sink"; "scrub.rule_packs"; "state_dir"; "upload_targets";
   "config_version"; "drain_deadline"; "structural_exempt"; "encryption.additional_recipients";
   "encryption.include_install_recipient"; "autoupdate.enabled"].

Definition compiled_source (s : Source) : Resolved :=
  mkResolved s "" "" (IsEnabledByDefault s) (SpecFingerprint s).

Definition source_origins (p : gmap string Origin) (s : Source) : gmap string Origin :=
  set_origins (map (source_field (src_ID s)) ["enabled"; "include"; "roots"]) LayerBundledCatalog p.

Definition initial_effective (i : ResolveInput) : Effective :=
  mkEffective 0 "default" (in_ConfigExpired i) "15m" (5 * minute) (in_StateDir i) 512
    (map compiled_source (in_Catalog i)) (in_Catalog i) []
    ["gitleaks-core"; "quesma-extra"; "cloud-keys"; "generic-entropy"; "pii-core"] []
    CompiledExemptions [] true true ""
    (foldl source_origins (set_origins default_fields LayerCompiledDefaults ∅) (in_Catalog i)).

Definition set_organization (org : string) (l : Layer) (e : Effective) : Effective :=
  mkEffective (eff_ConfigVersion e) org (eff_ConfigExpired e) (Schedule e) (DrainDeadline e)
    (eff_StateDir e) (eff_MaxFilesPerRun e) (eff_Sources e) (Catalog e) (UploadTargets e) (eff_RulePacks e)
    (eff_SecretKeyNames e) (StructuralEx e) (AdditionalRecipients e) (IncludeInstallRecipient e)
    (AutoupdateEnabled e) (TelemetryEndpoint e) (set_origins ["organization"] l (Provenance e)).

(** Only the served document carries the envelope. *)
Definition apply_envelope (l : Layer) (d : Document) (e : Effective) : result RejectionError Effective :=
  if bool_decide (IssuedAt d = None) && bool_decide (Org d = None) then Ok e
  else if negb (bool_decide (l = LayerRemote)) then
    Err (mkRejection l "issued_at / org"
      ("only the served remote config carries the served envelope: these fields " +:+
       "describe the org's issuing event and its key namespace, not machine configuration"))
  else match Org d with
       | Some org => if negb (org =? "")%string then Ok (set_organization org l e) else Ok e
       | None => Ok e
       end.

Definition check_known (catalog : list Source) (l : Layer) (o : SourceOverride) : result RejectionError () :=
  match catalog_source catalog (ov_ID o) with
  | Some _ => Ok ()
  | None => Err (mkRejection l ("sources." +:+ ov_ID o)
      "no such source in the compiled catalog: a config layer cannot create a source, only adjust one")
  end.

Fixpoint check_all_known (catalog : list Source) (l : Layer) (os : list SourceOverride)
    : result RejectionError () :=
  match os with
  | [] => Ok ()
  | o :: r => let! _ := check_known catalog l o in check_all_known catalog l r
  end.

(** The merge, lowest layer first; the overrides are gathered in order. *)
Fixpoint merge_layers (catalog : list Source) (layers : list LayeredDocument) (e : Effective)
    (os : list layeredOverride) : result RejectionError (Effective * list layeredOverride) :=
  match layers with
  | [] => Ok (e, os)
  | ld :: r =>
      match ld_Doc ld with
      | None => merge_layers catalog r e os
      | Some d =>
          let l := ld_Layer ld in
          let! e := apply_envelope l d e in
          let! e := applyDocument e l d in
          let! _ := check_all_known catalog l (cd_Sources d) in
          merge_layers catalog r e (os ++ map (pair l) (cd_Sources d))
      end
  end.

Definition by_id (a b : Resolved) : Prop := Is_true (str_leb (src_ID (source a)) (src_ID (source b))).
#[global] Instance by_id_dec : RelDecision by_id.
Proof. intros a b. unfold by_id. apply _. Defined.

Definition Resolve (i : ResolveInput) : result RejectionError Effective :=
  let! m := merge_layers (in_Catalog i) (Layers i) (initial_effective i) [] in
  let '(e, os) := m in
  let! sp := applySourceOverrides os (eff_Sources e) (Provenance e) in
  let e := set_sources sp.1 sp.2 e in
  let! e := checkConfigVersion e in
  let! _ := checkUploadTargets e in
  let! _ := checkRulePacks e in
  let! _ := checkEncryption e in
  let deny := deny_New os_env (Home (in_Env i)) in
  let! l := resolveRoots deny e (in_Env i) (eff_Sources e) in
  Ok (set_sources (merge_sort by_id l) (Provenance e) e).
End Resolve.
