(* ===== verification/ConfigSafe.v ===== *)
(** What a resolved configuration promises: it is well formed, a refresh on a later disk fills roots that
    were absent and moves none, and what [confined] and [narrows] list of it no served layer widens. *)

From S2P Require Import Prelude GoLib GoUrl GoTime GoJson GoText Schedule Spec GoPath Deny Config.

(** The tick interval is never below the floor: a blank schedule is the default, a duration of
    at least a minute is taken as it is, a shorter positive one is raised to the minute, and anything
    else is refused for the default; there is a warning exactly when the interval is not what was
    asked for. *)
Theorem TickInterval_floor schedule :
  let s := TrimSpace schedule in
  MinTick <= (TickInterval schedule).1 /\
  match ParseDuration s with
  | Some d =>
      s <> "" -> (TickInterval schedule).1 = (if d <=? 0 then DefaultTick else Z.max MinTick d) /\
      ((TickInterval schedule).2 = None <-> (TickInterval schedule).1 = d)
  | None => (TickInterval schedule).1 = DefaultTick /\ ((TickInterval schedule).2 = None <-> s = "")
  end.
Proof.
  cbn zeta. unfold TickInterval, parseSchedule. set (s := TrimSpace schedule).
  assert (MinTick < DefaultTick /\ 0 < MinTick) as [Hm H0] by (vm_compute; done).
  destruct (String.eqb_spec s "") as [->|Hs].
  { split; [cbn; lia|]. by vm_compute. }
  destruct (ParseDuration s) as [d|]; [|cbn; split; [lia|done]].
  destruct (Z.leb_spec d 0); cbn [fst snd].
  { split; [lia|]. intros _. split; [done|]. split; [done|lia]. }
  destruct (Z.ltb_spec d MinTick); cbn [fst snd].
  - split; [lia|]. intros _. split; [lia|]. split; [done|lia].
  - split; [lia|]. intros _. split; [lia|done].
Qed.

(** ** Lists without repetition *)

Lemma unionStrings_spec base add x : x ∈ unionStrings base add <-> x ∈ base \/ x ∈ add.
Proof.
  unfold unionStrings. revert base. induction add as [|a add IH]; intros base; cbn [foldl].
  - split; [by left|]. intros [?|H]; [done|by apply not_elem_of_nil in H].
  - rewrite IH, elem_of_cons. case_bool_decide; [|rewrite elem_of_app, list_elem_of_singleton; tauto].
    split; [tauto|]. intros [?|[->|?]]; tauto.
Qed.

Lemma unionStrings_incl base add : base ⊆ unionStrings base add.
Proof. intros x H. apply unionStrings_spec. by left. Qed.

Lemma unionStrings_empty base add : unionStrings base add = [] -> base = [].
Proof.
  intros H. destruct base as [|x base]; [done|].
  assert (x ∈ unionStrings (x :: base) add) as Hx by (apply unionStrings_spec; left; apply elem_of_cons; by left).
  rewrite H in Hx. by apply not_elem_of_nil in Hx.
Qed.

(** ** Roots *)

Section Roots.
Context {fs : FileSystem} {ds : Doublestar}.

(** A candidate that may be walked as the disk now stands: an existing directory that holds the
    subdirectory the source declares. *)
Definition walkable (src : Resolved) (p : string) : Prop :=
  Stat p = Some true /\ requireSubdir p (RequireSubdir (source src)) = None.

(** A root is held by an enabled source only: one of the source's candidates, expanded to a clean
    absolute path of a walkable directory the deny list does not reach. *)
Definition root_ok (deny : denyList) (env : Env) (src : Resolved) : Prop :=
  Root src <> "" ->
  Enabled src = true /\ clean_abs (Root src) /\ deny_Match deny (Root src) = None /\
  walkable src (Root src) /\
  exists template, template ∈ Roots (source src) /\ ExpandRoot env template = Ok (Root src).

(** No candidate of the source can be walked. *)
Definition none_walkable (env : Env) (src : Resolved) : Prop :=
  forall template p, template ∈ Roots (source src) -> ExpandRoot env template = Ok p -> ~ walkable src p.

(** The root is a good one, and is missing from an enabled source only when none is to be had. *)
Definition source_ok (deny : denyList) (env : Env) (src : Resolved) : Prop :=
  res_SpecFingerprint src = SpecFingerprint (source src) /\ root_ok deny env src /\
  (Enabled src = true -> Root src = "" -> none_walkable env src).

Lemma pick_candidates_ok deny e src env l reasons root why :
  pick_candidates deny e src env l reasons = Ok (root, why) -> root <> "" ->
  clean_abs root /\ deny_Match deny root = None /\ walkable src root /\
  exists template, template ∈ l /\ ExpandRoot env template = Ok root.
Proof.
  revert reasons. induction l as [|c l IH]; intros reasons; cbn [pick_candidates]; [by intros [= <- <-]|].
  assert (forall reasons, pick_candidates deny e src env l reasons = Ok (root, why) -> root <> "" ->
    clean_abs root /\ deny_Match deny root = None /\ walkable src root /\
    exists template, template ∈ c :: l /\ ExpandRoot env template = Ok root) as Hnext.
  { intros rs H Hr. destruct (IH rs H Hr) as (H1 & H2 & H3 & t & Ht & He). split_and!; try done.
    exists t. split; [apply elem_of_cons; by right|done]. }
  destruct (ExpandRoot env c) as [p|[]] eqn:Ex; try discriminate; [|apply Hnext].
  destruct (CheckRoot deny p) as [[]|] eqn:Ec; [|discriminate]. apply CheckRoot_ok in Ec.
  destruct (Stat p) as [[]|] eqn:Es; [|apply Hnext..].
  destruct (requireSubdir p _) eqn:Eq; [apply Hnext|].
  destruct (CheckIncludes deny p _); [|discriminate]. intros [= <- <-] _.
  split_and!; try done; [by eapply ExpandRoot_clean|]. exists c. split; [apply elem_of_cons; by left|done].
Qed.

Lemma ExpandRoot_nonempty env template p : ExpandRoot env template = Ok p -> p <> "".
Proof. intros [[->|(segs & Hne & Hs & _)] _]%ExpandRoot_clean; [done|]. intros ->. by injection Hs as <-. Qed.

(** No root is picked only when no candidate is a directory to walk. *)
Lemma pick_candidates_none deny e src env l reasons why template p :
  pick_candidates deny e src env l reasons = Ok ("", why) ->
  template ∈ l -> ExpandRoot env template = Ok p -> ~ walkable src p.
Proof.
  revert reasons. induction l as [|c l IH]; intros reasons; cbn [pick_candidates].
  { intros _ H. by apply not_elem_of_nil in H. }
  intros H [->|Hin]%elem_of_cons Hx.
  - rewrite Hx in H. destruct (CheckRoot deny p) as [[]|]; [|discriminate]. intros [Hs Hr].
    rewrite Hs, Hr in H. destruct (CheckIncludes deny p _); [|discriminate]. injection H as -> ->.
    by apply ExpandRoot_nonempty in Hx.
  - destruct (ExpandRoot env c) as [pc|[]] eqn:Ec; try discriminate; [|by eapply IH].
    destruct (CheckRoot deny pc) as [[]|]; [|discriminate].
    destruct (Stat pc) as [[]|]; [|by eapply IH..].
    destruct (requireSubdir pc _); [by eapply IH|]. destruct (CheckIncludes deny pc _); [|discriminate].
    injection H as -> ->. by apply ExpandRoot_nonempty in Ec.
Qed.

Lemma resolveRoots_ok deny e env l l' :
  Forall (fun s => Root s = "" /\ res_SpecFingerprint s = SpecFingerprint (source s)) l ->
  resolveRoots deny e env l = Ok l' ->
  Forall (source_ok deny env) l' /\
  Forall2 (fun s s' => source s' = source s /\ Enabled s' = Enabled s) l l'.
Proof.
  revert l'. induction l as [|src l IH]; intros l' Hl; cbn [resolveRoots]; [by intros [= <-]|].
  apply Forall_cons in Hl as [[Hr Hf] Hl]. intros H. inv_ok.
  match goal with H : resolveRoots _ _ _ _ = Ok _ |- _ => apply (IH _ Hl) in H as [H1 H2] end.
  split; constructor; try done; destruct (Enabled src) eqn:Een; cbn [negb] in *; inv_ok; try done.
  - match goal with H : pickRoot _ _ _ _ = Ok ?p |- _ => destruct p as [root why]; pose proof H as Hp end.
    split; [done|]. split; cbn.
    + intros Hne. split; [done|]. exact (pick_candidates_ok _ _ _ _ _ _ _ _ Hp Hne).
    + intros _ ->. intros t p. exact (pick_candidates_none _ _ _ _ _ _ _ _ _ Hp).
  - split; [done|]. split; [by intros Hne|]. rewrite Een. discriminate.
Qed.

(** What a refresh makes of one source: one that is off, or holds a root, is left as it is; of the
    others the root alone is filled, with a good one, and stays absent when there is none to walk or
    its candidates are now refused. *)
Record refreshed (deny : denyList) (e : Effective) (env : Env) (s s' : Resolved) : Prop := {
  rs_source : source s' = source s /\ Enabled s' = Enabled s /\ res_SpecFingerprint s' = res_SpecFingerprint s;
  rs_kept : Enabled s = false \/ Root s <> "" -> s' = s;
  rs_root : Root s = "" -> root_ok deny env s';
  rs_absent : Enabled s = true -> Root s' = "" ->
    none_walkable env s \/
    exists rej, pickRoot deny e s env = Err rej /\ RootUnresolvedReason s' = rejection_text rej
}.

Lemma refresh_source_refreshed deny e env s :
  refreshed deny e env s (refresh_source deny e env s).2 /\
  (refresh_source deny e env s).1 =
    (if bool_decide (Root s = "" /\ Root (refresh_source deny e env s).2 <> "") then [src_ID (source s)] else []).
Proof.
  unfold refresh_source. destruct (Enabled s) eqn:Ee; cbn [negb orb].
  2:{ split; [|by rewrite bool_decide_eq_false_2 by tauto].
      split; [done|done|by intros Hr Hn|by rewrite Ee]. }
  destruct (String.eqb_spec (Root s) "") as [E|E]; cbn [negb].
  2:{ split; [|by rewrite bool_decide_eq_false_2 by tauto]. split; [done|done|by intros Hr Hn|done]. }
  destruct (pickRoot deny e s env) as [[root why]|rej] eqn:Hp.
  2:{ rewrite bool_decide_eq_false_2 by (cbn; tauto). split; [|done].
      split; cbn; [done|intros [?|?]; congruence|intros _ Hn; by cbn in Hn|by right; exists rej]. }
  destruct (String.eqb_spec root "") as [->|Hne].
  - rewrite bool_decide_eq_false_2 by (cbn; tauto). split; [|done].
    split; cbn; [done|intros [?|?]; congruence|intros _ Hn; by cbn in Hn|].
    left. intros t p. exact (pick_candidates_none _ _ _ _ _ _ _ _ _ Hp).
  - rewrite bool_decide_eq_true_2 by (cbn; done). split; [|done].
    split; cbn; [done|intros [?|?]; congruence| |done].
    intros _ _. split; [done|]. exact (pick_candidates_ok _ _ _ _ _ _ _ _ Hp Hne).
Qed.

(** A refresh is one step on every source in place; nothing else of the configuration moves. *)
Lemma RefreshAbsentRoots_spec deny e env found e' :
  RefreshAbsentRoots deny e env = (found, e') ->
  e' = set_sources (eff_Sources e') (Provenance e) e /\
  Forall2 (refreshed deny e env) (eff_Sources e) (eff_Sources e') /\
  forall id, id ∈ found <-> exists k s s', eff_Sources e !! k = Some s /\ eff_Sources e' !! k = Some s' /\
    Root s = "" /\ Root s' <> "" /\ src_ID (source s) = id.
Proof.
  unfold RefreshAbsentRoots. intros [= <- <-]. cbn [eff_Sources set_sources]. rewrite !List.map_map.
  split; [done|]. split.
  { apply Forall2_fmap_r, Forall_Forall2_diag, Forall_forall. intros s _. apply refresh_source_refreshed. }
  intros id. setoid_rewrite list_lookup_fmap. rewrite list_elem_of_join. split.
  - intros (l & Hid & Hl). apply list_elem_of_fmap in Hl as (s & -> & Hs). apply list_elem_of_lookup in Hs as [k Hk].
    rewrite (proj2 (refresh_source_refreshed deny e env s)) in Hid. case_bool_decide as Hb; [|by apply not_elem_of_nil in Hid].
    apply list_elem_of_singleton in Hid as ->. exists k, s, (refresh_source deny e env s).2. destruct Hb. by split_and!; [|rewrite Hk|..].
  - intros (k & s & s' & Hk & Hk' & H1 & H2 & <-). rewrite Hk in Hk'. injection Hk' as <-.
    exists (refresh_source deny e env s).1. rewrite (proj2 (refresh_source_refreshed deny e env s)) at 1.
    rewrite bool_decide_eq_true_2 by done. split; [by apply list_elem_of_singleton|].
    apply list_elem_of_fmap. exists s. split; [done|]. by eapply list_elem_of_lookup_2.
Qed.
End Roots.

Section Config.
Context {fs : FileSystem} {ds : Doublestar}.
Variable range : gmap string bool -> list (string * bool).
Variable ParseX25519Recipient : string -> bool.
Variable os_env : string -> option string.
Notation Resolve := (Resolve range ParseX25519Recipient os_env).

(** ** Well-formed configurations *)

Record well_formed (deny : denyList) (env : Env) (e : Effective) : Prop := {
  wf_version : eff_ConfigVersion e ∈ AcceptedConfigVersions;
  wf_drain : 0 < DrainDeadline e;
  wf_targets : exists keys, Forall2 (fun t k => exists i, check_target i t = Ok k) (UploadTargets e) keys /\ NoDup keys;
  wf_packs : Forall (fun p => p ∈ Available) (eff_RulePacks e);
  wf_readers : Forall (fun r => ParseX25519Recipient r = true) (AdditionalRecipients e) /\
    (IncludeInstallRecipient e = true \/ AdditionalRecipients e <> []);
  wf_sorted : Sorted by_id (eff_Sources e);
  wf_sources : Forall (source_ok deny env) (eff_Sources e)
}.

Lemma apply_enrichers_ok id l toggles m p mp :
  apply_enrichers id l toggles m p = Ok mp ->
  (forall k, is_Some (mp.1 !! k) <-> is_Some (m !! k)) /\
  (IsLocal l = false -> forall k, mp.1 !! k = Some true -> m !! k = Some true).
Proof.
  revert m p. induction toggles as [|[name on] r IH]; intros m p; cbn [apply_enrichers].
  - intros [= <-]. done.
  - case_bool_decide as Hm; [discriminate|]. destruct (on && negb (IsLocal l)) eqn:Eo; [apply IH|].
    intros H. apply IH in H as [H1 H2]. split.
    + intros k. rewrite H1. destruct (decide (k = name)) as [->|]; [|by rewrite lookup_insert_ne].
      rewrite lookup_insert_eq. split; [intros _|by eexists]. by destruct (m !! name); [eexists|].
    + intros Hl k Hk. specialize (H2 Hl k Hk). rewrite Hl in Eo. cbn in Eo. rewrite andb_true_r in Eo. subst on.
      destruct (decide (k = name)) as [->|]; [by rewrite lookup_insert_eq in H2|].
      by rewrite lookup_insert_ne in H2.
Qed.

(** ** What one layer can do to a source *)

(** What no override touches. *)
Definition same_source (a b : Resolved) : Prop :=
  src_ID (source b) = src_ID (source a) /\ Gather (source b) = Gather (source a) /\
  ArtifactClass (source b) = ArtifactClass (source a) /\ Emit (source b) = Emit (source a) /\
  RequireSubdir (source b) = RequireSubdir (source a) /\ src_Scrub (source b) = src_Scrub (source a) /\
  src_Identity (source b) = src_Identity (source a) /\ Root b = Root a /\
  (forall k, is_Some (Enrichers (source b) !! k) <-> is_Some (Enrichers (source a) !! k)).

#[global] Instance same_source_preorder : PreOrder same_source.
Proof.
  split; [by intros a; unfold same_source|]. unfold same_source. intros a b c Hab Hbc. split_hyps.
  split_and!; try congruence. intros k.
  repeat match goal with H : forall k, is_Some _ <-> _ |- _ => specialize (H k) end. tauto.
Qed.

(** A layer that is not local never lifts a local disable and never turns an enricher on. *)
Record narrowed (a b : folding) : Prop := {
  nr_local : locallyDisabled b = locallyDisabled a;
  nr_off : locallyDisabled a = true -> Enabled (fd_src a) = false -> Enabled (fd_src b) = false;
  nr_enrichers : forall k, Enrichers (source (fd_src b)) !! k = Some true ->
    Enrichers (source (fd_src a)) !! k = Some true
}.

#[global] Instance narrowed_preorder : PreOrder narrowed.
Proof.
  split; [by intros a; constructor|]. intros a b c [H1 H2 H3] [H4 H5 H6]. constructor.
  - congruence.
  - intros Hl He. apply H5; [congruence|by apply H2].
  - intros k Hk. by apply H3, H6.
Qed.

Lemma apply_override_ok id st l o st' :
  apply_override range id st (l, o) = Ok st' ->
  same_source (fd_src st) (fd_src st') /\
  (locallyDisabled st = true -> locallyDisabled st' = true) /\
  (IsLocal l = true -> ov_Enabled o = Some false -> locallyDisabled st' = true) /\
  (IsLocal l = false -> narrowed st st').
Proof.
  unfold apply_override. intros H. apply rbind_Ok in H as (u & _ & H).
  destruct (locallyDisabled st && negb (IsLocal l) && bool_decide (ov_Enabled o = Some true)) eqn:Eskip;
    cbn [locallyDisabled] in H; rewrite Eskip in H.
  { injection H as <-. boolp. split_and!; done || congruence. }
  set (st1 := match ov_Enabled o with Some on => _ | None => _ end) in H.
  assert (source (fd_src st1) = source (fd_src st) /\ Root (fd_src st1) = Root (fd_src st)) as [Es Er]
    by (unfold st1; by destruct (ov_Enabled o)).
  assert (locallyDisabled st1 = locallyDisabled st ||
    (bool_decide (ov_Enabled o = Some false) && IsLocal l)) as El.
  { unfold st1. destruct (ov_Enabled o) as [[]|]; cbn; by rewrite ?orb_false_r. }
  apply rbind_Ok in H as (mp & Hen & [= <-]). apply apply_enrichers_ok in Hen as [Hdom Hoff].
  cbn [fd_src locallyDisabled source set_source set_enrichers Enrichers apply_lists] in *.
  rewrite Es in *. cbn [Enrichers apply_lists] in *. split_and!.
  - unfold same_source. cbn. rewrite Er. split_and!; try done.
  - intros Hd. by rewrite El, Hd.
  - intros Hl Ho. rewrite El, Hl, bool_decide_eq_true_2 by done. by rewrite orb_true_r.
  - intros Hl. constructor; cbn [locallyDisabled fd_src source Enrichers set_source set_enrichers].
    + by rewrite El, Hl, andb_false_r, orb_false_r.
    + intros Hd Hoffs. unfold st1. destruct (ov_Enabled o) as [[]|] eqn:Eo; cbn; try done.
      rewrite Hd, Hl in Eskip. by rewrite bool_decide_eq_true_2 in Eskip.
    + by apply Hoff.
Qed.

Lemma apply_overrides_ok id los st st' :
  apply_overrides range id st los = Ok st' ->
  same_source (fd_src st) (fd_src st') /\
  (locallyDisabled st = true \/
   (exists lo, lo ∈ los /\ IsLocal lo.1 = true /\ ov_Enabled lo.2 = Some false) -> locallyDisabled st' = true) /\
  (Forall (fun lo => IsLocal lo.1 = false) los -> narrowed st st').
Proof.
  revert st. induction los as [|[l o] los IH]; intros st; cbn [apply_overrides].
  - intros [= <-]. split_and!; [done| |done]. intros [?|(lo & H & _)]; [done|by apply not_elem_of_nil in H].
  - intros H. apply rbind_Ok in H as (st1 & H1 & H2). apply apply_override_ok in H1 as (Ha & Hb & Hc & Hd).
    apply IH in H2 as (He & Hf & Hg). split_and!; [by etrans| |].
    + intros [Hl|(lo & [->|Hin]%elem_of_cons & Hl & Ho)]; apply Hf; [left; by apply Hb|left; by apply Hc|].
      right. by exists lo.
    + intros [Hl Hr]%Forall_cons. etrans; [by apply Hd|by apply Hg].
Qed.

(** ** The provenance decides nothing *)

Definition with_prov (p : gmap string Origin) (st : folding) : folding :=
  mkFolding (fd_src st) (locallyDisabled st) (additions st) p.

Lemma apply_enrichers_prov id l toggles m p p2 mp :
  apply_enrichers id l toggles m p = Ok mp -> exists p2', apply_enrichers id l toggles m p2 = Ok (mp.1, p2').
Proof.
  revert m p p2. induction toggles as [|[name on] r IH]; intros m p p2; cbn [apply_enrichers].
  - intros [= <-]. by eexists.
  - case_bool_decide; [discriminate|]. destruct (_ && _); [apply IH|]. intros Hr. by eapply IH.
Qed.

Lemma apply_override_prov id st lo st' p2 :
  apply_override range id st lo = Ok st' ->
  exists p2', apply_override range id (with_prov p2 st) lo = Ok (with_prov p2' st').
Proof.
  destruct lo as [l o]. unfold apply_override. intros H. apply rbind_Ok in H as (u & Hv & H). rewrite Hv. cbn [rbind].
  cbn [with_prov fd_src locallyDisabled additions fd_prov] in *.
  destruct (locallyDisabled st && negb (IsLocal l) && bool_decide (ov_Enabled o = Some true)).
  { injection H as <-. by eexists. }
  destruct (ov_Enabled o) as [on|]; cbn [fd_src locallyDisabled additions fd_prov] in *;
    apply rbind_Ok in H as (mp & Hen & [= <-]);
    match goal with |- context [apply_enrichers _ _ _ _ ?p] =>
      destruct (apply_enrichers_prov _ _ _ _ _ p _ Hen) as [p3 ->] end; by exists p3.
Qed.

Lemma apply_overrides_prov id los st st' p2 :
  apply_overrides range id st los = Ok st' ->
  exists p2', apply_overrides range id (with_prov p2 st) los = Ok (with_prov p2' st').
Proof.
  revert st p2. induction los as [|lo los IH]; intros st p2; cbn [apply_overrides].
  - intros [= <-]. by eexists.
  - intros H. apply rbind_Ok in H as (st1 & H1 & H2).
    destruct (apply_override_prov _ _ _ _ p2 H1) as [p3 ->]. by apply IH.
Qed.

Lemma apply_overrides_app id l1 l2 st :
  apply_overrides range id st (l1 ++ l2) =
  rbind (apply_overrides range id st l1) (fun st => apply_overrides range id st l2).
Proof.
  revert st. induction l1 as [|lo l1 IH]; intros st; cbn; [done|].
  destruct (apply_override range id st lo); cbn; [apply IH|done].
Qed.

(** ** The sources under one more layer *)

(** [s1] collects no more than [s0] in what a layer that is not local may not widen. *)
Definition narrows (locally_off : Prop) (s0 s1 : Resolved) : Prop :=
  src_ID (source s1) = src_ID (source s0) /\ Gather (source s1) = Gather (source s0) /\
  ArtifactClass (source s1) = ArtifactClass (source s0) /\ Emit (source s1) = Emit (source s0) /\
  RequireSubdir (source s1) = RequireSubdir (source s0) /\ src_Scrub (source s1) = src_Scrub (source s0) /\
  src_Identity (source s1) = src_Identity (source s0) /\
  (locally_off -> Enabled s0 = false -> Enabled s1 = false) /\
  (forall k, is_Some (Enrichers (source s1) !! k) <-> is_Some (Enrichers (source s0) !! k)) /\
  (forall k, Enrichers (source s1) !! k = Some true -> Enrichers (source s0) !! k = Some true).

(** A local override of the source switched it off. *)
Definition switched_off (os : list layeredOverride) (id : string) : Prop :=
  exists lo, lo ∈ os /\ IsLocal lo.1 = true /\ ov_ID lo.2 = id /\ ov_Enabled lo.2 = Some false.

Lemma finish_source_keeps st :
  let r := (finish_source st).1 in
  res_SpecFingerprint r = SpecFingerprint (source r) /\ Root r = Root (fd_src st) /\
  Enabled r = Enabled (fd_src st) /\ same_source (fd_src st) r /\
  Enrichers (source r) = Enrichers (source (fd_src st)).
Proof. done. Qed.

Lemma apply_sources_narrow os ros srcs p p' l0 l1 :
  Forall (fun lo => IsLocal lo.1 = false) ros ->
  applySourceOverrides range os srcs p = Ok l0 -> applySourceOverrides range (os ++ ros) srcs p' = Ok l1 ->
  Forall2 (fun s0 s1 => narrows (switched_off os (src_ID (source s0))) s0 s1) l0.1 l1.1.
Proof.
  intros Hros. revert p p' l0 l1. induction srcs as [|r rest IH]; intros p p' l0 l1; cbn [applySourceOverrides].
  { intros [= <-] [= <-]. constructor. }
  set (id := src_ID (source r)). intros H0 H1.
  apply rbind_Ok in H0 as (st0 & Ha & H0). apply rbind_Ok in H1 as (st1 & Hb & H1).
  destruct (finish_source st0) as [r0 p0] eqn:E0. destruct (finish_source st1) as [r1 p1] eqn:E1.
  apply rbind_Ok in H0 as (sp0 & Hr0 & [= <-]). apply rbind_Ok in H1 as (sp1 & Hr1 & [= <-]).
  cbn [fst]. constructor; [|by eapply IH].
  pose proof (apply_overrides_prov _ _ _ _ p' Ha) as [p2 Hp]. cbn [with_prov fd_src locallyDisabled additions] in Hp.
  rewrite filter_app, apply_overrides_app in Hb. unfold with_prov in Hp. cbn in Hp. rewrite Hp in Hb. cbn [rbind] in Hb.
  apply apply_overrides_ok in Ha as (Hsame0 & Hoff & _). apply apply_overrides_ok in Hb as (Hsame & _ & Hn).
  destruct Hn as [Hn1 Hn2 Hn3].
  { apply Forall_forall. intros lo Hlo. apply list_elem_of_filter in Hlo as [_ Hlo].
    by apply (proj1 (Forall_forall _ _) Hros). }
  cbn [fd_src locallyDisabled] in *.
  destruct (finish_source_keeps st0) as (_ & _ & F1 & F2 & F3). destruct (finish_source_keeps st1) as (_ & _ & G1 & G2 & G3).
  rewrite E0 in *. rewrite E1 in *. cbn [fst] in *.
  assert (src_ID (source r0) = id) as Hid by (destruct F2 as [-> _]; by destruct Hsame0 as [-> _]).
  unfold narrows. unfold same_source in F2, G2, Hsame. split_hyps. split_and!; try congruence.
  - intros (lo & Hin & Hl & Ho & He) Hoff0. rewrite G1. apply Hn2; [|congruence].
    apply Hoff. right. exists lo. split; [|done]. apply list_elem_of_filter. rewrite Ho, Hid. done.
  - intros k. rewrite G3, F3. eauto.
  - intros k. rewrite G3, F3. eauto.
Qed.

(** ** The merge of the layers *)

Definition overrides_of (layers : list LayeredDocument) : list layeredOverride :=
  mjoin (map (fun ld => match ld_Doc ld with
                        | Some d => map (pair (ld_Layer ld)) (cd_Sources d)
                        | None => []
                        end) layers).

Lemma merge_layers_app catalog l1 l2 e os :
  merge_layers catalog (l1 ++ l2) e os =
  rbind (merge_layers catalog l1 e os) (fun m => merge_layers catalog l2 m.1 m.2).
Proof.
  revert e os. induction l1 as [|ld l1 IH]; intros e os; cbn [merge_layers app]; [done|].
  destruct (ld_Doc ld) as [d|]; [|apply IH].
  destruct (apply_envelope _ d e) as [e1|]; cbn [rbind]; [|done].
  destruct (applyDocument e1 _ d) as [e2|]; cbn [rbind]; [|done].
  destruct (check_all_known _ _ _); cbn [rbind]; [apply IH|done].
Qed.

Lemma apply_envelope_frame l d e e' :
  apply_envelope l d e = Ok e' ->
  e' = e \/ exists org, e' = set_organization org l e.
Proof.
  unfold apply_envelope. destruct (_ && _); [intros [= <-]; by left|].
  destruct (negb _); [discriminate|]. destruct (Org d) as [org|]; [|intros [= <-]; by left].
  destruct (negb (org =? "")%string); intros [= <-]; [right; by exists org|by left].
Qed.

Lemma applyDocument_frame e l d e' :
  applyDocument e l d = Ok e' ->
  eff_Sources e' = eff_Sources e /\ Catalog e' = Catalog e /\ (0 < DrainDeadline e -> 0 < DrainDeadline e').
Proof.
  unfold applyDocument. intros H. repeat (apply rbind_Ok in H as (? & ? & H)). injection H as <-.
  cbn. split_and!; try done. intros Hd.
  match goal with H : drain_deadline _ _ _ = Ok _ |- _ => revert H end.
  unfold drain_deadline. destruct (cd_DrainDeadline d) as [s|]; [|by intros [= <-]].
  destruct (ParseDuration s) as [v|]; [|discriminate]. destruct (Z.leb_spec v 0); [discriminate|].
  by intros [= <-].
Qed.

Lemma merge_layers_frame catalog layers e os e' os' :
  merge_layers catalog layers e os = Ok (e', os') ->
  eff_Sources e' = eff_Sources e /\ Catalog e' = Catalog e /\ (0 < DrainDeadline e -> 0 < DrainDeadline e') /\
  os' = (os ++ overrides_of layers)%list.
Proof.
  revert e os. induction layers as [|ld layers IH]; intros e os; cbn [merge_layers].
  { intros [= <- <-]. split_and!; try done. by rewrite app_nil_r. }
  unfold overrides_of. cbn [map mjoin list_join].
  destruct (ld_Doc ld) as [d|]; [|by apply IH]. intros H.
  apply rbind_Ok in H as (e1 & H1 & H). apply rbind_Ok in H as (e2 & H2 & H). apply rbind_Ok in H as (u & _ & H).
  apply IH in H as (Hs & Hc & Hd & Ho). apply applyDocument_frame in H2 as (Hs2 & Hc2 & Hd2).
  rewrite <- app_assoc in Ho.
  apply apply_envelope_frame in H1 as [->|[org ->]]; cbn in *; split_and!; try congruence; auto.
Qed.

(** ** Resolve taken apart *)

Lemma set_version_frame v p e :
  eff_Sources (set_version v p e) = eff_Sources e /\ DrainDeadline (set_version v p e) = DrainDeadline e.
Proof. done. Qed.

Lemma checkConfigVersion_ok e e' :
  checkConfigVersion e = Ok e' ->
  eff_ConfigVersion e' ∈ AcceptedConfigVersions /\ (e' = e \/ exists p, e' = set_version 1 p e).
Proof.
  unfold checkConfigVersion. destruct (eff_ConfigVersion e =? 0).
  - intros [= <-]. split; [by apply list_elem_of_singleton|right; by eexists].
  - case_bool_decide; [|discriminate]. intros [= <-]. auto.
Qed.

Lemma check_targets_ok i seen ts :
  check_targets i seen ts = Ok () ->
  exists keys, Forall2 (fun t k => exists i, check_target i t = Ok k) ts keys /\ NoDup keys /\
    (forall k, k ∈ keys -> k ∉ seen).
Proof.
  revert i seen. induction ts as [|t ts IH]; intros i seen; cbn [check_targets].
  - intros _. exists []. split_and!; [constructor..|]. intros k H. by apply not_elem_of_nil in H.
  - intros H. apply rbind_Ok in H as (key & Hk & H). case_bool_decide as Hin; [discriminate|].
    apply IH in H as (keys & H1 & H2 & H3). exists (key :: keys). split_and!.
    + constructor; [by exists i|done].
    + constructor; [|done]. intros Hkey. apply (H3 key Hkey). apply elem_of_cons. by left.
    + intros k [->|Hkk]%elem_of_cons; [done|]. intros Hs. apply (H3 k Hkk). apply elem_of_cons. by right.
Qed.

Lemma applySourceOverrides_ok os srcs p sp :
  Forall (fun s => Root s = "") srcs -> applySourceOverrides range os srcs p = Ok sp ->
  Forall (fun s => Root s = "" /\ res_SpecFingerprint s = SpecFingerprint (source s)) sp.1.
Proof.
  revert p sp. induction srcs as [|r rest IH]; intros p sp Hr; cbn [applySourceOverrides]; [by intros [= <-]; constructor|].
  apply Forall_cons in Hr as [Hr Hrest]. intros H. apply rbind_Ok in H as (st & Ha & H).
  destruct (finish_source st) as [r0 p0] eqn:E. apply rbind_Ok in H as (sp' & Hsp & [= <-]).
  constructor; [|by eapply IH]. apply apply_overrides_ok in Ha as (Hs & _).
  destruct (finish_source_keeps st) as (F1 & F2 & _). rewrite E in *. cbn [fst] in *.
  split; [|done]. rewrite F2. by destruct Hs as (_ & _ & _ & _ & _ & _ & _ & -> & _).
Qed.

Record resolution (i : ResolveInput) (m : Effective * list layeredOverride)
    (sp : list Resolved * gmap string Origin) (e : Effective) (l : list Resolved) : Prop := {
  rs_merge : merge_layers (in_Catalog i) (Layers i) (initial_effective i) [] = Ok m;
  rs_sources : applySourceOverrides range m.2 (eff_Sources m.1) (Provenance m.1) = Ok sp;
  rs_version : checkConfigVersion (set_sources sp.1 sp.2 m.1) = Ok e;
  rs_targets : checkUploadTargets e = Ok ();
  rs_packs : checkRulePacks e = Ok ();
  rs_encryption : checkEncryption ParseX25519Recipient e = Ok ();
  rs_roots : resolveRoots (deny_New os_env (Home (in_Env i))) e (in_Env i) (eff_Sources e) = Ok l
}.

Lemma Resolve_Ok i out :
  Resolve i = Ok out ->
  exists m sp e l, resolution i m sp e l /\ out = set_sources (merge_sort by_id l) (Provenance e) e.
Proof.
  unfold Config.Resolve. intros H. apply rbind_Ok in H as ([e0 os] & H1 & H).
  apply rbind_Ok in H as (sp & H2 & H). apply rbind_Ok in H as (e & H3 & H).
  apply rbind_Ok in H as ([] & H4 & H). apply rbind_Ok in H as ([] & H5 & H).
  apply rbind_Ok in H as ([] & H6 & H). apply rbind_Ok in H as (l & H7 & [= <-]).
  exists (e0, os), sp, e, l. by split.
Qed.

#[local] Instance by_id_total : Total by_id.
Proof.
  intros a b. unfold by_id. destruct (str_leb_total (src_ID (source a)) (src_ID (source b))) as [-> | ->]; auto.
Qed.

Lemma checkRulePacks_ok e : checkRulePacks e = Ok () -> Forall (fun p => p ∈ Available) (eff_RulePacks e).
Proof.
  unfold checkRulePacks. destruct (filter _ _) as [|x r] eqn:E; [|discriminate]. intros _.
  apply Forall_forall. intros p Hp. destruct (decide (p ∈ Available)) as [|Hn]; [done|].
  assert (p ∈ filter (fun name => name ∉ Available) (eff_RulePacks e)) as H by (by apply list_elem_of_filter).
  rewrite E in H. by apply not_elem_of_nil in H.
Qed.

Lemma checkEncryption_ok e :
  checkEncryption ParseX25519Recipient e = Ok () ->
  Forall (fun r => ParseX25519Recipient r = true) (AdditionalRecipients e) /\
  (IncludeInstallRecipient e = true \/ AdditionalRecipients e <> []).
Proof.
  unfold checkEncryption. destruct (filter _ _) as [|x r] eqn:E; [|discriminate]. intros H. split.
  - apply Forall_forall. intros p Hp. destruct (ParseX25519Recipient p) eqn:Ep; [done|].
    assert (p ∈ filter (fun r => ParseX25519Recipient r = false) (AdditionalRecipients e)) as Hin
      by (by apply list_elem_of_filter).
    rewrite E in Hin. by apply not_elem_of_nil in Hin.
  - destruct (IncludeInstallRecipient e); [by left|]. case_bool_decide; [discriminate|by right].
Qed.

Lemma compiled_sources_ok (catalog : list Source) :
  Forall (fun s => Root s = "" /\ res_SpecFingerprint s = SpecFingerprint (source s)) (map compiled_source catalog).
Proof. induction catalog; constructor; done. Qed.

(** C36: a resolved configuration is well formed: an accepted version, a positive deadline, distinct
    pinned origins, only rule packs the build has, recipients that parse and at least one reader,
    sources in order, each with the fingerprint of what it reads; a root belongs to an enabled
    source and is one of its own candidates expanded to a clean absolute path of an existing
    directory outside the deny list that holds the declared subdirectory, and an enabled source
    lacks a root only when none of its candidates can be walked. A refresh on any later disk (and
    environment) changes nothing but roots that were absent: a source that holds a root, or is off,
    is untouched whatever the disk has become; an absent root is filled with one that is good on
    that disk, and stays absent only when no candidate can be walked there or one is refused, with
    the refusal as its reason; the ids reported are those of the sources that got a root. *)
Theorem Resolve_well_formed i e :
  Resolve i = Ok e ->
  let deny := deny_New os_env (Home (in_Env i)) in
  well_formed deny (in_Env i) e /\
  forall (later : FileSystem) env found e',
    RefreshAbsentRoots (fs := later) deny e env = (found, e') ->
    e' = set_sources (eff_Sources e') (Provenance e) e /\
    Forall2 (refreshed (fs := later) deny e env) (eff_Sources e) (eff_Sources e') /\
    forall id, id ∈ found <-> exists k s s', eff_Sources e !! k = Some s /\ eff_Sources e' !! k = Some s' /\
      Root s = "" /\ Root s' <> "" /\ src_ID (source s) = id.
Proof.
  intros H. cbn zeta. set (deny := deny_New _ _). split; [|intros later env; apply RefreshAbsentRoots_spec].
  apply Resolve_Ok in H as ([e0 os] & sp & e1 & l & [H1 H2 H3 H4 H5 H6 H7] & ->).
  apply merge_layers_frame in H1 as (Hsrc & _ & Hdrain & _). cbn [fst snd] in *.
  apply applySourceOverrides_ok in H2.
  2:{ rewrite Hsrc. cbn. eapply Forall_impl; [apply compiled_sources_ok|]. by intros s [? _]. }
  apply checkConfigVersion_ok in H3 as (Hv & He).
  assert (eff_Sources e1 = sp.1 /\ 0 < DrainDeadline e1) as [Hs1 Hd1].
  { assert (0 < DrainDeadline e0) by (apply Hdrain; by vm_compute). by destruct He as [->|[p ->]]. }
  rewrite Hs1 in H7. apply resolveRoots_ok in H7 as [H7 _]; [|done].
  unfold checkUploadTargets in H4. destruct (check_targets _ _ _) as [[]|] eqn:Et; [|discriminate].
  apply check_targets_ok in Et as (keys & Hk & Hnd & _).
  constructor; [exact Hv|exact Hd1|by exists keys|exact (checkRulePacks_ok _ H5)|exact (checkEncryption_ok _ H6)
    |apply Sorted_merge_sort; apply _|].
  cbn [eff_Sources set_sources]. by rewrite merge_sort_Permutation.
Qed.

(** ** The served layer *)

Lemma mergeExemptions_keeps base add k l0 :
  base !! k = Some l0 -> exists l1, mergeExemptions base add !! k = Some l1 /\ l0 ⊆ l1.
Proof.
  intros Hb. unfold mergeExemptions.
  apply (map_fold_weak_ind (fun out (_ : gmap string (list string)) => exists l1, out !! k = Some l1 /\ l0 ⊆ l1));
    [by exists l0|].
  intros k' v m out _ (l1 & Hl & Hsub). destruct (decide (k' = k)) as [->|Hne].
  - rewrite lookup_insert_eq, Hl. eexists. split; [done|]. etrans; [exact Hsub|apply unionStrings_incl].
  - rewrite lookup_insert_ne by done. by exists l1.
Qed.

(** The fields one document that is not local leaves alone, or only lengthens. *)
Record confined (a b : Effective) : Prop := {
  cf_dir : eff_StateDir b = eff_StateDir a;
  cf_targets : UploadTargets b = UploadTargets a;
  cf_auto : AutoupdateEnabled b = true -> AutoupdateEnabled a = true;
  cf_packs : eff_RulePacks a ⊆ eff_RulePacks b;
  cf_names : eff_SecretKeyNames a ⊆ eff_SecretKeyNames b;
  cf_readers : AdditionalRecipients a ⊆ AdditionalRecipients b;
  cf_exempt : forall k l0, StructuralEx a !! k = Some l0 ->
    exists l1, StructuralEx b !! k = Some l1 /\ l0 ⊆ l1
}.

Lemma applyDocument_confined e l d e' :
  IsLocal l = false -> applyDocument e l d = Ok e' -> confined e e'.
Proof.
  intros Hl. unfold applyDocument. intros H. apply rbind_Ok in H as (dr & _ & H).
  apply rbind_Ok in H as (au & Hau & H). apply rbind_Ok in H as (te & _ & H).
  apply rbind_Ok in H as (di & Hdi & H). apply rbind_Ok in H as (ta & Hta & [= <-]).
  unfold autoupdate in Hau. unfold state_dir in Hdi. unfold upload_targets in Hta. rewrite Hl in *.
  constructor; cbn [eff_StateDir UploadTargets AutoupdateEnabled eff_RulePacks eff_SecretKeyNames
    AdditionalRecipients StructuralEx].
  - destruct (cd_StateDir d); [discriminate|]. by injection Hdi.
  - destruct (cd_UploadTargets d); [|discriminate]. by injection Hta.
  - destruct (Autoupdate d) as [[[]|]|]; cbn in Hau; try discriminate; injection Hau as <-; done.
  - apply unionStrings_incl.
  - apply unionStrings_incl.
  - apply unionStrings_incl.
  - intros k l0. apply mergeExemptions_keeps.
Qed.

Lemma apply_envelope_confined l d e e' : apply_envelope l d e = Ok e' -> confined e e'.
Proof.
  intros H. apply apply_envelope_frame in H as [->|[org ->]]; constructor; cbn; try done; eauto.
Qed.

Lemma confined_trans a b c : confined a b -> confined b c -> confined a c.
Proof.
  intros [A1 A2 A3 A4 A5 A6 A7] [B1 B2 B3 B4 B5 B6 B7].
  constructor; try congruence; try (by etrans); auto.
  intros k l0 H. destruct (A7 k l0 H) as (l1 & H1 & S1). destruct (B7 k l1 H1) as (l2 & H2 & S2).
  exists l2. split; [done|]. by etrans.
Qed.

Lemma confined_refl a : confined a a.
Proof. constructor; try done. eauto. Qed.

Lemma narrows_refl P s : narrows P s s.
Proof. by unfold narrows. Qed.

Lemma merge_one_confined catalog l d e os e' os' :
  IsLocal l = false -> merge_layers catalog [mkLayered l (Some d)] e os = Ok (e', os') -> confined e e'.
Proof.
  intros Hl. cbn [merge_layers ld_Doc ld_Layer]. intros H. apply rbind_Ok in H as (e1 & H1 & H).
  apply rbind_Ok in H as (e2 & H2 & H). apply rbind_Ok in H as (u & _ & [= <- <-]).
  eapply confined_trans; [by eapply apply_envelope_confined|by eapply applyDocument_confined].
Qed.

Lemma confined_sources l p e : confined (set_sources l p e) e /\ confined e (set_sources l p e).
Proof. split; constructor; cbn; try done; eauto. Qed.

(** The version and the sources are no part of what is confined. *)
Lemma checkConfigVersion_confined srcs p e e' :
  checkConfigVersion (set_sources srcs p e) = Ok e' -> confined e e' /\ confined e' e /\ eff_Sources e' = srcs.
Proof.
  intros H. apply checkConfigVersion_ok in H as (_ & [->|[p' ->]]);
    (split; [|split; [|done]]); constructor; cbn; try done; eauto.
Qed.

Definition with_layer (i : ResolveInput) (ld : LayeredDocument) : ResolveInput :=
  mkResolveInput (in_Catalog i) (Layers i ++ [ld]) (in_ConfigExpired i) (in_Env i) (in_StateDir i).

Lemma Forall2_narrows_roots os l0 l1 r0 r1 :
  Forall2 (fun s0 s1 => narrows (switched_off os (src_ID (source s0))) s0 s1) l0 l1 ->
  Forall2 (fun s s' => source s' = source s /\ Enabled s' = Enabled s) l0 r0 ->
  Forall2 (fun s s' => source s' = source s /\ Enabled s' = Enabled s) l1 r1 ->
  Forall2 (fun s0 s1 => narrows (switched_off os (src_ID (source s0))) s0 s1) r0 r1.
Proof.
  intros H. revert r0 r1.
  induction H as [|a b l0 l1 Hab H IH]; intros r0 r1 H0 H1.
  - inversion_clear H0. inversion_clear H1. constructor.
  - inversion_clear H0 as [|? a' ? r0' [Ha1 Ha2] Hr0]. inversion_clear H1 as [|? b' ? r1' [Hb1 Hb2] Hr1].
    constructor; [|by apply IH]. unfold narrows in *. by rewrite Ha1, Ha2, Hb1, Hb2.
Qed.

(** The sources a resolution ends with, before they are sorted. *)
Lemma resolution_sources i m sp e l :
  resolution i m sp e l ->
  eff_Sources m.1 = map compiled_source (in_Catalog i) /\ m.2 = overrides_of (Layers i) /\
  confined m.1 e /\ confined e m.1 /\
  Forall2 (fun s s' => source s' = source s /\ Enabled s' = Enabled s) sp.1 l.
Proof.
  intros [H1 H2 H3 _ _ _ H7]. destruct m as [e0 os]. apply merge_layers_frame in H1 as (Hsrc & _ & _ & Hos).
  cbn [fst snd] in *. apply applySourceOverrides_ok in H2.
  2:{ rewrite Hsrc. cbn. eapply Forall_impl; [apply compiled_sources_ok|]. by intros s [? _]. }
  apply checkConfigVersion_confined in H3 as (Hc1 & Hc2 & Hs). rewrite Hs in H7.
  apply resolveRoots_ok in H7 as [_ H7]; [|done]. by split_and!.
Qed.

Lemma served_narrows i l d e0 e1 :
  IsLocal l = false ->
  Resolve i = Ok e0 -> Resolve (with_layer i (mkLayered l (Some d))) = Ok e1 ->
  confined e0 e1 /\
  forall s1, s1 ∈ eff_Sources e1 -> exists s0, s0 ∈ eff_Sources e0 /\
    narrows (switched_off (overrides_of (Layers i)) (src_ID (source s0))) s0 s1.
Proof.
  intros Hl H0 H1.
  apply Resolve_Ok in H0 as (m0 & sp0 & f0 & l0 & R0 & ->).
  apply Resolve_Ok in H1 as (m1 & sp1 & f1 & l1 & R1 & ->).
  destruct (resolution_sources _ _ _ _ _ R0) as (Hs0 & Ho0 & Ca & Cb & Hf0).
  destruct (resolution_sources _ _ _ _ _ R1) as (Hs1 & Ho1 & Cc & Cd & Hf1).
  destruct R0 as [Hm0 Hp0 _ _ _ _ _]. destruct R1 as [Hm1 Hp1 _ _ _ _ _].
  unfold with_layer in Hm1, Hs1, Ho1. cbn [in_Catalog Layers] in *.
  rewrite merge_layers_app in Hm1.
  replace (initial_effective (mkResolveInput (in_Catalog i) (Layers i ++ [mkLayered l (Some d)])
    (in_ConfigExpired i) (in_Env i) (in_StateDir i))) with (initial_effective i) in Hm1 by done.
  rewrite Hm0 in Hm1. cbn [rbind] in Hm1. destruct m1 as [g1 os1].
  pose proof (merge_one_confined _ _ _ _ _ _ _ Hl Hm1) as Hc. split.
  - eapply confined_trans; [apply (proj1 (confined_sources _ _ _))|]. eapply confined_trans; [exact Cb|].
    eapply confined_trans; [exact Hc|]. eapply confined_trans; [exact Cc|]. apply (proj2 (confined_sources _ _ _)).
  - assert (os1 = overrides_of (Layers i) ++ map (pair l) (cd_Sources d))%list as ->.
    { cbn [snd] in Ho1. rewrite Ho1. unfold overrides_of. rewrite map_app, join_app. cbn. by rewrite app_nil_r. }
    rewrite Ho0 in Hp0. cbn [fst snd] in Hp1, Hs1. rewrite Hs1, <- Hs0 in Hp1.
    assert (Forall2 (fun s0 s1 => narrows (switched_off (overrides_of (Layers i)) (src_ID (source s0))) s0 s1) l0 l1) as HF.
    { eapply Forall2_narrows_roots; [|exact Hf0|exact Hf1].
      eapply apply_sources_narrow; [|exact Hp0|exact Hp1].
      apply Forall_map, Forall_forall. by intros o _. }
    cbn [eff_Sources set_sources]. intros s1 Hin. rewrite merge_sort_Permutation in Hin.
    apply list_elem_of_lookup in Hin as [k Hk]. destruct (Forall2_lookup_r _ _ _ _ _ HF Hk) as (s0 & Hk0 & Hn).
    apply list_elem_of_lookup_2 in Hk0 as Hin0.
    exists s0. split; [by rewrite merge_sort_Permutation|done].
Qed.
(** C37: the served layer narrows: against what the machine owner's layers resolve to on their own,
    adding it never moves the state directory or the pinned upload targets, never turns self-update
    on, never drops a rule pack, a secret key name, a recipient or a redaction exemption of the
    build, never creates a source or changes how one is gathered, redacted or named, never enables a
    source a local layer switched off and never turns an enricher on. *)
Theorem served_layer_narrows i l d e0 e1 :
  IsLocal l = false ->
  Resolve i = Ok e0 -> Resolve (with_layer i (mkLayered l (Some d))) = Ok e1 ->
  confined e0 e1 /\
  forall s1, s1 ∈ eff_Sources e1 -> exists s0, s0 ∈ eff_Sources e0 /\
    narrows (switched_off (overrides_of (Layers i)) (src_ID (source s0))) s0 s1.
Proof. exact (served_narrows i l d e0 e1). Qed.
End Config.
