(* ===== verification/Targets.v ===== *)
(** The machine owner's upload targets, from the configuration to the uploader: [uploadTargets] of
    [src/app/vendupload.go] over [check_target] of [Config] and [NewUploadTarget] of [Ticket]. *)

From S2P Require Import Prelude GoLib GoUrl GoTime GoJson GoText Schedule Spec Deny Config Ticket.

(** ** IP literals do not depend on the case of a host *)

Lemma to_lower_byte_facts c :
  is_digit (to_lower_byte c) = is_digit c /\ IP.hex_value (to_lower_byte c) = IP.hex_value c /\
  (is_digit c = true -> to_lower_byte c = c) /\
  (to_lower_byte c =? ":")%char = (c =? ":")%char /\ (to_lower_byte c =? ".")%char = (c =? ".")%char /\
  (to_lower_byte c =? "*")%char = (c =? "*")%char.
Proof.
  revert c.
  enough (forall c, ((eqb (is_digit (to_lower_byte c)) (is_digit c)) &&
    bool_decide (IP.hex_value (to_lower_byte c) = IP.hex_value c) &&
    (negb (is_digit c) || (to_lower_byte c =? c)%char) &&
    eqb (to_lower_byte c =? ":")%char (c =? ":")%char && eqb (to_lower_byte c =? ".")%char (c =? ".")%char &&
    eqb (to_lower_byte c =? "*")%char (c =? "*")%char) = true) as H.
  { intros c. specialize (H c). boolp. repeat match goal with H : eqb _ _ = true |- _ => apply eqb_prop in H end.
    split_and!; try done. intros Hd. rewrite Hd in *. cbn in *. by apply Ascii.eqb_eq. }
  apply all_bytes_spec. vm_compute. reflexivity.
Qed.

Lemma to_lower_digits s : str_forallb is_digit s = true -> to_lower s = s.
Proof.
  unfold to_lower. induction s as [|c s IH]; cbn; [done|]. intros [Hc Hs]%andb_true_iff.
  destruct (to_lower_byte_facts c) as (_ & _ & Hd & _). by rewrite Hd, IH.
Qed.

Lemma forallb_digit_lower s : str_forallb is_digit (to_lower s) = str_forallb is_digit s.
Proof.
  unfold to_lower. induction s as [|c s IH]; cbn; [done|]. destruct (to_lower_byte_facts c) as (-> & _). by rewrite IH.
Qed.

Lemma dec_field_lower s : IP.dec_field (to_lower s) = IP.dec_field s.
Proof.
  destruct (str_forallb is_digit s) eqn:E; [by rewrite to_lower_digits|].
  unfold IP.dec_field. by rewrite forallb_digit_lower, E, !andb_false_r.
Qed.

Lemma to_lower_length s : String.length (to_lower s) = String.length s.
Proof. unfold to_lower. induction s; cbn; congruence. Qed.

Lemma to_lower_empty s : (to_lower s =? "")%string = (s =? "")%string.
Proof. by destruct s. Qed.

Lemma hex_field_lower s : IP.hex_field (to_lower s) = IP.hex_field s.
Proof.
  assert (forall acc, IP.hex_field_aux acc (to_lower s) = IP.hex_field_aux acc s) as H.
  { unfold to_lower. induction s as [|c s IH]; intros acc; cbn; [done|]. destruct (to_lower_byte_facts c) as (_ & -> & _).
    destruct (IP.hex_value c); [apply IH|done]. }
  unfold IP.hex_field, slen. by rewrite H, to_lower_length, to_lower_empty.
Qed.

Lemma split_on_lower sep s :
  (forall c, (to_lower_byte c =? sep)%char = (c =? sep)%char) ->
  split_on sep (to_lower s) = map to_lower (split_on sep s).
Proof.
  intros Hs. unfold to_lower at 1. induction s as [|c s IH]; cbn; [done|]. rewrite Hs, IH.
  destruct (c =? sep)%char; [done|]. by destruct (split_on sep s).
Qed.

Lemma parse4_lower s : IP.parse4 (to_lower s) = IP.parse4 s.
Proof.
  unfold IP.parse4. rewrite split_on_lower by (intros c; by destruct (to_lower_byte_facts c) as (_ & _ & _ & _ & ? & _)).
  destruct (split_on "." s) as [|a [|b [|c [|d [|]]]]]; cbn; try done. by rewrite !dec_field_lower.
Qed.

Lemma groups_lower tail l : IP.groups tail (map to_lower l) = IP.groups tail l.
Proof.
  induction l as [|s [|s' l] IH]; [done|..].
  - cbn. by rewrite hex_field_lower, parse4_lower.
  - change (match IP.hex_field (to_lower s), IP.groups tail (map to_lower (s' :: l)) with
            | Some v, Some t => Some (v :: t) | _, _ => None end
          = match IP.hex_field s, IP.groups tail (s' :: l) with
            | Some v, Some t => Some (v :: t) | _, _ => None end).
    by rewrite hex_field_lower, IH.
Qed.

Lemma split_colon_lower s : split_on ":" (to_lower s) = map to_lower (split_on ":" s).
Proof. apply split_on_lower. intros c. by destruct (to_lower_byte_facts c) as (_ & _ & _ & ? & _). Qed.

Lemma side_lower tail s : IP.side tail (to_lower s) = IP.side tail s.
Proof. unfold IP.side. by rewrite to_lower_empty, split_colon_lower, groups_lower. Qed.

(** [cut_double] with its tests written out. *)
Fixpoint cut_colons (s : string) : option (string * string) :=
  match s with
  | String c (String d r as t) =>
      if (c =? ":")%char && (d =? ":")%char then Some ("", r)
      else match cut_colons t with Some (a, b) => Some (String c a, b) | None => None end
  | _ => None
  end.

Lemma cut_colons_cons c d r :
  cut_colons (String c (String d r)) =
  if (c =? ":")%char && (d =? ":")%char then Some ("", r)
  else match cut_colons (String d r) with Some (a, b) => Some (String c a, b) | None => None end.
Proof. reflexivity. Qed.

Lemma cut_double_eq s : IP.cut_double s = cut_colons s.
Proof.
  induction s as [|c s IH]; [done|]. destruct s as [|d r]; [by destruct c as [[] [] [] [] [] [] [] []]|].
  assert ((c =? ":")%char && (d =? ":")%char = true \/
    IP.cut_double (String c (String d r)) =
    match IP.cut_double (String d r) with Some (a, b) => Some (String c a, b) | None => None end) as [E|E].
  { destruct c as [[] [] [] [] [] [] [] []]; try (right; reflexivity).
    destruct d as [[] [] [] [] [] [] [] []]; (right; reflexivity) || (left; reflexivity). }
  - apply andb_true_iff in E as [->%Ascii.eqb_eq ->%Ascii.eqb_eq]. done.
  - rewrite E, IH, cut_colons_cons.
    destruct ((c =? ":")%char && (d =? ":")%char) eqn:E2; [|done].
    apply andb_true_iff in E2 as [->%Ascii.eqb_eq ->%Ascii.eqb_eq]. rewrite <- IH, <- E. done.
Qed.

Lemma cut_colons_lower s :
  cut_colons (to_lower s) = match cut_colons s with Some (a, b) => Some (to_lower a, to_lower b) | None => None end.
Proof.
  induction s as [|c s IH]; [done|]. destruct s as [|d r]; [done|].
  change (to_lower (String c (String d r))) with (String (to_lower_byte c) (String (to_lower_byte d) (to_lower r))).
  change (to_lower (String d r)) with (String (to_lower_byte d) (to_lower r)) in IH.
  rewrite !cut_colons_cons, IH. destruct (to_lower_byte_facts c) as (_ & _ & _ & -> & _).
  destruct (to_lower_byte_facts d) as (_ & _ & _ & -> & _).
  destruct ((c =? ":")%char && (d =? ":")%char); [done|]. by destruct (cut_colons (String d r)) as [[? ?]|].
Qed.

Lemma is_loopback_lower s : IP.is_loopback (to_lower s) = IP.is_loopback s.
Proof.
  unfold IP.is_loopback, IP.parse6. rewrite parse4_lower, !cut_double_eq, cut_colons_lower, split_colon_lower, groups_lower.
  destruct (cut_colons s) as [[a b]|]; [|done]. by rewrite !side_lower.
Qed.

(** ** From the configuration to the uploader *)

Definition addressing_of (s : string) : Addressing :=
  if (s =? "virtual-hosted")%string then VirtualHosted
  else if (s =? "path-style")%string then PathStyle
  else if (s =? "unpinned")%string then addressingUnpinned
  else addressingOther s.

Definition target_spec (t : Config.UploadTarget) : TargetSpec :=
  mkTargetSpec (ut_Origin t) (addressing_of (ut_Addressing t)) (ut_PathPrefix t) (ut_AllowLoopbackHTTP t).

(** One bad entry refuses the whole list; the error names its position. *)
Fixpoint upload_targets_from (i : nat) (ts : list Config.UploadTarget)
    : result (nat * ticket_error) UploadTargetList :=
  match ts with
  | [] => Ok []
  | t :: r =>
      match NewUploadTarget (target_spec t) with
      | Err e => Err (i, e)
      | Ok target => let! l := upload_targets_from (S i) r in Ok (target :: l)
      end
  end.

Definition uploadTargets (e : Effective) : result (nat * ticket_error) UploadTargetList :=
  upload_targets_from 0 (UploadTargets e).

Lemma contains_star_lower s : str_contains "*" (to_lower s) = str_contains "*" s.
Proof.
  unfold to_lower. induction s as [|c s IH]; [done|]. cbn [str_map str_contains]. rewrite IH. f_equal.
  cbn [has_prefix]. destruct (to_lower_byte_facts c) as (_ & _ & _ & _ & _ & H).
  by rewrite (Ascii.eqb_sym "*" (to_lower_byte c)), (Ascii.eqb_sym "*" c), H.
Qed.

Lemma isLoopback_lower h : isLoopback h = true -> isLoopbackHost (to_lower h) = true.
Proof.
  unfold isLoopback, isLoopbackHost. rewrite is_loopback_lower. intros H. apply orb_true_iff in H as [H|H].
  - apply String.eqb_eq in H as ->. reflexivity.
  - by rewrite H, orb_true_r.
Qed.

(** What the two checks make of a path prefix. *)
Lemma prefix_checked t :
  (if (ut_Addressing t =? "virtual-hosted")%string then negb (ut_PathPrefix t =? "")%string
   else if (ut_Addressing t =? "path-style")%string
   then negb (has_prefix "/" (ut_PathPrefix t)) || (ut_PathPrefix t =? "/")%string || has_suffix "/" (ut_PathPrefix t)
   else true) = false ->
  match validatePathPrefix (addressing_of (ut_Addressing t)) (ut_PathPrefix t) with
  | Ok _ => True
  | Err e => ut_Addressing t = "path-style" /\ (e = PrefixNotLiteral \/ exists e', e = PrefixSegment e')
  end.
Proof.
  unfold addressing_of. destruct (String.eqb_spec (ut_Addressing t) "virtual-hosted") as [->|_]; cbn [validatePathPrefix].
  { intros H. rewrite H. done. }
  destruct (String.eqb_spec (ut_Addressing t) "path-style") as [->|_]; [|done]. intros H.
  apply orb_false_iff in H as [H1 H2]. cbn [validatePathPrefix]. rewrite H1, H2.
  destruct (validateSegments _); [|split; [done|right; by eexists]].
  case_goal; [done|]. case_in Heqr; [|discriminate]. injection Heqr as <-. split; [done|by left].
Qed.

(** The checks of [check_target], in one condition. *)
Lemma check_target_ok i t key :
  check_target i t = Ok key ->
  exists u, Url.Parse (ut_Origin t) = Some u /\ Host u <> "" /\ Opaque u = "" /\
    (GoUrl.Path u = "" \/ GoUrl.Path u = "/") /\ RawQuery u = "" /\ Fragment u = "" /\ User u = false /\
    str_contains "*" (Url.Hostname u) = false /\
    (Scheme u = "https" \/ Scheme u = "http" /\ ut_AllowLoopbackHTTP t = true /\ isLoopback (Url.Hostname u) = true) /\
    (if (ut_Addressing t =? "virtual-hosted")%string then negb (ut_PathPrefix t =? "")%string
     else if (ut_Addressing t =? "path-style")%string
     then negb (has_prefix "/" (ut_PathPrefix t)) || (ut_PathPrefix t =? "/")%string || has_suffix "/" (ut_PathPrefix t)
     else true) = false /\
    key = originOf u.
Proof.
  unfold check_target. destruct (ut_Origin t =? "")%string; [discriminate|].
  destruct (Url.Parse (ut_Origin t)) as [u|]; [|discriminate].
  destruct (Host u =? "")%string eqn:E1; [discriminate|].
  destruct (negb (Opaque u =? "")%string || _ || _ || _) eqn:E2; [discriminate|].
  destruct (User u) eqn:E3; [discriminate|].
  destruct (str_contains "*" (Url.Hostname u)) eqn:E4; [discriminate|].
  intros H. apply rbind_Ok in H as (u1 & Hs & H). apply rbind_Ok in H as (u2 & Ha & H).
  repeat (apply orb_false_iff in E2 as [E2 ?]). exists u.
  assert (GoUrl.Path u = "" \/ GoUrl.Path u = "/") as Hp.
  { destruct (String.eqb_spec (GoUrl.Path u) "") as [|]; [by left|].
    destruct (String.eqb_spec (GoUrl.Path u) "/") as [|]; [by right|done]. }
  assert (Scheme u = "https" \/ Scheme u = "http" /\ ut_AllowLoopbackHTTP t = true /\ isLoopback (Url.Hostname u) = true) as Hsch.
  { destruct (String.eqb_spec (Scheme u) "https"); [by left|].
    destruct (String.eqb_spec (Scheme u) "http"); [right|discriminate].
    destruct (ut_AllowLoopbackHTTP t); [|discriminate]. by destruct (isLoopback _). }
  boolp. split_and!; try done.
  - destruct (ut_Addressing t =? "virtual-hosted")%string; [by case_in Ha; [discriminate|]|].
    destruct (ut_Addressing t =? "path-style")%string; [|discriminate]. by case_in Ha; [discriminate|].
  - injection H as <-. unfold originOf, effectivePort, str_or.
    destruct Hsch as [-> | [-> _]]; by destruct (Url.Port u =? "")%string.
Qed.

(** What the configuration accepts, the uploader pins, but for one gap: a target that passes the
    resolver's check becomes an upload target for exactly the origin the check compared, or is
    refused for a path prefix that is not literal or has an empty or dot segment, which the check
    does not look at; such a target exists. *)
Theorem checked_targets_pin :
  (forall i t key, TrimSpace (ut_Origin t) = ut_Origin t -> check_target i t = Ok key ->
     match NewUploadTarget (target_spec t) with
     | Ok u => target_origin u = key
     | Err e => ut_Addressing t = "path-style" /\ (e = PrefixNotLiteral \/ exists e', e = PrefixSegment e')
     end) /\
  exists t, is_ok (check_target 0 t) = true /\ upload_targets_from 0 [t] = Err (0%nat, PrefixNotLiteral).
Proof.
  split.
  - intros i t key Htrim H. apply check_target_ok in H as (u & Hu & Hh & Ho & Hp & Hq & Hf & Hus & Hw & Hs & Ha & ->).
    unfold NewUploadTarget, target_spec. cbn [Ticket.Origin ts_Addressing PathPrefix AllowLoopbackHTTP].
    rewrite Htrim, Hu, Ho, Hus, Hf, Hq. cbn [String.eqb negb].
    apply String.eqb_neq in Hh. rewrite Hh. cbn [negb].
    assert (negb (GoUrl.Path u =? "")%string && negb (GoUrl.Path u =? "/")%string = false) as -> by (by destruct Hp as [-> | ->]).
    rewrite contains_star_lower, Hw. apply prefix_checked in Ha.
    assert (to_lower (Scheme u) = Scheme u) as Hlow by (by destruct Hs as [-> | [-> _]]).
    assert ((if (to_lower (Scheme u) =? "https")%string then Ok ()
             else if (to_lower (Scheme u) =? "http")%string then
               if negb (ut_AllowLoopbackHTTP t) then Err OriginHttp
               else if negb (isLoopbackHost (to_lower (Url.Hostname u))) then Err OriginNotLoopback else Ok ()
             else Err OriginScheme) = Ok () :> result ticket_error ()) as ->.
    { rewrite Hlow. destruct Hs as [-> | (-> & Hall & Hloop)]; [done|]. cbn [String.eqb Ascii.eqb Bool.eqb].
      rewrite Hall, (isLoopback_lower _ Hloop). done. }
    cbn [rbind]. destruct (validatePathPrefix _ _); [|done]. done.
  - exists (Config.mkUploadTarget "https://store.example" "path-style" "/my bucket" false).
    split; vm_compute; reflexivity.
Qed.
