(* ===== verification/Remote.v ===== *)
(** The served layer and the configuration in force: [src/internal/controlplane/refresh.go],
    [cache.go] and [FetchConfig] of [backend.go], and [src/app/resolve.go] that composes them with
    [Config.Resolve]. YAML and JSON are interfaces; an enrollment record and the local layers arrive
    loaded. *)

From S2P Require Import Prelude GoLib GoJson GoText GoTime Vocab ControlPlane Schedule Spec Deny Config.

(** ** Codecs *)

(** The YAML and JSON libraries, as far as these files use them: a served document; the config
    request's body and the answer's document and expiry; of a served document, whether a source
    carries [exclude_add], its sources' scopes, and the document with the scopes written back; the
    size a cache file encodes to. *)
Class Codec := {
  ParseServedDocument : string -> result error Document;
  config_request : result error string;
  decode_response : string -> result error (string * Z);
  yaml_has_excludes : string -> result error bool;
  yaml_scopes : string -> result error (list SourceExclusions);
  yaml_rewrite : string -> list SourceExclusions -> result error string
}.

(** ** cache.go *)

Definition cacheSchema : Z := 3.
Definition maxResponseBytes : Z := Z.shiftl 4 20.
Definition ExcludeAddFeature : string := "sources.exclude_add".
Definition Features : list string := [ExcludeAddFeature].

Record Cached := mkCached {
  CacheSchema : Z;
  ca_Config : string;
  ConfigFull : string;
  ConfigFullFeatures : option (list string);
  ca_FetchedAt : Z;
  ExpiresAt : Z
}.

(** The full layer when this build supports every feature it needs. *)
Definition cached_Document (c : Cached) : string :=
  let needs := default [ExcludeAddFeature] (ConfigFullFeatures c) in
  if negb (ConfigFull c =? "")%string && forallb (fun f => bool_decide (f ∈ Features)) needs
  then ConfigFull c else ca_Config c.

Definition cached_Expired (c : Cached) (now : Z) : bool :=
  negb (is_zero_time (ExpiresAt c)) && (ExpiresAt c <? now).

Section Refresh.
Context {fs : FileSystem} {ds : Doublestar} {codec : Codec} {W : Type} {net : PlaneNet W}.
(** The bytes a cache encodes to and the outcome of writing it. *)
Variable encoded_size : Cached -> result error Z.
Variable save_error : W -> option error.

Definition reduceCachedConfig (raw : string) : result error (string * list string) :=
  let! has := yaml_has_excludes raw in
  if negb has then Ok (raw, [])
  else
    let! scopes := yaml_scopes raw in
    let! reduced := yaml_rewrite raw (ReduceSourceExclusions scopes) in
    Ok (reduced, [ExcludeAddFeature]).

(** What is written: the reduced layer every build can enforce, and the full one beside it when it
    differs and fits. *)
Definition SaveCache (c : Cached) (w : W) : result error Cached :=
  let full := cached_Document c in
  let! rf := reduceCachedConfig full in
  let small := mkCached cacheSchema rf.1 "" None (ca_FetchedAt c) (ExpiresAt c) in
  let whole := if bool_decide (rf.2 = []) then small
               else mkCached cacheSchema rf.1 full (Some rf.2) (ca_FetchedAt c) (ExpiresAt c) in
  let! size := encoded_size whole in
  let! out :=
    (if maxResponseBytes <? size + 1 then
       let! size := encoded_size small in
       if maxResponseBytes <? size + 1
       then Err (errors_New ("backend: reduced cache exceeds " +:+ int_text maxResponseBytes +:+ " bytes"))
       else Ok small
     else Ok whole) in
  match save_error w with Some e => Err e | None => Ok out end.

(** [LoadCache] of what reading and decoding the file gave. *)
Definition LoadCache (file : result error Cached) : result error Cached :=
  let! c := file in
  if negb (CacheSchema c =? cacheSchema)
  then Err (errors_New ("backend: cache_schema " +:+ int_text (CacheSchema c) +:+ ", this client speaks " +:+
                        int_text cacheSchema))
  else Ok c.

(** ** FetchConfig *)

Record Fetched := mkFetched { ft_Doc : Document; Raw : string; ft_ExpiresAt : Z }.

Definition config_path : string := "/v1/config".

(** [postJSON] of the config path: what a status means. *)
Definition config_status (status : Z) (raw : string) : result error string :=
  if (status =? 200) || (status =? 201) then Ok raw
  else if status =? 409
  then Err (errors_New ("backend: server has no config this client can execute: " +:+ TrimSpace raw))
  else if (status =? 401) || (status =? 403)
  then Err (mkError ("backend: " +:+ config_path +:+ " refused this install's credentials (HTTP " +:+
                     int_text status +:+ ")") [ErrCredentialsRefused])
  else Err (errors_New ("backend: " +:+ config_path +:+ ": returned HTTP " +:+ int_text status +:+ ": " +:+
                        truncate (TrimSpace raw) 200)).

Definition FetchConfig (c : Client) (p : plane_state) (w : W) : result error Fetched * plane_state * W :=
  match config_request with
  | Err e => (Err (wrap_error "backend: encode request: " e), p, w)
  | Ok payload =>
      let '(resp, p, w) := exchange c config_path "" payload p w in
      (let! sr := resp in
       let! raw := config_status sr.1 sr.2 in
       match decode_response raw with
       | Err e => Err (wrap_error ("backend: decode " +:+ config_path +:+ " response: ") e)
       | Ok (config, expires) =>
           match ParseServedDocument config with
           | Err e => Err (mkError ("backend: remote configuration rejected: " +:+ Error e)
                             (ErrConfigRejected :: wraps e))
           | Ok doc => Ok (mkFetched doc config expires)
           end
       end, p, w)
  end.

(** ** refresh.go *)

Inductive remote_origin := OriginFetched | OriginCached | OriginNone.

Record Remote := mkRemote {
  rm_Origin : remote_origin;
  rm_Doc : option Document;
  rm_Effective : option Effective;
  rm_FetchedAt : Z;
  rm_Expired : bool;
  rm_Err : option error
}.

Definition no_remote (err : option error) : Remote := mkRemote OriginNone None None 0 false err.

(** A resolver's refusal as an error: [errors.As] finds one that blames a layer other than the
    served one. *)
Definition rejection_error (r : RejectionError) : error :=
  mkError (rejection_text r) (if bool_decide (rej_Layer r = LayerRemote) then [] else [AsLocalRejection]).

Definition localRejection (e : error) : bool := bool_decide (AsLocalRejection ∈ wraps e).

(** What the state directory and the plane are, as a refresh sees them. *)
Record refresh_state := mkRefresh {
  rf_revocation : revocation_file;
  rf_cache : result error Cached;
  rf_world : W
}.

Variable private_key : Enrollment -> option error.
Variable Validate : Document -> result RejectionError Effective.

Definition config_rejected (e : error) : error :=
  mkError ("backend: remote configuration rejected: " +:+ Error e) (ErrConfigRejected :: wraps e).

(** [fetch]: only a candidate that resolves reaches the cache. *)
Definition fetch (en : Enrollment) (stateDir : string) (now : Z) (s : refresh_state)
    : result error Remote * refresh_state :=
  match private_key en with
  | Some e => (Err e, s)
  | None =>
      let c := mkClient (trim_suffix "/" (en_Endpoint en)) stateDir (en_InstallID en) (en_Organization en) true in
      let '(f, p, w) := FetchConfig c (mkPlane None (rf_revocation s)) (rf_world s) in
      let s := mkRefresh (disk p) (rf_cache s) w in
      match f with
      | Err e => (Err e, s)
      | Ok f =>
          match Validate (ft_Doc f) with
          | Err r =>
              let e := rejection_error r in
              (Err (if localRejection e then e else config_rejected e), s)
          | Ok eff =>
              match SaveCache (mkCached 0 (Raw f) "" None now (ft_ExpiresAt f)) w with
              | Err e => (Err e, s)
              | Ok c =>
                  (Ok (mkRemote OriginFetched (Some (ft_Doc f)) (Some eff) now
                         (negb (is_zero_time (ft_ExpiresAt f)) && (ft_ExpiresAt f <? now)) None),
                   mkRefresh (disk p) (Ok c) w)
              end
          end
      end
  end.

Definition resolveCached (raw : string) : result error (Document * Effective) :=
  let! doc := ParseServedDocument raw in
  match Validate doc with
  | Ok eff => Ok (doc, eff)
  | Err r => Err (rejection_error r)
  end.

Definition unusableCache (fetchErr cacheErr : error) : error :=
  mkError (Error fetchErr +:+ "; cached remote layer in remote-config.json is invalid or unreadable (" +:+
           Error cacheErr +:+ "); collecting under local config only. " +:+
           "Correct the remote configuration or cache read error") (wraps fetchErr ++ wraps cacheErr).

(** From the cache, when nothing was fetched. *)
Definition from_cache (now : Z) (fetchErr : error) (cache : result error Cached) : Remote :=
  match LoadCache cache with
  | Err e => no_remote (Some (unusableCache fetchErr e))
  | Ok c =>
      let raw := cached_Document c in
      let '(got, fetchErr) :=
        match resolveCached raw with
        | Err e =>
            if negb (localRejection e) && negb (raw =? ca_Config c)%string then
              match resolveCached (ca_Config c) with
              | Ok de => (Ok de, mkError (Error fetchErr +:+ "; backend: remote configuration rejected: cached config_full: " +:+
                            Error e) (wraps fetchErr ++ ErrConfigRejected :: wraps e))
              | Err e => (Err e, fetchErr)
              end
            else (Err e, fetchErr)
        | Ok de => (Ok de, fetchErr)
        end in
      match got with
      | Err e =>
          if localRejection e then no_remote (Some e)
          else mkRemote OriginNone None None (ca_FetchedAt c) false
                 (Some (unusableCache fetchErr (config_rejected e)))
      | Ok (doc, eff) =>
          mkRemote OriginCached (Some doc) (Some eff) (ca_FetchedAt c) (cached_Expired c now) (Some fetchErr)
      end
  end.

Definition Refresh (enrollment : option Enrollment) (stateDir : string) (now : Z) (offline : bool)
    (s : refresh_state) : Remote * refresh_state :=
  match enrollment with
  | None => (no_remote None, s)
  | Some en =>
      if (en_Endpoint en =? "")%string then (no_remote None, s)
      else match LoadRevocation (rf_revocation s) enrollment with
      | Err e => (no_remote (Some e), s)
      | Ok (Some r) => (no_remote (Some (Revocation_error r)), s)
      | Ok None =>
          if offline
          then (from_cache now (errors_New "backend: offline, resolving from the cached config") (rf_cache s), s)
          else match fetch en stateDir now s with
          | (Ok r, s) => (r, s)
          | (Err e, s) =>
              if bool_decide (AsRevocation ∈ wraps e) || localRejection e then (no_remote (Some e), s)
              else (from_cache now e (rf_cache s), s)
          end
      end
  end.
End Refresh.
Arguments mkRefresh {W}. Arguments rf_revocation {W}. Arguments rf_cache {W}. Arguments rf_world {W}.

(** ** app/resolve.go *)

Definition stateDirFrom (layers : list LayeredDocument) (def : string) : string :=
  foldl (fun out ld =>
    match ld_Doc ld with
    | Some d => match cd_StateDir d with
                | Some s => if (s =? "")%string then out else s
                | None => out
                end
    | None => out
    end) def layers.

Definition set_expired (b : bool) (e : Effective) : Effective :=
  mkEffective (eff_ConfigVersion e) (Config.OrganizationID e) b (Config.Schedule e) (DrainDeadline e)
    (eff_StateDir e) (eff_MaxFilesPerRun e) (eff_Sources e) (Catalog e) (UploadTargets e) (eff_RulePacks e)
    (eff_SecretKeyNames e) (StructuralEx e) (AdditionalRecipients e) (IncludeInstallRecipient e)
    (AutoupdateEnabled e) (TelemetryEndpoint e) (Provenance e).

Section App.
Context {fs : FileSystem} {ds : Doublestar} {codec : Codec} {W : Type} {net : PlaneNet W}.
Variable encoded_size : Cached -> result error Z.
Variable save_error : W -> option error.
Variable private_key : Enrollment -> option error.
Variable range : gmap string bool -> list (string * bool).
Variable ParseX25519Recipient : string -> bool.
Variable os_env : string -> option string.

(** What [resolve] starts from: the compiled catalog, the local layers, the environment, the default
    state directory and the enrollment record found in the directory the layers name. *)
Record app_input := mkApp {
  app_Catalog : list Source;
  app_Layers : list LayeredDocument;
  app_Env : Env;
  app_Default : string;
  app_Enrollment : string -> result error (option Enrollment)
}.

Definition app_StateDir (i : app_input) : string := stateDirFrom (app_Layers i) (app_Default i).

Definition resolve_input (i : app_input) (served : option Document) : ResolveInput :=
  mkResolveInput (app_Catalog i)
    (app_Layers i ++ match served with Some d => [mkLayered LayerRemote (Some d)] | None => [] end)
    false (app_Env i) (app_StateDir i).

Definition app_Resolve (i : app_input) (served : option Document) : result RejectionError Effective :=
  Resolve range ParseX25519Recipient os_env (resolve_input i served).

(** [resolve]: the configuration in force, the state directory in force, and what became of the
    served layer. *)
Definition resolve (i : app_input) (now : Z) (offline : bool) (s : refresh_state (W := W))
    : result error (Effective * string * Remote) * refresh_state (W := W) :=
  match app_Enrollment i (app_StateDir i) with
  | Err e => (Err (mkError (Error e +:+ "This install is enrolled but its enrollment record cannot be used.") (wraps e)), s)
  | Ok enrollment =>
      let '(remote, s) := Refresh encoded_size save_error private_key
                            (fun doc => app_Resolve i (Some doc)) enrollment (app_StateDir i) now offline s in
      match rm_Err remote with
      | Some e => if localRejection e then (Err e, s)
          else match (match rm_Effective remote with Some eff => Ok eff | None => app_Resolve i None end) with
          | Err r => (Err (rejection_error r), s)
          | Ok eff => (Ok (set_expired (rm_Expired remote) eff, eff_StateDir eff, remote), s)
          end
      | None =>
          match (match rm_Effective remote with Some eff => Ok eff | None => app_Resolve i None end) with
          | Err r => (Err (rejection_error r), s)
          | Ok eff => (Ok (set_expired (rm_Expired remote) eff, eff_StateDir eff, remote), s)
          end
      end
  end.
End App.
