(* ===== verification/RemoteSafe.v ===== *)
(** What the served layer can become: the configuration in force is always the resolution of the
    local layers alone or with one document that resolved in full, the last good cache outlives every
    failure, and a revoked install takes nothing from either. *)

From S2P Require Import Prelude GoLib GoJson GoTime Vocab ControlPlane Schedule Spec GoPath Deny Config ConfigSafe Remote.

Section Refresh.
Context {codec : Codec} {W : Type} {net : PlaneNet W}.
Variable encoded_size : Cached -> result error Z.
Variable save_error : W -> option error.
Variable private_key : Enrollment -> option error.
Variable Validate : Document -> result RejectionError Effective.
Notation Refresh := (Refresh encoded_size save_error private_key Validate).
Notation fetch := (fetch encoded_size save_error private_key Validate).
Notation state := (refresh_state (W := W)).

(** A document of these bytes that resolved. *)
Definition resolved_from (raw : string) (r : Remote) : Prop :=
  exists doc eff, ParseServedDocument raw = Ok doc /\ Validate doc = Ok eff /\
    rm_Doc r = Some doc /\ rm_Effective r = Some eff.

Lemma resolveCached_ok raw doc eff :
  resolveCached Validate raw = Ok (doc, eff) -> ParseServedDocument raw = Ok doc /\ Validate doc = Ok eff.
Proof.
  unfold resolveCached. intros H. apply rbind_Ok in H as (d & H1 & H). destruct (Validate d) eqn:Hv; [|discriminate].
  by injection H as <- <-.
Qed.

Lemma from_cache_spec now ferr cache :
  let r := from_cache Validate now ferr cache in
  rm_Err r <> None /\
  ((rm_Origin r = OriginNone /\ rm_Effective r = None) \/
   (rm_Origin r = OriginCached /\ exists c, cache = Ok c /\ CacheSchema c = cacheSchema /\
     (resolved_from (cached_Document c) r \/ resolved_from (ca_Config c) r) /\
     rm_FetchedAt r = ca_FetchedAt c /\ rm_Expired r = cached_Expired c now)).
Proof.
  cbn zeta. unfold from_cache. destruct (LoadCache cache) as [c|e] eqn:Hc; [|split; [done|by left]].
  unfold LoadCache in Hc. apply rbind_Ok in Hc as (c' & -> & Hc).
  destruct (Z.eqb_spec (CacheSchema c') cacheSchema) as [Hs|]; [|discriminate]. injection Hc as ->.
  destruct (resolveCached Validate (cached_Document c)) as [[doc eff]|e] eqn:H1.
  { apply resolveCached_ok in H1 as [Hp Hv]. split; [done|]. right. split; [done|]. exists c.
    split_and!; try done. left. by exists doc, eff. }
  destruct (negb (localRejection e) && negb (cached_Document c =? ca_Config c)%string).
  - destruct (resolveCached Validate (ca_Config c)) as [[doc eff]|e2] eqn:H2.
    + apply resolveCached_ok in H2 as [Hp Hv]. split; [done|]. right. split; [done|]. exists c.
      split_and!; try done. right. by exists doc, eff.
    + destruct (localRejection e2); (split; [done|by left]).
  - destruct (localRejection e); (split; [done|by left]).
Qed.

Lemma FetchConfig_ok c p (w : W) f p' w' :
  FetchConfig c p w = (Ok f, p', w') ->
  ParseServedDocument (Raw f) = Ok (ft_Doc f).
Proof.
  unfold FetchConfig. destruct config_request; [|discriminate].
  destruct (exchange _ _ _ _ _ _) as [[resp p1] w1]. intros [= H <- <-].
  apply rbind_Ok in H as (sr & _ & H). apply rbind_Ok in H as (raw & _ & H).
  destruct (decode_response raw) as [[cfg exp]|]; [|discriminate].
  destruct (ParseServedDocument cfg) eqn:E; [|discriminate]. by injection H as <-.
Qed.

(** Saving keeps what the record is about, and makes it readable by this build. *)
Lemma SaveCache_ok c w c' :
  SaveCache encoded_size save_error c w = Ok c' ->
  CacheSchema c' = cacheSchema /\ ca_FetchedAt c' = ca_FetchedAt c /\ ExpiresAt c' = ExpiresAt c.
Proof.
  unfold SaveCache. intros H. apply rbind_Ok in H as (rf & _ & H). apply rbind_Ok in H as (size & _ & H).
  apply rbind_Ok in H as (out & Ho & H). destruct (save_error w); [discriminate|]. injection H as <-.
  destruct (maxResponseBytes <? size + 1).
  - apply rbind_Ok in Ho as (size' & _ & Ho). destruct (_ <? _); [discriminate|]. by injection Ho as <-.
  - injection Ho as <-. by case_bool_decide.
Qed.

Lemma fetch_spec en dir now (s : state) r s' :
  fetch en dir now s = (r, s') ->
  match r with
  | Err _ => rf_cache s' = rf_cache s
  | Ok r => exists raw c, rm_Origin r = OriginFetched /\ rm_Err r = None /\ resolved_from raw r /\
      rm_FetchedAt r = now /\ rf_cache s' = Ok c /\ CacheSchema c = cacheSchema /\ ca_FetchedAt c = now
  end.
Proof.
  unfold Remote.fetch. destruct (private_key en); [by intros [= <- <-]|].
  destruct (FetchConfig _ _ _) as [[f p] w] eqn:Hf. destruct f as [f|e]; [|by intros [= <- <-]].
  apply FetchConfig_ok in Hf. destruct (Validate (ft_Doc f)) as [eff|rej] eqn:Hv; [|by intros [= <- <-]].
  destruct (SaveCache _ _ _ _) as [c|e] eqn:Hs; [|by intros [= <- <-]]. apply SaveCache_ok in Hs as (H1 & H2 & _).
  intros [= <- <-]. exists (Raw f), c. split_and!; try done. by exists (ft_Doc f), eff.
Qed.

(** A served document takes effect whole or not at all: what a refresh hands over resolved in
    full, from the bytes just fetched or from the cache; the cache changes only when a fetched
    document resolved, so every failure, of the network, the plane, the document, the resolver or
    the disk, leaves the last good one in place and is reported; and an install known to be revoked
    takes neither and sends nothing. *)
Theorem Refresh_whole_or_nothing enrollment dir now offline (s s' : state) r :
  Refresh enrollment dir now offline s = (r, s') ->
  match rm_Origin r with
  | OriginNone => rm_Effective r = None /\ rf_cache s' = rf_cache s
  | OriginFetched => offline = false /\ rm_Err r = None /\ (exists raw, resolved_from raw r) /\
      exists c, rf_cache s' = Ok c /\ CacheSchema c = cacheSchema /\ ca_FetchedAt c = now
  | OriginCached => rm_Err r <> None /\ rf_cache s' = rf_cache s /\
      exists c, rf_cache s = Ok c /\ CacheSchema c = cacheSchema /\
        (resolved_from (cached_Document c) r \/ resolved_from (ca_Config c) r) /\
        rm_Expired r = cached_Expired c now
  end /\
  (LoadRevocation (rf_revocation s) enrollment <> Ok None -> rm_Origin r = OriginNone /\ s' = s).
Proof.
  unfold Remote.Refresh. destruct enrollment as [en|]; [|by intros [= <- <-]].
  destruct (en_Endpoint en =? "")%string; [by intros [= <- <-]|].
  destruct (LoadRevocation _ _) as [[rv|]|e] eqn:Hrev; [by intros [= <- <-]| |by intros [= <- <-]].
  intros H. split; [|done].
  assert (forall ferr, match rm_Origin (from_cache Validate now ferr (rf_cache s)) with
    | OriginNone => rm_Effective (from_cache Validate now ferr (rf_cache s)) = None
    | OriginFetched => False
    | OriginCached => rm_Err (from_cache Validate now ferr (rf_cache s)) <> None /\
        exists c, rf_cache s = Ok c /\ CacheSchema c = cacheSchema /\
          (resolved_from (cached_Document c) (from_cache Validate now ferr (rf_cache s)) \/
           resolved_from (ca_Config c) (from_cache Validate now ferr (rf_cache s))) /\
          rm_Expired (from_cache Validate now ferr (rf_cache s)) = cached_Expired c now
    end) as Hcache.
  { intros ferr. destruct (from_cache_spec now ferr (rf_cache s)) as (He & [[-> H0]|(-> & c & H0)]); [done|].
    split; [done|]. exists c. by destruct H0 as (? & ? & ? & _ & ?). }
  destruct offline.
  - injection H as <- <-. specialize (Hcache (errors_New "backend: offline, resolving from the cached config")).
    destruct (rm_Origin (from_cache _ _ _ _)); [done|tauto|done].
  - destruct (fetch en dir now s) as [[r1|e] s1] eqn:Hf; apply fetch_spec in Hf.
    + destruct Hf as (raw & c & Ho & He & Hr & _ & Hc & Hs & Hat). injection H as <- <-. rewrite Ho.
      split_and!; try done; [by exists raw|by exists c].
    + destruct (_ || _); injection H as <- <-; [done|]. rewrite Hf. specialize (Hcache e).
      destruct (rm_Origin (from_cache _ _ _ _)); [done|tauto|done].
Qed.

(** ** Where the served document comes from *)

Definition fetch_client (en : Enrollment) (dir : string) : Client :=
  mkClient (trim_suffix "/" (en_Endpoint en)) dir (en_InstallID en) (en_Organization en) true.

(** The text of the cache a document is taken from: the full one, or the reduced one beside it when the
    full one does not resolve for a reason that is no local layer's. *)
Definition cached_text (c : Cached) (raw : string) : Prop :=
  raw = cached_Document c \/
  raw = ca_Config c /\ exists e, resolveCached Validate (cached_Document c) = Err e /\ localRejection e = false.

(** What a refresh from [s] to [s'] makes of the served layer: nothing; the document the plane just
    answered, which is then what the cache holds; or, offline or after a failed fetch, the document the
    cache held. Only an enrolled install that is not known to be revoked has one. *)
Inductive served_by (enrollment : option Enrollment) (dir : string) (now : Z) (offline : bool)
    (s s' : state) (r : Remote) : option Document -> Prop :=
  | served_none :
      rm_Origin r = OriginNone -> rm_Effective r = None -> rf_cache s' = rf_cache s ->
      served_by enrollment dir now offline s s' r None
  | served_fetched en f p w c eff :
      enrollment = Some en -> en_Endpoint en <> "" -> LoadRevocation (rf_revocation s) enrollment = Ok None ->
      offline = false -> private_key en = None ->
      FetchConfig (fetch_client en dir) (mkPlane None (rf_revocation s)) (rf_world s) = (Ok f, p, w) ->
      Validate (ft_Doc f) = Ok eff ->
      SaveCache encoded_size save_error (mkCached 0 (Raw f) "" None now (ft_ExpiresAt f)) w = Ok c ->
      rf_cache s' = Ok c ->
      r = mkRemote OriginFetched (Some (ft_Doc f)) (Some eff) now
            (negb (is_zero_time (ft_ExpiresAt f)) && (ft_ExpiresAt f <? now)) None ->
      served_by enrollment dir now offline s s' r (Some (ft_Doc f))
  | served_cached en c raw doc eff err :
      enrollment = Some en -> en_Endpoint en <> "" -> LoadRevocation (rf_revocation s) enrollment = Ok None ->
      (offline = true /\ s' = s \/
       exists e, fetch en dir now s = (Err e, s') /\ AsRevocation ∉ wraps e /\ localRejection e = false) ->
      rf_cache s = Ok c -> CacheSchema c = cacheSchema -> cached_text c raw ->
      ParseServedDocument raw = Ok doc -> Validate doc = Ok eff -> rf_cache s' = rf_cache s ->
      r = mkRemote OriginCached (Some doc) (Some eff) (ca_FetchedAt c) (cached_Expired c now) (Some err) ->
      served_by enrollment dir now offline s s' r (Some doc).

Lemma fetch_ok en dir now (s s' : state) r :
  fetch en dir now s = (Ok r, s') ->
  exists f p w c eff, private_key en = None /\
    FetchConfig (fetch_client en dir) (mkPlane None (rf_revocation s)) (rf_world s) = (Ok f, p, w) /\
    Validate (ft_Doc f) = Ok eff /\
    SaveCache encoded_size save_error (mkCached 0 (Raw f) "" None now (ft_ExpiresAt f)) w = Ok c /\
    rf_cache s' = Ok c /\
    r = mkRemote OriginFetched (Some (ft_Doc f)) (Some eff) now
          (negb (is_zero_time (ft_ExpiresAt f)) && (ft_ExpiresAt f <? now)) None.
Proof.
  unfold Remote.fetch, fetch_client. destruct (private_key en); [discriminate|].
  destruct (FetchConfig _ _ _) as [[[f|e] p] w]; [|discriminate].
  destruct (Validate (ft_Doc f)) as [eff|rej] eqn:Hv; [|discriminate].
  destruct (SaveCache _ _ _ _) as [c|e] eqn:Hs; [|discriminate]. intros [= <- <-]. by exists f, p, w, c, eff.
Qed.

Lemma from_cache_ok now ferr cache :
  let r := from_cache Validate now ferr cache in
  (rm_Origin r = OriginNone /\ rm_Effective r = None) \/
  exists c raw doc eff err, cache = Ok c /\ CacheSchema c = cacheSchema /\ cached_text c raw /\
    ParseServedDocument raw = Ok doc /\ Validate doc = Ok eff /\
    r = mkRemote OriginCached (Some doc) (Some eff) (ca_FetchedAt c) (cached_Expired c now) (Some err).
Proof.
  cbn zeta. unfold from_cache. destruct (LoadCache cache) as [c|e] eqn:Hc; [|by left].
  unfold LoadCache in Hc. apply rbind_Ok in Hc as (c' & -> & Hc).
  destruct (Z.eqb_spec (CacheSchema c') cacheSchema) as [Hs|]; [|discriminate]. injection Hc as ->.
  destruct (resolveCached Validate (cached_Document c)) as [[doc eff]|e] eqn:H1.
  { apply resolveCached_ok in H1 as [Hp Hv]. right. exists c, (cached_Document c), doc, eff, ferr.
    split_and!; try done. by left. }
  destruct (localRejection e) eqn:El; cbn [negb andb]; [rewrite El; by left|].
  destruct (negb (cached_Document c =? ca_Config c)%string); [|rewrite El; by left].
  destruct (resolveCached Validate (ca_Config c)) as [[doc eff]|e2] eqn:H2; [|destruct (localRejection e2); by left].
  apply resolveCached_ok in H2 as [Hp Hv]. right. eexists c, (ca_Config c), doc, eff, _.
  split_and!; try done. right. split; [done|by exists e].
Qed.

Lemma Refresh_served enrollment dir now offline (s s' : state) r :
  Refresh enrollment dir now offline s = (r, s') ->
  exists served, served_by enrollment dir now offline s s' r served.
Proof.
  unfold Remote.Refresh. destruct enrollment as [en|].
  2:{ intros [= <- <-]. exists None. by constructor. }
  destruct (String.eqb_spec (en_Endpoint en) "") as [E|E].
  { intros [= <- <-]. exists None. by constructor. }
  destruct (LoadRevocation _ _) as [[rv|]|e] eqn:Hrev; [|intros H|].
  1,3: intros [= <- <-]; exists None; by constructor.
  assert (forall ferr s', (offline = true /\ s' = s \/
       exists e, fetch en dir now s = (Err e, s') /\ AsRevocation ∉ wraps e /\ localRejection e = false) ->
    rf_cache s' = rf_cache s ->
    exists served, served_by (Some en) dir now offline s s' (from_cache Validate now ferr (rf_cache s)) served) as Hcache.
  { intros ferr s2 Hw Hsame. destruct (from_cache_ok now ferr (rf_cache s)) as [[H1 H2]|(c & raw & doc & eff & err & H0)].
    - exists None. by constructor.
    - destruct H0 as (H1 & H2 & H3 & H4 & H5 & H6). exists (Some doc). by eapply served_cached. }
  destruct offline; [injection H as <- <-; apply Hcache; [by left|done]|].
  destruct (fetch en dir now s) as [[r1|e] s1] eqn:Hf.
  - injection H as <- <-. apply fetch_ok in Hf as (f & p & w & c & eff & H1 & H2 & H3 & H4 & H5 & ->).
    exists (Some (ft_Doc f)). by eapply served_fetched.
  - pose proof (fetch_spec _ _ _ _ _ _ Hf) as Hsame. cbn in Hsame.
    destruct (bool_decide (AsRevocation ∈ wraps e) || localRejection e) eqn:Ea; injection H as <- <-.
    + exists None. by constructor.
    + rewrite Hsame. apply Hcache; [|done]. right. exists e. apply orb_false_iff in Ea as [Ea El].
      by rewrite bool_decide_eq_false in Ea.
Qed.

Lemma served_by_effective enrollment dir now offline (s s' : state) r served :
  served_by enrollment dir now offline s s' r served ->
  match served with
  | None => rm_Effective r = None
  | Some doc => exists eff, Validate doc = Ok eff /\ rm_Effective r = Some eff
  end.
Proof. destruct 1; subst; eauto. Qed.
End Refresh.

(** ** The configuration in force *)

Section App.
Context {fs : FileSystem} {ds : Doublestar} {codec : Codec} {W : Type} {net : PlaneNet W}.
Variable encoded_size : Cached -> result error Z.
Variable save_error : W -> option error.
Variable private_key : Enrollment -> option error.
Variable range : gmap string bool -> list (string * bool).
Variable ParseX25519Recipient : string -> bool.
Variable os_env : string -> option string.
Notation app_Resolve := (app_Resolve range ParseX25519Recipient os_env).
Notation resolve := (resolve encoded_size save_error private_key range ParseX25519Recipient os_env).

Definition stated_dirs (layers : list LayeredDocument) : list string :=
  omap (fun ld => ld_Doc ld ≫= cd_StateDir) layers.

Lemma stateDirFrom_last layers def :
  stateDirFrom layers def = default def (last (filter (fun s => s <> "") (stated_dirs layers))).
Proof.
  unfold stateDirFrom, stated_dirs. revert def. induction layers as [|ld layers IH]; intros def; [done|].
  cbn [foldl omap list_omap]. rewrite IH. destruct (ld_Doc ld) as [d|]; [|done]. cbn [mbind option_bind].
  destruct (cd_StateDir d) as [s|]; [|done]. rewrite filter_cons.
  destruct (String.eqb_spec s "") as [->|Hs]; [by rewrite decide_False by tauto|].
  rewrite decide_True, last_cons by done. by destruct (last (filter _ _)).
Qed.

Lemma merge_layers_dir catalog layers e os e' os' :
  merge_layers catalog layers e os = Ok (e', os') ->
  eff_StateDir e' = default (eff_StateDir e) (last (stated_dirs layers)).
Proof.
  unfold stated_dirs. revert e os. induction layers as [|ld layers IH]; intros e os; cbn [merge_layers omap list_omap].
  { by intros [= <- <-]. }
  destruct (ld_Doc ld) as [d|]; [|by apply IH]. cbn [mbind option_bind]. intros H.
  apply rbind_Ok in H as (e1 & H1 & H). apply rbind_Ok in H as (e2 & H2 & H). apply rbind_Ok in H as (u & _ & H).
  apply IH in H as ->.
  assert (eff_StateDir e1 = eff_StateDir e) as He1 by (by apply apply_envelope_frame in H1 as [->|[org ->]]).
  unfold applyDocument in H2. apply rbind_Ok in H2 as (? & _ & H2). apply rbind_Ok in H2 as (? & _ & H2).
  apply rbind_Ok in H2 as (? & _ & H2). apply rbind_Ok in H2 as (di & Hdi & H2). apply rbind_Ok in H2 as (? & _ & [= <-]).
  cbn [eff_StateDir]. unfold state_dir in Hdi. destruct (cd_StateDir d) as [s|].
  - destruct (negb _); [discriminate|]. injection Hdi as <-.
    rewrite last_cons. by destruct (last (omap _ layers)).
  - injection Hdi as <-. by rewrite He1.
Qed.

(** The state directory the local layers resolve to: the last one stated, else the one
    [stateDirFrom] gave. *)
Lemma app_Resolve_dir_last i e :
  app_Resolve i None = Ok e ->
  eff_StateDir e = default (app_StateDir i) (last (stated_dirs (app_Layers i))).
Proof.
  intros H. apply Resolve_Ok in H as (m & sp & f & l & R & ->).
  destruct (resolution_sources _ _ _ _ _ _ _ _ R) as (_ & _ & Hc & _).
  destruct R as [Hm _ _ _ _ _ _]. destruct m as [g os].
  unfold resolve_input in Hm. cbn [Layers in_Catalog] in Hm. rewrite app_nil_r in Hm.
  cbn [eff_StateDir set_sources]. destruct Hc as [-> _ _ _ _ _ _]. cbn [fst].
  by apply merge_layers_dir in Hm as ->.
Qed.

Lemma app_Resolve_dir i e :
  Forall (fun s => s <> "") (stated_dirs (app_Layers i)) ->
  app_Resolve i None = Ok e -> eff_StateDir e = app_StateDir i.
Proof.
  intros Hne H. rewrite (app_Resolve_dir_last _ _ H). unfold app_StateDir. rewrite stateDirFrom_last.
  assert (filter (fun s => s <> "") (stated_dirs (app_Layers i)) = stated_dirs (app_Layers i)) as ->.
  { clear -Hne. induction Hne as [|x l Hx Hl IH]; [done|]. rewrite filter_cons, decide_True by done. by f_equal. }
  by destruct (last (stated_dirs (app_Layers i))).
Qed.

(** The two readings of [state_dir] disagree on the empty one: a layer that states it empty, and
    is the last to state it, resolves to the empty directory, while the enrollment record and the
    cache are looked for in the default or an earlier layer's. *)
Theorem empty_state_dir_splits i e :
  last (stated_dirs (app_Layers i)) = Some "" -> app_Default i <> "" -> app_Resolve i None = Ok e ->
  eff_StateDir e = "" /\ app_StateDir i <> "".
Proof.
  intros Hl Hd H. rewrite (app_Resolve_dir_last _ _ H), Hl. split; [done|].
  unfold app_StateDir. rewrite stateDirFrom_last.
  destruct (last (filter _ _)) as [x|] eqn:E; [|done]. cbn.
  apply last_Some_elem_of, list_elem_of_filter in E. tauto.
Qed.

Lemma resolve_served i now offline (s s' : refresh_state (W := W)) e dir remote :
  resolve i now offline s = (Ok (e, dir, remote), s') ->
  exists enrollment served e0, app_Enrollment i (app_StateDir i) = Ok enrollment /\
    served_by encoded_size save_error private_key (fun doc => app_Resolve i (Some doc))
      enrollment (app_StateDir i) now offline s s' remote served /\
    app_Resolve i served = Ok e0 /\ e = set_expired (rm_Expired remote) e0 /\ dir = eff_StateDir e.
Proof.
  unfold Remote.resolve. destruct (app_Enrollment i _) as [en|]; [|discriminate].
  destruct (Refresh _ _ _ _ en _ now offline s) as [r s1] eqn:Hr. apply Refresh_served in Hr as [served Hs].
  intros H.
  assert (match (match rm_Effective r with Some eff => Ok eff | None => app_Resolve i None end) with
          | Err rej => (Err (rejection_error rej), s1)
          | Ok eff => (Ok (set_expired (rm_Expired r) eff, eff_StateDir eff, r), s1)
          end = (Ok (e, dir, remote), s')) as Hm.
  { destruct (rm_Err r) as [er|]; [|done]. by destruct (localRejection er). }
  pose proof (served_by_effective _ _ _ _ _ _ _ _ _ _ _ _ Hs) as Hef. destruct served as [doc|].
  - destruct Hef as (eff & Hv & Hef). rewrite Hef in Hm. injection Hm as <- <- <- <-.
    by exists en, (Some doc), eff.
  - rewrite Hef in Hm. destruct (app_Resolve i None) as [eff|] eqn:E; [|discriminate].
    injection Hm as <- <- <- <-. by exists en, None, eff.
Qed.

End App.
