(* ===== verification/ConfigSample.v ===== *)
(** The configuration at concrete inputs: a machine with one agent, a local layer, a served layer
    that tries to widen it, a plane that serves it and a cache that keeps it. *)

From S2P Require Import Prelude GoLib GoJson GoTime Vocab ControlPlane Schedule Spec GoPath Deny Config ConfigSafe.
From S2P Require Import Remote RemoteSafe.

Module SampleConfig.
#[local] Instance machine : FileSystem := {|
  Stat := fun p => if (p =? "/home/ann/.a")%string then Some true else None;
  EvalSymlinks := fun p => Some p |}.
#[local] Instance globs : Doublestar := {|
  ds_Match := fun pat p => Some (pat =? p)%string;
  ds_Glob := fun _ _ => Ok [];
  ds_ValidatePattern := fun _ => true |}.

Definition order (m : gmap string bool) : list (string * bool) := map_to_list m.
Definition age_key (r : string) : bool := has_prefix "age1" r.
Definition no_env (n : string) : option string := None.
Definition env_ : Env := mkEnvironment "/home/ann" no_env.

Definition agent (id : string) : Source :=
  mkSource id "" None "files" "transcript" ["~/.a"] "" ["*.jsonl"] [] 0 None {[ "cursor" := false ]} None None "" "a".
Definition catalog : list Source := [agent "a"; agent "b"].

(** The owner switches "b" off. *)
Definition owner : LayeredDocument :=
  mkLayered LayerUser (Some (mkDocument None None None None
    [mkOverride "b" (Some false) [] [] [] [] None ∅] None None None None None [] ∅ None None)).
Definition alone : ResolveInput := mkResolveInput catalog [owner] false env_ "/home/ann/.state".

(** The organization switches both on, and their enricher, and narrows what is read. *)
Definition served : Document :=
  mkDocument None (Some "acme") (Some 1) None
    [mkOverride "a" (Some true) [] [] [] ["tmp/**"] None {[ "cursor" := true ]};
     mkOverride "b" (Some true) [] [] [] [] None ∅]
    (Some (mkScrub [] ["ACME_TOKEN"])) None None None None [] ∅ (Some (Some false)) (Some "/v1/telemetry").

Definition resolved_alone : result RejectionError Effective := Resolve order age_key no_env alone.
Definition resolved_served : result RejectionError Effective :=
  Resolve order age_key no_env (with_layer alone (mkLayered LayerRemote (Some served))).

Definition get (r : result RejectionError Effective) : Effective :=
  match r with Ok e => e | Err _ => initial_effective alone end.

Definition e_alone : Effective := get resolved_alone.
Definition e_served : Effective := get resolved_served.

Lemma alone_ok : Resolve order age_key no_env alone = Ok e_alone.
Proof. vm_compute. reflexivity. Qed.
Lemma served_ok : Resolve order age_key no_env (with_layer alone (mkLayered LayerRemote (Some served))) = Ok e_served.
Proof. vm_compute. reflexivity. Qed.

Example what_was_resolved :
  map (fun s => (src_ID (source s), Enabled s, Root s, Exclude (source s))) (eff_Sources (get resolved_served))
  = [("a", true, "/home/ann/.a", ["tmp/**"]); ("b", false, "", [])].
Proof. vm_compute. reflexivity. Qed.

(** The same machine before the agent was first run: its directory is not there yet. *)
Definition before_agent : FileSystem := {| Stat := fun _ => None; EvalSymlinks := fun p => Some p |}.
Definition early : Effective := get (Resolve (fs := before_agent) order age_key no_env alone).
Lemma early_ok : Resolve (fs := before_agent) order age_key no_env alone = Ok early.
Proof. vm_compute. reflexivity. Qed.
Definition compiled_deny : list string := deny_New no_env (Home env_).
Definition refreshed_early : list string * Effective := RefreshAbsentRoots (fs := machine) compiled_deny early env_.

Example agent_appears :
  map Root (eff_Sources early) = [""; ""] /\
  refreshed_early.1 = ["a"] /\ map Root (eff_Sources refreshed_early.2) = ["/home/ann/.a"; ""] /\
  map Root (eff_Sources (RefreshAbsentRoots (fs := before_agent) compiled_deny refreshed_early.2 env_).2)
  = ["/home/ann/.a"; ""].
Proof. vm_compute. by repeat split. Qed.
#[local] Opaque early refreshed_early.

#[local] Opaque Resolve e_alone e_served RefreshAbsentRoots.

Lemma Resolve_well_formed_witness :
  well_formed (fs := before_agent) age_key compiled_deny env_ early /\
  Forall2 (refreshed (fs := machine) compiled_deny early env_) (eff_Sources early) (eff_Sources refreshed_early.2).
Proof.
  destruct (Resolve_well_formed (fs := before_agent) order age_key no_env alone early early_ok) as [H1 H2].
  split; [exact H1|].
  exact (proj1 (proj2 (H2 machine env_ refreshed_early.1 refreshed_early.2 (surjective_pairing refreshed_early)))).
Defined.

Lemma served_layer_narrows_witness :
  confined e_alone e_served /\
  forall s1, s1 ∈ eff_Sources e_served -> exists s0, s0 ∈ eff_Sources e_alone /\
    narrows (switched_off (overrides_of [owner]) (src_ID (source s0))) s0 s1.
Proof.
  exact (served_layer_narrows order age_key no_env alone LayerRemote served e_alone e_served eq_refl alone_ok served_ok).
Defined.

(** ** A plane that serves it *)

#[local] Instance codec : Codec := {|
  ParseServedDocument := fun raw => if (raw =? "served")%string then Ok served else Err (errors_New "yaml");
  config_request := Ok "{}";
  decode_response := fun raw => Ok (raw, 0);
  yaml_has_excludes := fun _ => Ok false;
  yaml_scopes := fun _ => Ok [];
  yaml_rewrite := fun raw _ => Ok raw |}.
#[local] Instance plane : PlaneNet nat := {|
  plane_post := fun w _ _ _ => (Ok (200, "served"), S w);
  plane_now := fun _ => 5;
  enrollment_lock := fun _ => None;
  save_fails := fun _ => None |}.

Definition size_of (c : Cached) : result error Z := Ok 100.
Definition saves (w : nat) : option error := None.
Definition key_ok (e : Enrollment) : option error := None.
Definition enrolled : Enrollment := mkEnrollment "install" "acme" "https://plane.example".
Definition before : refresh_state := mkRefresh NoFile (Err (errors_New "no such file")) 0%nat.

Definition app : app_input :=
  mkApp catalog [owner] env_ "/home/ann/.state" (fun _ => Ok (Some enrolled)).
Definition validate (d : Document) : result RejectionError Effective :=
  app_Resolve order age_key no_env app (Some d).
Definition refreshed : Remote * refresh_state :=
  Refresh size_of saves key_ok validate (Some enrolled) "/home/ann/.state" 7 false before.
(** The next run has no network. *)
Definition again : Remote * refresh_state :=
  Refresh size_of saves key_ok validate (Some enrolled) "/home/ann/.state" 9 true refreshed.2.

Lemma again_ok :
  Refresh size_of saves key_ok validate (Some enrolled) "/home/ann/.state" 9 true refreshed.2 = (again.1, again.2).
Proof. apply surjective_pairing. Qed.
Lemma again_cached : rm_Origin refreshed.1 = OriginFetched /\ rm_Origin again.1 = OriginCached.
Proof. split; vm_compute; reflexivity. Qed.
#[local] Opaque Refresh refreshed again.

Lemma Refresh_whole_or_nothing_witness :
  rm_Origin refreshed.1 = OriginFetched /\ rm_Origin again.1 = OriginCached /\
  rm_Err again.1 <> None /\ rf_cache again.2 = rf_cache refreshed.2.
Proof.
  destruct again_cached as [E0 E]. split; [exact E0|]. split; [exact E|].
  destruct (Refresh_whole_or_nothing size_of saves key_ok validate (Some enrolled) "/home/ann/.state" 9 true
    refreshed.2 again.2 again.1 again_ok) as [H _].
  rewrite E in H. exact (conj (proj1 H) (proj1 (proj2 H))).
Defined.

Definition in_force : result error (Effective * string * Remote) * refresh_state :=
  resolve size_of saves key_ok order age_key no_env app 7 false before.
Definition force_of : Effective * string * Remote :=
  match in_force.1 with Ok x => x | Err _ => (e_alone, "", refreshed.1) end.

Lemma force_ok :
  resolve size_of saves key_ok order age_key no_env app 7 false before
  = (Ok (force_of.1.1, force_of.1.2, force_of.2), in_force.2).
Proof. vm_compute. reflexivity. Qed.

Lemma app_alone_ok : app_Resolve order age_key no_env app None = Ok e_alone.
Proof. vm_compute. reflexivity. Qed.
Lemma app_dirs_stated : Forall (fun d : string => d <> "") (stated_dirs (app_Layers app)).
Proof. constructor. Qed.
Lemma app_layers_local : Forall (fun ld => IsLocal (ld_Layer ld) = true) (app_Layers app).
Proof. repeat constructor. Qed.
#[local] Opaque resolve in_force force_of app_Resolve app_StateDir.


(** ** An empty [state_dir] *)

Definition blank : LayeredDocument :=
  mkLayered LayerUser (Some (mkDocument None None None None [] None None None None (Some "") [] ∅ None None)).
Definition app_blank : app_input := mkApp catalog [blank] env_ "/home/ann/.state" (fun _ => Ok None).

Definition e_blank : Effective := get (app_Resolve order age_key no_env app_blank None).
Lemma blank_ok : app_Resolve order age_key no_env app_blank None = Ok e_blank.
Proof. vm_compute. reflexivity. Qed.
Lemma blank_last : last (stated_dirs (app_Layers app_blank)) = Some "".
Proof. reflexivity. Qed.
Lemma blank_default : app_Default app_blank <> "".
Proof. discriminate. Qed.
#[local] Opaque e_blank.

Lemma empty_state_dir_splits_witness : eff_StateDir e_blank = "" /\ app_StateDir app_blank <> "".
Proof.
  exact (empty_state_dir_splits order age_key no_env app_blank e_blank blank_last blank_default blank_ok).
Defined.
End SampleConfig.
