(* ===== verification/Shipped.v ===== *)
(** The redaction engine in its place: [Walk]'s engine as the scrubber of [Manifest], and what leaves the
    machine when [FilePrep] runs on it. *)

From S2P Require Import Prelude GoLib Crypto GoTime Vocab StateDoc Naming Spec Manifest Schedule Heuristic Spans Upload FilePrep.
From S2P Require Exemptions Redact RedactSafe Walk WalkSafe ScrubSafe JsonText.

(** [Scrub] of a compiled engine; its bytes carry the mark [viaScrubber]. *)
Definition viaScrubber : string := "scrubber".
Definition engine_scrubber {u : GoUnicode} {log2 : MathLog2} (s : Redact.Scrubber) : Manifest.Scrubber := fun raw h =>
  match Walk.scrub_payload s raw (hint_Family h) (JSONL h) with
  | Ok r => Ok (mkScrubResult (mkScrubbed (Walk.res_Out r) viaScrubber) (Walk.res_BytesRedacted r) (Walk.res_BytesTotal r)
                  (Walk.RuleHits r) (Walk.ScanMode r))
  | Err e => Err e
  end.

(** [DefaultConfig], and [Options.scrubber]: the engine a run compiles from its plan. The configured key
    names come after the compiled ones; [structuralEx] are the plan's exemptions. *)
Definition DefaultConfig : Redact.Config :=
  Redact.mkScrubConfig ["gitleaks-core"; "quesma-extra"; "cloud-keys"; "generic-entropy"; "pii-core"]
    Exemptions.CompiledExemptions "" Redact.DefaultSecretKeyNames DefaultEntropyConfig CompiledDrops.
Definition run_scrubber {u : GoUnicode} {log2 : MathLog2} {corpora : Redact.Corpora}
    (range : gmap string (list string) -> list (string * list string)) (o : Options)
    (structuralEx : gmap string (list string)) : result Redact.scrub_error Redact.Scrubber :=
  Redact.New range
    (Redact.mkScrubConfig (RulePacks (o_Plan o)) structuralEx (user o)
       (Redact.cfg_SecretKeyNames DefaultConfig ++ SecretKeyNames (o_Plan o))
       (Redact.cfg_Entropy DefaultConfig) (Redact.cfg_Drops DefaultConfig)).

Section Shipped.
Context {u : GoUnicode} {log2 : MathLog2} {con : Container}.
Variables (engine : Redact.Scrubber) (o : Options) (src : Source) (disc : Discovery) (staging : bool).

(** C22: end to end, what leaves the machine of a file of JSON lines: the sealed container holds the
    file's lines in order, each as the redaction engine left it, under its own ending, and the manifest
    and the fingerprint speak of the bytes that were read. *)
Theorem shipped_lines job clk r pp :
  @prepareFile (engine_scrubber engine) con o src disc staging job clk = Some (r, Some pp) ->
  scrubs src = true -> jsonl_of src = true ->
  exists pl m json l,
    Load (cand job) = Ok pl /\ Walk.opaqueKind (Bytes pl) = "" /\
    Forall (ScrubSafe.line_scrubbed engine (Family src)) l /\
    Bytes pl = ScrubSafe.concat_lines ScrubSafe.ln_body l /\
    Encode m = Ok json /\
    writeContainer json (ScrubSafe.concat_lines ScrubSafe.ln_out l) (Some (pl_MTime pl)) (Recipients o) = Ok (obj pp) /\
    m_SourceHash m = sha256_hex (Bytes pl) /\
    ShippedHash m = sha256_hex (ScrubSafe.concat_lines ScrubSafe.ln_out l) /\
    SourceHash (next pp) = change_hash pl.
Proof.
  intros H Hs Hj. apply prepared_sealed in H as (pl & sc & json & m & H1 & H2 & _ & _ & H3 & H4 & H5 & H6 & _ & _ & _ & H7).
  rewrite Hs, Hj in H2. destruct H2 as [_ H2]. unfold Scrub, engine_scrubber in H2. cbn [hint_Family JSONL] in H2.
  destruct (Walk.scrub_payload engine (Bytes pl) (Family src) true) as [res|e] eqn:E; [|done]. injection H2 as <-.
  cbn [Out b] in *. destruct (ScrubSafe.payload_lines _ _ _ _ E) as (Hk & l & G1 & _ & G3 & G4 & _).
  rewrite G4 in *. by exists pl, m, json, l.
Qed.
End Shipped.

(** ** A concrete file *)

Module SampleShipped.
Import RedactSafe.SampleEngine SampleRun.
Definition text : string := ScrubSafe.SampleScrub.payload.
Definition jsonl_source : Source :=
  mkSource "a" "" None "files" "transcript" ["/home/ann/.a"] "" ["**"] [] 0 (Some (mkSniffSpec "jsonl" "" 0)) ∅ None None "" "claude-code".
Definition file_job : fileJob := mkFileJob 0 (candidate (Ok (mkPayload text (5 * second) "" None))) zero_fp false.
Definition prepared : option (fileResult * option pendingPut) :=
  @prepareFile (engine_scrubber RedactSafe.SampleEngine.engine) container (options false) jsonl_source disc false file_job clk.
Definition shipped : fileResult * pendingPut := Eval vm_compute in
  match prepared with
  | Some (r, Some pp) => (r, pp)
  | _ => (mkFileResult 0 zero_outcome no_intent None false false "", st_pending (sample_staged "" ""))
  end.
Lemma ships : @prepareFile (engine_scrubber RedactSafe.SampleEngine.engine) container (options false) jsonl_source disc false file_job clk
  = Some (shipped.1, Some shipped.2).
Proof. vm_compute. reflexivity. Qed.

Lemma shipped_lines_witness : exists pl l, Load (cand file_job) = Ok pl /\
  Bytes pl = ScrubSafe.concat_lines ScrubSafe.ln_body l /\
  Forall (ScrubSafe.line_scrubbed RedactSafe.SampleEngine.engine "claude-code") l.
Proof.
  destruct (shipped_lines RedactSafe.SampleEngine.engine (options false) jsonl_source disc false file_job clk
    shipped.1 shipped.2 ships eq_refl eq_refl) as (pl & m & json & l & H1 & _ & H2 & H3 & _).
  exists pl, l. exact (conj H1 (conj H3 H2)).
Defined.
End SampleShipped.
