(* ===== verification/FleetStore.v ===== *)
(** The fleet manager's durable state ([fleet-manager/src/store.go], [model.go], the record helpers of
    [manager.go]): the records, the keys they live under, the object store with its conditional
    writes, and the handlers' calls on it as programs that can be interleaved.

    A stored object is held decoded: [encodeRecord] followed by [strictDecode] gives a record back, and
    what does not decode is [SOther]. A version is opaque to the service, so it is modelled as the object
    that was read; the class [Provider] says when a store takes it for the current one, which covers
    generations (a new one per write) and ETags (a digest of the bytes). *)

From S2P Require Import Prelude GoLib Naming.

Create HintDb fleet.

Definition schemaVersion : Z := 1.

(** ** Records of model.go *)

Inductive InstallStatus := InstallPending | InstallActive | InstallRevoked.
#[global] Instance InstallStatus_eq_dec : EqDecision InstallStatus.
Proof. solve_decision. Defined.

Record InstallRecord := mkInstall {
  in_Schema : Z;
  in_Organization : string;
  in_InstallID : string;
  in_DevicePublicKey : string;
  in_AgeRecipient : string;
  in_Hostname : string;
  in_Platform : string;
  in_EnrollmentDigest : string;
  in_Status : InstallStatus;
  in_CreatedAt : Z;
  in_UpdatedAt : Z;
  in_RevokedAt : option Z;
}.

Record SeenRecord := mkSeen {
  se_Schema : Z;
  se_InstallID : string;
  se_OS : string;
  se_BootedAt : string;
  se_ClientVersion : string;
  se_LastConfigAt : option Z;
  se_LastVendAt : option Z;
  se_LastSeenAt : Z;
  se_CatalogDigest : string;
}.

Record TagsRecord := mkTags {
  ta_Schema : Z;
  ta_InstallID : string;
  ta_Name : string;
  ta_Metadata : gmap string string;
  ta_UpdatedAt : Z;
}.

Record GrantRecord := mkGrant {
  gr_Schema : Z;
  gr_ID : string;
  gr_SecretDigest : string;
  gr_ExpiresAt : Z;
  gr_CreatedAt : Z;
  gr_RevokedAt : option Z;
}.

Record InviteRecord := mkInvite {
  iv_Schema : Z;
  iv_ID : string;
  iv_SecretDigest : string;
  iv_ExpiresAt : Z;
  iv_CreatedAt : Z;
  iv_RevokedAt : option Z;
  iv_ReservedInstallID : string;
  iv_ReservedEnrollmentDigest : string;
  iv_ReservedAt : option Z;
  iv_SpentAt : option Z;
}.

Record PartnerCredentialRecord := mkPartner {
  pa_Schema : Z;
  pa_SecretDigest : string;
  pa_CreatedAt : Z;
  pa_RevokedAt : option Z;
}.

Record Fault := mkFault { fa_Kind : string; fa_Message : string; fa_At : string; fa_RunID : string }.

Record HealthRecord := mkHealth {
  he_Schema : Z;
  he_InstallID : string;
  he_ReportedAt : Z;
  he_Consecutive : Z;
  he_Faults : list Fault;
}.

#[global] Instance InstallRecord_eq_dec : EqDecision InstallRecord.
Proof. solve_decision. Defined.
#[global] Instance SeenRecord_eq_dec : EqDecision SeenRecord.
Proof. solve_decision. Defined.
#[global] Instance TagsRecord_eq_dec : EqDecision TagsRecord.
Proof. solve_decision. Defined.
#[global] Instance GrantRecord_eq_dec : EqDecision GrantRecord.
Proof. solve_decision. Defined.
#[global] Instance InviteRecord_eq_dec : EqDecision InviteRecord.
Proof. solve_decision. Defined.
#[global] Instance PartnerCredentialRecord_eq_dec : EqDecision PartnerCredentialRecord.
Proof. solve_decision. Defined.
#[global] Instance Fault_eq_dec : EqDecision Fault.
Proof. solve_decision. Defined.
#[global] Instance HealthRecord_eq_dec : EqDecision HealthRecord.
Proof. solve_decision. Defined.

(** ** Keys *)

Definition controlPrefix (org : string) : string := "v1/organization=" +:+ org +:+ "/control/".
Definition configKey (org : string) : string := controlPrefix org +:+ "config.json".
Definition partnerCredentialKey (org : string) : string :=
  controlPrefix org +:+ "partner/credential.json".
Definition installKey (org id : string) : string :=
  controlPrefix org +:+ "installs/" +:+ id +:+ ".json".
Definition grantKey (org id : string) : string :=
  controlPrefix org +:+ "grants/" +:+ id +:+ ".json".
Definition seenKey (org id : string) : string := controlPrefix org +:+ "seen/" +:+ id +:+ ".json".
Definition catalogKey (org digest : string) : string :=
  controlPrefix org +:+ "catalogs/" +:+ digest +:+ ".json".
Definition healthKey (org id : string) : string :=
  controlPrefix org +:+ "health/" +:+ id +:+ ".json".
Definition inviteKey (org id : string) : string :=
  controlPrefix org +:+ "invites/" +:+ id +:+ ".json".
Definition tagsKey (org id : string) : string :=
  "v1/organization=" +:+ org +:+ "/install=" +:+ id +:+ "/tags.json".

(** ** The object store (store.go) *)

(** Decoded objects. That [strictDecode] of what [encodeRecord] wrote is the record, is [encoding/json]'s
    documented behaviour for these structs and is taken as such; a record the service reads but did not
    write decodes to one of these or is [SOther]. *)
Inductive stored :=
  | SGrant (r : GrantRecord)
  | SInvite (r : InviteRecord)
  | SInstall (r : InstallRecord)
  | SSeen (r : SeenRecord)
  | STags (r : TagsRecord)
  | SHealth (r : HealthRecord)
  | SPartner (r : PartnerCredentialRecord)
  | SOther (raw : string).
#[global] Instance stored_eq_dec : EqDecision stored.
Proof. solve_decision. Defined.

Record object := mkObject { generation : Z; body : stored }.
#[global] Instance object_eq_dec : EqDecision object.
Proof. solve_decision. Defined.

Record store := mkStore { objects : gmap string object; writes : Z }.

Inductive ferror :=
  | ErrForbidden
  | ErrEnrollmentConflict
  | ErrUnknownInstall
  | ErrRevokedInstall
  | ErrNotFound
  | ErrConflict
  | ErrTooLarge
  | EText (msg : string).
#[global] Instance ferror_eq_dec : EqDecision ferror.
Proof. solve_decision. Defined.

(** When a provider takes the version a caller read for the one it holds. *)
Class Provider := {
  same_version : object -> object -> bool;
  same_version_refl o : same_version o o = true;
  same_version_body v o : same_version v o = true -> body v = body o;
}.

Section Ops.
Context `{!Provider}.

Definition store_put (key : string) (b : stored) (s : store) : store :=
  mkStore (<[key := mkObject (writes s) b]> (objects s)) (writes s + 1).

Definition store_Get (key : string) (s : store) : result ferror object :=
  match objects s !! key with Some o => Ok o | None => Err ErrNotFound end.

Inductive write :=
  | WCreate (key : string) (b : stored)
  | WReplace (key : string) (version : object) (b : stored)
  | WPut (key : string) (b : stored).

(** A write and its precondition: a key that is absent, a version that is current. *)
Definition admits (w : write) (s : store) : bool :=
  match w with
  | WCreate key _ => bool_decide (objects s !! key = None)
  | WReplace key v _ =>
      match objects s !! key with Some o => same_version v o | None => false end
  | WPut _ _ => true
  end.
Definition applied (w : write) (s : store) : store :=
  match w with WCreate key b | WReplace key _ b | WPut key b => store_put key b s end.

(** ** Handlers as programs over the store

    [Again] is the tail call of a handler on its own arguments. *)
Inductive prog (A : Type) :=
  | Ret (a : A)
  | Get (key : string) (k : result ferror object -> prog A)
  | List_ (prefix : string) (k : result ferror (list string) -> prog A)
  | Write (w : write) (k : result ferror () -> prog A)
  | Now (k : Z -> prog A)
  | Again.
Arguments Ret {A} a.
Arguments Get {A} key k.
Arguments List_ {A} prefix k.
Arguments Write {A} w k.
Arguments Now {A} k.
Arguments Again {A}.

Definition outcome := result ferror ().

Definition keys_under (prefix : string) (s : store) : list string :=
  merge_sort (fun a b => Is_true (str_leb a b))
    (filter (fun k => Is_true (has_prefix prefix k)) (map_to_list (objects s)).*1).

(** One request alone on a store that answers, at one reading of the clock. A handler that asks for
    itself again is out of the turn it was given. *)
Fixpoint run {A} (now : Z) (p : prog A) (s : store) : option A * store :=
  match p with
  | Ret a => (Some a, s)
  | Get key k => run now (k (store_Get key s)) s
  | List_ prefix k => run now (k (Ok (keys_under prefix s))) s
  | Write w k =>
      if admits w s then run now (k (Ok ())) (applied w s) else run now (k (Err ErrConflict)) s
  | Now k => run now (k now) s
  | Again => (None, s)
  end.

(** What a store may answer. A read can fail; a write can be refused although its precondition holds
    (a provider reports concurrent conditional writes as a conflict), and it can be applied while the
    caller is told that it failed, or, after the client library retried it, that it conflicted. *)
Inductive read_answer (s : store) (key : string) : result ferror object -> Prop :=
  | read_now : read_answer s key (store_Get key s)
  | read_failed e : e <> ErrNotFound -> read_answer s key (Err e).
Inductive write_answer (s : store) (w : write) : result ferror () -> store -> Prop :=
  | write_applied : admits w s = true -> write_answer s w (Ok ()) (applied w s)
  | write_lost e : admits w s = true -> write_answer s w (Err e) (applied w s)
  | write_refused e : write_answer s w (Err e) s.

Fixpoint prog_map {A B} (f : A -> B) (p : prog A) : prog B :=
  match p with
  | Ret a => Ret (f a)
  | Get key k => Get key (fun r => prog_map f (k r))
  | List_ prefix k => List_ prefix (fun r => prog_map f (k r))
  | Write w k => Write w (fun r => prog_map f (k r))
  | Now k => Now (fun t => prog_map f (k t))
  | Again => Again
  end.

Fixpoint prog_bind {A B} (p : prog A) (f : A -> prog B) : prog B :=
  match p with
  | Ret a => f a
  | Get key k => Get key (fun r => prog_bind (k r) f)
  | List_ prefix k => List_ prefix (fun r => prog_bind (k r) f)
  | Write w k => Write w (fun r => prog_bind (k r) f)
  | Now k => Now (fun t => prog_bind (k t) f)
  | Again => Again
  end.

(** One step of a request whose handler is [p0]. *)
Inductive step {A} (p0 : prog A) : prog A * store -> prog A * store -> Prop :=
  | step_get key k s r : read_answer s key r -> step p0 (Get key k, s) (k r, s)
  | step_list prefix k s : step p0 (List_ prefix k, s) (k (Ok (keys_under prefix s)), s)
  | step_list_failed prefix k s e : step p0 (List_ prefix k, s) (k (Err e), s)
  | step_write w k s r s' : write_answer s w r s' -> step p0 (Write w k, s) (k r, s')
  | step_now k s t : step p0 (Now k, s) (k t, s)
  | step_again s : step p0 (Again, s) (p0, s).

(** ** Decoding helpers of manager.go *)

Definition bind_ret {A B} (r : result ferror A) (k : A -> prog (result ferror B)) :
    prog (result ferror B) :=
  match r with Ok a => k a | Err e => Ret (Err e) end.

Definition decoded {T} (dec : stored -> option T) (key : string) (o : object) :
    result ferror (T * object) :=
  match dec (body o) with
  | Some t => Ok (t, o)
  | None => Err (EText ("decode " +:+ key))
  end.

Definition getRecord {T A} (dec : stored -> option T) (key : string)
    (k : result ferror (T * object) -> prog A) : prog A :=
  Get key (fun r => k (let! o := r in decoded dec key o)).

Definition createRecord {A} (key : string) (b : stored) (k : result ferror () -> prog A) : prog A :=
  Write (WCreate key b) k.
Definition replaceRecord {A} (key : string) (version : object) (b : stored)
    (k : result ferror () -> prog A) : prog A :=
  Write (WReplace key version b) k.

End Ops.

Arguments Ret {A} a.
Arguments Get {A} key k.
Arguments List_ {A} prefix k.
Arguments Write {A} w k.
Arguments Now {A} k.
Arguments Again {A}.

Definition as_grant (b : stored) : option GrantRecord := match b with SGrant r => Some r | _ => None end.
Definition as_invite (b : stored) : option InviteRecord := match b with SInvite r => Some r | _ => None end.
Definition as_install (b : stored) : option InstallRecord :=
  match b with SInstall r => Some r | _ => None end.
Definition as_seen (b : stored) : option SeenRecord := match b with SSeen r => Some r | _ => None end.
Definition as_tags (b : stored) : option TagsRecord := match b with STags r => Some r | _ => None end.
Definition as_health (b : stored) : option HealthRecord :=
  match b with SHealth r => Some r | _ => None end.
Definition as_partner (b : stored) : option PartnerCredentialRecord :=
  match b with SPartner r => Some r | _ => None end.

(** ** The two kinds of provider *)

(** A generation is new on every write. *)
Program Definition generations : Provider := {| same_version v o := bool_decide (v = o) |}.
Next Obligation. intros o. by apply bool_decide_eq_true. Qed.
Next Obligation. intros v o H. apply bool_decide_eq_true in H. by subst. Qed.

(** An ETag is the same for the same bytes. *)
Program Definition etags : Provider := {| same_version v o := bool_decide (body v = body o) |}.
Next Obligation. intros o. by apply bool_decide_eq_true. Qed.
Next Obligation. intros v o H. by apply bool_decide_eq_true in H. Qed.

(** ** Keys keep records apart *)

Lemma app_inj_r (a b c : string) : a +:+ c = b +:+ c -> a = b.
Proof.
  intros H. pose proof (proj2 (cut_suffix_spec c (b +:+ c) b) eq_refl) as Hb.
  rewrite <- H, (proj2 (cut_suffix_spec c (a +:+ c) a) eq_refl) in Hb. by injection Hb.
Qed.

Lemma keys_inj (p org id id' : string) : p +:+ id +:+ ".json" = p +:+ id' +:+ ".json" -> id = id'.
Proof. intros H. apply (inj (String.append p)) in H. by apply app_inj_r in H. Qed.

Lemma installKey_inj org id id' : installKey org id = installKey org id' -> id = id'.
Proof. intros H. apply (inj (String.append _)) in H. by apply (keys_inj _ org) in H. Qed.
Lemma inviteKey_inj org id id' : inviteKey org id = inviteKey org id' -> id = id'.
Proof. intros H. apply (inj (String.append _)) in H. by apply (keys_inj _ org) in H. Qed.
Lemma invite_install_keys org id id' : inviteKey org id <> installKey org id'.
Proof. intros H. apply (inj (String.append _)) in H. discriminate H. Qed.
#[export] Hint Resolve invite_install_keys not_eq_sym : fleet.
