(* ===== verification/FleetToken.v ===== *)
(** The fleet manager's tokens and identifiers ([fleet-manager/src/model.go], [manager.go],
    [admin_http.go]): organization slugs, UUIDs, invite and grant tokens, the credentials of the admin
    API. What is random (a UUID, 32 secret bytes) is an argument. *)

From S2P Require Import Prelude GoLib Redact Crypto Naming GoUrl.

(** ** [EncodeToString] of [encoding/base64] *)

Definition alphabet (e : Encoding) : string :=
  "ABCDEFGHIJKLMNOPQRSTUVWXYZabcdefghijklmnopqrstuvwxyz0123456789" +:+ (if url_alphabet e then "-_" else "+/").
Definition sextet_char (e : Encoding) (n : Z) : ascii :=
  default "A"%char (String.get (Z.to_nat n) (alphabet e)).

Fixpoint encode_groups (e : Encoding) (l : list Z) : string :=
  let c n := sextet_char e n in
  match l with
  | [] => ""
  | [x] =>
      String (c (Z.shiftr x 2)) (String (c (Z.shiftl (Z.land x 3) 4)) (if padded e then "==" else ""))
  | [x; y] =>
      String (c (Z.shiftr x 2)) (String (c (Z.lor (Z.shiftl (Z.land x 3) 4) (Z.shiftr y 4)))
        (String (c (Z.shiftl (Z.land y 15) 2)) (if padded e then "=" else "")))
  | x :: y :: z :: r =>
      String (c (Z.shiftr x 2)) (String (c (Z.lor (Z.shiftl (Z.land x 3) 4) (Z.shiftr y 4)))
        (String (c (Z.lor (Z.shiftl (Z.land y 15) 2) (Z.shiftr z 6))) (String (c (Z.land z 63))
          (encode_groups e r))))
  end.
Definition EncodeToString (e : Encoding) (l : list Z) : string := encode_groups e l.

(** ** Identifiers *)

(** [orgPattern], [^[a-z0-9][a-z0-9._-]{0,63}$]. *)
Definition orgPattern (s : string) : bool := identifierRe s.

Definition hex_any (c : ascii) : bool := is_digit c || in_range "a" "f" c || in_range "A" "F" c.
Definition uuid_dash (i : nat) : bool := bool_decide (i ∈ [8; 13; 18; 23]%nat).
Definition uuid_shape (l : list ascii) : bool :=
  forallb id (imap (fun i c => if uuid_dash i then (c =? "-")%char else hex_any c) l).

(** [uuidParse]: the lower-case form of a 36-byte UUID. A byte that starts a longer rune is no digit. *)
Definition uuidParse (value : string) : option string :=
  if negb (slen value =? 36) then None
  else if uuid_shape (list_ascii_of_string value) then Some (to_lower value) else None.

(** ** Tokens *)

Definition secret_digest (secret : list Z) : list Z := Sha256.digest secret.

(** [mintToken] for the UUID and the secret drawn: the token, its id and the digest on record. *)
Definition mintToken (prefix uuid : string) (secret : list Z) : string * string * string :=
  (prefix +:+ uuid +:+ "." +:+ EncodeToString RawURLEncoding secret, uuid,
   EncodeToString RawURLEncoding (secret_digest secret)).

Definition verifyToken (token prefix id digest : string) : bool :=
  if negb (has_prefix prefix token) then false
  else
    let '(tokenID, secretText, ok) := Url.cut_byte "." (trim_prefix prefix token) in
    if negb ok || negb (tokenID =? id)%string then false
    else
      match DecodeString RawURLEncoding secretText, DecodeString RawURLEncoding digest with
      | Some secret, Some want =>
          if negb (slen secret =? 32) || negb (slen want =? 32) then false
          else bool_decide (secret_digest (Sha256.bytes_of secret) = Sha256.bytes_of want)
      | _, _ => false
      end.

Definition token_head : string := "fmi2.".
Definition token_prefix (org : string) : string := token_head +:+ org +:+ ".".

(** [organizationToken]: the organization and the id a token names. *)
Definition organizationToken (token : string) : option (string * string) :=
  if negb (has_prefix token_head token) then None
  else
    '(beforeSecret, _) ← Url.cut_last "." (trim_prefix token_head token);
    '(org, id) ← Url.cut_last "." beforeSecret;
    if negb (orgPattern org) then None
    else parsed ← uuidParse id; if (parsed =? id)%string then Some (org, id) else None.

(** ** Credentials of the admin API (admin_http.go) *)

Definition adminPrefix : string := "fma1.".
Definition reporterPrefix : string := "fmr1.".
Definition partnerPrefix : string := "fmp1.".

Definition wellFormedCredential (value prefix : string) : bool :=
  if negb (has_prefix prefix value) then false
  else
    let secret := trim_prefix prefix value in
    match DecodeString RawURLEncoding secret with
    | Some raw => slen raw =? 32
    | None => match DecodeString URLEncoding secret with Some raw => slen raw =? 32 | None => false end
    end.

Definition hex_digit_value (c : ascii) : option Z :=
  if is_digit c then Some (byte_code c - 48)
  else if in_range "a" "f" c then Some (byte_code c - 87)
  else if in_range "A" "F" c then Some (byte_code c - 55)
  else None.
Fixpoint hex_DecodeString (s : string) : option (list Z) :=
  match s with
  | "" => Some []
  | String a (String b r) =>
      x ← hex_digit_value a; y ← hex_digit_value b; t ← hex_DecodeString r; Some (16 * x + y :: t)
  | String _ "" => None
  end.

Inductive credential_error := UnsupportedSchema | InvalidDigest.

(** [matchesDigest]. *)
Definition matchesDigest (credential : string) (schema : Z) (digest : string) :
    result credential_error bool :=
  if negb (schema =? 1) then Err UnsupportedSchema
  else
    match hex_DecodeString digest with
    | Some want =>
        if negb (Zlen want =? 32) || negb (digest =? to_lower digest)%string then Err InvalidDigest
        else Ok (bool_decide (Sha256.digest (Sha256.bytes_of credential) = want))
    | None => Err InvalidDigest
    end.

(** ** Facts *)

Example uuid_forms :
  (uuidParse "9F8B2C1A-0000-4000-8000-0123456789AB", uuidParse "9f8b2c1a-0000-4000-8000-0123456789a",
   uuidParse "9f8b2c1a00000-4000-8000-0123456789ab")
  = (Some "9f8b2c1a-0000-4000-8000-0123456789ab", None, None).
Proof. vm_compute. reflexivity. Qed.

Lemma uuidParse_lower v p : uuidParse v = Some p -> p = to_lower v.
Proof. unfold uuidParse. repeat case_match; congruence. Qed.

(** Base64 and tokens: what [EncodeToString] writes [DecodeString] reads back, so the token an admin is
    given is the one its record verifies, and the credential a device signs with survives the header. *)

(** ** Sextets *)

Definition encodings : list Encoding := [StdEncoding; RawStdEncoding; URLEncoding; RawURLEncoding].

Lemma encodings_all (P : Encoding -> Prop) : Forall P encodings -> forall e, P e.
Proof.
  unfold encodings. rewrite !Forall_cons. intros (H1 & H2 & H3 & H4 & _) [[] []]; assumption.
Qed.

Definition sextet_ok (e : Encoding) (n : nat) : bool :=
  let c := sextet_char e (Z.of_nat n) in
  bool_decide (sextet e c = Some (Z.of_nat n)) && negb (c =? "010")%char && negb (c =? "013")%char
  && negb (c =? ".")%char && negb (c =? ",")%char && negb (is_space c) && (byte_code c <? 128).

Lemma sextets_ok e n : 0 <= n < 64 -> sextet_ok e (Z.to_nat n) = true.
Proof.
  intros Hn. assert (forallb (sextet_ok e) (seq 0 64) = true) as H.
  { revert e. apply encodings_all. repeat constructor; vm_compute; reflexivity. }
  rewrite List.forallb_forall in H. apply H. apply List.in_seq. lia.
Qed.

Lemma sextet_of_char e n : 0 <= n < 64 -> sextet e (sextet_char e n) = Some n.
Proof.
  intros Hn. pose proof (sextets_ok e n Hn) as H. unfold sextet_ok in H. boolp.
  rewrite Z2Nat.id in * by lia. done.
Qed.

(** The bytes base64 text is made of. *)
Definition text_byte (c : ascii) : bool :=
  negb (c =? "010")%char && negb (c =? "013")%char && negb (c =? ".")%char && negb (c =? ",")%char && negb (is_space c) && (byte_code c <? 128).

Lemma sextet_text e n : 0 <= n < 64 -> text_byte (sextet_char e n) = true.
Proof.
  intros Hn. pose proof (sextets_ok e n Hn) as H. unfold sextet_ok in H. rewrite Z2Nat.id in H by lia.
  unfold text_byte. rewrite !andb_true_iff in *. naive_solver.
Qed.

(** ** Bits *)

Lemma lor_add a b n : 0 <= n -> 0 <= b < 2 ^ n -> Z.lor (Z.shiftl a n) b = a * 2 ^ n + b.
Proof.
  intros Hn Hb. assert (Z.land (Z.shiftl a n) b = 0) as Hd.
  { apply Z.bits_inj'. intros i Hi. rewrite Z.land_spec, Z.shiftl_spec, Z.bits_0 by done.
    destruct (Z.ltb_spec i n); [rewrite Z.testbit_neg_r by lia; done|].
    rewrite <- (Z.mod_small b (2 ^ n)) by done. rewrite Z.mod_pow2_bits_high by lia. apply andb_false_r. }
  rewrite <- Z.lxor_lor, <- Z.add_nocarry_lxor by done. by rewrite Z.shiftl_mul_pow2.
Qed.

Lemma land_ones n x : 0 <= n -> Z.land x (2 ^ n - 1) = x mod 2 ^ n.
Proof. intros Hn. rewrite <- Z.land_ones by done. f_equal. rewrite Z.ones_equiv. lia. Qed.

Lemma shiftr_div n x : 0 <= n -> Z.shiftr x n = x / 2 ^ n.
Proof. apply Z.shiftr_div_pow2. Qed.

Ltac bits :=
  rewrite ?(land_ones 2), ?(land_ones 4), ?(land_ones 6), ?(land_ones 8), ?(shiftr_div 2), ?(shiftr_div 4),
    ?(shiftr_div 6), ?(shiftr_div 8), ?(shiftr_div 16) in * by lia;
  change (2 ^ 2) with 4 in *; change (2 ^ 4) with 16 in *; change (2 ^ 6) with 64 in *;
  change (2 ^ 8) with 256 in *; change (2 ^ 16) with 65536 in *.

(** The four sextets of three bytes, and the value their decoding works on. *)
Definition sextets (x y z : Z) : Z * Z * Z * Z :=
  (Z.shiftr x 2, Z.lor (Z.shiftl (Z.land x 3) 4) (Z.shiftr y 4),
   Z.lor (Z.shiftl (Z.land y 15) 2) (Z.shiftr z 6), Z.land z 63).

Definition is_byte (x : Z) : Prop := 0 <= x < 256.

Lemma sextets_value x y z a b c d :
  is_byte x -> is_byte y -> is_byte z -> sextets x y z = (a, b, c, d) ->
  a = x / 4 /\ b = (x mod 4) * 16 + y / 16 /\ c = (y mod 16) * 4 + z / 64 /\ d = z mod 64.
Proof.
  unfold sextets, is_byte. intros Hx Hy Hz [= <- <- <- <-].
  change 3 with (2 ^ 2 - 1). change 15 with (2 ^ 4 - 1). change 63 with (2 ^ 6 - 1). bits.
  assert (0 <= y / 16 < 16) by (split; [apply Z.div_pos; lia|apply Z.div_lt_upper_bound; lia]).
  assert (0 <= z / 64 < 4) by (split; [apply Z.div_pos; lia|apply Z.div_lt_upper_bound; lia]).
  rewrite !lor_add by (try lia; simpl; lia). done.
Qed.

Lemma sextets_range x y z a b c d :
  is_byte x -> is_byte y -> is_byte z -> sextets x y z = (a, b, c, d) ->
  0 <= a < 64 /\ 0 <= b < 64 /\ 0 <= c < 64 /\ 0 <= d < 64.
Proof.
  intros Hx Hy Hz H. destruct (sextets_value _ _ _ _ _ _ _ Hx Hy Hz H) as (-> & -> & -> & ->). unfold is_byte in *.
  pose proof (Z.mod_pos_bound x 4 ltac:(lia)). pose proof (Z.mod_pos_bound y 16 ltac:(lia)).
  pose proof (Z.mod_pos_bound z 64 ltac:(lia)).
  assert (0 <= x / 4 < 64) by (split; [apply Z.div_pos; lia|apply Z.div_lt_upper_bound; lia]).
  assert (0 <= y / 16 < 16) by (split; [apply Z.div_pos; lia|apply Z.div_lt_upper_bound; lia]).
  assert (0 <= z / 64 < 4) by (split; [apply Z.div_pos; lia|apply Z.div_lt_upper_bound; lia]).
  lia.
Qed.

(** The text of a byte list. *)
Definition bytes_text (l : list Z) : string := string_of_list_ascii (map byte_of l).

Lemma group_of_sextets x y z a b c d n :
  is_byte x -> is_byte y -> is_byte z -> sextets x y z = (a, b, c, d) ->
  group_bytes n a b c d = bytes_text (take n [x; y; z]).
Proof.
  intros Hx Hy Hz H. destruct (sextets_range _ _ _ _ _ _ _ Hx Hy Hz H) as (Ha & Hb & Hc & Hd).
  destruct (sextets_value _ _ _ _ _ _ _ Hx Hy Hz H) as (Ea & Eb & Ec & Ed). unfold is_byte in *.
  unfold group_bytes, bytes_text. rewrite <- firstn_map. do 2 f_equal. cbn [map].
  set (v := Z.lor _ _). assert (v = x * 65536 + y * 256 + z) as ->.
  { unfold v. rewrite <- Z.lor_assoc.
    rewrite (lor_add c d 6) by (simpl; lia). rewrite (lor_add b _ 12) by (simpl; lia).
    rewrite lor_add by (simpl; lia). change (2 ^ 18) with 262144. change (2 ^ 12) with 4096. change (2 ^ 6) with 64.
    pose proof (Z.div_mod x 4 ltac:(lia)). pose proof (Z.div_mod y 16 ltac:(lia)). pose proof (Z.div_mod z 64 ltac:(lia)).
    lia. }
  change 255 with (2 ^ 8 - 1). bits.
  replace ((x * 65536 + y * 256 + z) / 65536) with x by (apply Z.div_unique with (y * 256 + z); lia).
  replace ((x * 65536 + y * 256 + z) / 256) with (x * 256 + y) by (apply Z.div_unique with z; lia).
  replace ((x * 256 + y) mod 256) with y by (apply Z.mod_unique with x; lia).
  replace ((x * 65536 + y * 256 + z) mod 256) with z by (apply Z.mod_unique with (x * 256 + y); lia).
  done.
Qed.

(** ** The round trip *)

Lemma bytes_text_app a b : bytes_text (a ++ b) = bytes_text a +:+ bytes_text b.
Proof. induction a as [|x a IH]; [done|]. simpl. unfold bytes_text in *. simpl. by rewrite IH. Qed.

Lemma list_ind3 {A} (P : list A -> Prop) :
  P [] -> (forall x, P [x]) -> (forall x y, P [x; y]) -> (forall x y z r, P r -> P (x :: y :: z :: r)) -> forall l, P l.
Proof.
  intros H0 H1 H2 H3. fix F 1. intros [|x [|y [|z r]]]; [exact H0|apply H1|apply H2|apply H3, F].
Qed.

Lemma group_sextets e x y z a b c d :
  is_byte x -> is_byte y -> is_byte z -> sextets x y z = (a, b, c, d) ->
  sextet e (sextet_char e a) = Some a /\ sextet e (sextet_char e b) = Some b
  /\ sextet e (sextet_char e c) = Some c /\ sextet e (sextet_char e d) = Some d.
Proof.
  intros Hx Hy Hz H. destruct (sextets_range _ _ _ _ _ _ _ Hx Hy Hz H) as (Ha & Hb & Hc & Hd).
  by rewrite !sextet_of_char.
Qed.

Lemma pad_no_sextet e : sextet e "=" = None.
Proof. revert e. apply encodings_all. repeat constructor. Qed.

Lemma decode_encode_groups e l fuel :
  Forall is_byte l -> (String.length (encode_groups e l) < fuel)%nat ->
  decode_groups e fuel (encode_groups e l) = Some (bytes_text l).
Proof.
  revert fuel. induction l as [|x|x y|x y z r IH] using list_ind3; intros [|fuel] Hb Hf; try lia.
  - done.
  - apply Forall_cons in Hb as [Hx _].
    destruct (sextets x 0 0) as [[[a b] c] d] eqn:E. assert (is_byte 0) as H0 by (unfold is_byte; lia).
    destruct (group_sextets e _ _ _ _ _ _ _ Hx H0 H0 E) as (Sa & Sb & _).
    pose proof (group_of_sextets _ _ _ _ _ _ _ 1 Hx H0 H0 E) as G. unfold sextets in E. injection E as Ea Eb Ec Ed.
    rewrite Z.lor_0_r in Eb. vm_compute in Ec, Ed. subst c d. cbn [encode_groups decode_groups]. rewrite Ea, Eb, Sa, Sb.
    destruct (padded e) eqn:Hp.
    + rewrite pad_no_sextet. unfold is_pad. rewrite Hp. cbn -[group_bytes]. by rewrite G.
    + by rewrite G.
  - apply Forall_cons in Hb as [Hx [Hy _]%Forall_cons].
    destruct (sextets x y 0) as [[[a b] c] d] eqn:E. assert (is_byte 0) as H0 by (unfold is_byte; lia).
    destruct (group_sextets e _ _ _ _ _ _ _ Hx Hy H0 E) as (Sa & Sb & Sc & _).
    pose proof (group_of_sextets _ _ _ _ _ _ _ 2 Hx Hy H0 E) as G. unfold sextets in E. injection E as Ea Eb Ec Ed.
    rewrite Z.lor_0_r in Ec. vm_compute in Ed. subst d. cbn [encode_groups decode_groups]. rewrite Ea, Eb, Ec, Sa, Sb, Sc.
    destruct (padded e) eqn:Hp.
    + rewrite pad_no_sextet. unfold is_pad. rewrite Hp. cbn -[group_bytes]. by rewrite G.
    + by rewrite G.
  - apply Forall_cons in Hb as [Hx [Hy [Hz Hr]%Forall_cons]%Forall_cons].
    destruct (sextets x y z) as [[[a b] c] d] eqn:E.
    destruct (group_sextets e _ _ _ _ _ _ _ Hx Hy Hz E) as (Sa & Sb & Sc & Sd).
    pose proof (group_of_sextets _ _ _ _ _ _ _ 3 Hx Hy Hz E) as G. unfold sextets in E. injection E as Ea Eb Ec Ed.
    cbn [encode_groups decode_groups] in *. rewrite Ea, Eb, Ec, Ed in *. rewrite Sa, Sb, Sc, Sd.
    rewrite IH by (done || simpl in Hf; lia). rewrite G.
    change (x :: y :: z :: r) with ([x; y; z] ++ r). by rewrite bytes_text_app.
Qed.

Lemma encode_groups_text e l :
  Forall is_byte l -> str_forallb (fun c => text_byte c || (c =? "=")%char) (encode_groups e l) = true.
Proof.
  assert (is_byte 0) as H0 by (unfold is_byte; lia).
  induction l as [|x|x y|x y z r IH] using list_ind3; intros Hb; [done|..].
  - apply Forall_cons in Hb as [Hx _]. destruct (sextets x 0 0) as [[[a b] c] d] eqn:E.
    destruct (sextets_range _ _ _ _ _ _ _ Hx H0 H0 E) as (Ha & Hb & _). unfold sextets in E. injection E as Ea Eb _ _.
    rewrite Z.lor_0_r in Eb. cbn [encode_groups str_forallb]. rewrite Ea, Eb, !sextet_text by done.
    by destruct (padded e).
  - apply Forall_cons in Hb as [Hx [Hy _]%Forall_cons]. destruct (sextets x y 0) as [[[a b] c] d] eqn:E.
    destruct (sextets_range _ _ _ _ _ _ _ Hx Hy H0 E) as (Ha & Hb & Hc & _). unfold sextets in E.
    injection E as Ea Eb Ec _. rewrite Z.lor_0_r in Ec. cbn [encode_groups str_forallb].
    rewrite Ea, Eb, Ec, !sextet_text by done. by destruct (padded e).
  - apply Forall_cons in Hb as [Hx [Hy [Hz Hr]%Forall_cons]%Forall_cons].
    destruct (sextets x y z) as [[[a b] c] d] eqn:E.
    destruct (sextets_range _ _ _ _ _ _ _ Hx Hy Hz E) as (Ha & Hb & Hc & Hd). unfold sextets in E.
    injection E as Ea Eb Ec Ed. cbn [encode_groups str_forallb]. rewrite Ea, Eb, Ec, Ed, !sextet_text, IH by done. done.
Qed.

Lemma skip_newlines_id s :
  str_forallb (fun c => text_byte c || (c =? "=")%char) s = true -> skip_newlines s = s.
Proof.
  induction s as [|c s IH]; [done|]. cbn [str_forallb skip_newlines]. intros [Hc Hs]%andb_true_iff.
  rewrite (IH Hs). destruct (Ascii.eqb_spec c "010") as [->|_]; [done|].
  by destruct (Ascii.eqb_spec c "013") as [->|_].
Qed.

Lemma decode_encode e l : Forall is_byte l -> DecodeString e (EncodeToString e l) = Some (bytes_text l).
Proof.
  intros Hl. unfold DecodeString, EncodeToString. rewrite skip_newlines_id by by apply encode_groups_text.
  apply decode_encode_groups; [done|lia].
Qed.

(** ** Tokens *)

Lemma bytes_of_text l : Forall is_byte l -> Sha256.bytes_of (bytes_text l) = l.
Proof.
  induction 1 as [|x l Hx _ IH]; [done|]. unfold bytes_text, Sha256.bytes_of in *. cbn. by rewrite IH, byte_code_of.
Qed.

Lemma slen_text l : slen (bytes_text l) = Zlen l.
Proof. unfold slen, Zlen, bytes_text. induction l as [|x l IH]; [done|]. simpl. lia. Qed.

Lemma digest_bytes m : Forall is_byte (Sha256.digest m) /\ Zlen (Sha256.digest m) = 32.
Proof.
  split.
  - unfold Sha256.digest. apply Forall_join, Forall_map, Forall_true. intros w.
    generalize 4%nat. induction n as [|n IH]; simpl; constructor; [|done]. unfold is_byte.
    change 255 with (2 ^ 8 - 1). rewrite land_ones by lia. apply Z.mod_pos_bound. lia.
  - pose proof (digest_hex_ok m) as H. unfold sha256_ok in H. boolp.
    match goal with H : slen _ = 64 |- _ => rewrite hex_encode_length in H end. lia.
Qed.

Lemma has_prefix_app p s : has_prefix p (p +:+ s) = true.
Proof. apply has_prefix_spec. eauto. Qed.
Lemma trim_prefix_app p s : trim_prefix p (p +:+ s) = s.
Proof. unfold trim_prefix. by rewrite has_prefix_app, str_drop_app. Qed.

Lemma cut_byte_spec sep s a b : Url.cut_byte sep s = (a, b, true) -> s = a +:+ String sep b.
Proof.
  revert a b. induction s as [|c s IH]; cbn [Url.cut_byte]; intros a b H; [done|].
  destruct (Ascii.eqb_spec c sep) as [->|]; [by injection H as <- <-|].
  destruct (Url.cut_byte sep s) as [[a' b'] ok]. injection H as <- <- ->. by rewrite (IH _ _ eq_refl).
Qed.

Lemma cut_byte_app sep a b : no_byte sep a = true -> Url.cut_byte sep (a +:+ String sep b) = (a, b, true).
Proof.
  unfold no_byte. induction a as [|c a IH]; cbn [String.append Url.cut_byte str_forallb].
  - intros _. by rewrite Ascii.eqb_refl.
  - intros [Hc Ha]%andb_true_iff. apply negb_true_iff in Hc. by rewrite Hc, (IH Ha).
Qed.

Lemma no_byte_rev sep a : no_byte sep (str_rev a) = no_byte sep a.
Proof.
  unfold no_byte. induction a as [|c a IH]; [done|]. rewrite str_rev_cons, str_forallb_app. rewrite IH.
  cbn. by rewrite andb_true_r, andb_comm.
Qed.

Lemma cut_last_app sep a b : no_byte sep b = true -> Url.cut_last sep (a +:+ String sep b) = Some (a, b).
Proof.
  intros Hb. unfold Url.cut_last. rewrite str_rev_append, str_rev_cons, string_app_assoc.
  change (String sep "" +:+ str_rev a) with (String sep (str_rev a)).
  rewrite cut_byte_app by by rewrite no_byte_rev. by rewrite !str_rev_involutive.
Qed.

Lemma uuid_no_dot v : is_Some (uuidParse v) -> no_byte "." v = true.
Proof.
  intros [p H]. unfold uuidParse in H. destruct (negb _); [done|]. destruct (uuid_shape _) eqn:E; [|done]. clear H.
  unfold uuid_shape in E. unfold no_byte. generalize dependent (fun i : nat => i). intros _.
  assert (forall f : nat -> nat, forallb id (imap (fun i c => if uuid_dash (f i) then (c =? "-")%char else hex_any c)
    (list_ascii_of_string v)) = true -> str_forallb (fun c => negb (c =? ".")%char) v = true) as H; [|by apply (H id)].
  clear E. induction v as [|c v IH]; [done|]. intros f. simpl. intros [Hc Hv]%andb_true_iff.
  rewrite (IH (f ∘ S) Hv), andb_true_r. destruct (Ascii.eqb_spec c ".") as [->|_]; [|done].
  unfold id in Hc. by destruct (uuid_dash (f 0%nat)).
Qed.

(** The token an admin is shown is the one the record of its invite or grant admits: it names its
    organization and its id, and verifies against the digest on record, which is the digest of 32 secret
    bytes; a token that verifies against that record has a secret with the same SHA-256. *)
Theorem minted_token_verifies org uuid secret token id digest :
  mintToken (token_prefix org) uuid secret = (token, id, digest) ->
  orgPattern org = true -> uuidParse uuid = Some uuid -> Forall is_byte secret -> Zlen secret = 32 ->
  organizationToken token = Some (org, id) /\ verifyToken token (token_prefix org) id digest = true
  /\ forall other, verifyToken other (token_prefix org) id digest = true ->
       exists text s, other = token_prefix org +:+ id +:+ "." +:+ text /\ DecodeString RawURLEncoding text = Some s
         /\ Sha256.digest (Sha256.bytes_of s) = Sha256.digest secret.
Proof.
  intros E Horg Hu Hs Hl.
  assert (token = token_prefix org +:+ uuid +:+ "." +:+ EncodeToString RawURLEncoding secret) as ->
    by exact (f_equal (fun x => x.1.1) (eq_sym E)).
  assert (id = uuid) as -> by exact (f_equal (fun x => x.1.2) (eq_sym E)).
  assert (digest = EncodeToString RawURLEncoding (secret_digest secret)) as -> by exact (f_equal snd (eq_sym E)). destruct (digest_bytes secret) as [Hd Hdl].
  assert (no_byte "." uuid = true) as Hud by (apply uuid_no_dot; eauto).
  assert (no_byte "." (EncodeToString RawURLEncoding secret) = true) as Hsd.
  { eapply str_forallb_impl; [|by apply encode_groups_text]. intros c Hc. destruct (Ascii.eqb_spec c ".") as [->|]; done. }
  split_and!.
  - match goal with |- organizationToken ?t = _ => assert (t
      = token_head +:+ ((org +:+ "." +:+ uuid) +:+ String "." (EncodeToString RawURLEncoding secret))) as ->
      by (unfold token_prefix; by rewrite !string_app_assoc) end.
    unfold organizationToken. rewrite has_prefix_app, trim_prefix_app. cbn [negb].
    rewrite cut_last_app by done. cbn [mbind option_bind].
    change (org +:+ "." +:+ uuid) with (org +:+ String "." uuid). rewrite cut_last_app by done. cbn [mbind option_bind]. rewrite Horg, Hu. cbn. by rewrite String.eqb_refl.
  - unfold verifyToken. rewrite has_prefix_app, trim_prefix_app. cbn [negb].
    change (uuid +:+ "." +:+ ?s) with (uuid +:+ String "." s). rewrite cut_byte_app by done. rewrite String.eqb_refl. cbn [negb orb].
    rewrite !decode_encode by done. rewrite !slen_text. unfold secret_digest. rewrite Hl, Hdl. cbn [negb orb Z.eqb].
    rewrite !bytes_of_text by done. by apply bool_decide_eq_true.
  - intros other H. unfold verifyToken in H. destruct (has_prefix (token_prefix org) other) eqn:Hp; [|done]. cbn [negb] in H.
    apply has_prefix_spec in Hp as [r ->]. rewrite trim_prefix_app in H.
    pose proof (cut_byte_spec "." r) as Hc. destruct (Url.cut_byte "." r) as [[tid text] ok].
    destruct ok; [|done]. cbn [negb orb] in H. destruct (String.eqb_spec tid uuid) as [->|]; [|done]. cbn [negb] in H.
    destruct (DecodeString RawURLEncoding text) as [s|] eqn:Es; [|done].
    rewrite decode_encode in H by done. destruct (negb _ || negb _); [done|]. apply bool_decide_eq_true in H.
    rewrite bytes_of_text in H by done. exists text, s. split_and!; [by rewrite (Hc _ _ eq_refl)|done|done].
Qed.

Lemma minted_token_verifies_witness :
  let '(token, id, digest) := mintToken (token_prefix "acme") "3d4f7c1e-9a2b-4c5d-8e6f-0a1b2c3d4e5f" (replicate 32 7) in
  organizationToken token = Some ("acme", id) /\ verifyToken token (token_prefix "acme") id digest = true.
Proof.
  pose proof (minted_token_verifies "acme" "3d4f7c1e-9a2b-4c5d-8e6f-0a1b2c3d4e5f" (replicate 32 7) _ _ _ eq_refl) as H.
  destruct H as (H1 & H2 & _); [vm_compute; reflexivity|vm_compute; reflexivity| |reflexivity|].
  - apply (bool_decide_unpack _). vm_compute. exact I.
  - split; [exact H1|exact H2].
Defined.
