(* ===== verification/FleetEnroll.v ===== *)
(** Enrollment and revocation ([fleet-manager/src/manager.go], [admin.go]): invites and grants, the
    four-write invite transaction, revocations and the release of a reservation, each as the program of
    one request. The [after] hook of the code is test-only and [nil] in production. *)

From S2P Require Import Prelude GoLib Redact Crypto Naming GoUrl FleetStore FleetToken.

Section Handlers.
Context {prov : Provider}.

Definition eprog := prog outcome.

Definition sameEnrollmentIdentity (current requested : InstallRecord) : bool :=
  (in_Schema current =? schemaVersion)
  && (in_Organization current =? in_Organization requested)%string
  && (in_InstallID current =? in_InstallID requested)%string
  && (in_DevicePublicKey current =? in_DevicePublicKey requested)%string
  && (in_AgeRecipient current =? in_AgeRecipient requested)%string.
Definition sameEnrollment (current requested : InstallRecord) : bool :=
  (in_EnrollmentDigest current =? in_EnrollmentDigest requested)%string
  && sameEnrollmentIdentity current requested.

Definition set_status (st : InstallStatus) (at_ : Z) (r : InstallRecord) : InstallRecord :=
  mkInstall (in_Schema r) (in_Organization r) (in_InstallID r) (in_DevicePublicKey r) (in_AgeRecipient r)
    (in_Hostname r) (in_Platform r) (in_EnrollmentDigest r) st (in_CreatedAt r) at_ (in_RevokedAt r).
(** The record a request asks for, with the schema, the organization and the times the service sets. *)
Definition requested (org : string) (r : InstallRecord) : InstallRecord :=
  mkInstall schemaVersion org (in_InstallID r) (in_DevicePublicKey r) (in_AgeRecipient r)
    (in_Hostname r) (in_Platform r) (in_EnrollmentDigest r) (in_Status r) (in_CreatedAt r) (in_UpdatedAt r)
    (in_RevokedAt r).
Definition created (st : InstallStatus) (now1 now2 : Z) (r : InstallRecord) : InstallRecord :=
  mkInstall (in_Schema r) (in_Organization r) (in_InstallID r) (in_DevicePublicKey r) (in_AgeRecipient r)
    (in_Hostname r) (in_Platform r) (in_EnrollmentDigest r) st now1 now2 (in_RevokedAt r).

Definition reserve (r : InstallRecord) (now : Z) (inv : InviteRecord) : InviteRecord :=
  mkInvite (iv_Schema inv) (iv_ID inv) (iv_SecretDigest inv) (iv_ExpiresAt inv) (iv_CreatedAt inv)
    (iv_RevokedAt inv) (in_InstallID r) (in_EnrollmentDigest r) (Some now) (iv_SpentAt inv).
Definition spend (now : Z) (inv : InviteRecord) : InviteRecord :=
  mkInvite (iv_Schema inv) (iv_ID inv) (iv_SecretDigest inv) (iv_ExpiresAt inv) (iv_CreatedAt inv)
    (iv_RevokedAt inv) (iv_ReservedInstallID inv) (iv_ReservedEnrollmentDigest inv) (iv_ReservedAt inv) (Some now).
Definition release (inv : InviteRecord) : InviteRecord :=
  mkInvite (iv_Schema inv) (iv_ID inv) (iv_SecretDigest inv) (iv_ExpiresAt inv) (iv_CreatedAt inv)
    (iv_RevokedAt inv) "" "" None (iv_SpentAt inv).
Definition revoke_invite (now : Z) (inv : InviteRecord) : InviteRecord :=
  mkInvite (iv_Schema inv) (iv_ID inv) (iv_SecretDigest inv) (iv_ExpiresAt inv) (iv_CreatedAt inv)
    (Some now) (iv_ReservedInstallID inv) (iv_ReservedEnrollmentDigest inv) (iv_ReservedAt inv) (iv_SpentAt inv).
Definition revoke_grant (now : Z) (g : GrantRecord) : GrantRecord :=
  mkGrant (gr_Schema g) (gr_ID g) (gr_SecretDigest g) (gr_ExpiresAt g) (gr_CreatedAt g) (Some now).
Definition revoke_install (now : Z) (r : InstallRecord) : InstallRecord :=
  mkInstall (in_Schema r) (in_Organization r) (in_InstallID r) (in_DevicePublicKey r) (in_AgeRecipient r)
    (in_Hostname r) (in_Platform r) (in_EnrollmentDigest r) InstallRevoked (in_CreatedAt r) now (Some now).

Definition reserved_for (r : InstallRecord) (inv : InviteRecord) : bool :=
  (iv_ReservedInstallID inv =? in_InstallID r)%string
  && (iv_ReservedEnrollmentDigest inv =? in_EnrollmentDigest r)%string.

(** ** Grants and invites *)

Definition CreateInvite (org uuid : string) (secret : list Z) (expires : Z) : prog (result ferror string) :=
  let '(token, id, digest) := mintToken (token_prefix org) uuid secret in
  Now (fun now =>
  if negb (now <? expires) then Ret (Err (EText "expiry must be in the future"))
  else
    createRecord (inviteKey org id) (SInvite (mkInvite schemaVersion id digest expires now None "" "" None None))
      (fun r => Ret (let! _ := r in Ok token))).

Definition CreateGrant (org uuid : string) (secret : list Z) (expires : Z) : prog (result ferror string) :=
  let '(token, id, digest) := mintToken (token_prefix org) uuid secret in
  Now (fun now =>
  if negb (now <? expires) then Ret (Err (EText "expiry must be in the future"))
  else
    createRecord (grantKey org id) (SGrant (mkGrant schemaVersion id digest expires now None))
      (fun r => Ret (let! _ := r in Ok token))).

(** ** EnrollGrant *)

Definition grant_admits (org token : string) (now : Z) (g : GrantRecord) : bool :=
  (gr_Schema g =? schemaVersion) && verifyToken token (token_prefix org) (gr_ID g) (gr_SecretDigest g)
  && bool_decide (gr_RevokedAt g = None) && (now <? gr_ExpiresAt g).

Definition EnrollGrant (org token : string) (in_ : InstallRecord) : eprog :=
  match organizationToken token with
  | None => Ret (Err ErrForbidden)
  | Some (o, id) =>
      if negb (o =? org)%string then Ret (Err ErrForbidden)
      else
        getRecord as_grant (grantKey org id) (fun r =>
          match r with
          | Err ErrNotFound => Ret (Err ErrForbidden)
          | Err e => Ret (Err e)
          | Ok (grant, _) =>
              Now (fun now =>
              if negb (grant_admits org token now grant) then Ret (Err ErrForbidden)
              else
                Now (fun now1 => Now (fun now2 =>
                let in_ := created InstallActive now1 now2 (requested org in_) in
                createRecord (installKey org (in_InstallID in_)) (SInstall in_) (fun w =>
                  match w with
                  | Err ErrConflict =>
                      getRecord as_install (installKey org (in_InstallID in_)) (fun r =>
                        match r with
                        | Err e => Ret (Err e)
                        | Ok (current, _) =>
                            if bool_decide (in_Status current = InstallActive) && sameEnrollmentIdentity current in_
                            then Ret (Ok ())
                            else Ret (Err ErrEnrollmentConflict)
                        end)
                  | _ => Ret w
                  end))))
          end)
  end.

(** ** EnrollInvite, by its four writes from the last to the first *)

(** [return m.EnrollInvite(ctx, token, in)] after a conflict; any other error is returned. *)
Definition retry_or {A} (w : result ferror ()) (k : prog (result ferror A)) : prog (result ferror A) :=
  match w with
  | Ok _ => k
  | Err ErrConflict => Again
  | Err e => Ret (Err e)
  end.

Definition enroll_activate (org : string) (in_ : InstallRecord) : eprog :=
  getRecord as_install (installKey org (in_InstallID in_)) (fun r =>
    bind_ret r (fun '(current, installVersion) =>
    if bool_decide (in_Status current = InstallActive) then
      Ret (if sameEnrollment current in_ then Ok () else Err ErrEnrollmentConflict)
    else if negb (bool_decide (in_Status current = InstallPending)) || negb (sameEnrollment current in_) then
      Ret (Err ErrEnrollmentConflict)
    else
      Now (fun now =>
      replaceRecord (installKey org (in_InstallID in_)) installVersion
        (SInstall (set_status InstallActive now current)) (fun w => retry_or w (Ret (Ok ())))))).

Definition enroll_spend (org id : string) (in_ : InstallRecord) : eprog :=
  getRecord as_invite (inviteKey org id) (fun r =>
    bind_ret r (fun '(inv, version) =>
    match iv_SpentAt inv with
    | Some _ => enroll_activate org in_
    | None =>
        Now (fun spent =>
        replaceRecord (inviteKey org id) version (SInvite (spend spent inv))
          (fun w => retry_or w (enroll_activate org in_)))
    end)).

Definition enroll_install (org id : string) (now : Z) (in_ : InstallRecord) : eprog :=
  getRecord as_install (installKey org (in_InstallID in_)) (fun r =>
    match r with
    | Err ErrNotFound =>
        createRecord (installKey org (in_InstallID in_)) (SInstall (created InstallPending now now in_))
          (fun w => retry_or w (enroll_spend org id (created InstallPending now now in_)))
    | Err e => Ret (Err e)
    | Ok (current, _) =>
        if negb (sameEnrollment current in_) || bool_decide (in_Status current = InstallRevoked)
        then Ret (Err ErrEnrollmentConflict)
        else if bool_decide (in_Status current = InstallActive) then Ret (Ok ())
        else enroll_spend org id in_
    end).

Definition enroll_reserve (org id : string) (now : Z) (inv : InviteRecord) (version : object)
    (in_ : InstallRecord) : eprog :=
  if (iv_ReservedInstallID inv =? "")%string then
    replaceRecord (inviteKey org id) version (SInvite (reserve in_ now inv))
      (fun w => retry_or w (enroll_install org id now in_))
  else if negb (reserved_for in_ inv) then Ret (Err ErrForbidden)
  else enroll_install org id now in_.

Definition EnrollInvite (org token : string) (in_ : InstallRecord) : eprog :=
  match organizationToken token with
  | None => Ret (Err ErrForbidden)
  | Some (o, id) =>
      if negb (o =? org)%string then Ret (Err ErrForbidden)
      else
        getRecord as_invite (inviteKey org id) (fun r =>
          match r with
          | Err ErrNotFound => Ret (Err ErrForbidden)
          | Err e => Ret (Err e)
          | Ok (inv, version) =>
              Now (fun now =>
              if negb (iv_Schema inv =? schemaVersion)
                 || negb (verifyToken token (token_prefix org) (iv_ID inv) (iv_SecretDigest inv))
                 || negb (bool_decide (iv_RevokedAt inv = None))
              then Ret (Err ErrForbidden)
              else
                let in_ := requested org in_ in
                if (iv_ReservedInstallID inv =? "")%string && negb (now <? iv_ExpiresAt inv)
                then Ret (Err ErrForbidden)
                else if negb (bool_decide (iv_SpentAt inv = None)) && negb (reserved_for in_ inv)
                then Ret (Err ErrForbidden)
                else enroll_reserve org id now inv version in_)
          end)
  end.

(** ** Revocation and release (admin.go) *)

Definition with_uuid (what id : string) (k : eprog) : eprog :=
  match uuidParse id with
  | None => Ret (Err (EText (what +:+ " id is not a UUID")))
  | Some _ => k
  end.

Definition RevokeGrant (org id : string) : eprog :=
  with_uuid "grant" id (
  getRecord as_grant (grantKey org id) (fun r =>
    bind_ret r (fun '(rec, version) =>
    match gr_RevokedAt rec with
    | Some _ => Ret (Ok ())
    | None => Now (fun now => replaceRecord (grantKey org id) version (SGrant (revoke_grant now rec)) Ret)
    end))).

Definition RevokeInvite (org id : string) : eprog :=
  with_uuid "invite" id (
  getRecord as_invite (inviteKey org id) (fun r =>
    bind_ret r (fun '(rec, version) =>
    match iv_RevokedAt rec with
    | Some _ => Ret (Ok ())
    | None => Now (fun now => replaceRecord (inviteKey org id) version (SInvite (revoke_invite now rec)) Ret)
    end))).

Definition RevokeInstall (org id : string) : eprog :=
  with_uuid "install" id (
  getRecord as_install (installKey org id) (fun r =>
    bind_ret r (fun '(rec, version) =>
    if bool_decide (in_Status rec = InstallRevoked) then Ret (Ok ())
    else Now (fun now => replaceRecord (installKey org id) version (SInstall (revoke_install now rec)) Ret)))).

Definition ReleaseInvite (org id : string) : eprog :=
  with_uuid "invite" id (
  getRecord as_invite (inviteKey org id) (fun r =>
    bind_ret r (fun '(rec, version) =>
    if negb (bool_decide (iv_SpentAt rec = None)) then Ret (Err (EText "a spent invite cannot be released"))
    else if (iv_ReservedInstallID rec =? "")%string then Ret (Ok ())
    else
      let clear := replaceRecord (inviteKey org id) version (SInvite (release rec)) Ret in
      getRecord as_install (installKey org (iv_ReservedInstallID rec)) (fun i =>
        match i with
        | Ok (install, _) =>
            if negb (bool_decide (in_Status install = InstallRevoked))
            then Ret (Err (EText "reservation install exists and is not revoked"))
            else clear
        | Err ErrNotFound => clear
        | Err e => Ret (Err e)
        end)))).

(** ** LoadActiveInstall *)

Definition LoadActiveInstall {A} (org id : string) (k : result ferror InstallRecord -> prog A) : prog A :=
  getRecord as_install (installKey org id) (fun r =>
    k (match r with
       | Err ErrNotFound => Err ErrUnknownInstall
       | Err e => Err e
       | Ok (rec, _) =>
           if negb (in_Schema rec =? schemaVersion) || negb (in_Organization rec =? org)%string
           then Err (EText "invalid install record")
           else if bool_decide (in_Status rec = InstallRevoked) then Err ErrRevokedInstall
           else if negb (bool_decide (in_Status rec = InstallActive)) then Err ErrUnknownInstall
           else Ok rec
       end)).

End Handlers.
