(* ===== verification/FleetLogic.v ===== *)
(** Requests of the fleet manager running at once: a world is the store and the requests in flight, a
    step is one store operation of one request, and a request may stop anywhere. A small rely-guarantee
    logic: a handler [holds] when each of its writes respects a relation [R] between stores and its
    answer satisfies [Q], whatever the others do to the store within [R] in between. *)

From S2P Require Import Prelude FleetStore.

Section Worlds.
Context {prov : Provider} {req : Type} (handler : req -> prog outcome) (allowed : req -> Prop).

Record world := mkWorld { st : store; threads : gmap nat (req * prog outcome) }.

Inductive wstep : world -> world -> Prop :=
  | w_spawn i q s ts :
      ts !! i = None -> allowed q -> wstep (mkWorld s ts) (mkWorld s (<[i := (q, handler q)]> ts))
  | w_step i q p p' s s' ts :
      ts !! i = Some (q, p) -> step (handler q) (p, s) (p', s') ->
      wstep (mkWorld s ts) (mkWorld s' (<[i := (q, p')]> ts))
  | w_crash i s ts : wstep (mkWorld s ts) (mkWorld s (delete i ts)).

Definition reachable (s0 : store) (w : world) : Prop := rtc wstep (mkWorld s0 ∅) w.

End Worlds.
Arguments mkWorld {req} st threads.

(** ** Driving a world

    One step of one request on a store that answers, and a schedule of such steps. *)
Section Drive.
Context {prov : Provider} {req : Type} (handler : req -> prog outcome) (now : Z).

Definition tick (w : @world req) (i : nat) : @world req :=
  match threads w !! i with
  | None => w
  | Some (q, p) =>
      let put p' s' := mkWorld s' (<[i := (q, p')]> (threads w)) in
      match p with
      | Ret _ => w
      | Get key k => put (k (store_Get key (st w))) (st w)
      | List_ prefix k => put (k (Ok (keys_under prefix (st w)))) (st w)
      | Write wr k =>
          if admits wr (st w) then put (k (Ok ())) (applied wr (st w)) else put (k (Err ErrConflict)) (st w)
      | Now k => put (k now) (st w)
      | Again => put (handler q) (st w)
      end
  end.

Definition start (i : nat) (q : req) (w : @world req) : @world req :=
  mkWorld (st w) (<[i := (q, handler q)]> (threads w)).

Lemma start_step allowed i q w : threads w !! i = None -> allowed q -> wstep handler allowed w (start i q w).
Proof. destruct w as [s ts]. intros Hn Ha. by apply w_spawn. Qed.

Lemma tick_steps allowed w i : rtc (wstep handler allowed) w (tick w i).
Proof.
  destruct w as [s ts]. unfold tick. simpl. destruct (ts !! i) as [[q p]|] eqn:Hi; [|done].
  destruct p; [done|..]; try (eapply rtc_once, w_step; [exact Hi|]; constructor; constructor).
  case_match; (eapply rtc_once, w_step; [exact Hi|]; constructor); by constructor.
Qed.

Definition drive (schedule : list nat) (w : @world req) : @world req := foldl tick w schedule.

Lemma drive_steps allowed schedule w : rtc (wstep handler allowed) w (drive schedule w).
Proof. revert w. induction schedule as [|i l IH]; intros w; [done|]. etrans; [apply tick_steps|apply IH]. Qed.

Lemma start_drive allowed s0 w i q schedule :
  threads w !! i = None -> allowed q -> reachable handler allowed s0 w ->
  reachable handler allowed s0 (drive schedule (start i q w)).
Proof.
  intros Hn Ha Hr. unfold reachable. etrans; [exact Hr|]. eapply rtc_l; [by apply start_step|]. apply drive_steps.
Qed.

End Drive.

Section Logic.
Context {prov : Provider} (R : relation store) {R_pre : PreOrder R}.

Fixpoint holds {A} (Q : A -> store -> Prop) (p : prog A) (s : store) : Prop :=
  forall s', R s s' ->
  match p with
  | Ret a => Q a s'
  | Get key k => forall r, read_answer s' key r -> holds Q (k r) s'
  | List_ prefix k => forall r, holds Q (k r) s'
  | Write w k => forall r s'', write_answer s' w r s'' -> R s' s'' /\ holds Q (k r) s''
  | Now k => forall t, holds Q (k t) s'
  | Again => True
  end.

Lemma holds_mono {A} (Q : A -> store -> Prop) p s s' :
  R s s' -> holds Q p s -> holds Q p s'.
Proof. intros H Hp. destruct p; simpl in *; intros s'' H'; apply (Hp s''); by etrans. Qed.

Lemma holds_step {A} (Q : A -> store -> Prop) p0 p s p' s' :
  holds Q p s -> (forall t, R s t -> holds Q p0 t) -> step p0 (p, s) (p', s') -> R s s' /\ holds Q p' s'.
Proof.
  intros Hp H0 Hs. inversion Hs; subst; simpl in Hp;
    match type of Hp with forall _, R ?t _ -> _ => specialize (Hp t (reflexivity t)) end.
  - split; [reflexivity|by apply Hp].
  - split; [reflexivity|apply Hp].
  - split; [reflexivity|apply Hp].
  - by apply Hp.
  - split; [reflexivity|apply Hp].
  - split; [reflexivity|by apply H0].
Qed.

Lemma holds_weaken {A} (Q Q' : A -> store -> Prop) p s :
  (forall a u, Q a u -> Q' a u) -> holds Q p s -> holds Q' p s.
Proof.
  intros HQ. revert s. induction p; simpl; intros s Hp s' Hs; eauto.
  intros r s'' Hw. destruct (Hp s' Hs r s'' Hw). split; eauto.
Qed.

(** *** Rules *)

Lemma holds_Ret {A} (Q : A -> store -> Prop) a s : (forall s', R s s' -> Q a s') -> holds Q (Ret a) s.
Proof. intros H s' Hs. by apply H. Qed.

Lemma holds_Now {A} (Q : A -> store -> Prop) k s :
  (forall t, holds Q (k t) s) -> holds Q (Now k) s.
Proof. intros H s' Hs t. by eapply holds_mono. Qed.

Lemma holds_Get {A} (Q : A -> store -> Prop) key k s :
  (forall s', R s s' -> holds Q (k (store_Get key s')) s') ->
  (forall e, e <> ErrNotFound -> holds Q (k (Err e)) s) ->
  holds Q (Get key k) s.
Proof. intros H He s' Hs r Hr. inversion Hr; subst; [by apply H|]. eapply holds_mono; eauto. Qed.

Lemma holds_Write {A} (Q : A -> store -> Prop) w k s :
  (forall s', R s s' -> admits w s' = true -> R s' (applied w s')) ->
  (forall s', R s s' -> admits w s' = true -> R s' (applied w s') -> holds Q (k (Ok ())) (applied w s')) ->
  (forall e, holds Q (k (Err e)) s) ->
  holds Q (Write w k) s.
Proof.
  intros Hw Hok He s' Hs r s'' Hr. inversion Hr; subst.
  - specialize (Hw s' Hs H). auto.
  - split; [by apply Hw|]. eapply holds_mono; [|apply He]. etrans; [done|by apply Hw].
  - split; [reflexivity|]. eapply holds_mono; [done|apply He].
Qed.

(** A read of a typed record: present and decoded, present and something else, or an error. *)
Lemma holds_getRecord {T A} (Q : A -> store -> Prop) (dec : stored -> option T) key k s :
  (forall s' t o, R s s' -> objects s' !! key = Some o -> dec (body o) = Some t -> holds Q (k (Ok (t, o))) s') ->
  (forall s', R s s' -> objects s' !! key = None -> holds Q (k (Err ErrNotFound)) s') ->
  (forall e, e <> ErrNotFound -> holds Q (k (Err e)) s) ->
  holds Q (getRecord dec key k) s.
Proof.
  intros Hok Hn He. apply holds_Get; [|intros e Hne; by apply He].
  intros s' Hs. unfold store_Get. destruct (objects s' !! key) as [o|] eqn:Ho; simpl.
  - unfold decoded. destruct (dec (body o)) as [t|] eqn:Hd; [by eapply Hok|].
    eapply holds_mono; [done|by apply He].
  - by apply Hn.
Qed.

(** *** What every reachable world satisfies *)
Section Sound.
Context {req : Type} (handler : req -> prog outcome) (allowed : req -> Prop).
Context (I : store -> Prop) (post : req -> outcome -> store -> Prop).
Hypothesis I_stable : forall s s', I s -> R s s' -> I s'.
Hypothesis handlers_hold : forall q s, allowed q -> I s -> holds (post q) (handler q) s.

Definition world_ok (s0 : store) (w : world) : Prop :=
  I (st w) /\ R s0 (st w) /\
  forall i q p, threads w !! i = Some (q, p) -> allowed q /\ holds (post q) p (st w).

Lemma wstep_ok s0 w w' : world_ok s0 w -> wstep handler allowed w w' -> world_ok s0 w'.
Proof.
  intros (HI & HR & Ht) Hs. inversion Hs; subst; simpl in *.
  - split_and!; [done..|]. intros j q' p' Hj. simpl in Hj.
    destruct (decide (i = j)) as [<-|Hne].
    + rewrite lookup_insert_eq in Hj. injection Hj as <- <-. auto.
    + rewrite lookup_insert_ne in Hj by done. eauto.
  - destruct (Ht _ _ _ H) as [Ha Hp].
    destruct (holds_step (post q) (handler q) p s p' s') as [HR' Hp']; [done| |done|].
    { intros t Hst. apply handlers_hold; [done|]. by eapply I_stable. }
    split_and!; [by eapply I_stable|by etrans|].
    intros j q' p'' Hj. simpl in Hj. destruct (decide (i = j)) as [<-|Hne].
    + rewrite lookup_insert_eq in Hj. injection Hj as <- <-. auto.
    + rewrite lookup_insert_ne in Hj by done. destruct (Ht _ _ _ Hj).
      split; [done|]. by eapply holds_mono.
  - split_and!; [done..|]. intros j q' p' Hj. simpl in Hj.
    apply lookup_delete_Some in Hj as [_ Hj]. eauto.
Qed.

Lemma reachable_ok s0 w : I s0 -> reachable handler allowed s0 w -> world_ok s0 w.
Proof.
  intros HI Hr. unfold reachable in Hr.
  assert (world_ok s0 (mkWorld s0 ∅)) as H0.
  { split_and!; simpl; [done|reflexivity|]. intros i q p H. by rewrite lookup_empty in H. }
  revert H0. generalize dependent (@mkWorld req s0 ∅). intros w0 Hr. induction Hr; eauto using wstep_ok.
Qed.

Lemma reachable_post s0 w i q a :
  I s0 -> reachable handler allowed s0 w -> threads w !! i = Some (q, Ret a) -> post q a (st w).
Proof.
  intros HI Hr Hi. destruct (reachable_ok _ _ HI Hr) as (_ & _ & Ht).
  destruct (Ht _ _ _ Hi) as [_ Hp]. apply Hp. reflexivity.
Qed.

End Sound.
End Logic.

(** Programs whose writes all satisfy [P] (on the write and a store it is admitted by) respect any
    relation [P] implies. *)
Fixpoint writes_only `{!Provider} {A} (P : write -> Prop) (p : prog A) : Prop :=
  match p with
  | Ret _ => True
  | Get _ k => forall r, writes_only P (k r)
  | List_ _ k => forall r, writes_only P (k r)
  | Write w k => P w /\ forall r, writes_only P (k r)
  | Now k => forall t, writes_only P (k t)
  | Again => True
  end.

Lemma writes_only_holds `{!Provider} (R : relation store) {R_pre : PreOrder R} {A} (P : write -> Prop) (p : prog A) s :
  (forall w s', P w -> admits w s' = true -> R s' (applied w s')) ->
  writes_only P p -> holds R (fun _ _ => True) p s.
Proof.
  intros HP. revert s. induction p as [a|key k IH|prefix k IH|w k IH|k IH|]; simpl; intros s Hp s' Hs; auto.
  intros r s'' Hr. destruct Hp as [Hw Hk]. inversion Hr; subst; auto.
  split; [reflexivity|by apply IH].
Qed.
