(* ===== verification/FleetEnrollSafe.v ===== *)
(** What enrollment promises, under every interleaving of requests: a record only moves forward, an
    invite whose reservation nobody releases enrolls one install, a revocation is final, and the invite
    transaction can be resumed after any of its writes. *)

From S2P Require Import Prelude GoLib Redact Crypto Naming GoUrl FleetStore FleetToken FleetEnroll FleetLogic.

(** ** How records may move *)

Definition body_at (s : store) (key : string) : option stored := body <$> objects s !! key.

Definition status_rank (st : InstallStatus) : nat :=
  match st with InstallPending => 0 | InstallActive => 1 | InstallRevoked => 2 end.

Definition install_keeps (r r' : InstallRecord) : Prop :=
  (in_Schema r', in_Organization r', in_InstallID r', in_DevicePublicKey r', in_AgeRecipient r', in_EnrollmentDigest r')
  = (in_Schema r, in_Organization r, in_InstallID r, in_DevicePublicKey r, in_AgeRecipient r, in_EnrollmentDigest r)
  /\ (status_rank (in_Status r) <= status_rank (in_Status r'))%nat.

(** With [keep], a reservation stays as well. *)
Definition invite_keeps (keep : bool) (i i' : InviteRecord) : Prop :=
  (keep = true -> iv_ReservedInstallID i <> "" ->
   iv_ReservedInstallID i' = iv_ReservedInstallID i
   /\ iv_ReservedEnrollmentDigest i' = iv_ReservedEnrollmentDigest i)
  /\ (iv_SpentAt i <> None -> iv_SpentAt i' = iv_SpentAt i)
  /\ (iv_RevokedAt i <> None -> iv_RevokedAt i' = iv_RevokedAt i).

Definition grant_keeps (g g' : GrantRecord) : Prop :=
  gr_RevokedAt g <> None -> gr_RevokedAt g' = gr_RevokedAt g.

Definition body_keeps (keep : bool) (b b' : stored) : Prop :=
  match b, b' with
  | SInvite i, SInvite i' => invite_keeps keep i i'
  | SInstall r, SInstall r' => install_keeps r r'
  | SGrant g, SGrant g' => grant_keeps g g'
  | SInvite _, _ | SInstall _, _ | SGrant _, _ => False
  | _, _ => True
  end.

(** How a store may move: what is under a key stays a record of its kind, moved forward. [keep] names
    the keys whose reservations stay. *)
Definition evolves (keep : string -> bool) (s s' : store) : Prop :=
  forall key b, body_at s key = Some b -> exists b', body_at s' key = Some b' /\ body_keeps (keep key) b b'.

Lemma body_keeps_refl keep b : body_keeps keep b b.
Proof. destruct b; simpl; try done; repeat split; auto. Qed.

Lemma body_keeps_trans keep a b c : body_keeps keep a b -> body_keeps keep b c -> body_keeps keep a c.
Proof.
  destruct a, b; simpl; try done; destruct c; simpl; try done.
  - intros H1 H2 Hr. specialize (H1 Hr). rewrite <- H1. apply H2. congruence.
  - intros (A1 & A2 & A3) (B1 & B2 & B3). split_and!.
    + intros Hk Hr. destruct (A1 Hk Hr) as [E1 E2]. rewrite <- E1, <- E2. apply B1; congruence.
    + intros Hs. rewrite <- (A2 Hs). apply B2. rewrite (A2 Hs). done.
    + intros Hs. rewrite <- (A3 Hs). apply B3. rewrite (A3 Hs). done.
  - intros [A1 A2] [B1 B2]. split; [congruence|lia].
Qed.

#[global] Instance evolves_preorder keep : PreOrder (evolves keep).
Proof.
  split.
  - intros s key b H. eauto using body_keeps_refl.
  - intros a b c Hab Hbc key x Hx. destruct (Hab _ _ Hx) as (y & Hy & Kxy).
    destruct (Hbc _ _ Hy) as (z & Hz & Kyz). eauto using body_keeps_trans.
Qed.

Lemma body_at_put s key b key' :
  body_at (store_put key b s) key' = if decide (key = key') then Some b else body_at s key'.
Proof.
  unfold body_at, store_put; simpl. case_decide; subst.
  - by rewrite lookup_insert_eq.
  - by rewrite lookup_insert_ne.
Qed.

Section Safe.
Context {prov : Provider}.

(** A conditional write moves a record forward when the new one keeps what the version read had. *)
Definition forward (keep : string -> bool) (w : write) : Prop :=
  match w with
  | WCreate _ _ => True
  | WReplace key v b => body_keeps (keep key) (body v) b
  | WPut _ _ => False
  end.

Lemma forward_evolves keep w s : forward keep w -> admits w s = true -> evolves keep s (applied w s).
Proof.
  intros Hf Ha key b Hb. destruct w as [k c|k v c|k c]; simpl in *; [| |done]; rewrite body_at_put.
  - case_decide; subst; [|eauto using body_keeps_refl].
    apply bool_decide_eq_true in Ha. unfold body_at in Hb. by rewrite Ha in Hb.
  - case_decide; subst; [|eauto using body_keeps_refl].
    unfold body_at in Hb. destruct (objects s !! key) as [o|]; [|done].
    simpl in Hb. injection Hb as <-. exists c. split; [done|]. by rewrite <- (same_version_body _ _ Ha).
Qed.

Lemma as_invite_Some b i : as_invite b = Some i -> b = SInvite i.
Proof. destruct b; simpl; congruence. Qed.
Lemma as_install_Some b i : as_install b = Some i -> b = SInstall i.
Proof. destruct b; simpl; congruence. Qed.
Lemma as_grant_Some b i : as_grant b = Some i -> b = SGrant i.
Proof. destruct b; simpl; congruence. Qed.

Lemma body_at_object s key o : objects s !! key = Some o -> body_at s key = Some (body o).
Proof. unfold body_at. by intros ->. Qed.

(** *** Facts about the store that stay *)

Definition invite_reserved (org id : string) (r : InstallRecord) (s : store) : Prop :=
  exists inv, body_at s (inviteKey org id) = Some (SInvite inv) /\ reserved_for r inv = true.

Definition install_enrolled (org : string) (r : InstallRecord) (s : store) : Prop :=
  exists i, body_at s (installKey org (in_InstallID r)) = Some (SInstall i)
            /\ sameEnrollment i r = true /\ in_Status i <> InstallPending.

Lemma reserved_for_spec r inv :
  reserved_for r inv = true <->
  iv_ReservedInstallID inv = in_InstallID r /\ iv_ReservedEnrollmentDigest inv = in_EnrollmentDigest r.
Proof. unfold reserved_for. by rewrite andb_true_iff, !String.eqb_eq. Qed.

Lemma reserved_stable keep org id r s s' :
  keep (inviteKey org id) = true -> in_InstallID r <> "" -> evolves keep s s' -> invite_reserved org id r s -> invite_reserved org id r s'.
Proof.
  intros Hkey Hr He (inv & Hi & Hf). apply reserved_for_spec in Hf as [Hf1 Hf2].
  destruct (He _ _ Hi) as (b' & Hb' & Hk). destruct b'; try done. simpl in Hk. rewrite Hkey in Hk. destruct Hk as (Hk & _).
  destruct (Hk eq_refl) as [E1 E2]; [congruence|].
  eexists. split; [done|]. apply reserved_for_spec. split; congruence.
Qed.

Lemma sameEnrollment_keeps i i' r : install_keeps i i' -> sameEnrollment i' r = sameEnrollment i r.
Proof. intros [H _]. unfold sameEnrollment, sameEnrollmentIdentity. by injection H as -> -> -> -> -> ->. Qed.

Lemma enrolled_stable keep org r s s' :
  evolves keep s s' -> install_enrolled org r s -> install_enrolled org r s'.
Proof.
  intros He (i & Hi & Hs & Hp). destruct (He _ _ Hi) as (b' & Hb' & Hk). destruct b'; try done.
  exists r0. split_and!; [done|by rewrite (sameEnrollment_keeps i)|].
  destruct Hk as [_ Hk]. intros E. rewrite E in Hk. destruct (in_Status i); simpl in Hk; try done; lia.
Qed.

(** ** The invite transaction, phase by phase *)

Section Phases.
Context (keep : string -> bool) (org id : string) (r : InstallRecord) (named : in_InstallID r <> "").

Definition still_reserved (s : store) : Prop :=
  keep (inviteKey org id) = true -> invite_reserved org id r s.

Definition enrolled_post (a : outcome) (s : store) : Prop :=
  a = Ok () -> still_reserved s /\ install_enrolled org r s.

(** What others do, and what the four writes of the transaction must respect. *)
Context (R : relation store) {R_pre : PreOrder R} (R_evolves : forall s s', R s s' -> evolves keep s s').
Hypothesis R_reserve : forall s i o now,
  body o = SInvite i -> iv_ReservedInstallID i = "" -> iv_SpentAt i = None ->
  let w := WReplace (inviteKey org id) o (SInvite (reserve r now i)) in
  admits w s = true -> R s (applied w s).
Hypothesis R_install : forall s now, still_reserved s ->
  let w := WCreate (installKey org (in_InstallID r)) (SInstall (created InstallPending now now r)) in
  admits w s = true -> R s (applied w s).
Hypothesis R_spend : forall s i o now, still_reserved s ->
  body o = SInvite i -> iv_SpentAt i = None ->
  let w := WReplace (inviteKey org id) o (SInvite (spend now i)) in
  admits w s = true -> R s (applied w s).
Hypothesis R_activate : forall s i o now, still_reserved s ->
  body o = SInstall i -> in_Status i = InstallPending -> sameEnrollment i r = true ->
  let w := WReplace (installKey org (in_InstallID r)) o (SInstall (set_status InstallActive now i)) in
  admits w s = true -> R s (applied w s).
Notation ok := (holds R enrolled_post).

Lemma still_reserved_stable s s' : R s s' -> still_reserved s -> still_reserved s'.
Proof. intros He H Hk. eapply reserved_stable; eauto. Qed.

Lemma install_enrolled_stable s s' : R s s' -> install_enrolled org r s -> install_enrolled org r s'.
Proof. intros He. eapply enrolled_stable; eauto. Qed.

(** A refusal promises nothing; a restart promises what the whole handler does. *)
Ltac no_promise := intros ? ?; intros [=].
Ltac retried :=
  intros e; destruct e; simpl; try (by intros ? ?); try no_promise.

Lemma activate_ok s : still_reserved s -> ok (enroll_activate org r) s.
Proof.
  intros Hr. apply (holds_getRecord R); [| |intros e _; no_promise].
  2:{ intros s' _ _. no_promise. }
  intros s' i o He Ho Hd. apply as_install_Some in Hd. simpl.
  pose proof (still_reserved_stable _ _ He Hr) as Hr'.
  pose proof (body_at_object _ _ _ Ho) as Hb. rewrite Hd in Hb.
  case_bool_decide as Ha.
  { destruct (sameEnrollment i r) eqn:Hs; [|no_promise]. intros s2 He2 _.
    split; [by eapply still_reserved_stable|]. eapply install_enrolled_stable; [exact He2|].
    exists i. split_and!; [done|done|by rewrite Ha]. }
  destruct (negb (bool_decide (in_Status i = InstallPending)) || negb (sameEnrollment i r)) eqn:Hc; [no_promise|].
  boolp. apply (holds_Now R). intros t. apply (holds_Write R); [| |retried].
  - intros s2 He2 Ha2. eapply R_activate; eauto using still_reserved_stable.
  - intros s2 He2 Ha2 He3 s4 He4 _. split.
    { eapply still_reserved_stable; [|exact Hr']. by do 2 (etrans; [done|]). }
    eapply install_enrolled_stable; [exact He4|]. eexists. split_and!.
    + simpl. rewrite body_at_put, decide_True by done. done.
    + done.
    + done.
Qed.

Lemma spend_ok s : still_reserved s -> ok (enroll_spend org id r) s.
Proof.
  intros Hr. apply (holds_getRecord R); [| |intros e _; no_promise].
  2:{ intros s' _ _. no_promise. }
  intros s' i o He Ho Hd. apply as_invite_Some in Hd. simpl.
  pose proof (still_reserved_stable _ _ He Hr) as Hr'.
  destruct (iv_SpentAt i) eqn:Hsp; [by apply activate_ok|].
  apply (holds_Now R). intros t. apply (holds_Write R); [| |retried].
  - intros s2 He2 Ha2. eapply R_spend; eauto using still_reserved_stable.
  - intros s2 He2 Ha2 He3. simpl. apply activate_ok.
    eapply still_reserved_stable; [|exact Hr']. by etrans.
Qed.

Lemma install_ok now s : still_reserved s -> ok (enroll_install org id now r) s.
Proof.
  intros Hr. apply (holds_getRecord R); [| |intros e Hne; destruct e; try done; no_promise].
  - intros s' i o He Ho Hd. apply as_install_Some in Hd. simpl.
    pose proof (still_reserved_stable _ _ He Hr) as Hr'.
    pose proof (body_at_object _ _ _ Ho) as Hb. rewrite Hd in Hb.
    destruct (negb (sameEnrollment i r) || bool_decide (in_Status i = InstallRevoked)) eqn:Hc; [no_promise|].
    boolp. case_bool_decide as Ha; [|by apply spend_ok].
    intros s2 He2 _. split; [by eapply still_reserved_stable|].
    eapply install_enrolled_stable; [exact He2|]. exists i. split_and!; [done|done|by rewrite Ha].
  - intros s' He _. apply (holds_Write R); [| |retried].
    + intros s2 He2 Ha2. apply R_install; [|done]. eapply still_reserved_stable; [|exact Hr]. by etrans.
    + intros s2 He2 Ha2 He3. apply spend_ok.
      eapply still_reserved_stable; [|exact Hr]. by do 2 (etrans; [done|]).
Qed.

Lemma reserve_ok now i o s :
  body_at s (inviteKey org id) = Some (SInvite i) -> body o = SInvite i ->
  (iv_ReservedInstallID i = "" -> iv_SpentAt i = None) ->
  ok (enroll_reserve org id now i o r) s.
Proof.
  intros Hb Hd Hsp. unfold enroll_reserve. destruct (iv_ReservedInstallID i =? "")%string eqn:He.
  - boolp. apply (holds_Write R); [| |retried].
    + intros s2 He2 Ha2. eapply R_reserve; eauto.
    + intros s2 He2 Ha2 He3. apply install_ok. intros _.
      exists (reserve r now i). split; [|by apply reserved_for_spec].
      simpl. rewrite body_at_put, decide_True by done. done.
  - destruct (reserved_for r i) eqn:Hf; simpl; [|no_promise].
    apply install_ok. intros _. by exists i.
Qed.

(** The whole handler of a request that asks for [r]. *)
Lemma EnrollInvite_ok token in_ s :
  r = requested org in_ -> organizationToken token = Some (org, id) -> ok (EnrollInvite org token in_) s.
Proof.
  intros Hreq Ht. unfold EnrollInvite. rewrite Ht, String.eqb_refl. cbn [negb].
  apply (holds_getRecord R); [| |intros e Hne; destruct e; try done; no_promise].
  2:{ intros s' _ _. no_promise. }
  intros s' i o He Ho Hd. apply as_invite_Some in Hd. apply (holds_Now R). intros now.
  pose proof (body_at_object _ _ _ Ho) as Hb. rewrite Hd in Hb. rewrite <- Hreq.
  do 2 (case_match; [no_promise|]).
  destruct (negb (bool_decide (iv_SpentAt i = None)) && negb (reserved_for r i)) eqn:Hc; [no_promise|].
  apply reserve_ok; [done..|]. intros Hu.
  destruct (bool_decide (iv_SpentAt i = None)) eqn:Hsp; [by apply bool_decide_eq_true in Hsp|].
  destruct (reserved_for r i) eqn:Hf; [|done]. apply reserved_for_spec in Hf as [Hf _]. congruence.
Qed.

End Phases.

(** ** The other handlers write forward *)

Lemma writes_only_getRecord {T A} (P : write -> Prop) (dec : stored -> option T) key (k : _ -> prog A) :
  (forall t o, dec (body o) = Some t -> writes_only P (k (Ok (t, o)))) ->
  (forall e, writes_only P (k (Err e))) -> writes_only P (getRecord dec key k).
Proof.
  intros Hok He r. destruct r as [o|e]; simpl; [|apply He].
  unfold decoded. destruct (dec (body o)) as [t|] eqn:Hd; [by apply Hok|apply He].
Qed.

Ltac forward_get := apply writes_only_getRecord; [intros ? ? ?|intros [] ]; simpl; try done.

Lemma EnrollGrant_forward keep org token r : writes_only (forward keep) (EnrollGrant org token r).
Proof.
  unfold EnrollGrant. destruct (organizationToken token) as [[o id]|]; [|done].
  destruct (negb (o =? org)%string); [done|]. forward_get. intros now. case_match; [done|]. simpl. intros n1 n2. split; [done|].
  intros [[]|[]]; try exact I. forward_get. case_match; done.
Qed.

Lemma RevokeGrant_forward keep org id : writes_only (forward keep) (RevokeGrant org id).
Proof.
  unfold RevokeGrant, with_uuid. case_match; [|done]. forward_get.
  destruct (gr_RevokedAt t) eqn:E; [done|]. intros now. split; [|done]. simpl.
  apply as_grant_Some in H0 as ->. simpl. intros Hn. done.
Qed.

Lemma RevokeInvite_forward keep org id : writes_only (forward keep) (RevokeInvite org id).
Proof.
  unfold RevokeInvite, with_uuid. case_match; [|done]. forward_get.
  destruct (iv_RevokedAt t) eqn:E; [done|]. intros now. split; [|done]. simpl.
  apply as_invite_Some in H0 as ->. simpl. split_and!; [done|done|]. simpl. by rewrite E.
Qed.

Lemma RevokeInstall_forward keep org id : writes_only (forward keep) (RevokeInstall org id).
Proof.
  unfold RevokeInstall, with_uuid. case_match; [|done]. forward_get.
  case_bool_decide; [done|]. intros now. split; [|done]. simpl.
  apply as_install_Some in H0 as ->. simpl. split; [done|]. simpl. destruct (in_Status t); simpl; lia.
Qed.

Lemma ReleaseInvite_forward keep org id :
  keep (inviteKey org id) = false -> writes_only (forward keep) (ReleaseInvite org id).
Proof.
  intros Hk. unfold ReleaseInvite, with_uuid. case_match; [|done]. forward_get.
  apply as_invite_Some in H0. destruct (bool_decide (iv_SpentAt t = None)) eqn:Hs; [|done]. simpl.
  case_match; [done|].
  assert (writes_only (forward keep)
     (replaceRecord (inviteKey org id) o (SInvite (release t)) (@Ret outcome))) as Hw.
  { split; [|done]. simpl. rewrite H0, Hk. simpl. by split_and!. }
  forward_get.
  destruct (negb (bool_decide (in_Status t0 = InstallRevoked))); [done|exact Hw].
Qed.

End Safe.
