(* ===== verification/FleetProps.v ===== *)
(** The fleet manager's promises about enrollment, over every interleaving of its requests. *)

From S2P Require Import Prelude GoLib Redact Crypto Naming GoUrl FleetStore FleetToken FleetEnroll FleetLogic FleetEnrollSafe.

(** ** Requests *)

Inductive request :=
  | REnrollInvite (org token : string) (r : InstallRecord)
  | REnrollGrant (org token : string) (r : InstallRecord)
  | RCreateInvite (org uuid : string) (secret : list Z) (expires : Z)
  | RCreateGrant (org uuid : string) (secret : list Z) (expires : Z)
  | RRevokeGrant (org id : string)
  | RRevokeInvite (org id : string)
  | RRevokeInstall (org id : string)
  | RReleaseInvite (org id : string).

Definition no_secret (r : result ferror string) : outcome := let! _ := r in Ok ().

Definition handler (q : request) : prog outcome :=
  match q with
  | REnrollInvite org token r => EnrollInvite org token r
  | REnrollGrant org token r => EnrollGrant org token r
  | RCreateInvite org uuid secret expires => prog_map no_secret (CreateInvite org uuid secret expires)
  | RCreateGrant org uuid secret expires => prog_map no_secret (CreateGrant org uuid secret expires)
  | RRevokeGrant org id => RevokeGrant org id
  | RRevokeInvite org id => RevokeInvite org id
  | RRevokeInstall org id => RevokeInstall org id
  | RReleaseInvite org id => ReleaseInvite org id
  end.

(** [handleEnroll] refuses a request whose install id is no UUID. *)
Definition named (q : request) : Prop :=
  match q with REnrollInvite _ _ r => in_InstallID r <> "" | _ => True end.

Definition releases (q : request) (key : string) : Prop :=
  match q with RReleaseInvite org id => inviteKey org id = key | _ => False end.

Section Props.
Context {prov : Provider}.

(** The keys [keep] protects are not released. *)
Definition spares (keep : string -> bool) (q : request) : Prop := forall key, keep key = true -> ~ releases q key.

Definition enroll_post (keep : string -> bool) (q : request) (a : outcome) (s : store) : Prop :=
  match q with
  | REnrollInvite org token r =>
      forall id, organizationToken token = Some (org, id) -> enrolled_post keep org id (requested org r) a s
  | _ => True
  end.

Lemma CreateInvite_forward keep org uuid secret expires :
  writes_only (forward keep) (prog_map no_secret (CreateInvite org uuid secret expires)).
Proof. unfold CreateInvite, mintToken. intros now. case_match; simpl; auto. Qed.
Lemma CreateGrant_forward keep org uuid secret expires :
  writes_only (forward keep) (prog_map no_secret (CreateGrant org uuid secret expires)).
Proof. unfold CreateGrant, mintToken. intros now. case_match; simpl; auto. Qed.

Lemma enroll_invite_post keep org token r s :
  in_InstallID r <> "" ->
  holds (evolves keep) (enroll_post keep (REnrollInvite org token r)) (EnrollInvite org token r) s.
Proof.
  intros Hn. destruct (organizationToken token) as [[o id]|] eqn:Ht.
  2:{ unfold EnrollInvite. rewrite Ht. intros s' _ id' Ht'. congruence. }
  destruct (decide (o = org)) as [->|Hne].
  2:{ unfold EnrollInvite. rewrite Ht, (proj2 (String.eqb_neq o org) Hne). intros s' _ id' Ht'. congruence. }
  apply (holds_weaken (evolves keep) (enrolled_post keep org id (requested org r))).
  { intros a u Ha id' Ht'. rewrite Ht in Ht'. injection Ht' as <-. done. }
  apply (EnrollInvite_ok keep org id (requested org r)); try done.
  - apply evolves_preorder.
  - intros s1 i o now Hb Hu Hsp w Ha. apply forward_evolves; [|done]. simpl. rewrite Hb. simpl.
    split; [by intros _ H|]. by split.
  - intros s1 now _ w Ha. by apply forward_evolves.
  - intros s1 i o now _ Hb Hsp w Ha. apply forward_evolves; [|done]. simpl. rewrite Hb. simpl.
    split; [done|]. by rewrite Hsp.
  - intros s1 i o now _ Hb Hp _ w Ha. apply forward_evolves; [|done]. simpl. rewrite Hb. simpl. split; [done|].
    rewrite Hp. simpl. lia.
Qed.

Lemma handlers_ok keep q s :
  named q /\ spares keep q -> holds (evolves keep) (enroll_post keep q) (handler q) s.
Proof.
  intros [Hn Hs]. destruct q; cbn [named handler] in *; [by apply enroll_invite_post|..];
    (apply (holds_weaken (evolves keep) (fun _ _ => True)); [done|]; apply (writes_only_holds (evolves keep) (forward keep));
     [intros; by apply forward_evolves|]);
    auto using EnrollGrant_forward, CreateInvite_forward, CreateGrant_forward, RevokeGrant_forward,
      RevokeInvite_forward, RevokeInstall_forward.
  apply ReleaseInvite_forward. destruct (keep (inviteKey org id)) eqn:E; [|done]. by destruct (Hs _ E).
Qed.

(** Whatever runs, the store moves forward. *)
Lemma world_evolves keep s0 w :
  reachable handler (fun q => named q /\ spares keep q) s0 w -> evolves keep s0 (st w).
Proof.
  intros Hr. apply (reachable_ok (evolves keep) handler _ (fun _ => True) (enroll_post keep)) in Hr;
    [apply Hr|done|intros; by apply handlers_ok|done].
Qed.

(** C20: An invite whose reservation nobody releases enrolls one install. Let any requests run together
    on a store that may fail, refuse or lose the answer of a write, crash any of them anywhere: two
    enrollments with that invite that succeeded are of the same install with the same request, and the
    record of that install is there, active or revoked since. *)
Theorem invite_enrolls_one s0 w org id i j t1 t2 r1 r2 :
  organizationToken t1 = Some (org, id) -> organizationToken t2 = Some (org, id) ->
  reachable handler (fun q => named q /\ ~ releases q (inviteKey org id)) s0 w ->
  threads w !! i = Some (REnrollInvite org t1 r1, Ret (Ok ())) ->
  threads w !! j = Some (REnrollInvite org t2 r2, Ret (Ok ())) ->
  in_InstallID r1 = in_InstallID r2 /\ in_EnrollmentDigest r1 = in_EnrollmentDigest r2
  /\ install_enrolled org (requested org r1) (st w).
Proof.
  intros Ht1 Ht2 Hr Hi Hj. set (keep := fun k => bool_decide (k = inviteKey org id)).
  assert (forall q, named q /\ ~ releases q (inviteKey org id) -> named q /\ spares keep q) as Hq.
  { intros q [Hn Hq]. split; [done|]. intros key Hk. apply bool_decide_eq_true in Hk. by subst. }
  assert (forall n q a, threads w !! n = Some (q, Ret a) -> enroll_post keep q a (st w)) as Hp.
  { intros n q a Hn. eapply (reachable_post (evolves keep) handler _ (fun _ => True) (enroll_post keep));
      [done| |done|exact Hr|exact Hn]. intros q' s Hq' _. apply handlers_ok. auto. }
  pose proof (Hp _ _ _ Hi _ Ht1 eq_refl) as [R1 E1]. pose proof (Hp _ _ _ Hj _ Ht2 eq_refl) as [R2 _].
  assert (keep (inviteKey org id) = true) as Hk by (by apply bool_decide_eq_true).
  destruct (R1 Hk) as (v1 & Hv1 & Hf1). destruct (R2 Hk) as (v2 & Hv2 & Hf2).
  rewrite Hv1 in Hv2. injection Hv2 as <-.
  apply reserved_for_spec in Hf1 as [A1 A2]. apply reserved_for_spec in Hf2 as [B1 B2]. simpl in *.
  split_and!; [congruence|congruence|done].
Qed.

(** A revocation is final. Once an install is revoked, whatever enrollments, grants, releases and
    revocations run on, under whatever failures, its device is refused as revoked: the shipper's latch
    is told the truth. *)
Theorem revocation_final s0 w org id r now :
  body_at s0 (installKey org id) = Some (SInstall r) ->
  in_Status r = InstallRevoked -> in_Schema r = schemaVersion -> in_Organization r = org ->
  reachable handler named s0 w ->
  run now (LoadActiveInstall org id Ret) (st w) = (Some (Err ErrRevokedInstall), st w).
Proof.
  intros Hb Hs Hsc Ho Hr.
  assert (reachable handler (fun q => named q /\ spares (fun _ => false) q) s0 w) as Hr'.
  { unfold reachable in *. eapply rtc_subrel; [|exact Hr]. intros a b Hab. inversion Hab; subst;
      econstructor; eauto. split; [done|]. by intros key H1. }
  apply world_evolves in Hr'. destruct (Hr' _ _ Hb) as (b' & Hb' & Hk). destruct b'; try done.
  destruct Hk as [Hid Hk]. injection Hid as E1 E2 E3 E4 E5 E6. rewrite Hs in Hk.
  unfold body_at in Hb'. destruct (objects (st w) !! installKey org id) as [o|] eqn:Hobj; [|done].
  simpl in Hb'. injection Hb' as Hb'.
  unfold LoadActiveInstall, getRecord. simpl. unfold store_Get. rewrite Hobj. simpl.
  unfold decoded. rewrite Hb'. simpl. rewrite E1, E2, Hsc, Ho, String.eqb_refl. simpl.
  rewrite bool_decide_eq_true_2; [done|]. destruct (in_Status r0); simpl in Hk; try done; lia.
Qed.

(** ** Resuming the transaction *)
Section Resume.
Context (org id token : string) (r0 : InstallRecord) (now : Z).
Context (Ht : organizationToken token = Some (org, id)) (named0 : in_InstallID r0 <> "").
Notation r := (requested org r0).

(** The invite can still be used by this request, and nobody else took the install id. *)
Definition invite_open (inv : InviteRecord) : Prop :=
  iv_Schema inv = schemaVersion
  /\ verifyToken token (token_prefix org) (iv_ID inv) (iv_SecretDigest inv) = true
  /\ iv_RevokedAt inv = None /\ now < iv_ExpiresAt inv
  /\ ((iv_ReservedInstallID inv = "" /\ iv_SpentAt inv = None) \/ reserved_for r inv = true).

Definition install_open (s : store) : Prop :=
  body_at s (installKey org (in_InstallID r)) = None
  \/ exists i, body_at s (installKey org (in_InstallID r)) = Some (SInstall i)
               /\ sameEnrollment i r = true /\ in_Status i <> InstallRevoked.

Definition resumable (s : store) : Prop :=
  (exists inv, body_at s (inviteKey org id) = Some (SInvite inv) /\ invite_open inv) /\ install_open s.

Definition only_invite (key : string) : bool := bool_decide (key = inviteKey org id).
Definition progress (s s' : store) : Prop := evolves only_invite s s' /\ (resumable s -> resumable s').

#[local] Instance progress_preorder : PreOrder progress.
Proof.
  split; [by split|]. intros a b c [H1 H2] [H3 H4]. split; [by etrans|auto].
Qed.

Lemma other_key s b k : k <> inviteKey org id -> body_at (store_put (inviteKey org id) b s) k = body_at s k.
Proof. intros H. rewrite body_at_put, decide_False; congruence. Qed.

Lemma install_open_put s b : install_open s -> install_open (store_put (inviteKey org id) b s).
Proof.
  unfold install_open. rewrite other_key; [done|]. apply not_eq_sym, invite_install_keys.
Qed.

Lemma replaced_invite s o i b :
  body o = SInvite i -> admits (WReplace (inviteKey org id) o b) s = true ->
  body_at s (inviteKey org id) = Some (SInvite i).
Proof.
  intros Hb Ha. simpl in Ha. unfold body_at. destruct (objects s !! inviteKey org id) as [c|]; [|done].
  apply same_version_body in Ha. simpl. congruence.
Qed.

Lemma progress_invite s o i i' :
  body o = SInvite i -> invite_keeps true i i' ->
  (invite_open i -> invite_open i') ->
  let w := WReplace (inviteKey org id) o (SInvite i') in admits w s = true -> progress s (applied w s).
Proof.
  intros Hb Hk Hopen w Ha. pose proof (replaced_invite _ _ _ _ Hb Ha) as Hcur. split.
  - apply forward_evolves; [|done]. simpl. rewrite Hb. unfold only_invite. by rewrite bool_decide_eq_true_2.
  - intros [(inv & Hinv & Ho) Hi]. split; [|by apply install_open_put].
    rewrite Hcur in Hinv. injection Hinv as <-. exists i'. split; [|auto].
    simpl. by rewrite body_at_put, decide_True by done.
Qed.

Lemma progress_install s key i' w :
  key = installKey org (in_InstallID r) ->
  w = WCreate key (SInstall i') \/
  (exists o i, w = WReplace key o (SInstall i') /\ body o = SInstall i /\ install_keeps i i') ->
  sameEnrollment i' r = true -> in_Status i' <> InstallRevoked ->
  admits w s = true -> progress s (applied w s).
Proof.
  intros -> Hw Hs Hr Ha.
  assert (applied w s = store_put (installKey org (in_InstallID r)) (SInstall i') s) as Happ.
  { destruct Hw as [->|(o & i & -> & _)]; done. }
  split.
  - apply forward_evolves; [|done]. destruct Hw as [->|(o & i & -> & Hb & Hk)]; [done|]. simpl. by rewrite Hb.
  - intros [(inv & Hinv & Ho) _]. rewrite Happ. split.
    + exists inv. split; [|done]. rewrite body_at_put, decide_False; [done|].
      apply not_eq_sym, invite_install_keys.
    + right. exists i'. split_and!; [|done..]. by rewrite body_at_put, decide_True by done.
Qed.

Lemma same_self st a b : sameEnrollment (created st a b r) r = true.
Proof. unfold sameEnrollment, sameEnrollmentIdentity. simpl. by rewrite !String.eqb_refl. Qed.

Lemma resume_holds s : holds progress (fun _ _ => True) (EnrollInvite org token r0) s.
Proof.
  apply (holds_weaken progress (enrolled_post only_invite org id r)); [done|].
  apply (EnrollInvite_ok only_invite org id r); try done.
  - by apply progress_preorder.
  - by intros s1 s2 [].
  - intros s1 i o t Hb Hu Hsp. apply progress_invite with (1 := Hb).
    + split; [by intros _ H|by split].
    + intros (A & B & C & D & _). split_and!; try done. right. by apply reserved_for_spec.
  - intros s1 t _ w. apply (progress_install _ _ (created InstallPending t t r) _ eq_refl); [by left|apply same_self|done].
  - intros s1 i o t Hres Hb Hsp w Ha. eapply progress_invite; [done| | |done].
    + split; [done|]. by rewrite Hsp.
    + intros (A & B & C & D & E). split_and!; try done. right.
      destruct (Hres (bool_decide_eq_true_2 _ eq_refl)) as (inv & Hinv & Hf).
      rewrite (replaced_invite _ _ _ _ Hb Ha) in Hinv. by injection Hinv as <-.
  - intros s1 i o t _ Hb Hp Hs w. apply (progress_install _ _ (set_status InstallActive t i) _ eq_refl); [|exact Hs|done].
    right. exists o, i. do 3 (split; [done|]). rewrite Hp. simpl. lia.
Qed.

(** A request alone on a store that answers. *)
Lemma run_read {T A} (P : option A * store -> Prop) (dec : stored -> option T) key (k : _ -> prog A) s b t :
  body_at s key = Some b -> dec b = Some t ->
  (forall o, body o = b -> (forall c, admits (WReplace key o c) s = true) -> P (run now (k (Ok (t, o))) s)) ->
  P (run now (getRecord dec key k) s).
Proof.
  unfold body_at. intros Hb Hd HP. destruct (objects s !! key) as [o|] eqn:Ho; [|done].
  simpl in Hb. injection Hb as <-. unfold getRecord, decoded. cbn [run]. unfold store_Get. rewrite Ho.
  cbn [rbind]. rewrite Hd. apply HP; [done|]. intros c. simpl. rewrite Ho. apply same_version_refl.
Qed.

Definition done_active (x : option outcome * store) : Prop :=
  x.1 = Some (Ok ()) /\ exists i, body_at x.2 (installKey org (in_InstallID r)) = Some (SInstall i)
                               /\ in_Status i = InstallActive /\ sameEnrollment i r = true.

Definition install_live (s : store) : Prop :=
  exists i, body_at s (installKey org (in_InstallID r)) = Some (SInstall i)
            /\ sameEnrollment i r = true /\ in_Status i <> InstallRevoked.

Lemma run_activate s : install_live s -> done_active (run now (enroll_activate org r) s).
Proof.
  intros (i & Hi & Hs & Hr). unfold enroll_activate.
  apply (run_read done_active as_install _ _ s _ i Hi eq_refl). intros o Ho Ha.
  cbn [bind_ret]. case_bool_decide as Hst.
  { simpl. rewrite Hs. split; [done|]. by exists i. }
  rewrite Hs. case_bool_decide as Hp; [|by destruct (in_Status i)]. cbn [negb orb run replaceRecord]. rewrite Ha.
  simpl. split; [done|]. eexists. split; [simpl; by rewrite body_at_put, decide_True by done|]. by split.
Qed.

Lemma run_spend s inv :
  body_at s (inviteKey org id) = Some (SInvite inv) -> install_live s ->
  done_active (run now (enroll_spend org id r) s).
Proof.
  intros Hv Hi. unfold enroll_spend.
  apply (run_read done_active as_invite _ _ s _ inv Hv eq_refl). intros o Ho Ha.
  cbn [bind_ret]. destruct (iv_SpentAt inv); [by apply run_activate|].
  cbn [run replaceRecord retry_or]. rewrite Ha. apply run_activate.
  unfold install_live. simpl applied. rewrite other_key; [done|]. apply not_eq_sym, invite_install_keys.
Qed.

Lemma run_install s inv t :
  body_at s (inviteKey org id) = Some (SInvite inv) -> install_open s ->
  done_active (run now (enroll_install org id t r) s).
Proof.
  intros Hv [Hn|(i & Hi & Hs & Hr)]; unfold enroll_install.
  - unfold getRecord. cbn [run]. unfold store_Get, body_at in *.
    destruct (objects s !! installKey org (in_InstallID r)) eqn:Ho; [done|].
    cbn [rbind createRecord run admits]. rewrite Ho. cbn [bool_decide retry_or].
    apply (run_spend _ inv).
    + simpl applied. rewrite body_at_put, decide_False; [done|]. apply not_eq_sym, invite_install_keys.
    + eexists. split_and!; [simpl; by rewrite body_at_put, decide_True by done|apply same_self|done].
  - apply (run_read done_active as_install _ _ s _ i Hi eq_refl). intros o Ho Ha.
    rewrite Hs. rewrite bool_decide_eq_false_2 by done. cbn [negb orb].
    case_bool_decide as Hact; [|apply (run_spend _ inv); [done|by exists i]].
    split; [done|]. by exists i.
Qed.

Lemma run_enroll s : resumable s -> done_active (run now (EnrollInvite org token r0) s).
Proof.
  intros [(inv & Hv & A & B & C & D & E) Hi]. unfold EnrollInvite. rewrite Ht, String.eqb_refl. cbn [negb].
  apply (run_read done_active as_invite _ _ s _ inv Hv eq_refl). intros o Ho Ha.
  cbn [run]. rewrite A, B, C. rewrite Z.eqb_refl. rewrite (bool_decide_eq_true_2 (None = None)) by done.
  rewrite (proj2 (Z.ltb_lt _ _) D). cbn [negb orb andb]. rewrite andb_false_r.
  assert (negb (bool_decide (iv_SpentAt inv = None)) && negb (reserved_for r inv) = false) as ->.
  { destruct E as [[_ E]|E]; rewrite E; [by rewrite bool_decide_eq_true_2|apply andb_false_r]. }
  unfold enroll_reserve. destruct E as [[E1 E2]|E].
  - rewrite E1. cbn [String.eqb run replaceRecord retry_or]. rewrite Ha.
    apply (run_install _ (reserve r now inv)); [simpl; by rewrite body_at_put, decide_True by done|].
    by apply install_open_put.
  - rewrite E. pose proof E as E'. apply reserved_for_spec in E' as [E1 _].
    rewrite (proj2 (String.eqb_neq _ _)) by (rewrite E1; done). cbn [negb]. by apply (run_install _ inv).
Qed.

End Resume.

(** The invite transaction can be resumed. Whatever copies of one enrollment request have run,
    together or one after the other, with writes refused, lost or half told, and stopped after any of
    their steps, sending the request once more to a store that answers completes it in one turn: it
    succeeds and the install is active. *)
Theorem enrollment_resumes s0 w org id token r0 now :
  organizationToken token = Some (org, id) -> in_InstallID r0 <> "" ->
  resumable org id token r0 now s0 ->
  reachable handler (fun q => q = REnrollInvite org token r0) s0 w ->
  done_active org r0 (run now (EnrollInvite org token r0) (st w)).
Proof.
  intros Ht Hn H0 Hr. apply (run_enroll org id token r0 now Ht Hn).
  pose proof (progress_preorder org id token r0 now).
  refine (proj1 (reachable_ok (progress org id token r0 now) handler _ (resumable org id token r0 now)
                   (fun _ _ _ => True) _ _ s0 w H0 Hr)).
  - intros s s' Hs [_ Hp]. auto.
  - intros q s -> _. by apply resume_holds.
Qed.

End Props.

(** Concrete fleet worlds: schedules of requests on a store that answers, the witnesses of the theorems
    of [FleetProps], and the interleaving in which a released invite enrolls two installs. *)

Notation drive := (FleetLogic.drive handler).
Notation start := (FleetLogic.start handler).

(** ** A deployment: one organization, one invite *)
Module SampleEnroll.

#[local] Existing Instance generations.

Definition org : string := "acme".
Definition uuid : string := "3d4f7c1e-9a2b-4c5d-8e6f-0a1b2c3d4e5f".
Definition secret : list Z := map Z.of_nat (seq 1 32).
Definition expires : Z := 2000.
Definition now : Z := 1000.
Definition empty_store : store := mkStore ∅ 0.
Definition invited : option outcome * store :=
  run now (handler (RCreateInvite org uuid secret expires)) empty_store.
Definition store0 : store := Eval vm_compute in invited.2.
Definition token : string := Eval vm_compute in (mintToken (token_prefix org) uuid secret).1.1.

Definition laptop (id key digest : string) : InstallRecord :=
  mkInstall 0 "" id key "age1laptop" "host" "linux" digest InstallPending 0 0 None.
Definition alice : InstallRecord := laptop "aaaaaaaa-0000-4000-8000-000000000001" "keyA" "digestA".
Definition bob : InstallRecord := laptop "bbbbbbbb-0000-4000-8000-000000000002" "keyB" "digestB".
Definition ask (r : InstallRecord) : request := REnrollInvite org token r.

Lemma minted : organizationToken token = Some (org, uuid) /\ invited = (Some (Ok ()), store0).
Proof. split; vm_compute; reflexivity. Qed.

Definition w0 : @world request := mkWorld store0 ∅.
Lemma w0_reachable allowed : reachable handler allowed store0 w0.
Proof. apply rtc_refl. Qed.

(** Alice's request stops after it reserved the invite; an administrator, finding no install, releases
    the reservation; Bob reserves it; then Alice's request goes on, and so does Bob's. *)
Definition reserved : @world request := drive now (replicate 3 0%nat) (start 0 (ask alice) w0).
Definition released : @world request := drive now (replicate 3 1%nat) (start 1 (RReleaseInvite org uuid) reserved).
Definition taken : @world request := drive now (replicate 3 2%nat ++ replicate 8 0%nat ++ replicate 6 2%nat) (start 2 (ask bob) released).

Definition active_record (r : InstallRecord) (w : @world request) : bool :=
  match body_at (st w) (installKey org (in_InstallID r)) with
  | Some (SInstall i) => bool_decide (in_Status i = InstallActive) && sameEnrollment i (requested org r)
  | _ => false
  end.

(** C21: One invite can enroll two installs. A request that reserved an invite and stalled is not told
    that its reservation was released: it spends the invite another install holds by then and goes on
    to be active, and so does the other. *)
Theorem released_invite_enrolls_two :
  exists w, reachable handler named store0 w
    /\ threads w !! 0%nat = Some (ask alice, Ret (Ok ()))
    /\ threads w !! 2%nat = Some (ask bob, Ret (Ok ()))
    /\ active_record alice w = true /\ active_record bob w = true
    /\ in_InstallID alice <> in_InstallID bob.
Proof.
  exists taken. split_and!.
  - apply (start_drive handler); [vm_compute; reflexivity|done|].
    apply (start_drive handler); [vm_compute; reflexivity|done|].
    apply (start_drive handler); [vm_compute; reflexivity|done|apply w0_reachable].
  - vm_compute. reflexivity.
  - vm_compute. reflexivity.
  - vm_compute. reflexivity.
  - vm_compute. reflexivity.
  - discriminate.
Qed.

(** The same request twice, the second after the first. *)
Definition twice : @world request :=
  drive now (replicate 4 1%nat) (start 1 (ask alice) (drive now (replicate 11 0%nat) (start 0 (ask alice) w0))).

Lemma twice_reachable (allowed : request -> Prop) : allowed (ask alice) -> reachable handler allowed store0 twice.
Proof.
  intros Ha. apply (start_drive handler); [vm_compute; reflexivity|done|].
  apply (start_drive handler); [vm_compute; reflexivity|done|apply w0_reachable].
Qed.

Lemma invite_enrolls_one_witness :
  in_InstallID alice = in_InstallID alice /\ in_EnrollmentDigest alice = in_EnrollmentDigest alice
  /\ install_enrolled org (requested org alice) (st twice).
Proof.
  apply (invite_enrolls_one store0 twice org uuid 0 1 token token alice alice).
  - vm_compute. reflexivity.
  - vm_compute. reflexivity.
  - apply twice_reachable. split; [discriminate|intros []].
  - vm_compute. reflexivity.
  - vm_compute. reflexivity.
Defined.

Definition revoked_store : store := (run now (handler (RRevokeInstall org (in_InstallID alice))) (st twice)).2.
Definition revoked_record : InstallRecord :=
  revoke_install now (set_status InstallActive now (created InstallPending now now (requested org alice))).
Definition again : @world request := drive now (replicate 11 0%nat) (start 0 (ask alice) (mkWorld revoked_store ∅)).

Lemma revocation_final_witness :
  run now (LoadActiveInstall org (in_InstallID alice) Ret) (st again) = (Some (Err ErrRevokedInstall), st again).
Proof.
  apply (revocation_final revoked_store again org (in_InstallID alice) revoked_record now).
  - vm_compute. reflexivity.
  - reflexivity.
  - reflexivity.
  - reflexivity.
  - apply (start_drive handler); [vm_compute; reflexivity|discriminate|apply rtc_refl].
Defined.

Lemma enrollment_resumes_witness :
  done_active org alice (run now (EnrollInvite org token alice) (st (drive now (replicate 5 0%nat) (start 0 (ask alice) w0)))).
Proof.
  apply (enrollment_resumes store0 _ org uuid token alice now).
  - vm_compute. reflexivity.
  - discriminate.
  - split; [|left; vm_compute; reflexivity]. eexists. split; [vm_compute; reflexivity|].
    split_and!; [vm_compute; reflexivity..|left; split; vm_compute; reflexivity].
  - apply (start_drive handler); [vm_compute; reflexivity|reflexivity|apply w0_reachable].
Defined.

End SampleEnroll.
