(* ===== verification/FleetSeen.v ===== *)
(** Client facts at the fleet manager ([fleet-manager/src/seen.go], and the bounded text of
    [health.go]): the stamp a request leaves, throttled to one write a minute, and the catalog a
    configuration fetch reports, stored before the stamp that names it. *)

From S2P Require Import Prelude GoLib GoTime GoJson GoText FleetStore.

Definition seenWriteInterval : Z := minute.

(** ** Bounded text, rune by rune *)

(** The runes of a byte string, each as its UTF-8 bytes; a byte that starts none is U+FFFD. *)
Fixpoint runes_loop (fuel : nat) (s : string) : list string :=
  match fuel, s with
  | S f, String c r =>
      match rune_len s with
      | O => replacement :: runes_loop f r
      | n => String.substring 0 n s :: runes_loop f (str_drop n s)
      end
  | _, _ => []
  end.
Definition runes (s : string) : list string := runes_loop (String.length s) s.

(** [unicode.IsControl]: U+0000 to U+001F and U+007F to U+009F. *)
Definition rune_IsControl (r : string) : bool :=
  match r with
  | String c "" => (byte_code c <? 32) || (byte_code c =? 127)
  | String c (String d "") => (byte_code c =? 194) && (byte_code d <=? 159)
  | _ => false
  end.

Definition boundedText (value : string) (max : nat) : string :=
  String.concat "" (List.filter (fun r => negb (rune_IsControl r)) (take max (trim_runes (runes value)))).
Definition clientFact (value : string) : string := boundedText value 200.

(** ** Touch *)

Record reportedCatalog := mkReported { rc_Digest : string; rc_Record : string }.
Record clientFacts := mkFacts {
  cf_Version : string; cf_OS : string; cf_BootedAt : string; cf_Catalog : option reportedCatalog
}.
Inductive seenEvent := seenEnrollment | seenConfig | seenVend.

Definition no_seen : SeenRecord := mkSeen 0 "" "" "" "" None None 0 "".

Definition unchanged (rec : SeenRecord) (facts : clientFacts) : bool :=
  (se_OS rec =? cf_OS facts)%string && (se_BootedAt rec =? cf_BootedAt facts)%string
  && (se_ClientVersion rec =? cf_Version facts)%string.
Definition eventTime (rec : SeenRecord) (event : seenEvent) : option Z :=
  match event with seenConfig => se_LastConfigAt rec | seenVend => se_LastVendAt rec | seenEnrollment => None end.

(** [recordIDFromKey], [path.Base] without its [.json]: the last segment of a key that ends in no
    slash. *)
Definition recordIDFromKey (key : string) : string := trim_suffix ".json" (List.last (split_on "/" key) "").
Definition validSeenRecord (rec : SeenRecord) (key : string) : bool :=
  (se_Schema rec =? schemaVersion) && (se_InstallID rec =? recordIDFromKey key)%string.

(** What the record at the key says, once read: an unusable one says nothing. *)
Definition seen_before (key : string) (r : result ferror object) : result ferror SeenRecord :=
  match r with
  | Err ErrNotFound => Ok no_seen
  | Err e => Err e
  | Ok o => Ok (match as_seen (body o) with
                | Some rec => if validSeenRecord rec key then rec else no_seen
                | None => no_seen
                end)
  end.

Definition digest_after (rec : SeenRecord) (event : seenEvent) (facts : clientFacts) : string :=
  match event with
  | seenConfig => match cf_Catalog facts with Some c => rc_Digest c | None => "" end
  | _ => se_CatalogDigest rec
  end.

Definition throttled (now : Z) (rec : SeenRecord) (event : seenEvent) (facts : clientFacts) : bool :=
  unchanged rec facts && (digest_after rec event facts =? se_CatalogDigest rec)%string
  && match eventTime rec event with Some t => now - t <? seenWriteInterval | None => false end.

Definition stamped (installID : string) (now : Z) (rec : SeenRecord) (event : seenEvent) (facts : clientFacts) :
    SeenRecord :=
  mkSeen schemaVersion installID (cf_OS facts) (cf_BootedAt facts) (cf_Version facts)
    (match event with seenConfig => Some now | _ => se_LastConfigAt rec end)
    (match event with seenVend => Some now | _ => se_LastVendAt rec end)
    now (digest_after rec event facts).

Section Touch.
Context {A : Type}.

Definition put_seen (org installID : string) (now : Z) (rec : SeenRecord) (event : seenEvent) (facts : clientFacts)
    (k : result ferror () -> prog A) : prog A :=
  Write (WPut (seenKey org installID) (SSeen (stamped installID now rec event facts))) k.

Definition Touch (org installID : string) (event : seenEvent) (facts : clientFacts)
    (k : result ferror () -> prog A) : prog A :=
  Now (fun now =>
  Get (seenKey org installID) (fun r =>
    match seen_before (seenKey org installID) r with
    | Err e => k (Err e)
    | Ok rec =>
        let digest := digest_after rec event facts in
        if throttled now rec event facts then k (Ok ())
        else if negb (digest =? se_CatalogDigest rec)%string && negb (digest =? "")%string then
          Write (WCreate (catalogKey org digest)
                   (SOther (match cf_Catalog facts with Some c => rc_Record c | None => "" end)))
            (fun w => match w with
                      | Ok _ | Err ErrConflict => put_seen org installID now rec event facts k
                      | Err e => k (Err e)
                      end)
        else put_seen org installID now rec event facts k
    end)).

(** [s.touch]: the outcome is logged at most. *)
Definition touch (org installID : string) (event : seenEvent) (facts : clientFacts) (k : prog A) : prog A :=
  Touch org installID event facts (fun _ => k).
End Touch.

(** ** Facts *)

Example fact_bounds :
  (clientFact (String "009" "  v1.2" +:+ String "010" " "), boundedText (String "195" (String "169" "ab")) 2,
   boundedText (String "a" (String "007" (String "255" "b"))) 9)
  = ("v1.2", String "195" (String "169" "a"), "a" +:+ replacement +:+ "b").
Proof. vm_compute. reflexivity. Qed.

(** Whatever the client sends, the text kept has at most [max] runes and none is a control. *)
Lemma boundedText_bounded value max :
  exists l, boundedText value max = String.concat "" l /\ (length l <= max)%nat
            /\ Forall (fun r => rune_IsControl r = false) l.
Proof.
  eexists. split; [reflexivity|]. split.
  - etrans; [apply List.filter_length_le|]. rewrite length_take. lia.
  - apply Forall_forall. intros r Hr. apply list_elem_of_In, List.filter_In in Hr as [_ Hr]. by apply negb_true_iff.
Qed.

Section Run.
Context `{!Provider}.

(** Alone on a store that answers, a stamp leaves everything but its own two keys as it was, writes
    nothing inside the throttle window, and otherwise leaves the stamp of this event. *)
Lemma run_touch {A} org id event facts (k : prog A) now s :
  exists s', run now (touch org id event facts k) s = run now k s'
    /\ (forall key, key <> seenKey org id ->
          (forall c, cf_Catalog facts = Some c -> key <> catalogKey org (rc_Digest c)) ->
          objects s' !! key = objects s !! key)
    /\ match seen_before (seenKey org id) (store_Get (seenKey org id) s) with
       | Err _ => s' = s
       | Ok rec => if throttled now rec event facts then s' = s
                   else body <$> objects s' !! seenKey org id = Some (SSeen (stamped id now rec event facts))
       end.
Proof.
  unfold touch, Touch. cbn [run].
  destruct (seen_before (seenKey org id) (store_Get (seenKey org id) s)) as [rec|e]; [|by exists s].
  destruct (throttled now rec event facts) eqn:Ht; [by exists s|].
  assert (forall s1, exists s', run now (put_seen org id now rec event facts (fun _ => k)) s1 = run now k s'
     /\ (forall key, key <> seenKey org id -> objects s' !! key = objects s1 !! key)
     /\ body <$> objects s' !! seenKey org id = Some (SSeen (stamped id now rec event facts))) as Hput.
  { intros s1. eexists. split; [reflexivity|]. simpl. split.
    - intros key Hk. by rewrite lookup_insert_ne by congruence.
    - by rewrite lookup_insert_eq. }
  destruct (negb (digest_after rec event facts =? se_CatalogDigest rec)%string
            && negb (digest_after rec event facts =? "")%string) eqn:Hd.
  - cbn [run]. boolp. destruct (admits _ s) eqn:Ha.
    + destruct (Hput (applied (WCreate (catalogKey org (digest_after rec event facts))
        (SOther (match cf_Catalog facts with Some c => rc_Record c | None => "" end))) s)) as (s' & -> & Hk & Hs).
      exists s'. split_and!; [done| |done]. intros key Hk1 Hk2. rewrite Hk by done. simpl.
      rewrite lookup_insert_ne; [done|]. intros <-.
      destruct event; simpl in *; try done. destruct (cf_Catalog facts) as [c|]; [|done]. by apply (Hk2 c).
    + destruct (Hput s) as (s' & -> & Hk & Hs). exists s'. split_and!; auto.
  - destruct (Hput s) as (s' & -> & Hk & Hs). exists s'. split_and!; auto.
Qed.
End Run.
