(* ===== verification/FleetIssue.v ===== *)
(** Upload authorization at the fleet manager ([fleet-manager/src/upload.go], and the authorization
    handler of [server.go]): the request's validation against the install's own root and the closed
    metadata set, the deduplication probe, and the check of what the signer returned. *)

From S2P Require Import Prelude GoLib GoUrl GoTime Crypto Naming FleetStore FleetToken.

Definition uploadMaxObjects : Z := 32.
Definition uploadMaxObjectBytes : Z := Z.shiftl 1 30.
Definition uploadMaxBatchBytes : Z := Z.shiftl 1 30.
Definition uploadIssuedAtMaxAge : Z := 5 * minute.
Definition uploadIssuedAtSkew : Z := minute.
Definition uploadTicketLifetime : Z := 5 * minute.

(** ** The two messages *)

Record uploadObject := mkUpObject {
  up_ObjectID : string;
  up_Key : string;
  up_Size : Z;
  up_SourceHash : string;
  up_Metadata : gmap string string
}.

(** [issued_at] is [None] for the zero time. *)
Record uploadAuthorizeRequest := mkUpRequest {
  up_WriterID : string;
  up_IssuedAt : option Z;
  up_Objects : list uploadObject
}.

Record UploadObjectRequest := mkObjReq {
  or_ObjectID : string;
  or_TicketID : string;
  or_Key : string;
  or_Size : Z;
  or_Metadata : gmap string string;
  or_Tagging : string;
  Mirror : bool
}.

Record UploadBatch := mkBatch {
  b_IssuedAt : Z;
  b_ExpiresAt : Z;
  b_Objects : list UploadObjectRequest
}.

Record uploadTicket := mkUpTicket {
  ut_TicketID : string;
  ut_ObjectID : string;
  ut_Method : string;
  ut_URL : string;
  ut_ExpiresAt : Z;
  ut_RequiredHeaders : gmap string string;
  ut_ContentLength : Z;
  ut_ContentLengthSigned : bool;
  ut_AlreadyPresent : bool
}.

(** The already-present answer carries the two ids and no capability ([alreadyPresentTicket]). *)
Definition alreadyPresent (ticketID objectID : string) : uploadTicket :=
  mkUpTicket ticketID objectID "" "" 0 ∅ 0 false true.

(** ** The regular expressions, as the byte tests they are *)

Definition length_within (lo hi : Z) (s : string) : bool := (lo <=? slen s) && (slen s <=? hi).
Definition uploadUUIDRe (s : string) : bool := bool_decide (is_Some (uuidParse s)).
Definition objectid_byte (c : ascii) : bool :=
  isAlnum c || (c =? ".")%char || (c =? "_")%char || (c =? ":")%char || (c =? "-")%char.
Definition uploadObjectIDRe (s : string) : bool :=
  match s with String c r => isAlnum c && str_forallb objectid_byte r && (slen r <=? 127) | "" => false end.
Definition uploadHashRe (s : string) : bool := sha256_ok s.
Definition uploadIdentRe (s : string) : bool := identifierRe s.
Definition uploadVersionRe (s : string) : bool :=
  match s with String c r => in_range "1" "9" c && str_forallb is_digit r && (slen r <=? 8) | "" => false end.
Definition uploadAgentRe (s : string) : bool :=
  str_forallb (fun c => (32 <=? byte_code c) && (byte_code c <=? 126)) s && length_within 1 128 s.

(** A lower-case UUID, as the install segment of a key spells it. *)
Definition lower_uuid (s : string) : bool := bool_decide (uuidParse s = Some s).

(** [mirrorKeyRe] and its three groups: no group can hold a slash, so the expression is a test of the
    slash-separated segments. *)
Definition mirrorKeyRe (key : string) : option (string * string * string) :=
  match split_on "/" key with
  | [v; o; i; m; s; n] =>
      if (v =? "v1")%string && has_prefix "organization=" o && has_prefix "install=" i && (m =? "mirror")%string
         && has_prefix "source=" s then
        let org := trim_prefix "organization=" o in
        let inst := trim_prefix "install=" i in
        let src := trim_prefix "source=" s in
        match cut_suffix ".age" n with
        | Some h => if identifierRe org && lower_uuid inst && identifierRe src && sha256_ok h
                    then Some (org, inst, src) else None
        | None => None
        end
      else None
  | _ => None
  end.
Definition heartbeatKeyRe (key : string) : option (string * string) :=
  match split_on "/" key with
  | [v; o; i; m; n] =>
      if (v =? "v1")%string && has_prefix "organization=" o && has_prefix "install=" i && (m =? "state")%string
         && (n =? "heartbeat.json.age")%string then
        let org := trim_prefix "organization=" o in
        let inst := trim_prefix "install=" i in
        if identifierRe org && lower_uuid inst then Some (org, inst) else None
      else None
  | _ => None
  end.

(** ** Metadata rules *)

Record uploadMetadataRule := mkRule { required : bool; valid : string -> bool }.

Definition uploadMirrorMetadata : gmap string uploadMetadataRule :=
  list_to_map
    [ ("manifest-version", mkRule true uploadVersionRe); ("source-id", mkRule true uploadIdentRe);
      ("shipped-hash", mkRule true uploadHashRe); ("artifact-class", mkRule true uploadIdentRe);
      ("agent-version", mkRule false uploadAgentRe); ("shape-sniff", mkRule false uploadIdentRe);
      ("derived", mkRule false (fun v => (v =? "true")%string)); ("enrich-status", mkRule false uploadIdentRe) ].
Definition uploadHeartbeatMetadata : gmap string uploadMetadataRule :=
  {[ "kind" := mkRule true (fun v => (v =? "heartbeat")%string) ]}.
Definition uploadServerDerived (name : string) : bool :=
  (name =? "source-hash")%string || (name =? "ticket-id")%string.

Inductive issue_error :=
  | WriterNotUUID
  | IssuedAtMissing
  | IssuedAtOld
  | IssuedAtAhead
  | ObjectCount
  | ObjectIDInvalid (object_id : string)
  | ObjectIDTwice (object_id : string)
  | KeyTwice (object_id : string)
  | SizeOutside (object_id : string)
  | SourceHashMalformed (object_id : string)
  | StoredInstallInvalid (object_id : string)
  | KeyOutsideRoot (object_id : string)
  | KeySourceDiffers (object_id : string)
  | KeyUnknown (object_id : string)
  | MetadataServerDerived (object_id name : string)
  | MetadataNotAllowed (object_id name : string)
  | MetadataInvalid (object_id name : string)
  | MetadataRequired (object_id name : string)
  | BatchTooLarge.

Definition sorted_keys {V} (m : gmap string V) : list string :=
  merge_sort (fun a b => Is_true (str_leb a b)) (map_to_list m).*1.

Fixpoint first_error {A} (f : A -> result issue_error ()) (l : list A) : result issue_error () :=
  match l with [] => Ok () | x :: r => let! _ := f x in first_error f r end.

Definition check_meta (id : string) (meta : gmap string string) (allowed : gmap string uploadMetadataRule)
    (name : string) : result issue_error () :=
  if uploadServerDerived name then Err (MetadataServerDerived id name)
  else match allowed !! name with
       | None => Err (MetadataNotAllowed id name)
       | Some rule =>
           if negb (valid rule (default "" (meta !! name))) then Err (MetadataInvalid id name) else Ok ()
       end.
Definition check_required (id : string) (meta : gmap string string) (allowed : gmap string uploadMetadataRule)
    (name : string) : result issue_error () :=
  match allowed !! name with
  | Some rule =>
      if required rule && (default "" (meta !! name) =? "")%string then Err (MetadataRequired id name) else Ok ()
  | None => Ok ()
  end.

(** [validateUploadMetadata]: the copy it returns holds the names that passed, which is all of them. *)
Definition validateUploadMetadata (id : string) (meta : gmap string string)
    (allowed : gmap string uploadMetadataRule) : result issue_error (gmap string string) :=
  let! _ := first_error (check_meta id meta allowed) (sorted_keys meta) in
  let! _ := first_error (check_required id meta allowed) (sorted_keys allowed) in
  Ok meta.

(** ** The request *)

Definition allowed_for (obj : uploadObject) (rec : InstallRecord) (canonical : string) :
    result issue_error (gmap string uploadMetadataRule * bool) :=
  let id := up_ObjectID obj in
  match mirrorKeyRe (up_Key obj) with
  | Some (org, inst, src) =>
      if negb (org =? in_Organization rec)%string || negb (inst =? canonical)%string then Err (KeyOutsideRoot id)
      else if negb (default "" (up_Metadata obj !! "source-id") =? src)%string then Err (KeySourceDiffers id)
      else Ok (uploadMirrorMetadata, true)
  | None =>
      match heartbeatKeyRe (up_Key obj) with
      | Some (org, inst) =>
          if negb (org =? in_Organization rec)%string || negb (inst =? canonical)%string then Err (KeyOutsideRoot id)
          else Ok (uploadHeartbeatMetadata, false)
      | None => Err (KeyUnknown id)
      end
  end.

Definition validateUploadObject (obj : uploadObject) (rec : InstallRecord) :
    result issue_error UploadObjectRequest :=
  let id := up_ObjectID obj in
  if (up_Size obj <=? 0) || (uploadMaxObjectBytes <? up_Size obj) then Err (SizeOutside id)
  else if negb (uploadHashRe (up_SourceHash obj)) then Err (SourceHashMalformed id)
  else
    match uuidParse (in_InstallID rec) with
    | None => Err (StoredInstallInvalid id)
    | Some canonical =>
        let! am := allowed_for obj rec canonical in
        let! meta := validateUploadMetadata id (up_Metadata obj) am.1 in
        Ok (mkObjReq id "" (up_Key obj) (up_Size obj) (<["source-hash" := up_SourceHash obj]> meta) "" am.2)
    end.

Fixpoint validate_objects (rec : InstallRecord) (ids keys : gset string) (total : Z) (l : list uploadObject) :
    result issue_error (list UploadObjectRequest) :=
  match l with
  | [] => Ok []
  | obj :: r =>
      if negb (uploadObjectIDRe (up_ObjectID obj)) then Err (ObjectIDInvalid (up_ObjectID obj))
      else if bool_decide (up_ObjectID obj ∈ ids) then Err (ObjectIDTwice (up_ObjectID obj))
      else if bool_decide (up_Key obj ∈ keys) then Err (KeyTwice (up_ObjectID obj))
      else
        let! v := validateUploadObject obj rec in
        let total := total + up_Size obj in
        if uploadMaxBatchBytes <? total then Err BatchTooLarge
        else let! out := validate_objects rec ({[ up_ObjectID obj ]} ∪ ids) ({[ up_Key obj ]} ∪ keys) total r in
             Ok (v :: out)
  end.

Definition validateUploadRequest (req : uploadAuthorizeRequest) (rec : InstallRecord) (now : Z) :
    result issue_error (list UploadObjectRequest) :=
  if negb (uploadUUIDRe (up_WriterID req)) then Err WriterNotUUID
  else
    match up_IssuedAt req with
    | None => Err IssuedAtMissing
    | Some at_ =>
        let age := now - at_ in
        if uploadIssuedAtMaxAge <? age then Err IssuedAtOld
        else if age <? - uploadIssuedAtSkew then Err IssuedAtAhead
        else if bool_decide (up_Objects req = []) || (uploadMaxObjects <? Zlen (up_Objects req)) then Err ObjectCount
        else validate_objects rec ∅ ∅ 0 (up_Objects req)
    end.

(** ** Deduplication *)

Record StoredHashes := mkHashes { h_Source : string; h_Shipped : string }.

Definition stored_matches (held : StoredHashes) (object : UploadObjectRequest) : bool :=
  (h_Source held =? default "" (or_Metadata object !! "source-hash"))%string
  && negb (h_Shipped held =? "")%string
  && (h_Shipped held =? default "" (or_Metadata object !! "shipped-hash"))%string.

(** [probe] is the store's answer for a key, in whatever order the reads end: any failure, an absent key
    included, keeps the object. *)
Definition probeStored (probe : string -> result ferror StoredHashes) (objects : list UploadObjectRequest) :
    list bool :=
  map (fun object => match probe (or_Key object) with Ok held => stored_matches held object | Err _ => false end)
    objects.

Definition splitAlreadyStored (probe : string -> result ferror StoredHashes) (objects : list UploadObjectRequest) :
    list UploadObjectRequest * list uploadTicket :=
  let mirrors := List.filter Mirror objects in
  match mirrors with
  | [] => (objects, [])
  | _ =>
      let stored : gmap string bool :=
        foldl (fun m p => <[or_ObjectID p.1 := p.2]> m) ∅ (combine mirrors (probeStored probe mirrors)) in
      let held object := default false (stored !! or_ObjectID object) in
      (List.filter (fun object => negb (held object)) objects,
       map (fun object => alreadyPresent (or_TicketID object) (or_ObjectID object)) (List.filter held objects))
  end.

(** ** What the signer returned *)

Inductive dialect := aws | gcp | azure_blob.
#[global] Instance dialect_eq_dec : EqDecision dialect.
Proof. solve_decision. Defined.

Definition header_dialect (name : string) : option dialect :=
  if has_prefix "x-amz-" name then Some aws
  else if has_prefix "x-goog-" name then Some gcp
  else if has_prefix "x-ms-" name then Some azure_blob
  else None.

(** One pass over the names, in any order: lower case, one provider's. *)
Fixpoint headers_dialect (names : list string) (found : option dialect) : option (option dialect) :=
  match names with
  | [] => Some found
  | name :: r =>
      if negb (name =? to_lower name)%string then None
      else match header_dialect name with
           | None => None
           | Some d => if bool_decide (found = None) || bool_decide (found = Some d)
                       then headers_dialect r (Some d) else None
           end
  end.

Definition meta_header (d : dialect) (name : string) : string :=
  match d with
  | aws => "x-amz-meta-" +:+ to_lower name
  | gcp => "x-goog-meta-" +:+ to_lower name
  | azure_blob => "x-ms-meta-" +:+ replace_byte "-" "_" (to_lower name)
  end.

Definition wanted_headers (d : dialect) (object : UploadObjectRequest) : gmap string string :=
  let want : gmap string string :=
    list_to_map (map (fun p => (meta_header d p.1, p.2)) (map_to_list (or_Metadata object))) in
  match d with
  | aws => if (or_Tagging object =? "")%string then want else <["x-amz-tagging" := or_Tagging object]> want
  | gcp => want
  | azure_blob =>
      let want := <["x-ms-blob-type" := "BlockBlob"]> want in
      if (or_Tagging object =? "")%string then want else <["x-ms-tags" := or_Tagging object]> want
  end.

Definition validateTicketHeaders (object : UploadObjectRequest) (headers : gmap string string) : bool :=
  negb (bool_decide (headers = ∅))
  && match headers_dialect (map_to_list headers).*1 None with
     | Some (Some d) =>
         let want := wanted_headers d object in
         (Z.of_nat (size headers) =? Z.of_nat (size want))
         && forallb (fun p => (default "" (headers !! p.1) =? p.2)%string) (map_to_list want)
     | _ => false
     end.

Definition ticketSchemeAllowed (u : URL) : bool :=
  (Scheme u =? "https")%string
  || ((Scheme u =? "http")%string
      && ((Url.Hostname u =? "localhost")%string || IP.is_loopback (Url.Hostname u))).

Definition ticket_url_ok (raw : string) (key : string) : bool :=
  match Url.Parse raw with
  | None => false
  | Some u =>
      negb (Host u =? "")%string && negb (User u) && ticketSchemeAllowed u
      && has_suffix ("/" +:+ key) (Path u)
  end.

Definition ticket_ok (batch : UploadBatch) (object : UploadObjectRequest) (t : uploadTicket) : bool :=
  (ut_TicketID t =? or_TicketID object)%string && (ut_Method t =? "PUT")%string
  && (ut_ContentLength t =? or_Size object) && ut_ContentLengthSigned t
  && (ut_ExpiresAt t <=? b_ExpiresAt batch) && (b_IssuedAt batch <? ut_ExpiresAt t)
  && ticket_url_ok (ut_URL t) (or_Key object)
  && validateTicketHeaders object (ut_RequiredHeaders t).

Fixpoint validate_tickets (batch : UploadBatch) (objects : gmap string UploadObjectRequest) (seen : gset string)
    (l : list uploadTicket) : bool :=
  match l with
  | [] => true
  | t :: r =>
      match objects !! ut_ObjectID t with
      | None => false
      | Some object =>
          if bool_decide (ut_ObjectID t ∈ seen) then false
          else ticket_ok batch object t && validate_tickets batch objects ({[ ut_ObjectID t ]} ∪ seen) r
      end
  end.

Definition objects_by_id (l : list UploadObjectRequest) : gmap string UploadObjectRequest :=
  foldl (fun m o => <[or_ObjectID o := o]> m) ∅ l.

Definition validateTicketBatch (batch : UploadBatch) (tickets : list uploadTicket) : bool :=
  (Zlen tickets =? Zlen (b_Objects batch))
  && validate_tickets batch (objects_by_id (b_Objects batch)) ∅ tickets.

(** ** handleUploadAuthorize *)

Inductive authorize_refusal := Malformed | Invalid (e : issue_error) | SignerFailed | SignerInvalid.
Inductive authorize_answer := Refused (status : Z) (why : authorize_refusal) | Issued (tickets : list uploadTicket).

Definition with_ticket (o : UploadObjectRequest) (id : string) : UploadObjectRequest :=
  mkObjReq (or_ObjectID o) id (or_Key o) (or_Size o) (<["ticket-id" := id]> (or_Metadata o)) (or_Tagging o) (Mirror o).

(** The service's view of the world outside: the JSON decoder, the UUIDs drawn for the objects, the
    store's hash metadata, and the provider's signer. *)
Class SignerNet := {
  decode_authorize : string -> option uploadAuthorizeRequest;
  ticket_ids : nat -> string;
  probe : string -> result ferror StoredHashes;
  Authorize : string -> string -> UploadBatch -> option (list uploadTicket)
}.

Section Handler.
Context {net : SignerNet} {A : Type}.

(** [touch] is [s.touch(r, rec, seenVend, nil)], whose failure is only logged. *)
Definition handleUploadAuthorize (touch : prog A -> prog A) (rec : InstallRecord) (body : string)
    (k : authorize_answer -> prog A) : prog A :=
  match decode_authorize body with
  | None => k (Refused 400 Malformed)
  | Some req =>
      Now (fun now =>
      match validateUploadRequest req rec now with
      | Err e => k (Refused 400 (Invalid e))
      | Ok objects =>
          let objects := imap (fun i o => with_ticket o (ticket_ids i)) objects in
          let '(needed, settled) := splitAlreadyStored probe objects in
          let batch := mkBatch now (now + uploadTicketLifetime) needed in
          let issue tickets := touch (k (Issued (tickets ++ settled))) in
          match needed with
          | [] => issue []
          | _ =>
              match Authorize (in_Organization rec) (in_InstallID rec) batch with
              | None => k (Refused 500 SignerFailed)
              | Some tickets =>
                  if validateTicketBatch batch tickets then issue tickets
                  else k (Refused 500 SignerInvalid)
              end
          end
      end)
  end.
End Handler.
