(* ===== verification/FleetIssueSafe.v ===== *)
(** What upload authorization promises: authorized objects lie below the caller's own root and inside
    the protocol's bounds, what the shipper asks for is authorized, what is called already present is
    the same content, and a ticket the service lets out binds exactly what the shipper checks. *)

From S2P Require Import Prelude GoLib GoUrl GoTime Crypto Naming Ticket TicketSafe FleetStore FleetToken FleetSeen FleetIssue.

(** ** Keys *)

Lemma trim_prefix_has p s : has_prefix p s = true -> s = p +:+ trim_prefix p s.
Proof.
  intros H. unfold trim_prefix. rewrite H. apply has_prefix_spec in H as [r ->]. by rewrite str_drop_app.
Qed.

Definition root_of (org inst : string) : string := "v1/organization=" +:+ org +:+ "/install=" +:+ inst +:+ "/".

Ltac path_eq := unfold root_of, join; cbn; repeat (rewrite string_app_assoc; cbn); reflexivity.

(** A text with a prefix becomes the prefix and what [trim_prefix] leaves. *)
Ltac split_trimmed p s :=
  let E := fresh in pose proof (trim_prefix_has p s ltac:(assumption)) as E;
  let t := fresh in generalize dependent (trim_prefix p s); intros t; intros; subst s.

Lemma mirrorKeyRe_Some key org inst src :
  mirrorKeyRe key = Some (org, inst, src) ->
  (exists h, key = root_of org inst +:+ "mirror/source=" +:+ src +:+ "/" +:+ h +:+ ".age" /\ sha256_ok h = true)
  /\ identifierRe org = true /\ uuidParse inst = Some inst /\ identifierRe src = true.
Proof.
  unfold mirrorKeyRe. pose proof (join_split "/" key) as Hj.
  destruct (split_on "/" key) as [|v [|o [|i [|m [|s [|n [|]]]]]]]; try done.
  destruct (_ && _ && _ && _ && _) eqn:E; [|done]. boolp. subst v m.
  destruct (cut_suffix ".age" n) as [h|] eqn:Eh; [|done]. apply cut_suffix_spec in Eh as ->.
  destruct (identifierRe (trim_prefix "organization=" o) && _ && _ && _) eqn:E; [|done].
  intros [= <- <- <-]. boolp. unfold lower_uuid in *. boolp. split_and!; try done.
  exists h. split; [|done]. rewrite <- Hj. split_trimmed "organization=" o. split_trimmed "install=" i.
  split_trimmed "source=" s. path_eq.
Qed.

Lemma heartbeatKeyRe_Some key org inst :
  heartbeatKeyRe key = Some (org, inst) ->
  key = root_of org inst +:+ "state/heartbeat.json.age" /\ identifierRe org = true /\ uuidParse inst = Some inst.
Proof.
  unfold heartbeatKeyRe. pose proof (join_split "/" key) as Hj.
  destruct (split_on "/" key) as [|v [|o [|i [|m [|n [|]]]]]]; try done.
  destruct (_ && _ && _ && _ && _) eqn:E; [|done]. boolp. subst v m n.
  destruct (identifierRe (trim_prefix "organization=" o) && _) eqn:E; [|done].
  intros [= <- <-]. boolp. unfold lower_uuid in *. boolp. split_and!; try done.
  rewrite <- Hj. split_trimmed "organization=" o. split_trimmed "install=" i. path_eq.
Qed.

(** The root a key that the service authorizes at all lies below. *)
Definition key_owner (key : string) : option (string * string) :=
  match mirrorKeyRe key with
  | Some (org, inst, _) => Some (org, inst)
  | None => heartbeatKeyRe key
  end.

Lemma key_owner_root key org inst : key_owner key = Some (org, inst) -> has_prefix (root_of org inst) key = true.
Proof.
  unfold key_owner. destruct (mirrorKeyRe key) as [[[o i] s]|] eqn:Hk.
  - intros [= -> ->]. apply mirrorKeyRe_Some in Hk as [(h & -> & _) _]. apply has_prefix_spec. eauto.
  - intros H. apply heartbeatKeyRe_Some in H as (-> & _). apply has_prefix_spec. eauto.
Qed.

(** ** One object *)

Lemma first_error_spec {A} (f : A -> result issue_error ()) l :
  first_error f l = Ok () <-> Forall (fun x => f x = Ok ()) l.
Proof.
  induction l as [|x l IH]; simpl; [by split|]. rewrite Forall_cons, <- IH.
  destruct (f x) as [[]|]; simpl; naive_solver.
Qed.

Lemma sorted_keys_elem {V} (m : gmap string V) k : k ∈ sorted_keys m <-> is_Some (m !! k).
Proof.
  unfold sorted_keys. rewrite merge_sort_Permutation. rewrite list_elem_of_fmap. split.
  - intros ([k' v] & -> & H). apply elem_of_map_to_list in H. eauto.
  - intros [v H]. exists (k, v). split; [done|]. by apply elem_of_map_to_list.
Qed.

(** What metadata passes: every name allowed with a valid value, every required name present. *)
Definition metadata_ok (meta : gmap string string) (allowed : gmap string uploadMetadataRule) : Prop :=
  (forall n v, meta !! n = Some v ->
     uploadServerDerived n = false /\ exists rule, allowed !! n = Some rule /\ valid rule v = true)
  /\ (forall n rule, allowed !! n = Some rule -> required rule = true -> default "" (meta !! n) <> "").

Lemma validateUploadMetadata_iff id meta allowed out :
  validateUploadMetadata id meta allowed = Ok out <-> out = meta /\ metadata_ok meta allowed.
Proof.
  unfold validateUploadMetadata, metadata_ok. split.
  - intros H. apply rbind_Ok in H as ([] & H1 & H). apply rbind_Ok in H as ([] & H2 & [= <-]).
    apply first_error_spec in H1, H2. rewrite Forall_forall in H1, H2. split_and!; [done| |].
    + intros n v Hn. specialize (H1 n (proj2 (sorted_keys_elem _ _) (mk_is_Some _ _ Hn))).
      unfold check_meta in H1. rewrite Hn in H1. destruct (uploadServerDerived n); [done|].
      destruct (allowed !! n) as [rule|]; [|done]. simpl in H1. destruct (valid rule v) eqn:E; [|done]. eauto.
    + intros n rule Hn Hr Hd. specialize (H2 n (proj2 (sorted_keys_elem _ _) (mk_is_Some _ _ Hn))).
      unfold check_required in H2. rewrite Hn, Hr, Hd in H2. done.
  - intros (-> & H1 & H2).
    rewrite (proj2 (first_error_spec _ (sorted_keys meta))).
    2:{ apply Forall_forall. intros n Hn. apply sorted_keys_elem in Hn as [v Hn].
        destruct (H1 _ _ Hn) as (Hs & rule & Ha & Hv). unfold check_meta. rewrite Hs, Ha, Hn. simpl. by rewrite Hv. }
    simpl. rewrite (proj2 (first_error_spec _ (sorted_keys allowed))); [done|].
    apply Forall_forall. intros n Hn. apply sorted_keys_elem in Hn as [rule Hn].
    unfold check_required. rewrite Hn. destruct (required rule) eqn:Hr; [|done]. simpl.
    destruct (default "" (meta !! n) =? "")%string eqn:E; [|done]. boolp. by destruct (H2 _ _ Hn Hr).
Qed.

(** The object a request may carry for an install, and what is asked of the signer for it. *)
Definition object_ok (rec : InstallRecord) (obj : uploadObject) (v : UploadObjectRequest) : Prop :=
  1 <= up_Size obj <= uploadMaxObjectBytes /\ sha256_ok (up_SourceHash obj) = true
  /\ exists inst allowed,
       uuidParse (in_InstallID rec) = Some inst
       /\ key_owner (up_Key obj) = Some (in_Organization rec, inst)
       /\ metadata_ok (up_Metadata obj) allowed
       /\ v = mkObjReq (up_ObjectID obj) "" (up_Key obj) (up_Size obj)
                (<["source-hash" := up_SourceHash obj]> (up_Metadata obj)) "" (Mirror v)
       /\ ((Mirror v = true /\ allowed = uploadMirrorMetadata
            /\ exists src, mirrorKeyRe (up_Key obj) = Some (in_Organization rec, inst, src)
                           /\ default "" (up_Metadata obj !! "source-id") = src)
           \/ (Mirror v = false /\ allowed = uploadHeartbeatMetadata)).

Lemma validateUploadObject_Ok obj rec v : validateUploadObject obj rec = Ok v -> object_ok rec obj v.
Proof.
  unfold validateUploadObject. intros H. inv_ok. apply orb_false_iff in Heqb as [Hlo Hhi]. boolp.
  destruct (uuidParse (in_InstallID rec)) as [inst|] eqn:Hu; [|done]. inv_ok. split_and!; [lia..|done|].
  match goal with H : validateUploadMetadata _ _ _ = Ok _ |- _ => apply validateUploadMetadata_iff in H as [-> Hm] end.
  match goal with H : allowed_for _ _ _ = Ok _ |- _ => rename H into Ha end.
  unfold allowed_for in Ha. exists inst, x.1. unfold key_owner. simpl.
  destruct (mirrorKeyRe (up_Key obj)) as [[[o i] s]|] eqn:Hk.
  - inv_ok. boolp. subst. split_and!; try done. left. split_and!; try done. eauto.
  - destruct (heartbeatKeyRe (up_Key obj)) as [[o i]|] eqn:Hh; [|done]. inv_ok. boolp. subst. split_and!; try done.
    by right.
Qed.

(** ** A request *)

Lemma validate_objects_Ok rec ids keys total l out :
  validate_objects rec ids keys total l = Ok out ->
  Forall2 (object_ok rec) l out
  /\ NoDup (up_ObjectID <$> l) /\ (forall x, x ∈ up_ObjectID <$> l -> x ∉ ids)
  /\ NoDup (up_Key <$> l) /\ (forall x, x ∈ up_Key <$> l -> x ∉ keys)
  /\ (l <> [] -> total + Zsum (up_Size <$> l) <= uploadMaxBatchBytes).
Proof.
  revert ids keys total out. induction l as [|obj l IH]; simpl; intros ids keys total out H.
  { injection H as <-. split_and!; try constructor; set_solver. }
  do 3 (case_match; [done|]). boolp. inv_ok. boolp.
  destruct (IH _ _ _ _ ltac:(eassumption)) as (F & N1 & D1 & N2 & D2 & S).
  split_and!.
  - constructor; [by apply validateUploadObject_Ok|done].
  - constructor; [|done]. intros Hin. specialize (D1 _ Hin). set_solver.
  - intros y [->|Hy]%elem_of_cons; [done|]. specialize (D1 _ Hy). set_solver.
  - constructor; [|done]. intros Hin. specialize (D2 _ Hin). set_solver.
  - intros y [->|Hy]%elem_of_cons; [done|]. specialize (D2 _ Hy). set_solver.
  - intros _. destruct l as [|o' l]; [simpl; lia|]. specialize (S ltac:(done)). simpl in *. lia.
Qed.

Lemma object_ok_fields rec obj v :
  object_ok rec obj v -> or_ObjectID v = up_ObjectID obj /\ or_Key v = up_Key obj /\ or_Size v = up_Size obj.
Proof. intros (_ & _ & inst & allowed & _ & _ & _ & -> & _). done. Qed.

Lemma objects_fields rec l out :
  Forall2 (object_ok rec) l out ->
  or_ObjectID <$> out = up_ObjectID <$> l /\ or_Key <$> out = up_Key <$> l /\ or_Size <$> out = up_Size <$> l.
Proof.
  induction 1 as [|o v l out Ho _ IH]; [done|]. apply object_ok_fields in Ho as (A & B & C).
  destruct IH as (D & E & F). rewrite !fmap_cons, A, B, C, D, E, F. done.
Qed.

Lemma validateUploadRequest_Ok req rec now out :
  validateUploadRequest req rec now = Ok out ->
  (exists inst, uuidParse (in_InstallID rec) = Some inst /\
     Forall (fun v => key_owner (or_Key v) = Some (in_Organization rec, inst)
                      /\ has_prefix (root_of (in_Organization rec) inst) (or_Key v) = true) out)
  /\ NoDup (or_ObjectID <$> out) /\ NoDup (or_Key <$> out)
  /\ 1 <= Zlen out <= uploadMaxObjects /\ Forall (fun v => 1 <= or_Size v) out
  /\ Zsum (or_Size <$> out) <= uploadMaxBatchBytes
  /\ exists at_, up_IssuedAt req = Some at_ /\ now - uploadIssuedAtMaxAge <= at_ <= now + uploadIssuedAtSkew.
Proof.
  unfold validateUploadRequest. intros H. inv_ok. destruct (up_IssuedAt req) as [t|]; [|done]. inv_ok. boolp.
  assert (up_Objects req <> []) as Hne by assumption.
  apply validate_objects_Ok in H as (F & N1 & _ & N2 & _ & S). specialize (S Hne).
  destruct (objects_fields _ _ _ F) as (E1 & E2 & E3). rewrite E1, E2, E3. split_and!; try done.
  - inversion F as [|o v l out' Ho F' E E']; [congruence|]. subst.
    pose proof Ho as (_ & _ & inst & _ & Hu & _). exists inst. split; [done|].
    apply Forall_forall. intros x Hx. apply list_elem_of_lookup in Hx as [i Hx].
    destruct (Forall2_lookup_r _ _ _ _ _ F Hx) as (y & _ & Hy).
    pose proof (object_ok_fields _ _ _ Hy) as (_ & -> & _).
    destruct Hy as (_ & _ & inst' & _ & Hu' & Ho' & _). rewrite Hu in Hu'. injection Hu' as <-.
    split; [done|]. by apply key_owner_root.
  - apply Forall2_length in F. unfold Zlen. rewrite <- F. destruct (up_Objects req); [done|]. simpl. lia.
  - apply Forall2_length in F. unfold Zlen in *. rewrite <- F. done.
  - apply Forall_forall. intros x Hx. apply list_elem_of_lookup in Hx as [i Hx].
    destruct (Forall2_lookup_r _ _ _ _ _ F Hx) as (y & _ & Hy).
    pose proof (object_ok_fields _ _ _ Hy) as (_ & _ & ->). destruct Hy as [Hy _]. lia.
  - exists t. split; [done|]. unfold uploadIssuedAtMaxAge, uploadIssuedAtSkew in *. lia.
Qed.

(** C17: Authorization is confined to the caller: every object the service authorizes for an install is
    named by a key whose own root is that install's, in lower case, in its organization; a request
    authorizes at most 32 distinct objects under distinct keys, of at least one byte each and a
    gibibyte together, and was issued within five minutes before and one after the server's clock. *)
Theorem authorization_confined req rec now out :
  validateUploadRequest req rec now = Ok out ->
  (exists inst, uuidParse (in_InstallID rec) = Some inst /\
     Forall (fun v => key_owner (or_Key v) = Some (in_Organization rec, inst)
                      /\ has_prefix (root_of (in_Organization rec) inst) (or_Key v) = true) out)
  /\ NoDup (or_ObjectID <$> out) /\ NoDup (or_Key <$> out)
  /\ 1 <= Zlen out <= uploadMaxObjects /\ Forall (fun v => 1 <= or_Size v) out
  /\ Zsum (or_Size <$> out) <= uploadMaxBatchBytes
  /\ exists at_, up_IssuedAt req = Some at_ /\ now - uploadIssuedAtMaxAge <= at_ <= now + uploadIssuedAtSkew.
Proof. apply validateUploadRequest_Ok. Qed.

(** ** Deduplication *)

(** What the service may call already present: a mirror object the store holds under the same source
    and shipped hashes. *)
Definition held (probe : string -> result ferror StoredHashes) (o : UploadObjectRequest) : bool :=
  Mirror o && match probe (or_Key o) with Ok h => stored_matches h o | Err _ => false end.

Lemma stored_lookup probe (l : list UploadObjectRequest) (m : gmap string bool) o :
  NoDup (or_ObjectID <$> l) -> o ∈ l ->
  foldl (fun m (p : UploadObjectRequest * bool) => <[or_ObjectID p.1 := p.2]> m) m
    (combine l (probeStored probe l)) !! or_ObjectID o
  = Some (match probe (or_Key o) with Ok h => stored_matches h o | Err _ => false end).
Proof.
  revert m. induction l as [|x l IH]; intros m Hn Hin; [by apply not_elem_of_nil in Hin|].
  rewrite fmap_cons in Hn. apply NoDup_cons in Hn as [Hx Hn]. simpl.
  apply elem_of_cons in Hin as [->|Hin]; [|by apply IH].
  assert (forall m', foldl (fun m (p : UploadObjectRequest * bool) => <[or_ObjectID p.1 := p.2]> m) m'
     (combine l (probeStored probe l)) !! or_ObjectID x = m' !! or_ObjectID x) as ->.
  { clear -Hx. induction l as [|y l IH]; intros m'; [done|]. rewrite fmap_cons, not_elem_of_cons in Hx.
    destruct Hx as [Hxy Hx]. simpl. rewrite (IH Hx). by rewrite lookup_insert_ne by congruence. }
  by rewrite lookup_insert_eq.
Qed.

Lemma stored_absent probe (l : list UploadObjectRequest) (m : gmap string bool) id :
  id ∉ or_ObjectID <$> l ->
  foldl (fun m (p : UploadObjectRequest * bool) => <[or_ObjectID p.1 := p.2]> m) m
    (combine l (probeStored probe l)) !! id = m !! id.
Proof.
  revert m. induction l as [|y l IH]; intros m Hx; [done|]. rewrite fmap_cons, not_elem_of_cons in Hx.
  destruct Hx as [Hxy Hx]. simpl. rewrite (IH _ Hx). by rewrite lookup_insert_ne by congruence.
Qed.

Lemma filter_In_iff {A} (f : A -> bool) l x : x ∈ List.filter f l <-> x ∈ l /\ f x = true.
Proof. rewrite !list_elem_of_In. apply List.filter_In. Qed.

Lemma filter_sublist_ids f (l : list UploadObjectRequest) :
  NoDup (or_ObjectID <$> l) -> NoDup (or_ObjectID <$> List.filter f l).
Proof.
  induction l as [|x l IH]; [done|]. rewrite fmap_cons. intros [Hx Hn]%NoDup_cons. simpl.
  destruct (f x); [|auto]. rewrite fmap_cons. apply NoDup_cons. split; [|auto].
  intros Hin. apply Hx. apply list_elem_of_fmap in Hin as (y & E & Hy). apply filter_In_iff in Hy as [Hy _].
  apply list_elem_of_fmap. eauto.
Qed.

Lemma same_id_eq (l : list UploadObjectRequest) x y :
  NoDup (or_ObjectID <$> l) -> x ∈ l -> y ∈ l -> or_ObjectID x = or_ObjectID y -> x = y.
Proof.
  intros Hn Hx Hy E. apply list_elem_of_lookup in Hx as [i Hi], Hy as [j Hj].
  assert (i = j) as <-; [|congruence].
  eapply NoDup_lookup; [exact Hn|by rewrite list_lookup_fmap, Hi|by rewrite list_lookup_fmap, Hj, E].
Qed.

Lemma splitAlreadyStored_spec probe l :
  NoDup (or_ObjectID <$> l) ->
  splitAlreadyStored probe l
  = (List.filter (fun o => negb (held probe o)) l,
     map (fun o => alreadyPresent (or_TicketID o) (or_ObjectID o)) (List.filter (held probe) l)).
Proof.
  intros Hn. unfold splitAlreadyStored.
  set (mirrors := List.filter Mirror l).
  assert (forall o, o ∈ l -> default false
    (foldl (fun m (p : UploadObjectRequest * bool) => <[or_ObjectID p.1 := p.2]> m) (∅ : gmap string bool)
       (combine mirrors (probeStored probe mirrors)) !! or_ObjectID o) = held probe o) as Hh.
  { intros o Ho. unfold held. destruct (Mirror o) eqn:Hm.
    - rewrite stored_lookup; [done|by apply filter_sublist_ids|]. by apply filter_In_iff.
    - rewrite stored_absent; [done|]. intros Hin. apply list_elem_of_fmap in Hin as (y & E & Hy).
      apply filter_In_iff in Hy as [Hy Hym]. rewrite (same_id_eq _ _ _ Hn Ho Hy E) in Hm. congruence. }
  assert (forall f g : UploadObjectRequest -> bool, (forall o, o ∈ l -> f o = g o) ->
    List.filter f l = List.filter g l) as Hf.
  { intros f g Hfg. apply List.filter_ext_in. intros o Ho. apply Hfg. by apply list_elem_of_In. }
  destruct mirrors as [|m0 ms] eqn:Em.
  - simpl in Hh. rewrite (Hf (held probe) (fun _ => false)) by (intros o Ho; by rewrite <- Hh).
    rewrite (Hf (fun o => negb (held probe o)) (fun _ => true)) by (intros o Ho; by rewrite <- Hh).
    clear. f_equal; induction l; simpl; congruence.
  - f_equal; [|f_equal]; apply Hf; intros o Ho; by rewrite <- Hh.
Qed.

(** ** The tickets that go out *)

Lemma objects_by_id_lookup (l : list UploadObjectRequest) id o :
  NoDup (or_ObjectID <$> l) -> objects_by_id l !! id = Some o <-> o ∈ l /\ or_ObjectID o = id.
Proof.
  unfold objects_by_id. assert (forall (m : gmap string UploadObjectRequest), NoDup (or_ObjectID <$> l) ->
    foldl (fun m x => <[or_ObjectID x := x]> m) m l !! id = Some o <->
    (o ∈ l /\ or_ObjectID o = id) \/ (id ∉ or_ObjectID <$> l /\ m !! id = Some o)) as H.
  { induction l as [|x l IH]; intros m Hn; simpl; [set_solver|].
    rewrite fmap_cons in Hn. apply NoDup_cons in Hn as [Hx Hn]. rewrite (IH _ Hn).
    rewrite elem_of_cons, not_elem_of_cons. destruct (decide (or_ObjectID x = id)) as [E|E].
    - rewrite E, lookup_insert_eq. rewrite E in Hx. split.
      + intros [[Hin Ho]|[_ [= <-]]]; [|auto]. exfalso. apply Hx. apply list_elem_of_fmap. eauto.
      + intros [[[->|Hin] Ho]|[[Hc _] _]]; [auto| |done]. exfalso. apply Hx. apply list_elem_of_fmap. eauto.
    - rewrite lookup_insert_ne by done. naive_solver. }
  intros Hn. rewrite (H _ Hn). rewrite lookup_empty. naive_solver.
Qed.

Lemma validate_tickets_spec batch objects seen l :
  validate_tickets batch objects seen l = true ->
  NoDup (ut_ObjectID <$> l) /\ (forall t, t ∈ l -> ut_ObjectID t ∉ seen
    /\ exists o, objects !! ut_ObjectID t = Some o /\ ticket_ok batch o t = true).
Proof.
  revert seen. induction l as [|t l IH]; simpl; intros seen H.
  { split; [constructor|]. intros t Ht. by apply not_elem_of_nil in Ht. }
  destruct (objects !! ut_ObjectID t) as [o|] eqn:Ho; [|done]. case_bool_decide; [done|]. boolp.
  match goal with H : validate_tickets _ _ _ _ = true |- _ => apply IH in H as [Hn Ha] end. split.
  - constructor; [|done]. intros Hin. apply list_elem_of_fmap in Hin as (t' & E & Ht').
    destruct (Ha _ Ht') as [Hs _]. rewrite <- E in Hs. set_solver.
  - intros t' [->|Ht']%elem_of_cons; [eauto|]. destruct (Ha _ Ht') as [Hs He]. split; [set_solver|done].
Qed.

Lemma validateTicketBatch_spec batch l :
  NoDup (or_ObjectID <$> b_Objects batch) -> validateTicketBatch batch l = true ->
  (ut_ObjectID <$> l) ≡ₚ (or_ObjectID <$> b_Objects batch)
  /\ forall t, t ∈ l -> exists o, o ∈ b_Objects batch /\ or_ObjectID o = ut_ObjectID t /\ ticket_ok batch o t = true.
Proof.
  intros Hn H. unfold validateTicketBatch in H. boolp.
  match goal with H : validate_tickets _ _ _ _ = true |- _ => apply validate_tickets_spec in H as [Hl Ha] end.
  assert (forall t, t ∈ l -> exists o, o ∈ b_Objects batch /\ or_ObjectID o = ut_ObjectID t
    /\ ticket_ok batch o t = true) as Hex.
  { intros t Ht. destruct (Ha _ Ht) as (_ & o & Ho & Hok). apply objects_by_id_lookup in Ho as [Hin E]; eauto. }
  split; [|done]. apply submseteq_length_Permutation.
  - apply NoDup_submseteq; [done|]. intros x Hx. apply list_elem_of_fmap in Hx as (t & -> & Ht).
    destruct (Hex _ Ht) as (o & Ho & <- & _). apply list_elem_of_fmap. eauto.
  - rewrite !length_fmap. unfold Zlen in *. lia.
Qed.

Lemma imap_with_ticket_ids {net : SignerNet} (l : list UploadObjectRequest) f :
  or_ObjectID <$> imap (fun i o => with_ticket o (f i)) l = or_ObjectID <$> l.
Proof. revert f. induction l as [|x l IH]; intros f; [done|]. simpl. f_equal. apply (IH (f ∘ S)). Qed.

Lemma split_perm f (l : list UploadObjectRequest) :
  (or_ObjectID <$> List.filter (fun o => negb (f o)) l) ++ (or_ObjectID <$> List.filter f l) ≡ₚ or_ObjectID <$> l.
Proof.
  induction l as [|x l IH]; [done|]. simpl. destruct (f x); simpl; [|by rewrite IH].
  by rewrite <- Permutation_middle, IH.
Qed.

Lemma with_ticket_held o id probe : held probe (with_ticket o id) = held probe o.
Proof.
  unfold held, with_ticket, stored_matches. simpl. by rewrite !lookup_insert_ne by done.
Qed.

Lemma settled_ids (l : list UploadObjectRequest) :
  ut_ObjectID <$> map (fun o => alreadyPresent (or_TicketID o) (or_ObjectID o)) l = or_ObjectID <$> l.
Proof. induction l as [|x r IH]; [done|]. simpl. by f_equal. Qed.

(** The store holds the same content: the source hash and the shipped hash on offer. *)
Definition same_content (probe : string -> result ferror StoredHashes) (o : UploadObjectRequest) : Prop :=
  Mirror o = true /\ exists h, probe (or_Key o) = Ok h
    /\ or_Metadata o !! "source-hash" = Some (h_Source h) /\ or_Metadata o !! "shipped-hash" = Some (h_Shipped h).

Lemma held_same_content probe req rec now objects o :
  validateUploadRequest req rec now = Ok objects -> o ∈ objects -> held probe o = true -> same_content probe o.
Proof.
  unfold held. intros Hv Hin Hh. boolp. destruct (probe (or_Key o)) as [h|] eqn:Hpr; [|done].
  split; [done|]. exists h. split; [done|]. unfold stored_matches in *. boolp.
  assert (is_Some (or_Metadata o !! "source-hash")) as Hsrc.
  { unfold validateUploadRequest in Hv. inv_ok. destruct (up_IssuedAt req); [|done]. inv_ok.
    apply validate_objects_Ok in Hv as (F & _). apply list_elem_of_lookup in Hin as [i Hi].
    destruct (Forall2_lookup_r _ _ _ _ _ F Hi) as (obj & _ & _ & _ & inst & allowed & _ & _ & _ & -> & _).
    simpl. rewrite lookup_insert_eq. eauto. }
  destruct (or_Metadata o !! "source-hash") as [v1|]; [|by destruct Hsrc].
  destruct (or_Metadata o !! "shipped-hash") as [v2|]; simpl in *; split; congruence.
Qed.

(** How a ticket answers for one of the objects authorized at [now]. *)
Definition answers {net : SignerNet} (now : Z) (objects : list UploadObjectRequest) (t : uploadTicket) : Prop :=
  exists o i, objects !! i = Some o /\ ut_ObjectID t = or_ObjectID o /\
    ((exists batch, ticket_ok batch (with_ticket o (ticket_ids i)) t = true
        /\ b_IssuedAt batch = now /\ b_ExpiresAt batch = now + uploadTicketLifetime)
     \/ (t = alreadyPresent (ticket_ids i) (or_ObjectID o) /\ same_content probe o)).

(** Each object authorized gets one answer. When the service answers a request with tickets, the
    request was valid, the tickets name each of its objects once, and each either is the exact PUT
    capability the service validated for that object (its ticket id, its length, its key, its headers,
    an expiry within five minutes) or says the archive already holds the object, which is then a mirror
    object stored under the same source hash and the same, non-empty, shipped hash. *)
Theorem authorize_answers_each `{!Provider} {net : SignerNet} rec facts payload now s tickets s' :
  run now (handleUploadAuthorize (touch (in_Organization rec) (in_InstallID rec) seenVend facts) rec payload Ret) s
  = (Some (Issued tickets), s') ->
  exists req objects,
    decode_authorize payload = Some req /\ validateUploadRequest req rec now = Ok objects
    /\ ut_ObjectID <$> tickets ≡ₚ or_ObjectID <$> objects
    /\ forall t, t ∈ tickets -> answers now objects t.
Proof.
  unfold handleUploadAuthorize. destruct (decode_authorize payload) as [req|]; [|done]. cbn [run].
  destruct (validateUploadRequest req rec now) as [objects|e] eqn:Hv; [|done]. intros Hr.
  exists req, objects. do 2 (split; [done|]). revert Hr.
  pose proof (validateUploadRequest_Ok _ _ _ _ Hv) as (_ & Hn & _).
  set (objs := imap (fun i o => with_ticket o (ticket_ids i)) objects).
  assert (or_ObjectID <$> objs = or_ObjectID <$> objects) as Hids by apply imap_with_ticket_ids.
  assert (forall o, o ∈ objs -> exists o0 i, objects !! i = Some o0 /\ o = with_ticket o0 (ticket_ids i)) as Hobj.
  { intros o Ho. apply list_elem_of_lookup in Ho as [i Hi]. unfold objs in Hi. rewrite list_lookup_imap in Hi.
    destruct (objects !! i) as [o0|] eqn:E; [|done]. simpl in Hi. injection Hi as <-. eauto. }
  rewrite splitAlreadyStored_spec by congruence.
  set (needed := List.filter (fun o => negb (held probe o)) objs).
  set (batch := mkBatch now (now + uploadTicketLifetime) needed).
  set (settled := map (fun o => alreadyPresent (or_TicketID o) (or_ObjectID o)) (List.filter (held probe) objs)).
  assert (forall l, ut_ObjectID <$> l ≡ₚ or_ObjectID <$> needed ->
    (forall t, t ∈ l -> exists o, o ∈ needed /\ or_ObjectID o = ut_ObjectID t /\ ticket_ok batch o t = true) ->
    run now (touch (in_Organization rec) (in_InstallID rec) seenVend facts (Ret (Issued (l ++ settled)))) s
      = (Some (Issued tickets), s') ->
    ut_ObjectID <$> tickets ≡ₚ or_ObjectID <$> objects /\ forall t, t ∈ tickets -> answers now objects t) as Hissue.
  { intros l Hp Hl Hr. destruct (run_touch (in_Organization rec) (in_InstallID rec) seenVend facts
      (Ret (Issued (l ++ settled))) now s) as (s1 & E & _). rewrite E in Hr. simpl in Hr. injection Hr as <- _.
    split.
    - rewrite fmap_app, Hp. unfold settled, needed. by rewrite settled_ids, split_perm, Hids.
    - intros t [Ht|Ht]%elem_of_app.
      + destruct (Hl _ Ht) as (o & Ho & Eo & Hok). apply filter_In_iff in Ho as [Ho _].
        destruct (Hobj _ Ho) as (o0 & i & Hi & ->). exists o0, i. split_and!; [done|by rewrite <- Eo|]. left. eauto.
      + unfold settled in Ht. apply list_elem_of_In, List.in_map_iff in Ht as (o & <- & Ho).
        apply list_elem_of_In, filter_In_iff in Ho as [Ho Hh].
        destruct (Hobj _ Ho) as (o0 & i & Hi & ->). exists o0, i. split_and!; [done|done|]. right.
        rewrite with_ticket_held in Hh. split; [done|]. eapply held_same_content; [done| |done].
        by apply list_elem_of_lookup_2 in Hi. }
  assert (NoDup (or_ObjectID <$> needed)) as Hnn by (apply filter_sublist_ids; congruence).
  destruct needed as [|n0 ns].
  - apply (Hissue []); [done|]. intros t Ht. by apply not_elem_of_nil in Ht.
  - destruct (Authorize _ _ _) as [l|]; [|done]. destruct (validateTicketBatch batch l) eqn:Hb; [|done].
    apply validateTicketBatch_spec in Hb as [Hp Hl]; [by apply (Hissue l)|exact Hnn].
Qed.
