(* ===== verification/FleetShipper.v ===== *)
(** The two ends of the upload protocol against each other: what the shipper asks for is what the fleet
    manager authorizes, and a ticket the fleet manager lets out is refused by the shipper for its URL, or
    for an agent version its request left out. *)

From S2P Require Import Prelude GoLib GoJson GoUrl GoTime Crypto Naming Vocab StateDoc Spec Ticket TicketSafe ControlPlane Upload VendPort Manifest FleetStore FleetToken FleetSeen FleetIssue FleetIssueSafe.

(** ** Headers *)

(** The names metadata can have on the wire: the shipper's closed set and the two the service adds. *)
Definition protocol_names : list string := MetadataNames ++ ["source-hash"; "ticket-id"].

Definition shipper_dialect (d : dialect) : headerDialect :=
  match d with
  | aws => mkDialect "x-amz-meta-" "x-amz-meta-source-hash" "x-amz-meta-ticket-id" "x-amz-tagging" false
  | gcp => mkDialect "x-goog-meta-" "x-goog-meta-source-hash" "x-goog-meta-ticket-id" "" false
  | azure_blob => mkDialect "x-ms-meta-" "x-ms-meta-source_hash" "x-ms-meta-ticket_id" "x-ms-tags" true
  end.

Lemma shipper_dialect_in d : shipper_dialect d ∈ headerDialects.
Proof. destruct d; apply list_elem_of_In; simpl; tauto. Qed.

(** The two ends spell a header alike, apart from one another and from every other header. *)
Record name_facts (d : dialect) (n : string) : Prop := {
  nf_header : meta_header d n = metadataHeader (shipper_dialect d) n;
  nf_prefix : has_prefix (metadataPrefix (shipper_dialect d)) (meta_header d n) = true;
  nf_name : metadataName (shipper_dialect d) (meta_header d n) = n;
  nf_blob : meta_header d n <> "x-ms-blob-type";
  nf_inj n' : n' ∈ protocol_names -> meta_header d n = meta_header d n' -> n = n';
  nf_hash h' : h' ∈ headerDialects -> meta_header d n = sourceHash h' -> h' = shipper_dialect d
}.

Ltac each_name H := repeat (apply elem_of_cons in H as [->|H]); [..|by apply not_elem_of_nil in H].

Lemma name_inj d n n' :
  n ∈ protocol_names -> n' ∈ protocol_names -> meta_header d n = meta_header d n' -> n = n'.
Proof.
  intros Hn Hn' E. destruct (decide (n = n')) as [|Hne]; [done|]. exfalso.
  assert (NoDup (meta_header d <$> protocol_names)) as Hd.
  { apply (bool_decide_eq_true_1 _). destruct d; vm_compute; reflexivity. }
  apply list_elem_of_lookup in Hn as [i Hi], Hn' as [j Hj].
  assert (i = j); [|congruence].
  eapply NoDup_lookup; [exact Hd|by rewrite list_lookup_fmap, Hi|by rewrite list_lookup_fmap, Hj, E].
Qed.

Lemma name_ok d n : n ∈ protocol_names -> name_facts d n.
Proof.
  intros Hn. split; try (by intros n'; apply name_inj);
    unfold protocol_names, MetadataNames in Hn; cbn [app] in Hn;
    destruct d; each_name Hn; try reflexivity; try discriminate;
    refine (proj2 (in_dialects (fun h' => meta_header _ _ = sourceHash h' -> h' = _)) _);
    split_and!; intros E; first [reflexivity|discriminate E].
Qed.

Lemma shared_headers d : meta_header d "source-hash" = sourceHash (shipper_dialect d)
  /\ meta_header d "ticket-id" = ticketID (shipper_dialect d).
Proof. by destruct d. Qed.

Lemma forallb_elem {A} (f : A -> bool) l x : forallb f l = true -> x ∈ l -> f x = true.
Proof. intros H Hx. apply (proj1 (List.forallb_forall f l) H), list_elem_of_In. done. Qed.

(** What the service wants signed, for metadata of protocol names. *)
Lemma wanted_lookup d o n v :
  or_Tagging o = "" -> (forall m w, or_Metadata o !! m = Some w -> m ∈ protocol_names) ->
  wanted_headers d o !! n = Some v <->
  (exists m, or_Metadata o !! m = Some v /\ n = meta_header d m)
  \/ (d = azure_blob /\ n = "x-ms-blob-type" /\ v = "BlockBlob").
Proof.
  intros Ht Hp.
  set (want := list_to_map (map (fun p => (meta_header d p.1, p.2)) (map_to_list (or_Metadata o))) : gmap string string).
  assert (forall n v, want !! n = Some v <-> exists m, or_Metadata o !! m = Some v /\ n = meta_header d m) as Hw.
  { intros n0 v0. unfold want. rewrite <- elem_of_list_to_map.
    - rewrite list_elem_of_fmap. split.
      + intros ([m w] & [= -> ->] & H). apply elem_of_map_to_list in H. eauto.
      + intros (m & H & ->). exists (m, v0). split; [done|]. by apply elem_of_map_to_list.
    - rewrite <- list_fmap_compose. apply NoDup_fmap_2_strong.
      + intros [m w] [m' w'] H H' E. apply elem_of_map_to_list in H, H'. simpl in E.
        apply name_inj in E as ->; [congruence|eauto..].
      + apply NoDup_map_to_list. }
  unfold wanted_headers. fold want. rewrite Ht. destruct d; cbn [String.eqb].
  - rewrite Hw. naive_solver.
  - rewrite Hw. naive_solver.
  - destruct (decide (n = "x-ms-blob-type")) as [->|Hn].
    + rewrite lookup_insert_eq. split; [intros [= <-]; auto|]. intros [(m & Hm & E)|(_ & _ & ->)]; [|done].
      exfalso. symmetry in E. revert E. by apply (nf_blob azure_blob m (name_ok _ _ (Hp _ _ Hm))).
    + rewrite lookup_insert_ne by done. rewrite Hw. naive_solver.
Qed.

(** Headers that passed are exactly those wanted, once every value is one. *)
Lemma validateTicketHeaders_exact o h :
  or_Tagging o = "" -> (forall m w, or_Metadata o !! m = Some w -> m ∈ protocol_names /\ w <> "") ->
  validateTicketHeaders o h = true -> exists d, h = wanted_headers d o.
Proof.
  intros Ht Hp H. unfold validateTicketHeaders in H. boolp.
  destruct (headers_dialect _ None) as [[d|]|]; [|done..]. exists d. cbv zeta in *. boolp.
  symmetry. apply map_subseteq_size_eq; [|lia].
  apply map_subseteq_spec. intros n v Hn.
  assert ((n, v) ∈ map_to_list (wanted_headers d o)) as Hin by by apply elem_of_map_to_list.
  match goal with H : forallb _ _ = true |- _ => pose proof (forallb_elem _ _ _ H Hin) as E end.
  simpl in E. apply String.eqb_eq in E. destruct (h !! n) as [w|]; simpl in E; [congruence|].
  exfalso. apply wanted_lookup in Hn as [(m & Hm & _)|(_ & _ & ->)]; [|done|done|by intros; eapply Hp].
  destruct (Hp _ _ Hm) as [_ Hne]. congruence.
Qed.

(** A ticket as the shipper decodes it. *)
Definition wire_ticket (t : uploadTicket) : Ticket :=
  mkTicket (ut_TicketID t) (ut_ObjectID t) (ut_Method t) (ut_URL t) (Some (ut_ExpiresAt t))
    (ut_RequiredHeaders t) (ut_ContentLength t) (ut_ContentLengthSigned t).

(** A ticket the service lets out binds what the shipper checks: if the signer's headers pass the
    service's check, the shipper's check of the same headers against the object it prepared passes. *)
Lemma service_headers_bound (p : PreparedUpload) (o : UploadObjectRequest) (t : uploadTicket) :
  or_Tagging o = "" ->
  or_Metadata o = <["ticket-id" := ut_TicketID t]> (<["source-hash" := pu_SourceHash p]> (pu_Metadata p)) ->
  (forall n v, pu_Metadata p !! n = Some v -> n ∈ MetadataNames /\ v <> "") ->
  pu_SourceHash p <> "" -> ut_TicketID t <> "" ->
  validateTicketHeaders o (ut_RequiredHeaders t) = true ->
  headers_bound p (wire_ticket t).
Proof.
  intros Htag Hmd Hnames Hsrc Htid Hv.
  assert (forall n v, or_Metadata o !! n = Some v <->
     (n = "ticket-id" /\ v = ut_TicketID t) \/ (n = "source-hash" /\ v = pu_SourceHash p)
     \/ (pu_Metadata p !! n = Some v /\ n ∈ MetadataNames)) as Hmd'.
  { intros n v. rewrite Hmd. destruct (decide (n = "ticket-id")) as [->|H1].
    { rewrite lookup_insert_eq. split; [intros [= <-]; auto|]. intros [[_ ->]|[[[=] _]|[H Hin]]]; [done|].
      exfalso. revert Hin. apply (bool_decide_unpack _). vm_compute. exact I. }
    rewrite lookup_insert_ne by done. destruct (decide (n = "source-hash")) as [->|H2].
    { rewrite lookup_insert_eq. split; [intros [= <-]; auto|]. intros [[[=] _]|[[_ ->]|[H Hin]]]; [done|].
      exfalso. revert Hin. apply (bool_decide_unpack _). vm_compute. exact I. }
    rewrite lookup_insert_ne by done. split; [intros H; right; right; split; [done|by eapply Hnames]|].
    intros [[? _]|[[? _]|[? _]]]; done. }
  assert (forall n v, or_Metadata o !! n = Some v -> n ∈ protocol_names /\ v <> "") as Hp.
  { intros n v H. apply Hmd' in H. unfold protocol_names. rewrite elem_of_app.
    destruct H as [[-> ->]|[[-> ->]|[H Hin]]]; (split; [|by eauto || eapply Hnames]); auto;
      right; apply (bool_decide_unpack _); vm_compute; exact I. }
  destruct (validateTicketHeaders_exact _ _ Htag Hp Hv) as [d Hh].
  assert (forall n v, ut_RequiredHeaders t !! n = Some v <->
     (exists m, or_Metadata o !! m = Some v /\ n = meta_header d m)
     \/ (d = azure_blob /\ n = "x-ms-blob-type" /\ v = "BlockBlob")) as Hl.
  { intros n v. rewrite Hh. apply wanted_lookup; [done|]. intros; by eapply Hp. }
  destruct (shared_headers d) as [Es Et].
  unfold headers_bound. cbn [wire_ticket RequiredHeaders TicketID]. split_and!; [done|done|].
  exists (shipper_dialect d). split_and!.
  - apply shipper_dialect_in.
  - intros h' Hin [v Hv']. apply Hl in Hv' as [(m & Hm & E)|(-> & E & _)].
    + eapply nf_hash; [apply name_ok; by eapply Hp|exact Hin|done].
    + exfalso. revert h' Hin E. refine (proj2 (in_dialects (fun h' => sourceHash h' = "x-ms-blob-type" -> False)) _).
      split_and!; discriminate.
  - apply Hl. left. exists "source-hash". split; [apply Hmd'; auto|done].
  - apply Hl. left. exists "ticket-id". split; [apply Hmd'; auto|done].
  - intros Ha. apply Hl. right. by destruct d.
  - intros n w Hn. destruct (Hnames _ _ Hn) as [Hin _]. split; [done|]. apply Hl. left. exists n.
    split; [apply Hmd'; auto|]. symmetry. apply nf_header, name_ok, elem_of_app. by left.
  - intros n v Hn. apply Hl in Hn as [(m & Hm & ->)|(-> & -> & ->)]; [|split; [done|by do 3 right; left]].
    destruct (Hp _ _ Hm) as [Hin Hne]. split; [done|]. unfold allowed_header.
    apply Hmd' in Hm as [[-> _]|[[-> _]|[Hm Hmn]]]; [right; left; exact Et|left; exact Es|]. do 4 right.
    pose proof (name_ok d m Hin) as F. rewrite (nf_name _ _ F). split_and!; [apply (nf_prefix _ _ F)|done|done].
Qed.

(** What the shipper finds bound, the service had asked for. *)
Lemma bound_metadata (p : PreparedUpload) (o : UploadObjectRequest) (t : uploadTicket) n w :
  or_Tagging o = "" -> (forall m w, or_Metadata o !! m = Some w -> m ∈ protocol_names /\ w <> "") ->
  validateTicketHeaders o (ut_RequiredHeaders t) = true -> headers_bound p (wire_ticket t) ->
  or_Metadata o !! "source-hash" = Some (pu_SourceHash p) -> pu_Metadata p !! n = Some w -> or_Metadata o !! n = Some w.
Proof.
  intros Ht Hp Hv (_ & _ & d & Hd & Huniq & _ & _ & _ & Hdecl & _) Hsrc Hn. cbn [wire_ticket RequiredHeaders] in *.
  destruct (validateTicketHeaders_exact _ _ Ht Hp Hv) as [d' Hh].
  assert (forall n v, ut_RequiredHeaders t !! n = Some v <->
     (exists m, or_Metadata o !! m = Some v /\ n = meta_header d' m)
     \/ (d' = azure_blob /\ n = "x-ms-blob-type" /\ v = "BlockBlob")) as Hl.
  { intros n' v. rewrite Hh. apply wanted_lookup; [done|]. intros; by eapply Hp. }
  assert (shipper_dialect d' = d) as <-.
  { apply Huniq; [apply shipper_dialect_in|]. exists (pu_SourceHash p). apply Hl. left. exists "source-hash".
    split; [done|]. symmetry. apply shared_headers. }
  destruct (Hdecl _ _ Hn) as [Hin Hw]. assert (n ∈ protocol_names) as Hpn by (apply elem_of_app; by left).
  rewrite <- (nf_header _ _ (name_ok d' n Hpn)) in Hw. apply Hl in Hw as [(m & Hm & E)|(-> & E & _)].
  - by apply (name_inj d' n m Hpn (proj1 (Hp _ _ Hm))) in E as ->.
  - by apply (nf_blob _ _ (name_ok azure_blob n Hpn)) in E.
Qed.

(** ** Requests *)

(** The metadata as [UploadMetadata]'s JSON tags write it: empty fields left out. *)
Definition metadata_fields (m : UploadMetadata) : list (string * string) :=
  [("manifest-version", um_ManifestVersion m); ("source-id", um_SourceID m); ("shipped-hash", um_ShippedHash m);
   ("artifact-class", um_ArtifactClass m); ("agent-version", um_AgentVersion m); ("shape-sniff", um_ShapeSniff m);
   ("derived", um_Derived m); ("enrich-status", um_EnrichStatus m); ("kind", um_Kind m)].
Definition wire_metadata (m : UploadMetadata) : gmap string string :=
  list_to_map (List.filter (fun p => negb (p.2 =? "")%string) (metadata_fields m)).
Definition wire_object (o : UploadObject) : uploadObject :=
  mkUpObject (uo_ObjectID o) (uo_Key o) (Size o) (uo_SourceHash o) (wire_metadata (uo_Metadata o)).
Definition wire_request (r : AuthorizeRequest) : uploadAuthorizeRequest :=
  mkUpRequest (WriterID r) (IssuedAt r) (map wire_object (Objects r)).

Definition field (m : UploadMetadata) (n : string) : string :=
  default "" ((list_to_map (metadata_fields m) : gmap string string) !! n).

Lemma wire_lookup m n v : wire_metadata m !! n = Some v <-> v <> "" /\ field m n = v.
Proof.
  unfold wire_metadata, field.
  assert (NoDup (metadata_fields m).*1) as Hn by (apply (bool_decide_eq_true_1 _); vm_compute; reflexivity).
  assert (forall l : list (string * string), NoDup l.*1 ->
    (list_to_map (List.filter (fun p => negb (p.2 =? "")%string) l) : gmap string string) !! n = Some v
    <-> v <> "" /\ default "" ((list_to_map l : gmap string string) !! n) = v) as H; [|by apply H].
  induction l as [|[k w] l IH]; simpl; intros Hd.
  { rewrite lookup_empty. naive_solver. }
  apply NoDup_cons in Hd as [Hk Hd]. destruct (decide (k = n)) as [->|Hne].
  - rewrite lookup_insert_eq. simpl. destruct (String.eqb_spec w "") as [->|Hw]; simpl.
    + rewrite (IH Hd). rewrite not_elem_of_list_to_map_1 by done. naive_solver.
    + rewrite lookup_insert_eq. naive_solver.
  - rewrite lookup_insert_ne by done. rewrite <- (IH Hd).
    destruct (w =? "")%string; simpl; [done|]. by rewrite lookup_insert_ne.
Qed.

(** What a name of the prepared metadata becomes: itself, unless it is an agent version the protocol
    cannot carry. *)
Definition carried (n v : string) : bool := negb (n =? "agent-version")%string || printableASCII v 128.

Lemma field_cases a b c d e f g h i k :
  field (mkUploadMetadata a b c d e f g h i) k =
  if (k =? "manifest-version")%string then a else if (k =? "source-id")%string then b
  else if (k =? "shipped-hash")%string then c else if (k =? "artifact-class")%string then d
  else if (k =? "agent-version")%string then e else if (k =? "shape-sniff")%string then f
  else if (k =? "derived")%string then g else if (k =? "enrich-status")%string then h
  else if (k =? "kind")%string then i else "".
Proof.
  unfold field, metadata_fields. cbn [um_ManifestVersion um_SourceID um_ShippedHash um_ArtifactClass
    um_AgentVersion um_ShapeSniff um_Derived um_EnrichStatus um_Kind list_to_map foldr fmap curry fst snd].
  repeat match goal with |- context [(k =? ?s)%string] => destruct (String.eqb_spec k s) as [->|?] end;
    simpl; repeat first [rewrite lookup_insert_eq; reflexivity | rewrite lookup_insert_ne by congruence];
    rewrite ?lookup_empty; reflexivity.
Qed.

Lemma upload_name_field m dropped n v m' dropped' :
  upload_name (m, dropped) (n, v) = Ok (m', dropped') ->
  n ∈ MetadataNames /\ forall k, field m' k = if (k =? n)%string && carried n v then v else field m k.
Proof.
  unfold upload_name. destruct m as [a b c d e f g h i]. intros H.
  repeat match type of H with context [if (n =? ?s)%string then _ else _] =>
    destruct (String.eqb_spec n s) as [->|?] end; try (by destruct (_ || _));
    try (unfold carried; destruct (printableASCII v 128) eqn:Hp; cbn [negb] in H);
    injection H as <- <-; (split; [apply (bool_decide_unpack _); vm_compute; exact I|]); intros k;
    rewrite ?field_cases; rewrite ?Hp; unfold carried; cbn [String.eqb Ascii.eqb eqb negb orb];
    rewrite ?andb_true_r, ?andb_false_r; try done;
    repeat match goal with |- context [(k =? ?s)%string] => destruct (String.eqb_spec k s) as [->|?] end; done.
Qed.

Lemma fold_upload_field l m dropped m' dropped' :
  NoDup l.*1 -> fold_ok upload_name (m, dropped) l = Ok (m', dropped') ->
  Forall (fun p => p.1 ∈ MetadataNames) l
  /\ forall k, field m' k = match list_find (fun p => p.1 = k /\ carried p.1 p.2 = true) l with
                           | Some (_, p) => p.2 | None => field m k end.
Proof.
  revert m dropped. induction l as [|[n v] l IH]; simpl; intros m dropped Hd H.
  { injection H as <- <-. by split. }
  apply NoDup_cons in Hd as [Hn Hd]. apply rbind_Ok in H as ([m1 d1] & H1 & H2).
  apply upload_name_field in H1 as [Hin H1]. apply (IH _ _ Hd) in H2 as [Hall H2]. split; [by constructor|].
  intros k. rewrite H2. destruct (decide (n = k /\ carried n v = true)) as [[<- Hc]|Hnc].
  - assert (list_find (fun p : string * string => p.1 = n /\ carried p.1 p.2 = true) l = None) as ->.
    { apply list_find_None, Forall_forall. intros [n' v'] Hin' [E _]. simpl in E. subst.
      apply Hn, list_elem_of_fmap. by exists (n, v'). }
    rewrite H1, String.eqb_refl, Hc. done.
  - destruct (list_find _ l) as [[i p]|] eqn:E; simpl; [done|]. rewrite H1.
    destruct (String.eqb_spec k n) as [->|?]; [|done]. destruct (carried n v) eqn:Hc; [|done]. by destruct Hnc.
Qed.

Lemma uploadMetadata_wire p md m dropped :
  (forall x, visit p x ≡ₚ map_to_list x) -> uploadMetadata p md = Ok (m, dropped) ->
  (forall n v, md !! n = Some v -> n ∈ MetadataNames)
  /\ forall n v, wire_metadata m !! n = Some v <-> v <> "" /\ md !! n = Some v /\ carried n v = true.
Proof.
  intros Hperm H. unfold uploadMetadata in H.
  assert (NoDup (visit p md).*1) as Hd by (rewrite Hperm; apply NoDup_fst_map_to_list).
  assert (forall n v, (n, v) ∈ visit p md <-> md !! n = Some v) as Hv.
  { intros n v. rewrite Hperm. apply elem_of_map_to_list. }
  apply fold_upload_field in H as [Hall Hf]; [|done]. rewrite Forall_forall in Hall. split.
  { intros n v Hn. apply Hv in Hn. apply (Hall _ Hn). }
  intros n v. rewrite wire_lookup, Hf.
  destruct (list_find _ (visit p md)) as [[i [k w]]|] eqn:E.
  - apply list_find_Some in E as (Hi & [Ek Hc] & _). simpl in *. subst k.
    apply list_elem_of_lookup_2, Hv in Hi. split; [intros [Hne <-]|]; [done|]. intros (Hne & Hm & _).
    split; [done|]. congruence.
  - apply list_find_None in E. rewrite Forall_forall in E. split.
    + intros [Hne <-]. exfalso. apply Hne. unfold empty_metadata. rewrite field_cases. by repeat case_match.
    + intros (_ & Hm & Hc). apply Hv in Hm. exfalso. by apply (E _ Hm).
Qed.

(** ** A request of the shipper is authorized *)

Ltac in_list := apply (bool_decide_unpack _); vm_compute; exact I.

(** A manifest the pipeline sealed, as far as the metadata rules look. *)
Record manifest_fields (m : Manifest) : Prop := {
  mf_version : m_ManifestVersion m = ManifestVersion;
  mf_source : identifierRe (m_SourceID m) = true;
  mf_shipped : sha256_ok (ShippedHash m) = true;
  mf_class : identifierRe (m_ArtifactClass m) = true;
  mf_sniff : ShapeSniff m = "" \/ identifierRe (ShapeSniff m) = true;
  mf_status : EnrichStatus m = "" \/ identifierRe (EnrichStatus m) = true
}.

(** Sealing a collected file's manifest gives one, whatever was discovered about the file. *)
Lemma sealed_fields `{!Container} o src cand disc sourceHash mtime res now sc recipients out m :
  Seal (manifestFor o src cand disc sourceHash mtime res now) sc recipients = Ok (out, m) ->
  identifierRe (src_ID src) = true -> identifierRe (ArtifactClass src) = true -> manifest_fields m.
Proof.
  intros Hseal Hid Hc. apply Seal_spec in Hseal as (_ & _ & _ & _ & _ & _ & enc & -> & _).
  split; cbn; try done; [apply sha256_hex_ok| |by left].
  unfold str_or. destruct (disc_Sniff disc); right; reflexivity.
Qed.

(** An object as the write path prepares it for an install. *)
Record shipped_object (org inst : string) (o : PreparedObject) : Prop := {
  so_id : uploadObjectIDRe (ObjectID o) = true;
  so_hash : sha256_ok (po_SourceHash o) = true;
  so_size : 1 <= slen (Body o) <= uploadMaxObjectBytes;
  so_manifest : exists m nk cp, manifest_fields m /\ MirrorKey org inst (m_SourceID m) nk cp = Ok (po_Key o)
                                /\ Metadata o = delete "source-hash" (ObjectMetadata m)
}.

Lemma lookup_insert_if (b : bool) (m : gmap string string) k v n :
  (if b then <[k := v]> m else m) !! n = if b && bool_decide (k = n) then Some v else m !! n.
Proof.
  destruct b; simpl; [|done]. case_bool_decide as E; [subst; apply lookup_insert_eq|by apply lookup_insert_ne].
Qed.

Lemma metadata_lookup m n v :
  delete "source-hash" (ObjectMetadata m) !! n = Some v ->
  (n = "manifest-version" /\ v = int_text (m_ManifestVersion m)) \/ (n = "source-id" /\ v = m_SourceID m)
  \/ (n = "shipped-hash" /\ v = ShippedHash m) \/ (n = "artifact-class" /\ v = m_ArtifactClass m)
  \/ (n = "agent-version" /\ v = m_AgentVersion m) \/ (n = "shape-sniff" /\ v = ShapeSniff m)
  \/ (n = "derived" /\ v = "true") \/ (n = "enrich-status" /\ v = EnrichStatus m).
Proof.
  rewrite lookup_delete_Some. intros [Hs H]. unfold ObjectMetadata in H. rewrite !lookup_insert_if in H.
  repeat (case_match; [boolp; subst; injection H as <-; tauto|]).
  rewrite !lookup_insert_Some, lookup_empty in H. naive_solver.
Qed.

Definition required_fields (m : Manifest) : list (string * string) :=
  [("manifest-version", int_text (m_ManifestVersion m)); ("source-id", m_SourceID m);
   ("shipped-hash", ShippedHash m); ("artifact-class", m_ArtifactClass m)].

Lemma metadata_has m n v : (n, v) ∈ required_fields m -> delete "source-hash" (ObjectMetadata m) !! n = Some v.
Proof.
  intros Hn. assert (n <> "source-hash") as Hne.
  { intros ->. unfold required_fields in Hn. clear -Hn.
    repeat (apply elem_of_cons in Hn as [[=]|Hn]). by apply not_elem_of_nil in Hn. }
  rewrite lookup_delete_ne by done. unfold ObjectMetadata. rewrite !lookup_insert_if.
  unfold required_fields in Hn.
  repeat (apply elem_of_cons in Hn as [[= -> ->]|Hn];
    [rewrite !andb_false_r;
     repeat first [rewrite lookup_insert_eq; reflexivity | rewrite lookup_insert_ne by done]|]).
  by apply not_elem_of_nil in Hn.
Qed.

Lemma agent_ok v : v <> "" -> printableASCII v 128 = true -> uploadAgentRe v = true.
Proof.
  intros Hne H. unfold printableASCII, uploadAgentRe, length_within in *. boolp.
  rewrite !andb_true_iff. split_and!; [|apply Z.leb_le; destruct v; [done|]; unfold slen; simpl; lia|by apply Z.leb_le].
  match goal with H : str_existsb _ _ = false |- _ => revert H end. clear. induction v as [|c v IH]; [done|].
  rewrite str_existsb_cons. intros [[H3 H4]%orb_false_iff H2]%orb_false_iff. cbn [str_forallb].
  rewrite (IH H2), andb_true_r.
  boolp. apply andb_true_iff. split; lia.
Qed.

Lemma shipped_metadata_ok p o m r dropped :
  (forall x, visit p x ≡ₚ map_to_list x) -> manifest_fields m ->
  Metadata o = delete "source-hash" (ObjectMetadata m) -> uploadMetadata p (Metadata o) = Ok (r, dropped) ->
  metadata_ok (wire_metadata r) uploadMirrorMetadata /\ wire_metadata r !! "source-id" = Some (m_SourceID m).
Proof.
  intros Hp [Hv Hs Hh Hc Hn He] Hmd H. apply uploadMetadata_wire in H as [_ H]; [|done]. rewrite Hmd in H.
  assert (forall n v, (n, v) ∈ required_fields m -> wire_metadata r !! n = Some v /\ v <> "") as Hreq.
  { intros n v Hin. pose proof (metadata_has _ _ _ Hin) as Hl. unfold required_fields in Hin.
    assert (v <> "" /\ carried n v = true) as [? ?]; [|split; [by apply H|done]].
    repeat (apply elem_of_cons in Hin as [[= -> ->]|Hin];
      [split; [|reflexivity]; first [by rewrite Hv | intros E; by rewrite E in *]|]).
    by apply not_elem_of_nil in Hin. }
  split; [split|].
  - intros n v Hl. apply H in Hl as (Hne & Hl & Hcar). apply metadata_lookup in Hl.
    destruct_or! Hl; destruct Hl as [-> ->];
      (split; [reflexivity|]); (eexists; split; [reflexivity|]); cbn [valid]; try done.
    + by rewrite Hv.
    + apply agent_ok; [done|]. exact Hcar.
    + by destruct Hn.
    + by destruct He.
  - intros n rule Ha Hr. assert (n ∈ ["manifest-version"; "source-id"; "shipped-hash"; "artifact-class"]) as Hin.
    { unfold uploadMirrorMetadata in Ha. apply elem_of_list_to_map_2 in Ha.
      repeat (apply elem_of_cons in Ha as [[= -> ->]|Ha]; [first [discriminate Hr | in_list]|]).
      by apply not_elem_of_nil in Ha. }
    change (n ∈ (required_fields m).*1) in Hin. apply list_elem_of_fmap in Hin as ([n' v] & -> & Hin).
    destruct (Hreq _ _ Hin) as [E Hne]. cbn [fst]. by rewrite E.
  - apply (Hreq "source-id"). right. left.
Qed.

Lemma mirrorKeyRe_complete org inst src nk cp key :
  MirrorKey org inst src nk cp = Ok key -> uuidParse inst = Some inst ->
  mirrorKeyRe key = Some (org, inst, src).
Proof.
  intros H Hu. pose proof (MirrorKey_segments _ _ _ _ _ _ H) as Hs. unfold MirrorKey in H. inv_ok.
  match goal with H : InstallRoot _ _ = _ |- _ => apply InstallRoot_Ok in H as (Ho & Hi & ->) end.
  match goal with H : checkSegment _ _ = _ |- _ => apply checkSegment_Ok in H as Hsrc end.
  unfold mirrorKeyRe. rewrite Hs.
  assert (forall p s, has_prefix p (p +:+ s) = true) as Hp by (intros p s; apply has_prefix_spec; eauto).
  assert (forall p s, trim_prefix p (p +:+ s) = s) as Ht.
  { intros p s. unfold trim_prefix. by rewrite Hp, str_drop_app. }
  rewrite !Hp, !Ht, Ho, Hsrc. cbn [andb String.eqb Ascii.eqb eqb].
  rewrite (proj2 (cut_suffix_spec ".age" _ (MirrorName nk cp))) by done.
  unfold lower_uuid. rewrite bool_decide_eq_true_2 by done. cbn [andb].
  unfold MirrorName. unfold hmac_sha256. by rewrite digest_hex_ok.
Qed.

Section Request.
Context {W : Type} {net : PlaneNet W}.
Variables (p : vendPort) (org inst : string) (rec : InstallRecord).
Hypothesis Hvisit : forall x, visit p x ≡ₚ map_to_list x.
Hypothesis Horg : in_Organization rec = org.
(** The service kept the id the shipper enrolled with, whatever its case. *)
Hypothesis Hrec : uuidParse (in_InstallID rec) = Some inst.

Lemma shipped_object_authorized o r :
  uuidParse inst = Some inst -> shipped_object org inst o -> request_object p o = Ok r ->
  exists v, validateUploadObject (wire_object r) rec = Ok v
    /\ uo_ObjectID r = ObjectID o /\ uo_Key r = po_Key o /\ Size r = slen (Body o).
Proof.
  intros Hinst [Hid Hhash Hsize (m & nk & cp & Hm & Hkey & Hmd)] H. unfold request_object in H.
  destruct (uploadMetadata p (Metadata o)) as [[md dropped]|] eqn:Hu; [|done]. injection H as <-.
  destruct (shipped_metadata_ok _ _ _ _ _ Hvisit Hm Hmd Hu) as [Hok Hsrc].
  unfold validateUploadObject, wire_object.
  cbn [up_Size up_SourceHash up_Key up_ObjectID up_Metadata uo_ObjectID uo_Key Size uo_SourceHash uo_Metadata].
  assert ((slen (Body o) <=? 0) || (uploadMaxObjectBytes <? slen (Body o)) = false) as ->.
  { apply orb_false_iff. split; [apply Z.leb_gt|apply Z.ltb_ge]; lia. }
  unfold uploadHashRe. rewrite Hhash, Hrec. cbn [negb]. unfold allowed_for.
  cbn [up_Size up_SourceHash up_Key up_ObjectID up_Metadata].
  rewrite (mirrorKeyRe_complete _ _ _ _ _ _ Hkey Hinst), Horg, Hsrc. cbn [default]. rewrite !String.eqb_refl. cbn [negb orb rbind fst].
  rewrite (proj2 (validateUploadMetadata_iff _ _ _ (wire_metadata md))) by done. cbn [rbind].
  eexists. split_and!; reflexivity.
Qed.

(** Nothing an object is prepared with is empty. *)
Lemma metadata_nonempty m n v : manifest_fields m -> delete "source-hash" (ObjectMetadata m) !! n = Some v -> v <> "".
Proof.
  intros [Hv Hs Hh Hc _ _]. rewrite lookup_delete_Some. intros [Hn H]. unfold ObjectMetadata in H. rewrite !lookup_insert_if in H.
  repeat (case_match; [boolp; injection H as <-; first [done|by boolp]|]). rewrite !lookup_insert_Some, lookup_empty in H.
  assert (int_text (m_ManifestVersion m) <> "") as Hi by (by rewrite Hv).
  assert (forall s, identifierRe s = true -> s <> "") as Hid by (by intros s Hs0 ->).
  destruct H as [[_ <-]|[_ H]]; [done|]. destruct H as [[_ <-]|[_ H]]; [by apply Hid|].
  destruct H as [[E _]|[_ H]]; [done|]. destruct H as [[_ <-]|[_ H]]; [|by destruct H as [[_ <-]|[_ [=]]]; apply Hid].
  intros E. by rewrite E in Hh.
Qed.

(** C19: A ticket the service lets out, for an object as it authorized the shipper's request for it, is refused
    by the shipper for its URL or for the agent version, and for nothing else. It is spent exactly when the
    object has no agent version outside the protocol's grammar, which the request leaves out and the headers
    are still expected to carry, and the URL is an absolute one that names the key in its canonical spelling
    at a declared origin. *)
Theorem issued_ticket_spent tgts obj uo v tid batch (t : uploadTicket) :
  Forall target_ok tgts -> shipped_object org inst obj -> request_object p obj = Ok uo ->
  validateUploadObject (wire_object uo) rec = Ok v -> tid <> "" ->
  ut_ObjectID t = ObjectID obj -> ticket_ok batch (with_ticket v tid) t = true ->
  ValidateTicket (visit p) tgts (toPreparedUpload obj) (wire_ticket t) = Ok () <->
  (forall w, Metadata obj !! "agent-version" = Some w -> printableASCII w 128 = true) /\
  exists u, parseTicketURL (ut_URL t) = Ok u /\ validateKey (po_Key obj) = Ok () /\ accepted_path tgts u (po_Key obj).
Proof.
  intros Htargets Hobj Hreq Hv Htid Hto Hok. rewrite (ValidateTicket_exact (visit p) Hvisit) by done.
  pose proof Hobj as [Hid Hhash _ (m & nk & cp & Hm & _ & Hmd)].
  unfold request_object in Hreq. destruct (uploadMetadata p (Metadata obj)) as [[md dropped]|] eqn:Hu; [|done]. injection Hreq as <-.
  destruct (uploadMetadata_wire _ _ _ _ Hvisit Hu) as [Hnames Hwire].
  apply validateUploadObject_Ok in Hv as (_ & _ & _ & _ & _ & _ & _ & Ev & _).
  cbn [wire_object up_ObjectID up_Key up_Size up_SourceHash up_Metadata uo_ObjectID uo_Key Size uo_SourceHash uo_Metadata] in Ev.
  revert Ev. generalize (Mirror v) as mirrored. intros mirrored ->.
  unfold ticket_ok, with_ticket in Hok. cbn [or_ObjectID or_TicketID or_Key or_Size or_Metadata or_Tagging Mirror] in Hok. boolp.
  set (o := mkObjReq _ _ _ _ _ _ _) in *.
  assert (ObjectID obj <> "") as Hoid by (intros E; by rewrite E in Hid).
  assert (po_SourceHash obj <> "") as Hsrc by (intros E; by rewrite E in Hhash).
  assert (forall n w, Metadata obj !! n = Some w -> w <> "") as Hne by (intros n w; rewrite Hmd; by apply metadata_nonempty).
  cbn [wire_ticket t_URL t_ObjectID Method ContentLength ContentLengthSigned toPreparedUpload pu_ObjectID pu_Key pu_Body].
  split.
  - intros (Hurl & _ & _ & _ & _ & _ & Hb). split; [|done]. intros w Hw.
    assert (or_Metadata o !! "agent-version" = Some w) as Ho.
    { apply (bound_metadata (toPreparedUpload obj) o t); try done; subst o; cbn [or_Metadata].
      - intros n x Hx. destruct (decide (n = "ticket-id")) as [->|Hn1].
        { rewrite lookup_insert_eq in Hx. injection Hx as <-. split; [in_list|done]. }
        rewrite lookup_insert_ne in Hx by done. destruct (decide (n = "source-hash")) as [->|Hn2].
        { rewrite lookup_insert_eq in Hx. injection Hx as <-. split; [in_list|done]. }
        rewrite lookup_insert_ne in Hx by done. apply Hwire in Hx as (Hx1 & Hx2 & _). split; [|done].
        apply elem_of_app. left. by eapply Hnames.
      - rewrite lookup_insert_ne, lookup_insert_eq by done. done. }
    subst o. cbn [or_Metadata] in Ho. rewrite !lookup_insert_ne in Ho by done. apply Hwire in Ho as (_ & _ & Hc). exact Hc.
  - intros [Ha Hurl]. split_and!; try done; try congruence.
    assert (wire_metadata md = Metadata obj) as Emd.
    { apply map_eq. intros n. apply option_eq. intros w. rewrite Hwire. split; [tauto|]. intros Hw. split_and!; [by eapply Hne|done|].
      unfold carried. destruct (String.eqb_spec n "agent-version") as [->|]; [by apply Ha|done]. }
    apply (service_headers_bound (toPreparedUpload obj) o); try done; [|by intros n w Hn; split; [eapply Hnames|eapply Hne]|congruence].
    subst o. cbn [or_Metadata toPreparedUpload pu_SourceHash pu_Metadata]. rewrite Emd. congruence.
Qed.

Lemma shipped_objects_authorized batch l ids keys total :
  uuidParse inst = Some inst -> Forall (shipped_object org inst) batch -> request_objects p batch = Ok l ->
  NoDup (ObjectID <$> batch) -> (forall x, x ∈ ObjectID <$> batch -> x ∉ ids) ->
  NoDup (po_Key <$> batch) -> (forall x, x ∈ po_Key <$> batch -> x ∉ keys) ->
  total + Zsum (map (fun o => slen (Body o)) batch) <= uploadMaxBatchBytes ->
  length l = length batch /\ exists out, validate_objects rec ids keys total (map wire_object l) = Ok out.
Proof.
  intros Hinst Hall. revert l ids keys total. induction Hall as [|o batch Ho Hall IH]; intros l ids keys total H.
  { injection H as <-. simpl. eauto. }
  cbn [request_objects] in H. apply rbind_Ok in H as (r & Hr & H). apply rbind_Ok in H as (rs & Hrs & [= <-]).
  rewrite !fmap_cons. intros [Hi Hni]%NoDup_cons Hids [Hk Hnk]%NoDup_cons Hkeys Hsum.
  destruct (shipped_object_authorized _ _ Hinst Ho Hr) as (v & Hv & Ei & Ek & Es).
  simpl. rewrite Ei, Ek, (so_id _ _ _ Ho). cbn [negb].
  rewrite !bool_decide_eq_false_2 by (first [apply Hids|apply Hkeys]; left). rewrite Hv. cbn [rbind].
  rewrite Es. change (total + (slen (Body o) + Zsum (map (fun o => slen (Body o)) batch)) <= uploadMaxBatchBytes) in Hsum.
  assert (0 <= Zsum (map (fun o => slen (Body o)) batch)).
  { clear. induction batch as [|x l IH]; [done|]. cbn [map]. change (0 <= slen (Body x) + Zsum (map (fun o => slen (Body o)) l)). unfold slen at 1. lia. }
  assert (uploadMaxBatchBytes <? total + slen (Body o) = false) as -> by (apply Z.ltb_ge; lia).
  destruct (IH rs ({[ObjectID o]} ∪ ids) ({[po_Key o]} ∪ keys) (total + slen (Body o)) Hrs Hni) as [Hlen [out Ho']].
  - intros x Hx. rewrite not_elem_of_union, not_elem_of_singleton. split; [by intros ->|]. apply Hids. by right.
  - done.
  - intros x Hx. rewrite not_elem_of_union, not_elem_of_singleton. split; [by intros ->|]. apply Hkeys. by right.
  - lia.
  - change (wire_object <$> rs) with (map wire_object rs). rewrite Ho'. cbn [rbind]. split; [by f_equal|eauto].
Qed.

(** C18: What the shipper asks for, the fleet manager authorizes. A batch of sealed objects of one install,
    named by its own mirror keys, within the protocol's bounds and under distinct ids and keys, makes a
    request that the service's validation accepts when it arrives within the freshness window, whatever
    agent version was sniffed and in whatever order the metadata is visited. *)
Theorem shipper_request_authorized batch w req now :
  uuidParse inst = Some inst -> uploadUUIDRe (writerID p) = true ->
  Forall (shipped_object org inst) batch -> NoDup (ObjectID <$> batch) -> NoDup (po_Key <$> batch) ->
  1 <= Zlen batch <= uploadMaxObjects -> Zsum (map (fun o => slen (Body o)) batch) <= uploadMaxBatchBytes ->
  plane_now w - uploadIssuedAtSkew <= now <= plane_now w + uploadIssuedAtMaxAge ->
  request p batch w = Ok req ->
  exists out, validateUploadRequest (wire_request req) rec now = Ok out.
Proof.
  intros Hinst Hw Hall Hni Hnk Hlen Hsum Hnow H. unfold request in H. apply rbind_Ok in H as (l & Hl & [= <-]).
  destruct (shipped_objects_authorized batch l ∅ ∅ 0 Hinst Hall Hl Hni ltac:(set_solver) Hnk ltac:(set_solver)
    ltac:(lia)) as [El [out Hout]].
  exists out. unfold validateUploadRequest, wire_request. cbn. rewrite Hw. cbn [negb].
  assert (uploadIssuedAtMaxAge <? now - plane_now w = false) as -> by (apply Z.ltb_ge; lia).
  assert (now - plane_now w <? - uploadIssuedAtSkew = false) as -> by (apply Z.ltb_ge; lia).
  assert (bool_decide (map wire_object l = []) || (uploadMaxObjects <? Zlen (map wire_object l)) = false) as ->; [|done].
  unfold Zlen in *. rewrite length_map. apply orb_false_iff. split; [|apply Z.ltb_ge; lia].
  apply bool_decide_eq_false. intros E. apply map_eq_nil in E as ->. simpl in El. lia.
Qed.
End Request.

(** ** An exchange *)
Module SampleIssue.

#[local] Existing Instance generations.

Definition org : string := "acme".
Definition inst : string := "3d4f7c1e-9a2b-4c5d-8e6f-0a1b2c3d4e5f".
Definition now : Z := 1790000000 * 10 ^ 9.
Definition rec : InstallRecord :=
  mkInstall 1 org inst "key" "age1x" "host" "darwin" "d" InstallActive 0 0 None.

Definition raw_hash : string := Eval vm_compute in sha256_hex "raw".
Definition shipped_hash : string := Eval vm_compute in sha256_hex "scrubbed".
Definition manifest : Manifest :=
  mkManifest 1 org inst "claude" "" "" "" "trajectory" raw_hash shipped_hash 8 None "2.0 beta" "ok"
    None None None (mkClient "" "" false "" "" "") 0 false "2026-09-21T14:13:20Z" "" false None [] "" 0 None 0 0 0 0.
Definition key : string :=
  Eval vm_compute in match MirrorKey org inst "claude" (replicate 32 7) "p/a.jsonl" with Ok k => k | Err _ => "" end.
Definition object : PreparedObject :=
  mkPrepared "0" key "sealed" raw_hash (delete "source-hash" (ObjectMetadata manifest)).

#[local] Instance plane : PlaneNet () := {|
  plane_post := fun w _ _ _ => (Ok (200, ""), w);
  plane_now := fun _ => now;
  enrollment_lock := fun _ => None;
  save_fails := fun _ => None
|}.
Definition port : vendPort := mkVendPort SamplePlane.client SampleTicket.targets inst true map_to_list id.

Lemma object_shipped : shipped_object org inst object.
Proof.
  split; [vm_compute; reflexivity..|vm_compute; split; discriminate|].
  exists manifest, (replicate 32 7), "p/a.jsonl". split; [|split; [vm_compute|]; reflexivity].
  split; [reflexivity|reflexivity|vm_compute; reflexivity|reflexivity|by right|by left].
Qed.

Definition sent : AuthorizeRequest :=
  match request port [object] () with Ok r => r | Err _ => mkAuthorizeRequest "" None [] end.

Lemma shipper_request_authorized_witness :
  exists out, validateUploadRequest (wire_request sent) rec (now + 60 * 10 ^ 9) = Ok out.
Proof.
  apply (shipper_request_authorized port org inst rec (fun m => reflexivity _) eq_refl ltac:(vm_compute; reflexivity)
           [object] ()); try (vm_compute; reflexivity).
  - constructor; [apply object_shipped|constructor].
  - apply (bool_decide_unpack _). vm_compute. exact I.
  - apply (bool_decide_unpack _). vm_compute. exact I.
  - vm_compute. split; discriminate.
  - vm_compute. discriminate.
  - vm_compute. split; discriminate.
Defined.

Definition authorized : list UploadObjectRequest :=
  Eval vm_compute in match validateUploadRequest (wire_request sent) rec now with Ok out => out | Err _ => [] end.

Lemma authorization_confined_witness :
  Zlen authorized = 1 /\ Forall (fun v => key_owner (or_Key v) = Some (org, inst)) authorized.
Proof.
  destruct (authorization_confined (wire_request sent) rec now authorized ltac:(vm_compute; reflexivity))
    as ((i & Hi & H) & _). split; [vm_compute; reflexivity|].
  assert (uuidParse (in_InstallID rec) = Some inst) as E by (vm_compute; reflexivity).
  rewrite E in Hi. injection Hi as <-. apply (Forall_impl _ _ _ H). by intros v [Hv _].
Defined.

(** A signer that signs what the service wants, at the target of [SampleTicket]. *)
Definition sign (b : UploadBatch) (o : UploadObjectRequest) : uploadTicket :=
  mkUpTicket (or_TicketID o) (or_ObjectID o) "PUT" ("https://store.example/bucket/" +:+ canonicalPath (or_Key o) +:+ "?sig=1")
    (b_ExpiresAt b) (wanted_headers aws o) (or_Size o) true false.

#[local] Instance signer : SignerNet := {|
  decode_authorize := fun _ => Some (wire_request sent);
  ticket_ids := fun i => "ticket-" +:+ int_text (Z.of_nat i);
  probe := fun _ => Err ErrNotFound;
  Authorize := fun _ _ b => Some (map (sign b) (b_Objects b))
|}.

Definition facts : clientFacts := mkFacts "1.0" "darwin" "boot" None.
Definition exchanged : option authorize_answer * FleetStore.store :=
  FleetStore.run now (handleUploadAuthorize (touch org inst seenVend facts) rec "{}" Ret) (mkStore ∅ 0).
Definition tickets : list uploadTicket :=
  Eval vm_compute in match exchanged.1 with Some (Issued l) => l | _ => [] end.

Lemma issued_one : exchanged = (Some (Issued tickets), exchanged.2) /\ Zlen tickets = 1.
Proof. split; vm_compute; reflexivity. Qed.

Lemma authorize_answers_each_witness :
  ut_ObjectID <$> tickets = ["0"] /\ forall t, t ∈ tickets -> answers now authorized t.
Proof.
  split; [vm_compute; reflexivity|].
  destruct (authorize_answers_each rec facts "{}" now (mkStore ∅ 0) tickets exchanged.2 (proj1 issued_one))
    as (req & objects & Hd & Hv & _ & H).
  assert (objects = authorized) as <-; [|exact H].
  injection Hd as <-.
  assert (validateUploadRequest (wire_request sent) rec now = Ok authorized) as E by (vm_compute; reflexivity).
  rewrite E in Hv. by injection Hv.
Defined.

Definition granted : UploadObjectRequest :=
  Eval vm_compute in match authorized with o :: _ => with_ticket o "ticket-0" | [] => mkObjReq "" "" "" 0 ∅ "" false end.
Definition batch : UploadBatch := mkBatch now (now + uploadTicketLifetime) [granted].

Lemma issued_ticket_spent_witness :
  ValidateTicket map_to_list SampleTicket.targets (toPreparedUpload object) (wire_ticket (sign batch granted)) = Ok () <->
  (forall w, Metadata object !! "agent-version" = Some w -> printableASCII w 128 = true) /\
  exists u, parseTicketURL (ut_URL (sign batch granted)) = Ok u /\ validateKey (po_Key object) = Ok () /\
    accepted_path SampleTicket.targets u (po_Key object).
Proof.
  destruct (request_object port object) as [uo|e] eqn:Hr; [|vm_compute in Hr; discriminate].
  destruct (validateUploadObject (wire_object uo) rec) as [v|e] eqn:Hv.
  - apply (issued_ticket_spent port org inst rec (fun m => reflexivity _) SampleTicket.targets object uo v "ticket-0" batch (sign batch granted)).
    + apply Forall_singleton. exact (proj1 (NewUploadTarget_spec SampleTicket.spec _ eq_refl)).
    + exact object_shipped.
    + exact Hr.
    + exact Hv.
    + discriminate.
    + vm_compute. reflexivity.
    + vm_compute in Hr. injection Hr as <-. vm_compute in Hv. injection Hv as <-. vm_compute. reflexivity.
  - exfalso. vm_compute in Hr. injection Hr as <-. vm_compute in Hv. discriminate.
Defined.

(** Both sides hold of that ticket. *)
Example granted_spent :
  ValidateTicket map_to_list SampleTicket.targets (toPreparedUpload object) (wire_ticket (sign batch granted)) = Ok ().
Proof. vm_compute. reflexivity. Qed.

End SampleIssue.
