(* ===== verification/FleetServer.v ===== *)
(** The fleet manager's device endpoints ([fleet-manager/src/server.go]): the enrollment handler and the
    signature check in front of every signed request, with the header the shipper sends
    ([src/internal/controlplane/backend.go]). UUID parsing of the library, the age recipient check, the
    Ed25519 verification and the JSON decoder are the class [DeviceNet]. *)

From S2P Require Import Prelude GoLib Redact Crypto Naming GoUrl GoText ControlPlane FleetStore FleetToken FleetSeen FleetEnroll.

Definition requestLimit : Z := Z.shiftl 1 20.
Definition domainSeparationNamespace : string := "trajectory-shipper-".
Definition telemetryShipperPreamble : string :=
  "trajectory-shipper-telemetry-v1" +:+ String "010" ("POST" +:+ String "010" ("/v1/telemetry" +:+ String "010" "")).

(** ** Answers *)

(** [http.Error] writes the text and a newline. *)
Record refusal := mkRefusal { rf_status : Z; rf_text : string }.
Definition http_body (r : refusal) : string := rf_text r +:+ String "010" "".

Definition Error_text (e : ferror) : string :=
  match e with
  | ErrForbidden => "enrollment credential refused"
  | ErrEnrollmentConflict => "enrollment conflicts with an existing install"
  | ErrUnknownInstall => "unknown install"
  | ErrRevokedInstall => "this install is revoked"
  | ErrNotFound => "object not found"
  | ErrConflict => "conditional write conflict"
  | ErrTooLarge => "state object exceeds 4 MiB"
  | EText msg => msg
  end.

Record enrollRequest := mkEnroll {
  er_Invite : string;
  er_Grant : string;
  er_InstallID : string;
  er_DevicePublicKey : string;
  er_AgeRecipient : string;
  er_Hostname : string;
  er_Platform : string
}.

(** [uuid_Parse] gives the canonical text of what [uuid.Parse] accepts. *)
Class DeviceNet := {
  uuid_Parse : string -> option string;
  ParseX25519Recipient : string -> bool;
  ed25519_Verify : string -> string -> string -> bool;
  decode_enroll : string -> option enrollRequest
}.

Section Handlers.
Context {prov : Provider} {net : DeviceNet}.

Definition refuse {A} (status : Z) (text : string) : prog (result refusal A) := Ret (Err (mkRefusal status text)).

(** A body that cannot be read is [None]. *)
Definition readRequest {A} (body : option string) (k : string -> prog (result refusal A)) : prog (result refusal A) :=
  match body with
  | None => refuse 400 "read request"
  | Some b => if requestLimit <? slen b then refuse 400 "request exceeds 1 MiB" else k b
  end.

(** ** Enrollment *)

Definition enrollmentDigest (body : string) : string := sha256_hex body.
Definition enrollmentOrganization (token : string) : result ferror string :=
  match organizationToken token with Some (org, _) => Ok org | None => Err ErrForbidden end.

(** The id on record: the library's canonical text, unless the request's id is that text in another
    case. *)
Definition enroll_id (id canonical : string) : string :=
  if negb (canonical =? to_lower id)%string then canonical else id.

Definition enroll_record (req : enrollRequest) (canonical body : string) : InstallRecord :=
  mkInstall 0 "" (enroll_id (er_InstallID req) canonical) (er_DevicePublicKey req) (er_AgeRecipient req)
    (er_Hostname req) (er_Platform req) (enrollmentDigest body) InstallPending 0 0 None.

Definition device_key (text : string) : option string :=
  match DecodeString StdEncoding text with
  | Some pub => if slen pub =? 32 then Some pub else None
  | None => None
  end.

(** [Again] of the enrollment starts the handler over; what precedes it touches no state. *)
Definition handleEnroll (facts : clientFacts) (body : option string) : prog (result refusal string) :=
  readRequest body (fun raw =>
  match decode_enroll raw with
  | None => refuse 400 "malformed enroll request"
  | Some req =>
      match uuid_Parse (er_InstallID req) with
      | None => refuse 400 "install_id is not a UUID"
      | Some canonical =>
          if negb (ParseX25519Recipient (er_AgeRecipient req))
          then refuse 400 "age_recipient does not parse as an age X25519 recipient"
          else if bool_decide (device_key (er_DevicePublicKey req) = None)
          then refuse 400 "device_public_key must be a base64 32-byte ed25519 public key"
          else if Bool.eqb (er_Invite req =? "")%string (er_Grant req =? "")%string
          then refuse 400 "pass exactly one of invite or grant"
          else
            let rec := enroll_record req canonical raw in
            let credential := if negb (er_Grant req =? "")%string then er_Grant req else er_Invite req in
            let answer org (r : outcome) :=
              match r with
              | Ok _ => touch org (in_InstallID rec) seenEnrollment facts (Ret (Ok org))
              | Err ErrForbidden => refuse 403 (Error_text ErrForbidden)
              | Err ErrEnrollmentConflict => refuse 409 (Error_text ErrEnrollmentConflict)
              | Err ErrConflict => refuse 409 (Error_text ErrConflict)
              | Err _ => refuse 500 "enrollment unavailable"
              end in
            match enrollmentOrganization credential with
            | Err e => answer "" (Err e)
            | Ok org =>
                if negb (orgPattern org) then answer org (Err (EText "organization must be a lowercase slug of at most 63 characters"))
                else if negb (er_Grant req =? "")%string
                then prog_bind (EnrollGrant org (er_Grant req) rec) (answer org)
                else prog_bind (EnrollInvite org (er_Invite req) rec) (answer org)
            end
      end
  end).

(** ** Device authentication *)

Definition auth_scheme : string := "Shipper-Device ".

(** The last [org], [install] and [sig] of the comma-separated fields. *)
Definition auth_field (acc : string * string * string) (field : string) : string * string * string :=
  let '(org, install, sig) := acc in
  let '(key, value, found) := Url.cut_byte "=" (TrimSpace field) in
  if negb found then acc
  else if (key =? "org")%string then (value, install, sig)
  else if (key =? "install")%string then (org, value, sig)
  else if (key =? "sig")%string then (org, install, value)
  else acc.
Definition auth_fields (auth : string) : string * string * string :=
  foldl auth_field ("", "", "") (split_on "," (trim_prefix auth_scheme auth)).

Definition deviceAuth {A} (preamble : string) (next : InstallRecord -> string -> prog (result refusal A))
    (auth : string) (body : option string) : prog (result refusal A) :=
  readRequest body (fun body =>
  if (preamble =? "")%string && has_prefix domainSeparationNamespace body
  then refuse 400 "body is not a v1 request"
  else if negb (has_prefix auth_scheme auth) then refuse 401 "missing Shipper-Device authorization"
  else
    let '(org, installID, signature) := auth_fields auth in
    if bool_decide (uuid_Parse installID = None) || (signature =? "")%string || negb (orgPattern org)
    then refuse 401 "invalid Shipper-Device authorization"
    else
      LoadActiveInstall org installID (fun r =>
        match r with
        | Err ErrUnknownInstall => refuse 401 (Error_text ErrUnknownInstall)
        | Err ErrRevokedInstall => refuse 403 (Error_text ErrRevokedInstall)
        | Err _ => refuse 500 "authentication unavailable"
        | Ok rec =>
            match device_key (in_DevicePublicKey rec), DecodeString StdEncoding signature with
            | Some pub, Some sig =>
                if ed25519_Verify pub (preamble +:+ body) sig then next rec body
                else refuse 401 "signature does not verify"
            | _, _ => refuse 401 "signature does not verify"
            end
        end)).

(** ** The shipper's header (backend.go) *)

Definition EncodeKey (key : list Z) : string := EncodeToString StdEncoding key.
Definition authorization (org install : string) (sig : list Z) : string :=
  "Shipper-Device org=" +:+ org +:+ ", install=" +:+ install +:+ ", sig=" +:+ EncodeKey sig.

End Handlers.
