(* ===== verification/FleetServerSafe.v ===== *)
(** What the device endpoints promise: the signature check as a function of the store, a signature that
    opens one endpoint opens no other, the shipper's header is read back as it was written, an enrolled
    device is let in until it is revoked, and a revoked one is told so in the words its client stops on. *)

From S2P Require Import Prelude GoLib GoJson Redact Crypto Naming GoUrl GoText Vocab ControlPlane Ticket TicketSafe FleetStore FleetToken FleetSeen FleetEnroll FleetLogic FleetEnrollSafe FleetProps FleetIssue FleetServer.

(** ** The check, as a function of the store *)
Section Check.
Context {prov : Provider} {net : DeviceNet}.

Definition refused {A} (status : Z) (text : string) : result refusal A := Err (mkRefusal status text).

Definition active_install (org id : string) (s : store) : result ferror InstallRecord :=
  match body_at s (installKey org id) with
  | None => Err ErrUnknownInstall
  | Some (SInstall rec) =>
      if negb (in_Schema rec =? schemaVersion) || negb (in_Organization rec =? org)%string
      then Err (EText "invalid install record")
      else if bool_decide (in_Status rec = InstallRevoked) then Err ErrRevokedInstall
      else if negb (bool_decide (in_Status rec = InstallActive)) then Err ErrUnknownInstall
      else Ok rec
  | Some _ => Err (EText ("decode " +:+ installKey org id))
  end.

Definition signed_by (preamble body signature : string) (rec : InstallRecord) : result refusal (InstallRecord * string) :=
  match device_key (in_DevicePublicKey rec), DecodeString StdEncoding signature with
  | Some pub, Some sig => if ed25519_Verify pub (preamble +:+ body) sig then Ok (rec, body)
                          else refused 401 "signature does not verify"
  | _, _ => refused 401 "signature does not verify"
  end.

Definition device_check (preamble auth : string) (body : option string) (s : store) :
    result refusal (InstallRecord * string) :=
  match body with
  | None => refused 400 "read request"
  | Some body =>
      if requestLimit <? slen body then refused 400 "request exceeds 1 MiB"
      else if (preamble =? "")%string && has_prefix domainSeparationNamespace body
      then refused 400 "body is not a v1 request"
      else if negb (has_prefix auth_scheme auth) then refused 401 "missing Shipper-Device authorization"
      else
        let '(org, id, signature) := auth_fields auth in
        if bool_decide (uuid_Parse id = None) || (signature =? "")%string || negb (orgPattern org)
        then refused 401 "invalid Shipper-Device authorization"
        else match active_install org id s with
             | Err ErrUnknownInstall => refused 401 "unknown install"
             | Err ErrRevokedInstall => refused 403 "this install is revoked"
             | Err _ => refused 500 "authentication unavailable"
             | Ok rec => signed_by preamble body signature rec
             end
  end.

Lemma run_LoadActiveInstall {A} now org id (k : result ferror InstallRecord -> prog A) s :
  run now (LoadActiveInstall org id k) s = run now (k (active_install org id s)) s.
Proof.
  unfold LoadActiveInstall, getRecord, active_install, body_at. cbn [run]. unfold store_Get.
  destruct (objects s !! installKey org id) as [o|]; [|done]. cbn [rbind decoded]. unfold decoded. simpl.
  destruct (body o); try done.
Qed.

(** On a store that answers, the handler behind the check runs exactly when the check passes. *)
Lemma deviceAuth_run {A} now preamble (next : InstallRecord -> string -> prog (result refusal A)) auth body s :
  run now (deviceAuth preamble next auth body) s =
  match device_check preamble auth body s with
  | Ok (rec, b) => run now (next rec b) s
  | Err r => (Some (Err r), s)
  end.
Proof.
  unfold deviceAuth, device_check, readRequest. destruct body as [b|]; [|done].
  destruct (requestLimit <? slen b); [done|]. destruct (_ && _); [done|]. destruct (negb (has_prefix _ _)); [done|].
  destruct (auth_fields auth) as [[org id] sig]. destruct (_ || _ || _); [done|].
  rewrite run_LoadActiveInstall. unfold signed_by. destruct (active_install org id s) as [rec|[]]; try done.
  destruct (device_key _) as [pub|]; [|done]. destruct (DecodeString _ _) as [sg|]; [|done].
  by destruct (ed25519_Verify _ _ _).
Qed.

Lemma active_install_Ok org id s rec :
  active_install org id s = Ok rec ->
  body_at s (installKey org id) = Some (SInstall rec) /\ in_Status rec = InstallActive
  /\ in_Organization rec = org /\ in_Schema rec = schemaVersion.
Proof.
  unfold active_install. destruct (body_at _ _) as [[]|]; try done. intros H. inv_ok. boolp.
  destruct (in_Schema rec =? schemaVersion) eqn:E1, (in_Organization rec =? org)%string eqn:E2; boolp; done.
Qed.

(** What the check establishes. *)
Record authenticated (preamble auth : string) (s : store) (rec : InstallRecord) (b : string) : Prop := {
  au_record : body_at s (installKey (in_Organization rec) (auth_fields auth).1.2) = Some (SInstall rec);
  au_org : (auth_fields auth).1.1 = in_Organization rec;
  au_active : in_Status rec = InstallActive;
  au_size : slen b <= requestLimit;
  au_v1 : preamble = "" -> has_prefix domainSeparationNamespace b = false;
  au_signature : exists pub sig, device_key (in_DevicePublicKey rec) = Some pub
    /\ DecodeString StdEncoding (auth_fields auth).2 = Some sig /\ ed25519_Verify pub (preamble +:+ b) sig = true
}.

Lemma device_check_Ok preamble auth body s rec b :
  device_check preamble auth body s = Ok (rec, b) -> body = Some b /\ authenticated preamble auth s rec b.
Proof.
  unfold device_check. destruct body as [b'|]; [|done]. intros H.
  destruct (requestLimit <? slen b') eqn:Hsz; [done|].
  destruct ((preamble =? "")%string && has_prefix domainSeparationNamespace b') eqn:Hns; [done|].
  destruct (has_prefix auth_scheme auth); [|done]. cbn [negb] in H.
  destruct (auth_fields auth) as [[org id] signature] eqn:Ef. destruct (_ || _ || _); [done|].
  destruct (active_install org id s) as [r|[]] eqn:Ha; try done.
  apply active_install_Ok in Ha as (Hb & Hst & Ho & _). unfold signed_by in H.
  destruct (device_key (in_DevicePublicKey r)) as [pub|] eqn:Hk; [|done].
  destruct (DecodeString StdEncoding signature) as [sg|] eqn:Hsg; [|done].
  destruct (ed25519_Verify pub (preamble +:+ b') sg) eqn:Hv; [|done]. injection H as -> ->. boolp.
  split; [done|]. split; rewrite ?Ef; cbn [fst snd]; try done.
  - by rewrite Ho.
  - intros ->. by destruct (has_prefix domainSeparationNamespace b).
  - eauto.
Qed.

(** ** Endpoints *)

(** The signed endpoints of the service, by their preambles. *)
Definition endpoints : list string := [""; uploadAuthorizePreamble; telemetryShipperPreamble].

Lemma namespace_prefix p b : p ∈ endpoints -> p <> "" -> has_prefix domainSeparationNamespace (p +:+ b) = true.
Proof.
  intros Hp Hne. unfold endpoints in Hp. repeat (apply elem_of_cons in Hp as [->|Hp]); [done|reflexivity..|].
  by apply not_elem_of_nil in Hp.
Qed.

Lemma messages_apart p1 p2 b1 b2 :
  p1 ∈ endpoints -> p2 ∈ endpoints ->
  (p1 = "" -> has_prefix domainSeparationNamespace b1 = false) ->
  (p2 = "" -> has_prefix domainSeparationNamespace b2 = false) ->
  p1 +:+ b1 = p2 +:+ b2 -> p1 = p2 /\ b1 = b2.
Proof.
  intros H1 H2 N1 N2 E. assert (p1 = p2) as ->; [|split; [done|by apply (inj (String.append p2)) in E]].
  destruct (decide (p1 = "")) as [->|Hn1], (decide (p2 = "")) as [->|Hn2]; [done|..].
  - simpl in E. rewrite E in N1. specialize (N1 eq_refl). by rewrite namespace_prefix in N1.
  - simpl in E. rewrite <- E in N2. specialize (N2 eq_refl). by rewrite namespace_prefix in N2.
  - unfold endpoints in H1, H2.
    repeat (apply elem_of_cons in H1 as [->|H1]); [done|..|by apply not_elem_of_nil in H1];
      repeat (apply elem_of_cons in H2 as [->|H2]); try done; try (by apply not_elem_of_nil in H2).
Qed.

(** An endpoint that answers with what reached it. *)
Definition pass_record (rec : InstallRecord) (b : string) : prog (result refusal (InstallRecord * string)) := Ret (Ok (rec, b)).

Lemma admit_check now p auth body s rec b s' :
  run now (deviceAuth p pass_record auth body) s = (Some (Ok (rec, b)), s') -> device_check p auth body s = Ok (rec, b).
Proof. rewrite deviceAuth_run. destruct (device_check _ _ _ _) as [[r x]|]; simpl; congruence. Qed.

(** C16: A signature opens the endpoint it was made for. A request gets past the signature check only with
    a signature, by the key on record of an install active in the organization its header names, over
    the endpoint's preamble and the exact body; and bytes signed for one endpoint that are accepted at
    another are the same request to the same endpoint. *)
Theorem signature_opens_one_endpoint p1 p2 auth1 auth2 body1 body2 now s1 s2 rec1 rec2 b1 b2 s1' s2' :
  p1 ∈ endpoints -> p2 ∈ endpoints ->
  run now (deviceAuth p1 pass_record auth1 body1) s1 = (Some (Ok (rec1, b1)), s1') ->
  run now (deviceAuth p2 pass_record auth2 body2) s2 = (Some (Ok (rec2, b2)), s2') ->
  authenticated p1 auth1 s1 rec1 b1 /\ (p1 +:+ b1 = p2 +:+ b2 -> p1 = p2 /\ body1 = body2).
Proof.
  intros He1 He2 H1%admit_check H2%admit_check.
  apply device_check_Ok in H1 as [-> H1], H2 as [-> H2]. split; [done|]. intros E.
  destruct (messages_apart p1 p2 b1 b2 He1 He2 (au_v1 _ _ _ _ _ H1) (au_v1 _ _ _ _ _ H2) E) as [-> ->]. done.
Qed.

(** ** The header *)

Definition plain (c : ascii) : bool := (byte_code c <? 128) && negb (is_space c).

Lemma raw_runes_plain s : str_forallb (fun c => byte_code c <? 128) s = true ->
  raw_runes s = map (fun c => String c "") (list_ascii_of_string s).
Proof.
  unfold raw_runes. induction s as [|c s IH]; [done|]. cbn [str_forallb String.length raw_runes_loop].
  intros [Hc Hs]%andb_true_iff. assert (rune_len (String c s) = 1%nat) as ->.
  { unfold rune_len. by rewrite Hc. }
  cbn [list_ascii_of_string map]. f_equal; [by destruct s|apply (IH Hs)].
Qed.

Lemma plain_space c : plain c = true -> rune_IsSpace (String c "") = false.
Proof.
  intros H. assert (implb (plain c) (negb (rune_IsSpace (String c ""))) = true) as F.
  { clear H. revert c. apply all_bytes_spec. vm_compute. reflexivity. }
  rewrite H in F. by apply negb_true_iff in F.
Qed.

Lemma drop_spaces_none (l : list string) : Forall (fun r => rune_IsSpace r = false) l -> drop_spaces l = l.
Proof. intros H. destruct H as [|r l Hr _]; [done|]. simpl. by rewrite Hr. Qed.

Lemma trim_runes_none l : Forall (fun r => rune_IsSpace r = false) l -> trim_runes l = l.
Proof.
  intros H. unfold trim_runes. rewrite (drop_spaces_none l H), (drop_spaces_none (rev l)).
  - apply rev_involutive.
  - by apply Forall_rev.
Qed.

Lemma plain_runes s : str_forallb plain s = true ->
  raw_runes s = map (fun c => String c "") (list_ascii_of_string s)
  /\ Forall (fun r => rune_IsSpace r = false) (map (fun c => String c "") (list_ascii_of_string s)).
Proof.
  intros H. split.
  - apply raw_runes_plain. eapply str_forallb_impl; [|exact H]. intros c Hc. unfold plain in Hc. boolp. apply Z.ltb_lt. lia.
  - apply Forall_map. revert H. induction s as [|c s IH]; intros H; constructor; simpl in *; boolp; [by apply plain_space|auto].
Qed.

Lemma concat_singles s : String.concat "" (map (fun c => String c "") (list_ascii_of_string s)) = s.
Proof.
  induction s as [|c s IH]; [done|]. cbn [list_ascii_of_string map String.concat].
  destruct s as [|d s]; [done|]. cbn [list_ascii_of_string map] in *. by rewrite IH.
Qed.

Lemma TrimSpace_plain s : str_forallb plain s = true -> TrimSpace s = s /\ TrimSpace (String " " s) = s.
Proof.
  intros H. destruct (plain_runes s H) as [E F]. unfold TrimSpace. split.
  - by rewrite E, trim_runes_none, concat_singles.
  - assert (raw_runes (String " " s) = " " :: raw_runes s) as -> by (unfold raw_runes; cbn; by destruct s).
    unfold trim_runes. cbn [drop_spaces]. assert (rune_IsSpace " " = true) as -> by reflexivity.
    rewrite E. change (String.concat "" (trim_runes (map (fun c => String c "") (list_ascii_of_string s))) = s).
    by rewrite trim_runes_none, concat_singles.
Qed.

Lemma plain_fields k v : str_forallb plain k = true -> str_forallb plain v = true ->
  str_forallb plain (k +:+ String "=" v) = true.
Proof. intros Hk Hv. rewrite str_forallb_app. cbn [str_forallb]. by rewrite Hk, Hv. Qed.

(** The header's values: nothing that a field ends with. *)
Definition header_value (v : string) : Prop := str_forallb plain v = true /\ no_byte "," v = true.

Lemma auth_fields_written org install sig :
  header_value org -> header_value install -> header_value (EncodeKey sig) ->
  has_prefix auth_scheme (authorization org install sig) = true
  /\ auth_fields (authorization org install sig) = (org, install, EncodeKey sig).
Proof.
  intros [Po Co] [Pi Ci] [Ps Cs].
  assert (authorization org install sig = auth_scheme +:+ (("org" +:+ String "=" org) +:+ String ","
    ((String " " ("install" +:+ String "=" install)) +:+ String "," (String " " ("sig" +:+ String "=" (EncodeKey sig))))))
    as ->.
  { unfold authorization, auth_scheme. cbn. rewrite ?string_app_assoc. reflexivity. }
  rewrite has_prefix_app. split; [done|]. unfold auth_fields. rewrite trim_prefix_app.
  assert (forall k v, no_byte "," v = true -> no_byte "," k = true -> no_byte "," (k +:+ String "=" v) = true) as Hnb.
  { intros k v Hv Hk. unfold no_byte in *. rewrite str_forallb_app. cbn [str_forallb]. by rewrite Hk, Hv. }
  rewrite split_on_app_sep by by apply Hnb.
  rewrite (split_on_app_sep "," (String " " _)).
  2:{ unfold no_byte. cbn [str_forallb]. change (no_byte "," ("install" +:+ String "=" install) = true). by apply Hnb. }
  rewrite (split_on_no_sep "," (String " " _)).
  2:{ unfold no_byte. cbn [str_forallb]. change (no_byte "," ("sig" +:+ String "=" (EncodeKey sig)) = true). by apply Hnb. }
  cbn [foldl]. unfold auth_field.
  rewrite (proj1 (TrimSpace_plain _ (plain_fields "org" org eq_refl Po))), cut_byte_app by done. cbn [negb String.eqb Ascii.eqb eqb].
  rewrite (proj2 (TrimSpace_plain _ (plain_fields "install" install eq_refl Pi))), cut_byte_app by done.
  cbn [negb String.eqb Ascii.eqb eqb].
  rewrite (proj2 (TrimSpace_plain _ (plain_fields "sig" (EncodeKey sig) eq_refl Ps))), cut_byte_app by done. done.
Qed.
End Check.

(** ** From enrollment to a signed request *)
Section Composition.
Context {prov : Provider} {net : DeviceNet}.
(** The library accepts the 36-byte form. *)
Hypothesis uuid_accepts : forall v p, uuidParse v = Some p -> uuid_Parse v = Some p.

Lemma EncodeKey_value sig : Forall is_byte sig -> header_value (EncodeKey sig).
Proof.
  intros H. pose proof (encode_groups_text StdEncoding sig H) as Ht.
  split; unfold no_byte; (eapply str_forallb_impl; [|exact Ht]); intros c Hc; apply orb_true_iff in Hc as [Hc|Hc].
  - unfold text_byte in Hc. unfold plain. rewrite !andb_true_iff in *. tauto.
  - apply Ascii.eqb_eq in Hc as ->. reflexivity.
  - unfold text_byte in Hc. rewrite !andb_true_iff in Hc. tauto.
  - apply Ascii.eqb_eq in Hc as ->. reflexivity.
Qed.

Lemma EncodeKey_nonempty sig : sig <> [] -> EncodeKey sig <> "".
Proof. destruct sig as [|x [|y [|z r]]]; done. Qed.

Lemma ident_value v : identifierRe v = true -> header_value v.
Proof.
  destruct v as [|c r]; [done|]. cbn. intros [[Hc Hr]%andb_true_iff _]%andb_true_iff.
  assert (forall c, ident_tail c = true -> plain c && negb (c =? ",")%char = true) as H.
  { intros d Hd. assert (implb (ident_tail d) (plain d && negb (d =? ",")%char) = true) as F.
    { clear Hd. revert d. apply all_bytes_spec. vm_compute. reflexivity. }
    by rewrite Hd in F. }
  assert (str_forallb ident_tail (String c r) = true) as Ha.
  { cbn [str_forallb]. rewrite Hr. unfold ident_tail. by rewrite Hc. }
  split; unfold no_byte; (eapply str_forallb_impl; [|exact Ha]); intros d Hd;
    apply H, andb_true_iff in Hd as [? ?]; done.
Qed.

Lemma uuid_value v p : uuidParse v = Some p -> header_value v.
Proof.
  intros H. unfold uuidParse in H. destruct (negb _); [done|]. destruct (uuid_shape _) eqn:E; [|done]. clear H.
  assert (forall f : nat -> nat, forallb id (imap (fun i c => if uuid_dash (f i) then (c =? "-")%char else hex_any c)
    (list_ascii_of_string v)) = true -> str_forallb (fun c => hex_any c || (c =? "-")%char) v = true) as H.
  { clear E. induction v as [|c v IH]; [done|]. intros f. simpl. intros [Hc Hv]%andb_true_iff.
    rewrite (IH (f ∘ S) Hv), andb_true_r. unfold id in Hc. destruct (uuid_dash (f 0%nat)); rewrite Hc; [apply orb_true_r|done]. }
  specialize (H id E).
  assert (forall c, hex_any c || (c =? "-")%char = true -> plain c && negb (c =? ",")%char = true) as F.
  { intros d Hd. assert (implb (hex_any d || (d =? "-")%char) (plain d && negb (d =? ",")%char) = true) as F.
    { clear Hd. revert d. apply all_bytes_spec. vm_compute. reflexivity. }
    by rewrite Hd in F. }
  split; unfold no_byte; (eapply str_forallb_impl; [|exact H]); intros d Hd;
    apply F, andb_true_iff in Hd as [? ?]; done.
Qed.

(** A request the shipper signed, as far as the check looks before it reads the record. *)
Record well_signed (preamble b org id : string) (sig : list Z) : Prop := {
  ws_org : orgPattern org = true;
  ws_id : is_Some (uuidParse id);
  ws_bytes : Forall is_byte sig;
  ws_sig : sig <> [];
  ws_size : slen b <= requestLimit;
  ws_v1 : preamble = "" -> has_prefix domainSeparationNamespace b = false
}.

Lemma device_check_signed preamble b org id sig s :
  well_signed preamble b org id sig ->
  device_check preamble (authorization org id sig) (Some b) s =
  match active_install org id s with
  | Err ErrUnknownInstall => refused 401 "unknown install"
  | Err ErrRevokedInstall => refused 403 "this install is revoked"
  | Err _ => refused 500 "authentication unavailable"
  | Ok rec => signed_by preamble b (EncodeKey sig) rec
  end.
Proof.
  intros [Ho [p Hi] Hs Hne Hsz Hv1]. unfold device_check. rewrite (proj2 (Z.ltb_ge _ _) Hsz).
  assert ((preamble =? "")%string && has_prefix domainSeparationNamespace b = false) as ->.
  { destruct (String.eqb_spec preamble ""); [by rewrite Hv1|done]. }
  destruct (auth_fields_written org id sig) as [-> ->];
    [by apply ident_value|by apply (uuid_value _ p)|by apply EncodeKey_value|]. cbn [negb].
  rewrite (uuid_accepts _ _ Hi), Ho. cbn [negb].
  by rewrite (proj2 (String.eqb_neq _ _) (EncodeKey_nonempty _ Hne)), bool_decide_eq_false_2, orb_false_r by done.
Qed.

Lemma active_install_at org id s rec :
  body_at s (installKey org id) = Some (SInstall rec) -> in_Schema rec = schemaVersion -> in_Organization rec = org ->
  active_install org id s = match in_Status rec with
                            | InstallRevoked => Err ErrRevokedInstall
                            | InstallPending => Err ErrUnknownInstall
                            | InstallActive => Ok rec
                            end.
Proof.
  intros Hb Hs Ho. unfold active_install. rewrite Hb, Hs, Ho, String.eqb_refl. cbn.
  by destruct (in_Status rec).
Qed.

(** An enrolled device is let in until it is revoked. Whatever else ran, was lost or crashed, once an
    enrollment has been answered, a request the device signs with the key it enrolled, over the
    endpoint's preamble and its body, reaches the endpoint's handler with the record of its own
    enrollment, or, when that install was revoked since, is refused in those words. *)
Theorem enrolled_device_admitted {A} s0 w i org id token r pub sig preamble b now
    (next : InstallRecord -> string -> prog (result refusal A)) :
  organizationToken token = Some (org, id) -> reachable handler named s0 w ->
  threads w !! i = Some (REnrollInvite org token r, Ret (Ok ())) ->
  in_DevicePublicKey r = EncodeKey pub -> Forall is_byte pub -> Zlen pub = 32 ->
  well_signed preamble b org (in_InstallID r) sig ->
  ed25519_Verify (bytes_text pub) (preamble +:+ b) (bytes_text sig) = true ->
  exists rec, body_at (st w) (installKey org (in_InstallID r)) = Some (SInstall rec)
    /\ sameEnrollment rec (requested org r) = true
    /\ run now (deviceAuth preamble next (authorization org (in_InstallID r) sig) (Some b)) (st w)
       = if bool_decide (in_Status rec = InstallRevoked) then (Some (refused 403 "this install is revoked"), st w)
         else run now (next rec b) (st w).
Proof.
  intros Htok Hr Hi Hkey Hpub Hlen Hws Hver.
  assert (in_InstallID r <> "") as Hne. { intros E. destruct (ws_id _ _ _ _ _ Hws) as [p Hp]. by rewrite E in Hp. }
  assert (reachable handler (fun q => named q /\ spares (fun _ => false) q) s0 w) as Hr'.
  { unfold reachable in *. eapply rtc_subrel; [|exact Hr]. intros a c Hac. inversion Hac; subst;
      econstructor; eauto. split; [done|]. by intros key H1. }
  assert (enroll_post (fun _ => false) (REnrollInvite org token r) (Ok ()) (st w)) as Hp.
  { eapply (reachable_post (evolves (fun _ => false)) handler _ (fun _ => True) (enroll_post (fun _ => false)));
      [done| |done|exact Hr'|exact Hi]. intros q' s Hq' _. apply handlers_ok. auto. }
  destruct (Hp id Htok eq_refl) as [_ (rec & Hb & Hsame & Hst)]. exists rec. do 2 (split; [done|]).
  rewrite deviceAuth_run, device_check_signed by done.
  unfold sameEnrollment, sameEnrollmentIdentity in Hsame. cbn in Hsame. boolp.
  rewrite (active_install_at org (in_InstallID r) (st w) rec) by done.
  destruct (in_Status rec) eqn:Est; [done| |done].
  unfold signed_by, device_key.
  assert (in_DevicePublicKey rec = EncodeKey pub) as -> by congruence. unfold EncodeKey.
  rewrite !decode_encode by (done || apply (ws_bytes _ _ _ _ _ Hws)). rewrite slen_text, Hlen, Z.eqb_refl.
  by rewrite Hver.
Qed.

(** A revoked install stops. When the service holds the install as revoked, its answer to any signed
    request of the device is the one its client latches on: the call fails as a refusal of the
    credentials, no later signed call of the process leaves the machine, and none of a restarted process
    once the record could be saved. *)
Theorem revoked_device_stops {W A} {pn : PlaneNet W} (c : Client) path preamble payload p (w w' : W) s rec sig now
    (next : InstallRecord -> string -> prog (result refusal A)) r :
  enrolled c -> endpoint c <> "" -> client_Revocation c p = (None, p) ->
  well_signed preamble payload (organization c) (installID c) sig ->
  body_at s (installKey (organization c) (installID c)) = Some (SInstall rec) ->
  in_Schema rec = schemaVersion -> in_Organization rec = organization c -> in_Status rec = InstallRevoked ->
  run now (deviceAuth preamble next (authorization (organization c) (installID c) sig) (Some payload)) s
    = (Some (Err r), s) ->
  plane_post w path preamble payload = (Ok (rf_status r, http_body r), w') ->
  exists e p', exchange c path preamble payload p w = (Err e, p', w')
    /\ Is (Some e) ErrCredentialsRefused = true /\ refuses_locally c p'
    /\ (stateDir c <> "" -> enrollment_lock w' = None -> save_fails w' = None ->
        refuses_locally c (mkPlane None (disk p'))).
Proof.
  intros Hen Hep Hcr Hws Hb Hs Ho Hst Hrun Hpost.
  rewrite deviceAuth_run, device_check_signed in Hrun by done.
  rewrite (active_install_at _ _ _ rec), Hst in Hrun by done. injection Hrun as <-.
  destruct (forbidden_latches c path preamble payload p w _ w' Hen Hep Hcr Hpost eq_refl)
    as (e & p' & H1 & H2 & _ & H3 & H4). exists e, p'. done.
Qed.

(** ** Ids that differ in case *)

Lemma same_root_validates rec1 rec2 l ids keys total :
  uuidParse (in_InstallID rec1) = uuidParse (in_InstallID rec2) -> in_Organization rec1 = in_Organization rec2 ->
  validate_objects rec1 ids keys total l = validate_objects rec2 ids keys total l.
Proof.
  intros Hu Ho. revert ids keys total. induction l as [|o l IH]; intros ids keys total; [done|]. cbn [validate_objects].
  assert (validateUploadObject o rec1 = validateUploadObject o rec2) as ->.
  { unfold validateUploadObject, allowed_for. by rewrite Hu, Ho. }
  do 3 (case_match; try done). destruct (validateUploadObject o rec2); [|done]. cbn [rbind]. case_match; [done|].
  by rewrite IH.
Qed.

(** Ids that differ in case share a root. Two enrollments whose ids are one UUID in two spellings
    keep both ids as sent, so they are two install records with a key and a revocation each, and yet
    the service authorizes the two devices for exactly the same objects. *)
Theorem case_variants_share_root org id1 id2 p :
  uuidParse id1 = Some p -> uuidParse id2 = Some p -> id1 <> id2 ->
  enroll_id id1 p = id1 /\ enroll_id id2 p = id2 /\ installKey org id1 <> installKey org id2
  /\ forall req rec1 rec2 now, in_InstallID rec1 = id1 -> in_InstallID rec2 = id2 ->
       in_Organization rec1 = in_Organization rec2 ->
       validateUploadRequest req rec1 now = validateUploadRequest req rec2 now.
Proof.
  intros H1 H2 Hne. assert (forall id, uuidParse id = Some p -> enroll_id id p = id) as He.
  { intros id H. apply uuidParse_lower in H as ->. unfold enroll_id. by rewrite String.eqb_refl. }
  split_and!; auto.
  - intros H. by apply installKey_inj in H.
  - intros req rec1 rec2 now E1 E2 Eo. unfold validateUploadRequest.
    rewrite (same_root_validates rec1 rec2) by congruence. done.
Qed.
End Composition.

(** ** A device *)
Module SampleDevice.
Import SampleEnroll.

#[local] Existing Instance generations.

Definition sig : list Z := replicate 64 9.
Definition pub : list Z := replicate 32 5.
(** One key pair, whose signature is always the same 64 bytes. *)
#[local] Instance device : DeviceNet := {|
  uuid_Parse := uuidParse;
  ParseX25519Recipient := fun _ => true;
  ed25519_Verify := fun key _ s => bool_decide (key = bytes_text pub) && bool_decide (s = bytes_text sig);
  decode_enroll := fun _ => None
|}.

Definition carol : InstallRecord := laptop "cccccccc-0000-4000-8000-000000000003" (EncodeKey pub) "digestC".
Definition enrolled_world : @world request := drive now (replicate 11 0%nat) (start 0 (ask carol) w0).
Definition payload : string := "{}".

Lemma carol_reachable : reachable handler named store0 enrolled_world.
Proof. apply start_drive; [vm_compute; reflexivity|done|apply w0_reachable]. Qed.

Lemma is_bytes n x : is_byte x -> Forall is_byte (replicate n x).
Proof. intros H. by apply Forall_replicate. Qed.

Lemma carol_signs preamble : well_signed preamble payload org (in_InstallID carol) sig.
Proof.
  split; [reflexivity|eexists; vm_compute; reflexivity|apply is_bytes; by unfold is_byte|discriminate|
    vm_compute; discriminate|reflexivity].
Qed.

Definition echo (rec : InstallRecord) (b : string) : prog (result refusal string) := Ret (Ok (in_InstallID rec)).

Lemma enrolled_device_admitted_witness :
  run now (deviceAuth "" echo (authorization org (in_InstallID carol) sig) (Some payload)) (st enrolled_world)
  = (Some (Ok (in_InstallID carol)), st enrolled_world).
Proof.
  destruct (enrolled_device_admitted (net := device) (fun v p H => H) store0 enrolled_world 0 org uuid token carol pub sig "" payload now echo)
    as (rec & Hb & _ & H).
  - vm_compute. reflexivity.
  - apply carol_reachable.
  - vm_compute. reflexivity.
  - reflexivity.
  - apply is_bytes. by unfold is_byte.
  - reflexivity.
  - apply carol_signs.
  - vm_compute. reflexivity.
  - rewrite H. vm_compute in Hb. injection Hb as <-. reflexivity.
Defined.

Lemma signature_opens_one_endpoint_witness :
  exists rec, run now (deviceAuth "" pass_record (authorization org (in_InstallID carol) sig) (Some payload)) (st enrolled_world)
    = (Some (Ok (rec, payload)), st enrolled_world) /\ in_Status rec = InstallActive.
Proof.
  assert (exists rec, run now (deviceAuth "" pass_record (authorization org (in_InstallID carol) sig) (Some payload)) (st enrolled_world)
    = (Some (Ok (rec, payload)), st enrolled_world)) as [rec H] by (eexists; vm_compute; reflexivity).
  exists rec. split; [exact H|].
  assert ("" ∈ endpoints) as He by by left.
  destruct (signature_opens_one_endpoint "" "" _ _ _ _ _ _ _ rec rec payload payload _ _ He He H H) as [A _]. apply A.
Defined.

Definition gone : store := (run now (handler (RRevokeInstall org (in_InstallID carol))) (st enrolled_world)).2.
Definition gone_record : InstallRecord :=
  match body_at gone (installKey org (in_InstallID carol)) with Some (SInstall i) => i | _ => carol end.
Definition client : Client := mkClient "https://plane.example" "/state" (in_InstallID carol) org true.
#[local] Instance service : PlaneNet nat := {|
  plane_post := fun w _ _ _ => (Ok (403, http_body (mkRefusal 403 "this install is revoked")), S w);
  plane_now := fun _ => 1790000000;
  enrollment_lock := fun _ => None;
  save_fails := fun _ => None
|}.

Lemma revoked_device_stops_witness :
  exists e p', exchange client "/v1/config" "" payload (mkPlane None NoFile) 0%nat = (Err e, p', 1%nat)
    /\ refuses_locally client (mkPlane None (disk p')).
Proof.
  destruct (revoked_device_stops (net := device) (fun v p H => H) client "/v1/config" "" payload (mkPlane None NoFile) 0%nat 1%nat gone
    gone_record sig now echo (mkRefusal 403 "this install is revoked")) as (e & p' & H1 & _ & _ & H2).
  - split; [discriminate|split; [discriminate|reflexivity]].
  - discriminate.
  - reflexivity.
  - apply carol_signs.
  - vm_compute. reflexivity.
  - vm_compute. reflexivity.
  - vm_compute. reflexivity.
  - vm_compute. reflexivity.
  - vm_compute. reflexivity.
  - vm_compute. reflexivity.
  - exists e, p'. split; [exact H1|]. apply H2; [discriminate|reflexivity|reflexivity].
Defined.

Lemma case_variants_share_root_witness :
  let upper := "CCCCCCCC-0000-4000-8000-000000000003" in
  enroll_id upper (in_InstallID carol) = upper /\ installKey org upper <> installKey org (in_InstallID carol).
Proof.
  destruct (case_variants_share_root org "CCCCCCCC-0000-4000-8000-000000000003" (in_InstallID carol) (in_InstallID carol))
    as (H1 & _ & H2 & _); [vm_compute; reflexivity|vm_compute; reflexivity|discriminate|]. split; [exact H1|exact H2].
Defined.

End SampleDevice.
