(* ===== verification/FleetTags.v ===== *)
(** Install names, metadata and reported health at the fleet manager ([fleet-manager/src/tags.go],
    [metadata.go], [health.go], [admin.go]): updates that retry against the latest record, the import of
    an inventory, and the bounded health report. *)

From S2P Require Import Prelude GoLib GoJson GoUrl GoText FleetStore FleetToken FleetSeen FleetEnroll FleetLogic FleetEnrollSafe.

(** ** Metadata *)

(** [metadataKeyPattern], [^[a-z][a-z0-9_]{0,31}$]. *)
Definition metadataKeyPattern (key : string) : bool :=
  match key with
  | String c r => is_lower c && str_forallb (fun d => is_lower d || is_digit d || (d =? "_")%char) r && (slen r <=? 31)
  | "" => false
  end.

(** [utf8.ValidString]: no byte starts an invalid encoding. *)
Fixpoint valid_utf8_loop (fuel : nat) (s : string) : bool :=
  match fuel, s with
  | S f, String _ _ => match rune_len s with O => false | n => valid_utf8_loop f (str_drop n s) end
  | _, "" => true
  | O, _ => false
  end.
Definition ValidString (s : string) : bool := valid_utf8_loop (String.length s) s.

Inductive metadata_error :=
  | KeyPattern | ValueLong | ValueControl | TooManyKeys | NotAnObject | RowCount | RowIncomplete (row : nat)
  | RowHostname (row : nat) | RowBlank (row : nat) | RowNull (row : nat) | RowInvalid (row : nat).

Definition validateMetadataEntry (key value : string) : result metadata_error () :=
  if negb (metadataKeyPattern key) then Err KeyPattern
  else if negb (ValidString value) || (256 <? Zlen (runes value)) then Err ValueLong
  else if existsb rune_IsControl (runes value) then Err ValueControl
  else Ok ().

(** The pairs of a map are visited in no fixed order: [visit]. *)
Fixpoint each_entry (l : list (string * string)) : result metadata_error () :=
  match l with [] => Ok () | (k, v) :: r => let! _ := validateMetadataEntry k v in each_entry r end.

Section Metadata.
Variable visit : gmap string string -> list (string * string).

Definition validateMetadata (metadata : gmap string string) : result metadata_error () :=
  if 16 <? Z.of_nat (size metadata) then Err TooManyKeys else each_entry (visit metadata).
End Metadata.

(** ** updateTags *)

Definition no_tags (id : string) : TagsRecord := mkTags schemaVersion id "" ∅ 0.
Definition set_name (name : string) (r : TagsRecord) : TagsRecord :=
  mkTags (ta_Schema r) (ta_InstallID r) name (ta_Metadata r) (ta_UpdatedAt r).
Definition set_metadata (m : gmap string string) (r : TagsRecord) : TagsRecord :=
  mkTags (ta_Schema r) (ta_InstallID r) (ta_Name r) m (ta_UpdatedAt r).
Definition stamp_tags (now : Z) (r : TagsRecord) : TagsRecord :=
  mkTags (ta_Schema r) (ta_InstallID r) (ta_Name r) (ta_Metadata r) now.

Inductive tag_error := TagStore (e : ferror) | TagInvalid (e : metadata_error) | TagName | TagID | TagRecord_.
Definition tag_outcome := result tag_error ().

Section Tags.
Context {prov : Provider}.

(** What the loop does with the record it read: nothing, or one conditional write. *)
Definition tag_write (key : string) (version : option object) (current : TagsRecord)
    (update : TagsRecord -> result tag_error TagsRecord) (retry : prog tag_outcome) : prog tag_outcome :=
  match update current with
  | Err e => Ret (Err e)
  | Ok rec =>
      let same := (ta_Name rec =? ta_Name current)%string && bool_decide (ta_Metadata rec = ta_Metadata current) in
      if bool_decide (version <> None) && same then Ret (Ok ())
      else if bool_decide (version = None) && (ta_Name rec =? "")%string && bool_decide (ta_Metadata rec = ∅)
      then Ret (Ok ())
      else
        Now (fun now =>
        let rec := STags (stamp_tags now rec) in
        let answer w := match w with
                        | Err ErrConflict => retry
                        | Err e => Ret (Err (TagStore e))
                        | Ok _ => Ret (Ok ())
                        end in
        match version with
        | None => createRecord key rec answer
        | Some v => replaceRecord key v rec answer
        end)
  end.

(** [tries] attempts; [cancelled] is [ctx.Err()] at the start of each. *)
Fixpoint tag_loop (tries : nat) (cancelled : nat -> option ferror) (key id : string)
    (update : TagsRecord -> result tag_error TagsRecord) : prog tag_outcome :=
  match tries with
  | O => Ret (Err (TagStore ErrConflict))
  | S n =>
      match cancelled n with
      | Some e => Ret (Err (TagStore e))
      | None =>
          getRecord as_tags key (fun r =>
            match r with
            | Err ErrNotFound => tag_write key None (no_tags id) update (tag_loop n cancelled key id update)
            | Err e => Ret (Err (TagStore e))
            | Ok (current, version) =>
                if negb (ta_Schema current =? schemaVersion) || negb (ta_InstallID current =? id)%string
                then Ret (Err TagRecord_)
                else tag_write key (Some version) current update (tag_loop n cancelled key id update)
            end)
      end
  end.

Definition updateTags (cancelled : nat -> option ferror) (org id : string)
    (update : TagsRecord -> result tag_error TagsRecord) : prog tag_outcome :=
  match uuidParse id with
  | None => Ret (Err TagID)
  | Some _ =>
      getRecord as_install (installKey org id) (fun r =>
        match r with
        | Err e => Ret (Err (TagStore e))
        | Ok _ => tag_loop 8 cancelled (tagsKey org id) id update
        end)
  end.

Definition validateHumanName (name : string) : bool :=
  negb (name =? "")%string && (TrimSpace name =? name)%string && negb (100 <? Zlen (runes name))
  && negb (existsb rune_IsControl (runes name)).

Definition name_update (name : string) (ifMissing : bool) (rec : TagsRecord) : result tag_error TagsRecord :=
  Ok (if negb ifMissing || (ta_Name rec =? "")%string then set_name name rec else rec).
Definition setTag (cancelled : nat -> option ferror) (org id name : string)
    (ifMissing : bool) : prog tag_outcome :=
  if negb (name =? "")%string && negb (validateHumanName name) then Ret (Err TagName)
  else updateTags cancelled org id (name_update name ifMissing).

Section Patch.
Variable visit : gmap string string -> list (string * string).
Variable visit_patch : gmap string (option string) -> list (string * option string).

(** A null value deletes its key. *)
Definition patched (patch : gmap string (option string)) (m : gmap string string) : gmap string string :=
  merge (fun p v => match p with Some None => None | Some (Some w) => Some w | None => v end) patch m.

Definition patch_update (patch : gmap string (option string)) (rec : TagsRecord) : result tag_error TagsRecord :=
  let m := patched patch (ta_Metadata rec) in
  match validateMetadata visit m with
  | Err e => Err (TagInvalid e)
  | Ok _ => Ok (set_metadata m rec)
  end.

(** [patch] is [None] for a null object. *)
Definition PatchMetadata (cancelled : nat -> option ferror) (org id : string)
    (patch : option (gmap string (option string))) : prog tag_outcome :=
  match patch with
  | None => Ret (Err (TagInvalid NotAnObject))
  | Some patch =>
      match each_entry (map (fun p => (p.1, default "" p.2)) (visit_patch patch)) with
      | Err e => Ret (Err (TagInvalid e))
      | Ok _ => updateTags cancelled org id (patch_update patch)
      end
  end.
End Patch.

(** ** Listings (admin.go, tags.go) *)

(** Records read one after the other; the first that cannot be used fails the listing. *)
Fixpoint read_records {T A} (dec : stored -> option T) (schema : T -> Z) (name : T -> string) (keys : list string) (acc : list T)
    (k : result ferror (list T) -> prog A) : prog A :=
  match keys with
  | [] => k (Ok (rev acc))
  | key :: r =>
      getRecord dec key (fun x =>
        match x with
        | Err e => k (Err e)
        | Ok (rec, _) =>
            if negb (schema rec =? schemaVersion) then k (Err (EText (name rec +:+ " has unsupported schema")))
            else read_records dec schema name r (rec :: acc) k
        end)
  end.
Definition list_records {T A} (prefix : string) (dec : stored -> option T) (schema : T -> Z) (name : T -> string)
    (k : result ferror (list T) -> prog A) : prog A :=
  List_ prefix (fun r => match r with Err e => k (Err e) | Ok keys => read_records dec schema name keys [] k end).

Definition blank_grant (g : GrantRecord) : GrantRecord :=
  mkGrant (gr_Schema g) (gr_ID g) "" (gr_ExpiresAt g) (gr_CreatedAt g) (gr_RevokedAt g).
Definition blank_invite (i : InviteRecord) : InviteRecord :=
  mkInvite (iv_Schema i) (iv_ID i) "" (iv_ExpiresAt i) (iv_CreatedAt i) (iv_RevokedAt i) (iv_ReservedInstallID i)
    (iv_ReservedEnrollmentDigest i) (iv_ReservedAt i) (iv_SpentAt i).
Definition listed {A B} (f : A -> B) (r : result ferror (list A)) : result ferror (list B) := let! l := r in Ok (map f l).

Definition ListGrants {A} (org : string) (k : result ferror (list GrantRecord) -> prog A) : prog A :=
  list_records (controlPrefix org +:+ "grants/") as_grant gr_Schema (fun g => "grant " +:+ gr_ID g) (fun r => k (listed blank_grant r)).
Definition ListInvites {A} (org : string) (k : result ferror (list InviteRecord) -> prog A) : prog A :=
  list_records (controlPrefix org +:+ "invites/") as_invite iv_Schema (fun i => "invite " +:+ iv_ID i) (fun r => k (listed blank_invite r)).
Definition ListInstalls {A} (org : string) (k : result ferror (list InstallRecord) -> prog A) : prog A :=
  list_records (controlPrefix org +:+ "installs/") as_install in_Schema (fun i => "install " +:+ in_InstallID i) k.

(** A tags record that cannot be used is left out; one whose metadata cannot loses the metadata. The reads
    run together, each on its own index. *)
Definition usable_tags (visit : gmap string string -> list (string * string)) (install : InstallRecord)
    (x : result ferror (TagsRecord * object)) : list TagsRecord :=
  match x with
  | Err _ => []
  | Ok (rec, _) =>
      if negb (ta_InstallID rec =? in_InstallID install)%string || negb (ta_Schema rec =? schemaVersion) then []
      else match validateMetadata visit (ta_Metadata rec) with
           | Err _ => [set_metadata ∅ rec]
           | Ok _ => [rec]
           end
  end.
Fixpoint tags_of {A} (visit : gmap string string -> list (string * string)) (org : string)
    (l : list InstallRecord) (acc : list TagsRecord) (k : list TagsRecord -> prog A) : prog A :=
  match l with
  | [] => k acc
  | install :: r =>
      getRecord as_tags (tagsKey org (in_InstallID install))
        (fun x => tags_of visit org r (acc ++ usable_tags visit install x) k)
  end.
Definition ListTags {A} (visit : gmap string string -> list (string * string)) (org : string)
    (k : result ferror (list TagsRecord) -> prog A) : prog A :=
  ListInstalls org (fun r =>
    match r with Err e => k (Err e) | Ok installs => tags_of visit org installs [] (fun l => k (Ok l)) end).

Definition LoadTags {A} (org id : string) (k : result ferror (TagsRecord * object) -> prog A) : prog A :=
  match uuidParse id with
  | None => k (Err (EText "install id is not a UUID"))
  | Some _ => getRecord as_tags (tagsKey org id) k
  end.
End Tags.

(** ** ImportMetadata *)

Record metadataImportRow := mkRow {
  ro_Hostname : string; ro_Metadata : option (gmap string (option string)); ro_InstallID : string
}.
(** What the operator is told of a row, beside its status. *)
Inductive import_note :=
  | NoNote | NotInOrganization | RowsShareHostname | NoSuchHostname | InstallsShareHostname | RowsShareTarget
  | PatchRefused (e : tag_error) | PatchUnavailable.
Record metadataImportResult := mkResult {
  ir_Row : nat; ir_Hostname : string; ir_Status : string; ir_InstallID : string; ir_Candidates : list string;
  ir_Message : import_note
}.

Section Importing.
Context {prov : Provider}.
(** [lower] is [strings.ToLower]. *)
Variables (lower : string -> string) (visit : gmap string string -> list (string * string))
  (visit_patch : gmap string (option string) -> list (string * option string)).

Definition hostnameMatchKey (hostname : string) : string := (Url.cut_byte "." (lower (TrimSpace hostname))).1.1.

Definition has_null (m : gmap string (option string)) : bool :=
  existsb (fun p => match p.2 with None => true | Some _ => false end) (map_to_list m).

Definition check_row (i : nat) (row : metadataImportRow) : result metadata_error () :=
  match ro_Metadata row with
  | None => Err (RowIncomplete i)
  | Some m =>
      if (ro_Hostname row =? "")%string then Err (RowIncomplete i)
      else match validateMetadataEntry "hostname" (ro_Hostname row) with
           | Err _ => Err (RowHostname i)
           | Ok _ =>
               if (hostnameMatchKey (ro_Hostname row) =? "")%string then Err (RowBlank i)
               else if has_null m then Err (RowNull i)
               else match validateMetadata visit (omap id m) with Err _ => Err (RowInvalid i) | Ok _ => Ok () end
           end
  end.
Fixpoint check_rows (i : nat) (rows : list metadataImportRow) : result metadata_error () :=
  match rows with [] => Ok () | row :: r => let! _ := check_row i row in check_rows (S i) r end.

Definition count (f : string -> bool) (l : list string) : nat := length (List.filter f l).

Definition byHost (installs : list InstallRecord) (key : string) : list string :=
  if (key =? "")%string then []
  else map in_InstallID (List.filter (fun i => (hostnameMatchKey (in_Hostname i) =? key)%string) installs).
Definition hostRows (rows : list metadataImportRow) (key : string) : nat :=
  count (fun k => (k =? key)%string) (map (fun r => hostnameMatchKey (ro_Hostname r)) rows).

(** The install a row names, before rows are compared by it. *)
Definition plan_row (rows : list metadataImportRow) (installs : list InstallRecord) (i : nat) (row : metadataImportRow) :
    metadataImportResult :=
  let key := hostnameMatchKey (ro_Hostname row) in
  let candidates := byHost installs key in
  let result status id note := mkResult (S i) (ro_Hostname row) status id candidates note in
  if negb (ro_InstallID row =? "")%string then
    if bool_decide (ro_InstallID row ∈ map in_InstallID installs) then result "" (ro_InstallID row) NoNote
    else result "unmatched" "" NotInOrganization
  else if (1 <? hostRows rows key)%nat then result "ambiguous" "" RowsShareHostname
  else match candidates with
       | [] => result "unmatched" "" NoSuchHostname
       | [id] => result "" id NoNote
       | _ => result "ambiguous" "" InstallsShareHostname
       end.

Definition targetRows (results : list metadataImportResult) (id : string) : nat :=
  count (fun x => (x =? id)%string) (map ir_InstallID results).
Definition settle_row (results : list metadataImportResult) (r : metadataImportResult) : metadataImportResult :=
  if (ir_InstallID r =? "")%string then r
  else if (1 <? targetRows results (ir_InstallID r))%nat
  then mkResult (ir_Row r) (ir_Hostname r) "ambiguous" "" (ir_Candidates r) RowsShareTarget
  else r.

Definition import_plan (rows : list metadataImportRow) (installs : list InstallRecord) : list metadataImportResult :=
  let results := imap (plan_row rows installs) rows in map (settle_row results) results.

Definition patch_status (r : metadataImportResult) (x : tag_outcome) : metadataImportResult :=
  let with_ status note := mkResult (ir_Row r) (ir_Hostname r) status (ir_InstallID r) (ir_Candidates r) note in
  match x with
  | Ok _ => with_ "imported" NoNote
  | Err (TagInvalid e) => with_ "error" (PatchRefused (TagInvalid e))
  | Err (TagStore ErrConflict) => with_ "error" (PatchRefused (TagStore ErrConflict))
  | Err _ => with_ "error" PatchUnavailable
  end.

(** The patches, of distinct installs, run up to eight at a time; here one after the other. *)
Fixpoint patch_rows (cancelled : nat -> option ferror) (org : string)
    (l : list (metadataImportResult * metadataImportRow)) (acc : list metadataImportResult) :
    prog (list metadataImportResult) :=
  match l with
  | [] => Ret (rev acc)
  | (r, row) :: rest =>
      if (ir_InstallID r =? "")%string then patch_rows cancelled org rest (r :: acc)
      else prog_bind (PatchMetadata visit visit_patch cancelled org (ir_InstallID r) (ro_Metadata row))
             (fun x => patch_rows cancelled org rest (patch_status r x :: acc))
  end.

Inductive import_error := ImportInvalid (e : metadata_error) | ImportStore (e : ferror).

Definition ImportMetadata (cancelled : nat -> option ferror) (org : string) (rows : list metadataImportRow) :
    prog (result import_error (list metadataImportResult)) :=
  if bool_decide (rows = []) || (1000 <? Zlen rows) then Ret (Err (ImportInvalid RowCount))
  else match check_rows 1 rows with
       | Err e => Ret (Err (ImportInvalid e))
       | Ok _ =>
           ListInstalls org (fun r =>
             match r with
             | Err e => Ret (Err (ImportStore e))
             | Ok installs =>
                 prog_map Ok (patch_rows cancelled org (combine (import_plan rows installs) rows) [])
             end)
       end.
End Importing.

(** ** Reported health (health.go) *)

Definition maxFaults : Z := 5.
Definition maxFaultMessage : nat := 400.
Record HealthReport := mkReport { hr_Consecutive : Z; hr_Faults : list Fault }.

(** The first fault without a usable kind, by its index. *)
Fixpoint fault_without_kind (i : nat) (l : list Fault) : option nat :=
  match l with
  | [] => None
  | f :: r => if (clientFact (fa_Kind f) =? "")%string then Some i else fault_without_kind (S i) r
  end.
Definition ValidateHealthReport (report : HealthReport) : option nat := fault_without_kind 0 (hr_Faults report).

Definition bound_fault (f : Fault) : Fault :=
  mkFault (clientFact (fa_Kind f)) (boundedText (fa_Message f) maxFaultMessage) (clientFact (fa_At f))
    (clientFact (fa_RunID f)).
Definition boundFaults (faults : list Fault) : list Fault :=
  let faults := if maxFaults <? Zlen faults then drop (length faults - Z.to_nat maxFaults) faults else faults in
  List.filter (fun f => negb (fa_Kind f =? "")%string) (map bound_fault faults).

Section Health.
Context {prov : Provider}.

Definition ReportHealth (org id : string) (report : HealthReport) : prog outcome :=
  LoadActiveInstall org id (fun r =>
    match r with
    | Err e => Ret (Err e)
    | Ok _ =>
        Now (fun now =>
        Write (WPut (healthKey org id)
                 (SHealth (mkHealth schemaVersion id now (hr_Consecutive report) (boundFaults (hr_Faults report))))) Ret)
    end).

Fixpoint health_of {A} (keys : list string) (acc : list HealthRecord) (k : list HealthRecord -> prog A) : prog A :=
  match keys with
  | [] => k acc
  | key :: r =>
      getRecord as_health key (fun x =>
        health_of r (acc ++ match x with
                            | Ok (rec, _) =>
                                if negb (he_Schema rec =? schemaVersion) || negb (he_InstallID rec =? recordIDFromKey key)%string
                                then [] else [rec]
                            | Err _ => []
                            end) k)
  end.
Definition ListHealth {A} (org : string) (k : result ferror (list HealthRecord) -> prog A) : prog A :=
  List_ (controlPrefix org +:+ "health/") (fun r =>
    match r with Err e => k (Err e) | Ok keys => health_of keys [] (fun l => k (Ok l)) end).
End Health.

(** What names, metadata, imports and health reports promise: edits made together never erase one another,
    an inventory row is never given an install by guess, listings keep digests to themselves, and a
    reported fault is bounded. *)

(** ** Edits *)

Inductive tag_item := ItemName | ItemKey (key : string).
Definition item_of (it : tag_item) (r : TagsRecord) : option string :=
  match it with ItemName => Some (ta_Name r) | ItemKey k => ta_Metadata r !! k end.

Inductive tag_request :=
  | RName (org id name : string) (ifMissing : bool)
  | RPatch (org id : string) (patch : option (gmap string (option string))).

Definition tag_key (q : tag_request) : string :=
  match q with RName org id _ _ | RPatch org id _ => tagsKey org id end.

(** The value a request means to leave the item with, [None] when it leaves the item alone. *)
Definition gives (q : tag_request) (it : tag_item) : option (option string) :=
  match q, it with
  | RName _ _ name false, ItemName => Some (Some name)
  | RPatch _ _ (Some patch), ItemKey k => patch !! k
  | _, _ => None
  end.
(** A name is given only to an install that has none. *)
Definition may_name (q : tag_request) (it : tag_item) : Prop :=
  match q, it with RName _ _ _ true, ItemName => True | _, _ => False end.

Lemma prog_map_getRecord {T A B} (f : A -> B) (dec : stored -> option T) key (k : result ferror (T * object) -> prog A) :
  prog_map f (getRecord dec key k) = getRecord dec key (fun r => prog_map f (k r)).
Proof. reflexivity. Qed.

Section Edits.
Context {prov : Provider}.
Variables (cancelled : nat -> option ferror) (visit : gmap string string -> list (string * string))
  (visit_patch : gmap string (option string) -> list (string * option string)).

Definition tag_answer (x : tag_outcome) : outcome :=
  match x with Ok _ => Ok () | Err (TagStore e) => Err e | Err _ => Err (EText "invalid") end.
Definition tag_handler (q : tag_request) : prog outcome :=
  prog_map tag_answer
    match q with
    | RName org id name ifMissing => setTag cancelled org id name ifMissing
    | RPatch org id patch => PatchMetadata visit visit_patch cancelled org id patch
    end.

(** What the item is at a key: of a record, or of the record an install without one would start from. *)
Definition item_at (it : tag_item) (key : string) (s : store) : option (option string) :=
  match body_at s key with
  | None => Some (item_of it (no_tags ""))
  | Some (STags r) => Some (item_of it r)
  | Some _ => None
  end.

Section Item.
Context (it : tag_item) (key : string) (v : option string).

Definition item_stays (s s' : store) : Prop := item_at it key s = Some v -> item_at it key s' = Some v.
#[local] Instance item_stays_preorder : PreOrder item_stays.
Proof. split; [by intros s H|]. intros a b c H1 H2 H. auto. Qed.

(** An update of the record at another key, or one that leaves the item with [v] when it had it. *)
Definition keeps_item (key' : string) (update : TagsRecord -> result tag_error TagsRecord) : Prop :=
  key' = key -> forall cur rec, update cur = Ok rec -> item_of it cur = v -> item_of it rec = v.
Definition leaves_item (key' : string) (update : TagsRecord -> result tag_error TagsRecord) : Prop :=
  key' = key /\ forall cur rec, update cur = Ok rec -> item_of it rec = v.

Definition edit_post (key' : string) (update : TagsRecord -> result tag_error TagsRecord) (a : outcome) (s : store) : Prop :=
  leaves_item key' update -> a = Ok () -> item_at it key s = Some v.

Lemma edit_post_stable key' update a s s' : item_stays s s' -> edit_post key' update a s -> edit_post key' update a s'.
Proof. intros H Hp Hl Ha. auto. Qed.

Lemma item_stamp now r : item_of it (stamp_tags now r) = item_of it r.
Proof. by destruct it. Qed.
Lemma item_same cur rec :
  ta_Name rec = ta_Name cur -> ta_Metadata rec = ta_Metadata cur -> item_of it rec = item_of it cur.
Proof. intros H1 H2. destruct it; simpl; congruence. Qed.

Lemma item_at_put key' b s :
  item_at it key (store_put key' b s)
  = if decide (key' = key) then match b with STags r => Some (item_of it r) | _ => None end else item_at it key s.
Proof. unfold item_at. rewrite body_at_put. by case_decide. Qed.

Notation ok key' update := (holds item_stays (edit_post key' update)).

(** One attempt, on the record it read. *)
Lemma tag_write_ok key' version cur update retry s :
  keeps_item key' update ->
  match version with
  | None => body_at s key' = None /\ exists id, cur = no_tags id
  | Some o => body_at s key' = Some (STags cur) /\ body o = STags cur
  end ->
  (forall s', ok key' update (prog_map tag_answer retry) s') ->
  ok key' update (prog_map tag_answer (tag_write key' version cur update retry)) s.
Proof.
  intros Hk Hv Hretry. unfold tag_write. destruct (update cur) as [rec|e] eqn:Hu; cbn [prog_map].
  2:{ intros s' _ _ Ha. by destruct e. }
  assert (item_at it key' s = Some (item_of it cur)) as Hcur.
  { unfold item_at. destruct version as [o|]; [by destruct Hv as [-> _]|]. destruct Hv as [-> [id ->]]. by destruct it. }
  assert (forall s', item_stays s s' -> item_of it rec = item_of it cur -> edit_post key' update (Ok ()) s') as Hnoop.
  { intros s' Hs Hsame [-> Hl] _. apply Hs. rewrite Hcur. f_equal. rewrite <- Hsame. by apply (Hl cur). }
  destruct (bool_decide (version <> None) && _) eqn:E1; cbn [prog_map].
  { intros s' Hs. cbn [tag_answer]. apply Hnoop; [done|]. boolp. by apply item_same. }
  destruct (bool_decide (version = None) && _ && _) eqn:E2; cbn [prog_map].
  { intros s' Hs. cbn [tag_answer]. apply Hnoop; [done|]. boolp. subst version. destruct Hv as [_ [id ->]]. by apply item_same. }
  apply (holds_Now item_stays). intros now.
  set (rec' := stamp_tags now rec).
  assert (forall w, (w = WCreate key' (STags rec') /\ version = None)
                    \/ (exists o, w = WReplace key' o (STags rec') /\ version = Some o) ->
    ok key' update (Write w (fun r => prog_map tag_answer
       match r with Ok _ => Ret (Ok ()) | Err ErrConflict => retry | Err e => Ret (Err (TagStore e)) end)) s) as Hw.
  { intros w Hw. assert (forall s', admits w s' = true ->
      applied w s' = store_put key' (STags rec') s' /\ (key' = key -> item_at it key s' = Some (item_of it cur))) as Happ.
    { intros s' Ha. destruct Hw as [[-> ->]|(o & -> & ->)]; (split; [done|]); intros ->; unfold item_at, body_at.
      - destruct Hv as [_ [id ->]]. simpl in Ha. apply bool_decide_eq_true in Ha. rewrite Ha. by destruct it.
      - destruct Hv as [_ Ho]. simpl in Ha. destruct (objects s' !! key) as [c|]; [|done].
        apply same_version_body in Ha. simpl. by rewrite <- Ha, Ho. }
    apply (holds_Write item_stays).
    - intros s' _ Ha. destruct (Happ s' Ha) as [-> Hi]. intros Hv'. rewrite item_at_put. destruct (decide (key' = key)) as [Ek|]; [|done].
      rewrite (Hi Ek) in Hv'. injection Hv' as Hc. unfold rec'. rewrite item_stamp. f_equal. by apply (Hk Ek cur).
    - intros s' _ Ha _. destruct (Happ s' Ha) as [-> _]. intros s'' Hs [-> Hl] _. apply Hs.
      rewrite item_at_put, decide_True by done. unfold rec'. rewrite item_stamp. f_equal. by apply (Hl cur).
    - intros e. destruct e; cbn [prog_map]; try (intros s' _ _ Ha; discriminate Ha). apply Hretry. }
  destruct version as [o|]; cbn [replaceRecord createRecord prog_map]; apply Hw; eauto.
Qed.

Lemma tag_loop_ok n key' id update s :
  keeps_item key' update -> ok key' update (prog_map tag_answer (tag_loop n cancelled key' id update)) s.
Proof.
  intros Hk. revert s. induction n as [|n IH]; intros s; cbn [tag_loop prog_map].
  { intros s' _ _ Ha. discriminate Ha. }
  destruct (cancelled n) as [e|]; cbn [prog_map]; [intros s' _ _ Ha; discriminate Ha|].
  rewrite prog_map_getRecord. apply (holds_getRecord item_stays (edit_post key' update) as_tags key').
  - intros s' cur o _ Ho Hd. destruct (_ || _); cbn [prog_map]; [intros s'' _ _ Ha; discriminate Ha|].
    assert (body o = STags cur) as Hb by (destruct (body o); simpl in Hd; congruence).
    apply (tag_write_ok key' (Some o) cur); [done| |done]. unfold body_at. rewrite Ho. simpl. by rewrite Hb.
  - intros s' _ Hn. apply (tag_write_ok key' None (no_tags id)); [done| |done]. unfold body_at. rewrite Hn. eauto.
  - intros e He. destruct e; cbn [prog_map]; try (intros s' _ _ Ha; discriminate Ha). done.
Qed.

Lemma updateTags_ok org id update s :
  keeps_item (tagsKey org id) update ->
  ok (tagsKey org id) update (prog_map tag_answer (updateTags cancelled org id update)) s.
Proof.
  intros Hk. unfold updateTags. destruct (uuidParse id); cbn [prog_map]; [|intros s' _ _ Ha; discriminate Ha].
  rewrite prog_map_getRecord. apply (holds_getRecord item_stays _ as_install (installKey org id)).
  - intros s' r o _ _ _. by apply tag_loop_ok.
  - intros s' _ _ s'' _ _ Ha. discriminate Ha.
  - intros e _ s' _ _ Ha. by destruct e.
Qed.

(** *** The requests *)

Definition update_of (q : tag_request) : TagsRecord -> result tag_error TagsRecord :=
  match q with
  | RName _ _ name ifMissing => name_update name ifMissing
  | RPatch _ _ (Some patch) => patch_update visit patch
  | RPatch _ _ None => fun _ => Err (TagInvalid NotAnObject)
  end.

Lemma patched_lookup (patch : gmap string (option string)) m k :
  patched patch m !! k = match patch !! k with Some w => w | None => m !! k end.
Proof.
  unfold patched. rewrite lookup_merge. unfold diag_None.
  destruct (patch !! k) as [[w|]|], (m !! k); done.
Qed.

(** A request that gives the item [v] or nothing keeps it, and one that gives it [v] leaves it so. *)
Lemma update_gives q cur rec w : update_of q cur = Ok rec -> gives q it = Some w -> item_of it rec = w.
Proof.
  destruct q as [org id name m|org id patch]; cbn [update_of].
  - unfold name_update. intros [= <-]. destruct m, it; cbn [gives]; intros [= <-]. reflexivity.
  - destruct patch as [patch|]; [|done]. unfold patch_update.
    destruct (validateMetadata visit (patched patch (ta_Metadata cur))); [|done]. intros [= <-].
    destruct it as [|k]; cbn [gives]; [done|]. intros Hp. cbn. by rewrite patched_lookup, Hp.
Qed.
Lemma update_gives_not q cur rec :
  update_of q cur = Ok rec -> gives q it = None -> (may_name q it -> item_of it cur <> Some "") ->
  item_of it rec = item_of it cur.
Proof.
  destruct q as [org id name m|org id patch]; cbn [update_of].
  - unfold name_update. intros [= <-]. destruct m, it; cbn [gives may_name item_of]; try done; intros _ H.
    + destruct (String.eqb_spec (ta_Name cur) "") as [E|]; [|done]. exfalso. apply H; [exact I|by rewrite E].
    + by destruct (negb true || _).
  - destruct patch as [patch|]; [|done]. unfold patch_update.
    destruct (validateMetadata visit (patched patch (ta_Metadata cur))); [|done]. intros [= <-].
    destruct it as [|k]; cbn [gives]; [done|]. intros Hp _. cbn. by rewrite patched_lookup, Hp.
Qed.

(** The requests that may run beside the edit: those that would leave the item with another value do
    not. *)
Definition agrees (q : tag_request) : Prop :=
  tag_key q = key -> (forall w, gives q it = Some w -> w = v) /\ (may_name q it -> v <> Some "").

Lemma agrees_keeps q : agrees q -> keeps_item (tag_key q) (update_of q).
Proof.
  intros Hq Ek cur rec Hu Hc. destruct (Hq Ek) as [Hg Hn]. destruct (gives q it) as [w|] eqn:E.
  - rewrite (update_gives q cur rec w Hu E). by apply Hg.
  - rewrite (update_gives_not q cur rec Hu E); [done|]. intros Hm. rewrite Hc. auto.
Qed.

Lemma tag_handler_ok q s : agrees q -> ok (tag_key q) (update_of q) (tag_handler q) s.
Proof.
  intros Hq. apply agrees_keeps in Hq. unfold tag_handler. destruct q as [org id name m|org id [patch|]]; cbn [tag_key update_of] in *.
  - unfold setTag. destruct (_ && _); [intros s' _ _ Ha; discriminate Ha|]. by apply updateTags_ok.
  - unfold PatchMetadata. destruct (each_entry _); [by apply updateTags_ok|intros s' _ _ Ha; discriminate Ha].
  - intros s' _ _ Ha. discriminate Ha.
Qed.

(** Edits made together never erase one another. Let any names and metadata patches run together on a
    store that may fail, refuse or lose the answer of a write, crash any of them anywhere. An edit of a
    name or of a metadata key that was answered with success is there, as long as no other request meant
    to give that same item another value; whatever the others did to the rest of the record. *)
Theorem tag_edits_kept s0 w i q :
  reachable tag_handler agrees s0 w ->
  threads w !! i = Some (q, Ret (Ok ())) -> tag_key q = key -> gives q it = Some v ->
  item_at it key (st w) = Some v.
Proof.
  intros Hr Hi Hk Hg.
  assert (edit_post (tag_key q) (update_of q) (Ok ()) (st w)) as Hp.
  { eapply (reachable_post item_stays tag_handler agrees (fun _ => True) (fun q => edit_post (tag_key q) (update_of q)));
      [done| |done|exact Hr|exact Hi]. intros q' s Hq' _. by apply tag_handler_ok. }
  apply Hp; [|done]. split; [done|]. intros cur rec Hu. by apply (update_gives q cur rec).
Qed.
End Item.
End Edits.

(** ** Imports *)

Lemma count_unique a (l : list string) i j :
  (count (fun x => (x =? a)%string) l <= 1)%nat -> l !! i = Some a -> l !! j = Some a -> i = j.
Proof.
  unfold count. revert i j. induction l as [|x l IH]; intros i j Hc Hi Hj; [done|]. simpl in Hc.
  assert (forall k, l !! k = Some a -> (0 < length (List.filter (fun x => (x =? a)%string) l))%nat) as Hpos.
  { intros k Hk. apply list_elem_of_lookup_2, list_elem_of_In in Hk.
    assert (In a (List.filter (fun x => (x =? a)%string) l)) as Hin
      by (apply List.filter_In; by rewrite String.eqb_refl).
    destruct (List.filter _ l); [done|simpl; lia]. }
  destruct i as [|i], j as [|j]; simpl in *; [done|..].
  - injection Hi as ->. rewrite String.eqb_refl in Hc. simpl in Hc. specialize (Hpos _ Hj). lia.
  - injection Hj as ->. rewrite String.eqb_refl in Hc. simpl in Hc. specialize (Hpos _ Hi). lia.
  - f_equal. apply IH; [|done..]. destruct (x =? a)%string; simpl in Hc; lia.
Qed.

Section Plan.
Variable lower : string -> string.
Notation key_of := (hostnameMatchKey lower).

(** A row may be written to an install: the operator chose it, or nothing else in the inventory or the
    organization has its hostname. *)
Definition row_owns (rows : list metadataImportRow) (installs : list InstallRecord) (i : nat) (id : string) : Prop :=
  exists row, rows !! i = Some row /\
    ((ro_InstallID row = id /\ id ∈ map in_InstallID installs)
     \/ (ro_InstallID row = "" /\ byHost lower installs (key_of (ro_Hostname row)) = [id]
         /\ forall j other, rows !! j = Some other -> key_of (ro_Hostname other) = key_of (ro_Hostname row) -> j = i)).

Lemma plan_row_owns rows installs i row :
  rows !! i = Some row -> ir_InstallID (plan_row lower rows installs i row) <> "" ->
  row_owns rows installs i (ir_InstallID (plan_row lower rows installs i row)).
Proof.
  intros Hi. unfold plan_row. destruct (String.eqb_spec (ro_InstallID row) "") as [He|He]; cbn [negb].
  - destruct (1 <? hostRows lower rows (key_of (ro_Hostname row)))%nat eqn:Hc; [done|].
    destruct (byHost lower installs (key_of (ro_Hostname row))) as [|id [|]] eqn:Hb; cbn [ir_InstallID]; [done| |done].
    intros Hid. exists row. split; [done|]. right. split_and!; [done|done|]. intros j other Hj Hk.
    apply Nat.ltb_ge in Hc. unfold hostRows in Hc. refine (count_unique _ _ j i Hc _ _).
    + rewrite list_lookup_fmap, Hj. simpl. by rewrite Hk.
    + by rewrite list_lookup_fmap, Hi.
  - case_bool_decide; cbn [ir_InstallID]; [|done]. intros _. exists row. auto.
Qed.

(** An import never guesses an owner. Each row of an inventory gets an answer in its place; a row is
    written to an install only when the operator named that install, which is the organization's, or when
    the row's hostname is that of one install ever enrolled, revoked ones included, and of no other row;
    and no install is written twice. *)
Theorem import_never_guesses rows installs :
  let results := import_plan lower rows installs in
  length results = length rows
  /\ (forall i r, results !! i = Some r -> ir_Row r = S i
        /\ (ir_InstallID r <> "" -> row_owns rows installs i (ir_InstallID r)))
  /\ (forall i j r r', results !! i = Some r -> results !! j = Some r' ->
        ir_InstallID r <> "" -> ir_InstallID r = ir_InstallID r' -> i = j).
Proof.
  intros results. unfold results, import_plan. set (planned := imap (plan_row lower rows installs) rows).
  assert (forall i r, map (settle_row planned) planned !! i = Some r ->
    exists row, rows !! i = Some row /\ ir_Row r = S i /\
      (ir_InstallID r <> "" -> planned !! i = Some r /\ (targetRows planned (ir_InstallID r) <= 1)%nat
                               /\ r = plan_row lower rows installs i row)) as Hr.
  { intros i r H. rewrite list_lookup_fmap in H. destruct (planned !! i) as [r0|] eqn:E; [|done].
    simpl in H. injection H as <-. pose proof E as E'. unfold planned in E'. rewrite list_lookup_imap in E'.
    destruct (rows !! i) as [row|] eqn:Ei; [|done]. simpl in E'. injection E' as <-. exists row. split; [done|].
    assert (ir_Row (plan_row lower rows installs i row) = S i) as Hrow.
    { unfold plan_row. repeat case_match; done. }
    unfold settle_row. destruct (String.eqb_spec (ir_InstallID (plan_row lower rows installs i row)) ""); [done|].
    destruct (1 <? targetRows _ _)%nat eqn:Hc; cbn [ir_Row ir_InstallID]; [done|].
    split; [done|]. intros _. split_and!; [done|by apply Nat.ltb_ge|done]. }
  split_and!.
  - unfold planned. by rewrite length_map, length_imap.
  - intros i r H. destruct (Hr i r H) as (row & Hi & Hn & Ho). split; [done|]. intros Hid.
    destruct (Ho Hid) as (_ & _ & ->). by apply plan_row_owns.
  - intros i j r r' H H' Hid E. destruct (Hr i r H) as (row & _ & _ & Ho). destruct (Hr j r' H') as (row' & _ & _ & Ho').
    destruct (Ho Hid) as (Hp & Hc & _). destruct (Ho' ltac:(congruence)) as (Hp' & _ & _).
    unfold targetRows in Hc. refine (count_unique _ _ i j Hc _ _).
    + by rewrite list_lookup_fmap, Hp.
    + by rewrite list_lookup_fmap, Hp', E.
Qed.
End Plan.

(** ** Health *)

(** Faults on record: at most five, the newest, each with a kind and each text bounded. *)
Lemma boundFaults_bounded l :
  Zlen (boundFaults l) <= maxFaults
  /\ Forall (fun f => fa_Kind f <> "" /\ exists g, g ∈ l /\ f = bound_fault g) (boundFaults l).
Proof.
  unfold boundFaults. set (kept := if maxFaults <? Zlen l then drop (length l - Z.to_nat maxFaults) l else l).
  assert (Zlen kept <= maxFaults /\ (forall f, f ∈ kept -> f ∈ l)) as [Hlen Hin].
  { unfold kept, maxFaults, Zlen. destruct (5 <? Z.of_nat (length l)) eqn:E; boolp; split; try lia; try done.
    - rewrite length_drop. lia.
    - intros f Hf. rewrite <- (take_drop (length l - Z.to_nat 5) l). apply elem_of_app. by right. }
  split.
  - unfold Zlen in *. pose proof (List.filter_length_le (fun f => negb (fa_Kind f =? "")%string) (map bound_fault kept)).
    rewrite length_map in *. lia.
  - apply Forall_forall. intros f Hf. apply list_elem_of_In, List.filter_In in Hf as [Hf Hk].
    apply List.in_map_iff in Hf as (g & <- & Hg). apply list_elem_of_In in Hg. boolp. split; [done|]. eauto.
Qed.

(** ** Samples *)
Module SampleTags.

#[local] Existing Instance generations.

Definition org : string := "acme".
Definition id : string := "aaaaaaaa-0000-4000-8000-000000000001".
Definition install : InstallRecord := mkInstall 1 org id "k" "age1x" "Mac.local" "darwin" "d" InstallActive 0 0 None.
Definition store0 : store := mkStore {[ installKey org id := mkObject 0 (SInstall install) ]} 1.
Definition never (n : nat) : option ferror := None.
Definition rename : tag_request := RName org id "build box" false.
Definition team : tag_request := RPatch org id (Some {[ "team" := Some "infra" ]}).
Definition tag_run := tag_handler never map_to_list map_to_list.

(** Both requests read before either writes: the patch finds its version gone and goes round again. *)
Definition both : @world tag_request := start tag_run 1 team (start tag_run 0 rename (mkWorld store0 ∅)).
Definition finished : @world tag_request := drive tag_run 5 ([0; 0; 1; 1; 0; 0; 1; 1; 1; 1; 1; 1]%nat) both.

Lemma finished_reachable (allowed : tag_request -> Prop) :
  allowed rename -> allowed team -> reachable tag_run allowed store0 finished.
Proof.
  intros Ha Hb. apply (start_drive tag_run 5 allowed); [vm_compute; reflexivity|done|].
  apply (start_drive tag_run 5 allowed _ _ _ _ []); [vm_compute; reflexivity|done|]. apply rtc_refl.
Qed.

Lemma tag_edits_kept_witness :
  item_at ItemName (tagsKey org id) (st finished) = Some (Some "build box")
  /\ item_at (ItemKey "team") (tagsKey org id) (st finished) = Some (Some "infra").
Proof.
  split.
  - apply (tag_edits_kept never map_to_list map_to_list ItemName (tagsKey org id) (Some "build box") store0 finished 0 rename).
    + apply finished_reachable; intros _; (split; [|intros []]); intros w H; vm_compute in H; congruence.
    + vm_compute. reflexivity.
    + reflexivity.
    + reflexivity.
  - apply (tag_edits_kept never map_to_list map_to_list (ItemKey "team") (tagsKey org id) (Some "infra") store0 finished 1 team).
    + apply finished_reachable; intros _; (split; [|intros []]); intros w H; vm_compute in H; congruence.
    + vm_compute. reflexivity.
    + reflexivity.
    + reflexivity.
Defined.

Definition inventory : list metadataImportRow :=
  [mkRow "MAC" (Some ∅) ""; mkRow "unknown" (Some ∅) ""; mkRow "x" (Some ∅) id; mkRow "y" (Some ∅) "other"].
Example planned :
  map (fun r => (ir_Status r, ir_InstallID r, ir_Message r)) (import_plan to_lower inventory [install])
  = [("ambiguous", "", RowsShareTarget); ("unmatched", "", NoSuchHostname); ("ambiguous", "", RowsShareTarget);
     ("unmatched", "", NotInOrganization)].
Proof. vm_compute. reflexivity. Qed.

End SampleTags.
