(* ===== verification/CursorJoin.v ===== *)
(** The cursor-transcript-join enricher: [src/internal/transforms/cursorjoin], its [store.go],
    [align.go] and [cursorjoin.go]. A transcript's content blocks are aligned with the bubbles of the
    vendor's store, and what the store knew of each is written beside the block.

    Rows and lines are decoded by the class [JoinJson]; the reading of the database is an argument of
    [Enrich]. What the encoder is given always encodes (a raw message is a line that decoded), so its
    error branches do not appear. File paths are Unix paths. *)

From S2P Require Import Prelude GoLib GoPath GoJson GoText GoUrl Crypto Heuristic Redact Upload Manifest Derived.

(** What a recorded tool call says about a transcript's: [src/internal/transforms/cursorjoin/args.go].
    The arguments of both sides are taken apart into values; the grade ranks how they agree, and its
    strength counts the values that do. [encoding/json]'s decoding is the class [JoinJson]. *)

(** ** Decoded JSON *)

(** A decoded [any]. A number is held as [strconv.FormatFloat(n, 'g', -1, 64)] writes it; the members
    of an object are in no particular order, one per key. *)
Inductive any_value :=
  | VNull
  | VBool (b : bool)
  | VNum (text : string)
  | VStr (s : string)
  | VArr (items : list any_value)
  | VObj (members : list (string * any_value)).

(** ** Tool calls *)

Record toolFormerData := mkTool {
  t_ToolCallID : string;
  t_Name : string;
  t_Tool : string;
  t_Status : string;
  RawArgs : string;
  Params : string;
  t_Result : string
}.

Inductive evidence :=
  evidenceNegative | evidenceWeak | evidenceNeutral | evidencePartial | evidencePositive.
#[global] Instance evidence_eq_dec : EqDecision evidence.
Proof. solve_decision. Defined.

Definition rank (e : evidence) : Z :=
  match e with
  | evidenceNegative => 0 | evidenceWeak => 1 | evidenceNeutral => 2 | evidencePartial => 3
  | evidencePositive => 4
  end.

Definition minArgLen : Z := 4.
Definition longArgLen : Z := 32.

Record argValue := mkArg { av_v : string; weak : bool }.

Definition storedNoiseKeys : list string :=
  ["toolCallId"; "parsingResult"; "requestedSandboxPolicy"; "commandDescription"; "cwd"].
Definition genericArgKeys : list string := ["working_directory"; "cwd"; "description"; "explanation"].

Definition skips (skip : list string) (k : string) : bool := existsb (String.eqb k) skip.

(** [collectArgValues], the members of an object by sorted key. *)
Fixpoint collectArgValues (skip : list string) (v : any_value) : list argValue :=
  match v with
  | VStr s => if (s =? "")%string then [] else [mkArg s (slen s <? minArgLen)]
  | VNum text => [mkArg text true]
  | VArr items => concat (map (collectArgValues skip) items)
  | VObj members =>
      concat (map snd (SortStable (fun a b => str_ltb a.1 b.1)
        (map (fun kv => (kv.1, if skips skip kv.1 then [] else collectArgValues skip kv.2)) members)))
  | VNull | VBool _ => []
  end.

(** ** Cursor's splices *)

Definition newlines : string := String (byte_of 10) (String (byte_of 10) "").
Definition cursorAttributions : list string :=
  [ " --trailer " +:+ dquote +:+ "Co-authored-by: Cursor <cursoragent@cursor.com>" +:+ dquote;
    newlines +:+ "Made with [Cursor](https://cursor.com)" ].

(** A string encodes without fail, so its error branch does not appear. *)
Definition jsonEscaped (s : string) : string := plain_body s.

Definition strip_splice (s a : string) : string :=
  let s := ReplaceAll s a "" in
  let e := jsonEscaped a in
  if (e =? a)%string then s else ReplaceAll s e "".
Definition stripCursorAttribution (s : string) : string := foldl strip_splice s cursorAttributions.

(** ** Names *)

(** [strings.ToLower] maps two runes from outside ASCII into it: U+212A to k and U+0130 to i. *)
Fixpoint normaliseToolName (s : string) : string :=
  match s with
  | "" => ""
  | String c r =>
      let rest := normaliseToolName r in
      if has_prefix (String (byte_of 226) (String (byte_of 132) (String (byte_of 170) ""))) s
      then String "k" rest
      else if has_prefix (String (byte_of 196) (String (byte_of 176) "")) s then String "i" rest
      else
        let l := to_lower_byte c in
        if is_lower l || is_digit l then String l rest else rest
  end.

Definition toolNamePairs (d : string) : list string :=
  if (d =? "shell")%string then ["runterminalcommandv2"; "runterminalcmd"]
  else if (d =? "strreplace")%string then ["editfilev2"; "searchreplace"]
  else if (d =? "write")%string then ["editfilev2"; "writefile"; "createfilev2"]
  else [].

Definition namesCompatible (display : string) (t : toolFormerData) : bool :=
  let internal := str_or (t_Name t) (t_Tool t) in
  if (display =? "")%string || (internal =? "")%string then true
  else
    let d := normaliseToolName display in
    let i := normaliseToolName internal in
    if (d =? "")%string || (i =? "")%string || (d =? i)%string || str_contains d i || str_contains i d
    then true
    else if (d =? "callmcptool")%string && has_prefix "mcp" i then true
    else existsb (String.eqb i) (toolNamePairs d).

(** ** The grade *)

(** [json.Unmarshal] into an [any]. *)
Class AnyJson := Unmarshal_any : string -> option any_value.

Section Evidence.
Context {json : AnyJson}.

Definition argValues (stored : string) : option (list argValue) :=
  collectArgValues storedNoiseKeys <$> Unmarshal_any stored.

(** [json.Unmarshal] into a map: an object, or null for a nil one. *)
Definition Unmarshal_object (input : string) : option (list (string * any_value)) :=
  match Unmarshal_any input with
  | Some (VObj m) => Some m
  | Some VNull => Some []
  | _ => None
  end.

Definition silent (s : string) : bool :=
  (s =? "")%string || (s =? "{}")%string || (s =? "null")%string.

(** The record of a call's arguments: [rawArgs], and [params] when it says nothing. *)
Definition recorded (t : toolFormerData) : string :=
  let stored := TrimSpace (RawArgs t) in
  if silent stored then TrimSpace (Params t) else stored.

Record weighing := mkWeighing {
  strongComparable : Z;
  strongMatched : Z;
  long : bool;
  weakUnaccounted : bool
}.

Section Weigh.
(** The values taken from the record, or [None] when it could not be taken apart, and the record's
    text with the splices gone. *)
Variables (parsed : option (list argValue)) (strippedStored : string).

Definition storedVals : list argValue := default [] parsed.
Definition in_storedSet (v : string) : bool := existsb (fun sv => av_v sv =? v)%string storedVals.
Definition ran_as (v : string) : bool :=
  existsb (fun sv => negb (weak sv) && (stripCursorAttribution (av_v sv) =? v)%string) storedVals.
Definition contained (v : string) : bool :=
  negb (bool_decide (is_Some parsed)) && (longArgLen <=? slen v) &&
  (str_contains v strippedStored ||
   (negb (jsonEscaped v =? v)%string && str_contains (jsonEscaped v) strippedStored)).

Definition weigh_value (w : weighing) (av : argValue) : weighing :=
  if weak av then
    if bool_decide (is_Some parsed) && negb (in_storedSet (av_v av))
    then mkWeighing (strongComparable w) (strongMatched w) (long w) true else w
  else
    let comparable := strongComparable w + 1 in
    if in_storedSet (av_v av) || ran_as (av_v av) then
      mkWeighing comparable (strongMatched w + 1) (long w || (longArgLen <=? slen (av_v av)))
        (weakUnaccounted w)
    else if contained (av_v av) then mkWeighing comparable (strongMatched w + 1) true (weakUnaccounted w)
    else mkWeighing comparable (strongMatched w) (long w) (weakUnaccounted w).

Definition weigh_values (avs : list argValue) : weighing :=
  foldl weigh_value (mkWeighing 0 0 false false) avs.

Definition grade (w : weighing) : evidence * Z :=
  if strongComparable w =? 0 then (evidenceNeutral, 0)
  else if (strongMatched w =? strongComparable w) && negb (weakUnaccounted w)
  then (evidencePositive, strongMatched w)
  else if negb (bool_decide (is_Some parsed)) && (0 <? strongMatched w)
  then (evidencePositive, strongMatched w)
  else if (0 <? strongMatched w) && long w then (evidencePartial, strongMatched w)
  else if 0 <? strongMatched w then (evidenceWeak, strongMatched w)
  else (evidenceNegative, 0).
End Weigh.

Definition argsEvidence (input : string) (t : toolFormerData) : evidence * Z :=
  if (input =? "")%string then (evidenceNeutral, 0)
  else
    let stored := recorded t in
    if silent stored then (evidenceNeutral, 0)
    else
      let parsed := argValues stored in
      if bool_decide (is_Some parsed) && negb (existsb (fun sv => negb (weak sv)) (storedVals parsed))
      then (evidenceNeutral, 0)
      else match Unmarshal_object input with
           | None =>
               if negb (bool_decide (is_Some parsed)) && str_contains input (stripCursorAttribution stored)
               then (evidencePositive, 1) else (evidenceNegative, 0)
           | Some m =>
               let strippedStored :=
                 if bool_decide (is_Some parsed) then "" else stripCursorAttribution stored in
               grade parsed (weigh_values parsed strippedStored (collectArgValues genericArgKeys (VObj m)))
           end.
End Evidence.

Example tool_names :
  namesCompatible "Shell" (mkTool "" "run_terminal_command_v2" "" "" "" "" "") = true /\
  namesCompatible "Grep" (mkTool "" "ripgrep_raw_search" "" "" "" "" "") = true /\
  namesCompatible "Read" (mkTool "" "edit_file_v2" "" "" "" "" "") = false.
Proof. by vm_compute. Qed.

(** ** The store: decoded rows *)

Record bubble := mkBubble {
  BubbleID : string;
  b_Type : Z;
  b_Text : string;
  CreatedAt : string;
  RequestID : string;
  IsCapabilityIteration : bool;
  CapabilityType : string;
  IsThought : bool;
  Thinking : option string;
  ToolFormerData : option toolFormerData;
  CheckpointID : string;
  TurnDurationMs : Z;
  b_ModelName : string;
  ModelInfo : option string
}.

(** The headers of the newer generation, by bubble id, and the inline array of the older one. *)
Record composerData := mkComposer {
  FullConversationHeadersOnly : list string;
  Conversation : list bubble
}.

Definition set_BubbleID (id : string) (b : bubble) : bubble :=
  mkBubble id (b_Type b) (b_Text b) (CreatedAt b) (RequestID b) (IsCapabilityIteration b)
    (CapabilityType b) (IsThought b) (Thinking b) (ToolFormerData b) (CheckpointID b)
    (TurnDurationMs b) (b_ModelName b) (ModelInfo b).

Definition reasoningText (b : bubble) : string :=
  match Thinking b with
  | Some t => if (t =? "")%string then (if IsThought b then b_Text b else "") else t
  | None => if IsThought b then b_Text b else ""
  end.

Definition isScaffolding (b : bubble) : bool :=
  if ToolFormerData b then false
  else if negb (reasoningText b =? "")%string then false
  else if IsCapabilityIteration b || negb (CapabilityType b =? "")%string then true
  else (b_Text b =? "")%string.

(** ** The transcript: decoded lines *)

Record block := mkBlock { blk_Type : string; blk_Text : string; blk_Name : string; blk_Input : string }.

(** A line's role, and its content, [None] when it has no message. *)
Record line := mkLine { Role : string; MessageContent : option (list block) }.

Class JoinJson := {
  join_any :: AnyJson;
  Unmarshal_line : string -> option line;
  Unmarshal_composer : string -> option composerData;
  Unmarshal_bubble : string -> option bubble
}.

(** ** Texts *)

(** One round of [stripTag]: [None] when no opening tag is left, and otherwise the text with the first
    one gone and whether another round follows. *)
Definition strip_once (tag s : string) : option (string * bool) :=
  let opening := "<" +:+ tag +:+ ">" in
  let closing := "</" +:+ tag +:+ ">" in
  match str_index opening s with
  | None => None
  | Some i =>
      match str_index closing (str_drop i s) with
      | None => Some (str_take i s, false)
      | Some j =>
          let inner := str_take (j - String.length opening) (str_drop (i + String.length opening) s) in
          let tail := str_drop (i + j + String.length closing) s in
          Some (if (tag =? "user_query")%string then str_take i s +:+ inner +:+ tail
                else str_take i s +:+ tail, true)
      end
  end.

(** The fuel is the text's length: a round takes a tag away. *)
Fixpoint strip_loop (fuel : nat) (tag s : string) : string :=
  match fuel with
  | O => s
  | S f => match strip_once tag s with
           | None => s
           | Some (s', true) => strip_loop f tag s'
           | Some (s', false) => s'
           end
  end.
Definition stripTag (s tag : string) : string := strip_loop (S (String.length s)) tag s.

Definition crlf : string := String (byte_of 13) (String (byte_of 10) "").
Definition lf : string := String (byte_of 10) "".

Definition normaliseText (s : string) : string :=
  let s := foldl stripTag s ["timestamp"; "user_query"] in
  TrimSpace (ReplaceAll s crlf lf).

Definition overlap (transcript stored : string) (emptyMatches : bool) : bool :=
  let t := normaliseText transcript in
  let s := normaliseText stored in
  if (t =? "")%string || (s =? "")%string then emptyMatches
  else if str_contains s t || str_contains t s then true
  else
    let n := (String.length t `min` String.length s `min` 64)%nat in
    (str_take n t =? str_take n s)%string.
Definition strictOverlap (transcript stored : string) : bool := overlap transcript stored false.
Definition textOverlap (transcript stored : string) : bool := overlap transcript stored true.

Definition isRedactedReasoning (text : string) : bool := (TrimSpace text =? "[REDACTED]")%string.

(** ** The state of the pass *)

(** [used], and the evidence the consumption was made on; [declined] bars a bubble an ambiguous
    verdict left undecided. *)
Record bubbleState := mkBubbleState { used : bool; declined : bool; ev : evidence; ev_n : Z }.
Definition fresh_state : bubbleState := mkBubbleState false false evidenceNegative 0.

(** A bubble at its position, with its state. *)
Record cand := mkCand { c_idx : nat; c_bubble : bubble; c_state : bubbleState }.
Definition bubbles_at (events : list bubble) (state : list bubbleState) : list cand :=
  imap (fun i p => mkCand i p.1 p.2) (zip events state).

Definition lookAhead : nat := 16.
Definition lookBehind : nat := 64.

(** What [matchBlock] returns: the outcome, with the index and the evidence where it has them. *)
Inductive matchOutcome :=
  | matchNone
  | matchFound (idx : nat) (e : evidence) (n : Z)
  | matchRepeat
  | matchAmbiguous (idx : nat).

Section Match.
Context {json : JoinJson}.
Variables (blk : block) (role : string).

Definition is_tool : bool := (blk_Type blk =? "tool_use")%string.
Definition wantType : Z := if (role =? "user")%string then 1 else 2.

Definition weigh (b : bubble) : evidence * Z :=
  if negb (b_Type b =? 0) && negb (b_Type b =? wantType) then (evidenceNegative, 0)
  else if is_tool then
    match ToolFormerData b with
    | None => (evidenceNegative, 0)
    | Some t => argsEvidence (blk_Input blk) t
    end
  else if (blk_Type blk =? "text")%string then
    if ToolFormerData b then (evidenceNegative, 0)
    else
      let rt := reasoningText b in
      if negb (rt =? "")%string then
        if strictOverlap (blk_Text blk) rt then (evidencePositive, 1) else (evidenceNegative, 0)
      else if strictOverlap (blk_Text blk) (b_Text b) then (evidencePositive, 1)
      else if textOverlap (blk_Text blk) (b_Text b) then (evidenceNeutral, 0)
      else (evidenceNegative, 0)
  else (evidenceNegative, 0).

(** The names of a tool block and a bubble's call; only a tool call is ever asked. *)
Definition names_ok (b : bubble) : bool :=
  match ToolFormerData b with Some t => namesCompatible (blk_Name blk) t | None => false end.

(** What a scan has collected: the strongest positive, how many partials, and the first bubble of
    each lesser grade. *)
Record scan := mkScan {
  bestPos : option cand;
  bestPosN : Z;
  partials : Z;
  firstPartial : option cand;
  firstNeutral : option cand;
  firstWeak : option cand
}.
Definition scan_from (partials : Z) : scan := mkScan None 0 partials None None None.

Definition or_first (first : option cand) (c : cand) : option cand :=
  match first with Some _ => first | None => Some c end.

Definition tally_bubble (s : scan) (c : cand) : scan :=
  let '(e, n) := weigh (c_bubble c) in
  match e with
  | evidencePositive =>
      if bestPosN s <? n
      then mkScan (Some c) n (partials s) (firstPartial s) (firstNeutral s) (firstWeak s) else s
  | evidencePartial =>
      mkScan (bestPos s) (bestPosN s) (partials s + 1) (or_first (firstPartial s) c) (firstNeutral s)
        (firstWeak s)
  | evidenceNeutral =>
      if negb is_tool || names_ok (c_bubble c)
      then mkScan (bestPos s) (bestPosN s) (partials s) (firstPartial s)
             (or_first (firstNeutral s) c) (firstWeak s) else s
  | evidenceWeak =>
      if names_ok (c_bubble c)
      then mkScan (bestPos s) (bestPosN s) (partials s) (firstPartial s) (firstNeutral s)
             (or_first (firstWeak s) c) else s
  | evidenceNegative => s
  end.

(** The scan from the cursor on. *)
Definition forward_step (s : scan) (c : cand) : scan := if declined (c_state c) then s else tally_bubble s c.

(** What the scan back collects besides: whether a consumed bubble relates to the block as to its
    consumer, and the best evidence of one that does. *)
Record behind := mkBehind { b_scan : scan; repeat : bool; repeatEv : evidence; repeatN : Z }.

Definition testifies (c : cand) (s : behind) : behind :=
  if is_tool && (rank evidencePartial <=? rank (ev (c_state c))) then
    let '(e, n) := weigh (c_bubble c) in
    if bool_decide (e = ev (c_state c)) && (n =? ev_n (c_state c)) then
      if (rank (repeatEv s) <? rank e) || bool_decide (e = repeatEv s) && (repeatN s <? n)
      then mkBehind (b_scan s) true e n
      else mkBehind (b_scan s) true (repeatEv s) (repeatN s)
    else s
  else s.

Definition behind_step (cursor : nat) (s : behind) (c : cand) : behind :=
  if used (c_state c) then testifies c s
  else if (c_idx c <? cursor - lookBehind)%nat || declined (c_state c) then s
  else if negb is_tool && negb (bool_decide ((weigh (c_bubble c)).1 = evidencePositive)) then s
  else mkBehind (tally_bubble (b_scan s) c) (repeat s) (repeatEv s) (repeatN s).

(** The lesser grades, ranked: a lone partial, then position, forward first; weak ones last. *)
Definition earlier_of (a b : option cand) : option cand :=
  match a, b with
  | Some x, Some y => if (c_idx x <? c_idx y)%nat then a else b
  | Some _, None => a
  | None, _ => b
  end.
Definition later_of (a b : option cand) : option cand :=
  match a, b with
  | Some x, Some y => if (c_idx y <? c_idx x)%nat then a else b
  | Some _, None => a
  | None, _ => b
  end.
Definition or_else (a b : option cand) : option cand := match a with Some _ => a | None => b end.

Definition ranked (fwd bhd : scan) : option cand :=
  if partials bhd =? 1 then or_else (firstPartial fwd) (firstPartial bhd)
  else or_else (earlier_of (firstPartial fwd) (firstNeutral fwd))
         (or_else (later_of (firstNeutral bhd) (firstPartial bhd))
            (or_else (firstWeak fwd) (firstWeak bhd))).

Definition found (c : cand) : matchOutcome :=
  let '(e, n) := weigh (c_bubble c) in matchFound (c_idx c) e n.

(** What speaks against reading the block as a repeat. *)
Definition settle_block (all : list cand) (b : behind) (best : option cand) : matchOutcome :=
  if repeat b then
    if existsb (fun c => negb (used (c_state c)) && negb (declined (c_state c)) &&
                         bool_decide ((weigh (c_bubble c)).1 = evidencePositive)) all
    then matchNone
    else match best with
         | Some c =>
             let '(e, n) := weigh (c_bubble c) in
             if bool_decide (e = evidenceNeutral) then matchAmbiguous (c_idx c)
             else if (rank (repeatEv b) <? rank e) || bool_decide (e = repeatEv b) && (repeatN b <=? n)
             then matchFound (c_idx c) e n
             else matchRepeat
         | None => matchRepeat
         end
  else match best with Some c => found c | None => matchNone end.

Definition matchBlock (events : list bubble) (cursor : nat) (state : list bubbleState) : matchOutcome :=
  let all := bubbles_at events state in
  let fwd := foldl forward_step (scan_from 0) (take lookAhead (drop cursor all)) in
  match bestPos fwd with
  | Some c => matchFound (c_idx c) evidencePositive (bestPosN fwd)
  | None =>
      let bhd := foldl (behind_step cursor)
        (mkBehind (scan_from (partials fwd)) false evidenceNegative 0) (reverse (take cursor all)) in
      match bestPos (b_scan bhd) with
      | Some c => matchFound (c_idx c) evidencePositive (bestPosN (b_scan bhd))
      | None => settle_block all bhd (ranked fwd (b_scan bhd))
      end
  end.
End Match.

(** ** Rendering *)

Record blockEnrich := mkEnrich {
  en_BubbleID : string;
  ToolCallID : string;
  ToolName : string;
  en_Status : string;
  Result : string;
  en_CreatedAt : string;
  en_RequestID : string;
  en_CheckpointID : string;
  en_TurnDurationMs : Z;
  ModelName : string
}.

Record outLine := mkOutLine { Native : string; NativeInvalid : string; Enrichment : list (option blockEnrich) }.

Definition fromBubble (b : bubble) : blockEnrich :=
  let model := if (b_ModelName b =? "")%string then default "" (ModelInfo b) else b_ModelName b in
  let of_tool f := match ToolFormerData b with Some t => f t | None => "" end in
  mkEnrich (BubbleID b) (of_tool t_ToolCallID) (of_tool (fun t => str_or (t_Name t) (t_Tool t)))
    (of_tool t_Status) (of_tool t_Result) (CreatedAt b) (RequestID b) (CheckpointID b)
    (TurnDurationMs b) model.

Definition plain_nonempty (s : string) : option string :=
  if (s =? "")%string then None else Some (plain_quote s).

Definition blockEnrich_text (e : blockEnrich) : string :=
  object [ member "bubbleId" (plain_nonempty (en_BubbleID e));
           member "tool_call_id" (plain_nonempty (ToolCallID e));
           member "tool_name" (plain_nonempty (ToolName e));
           member "status" (plain_nonempty (en_Status e));
           member "result" (plain_nonempty (Result e));
           member "createdAt" (plain_nonempty (en_CreatedAt e));
           member "requestId" (plain_nonempty (en_RequestID e));
           member "checkpointId" (plain_nonempty (en_CheckpointID e));
           member "turnDurationMs" (nonzero (en_TurnDurationMs e));
           member "modelName" (plain_nonempty (ModelName e)) ].

Definition enrich_slot (e : option blockEnrich) : string :=
  match e with Some e => blockEnrich_text e | None => "null" end.

(** [marshalCompact] of a line. *)
Definition outLine_text (l : outLine) : string :=
  object [ member "native" (if (Native l =? "")%string then None else Some (compact (Native l)));
           member "native_invalid" (plain_nonempty (NativeInvalid l));
           member "_enrich" (match Enrichment l with
                             | [] => None
                             | slots => Some (array (map enrich_slot slots))
                             end) ].

Definition writeLine (out : string) (l : outLine) : string := out +:+ outLine_text l +:+ lf.

(** ** The pass *)

Record align_state := mkWalk {
  w_out : string;
  w_cursor : nat;
  w_seq : Z;
  lastMatchedSeq : Z;
  unmatched : list Z;
  w_repeats : Z;
  w_ambiguous : Z;
  w_state : list bubbleState;
  lineNo : Z;
  invalidLines : Z;
  lastInvalidLine : Z
}.

Definition walk_start (events : list bubble) : align_state :=
  mkWalk "" 0 0 (-1) [] 0 0 (replicate (length events) fresh_state) 0 0 (-1).

Definition set_out (out : string) (w : align_state) : align_state :=
  mkWalk out (w_cursor w) (w_seq w) (lastMatchedSeq w) (unmatched w) (w_repeats w) (w_ambiguous w)
    (w_state w) (lineNo w) (invalidLines w) (lastInvalidLine w).

Definition consume (idx : nat) (e : evidence) (n : Z) (w : align_state) : align_state :=
  let was := default fresh_state (w_state w !! idx) in
  mkWalk (w_out w) (w_cursor w `max` S idx) (w_seq w) (w_seq w) (unmatched w) (w_repeats w)
    (w_ambiguous w) (<[idx := mkBubbleState true (declined was) e n]> (w_state w)) (lineNo w)
    (invalidLines w) (lastInvalidLine w).

Definition decline (idx : nat) (w : align_state) : align_state :=
  let was := default fresh_state (w_state w !! idx) in
  mkWalk (w_out w) (w_cursor w) (w_seq w) (lastMatchedSeq w) (unmatched w) (w_repeats w)
    (w_ambiguous w + 1) (<[idx := mkBubbleState (used was) true (ev was) (ev_n was)]> (w_state w))
    (lineNo w) (invalidLines w) (lastInvalidLine w).

Definition next_seq (w : align_state) : align_state :=
  mkWalk (w_out w) (w_cursor w) (w_seq w + 1) (lastMatchedSeq w) (unmatched w) (w_repeats w)
    (w_ambiguous w) (w_state w) (lineNo w) (invalidLines w) (lastInvalidLine w).
Definition note_unmatched (w : align_state) : align_state :=
  mkWalk (w_out w) (w_cursor w) (w_seq w) (lastMatchedSeq w) (unmatched w ++ [w_seq w]) (w_repeats w)
    (w_ambiguous w) (w_state w) (lineNo w) (invalidLines w) (lastInvalidLine w).
Definition note_repeat (w : align_state) : align_state :=
  mkWalk (w_out w) (w_cursor w) (w_seq w) (lastMatchedSeq w) (unmatched w) (w_repeats w + 1)
    (w_ambiguous w) (w_state w) (lineNo w) (invalidLines w) (lastInvalidLine w).
Definition next_line (w : align_state) : align_state :=
  mkWalk (w_out w) (w_cursor w) (w_seq w) (lastMatchedSeq w) (unmatched w) (w_repeats w)
    (w_ambiguous w) (w_state w) (lineNo w + 1) (invalidLines w) (lastInvalidLine w).
Definition note_invalid (w : align_state) : align_state :=
  mkWalk (w_out w) (w_cursor w) (w_seq w) (lastMatchedSeq w) (unmatched w) (w_repeats w)
    (w_ambiguous w) (w_state w) (lineNo w) (invalidLines w + 1) (lineNo w).

Record alignment := mkAlignment {
  al_out : string;
  mismatches : Z;
  tail_ : Z;
  repeats : Z;
  ambiguous : Z;
  lineDecodeErrors : Z
}.

Section Align.
Context {json : JoinJson}.
Variable events : list bubble.

(** One block of a line: the slots so far, one more. *)
Definition align_block (role : string) (acc : align_state * list (option blockEnrich)) (blk : block)
    : align_state * list (option blockEnrich) :=
  let '(w, slots) := acc in
  if (blk_Type blk =? "text")%string && isRedactedReasoning (blk_Text blk) then (w, slots ++ [None])
  else
    let outcome := matchBlock blk role events (w_cursor w) (w_state w) in
    let w := next_seq w in
    match outcome with
    | matchNone => (note_unmatched w, slots ++ [None])
    | matchRepeat => (note_repeat w, slots ++ [None])
    | matchAmbiguous idx => (decline idx w, slots ++ [None])
    | matchFound idx e n => (consume idx e n w, slots ++ [fromBubble <$> events !! idx])
    end.

Definition align_blocks (role : string) (w : align_state) (blocks : list block)
    : align_state * list (option blockEnrich) :=
  foldl (align_block role) (w, []) blocks.

(** Nothing of a line without a role or content is aligned. *)
Definition aligned_content (l : line) : list block :=
  if (Role l =? "")%string then [] else default [] (MessageContent l).

Definition align_line (w : align_state) (raw : string) : align_state :=
  let trimmed := TrimSpace raw in
  if (trimmed =? "")%string then w
  else
    let w := next_line w in
    match Unmarshal_line trimmed with
    | None =>
        let w := note_invalid w in
        set_out (writeLine (w_out w) (mkOutLine "" trimmed [])) w
    | Some l =>
        match aligned_content l with
        | [] => set_out (writeLine (w_out w) (mkOutLine trimmed "" [])) w
        | blocks =>
            let '(w, slots) := align_blocks (Role l) w blocks in
            let matchedAny := existsb (fun s => bool_decide (is_Some s)) slots in
            set_out (writeLine (w_out w) (mkOutLine trimmed "" (if matchedAny then slots else []))) w
        end
    end.

Definition align_walk (content : string) : align_state :=
  foldl align_line (walk_start events) (split_on (byte_of 10) content).

(** An unmatched event past the last match is tail; all are mismatches when nothing matched. *)
Definition is_tail (w : align_state) (s : Z) : bool := (0 <=? lastMatchedSeq w) && (lastMatchedSeq w <? s).

Definition finish_walk (w : align_state) : alignment :=
  mkAlignment (w_out w) (Zlen (List.filter (fun s => negb (is_tail w s)) (unmatched w)))
    (Zlen (List.filter (is_tail w) (unmatched w))) (w_repeats w) (w_ambiguous w)
    (if (0 <? invalidLines w) && (lastInvalidLine w =? lineNo w) then invalidLines w - 1
     else invalidLines w).

Definition alignAndRender (content : string) : alignment := finish_walk (align_walk content).
End Align.

(** ** Rows *)

Record Row := mkRow { r_Key : string; r_Value : string }.
Record ReadResult := mkRead { Rows : list Row; Method : string; Truncated : bool }.

Definition composerPrefix : string := "composerData:".
Definition bubblePrefix : string := "bubbleId:".

(** [composers], [bubbles] by conversation and bubble id, and [order], the ids in key order. *)
Record indexed := mkIndexed {
  composers : gmap string composerData;
  bubbles : gmap string (gmap string bubble);
  order : gmap string (list string);
  decodeErrors : Z
}.

Definition decode_failed (ix : indexed) : indexed :=
  mkIndexed (composers ix) (bubbles ix) (order ix) (decodeErrors ix + 1).

Section Rows.
Context {json : JoinJson}.

Definition index_row (ix : indexed) (r : Row) : indexed :=
  if has_prefix composerPrefix (r_Key r) then
    match Unmarshal_composer (r_Value r) with
    | None => decode_failed ix
    | Some c => mkIndexed (<[trim_prefix composerPrefix (r_Key r) := c]> (composers ix)) (bubbles ix)
                  (order ix) (decodeErrors ix)
    end
  else if has_prefix bubblePrefix (r_Key r) then
    let '(conv, id, ok) := Url.cut_byte ":" (trim_prefix bubblePrefix (r_Key r)) in
    if negb ok then decode_failed ix
    else match Unmarshal_bubble (r_Value r) with
         | None => decode_failed ix
         | Some b =>
             let b := if (BubbleID b =? "")%string then set_BubbleID id b else b in
             mkIndexed (composers ix)
               (<[conv := <[id := b]> (default ∅ (bubbles ix !! conv))]> (bubbles ix))
               (<[conv := default [] (order ix !! conv) ++ [id]]> (order ix)) (decodeErrors ix)
         end
  else ix.
Definition indexRows (rows : list Row) : indexed := foldl index_row (mkIndexed ∅ ∅ ∅ 0) rows.
End Rows.

(** The key scan: every id once, in key order, then by [createdAt]. *)
Fixpoint key_scan (bs : gmap string bubble) (seen : list string) (keyOrder : list string) : list bubble :=
  match keyOrder with
  | [] => []
  | id :: t =>
      match bs !! id with
      | Some b => if bool_decide (id ∈ seen) then key_scan bs seen t else b :: key_scan bs (id :: seen) t
      | None => key_scan bs seen t
      end
  end.

Definition orderBubbles (c : option composerData) (bs : gmap string bubble) (keyOrder : list string)
    : list bubble :=
  let headers := match c with Some c => FullConversationHeadersOnly c | None => [] end in
  let inline := match c with Some c => Conversation c | None => [] end in
  match omap (fun id => bs !! id) headers with
  | [] => match inline with
          | [] => SortStable (fun a b => str_ltb (CreatedAt a) (CreatedAt b)) (key_scan bs [] keyOrder)
          | _ => inline
          end
  | out => out
  end.

(** ** Enrich *)

Definition enricher_id : string := "cursor-transcript-join".
Definition enricher_version : Z := 4.
Definition Keyspaces : list string := [composerPrefix; bubblePrefix].

Definition cursorStateDB : string := "Cursor/User/globalStorage/state.vscdb".
Definition cursor_DBCandidates (goos : string) : list string :=
  if (goos =? "darwin")%string then ["~/Library/Application Support/" +:+ cursorStateDB]
  else if (goos =? "linux")%string
  then ["~/.config/" +:+ cursorStateDB; "~/.config/cursor/User/globalStorage/state.vscdb"]
  else if (goos =? "windows")%string then ["$APPDATA/" +:+ cursorStateDB]
  else [].

Definition conversationID (nativePath : string) : string :=
  let base := Base nativePath in
  if has_suffix ".jsonl" base then trim_suffix ".jsonl" base else "".

Section Join.
Context {json : JoinJson}.

Definition derived_start (u : RawUnit) (read : ReadResult) (s : Status) : DerivedObject :=
  mkDerived (unit_NativePath u +:+ ".enriched.jsonl") "" [unit_SourceHash u] "" s 0 0 0 0 0
    (Method read) Keyspaces (Zlen (Rows read)).

Definition mismatch_note (conv : string) (n : Z) : string :=
  conv +:+ ": " +:+ int_text n +:+ " transcript events did not align with the store; "
  +:+ "no derived object, raw transcript ships (the join rules are vendor behaviour and drift)".

Definition join_infos (a : alignment) : list string :=
  (if 0 <? tail_ a then [int_text (tail_ a) +:+ " transcript events extend past the store's last bubble"]
   else []) ++
  (if 0 <? repeats a then [int_text (repeats a) +:+ " transcript events repeat calls whose bubble "
                           +:+ "an identical earlier event already consumed"] else []) ++
  (if 0 <? ambiguous a then [int_text (ambiguous a) +:+ " transcript events the store evidence cannot "
     +:+ "decide between a deduped re-run and a second unrecorded call " +:+ String (byte_of 226)
         (String (byte_of 128) (String (byte_of 148) "")) +:+ " nothing attached rather than guessed"]
   else []).

Definition joinOne (u : RawUnit) (conv : string) (ix : indexed) (read : ReadResult)
    : DerivedObject * string :=
  let c := composers ix !! conv in
  let bs := default ∅ (bubbles ix !! conv) in
  let inline := match c with Some c => length (Conversation c) | None => O end in
  let headers := match c with Some c => length (FullConversationHeadersOnly c) | None => O end in
  if (headers `max` inline `max` size bs =? 0)%nat then (derived_start u read StatusSkipped, "")
  else match orderBubbles c bs (default [] (order ix !! conv)) with
  | [] => (derived_start u read StatusSkipped, "")
  | ordered =>
      let events := List.filter (fun b => negb (isScaffolding b)) ordered in
      let a := alignAndRender events (Content u) in
      let d := derived_start u read StatusOK in
      if 0 <? mismatches a then
        (mkDerived (d_NativePath d) "" (d_DerivedFrom d) "" StatusMismatch (mismatches a) 0 0 0
           (lineDecodeErrors a) (DBReadMethod d) (DBKeyspaces d) (DBRowsRead d),
         mismatch_note conv (mismatches a))
      else
        (mkDerived (d_NativePath d) (al_out a) (d_DerivedFrom d) (Hash (al_out a)) StatusOK 0
           (repeats a) (tail_ a) (ambiguous a) (lineDecodeErrors a) (DBReadMethod d) (DBKeyspaces d)
           (DBRowsRead d),
         match join_infos a with
         | [] => ""
         | infos => conv +:+ ": " +:+ join "; " infos +:+ "; carried native-only in the derived object"
         end)
  end.

Definition lines_note (conv : string) (n : Z) : string :=
  conv +:+ ": " +:+ int_text n +:+ " mid-file transcript lines did not decode (the line shape is vendor "
  +:+ "behaviour and drifts): their blocks never reached the join, and the derived object ships "
  +:+ "without their enrichment".

Definition add_notes (notes infos : list string) (r : EnrichResult) : EnrichResult :=
  mkEnrichResult (er_Objects r) (er_Skipped r) (Mismatched r) (Errors r) (Notes r ++ notes) (Infos r ++ infos).
Definition skip_unit (r : EnrichResult) : EnrichResult :=
  mkEnrichResult (er_Objects r) (er_Skipped r + 1) (Mismatched r) (Errors r) (Notes r) (Infos r).

Definition count_status (d : DerivedObject) (r : EnrichResult) : EnrichResult :=
  match d_Status d with
  | StatusOK => mkEnrichResult (er_Objects r ++ [d]) (er_Skipped r) (Mismatched r) (Errors r) (Notes r) (Infos r)
  | StatusMismatch =>
      mkEnrichResult (er_Objects r) (er_Skipped r) (Mismatched r + 1) (Errors r) (Notes r) (Infos r)
  | StatusError =>
      mkEnrichResult (er_Objects r) (er_Skipped r) (Mismatched r) (Errors r + 1) (Notes r) (Infos r)
  | StatusSkipped => skip_unit r
  end.

Definition enrich_unit (ix : indexed) (read : ReadResult) (r : EnrichResult) (u : RawUnit) : EnrichResult :=
  let conv := conversationID (unit_NativePath u) in
  if (conv =? "")%string then skip_unit r
  else
    let '(d, note) := joinOne u conv ix read in
    let noted := if (note =? "")%string then [] else [note] in
    let shipped := match d_Status d with StatusOK => true | _ => false end in
    let r := if shipped then add_notes [] noted r else add_notes noted [] r in
    let r := if 0 <? LineDecodeErrors d then add_notes [lines_note conv (LineDecodeErrors d)] [] r else r in
    count_status d r.

Definition row_cap_note (n : Z) : string :=
  "state.vscdb row cap reached at " +:+ int_text n +:+ " rows: DB-side fields are missing for whatever "
  +:+ "sorts after the last key read".
Definition rows_note (n : Z) : string :=
  int_text n +:+ " store rows in the declared keyspaces did not decode (the store schema is vendor "
  +:+ "behaviour and drifts)".

(** [read] is [sqliteread.Read] of the database, the scratch directory, the table and the prefixes
    being fixed; its error is a text. *)
Definition cursor_Enrich (read : string -> result string ReadResult) (i : Input) : EnrichResult :=
  let n := Zlen (Units i) in
  if (in_DBPath i =? "")%string then
    mkEnrichResult [] n 0 0 (if 0 <? n then ["no state.vscdb found: raw transcripts only"] else []) []
  else match read (in_DBPath i) with
  | Err why => mkEnrichResult [] 0 0 n ["state.vscdb unreadable: " +:+ why] []
  | Ok rr =>
      let ix := indexRows (Rows rr) in
      let notes := (if Truncated rr then [row_cap_note (Zlen (Rows rr))] else []) ++
                   (if 0 <? decodeErrors ix then [rows_note (decodeErrors ix)] else []) in
      foldl (enrich_unit ix rr) (mkEnrichResult [] 0 0 0 notes []) (Units i)
  end.

Definition cursorjoin (goos : string) (read : string -> result string ReadResult) : Enricher :=
  mkEnricher enricher_id enricher_version (cursor_DBCandidates goos) true (cursor_Enrich read).
End Join.
