(* ===== verification/CursorProps.v ===== *)
(** What the transcript join guarantees, over the lemmas of [CursorSafe]: when a call matches a record in
    full, a full match in the window wins, a repeat has an original, a pass attaches each
    bubble once and accounts for every block, the tags of a text are all stripped, and a conversation
    ships whole or not at all. *)

From S2P Require Import Prelude GoLib GoJson GoText Heuristic Redact RedactSafe Crypto Upload Manifest Derived CursorJoin CursorSafe.

(** ** Evidence *)

Section Evidence.
Context {json : JoinJson}.

(** A value of the transcript's that the record confirms: recorded as it is, or, when it is long enough
    to confirm anything, as what Cursor ran with its splices taken out. *)
Definition confirms (vals : list argValue) (av : argValue) : Prop :=
  exists sv, sv ∈ vals /\
    (av_v sv = av_v av \/ weak av = false /\ weak sv = false /\ stripCursorAttribution (av_v sv) = av_v av).

Definition strong (avs : list argValue) : Z := Zlen (List.filter (fun av => negb (weak av)) avs).

(** A value long enough to be searched for, as it is or escaped, in a record that is mere text. *)
Definition found_in (text : string) (av : argValue) : bool :=
  negb (weak av) && (longArgLen <=? slen (av_v av)) &&
  (str_contains (av_v av) text || str_contains (jsonEscaped (av_v av)) text).

Lemma confirms_weak vals av : weak av = true -> confirms vals av <-> in_storedSet (Some vals) (av_v av) = true.
Proof.
  intros Hw. unfold in_storedSet. rewrite existsb_exists. simpl. split.
  - intros (sv & Hi & [E|[E _]]); [|congruence]. exists sv. split; [by apply list_elem_of_In|by apply String.eqb_eq].
  - intros (sv & Hi & E). apply String.eqb_eq in E. exists sv. split; [by apply list_elem_of_In|by left].
Qed.

Lemma confirms_strong vals av : weak av = false ->
  confirms vals av <-> in_storedSet (Some vals) (av_v av) || ran_as (Some vals) (av_v av) = true.
Proof.
  intros Hw. unfold in_storedSet, ran_as. rewrite orb_true_iff, !existsb_exists. simpl. split.
  - intros (sv & Hi%list_elem_of_In & [E|(_ & E1 & E2)]).
    + left. exists sv. split; [done|by apply String.eqb_eq].
    + right. exists sv. split; [done|]. by rewrite E1, E2, String.eqb_refl.
  - intros [(sv & Hi & E)|(sv & Hi & E)]; boolp; exists sv; (split; [by apply list_elem_of_In|]); auto.
Qed.

(** What the counters come to, over any record. *)
Definition matched (parsed : option (list argValue)) (text : string) (av : argValue) : bool :=
  in_storedSet parsed (av_v av) || ran_as parsed (av_v av) || contained parsed text (av_v av).
Definition unaccounted (parsed : option (list argValue)) (av : argValue) : bool :=
  weak av && (bool_decide (is_Some parsed) && negb (in_storedSet parsed (av_v av))).

Lemma weigh_values_spec parsed text avs :
  let w := weigh_values parsed text avs in
  strongComparable w = strong avs /\
  strongMatched w = Zlen (List.filter (fun av => negb (weak av) && matched parsed text av) avs) /\
  weakUnaccounted w = existsb (unaccounted parsed) avs.
Proof.
  unfold weigh_values, strong. induction avs as [|av avs IH] using rev_ind; [done|].
  rewrite foldl_app, !List.filter_app, existsb_app, !Zlen_app. cbn [foldl List.filter existsb].
  set (w := foldl _ _ avs) in *. clearbody w. destruct IH as (<- & <- & <-).
  unfold weigh_value, unaccounted, matched. destruct (weak av); cbn [negb andb].
  - destruct (_ && negb (in_storedSet _ _)); cbn; rewrite ?orb_true_r, ?orb_false_r, Zlen_nil; split_and!; done || lia.
  - destruct (in_storedSet parsed (av_v av) || ran_as parsed (av_v av)); cbn [orb];
      [|destruct (contained _ _ _)]; cbn; rewrite ?Zlen_cons, ?Zlen_nil, ?orb_false_r; split_and!; done || lia.
Qed.

Lemma filter_all {A} (p q : A -> bool) l :
  Zlen (List.filter (fun x => p x && q x) l) = Zlen (List.filter p l) <-> Forall (fun x => p x = true -> q x = true) l.
Proof.
  assert (Hle : forall l, Zlen (List.filter (fun x => p x && q x) l) <= Zlen (List.filter p l)).
  { clear l. intros l. induction l as [|x l IH]; simpl; [lia|]. destruct (p x), (q x); simpl; rewrite ?Zlen_cons; lia. }
  induction l as [|x l IH]; simpl; [done|]. rewrite Forall_cons, <- IH. specialize (Hle l).
  destruct (p x), (q x); simpl; rewrite ?Zlen_cons; split; intros H; try (split; [done|lia]); try lia;
    by destruct H as [H _]; specialize (H eq_refl).
Qed.

(** Over a record taken apart, full agreement is agreement on every value. *)
Lemma all_confirmed vals text avs :
  let w := weigh_values (Some vals) text avs in
  (strongMatched w = strongComparable w /\ weakUnaccounted w = false) <-> Forall (confirms vals) avs.
Proof.
  cbn zeta. destruct (weigh_values_spec (Some vals) text avs) as (-> & -> & ->). unfold strong.
  rewrite filter_all. rewrite <- not_true_iff_false, existsb_exists. split.
  - intros [H1 H2]. apply Forall_forall. intros av Hin. destruct (weak av) eqn:Hw.
    + apply confirms_weak; [done|]. destruct (in_storedSet _ _) eqn:Es; [done|]. exfalso. apply H2.
      exists av. split; [by apply list_elem_of_In|]. unfold unaccounted. by rewrite Hw, Es.
    + apply confirms_strong; [done|]. rewrite Forall_forall in H1. specialize (H1 av Hin). rewrite Hw in H1.
      specialize (H1 eq_refl). unfold matched, contained in H1. by rewrite orb_false_r in H1.
  - intros H. rewrite Forall_forall in H. split.
    + apply Forall_forall. intros av Hin Hw%negb_true_iff. apply H, confirms_strong in Hin; [|done].
      unfold matched. by rewrite Hin.
    + intros (av & Hin & Hu). unfold unaccounted in Hu. boolp. apply list_elem_of_In, H, confirms_weak in Hin; [|done].
      congruence.
Qed.

Lemma contained_found text av :
  negb (weak av) && matched None text av = found_in text av.
Proof.
  unfold matched, found_in, contained. simpl. destruct (weak av); simpl; [done|].
  destruct (longArgLen <=? _); simpl; [|done]. destruct (String.eqb_spec (jsonEscaped (av_v av)) (av_v av)) as [->|]; simpl; [|done].
  by destruct (str_contains _ _).
Qed.

Lemma grade_positive parsed w n :
  grade parsed w = (evidencePositive, n) <->
  strongComparable w <> 0 /\ n = strongMatched w /\
  ((strongMatched w = strongComparable w /\ weakUnaccounted w = false) \/ (parsed = None /\ 0 < strongMatched w)).
Proof.
  unfold grade. destruct (Z.eqb_spec (strongComparable w) 0); [split; [done|tauto]|].
  destruct (Z.eqb_spec (strongMatched w) (strongComparable w)), (weakUnaccounted w), parsed as [vals|]; simpl;
    destruct (Z.ltb_spec 0 (strongMatched w)); simpl; try destruct (long w);
    (split; [intros [=]; subst; split_and!; auto; right; by split|]);
    intros (_ & -> & [[? ?]|[? ?]]); done || lia.
Qed.

Lemma strong_nonneg avs : 0 <= strong avs.
Proof. apply Zlen_nonneg. Qed.

Lemma grade_parsed vals text avs n :
  grade (Some vals) (weigh_values (Some vals) text avs) = (evidencePositive, n) <->
  Forall (confirms vals) avs /\ n = strong avs /\ 1 <= n.
Proof.
  rewrite grade_positive, <- (all_confirmed vals text). cbn zeta.
  destruct (weigh_values_spec (Some vals) text avs) as (-> & _ & _). pose proof (strong_nonneg avs). split.
  - intros (H1 & -> & [[H2 H3]|[? _]]); [|done]. split_and!; done || lia.
  - intros ([H1 H2] & -> & H3). split_and!; [lia|done|by left].
Qed.

Lemma grade_text text avs n :
  grade None (weigh_values None text avs) = (evidencePositive, n) <->
  n = Zlen (List.filter (found_in text) avs) /\ 1 <= n.
Proof.
  rewrite grade_positive. destruct (weigh_values_spec None text avs) as (-> & -> & Hu).
  rewrite (List.filter_ext _ _ (contained_found text)).
  assert (Zlen (List.filter (found_in text) avs) <= strong avs) as Hle.
  { rewrite <- (List.filter_ext _ _ (contained_found text)). unfold strong. generalize (matched None text). intros q.
    clear. induction avs as [|x l IH]; simpl; [lia|]. destruct (weak x), (q x); simpl; rewrite ?Zlen_cons; lia. }
  pose proof (Zlen_nonneg (List.filter (found_in text) avs)). split.
  - intros (H1 & -> & [[H2 _]|[_ H2]]); (split; [done|lia]).
  - intros [-> H1]. split_and!; [lia|done|right; split; [done|lia]].
Qed.

(** C33: when a tool call matches a record in full, in every case. The call has an input and the record
    says something. Where the record's arguments parse and the input is an object: some recorded value
    is long enough to confirm a call, every comparable value of the call is in the record, the short
    ones as they are and the long ones as they are or as Cursor ran them, and the strength is the
    number of the call's long ones, at least one. Where the input is no object, a parsed record never
    matches. Where the record is mere text there is no such agreement: of an object, the strength is
    the number of values of 32 bytes or more that the text contains, plain or escaped, at least one,
    and the other values are not looked at; of another input, the text contains it whole. *)
Theorem positive_is_agreement input t n :
  argsEvidence input t = (evidencePositive, n) <->
  input <> "" /\ silent (recorded t) = false /\
  match argValues (recorded t), Unmarshal_object input with
  | Some vals, Some m =>
      let avs := collectArgValues genericArgKeys (VObj m) in
      Exists (fun sv => weak sv = false) vals /\ Forall (confirms vals) avs /\ n = strong avs /\ 1 <= n
  | Some _, None => False
  | None, Some m =>
      let avs := collectArgValues genericArgKeys (VObj m) in
      n = Zlen (List.filter (found_in (stripCursorAttribution (recorded t))) avs) /\ 1 <= n
  | None, None => str_contains input (stripCursorAttribution (recorded t)) = true /\ n = 1
  end.
Proof.
  unfold argsEvidence. destruct (String.eqb_spec input "") as [->|Hne]; [split; [done|tauto]|].
  destruct (silent (recorded t)); [split; [done|by intros (_ & ? & _)]|].
  destruct (argValues (recorded t)) as [vals|]; simpl.
  - destruct (existsb (fun sv => negb (weak sv)) vals) eqn:Ee; simpl.
    + assert (Exists (fun sv => weak sv = false) vals) as Hex.
      { apply existsb_exists in Ee as (sv & Hi & Hw%negb_true_iff). apply Exists_exists. exists sv.
        split; [by apply list_elem_of_In|done]. }
      destruct (Unmarshal_object input) as [m|]; [|split; [done|tauto]]. rewrite grade_parsed. tauto.
    + split; [done|]. intros (_ & _ & H). destruct (Unmarshal_object input) as [m|]; [|done].
      destruct H as [(sv & Hi & Hw)%Exists_exists _]. apply not_true_iff_false in Ee. destruct Ee.
      apply existsb_exists. exists sv. split; [by apply list_elem_of_In|by rewrite Hw].
  - destruct (Unmarshal_object input) as [m|]; [rewrite grade_text; tauto|].
    destruct (str_contains input _) eqn:Ec; [|split; [done|by intros (_ & _ & ? & _)]].
    split; [by intros [= <-]|by intros (_ & _ & _ & ->)].
Qed.

Lemma weigh_matched parsed text avs : 0 <= strongMatched (weigh_values parsed text avs).
Proof.
  unfold weigh_values. induction avs as [|av avs IH] using rev_ind; [done|].
  rewrite foldl_app. simpl. unfold weigh_value at 1. repeat (case_goal; simpl; try lia).
Qed.

Lemma positive_strength input t n : argsEvidence input t = (evidencePositive, n) -> 1 <= n.
Proof.
  unfold argsEvidence. destruct (_ =? "")%string; [done|]. destruct (silent _); [done|].
  destruct (_ && _); [done|]. destruct (Unmarshal_object input) as [m|].
  - set (w := weigh_values _ _ _). pose proof (weigh_matched _ _ _ : 0 <= strongMatched w).
    unfold grade. destruct (_ =? 0) eqn:E0; [done|].
    destruct (_ && negb _) eqn:E1; [intros [= <-]; boolp; lia|].
    destruct (_ && (0 <? _)) eqn:E2; [intros [= <-]; boolp; lia|]. by repeat (case_goal; try done).
  - destruct (_ && _); [|done]. intros [= <-]. lia.
Qed.

Lemma weigh_strength blk role b n : weigh blk role b = (evidencePositive, n) -> 1 <= n.
Proof.
  unfold weigh. repeat (case_goal; try done); try (intros [= <-]; lia). apply positive_strength.
Qed.
End Evidence.

(** ** The block's bubble *)

Section Match.
Context {json : JoinJson}.
Variables (blk : block) (role : string).

(** A positive once seen is kept, or a stronger one is. *)
Lemma tally_keeps s c n :
  (exists x, bestPos s = Some x) -> n <= bestPosN s ->
  (exists x, bestPos (tally_bubble blk role s c) = Some x) /\ n <= bestPosN (tally_bubble blk role s c).
Proof.
  intros Hb Hn. unfold tally_bubble. destruct (weigh _ _ _) as [e m]. destruct e; simpl; try (by split);
    (match goal with |- context [if ?b then _ else _] => destruct b eqn:? | _ => idtac end); simpl; boolp;
    split; eauto; lia.
Qed.

Lemma forward_keeps l s n :
  (exists x, bestPos s = Some x) -> n <= bestPosN s ->
  let s' := foldl (forward_step blk role) s l in (exists x, bestPos s' = Some x) /\ n <= bestPosN s'.
Proof.
  revert s. induction l as [|c l IH]; intros s Hb Hn; simpl; [done|].
  unfold forward_step at 2 4. destruct (declined _); [by apply IH|].
  destruct (tally_keeps s c n Hb Hn). by apply IH.
Qed.

Lemma forward_sees l s c n :
  c ∈ l -> declined (c_state c) = false -> weigh blk role (c_bubble c) = (evidencePositive, n) ->
  (bestPos s = None -> bestPosN s = 0) ->
  let s' := foldl (forward_step blk role) s l in (exists x, bestPos s' = Some x) /\ n <= bestPosN s'.
Proof.
  intros Hc Hd Hw. revert s. induction l as [|x l IH]; intros s Hs; [by apply not_elem_of_nil in Hc|].
  apply elem_of_cons in Hc as [<-|Hc]; simpl.
  - assert (forward_step blk role s c = tally_bubble blk role s c) as -> by (unfold forward_step; by rewrite Hd).
    apply forward_keeps; unfold tally_bubble; rewrite Hw; destruct (bestPosN s <? n) eqn:E; simpl; boolp; eauto; try lia.
    destruct (bestPos s); [by eauto|]. pose proof (weigh_strength _ _ _ _ Hw). specialize (Hs eq_refl). lia.
  - apply IH; [done|]. unfold forward_step. destruct (declined (c_state x)); [done|].
    unfold tally_bubble. destruct (weigh blk role (c_bubble x)) as [e m]. destruct e; simpl;
      try match goal with |- context [if ?b then _ else _] => destruct b end; simpl; try done; by auto.
Qed.

(** When a bubble from the cursor on, within the window and not left undecided, agrees with a block
    in full, the block gets a bubble that agrees in full and at least as strongly. *)
Theorem full_agreement_wins events cursor state i b st n :
  events !! i = Some b -> state !! i = Some st -> declined st = false ->
  (cursor <= i < cursor + lookAhead)%nat -> weigh blk role b = (evidencePositive, n) ->
  exists idx m, matchBlock blk role events cursor state = matchFound idx evidencePositive m /\ n <= m.
Proof.
  intros Hb Hs Hd Hi Hw. unfold matchBlock. set (fwd := foldl (forward_step _ _) _ _).
  assert (mkCand i b st ∈ take lookAhead (drop cursor (bubbles_at events state))) as Hc.
  { apply list_elem_of_lookup. exists (i - cursor)%nat. rewrite lookup_take_lt, lookup_drop by lia.
    replace (cursor + (i - cursor))%nat with i by lia. unfold bubbles_at.
    by rewrite list_lookup_imap, lookup_zip_with, Hb, Hs. }
  destruct (forward_sees _ (scan_from 0) _ n Hc Hd Hw) as [[x Hx] Hn]; [done|].
  fold fwd in Hx, Hn. rewrite Hx. eauto.
Qed.

(** A consumed bubble that relates to the block just as it did to its consumer. *)
Definition testimony (events : list bubble) (state : list bubbleState) : Prop :=
  exists i b st, events !! i = Some b /\ state !! i = Some st /\ used st = true /\
    rank evidencePartial <= rank (ev st) /\ weigh blk role b = (ev st, ev_n st).

Lemma testifies_sound (P : Prop) c s :
  used (c_state c) = true ->
  (weigh blk role (c_bubble c) = (ev (c_state c), ev_n (c_state c)) ->
   rank evidencePartial <= rank (ev (c_state c)) -> is_tool blk = true -> P) ->
  (repeat s = true -> P) -> repeat (testifies blk role c s) = true -> P.
Proof.
  intros Hu Hc Hs. unfold testifies. destruct (_ && _) eqn:E; [|done].
  destruct (weigh _ _ _) as [e n]. destruct (_ && (n =? _)) eqn:E2; [|done]. boolp. subst.
  intros _. by apply Hc.
Qed.

Lemma behind_repeats events cursor state l s :
  Forall (fun c => events !! c_idx c = Some (c_bubble c) /\ state !! c_idx c = Some (c_state c)) l ->
  (repeat s = true -> is_tool blk = true /\ testimony events state) ->
  repeat (foldl (behind_step blk role cursor) s l) = true -> is_tool blk = true /\ testimony events state.
Proof.
  intros H. revert s. induction H as [|c l [Hb Hst] _ IH]; intros s Hs; simpl; [done|].
  apply IH. unfold behind_step. destruct (used _) eqn:Eu.
  - apply testifies_sound; [done| |done]. intros Hw Hr Ht. split; [done|].
    exists (c_idx c), (c_bubble c), (c_state c). done.
  - destruct (_ || _); [done|]. by destruct (_ && _).
Qed.

(** A block is called a repeat, or left undecided, only when it is a tool call and a bubble an
    earlier event consumed relates to it exactly as to its consumer, with no weak evidence. *)
Theorem repeat_has_original events cursor state :
  (matchBlock blk role events cursor state = matchRepeat \/
   exists i, matchBlock blk role events cursor state = matchAmbiguous i) ->
  is_tool blk = true /\ testimony events state.
Proof.
  unfold matchBlock. set (fwd := foldl (forward_step _ _) _ _).
  destruct (bestPos fwd); [by intros [|[? ?]]|].
  set (bhd := foldl (behind_step _ _ _) _ _). intros H.
  assert (repeat bhd = true) as Hr.
  { revert H. destruct (bestPos (b_scan bhd)); [by intros [|[? ?]]|]. unfold settle_block, found.
    destruct (repeat bhd); [done|]. destruct (ranked _ _) as [c|]; [|by intros [|[? ?]]].
    destruct (weigh _ _ _). by intros [|[? ?]]. }
  revert Hr. apply behind_repeats; [|done]. apply Forall_reverse, Forall_take, Forall_lookup.
  intros j c Hc. apply candidates_lookup in Hc as (-> & ? & ?). done.
Qed.
End Match.

(** ** The pass *)

Section Pass.
Context {json : JoinJson}.
Variable events : list bubble.

(** The derived text has one line for every line of the transcript that is not blank, in order,
    carrying it; beside a block stands nothing or what the store knew of a bubble the block does not
    contradict; and no bubble is attached to two blocks of the conversation. *)
Theorem bubbles_attached_once content :
  exists ls js, al_out (alignAndRender events content) = foldl writeLine "" ls /\
    lines_kept events (content_lines content) ls js /\ NoDup js.
Proof.
  destruct (align_walk_ok events content) as (ls & js & [_ _ _ Hd _] & Hk & Ho).
  exists ls, js. done.
Qed.

Definition filled (ls : list outLine) : Z := Zlen (omap id (concat (map Enrichment ls))).

Lemma slots_filled_count role blocks slots js :
  slots_of events role blocks slots js -> Zlen (omap id slots) = Zlen js.
Proof.
  induction 1 as [| |? ? ? ? ? ? ? ? ? IH]; [done|done|]. cbn [omap list_omap id]. rewrite !Zlen_cons, <- IH. done.
Qed.

Lemma lines_filled raws ls js : lines_kept events raws ls js -> filled ls = Zlen js.
Proof.
  unfold filled. induction 1 as [|raw raws l ls js js' Hl _ IH]; [done|]. simpl.
  rewrite omap_app, !Zlen_app, IH. f_equal. destruct Hl as [? |? ?|l0 slots js0 ? Hs]; [done|done|].
  by eapply slots_filled_count.
Qed.

Lemma split_count {A} (f : A -> bool) l :
  Zlen (List.filter (fun x => negb (f x)) l) + Zlen (List.filter f l) = Zlen l.
Proof. induction l as [|x l IH]; simpl; [done|]. destruct (f x); simpl; rewrite !Zlen_cons; lia. Qed.

(** Every block an event is expected for is accounted for: it is enriched in the derived text, or
    counted as a mismatch, as tail, as a repeat or as ambiguous, and as one of them only. *)
Theorem every_block_accounted content :
  let a := alignAndRender events content in
  exists ls, al_out a = foldl writeLine "" ls /\
    filled ls + mismatches a + tail_ a + repeats a + ambiguous a =
    Zsum (map (fun raw => Zlen (line_events raw)) (content_lines content)).
Proof.
  destruct (align_walk_ok events content) as (ls & js & [_ _ _ _ Hn] & Hk & Ho).
  exists ls. split; [done|]. rewrite (lines_filled _ _ _ Hk). simpl.
  pose proof (split_count (is_tail (align_walk events content)) (unmatched (align_walk events content))). lia.
Qed.
End Pass.

(** ** Stripping tags *)

Lemma str_take_length n s : (String.length (str_take n s) <= n)%nat.
Proof. revert s. induction n as [|n IH]; intros [|c s]; simpl; try lia. specialize (IH s). lia. Qed.

Lemma prefix_of_take p n s : has_prefix p (str_take n s) = true -> has_prefix p s = true.
Proof.
  revert p s. induction n as [|n IH]; intros [|a p] [|c s]; simpl; try done.
  intros [E H]%andb_true_iff. rewrite E. by apply IH.
Qed.

Lemma str_index_take p s i : p <> "" -> str_index p s = Some i -> str_index p (str_take i s) = None.
Proof.
  intros Hp. revert i. induction s as [|c s IH]; intros i; cbn [str_index].
  - destruct (has_prefix p "") eqn:E; [|done]. by destruct p.
  - destruct (has_prefix p (String c s)) eqn:E.
    + intros [= <-]. destruct p; [done|]. done.
    + destruct (str_index p s) as [j|] eqn:Ej; [|done]. intros [= <-]. cbn [str_take str_index].
      destruct (has_prefix p (String c (str_take j s))) eqn:E2.
      * apply (prefix_of_take p (S j) (String c s)) in E2. congruence.
      * by rewrite (IH j eq_refl).
Qed.

Lemma str_index_bound p s i : str_index p s = Some i -> (i + String.length p <= String.length s)%nat.
Proof.
  revert i. induction s as [|c s IH]; intros i; cbn [str_index]; destruct (has_prefix p _) eqn:E.
  - intros [= <-]. by apply has_prefix_length in E.
  - done.
  - intros [= <-]. by apply has_prefix_length in E.
  - destruct (str_index p s) as [j|]; [|done]. intros [= <-]. specialize (IH j eq_refl). simpl. lia.
Qed.

Definition opening (tag : string) : string := "<" +:+ tag +:+ ">".

Lemma string_length_app a b : String.length (a +:+ b) = (String.length a + String.length b)%nat.
Proof. pose proof (slen_app a b). unfold slen in *. lia. Qed.

Lemma strip_once_smaller tag s s' : strip_once tag s = Some (s', true) -> (String.length s' < String.length s)%nat.
Proof.
  unfold strip_once. destruct (str_index _ s) as [i|] eqn:Ei; [|done].
  destruct (str_index _ (str_drop i s)) as [j|] eqn:Ej; [|done]. intros [= <-].
  apply str_index_bound in Ei, Ej. rewrite length_str_drop in Ej.
  rewrite !string_length_app in Ei, Ej. simpl in Ei, Ej.
  destruct (tag =? "user_query")%string; rewrite ?string_length_app, ?length_str_drop; simpl String.length;
    repeat match goal with |- context [str_take ?n ?t] =>
      pose proof (str_take_length n t); generalize dependent (String.length (str_take n t)); intros end; lia.
Qed.

Lemma strip_once_last tag s s' : strip_once tag s = Some (s', false) -> str_index (opening tag) s' = None.
Proof.
  unfold strip_once. fold (opening tag). destruct (str_index _ s) as [i|] eqn:Ei; [|done].
  destruct (str_index _ (str_drop i s)); [done|]. intros [= <-]. by apply str_index_take.
Qed.

Lemma strip_loop_settles tag fuel s :
  (String.length s < fuel)%nat -> str_index (opening tag) (strip_loop fuel tag s) = None.
Proof.
  revert s. induction fuel as [|f IH]; intros s H; [lia|]. cbn [strip_loop].
  destruct (strip_once tag s) as [[s' [|]]|] eqn:E.
  - apply IH. apply strip_once_smaller in E. lia.
  - by apply strip_once_last in E.
  - revert E. unfold strip_once. fold (opening tag). destruct (str_index _ s); [|done].
    by destruct (str_index _ _).
Qed.

(** The stripping of a tag ends, within a round per byte of the text, with no opening tag left. *)
Theorem stripTag_settles s tag : str_index (opening tag) (stripTag s tag) = None.
Proof. apply strip_loop_settles. lia. Qed.

(** ** What ships *)

Section Ships.
Context {json : JoinJson}.
Variable read : string -> result string ReadResult.

(** The store's bubbles of a unit's conversation, as the pass aligns them: in the order the composer
    gives, or failing that by time and key, without the scaffolding. *)
Definition conversation_events (ix : indexed) (u : RawUnit) : list bubble :=
  let conv := conversationID (unit_NativePath u) in
  List.filter (fun b => negb (isScaffolding b))
    (orderBubbles (composers ix !! conv) (default ∅ (bubbles ix !! conv)) (default [] (order ix !! conv))).

(** An object carries the whole alignment of its unit with the events of its conversation in the rows
    read, none of the unit's blocks being unexplained. *)
Definition whole (rr : ReadResult) (u : RawUnit) (d : DerivedObject) : Prop :=
  let events := conversation_events (indexRows (Rows rr)) u in
  let a := alignAndRender events (Content u) in
    mismatches a = 0 /\ Payload d = al_out a /\ d_OutputHash d = Hash (al_out a) /\
    d_NativePath d = unit_NativePath u +:+ ".enriched.jsonl" /\ d_DerivedFrom d = [unit_SourceHash u] /\
    d_Status d = StatusOK /\ Mismatches d = 0 /\ Repeats d = repeats a /\ Tail d = tail_ a /\
    Ambiguous d = ambiguous a /\ LineDecodeErrors d = lineDecodeErrors a.

Lemma joinOne_whole u rr d note :
  joinOne u (conversationID (unit_NativePath u)) (indexRows (Rows rr)) rr = (d, note) ->
  d_Status d = StatusOK -> whole rr u d.
Proof.
  unfold joinOne, whole, conversation_events. destruct (_ =? 0)%nat; [by intros [= <- <-]|].
  destruct (orderBubbles _ _ _) as [|b0 bs]; [by intros [= <- <-]|].
  set (events := List.filter _ _). destruct (0 <? _) eqn:Em; [by intros [= <- <-]|].
  intros [= <- <-] _. boolp. split_and!; try done.
  assert (0 <= mismatches (alignAndRender events (Content u))) by apply Zlen_nonneg. lia.
Qed.

Definition counted_units (r : EnrichResult) : Z :=
  Zlen (er_Objects r) + er_Skipped r + Mismatched r + Errors r.

Lemma enrich_unit_ok rr r u :
  let r' := enrich_unit (indexRows (Rows rr)) rr r u in
  counted_units r' = counted_units r + 1 /\
  (er_Objects r' = er_Objects r \/ exists d, er_Objects r' = er_Objects r ++ [d] /\ whole rr u d).
Proof.
  cbn zeta. unfold enrich_unit, counted_units. destruct (_ =? "")%string; [simpl; split; [lia|by left]|].
  destruct (joinOne _ _ _ _) as [d note] eqn:Ej. pose proof (joinOne_whole _ _ _ _ Ej) as Hw.
  unfold count_status. destruct (d_Status d), (note =? "")%string, (0 <? LineDecodeErrors d); simpl;
    (split; [rewrite ?Zlen_app, ?Zlen_cons, ?Zlen_nil; lia|first [by left|right; eauto]]).
Qed.

(** C32: every unit is accounted for, as an object, as skipped, as mismatched or as an error; and every
    object is the whole alignment of one of the units with the store's bubbles of that unit's own
    conversation, in which nothing went unexplained. *)
Theorem ships_whole_or_not i :
  let r := cursor_Enrich read i in
  Forall (fun d => exists rr u, read (in_DBPath i) = Ok rr /\ u ∈ Units i /\ whole rr u d) (er_Objects r) /\
  counted_units r = Zlen (Units i).
Proof.
  unfold cursor_Enrich, counted_units.
  destruct (_ =? "")%string; [split; [done|unfold Zlen; simpl; lia]|].
  destruct (read _) as [rr|e]; [|split; [done|unfold Zlen; simpl; lia]].
  set (notes := _ ++ _). generalize (Units i) as us.
  intros us. induction us as [|u us IH] using rev_ind; [by split|].
  rewrite foldl_app. cbn [foldl]. destruct IH as [Ho Hc].
  set (r := foldl (enrich_unit (indexRows (Rows rr)) rr) (mkEnrichResult [] 0 0 0 notes []) us) in *.
  destruct (enrich_unit_ok rr r u) as [E1 E2].
  unfold counted_units in E1. split; [|pose proof (Zlen_app us [u]) as Ha; change (Zlen [u]) with 1 in Ha; lia].
  assert (Hm : Forall (fun d => exists rr' v, @Ok string ReadResult rr = Ok rr' /\ v ∈ us ++ [u] /\ whole rr' v d) (er_Objects r)).
  { eapply Forall_impl; [exact Ho|]. intros d (rr' & v & Hr & Hv & Hd). exists rr', v. split; [done|].
    split; [set_solver|done]. }
  destruct E2 as [-> |(d & -> & Hd)]; [done|]. apply Forall_app. split; [done|]. repeat constructor.
  exists rr, u. split; [done|]. split; [set_solver|done].
Qed.
End Ships.

(** ** A conversation *)

Module SampleJoin.

Definition command : string := "go test ./internal/transforms/...".
Definition call : string := "call".
Definition record : string := "record".
Definition lost : string := "lost".

(** The call's input, the store's record of it and a record of another call. *)
Definition any (s : string) : option any_value :=
  if (s =? call)%string then Some (VObj [("description", VStr "run the tests"); ("command", VStr command)])
  else if (s =? record)%string
  then Some (VObj [("cwd", VStr "/home/carol"); ("command", VStr command); ("timeout", VNum "30")])
  else if (s =? lost)%string then Some (VObj [("command", VStr "git status --short")])
  else None.

Definition tool_block (input : string) : block := mkBlock "tool_use" "" "Shell" input.
Definition lines (s : string) : option line :=
  if (s =? "ask")%string then Some (mkLine "user" (Some [mkBlock "text" "run the tests" "" ""]))
  else if (s =? "act")%string
  then Some (mkLine "assistant" (Some [mkBlock "text" "[REDACTED]" "" ""; tool_block call]))
  else if (s =? "other")%string then Some (mkLine "assistant" (Some [tool_block lost]))
  else None.

#[local] Instance sample : JoinJson := {|
  join_any := any;
  Unmarshal_line := lines;
  Unmarshal_composer := fun _ => Some (mkComposer ["b1"; "b2"] []);
  Unmarshal_bubble := fun s =>
    Some (if (s =? "said")%string
          then mkBubble "" 1 "run the tests" "" "" false "" false None None "" 0 "" None
          else mkBubble "" 2 "" "" "" false "15" false None
                 (Some (mkTool "call-1" "run_terminal_command_v2" "" "done" record "" "ok <1s>")) "" 0 "" None)
|}.

Definition said : bubble := mkBubble "b1" 1 "run the tests" "" "" false "" false None None "" 0 "" None.
Definition ran : toolFormerData := mkTool "call-1" "run_terminal_command_v2" "" "done" record "" "ok <1s>".
Definition acted : bubble := mkBubble "b2" 2 "" "" "" false "15" false None (Some ran) "" 0 "" None.

Definition call_args : list (string * any_value) :=
  [("description", VStr "run the tests"); ("command", VStr command)].

Example full_match : argsEvidence call ran = (evidencePositive, 1).
Proof. by vm_compute. Qed.

(** A record that is mere text matches on its long values alone: the other path is nowhere in it. *)
Definition elsewhere : string := "elsewhere".
Example text_matches_in_part :
  argsEvidence (json := fun s => if (s =? elsewhere)%string
    then Some (VObj [("command", VStr command); ("path", VStr "/home/carol/other")]) else None)
    elsewhere (mkTool "" "" "" "" ("ran: " +:+ command) "" "") = (evidencePositive, 1).
Proof. by vm_compute. Qed.

Lemma full_agreement_wins_witness :
  exists idx m, matchBlock (tool_block call) "assistant" [said; acted] 1 [fresh_state; fresh_state] =
    matchFound idx evidencePositive m /\ 1 <= m.
Proof.
  apply (full_agreement_wins (tool_block call) "assistant" _ _ _ 1 acted fresh_state);
    [done|done|done|unfold lookAhead; lia|vm_compute; reflexivity].
Defined.

Definition consumed : bubbleState := mkBubbleState true false evidencePositive 1.

Lemma repeat_has_original_witness :
  is_tool (tool_block call) = true /\ testimony (tool_block call) "assistant" [said; acted] [fresh_state; consumed].
Proof. apply (repeat_has_original _ _ _ 2). left. by vm_compute. Defined.

(** The store's result reaches the derived text; a call the store lacks withholds the object. *)
Definition rows : list Row :=
  [mkRow "bubbleId:conv:b1" "said"; mkRow "bubbleId:conv:b2" "acted"; mkRow "composerData:conv" ""].
Definition read (path : string) : result string ReadResult := Ok (mkRead rows "snapshot" false).
Definition enriched (content : string) : EnrichResult :=
  cursor_Enrich read (mkInput [mkRawUnit "/t/conv.jsonl" content "hash"] "state.vscdb" "").

Example whole_conversation :
  let r := enriched ("ask" +:+ lf +:+ "act" +:+ lf) in
  map Repeats (er_Objects r) = [0] /\ Mismatched r = 0 /\
  map (fun d => str_contains ("result" +:+ dquote +:+ ":" +:+ plain_quote "ok <1s>") (Payload d)) (er_Objects r) = [true].
Proof. by vm_compute. Qed.

Example unexplained_conversation :
  let r := enriched ("ask" +:+ lf +:+ "other" +:+ lf +:+ "act" +:+ lf) in
  er_Objects r = [] /\ Mismatched r = 1.
Proof. by vm_compute. Qed.

End SampleJoin.
