(* ===== verification/Pii.v ===== *)
(** The rules that need no keyword: [src/internal/transforms/packs/pii.go] (the fused walk over PESEL,
    IBAN and card numbers), [handscan.go] (the e-mail scanner) and [checksum.go]; and the patterns of
    [data/pii-core.json] they stand for, which are the reference. Go's [int] is wide enough for every
    number here: a sum of nineteen digits, a remainder below 97. *)

From S2P Require Import Prelude GoLib GoText Heuristic Spans.

(** The reference the hand-written scanners are held to: a pattern as a tree, matched the way Go's
    [regexp] documents it, leftmost and by the preference of the pattern (a repetition takes as much as
    it can, an option is taken when it can be), and [FindAll] over a text. The patterns stated here are
    ASCII, so they are matched byte by byte. *)

(** [\w], and the whole of what [\b] looks at. *)
Definition word_byte (c : ascii) : bool := is_digit c || is_upper c || is_lower c || (c =? "_")%char.

Inductive re :=
  | Cls (p : ascii -> bool)
  | Cat (a b : re)
  | Opt (a : re)
  | Rep (lo : nat) (hi : option nat) (a : re)
  | Edge.

Definition or_else {A} (a : option A) (b : option A) : option A := match a with Some _ => a | None => b end.

Section Match.
Variable v : string.

Definition byte_is (p : ascii -> bool) (i : nat) : bool :=
  match String.get i v with Some c => p c | None => false end.
Definition word_before (i : nat) : bool := match i with O => false | S j => byte_is word_byte j end.
Definition boundary (i : nat) : bool := xorb (word_before i) (byte_is word_byte i).

(** A repetition of [step]: once more first, and stop when that fails. *)
Section Rep.
Variable step : nat -> (nat -> option nat) -> option nat.
Fixpoint rep (lo hi : nat) (i : nat) (k : nat -> option nat) : option nat :=
  match hi with
  | O => if (lo =? 0)%nat then k i else None
  | S hi' => or_else (step i (fun j => rep (pred lo) hi' j k)) (if (lo =? 0)%nat then k i else None)
  end.
End Rep.

(** [run r i k]: a match of [r] from [i] after which [k] succeeds, the preferred one. A repetition
    without an upper bound takes at most as many as there are bytes. *)
Fixpoint run (r : re) (i : nat) (k : nat -> option nat) : option nat :=
  match r with
  | Cls p => if byte_is p i then k (S i) else None
  | Cat a b => run a i (fun j => run b j k)
  | Opt a => or_else (run a i k) (k i)
  | Rep lo hi a => rep (run a) lo (default (String.length v) hi) i k
  | Edge => if boundary i then k i else None
  end.

Lemma run_Cat a b i k : run (Cat a b) i k = run a i (fun j => run b j k).
Proof. reflexivity. Qed.
Lemma run_Rep lo hi a i k : run (Rep lo hi a) i k = rep (run a) lo (default (String.length v) hi) i k.
Proof. reflexivity. Qed.
Lemma run_Edge i k : run Edge i k = if boundary i then k i else None.
Proof. reflexivity. Qed.
Lemma run_Cls p i k : run (Cls p) i k = if byte_is p i then k (S i) else None.
Proof. reflexivity. Qed.

(** The end of the match that starts at [i]. *)
Definition match_at (r : re) (i : nat) : option nat := run r i Some.

(** [FindAll]: every position in turn from the end of the last match. A match of the patterns below is
    never empty. *)
Definition find_step (at_ : nat -> option nat) (st : nat * list (nat * nat)) (i : nat) : nat * list (nat * nat) :=
  if (i <? st.1)%nat then st
  else match at_ i with Some e => (e, st.2 ++ [(i, e)]) | None => st end.
Definition find_from (at_ : nat -> option nat) (positions : list nat) (st : nat * list (nat * nat))
    : nat * list (nat * nat) := foldl (find_step at_) st positions.
Definition FindAll (r : re) : list (nat * nat) :=
  (find_from (match_at r) (seq 0 (S (String.length v))) (0%nat, [])).2.

(** ** A repetition of one byte class *)

(** How many bytes from [i] on are in the class, [fuel] at most. *)
Fixpoint count_from (p : ascii -> bool) (fuel i : nat) : nat :=
  match fuel with
  | O => O
  | S f => if byte_is p i then S (count_from p f (S i)) else O
  end.

(** [k] after [n] bytes, else after one fewer, down to [lo]. *)
Fixpoint down (k : nat -> option nat) (i n lo : nat) : option nat :=
  if (n <? lo)%nat then None
  else match n with
       | O => k i
       | S m => or_else (k (i + n)%nat) (down k i m lo)
       end.

Lemma down_step k i n lo :
  down k i (S n) lo = if (S n <? lo)%nat then None else or_else (k (i + S n)%nat) (down k i n lo).
Proof. reflexivity. Qed.

Lemma down_S k i n lo :
  down k i (S n) lo = or_else (down k (S i) n (pred lo)) (if (lo =? 0)%nat then k i else None).
Proof.
  revert lo. induction n as [|n IH]; intros lo.
  - destruct lo as [|[|lo]]; simpl; rewrite ?Nat.add_1_r; [done| |done]. by destruct (k (S i)).
  - rewrite down_step, IH, (down_step k (S i)). replace (i + S (S n))%nat with (S i + S n)%nat by lia.
    destruct (Nat.ltb_spec (S (S n)) lo), (Nat.ltb_spec (S n) (pred lo)); try lia.
    { destruct (Nat.eqb_spec lo 0); [lia|done]. }
    by destruct (k (S i + S n)%nat).
Qed.

Lemma rep_class p hi lo i k :
  (lo <= hi)%nat -> rep (run (Cls p)) lo hi i k = down k i (count_from p hi i) lo.
Proof.
  revert lo i. induction hi as [|h IH]; intros lo i H.
  - assert (lo = 0)%nat as -> by lia. done.
  - cbn [rep run count_from]. destruct (byte_is p i) eqn:E.
    + rewrite IH by lia. by rewrite down_S.
    + simpl. by destruct lo.
Qed.

Lemma count_from_le p fuel i : (count_from p fuel i <= fuel)%nat.
Proof. revert i. induction fuel as [|f IH]; intros i; simpl; [lia|]. destruct (byte_is p i); [|lia]. specialize (IH (S i)). lia. Qed.

Lemma count_from_in p fuel i j : (i <= j < i + count_from p fuel i)%nat -> byte_is p j = true.
Proof.
  revert i. induction fuel as [|f IH]; intros i; simpl; [lia|]. destruct (byte_is p i) eqn:E; [|lia].
  intros H. destruct (decide (j = i)) as [->|]; [done|]. apply (IH (S i)). lia.
Qed.

Lemma count_from_stop p fuel i : (count_from p fuel i < fuel)%nat -> byte_is p (i + count_from p fuel i) = false.
Proof.
  revert i. induction fuel as [|f IH]; intros i; simpl; [lia|]. destruct (byte_is p i) eqn:E.
  - intros H. replace (i + S (count_from p f (S i)))%nat with (S i + count_from p f (S i))%nat by lia. apply IH. lia.
  - intros _. by rewrite Nat.add_0_r.
Qed.

(** The count is the only one there is. *)
Lemma count_from_is p fuel i n :
  (n <= fuel)%nat -> (forall j, (i <= j < i + n)%nat -> byte_is p j = true) ->
  (n < fuel -> byte_is p (i + n) = false)%nat -> count_from p fuel i = n.
Proof.
  revert i n. induction fuel as [|f IH]; intros i n Hn Hin Hout; simpl; [lia|].
  destruct n as [|n].
  - rewrite Nat.add_0_r in Hout. by rewrite Hout by lia.
  - rewrite (Hin i) by lia. f_equal. apply IH; [lia| |].
    + intros j Hj. apply Hin. lia.
    + intros Hf. replace (S i + n)%nat with (i + S n)%nat by lia. apply Hout. lia.
Qed.

Lemma byte_is_lt p i : byte_is p i = true -> (i < String.length v)%nat.
Proof.
  unfold byte_is. destruct (String.get i v) as [c|] eqn:E; [|done]. intros _.
  revert i E. induction v as [|d s IH]; intros [|i]; simpl; try done; [lia|]. intros E. specialize (IH i E). lia.
Qed.

(** ** [FindAll] piecewise *)

Lemma find_from_app at_ l1 l2 st : find_from at_ (l1 ++ l2) st = find_from at_ l2 (find_from at_ l1 st).
Proof. apply foldl_app. Qed.

Lemma find_from_none at_ l st : Forall (fun i => at_ i = None) l -> find_from at_ l st = st.
Proof.
  intros H. revert st. induction H as [|i l Hi _ IH]; intros st; [done|]. cbn [find_from foldl].
  unfold find_step at 2. rewrite Hi. destruct (_ <? _)%nat; apply IH.
Qed.

Lemma find_from_before at_ l cur out : Forall (fun i => i < cur)%nat l -> find_from at_ l (cur, out) = (cur, out).
Proof.
  intros H. induction H as [|i l Hi _ IH]; [done|]. cbn [find_from foldl]. unfold find_step at 2. simpl.
  apply Nat.ltb_lt in Hi. by rewrite Hi.
Qed.

(** ** Where a match can end *)

(** Whether a pattern takes at least one byte. *)
Fixpoint consumes (r : re) : bool :=
  match r with
  | Cls _ => true
  | Cat a b => consumes a || consumes b
  | Opt _ | Edge => false
  | Rep lo _ a => (1 <=? lo)%nat && consumes a
  end.

Definition reaches (c : bool) (i : nat) (k : nat -> option nat) (x : nat) : Prop :=
  exists j, (i <= j)%nat /\ (c = true -> i < j)%nat /\ (j = i \/ j <= String.length v)%nat /\ k j = Some x.

Lemma or_else_Some {A} (a b : option A) x : or_else a b = Some x -> a = Some x \/ b = Some x.
Proof. destruct a; simpl; auto. Qed.

Lemma run_reaches r i k x : run r i k = Some x -> reaches (consumes r) i k x.
Proof.
  revert i k. induction r as [p|a IHa b IHb|a IHa|lo hi a IHa|]; intros i k; cbn [run consumes].
  - destruct (byte_is p i) eqn:E; [|done]. intros H. apply byte_is_lt in E. exists (S i). split_and!; lia || done.
  - intros (j & H1 & H2 & H3 & Hj)%IHa. apply IHb in Hj as (l & G1 & G2 & G3 & Hl). exists l.
    split_and!; [lia| |lia|done]. intros [Hc|Hc]%orb_true_iff; [specialize (H2 Hc)|specialize (G2 Hc)]; lia.
  - intros [(j & H1 & _ & H3 & Hj)%IHa|H]%or_else_Some; [by exists j|]. exists i. split_and!; done || by left.
  - generalize (default (String.length v) hi) as h. clear hi. intros h. revert lo i.
    induction h as [|h IH]; intros lo i; cbn [rep].
    { destruct (Nat.eqb_spec lo 0) as [->|]; [|done]. intros H. exists i. split_and!; done || by left. }
    intros [(j & H1 & H2 & H3 & Hj)%IHa|H]%or_else_Some.
    + apply IH in Hj as (l & G1 & G2 & G3 & Hl). exists l. split_and!; [lia| |lia|done].
      intros [_ Hc]%andb_true_iff. specialize (H2 Hc). lia.
    + destruct (Nat.eqb_spec lo 0) as [->|]; [|done]. exists i. split_and!; done || by left.
  - destruct (boundary i); [|done]. intros H. exists i. split_and!; done || by left.
Qed.

Lemma match_at_in r i e : consumes r = true -> match_at r i = Some e -> (i < e <= String.length v)%nat.
Proof. intros Hc (j & H1 & H2 & H3 & [= <-])%run_reaches. specialize (H2 Hc). lia. Qed.

Lemma FindAll_in r : consumes r = true ->
  Forall (fun p => (p.1 < p.2)%nat /\ (p.2 <= String.length v)%nat) (FindAll r).
Proof.
  intros Hc. unfold FindAll. generalize (seq 0 (S (String.length v))) as l.
  assert (H : forall l st, Forall (fun p => (p.1 < p.2)%nat /\ (p.2 <= String.length v)%nat) st.2 ->
    Forall (fun p => (p.1 < p.2)%nat /\ (p.2 <= String.length v)%nat) (find_from (match_at r) l st).2).
  { induction l as [|i l IH]; intros st Hst; [done|]. cbn [find_from foldl]. apply IH. unfold find_step.
    destruct (_ <? _)%nat; [done|]. destruct (match_at r i) as [e|] eqn:E; [|done]. cbn [snd].
    apply Forall_app. split; [done|]. repeat constructor; apply (match_at_in r i e Hc E). }
  intros l. by apply H.
Qed.
End Match.

(** A candidate: its range, no rule named yet. *)
Definition candidate (start end_ : nat) : Span := mkSpan start end_ "".

(** ** The byte classes, one bit each *)

Definition piiWord : Z := 1.
Definition piiDigit : Z := 2.
Definition piiUpper : Z := 4.
Definition piiAlpha : Z := 8.

Definition piiClass (c : ascii) : Z :=
  if is_digit c then Z.lor (Z.lor piiWord piiDigit) piiUpper
  else if is_upper c then Z.lor (Z.lor piiWord piiUpper) piiAlpha
  else if is_lower c || (c =? "_")%char then piiWord
  else 0.
Definition has (cl bit : Z) : bool := negb (Z.land cl bit =? 0).
Definition isWordByte (c : ascii) : bool := has (piiClass c) piiWord.

Definition panMaxDigits : nat := 19.
Definition panMinReps : nat := 12.

Inductive fusedKind := fusedNone | fusedPESEL | fusedIBAN | fusedCardPAN.

Section Value.
Variable value : string.

(** The classes of a byte, none past the end. *)
Definition class_at (i : nat) : Z := match String.get i value with Some c => piiClass c | None => 0 end.
Definition in_value (i : nat) : bool := (i <? String.length value)%nat.

(** ** The card number from a digit *)

(** The digits that follow, each straight after or behind one separator; [room] more fit. *)
Fixpoint chain_from (room p : nat) : list nat :=
  match room with
  | O => []
  | S room =>
      p :: (if in_value (p + 1) && has (class_at (p + 1)) piiDigit then chain_from room (p + 1)
            else if in_value (p + 2) && byte_is value (fun c => (c =? " ")%char || (c =? "-")%char) (p + 1) &&
                    has (class_at (p + 2)) piiDigit
            then chain_from room (p + 2) else [])
  end.

(** The longest chain whose last digit ends a word, [reps] at most and [least] at least. *)
Fixpoint chain_end (least : nat) (chain : list nat) (reps : nat) : option nat :=
  if (reps <? least)%nat then None
  else match chain !! reps with
       | None => None
       | Some p =>
           let e := (p + 1)%nat in
           if in_value e && has (class_at e) piiWord
           then match reps with O => None | S reps => chain_end least chain reps end
           else Some e
       end.

Definition scanCardPANFrom (start : nat) : option nat :=
  let chain := chain_from panMaxDigits start in
  chain_end panMinReps chain (pred (length chain)).

(** ** The walk *)

(** The end of the run of word bytes, and the classes all of its bytes have. *)
Fixpoint run_end (fuel i : nat) (acc : Z) : nat * Z :=
  match fuel with
  | O => (i, acc)
  | S f => if in_value i && has (class_at i) piiWord then run_end f (S i) (Z.land acc (class_at i)) else (i, acc)
  end.

Record found_pii := mkFoundPii { pesel : list Span; iban : list Span; pan : list Span; panCursor : nat }.

Definition is_pesel (acc : Z) (n : nat) : bool := has acc piiDigit && (n =? 11)%nat.
Definition is_iban (acc first : Z) (start n : nat) : bool :=
  has acc piiUpper && (15 <=? n)%nat && (n <=? 34)%nat && has first piiAlpha &&
  has (class_at (start + 1)) piiAlpha && has (class_at (start + 2)) piiDigit &&
  has (class_at (start + 3)) piiDigit.

(** One run of word bytes. *)
Definition walk_run (start end_ : nat) (first acc : Z) (f : found_pii) : found_pii :=
  let n := (end_ - start)%nat in
  let f := if is_pesel acc n then mkFoundPii (pesel f ++ [candidate start end_]) (iban f) (pan f) (panCursor f) else f in
  let f := if is_iban acc first start n
           then mkFoundPii (pesel f) (iban f ++ [candidate start end_]) (pan f) (panCursor f) else f in
  if has first piiDigit && (panCursor f <=? start)%nat then
    match scanCardPANFrom start with
    | Some e => mkFoundPii (pesel f) (iban f) (pan f ++ [candidate start e]) e
    | None => f
    end
  else f.

(** The fuel is the value's length: every round moves on. *)
Fixpoint walk_from (fuel i : nat) (f : found_pii) : found_pii :=
  match fuel with
  | O => f
  | S fuel =>
      if in_value i then
        let first := class_at i in
        if has first piiWord then
          let '(e, acc) := run_end (String.length value) (S i) first in
          walk_from fuel e (walk_run i e first acc f)
        else walk_from fuel (S i) f
      else f
  end.
Definition walk_pii : found_pii := walk_from (S (String.length value)) 0 (mkFoundPii [] [] [] 0).
End Value.

(** ** The scan an engine shares between rules *)

Record ValueScan := mkValueScan { vs_value : string; done : bool; vs_found : found_pii }.
Definition no_pii : found_pii := mkFoundPii [] [] [] 0.
Definition Reset (value : string) (c : ValueScan) : ValueScan := mkValueScan value false (vs_found c).

(** The list of a kind; a kind without one panics. *)
Definition kind_list (kind : fusedKind) (f : found_pii) : option (list Span) :=
  match kind with
  | fusedPESEL => Some (pesel f)
  | fusedIBAN => Some (iban f)
  | fusedCardPAN => Some (pan f)
  | fusedNone => None
  end.

(** [candidates]: the lists are walked for on the first ask. *)
Definition scan_candidates (kind : fusedKind) (c : ValueScan) : ValueScan * option (list Span) :=
  let c := if done c then c else mkValueScan (vs_value c) true (walk_pii (vs_value c)) in
  (c, kind_list kind (vs_found c)).

(** What a list holds after [checked] filtered it in place: the survivors, then the old elements. *)
Definition overwritten (found survivors : list Span) : list Span :=
  survivors ++ drop (length survivors) found.
Definition refill (kind : fusedKind) (survivors : list Span) (f : found_pii) : found_pii :=
  match kind with
  | fusedPESEL => mkFoundPii (overwritten (pesel f) survivors) (iban f) (pan f) (panCursor f)
  | fusedIBAN => mkFoundPii (pesel f) (overwritten (iban f) survivors) (pan f) (panCursor f)
  | fusedCardPAN => mkFoundPii (pesel f) (iban f) (overwritten (pan f) survivors) (panCursor f)
  | fusedNone => f
  end.

(** ** handscan.go: e-mail addresses *)

Definition clsLocal : Z := 1.
Definition clsDomain : Z := 2.
Definition clsWord : Z := 4.
Definition clsAlpha : Z := 8.

Definition emailClass (c : ascii) : Z :=
  if is_upper c || is_lower c then Z.lor (Z.lor (Z.lor clsLocal clsDomain) clsWord) clsAlpha
  else if is_digit c then Z.lor (Z.lor clsLocal clsDomain) clsWord
  else if (c =? ".")%char || (c =? "-")%char then Z.lor clsLocal clsDomain
  else if (c =? "_")%char then Z.lor clsLocal clsWord
  else if (c =? "%")%char || (c =? "+")%char then clsLocal
  else 0.

Section Email.
Variable value : string.

Definition cls (i bit : nat) : bool :=
  match String.get i value with Some c => has (emailClass c) (Z.of_nat bit) | None => false end.
Definition local_at (i : nat) : bool := cls i 1.
Definition domain_at (i : nat) : bool := cls i 2.
Definition word_at (i : nat) : bool := cls i 4.
Definition alpha_at (i : nat) : bool := cls i 8.

(** [strings.IndexByte] of the sign, from a position. *)
Fixpoint sign_from (fuel at_ : nat) : option nat :=
  match fuel with
  | O => None
  | S f => match String.get at_ value with
           | None => None
           | Some c => if (c =? "@")%char then Some at_ else sign_from f (S at_)
           end
  end.

(** Back over the local part, not past [from]. *)
Fixpoint local_start (from p : nat) : nat :=
  match p with
  | O => O
  | S q => if (from <? p)%nat && local_at q then local_start from q else p
  end.

(** The first position of [[i, i + n)] with a word boundary. *)
Fixpoint first_boundary (n i : nat) : option nat :=
  match n with
  | O => None
  | S n =>
      let prevWord := match i with O => false | S j => word_at j end in
      if negb (Bool.eqb prevWord (word_at i)) then Some i else first_boundary n (S i)
  end.

Fixpoint while_at (p : nat -> bool) (fuel i : nat) : nat :=
  match fuel with
  | O => i
  | S f => if p i then while_at p f (S i) else i
  end.

(** The last usable dot left of [n + 1] and right of [lo]: the end of the letters behind it. *)
Fixpoint domain_end (hi lo dot : nat) : option nat :=
  match dot with
  | O => None
  | S d =>
      if (dot <=? lo)%nat then None
      else if negb (byte_is value (fun c => (c =? ".")%char) dot) then domain_end hi lo d
      else
        let tld := while_at alpha_at (hi - S dot) (S dot) in
        if (tld - dot - 1 <? 2)%nat then domain_end hi lo d
        else if word_at tld then domain_end hi lo d
        else Some tld
  end.

(** One sign: the address around it, if there is one. *)
Definition address_at (from sign : nat) : option (nat * nat) :=
  let p := local_start from sign in
  match first_boundary (sign - p) p with
  | None => None
  | Some start =>
      let lo := S sign in
      let hi := while_at domain_at (String.length value) lo in
      match domain_end hi lo (hi - 1) with
      | None => None
      | Some e => Some (start, e)
      end
  end.

(** [from] is where the next match may start, [at_] where the next sign is looked for. *)
Fixpoint scan_email (fuel from at_ : nat) : list Span :=
  match fuel with
  | O => []
  | S f =>
      match sign_from (String.length value) at_ with
      | None => []
      | Some sign =>
          match address_at from sign with
          | None => scan_email f from (S sign)
          | Some (start, e) => candidate start e :: scan_email f e e
          end
      end
  end.
Definition scanEmail : list Span := scan_email (S (String.length value)) 0 0.
End Email.

(** ** checksum.go *)

Definition digitsOnly (s : string) : string :=
  string_of_list_ascii (List.filter is_digit (list_ascii_of_string s)).
Definition digit_value (c : ascii) : Z := byte_code c - 48.
Definition digit_at (d : string) (i : nat) : Z :=
  match String.get i d with Some c => digit_value c | None => 0 end.

(** From the last digit to the first, every second one doubled. *)
Fixpoint luhn_sum (double : bool) (rev_digits : list ascii) : Z :=
  match rev_digits with
  | [] => 0
  | c :: t =>
      let n := digit_value c in
      let n := if double then if 9 <? 2 * n then 2 * n - 9 else 2 * n else n in
      n + luhn_sum (negb double) t
  end.
Definition luhnValid (d : string) : bool := luhn_sum false (rev (list_ascii_of_string d)) mod 10 =? 0.

(** The lengths of the groups, [None] when two separators differ; [sep] is the one seen, a zero byte
    before the first. *)
Fixpoint card_groups (sep : ascii) (count : nat) (s : list ascii) : option (list nat) :=
  match s with
  | [] => Some [count]
  | c :: t =>
      if is_digit c then card_groups sep (S count) t
      else if (sep =? zero)%char then cons count <$> card_groups c 0 t
      else if (c =? sep)%char then cons count <$> card_groups sep 0 t
      else None
  end.

Definition groupingIsCardShaped (groups : list nat) : bool :=
  bool_decide (groups = [4; 4; 4; 4]%nat) || bool_decide (groups = [4; 6; 5]%nat) ||
  bool_decide (groups = [4; 4; 4; 4; 3]%nat).

Definition pan_length (n : nat) : bool := existsb (Nat.eqb n) [13; 14; 15; 16; 19]%nat.
Definition issuer_range (d : string) : bool :=
  let d0 := digit_at d 0 in
  if (d0 =? 4) || (d0 =? 5) || (d0 =? 6) then true
  else if d0 =? 3 then existsb (Z.eqb (digit_at d 1)) [0; 4; 6; 7; 8]
  else if d0 =? 2 then
    let iin := d0 * 1000 + digit_at d 1 * 100 + digit_at d 2 * 10 + digit_at d 3 in
    (2221 <=? iin) && (iin <=? 2720)
  else false.

Definition panValid (s : string) : bool :=
  match card_groups zero 0 (list_ascii_of_string s) with
  | None => false
  | Some groups =>
      if (1 <? length groups)%nat && negb (groupingIsCardShaped groups) then false
      else
        let d := digitsOnly s in
        pan_length (String.length d) && issuer_range d && luhnValid d
  end.

Definition pesel_weights : list Z := [1; 3; 7; 9; 1; 3; 7; 9; 1; 3].
Definition pesel_sum (d : string) : Z := Zsum (imap (fun i w => w * digit_at d i) pesel_weights).
Definition pesel_month (month : Z) : bool :=
  (1 <=? month) && (month <=? 12) || (21 <=? month) && (month <=? 32) || (41 <=? month) && (month <=? 52) ||
  (61 <=? month) && (month <=? 72) || (81 <=? month) && (month <=? 92).

Definition peselValid (s : string) : bool :=
  let d := digitsOnly s in
  (String.length d =? 11)%nat &&
  ((10 - pesel_sum d mod 10) mod 10 =? digit_at d 10) &&
  pesel_month (digit_at d 2 * 10 + digit_at d 3).

(** The remainder of the number read so far; [None] on a byte that is neither digit nor letter. *)
Definition iban_step (rem : option Z) (c : ascii) : option Z :=
  match rem with
  | None => None
  | Some rem =>
      if is_digit c then Some ((rem * 10 + digit_value c) mod 97)
      else if is_upper c then Some ((rem * 100 + (byte_code c - 65) + 10) mod 97)
      else None
  end.

(** [strings.ToUpper] is applied to what the IBAN pattern matched, which is ASCII. *)
Definition ibanValid (s : string) : bool :=
  let v := str_map to_upper_byte (ReplaceAll s " " "") in
  if (String.length v <? 15)%nat || (34 <? String.length v)%nat then false
  else
    let l := list_ascii_of_string v in
    match foldl iban_step (Some 0) (drop 4 l ++ take 4 l) with
    | Some rem => rem =? 1
    | None => false
    end.

(** ** The patterns of pii-core *)

Definition upper_alnum (c : ascii) : bool := is_digit c || is_upper c.
Definition separator (c : ascii) : bool := (c =? " ")%char || (c =? "-")%char.
Definition times (n : nat) (a : re) : re := Rep n (Some n) a.

(** [\b[0-9]{11}\b] *)
Definition pesel_re : re := Cat Edge (Cat (times 11 (Cls is_digit)) Edge).
(** [\b[A-Z]{2}[0-9]{2}[A-Z0-9]{11,30}\b] *)
Definition iban_re : re :=
  Cat Edge (Cat (times 2 (Cls is_upper)) (Cat (times 2 (Cls is_digit))
    (Cat (Rep 11 (Some 30%nat) (Cls upper_alnum)) Edge))).
(** [\b(?:[0-9][ -]?){12,18}[0-9]\b] *)
Definition pan_re : re :=
  Cat Edge (Cat (Rep 12 (Some 18%nat) (Cat (Cls is_digit) (Opt (Cls separator)))) (Cat (Cls is_digit) Edge)).
(** [\b[A-Za-z0-9._%+-]+@[A-Za-z0-9.-]+\.[A-Za-z]{2,}\b] *)
Definition alpha (c : ascii) : bool := is_upper c || is_lower c.
Definition local_byte (c : ascii) : bool :=
  alpha c || is_digit c || existsb (Ascii.eqb c) ["."; "_"; "%"; "+"; "-"]%char.
Definition domain_byte (c : ascii) : bool := alpha c || is_digit c || (c =? ".")%char || (c =? "-")%char.
Definition email_re : re :=
  Cat Edge (Cat (Rep 1 None (Cls local_byte)) (Cat (Cls (Ascii.eqb "@")) (Cat (Rep 1 None (Cls domain_byte))
    (Cat (Cls (Ascii.eqb ".")) (Cat (Rep 2 None (Cls alpha)) Edge))))).

(** ** Examples *)

Example numbers :
  peselValid "44051401359" = true /\ panValid "4111 1111 1111 1111" = true /\
  panValid "4111 1111-1111 1111" = false /\ ibanValid "DE89370400440532013000" = true.
Proof. by vm_compute. Qed.

Definition as_pairs (l : list Span) : list (nat * nat) := map (fun s => (Start s, End_ s)) l.
Definition mixed : string := "44051401359 4111-1111-1111-1111_DE89370400440532013000 mail a.b@c.de..org, x@y.z1 4 4 4 4 4 4 4 4 4 4 4 4 4 4".

Example walk_is_FindAll :
  let f := walk_pii mixed in
  (as_pairs (pesel f), as_pairs (iban f), as_pairs (pan f), as_pairs (scanEmail mixed)) =
  (FindAll mixed pesel_re, FindAll mixed iban_re, FindAll mixed pan_re, FindAll mixed email_re).
Proof. by vm_compute. Qed.
