(* ===== verification/PiiSafe.v ===== *)
(** The scanners of [Pii] find what their patterns find: the fused walk over PESEL, IBAN and card
    numbers and the e-mail scanner give, on every value, the spans [FindAll] gives for the patterns of
    pii-core, in the same order. *)

From S2P Require Import Prelude GoLib GoText Heuristic Spans Pii.

(** ** Byte classes *)

Ltac each_byte c := destruct c as [[] [] [] [] [] [] [] []]; reflexivity.

Lemma class_word c : has (piiClass c) piiWord = word_byte c.
Proof. each_byte c. Qed.
Lemma class_digit c : has (piiClass c) piiDigit = is_digit c.
Proof. each_byte c. Qed.
Lemma class_upper c : has (piiClass c) piiUpper = upper_alnum c.
Proof. each_byte c. Qed.
Lemma class_alpha c : has (piiClass c) piiAlpha = is_upper c.
Proof. each_byte c. Qed.

Lemma digit_word c : is_digit c = true -> word_byte c = true.
Proof. unfold word_byte. by intros ->. Qed.
Lemma upper_word c : is_upper c = true -> word_byte c = true.
Proof. unfold word_byte. intros ->. by rewrite orb_true_r. Qed.
Lemma upper_alnum_word c : upper_alnum c = true -> word_byte c = true.
Proof. intros [H|H]%orb_true_iff; [by apply digit_word|by apply upper_word]. Qed.

Lemma has_testbit x k : 0 <= k -> has x (2 ^ k) = Z.testbit x k.
Proof.
  intros Hk. unfold has. apply eq_true_iff_eq. rewrite negb_true_iff, Z.eqb_neq. split.
  - intros H. destruct (Z.testbit x k) eqn:E; [done|]. destruct H. apply Z.bits_inj. intros j.
    rewrite Z.land_spec, Z.pow2_bits_eqb, Z.bits_0 by done.
    destruct (Z.eqb_spec k j) as [<-|]; [by rewrite E|by rewrite andb_false_r].
  - intros E H. apply (f_equal (fun z => Z.testbit z k)) in H.
    by rewrite Z.land_spec, Z.pow2_bits_true, E, Z.bits_0 in H.
Qed.

Lemma has_land a b k : 0 <= k -> has (Z.land a b) (2 ^ k) = has a (2 ^ k) && has b (2 ^ k).
Proof. intros H. by rewrite !has_testbit, Z.land_spec. Qed.

Section Value.
Variable v : string.

Lemma class_at_is bit p (Hp : forall c, has (piiClass c) bit = p c) i : has (class_at v i) bit = byte_is v p i.
Proof. unfold class_at, byte_is. destruct (String.get i v); [apply Hp|]. unfold has. by rewrite Z.land_0_l. Qed.

Definition word_at_is := class_at_is piiWord word_byte class_word.
Definition digit_at_is := class_at_is piiDigit is_digit class_digit.
Definition upper_at_is := class_at_is piiUpper upper_alnum class_upper.
Definition alpha_at_is := class_at_is piiAlpha is_upper class_alpha.

Lemma byte_is_mono (p q : ascii -> bool) i :
  (forall c, p c = true -> q c = true) -> byte_is v p i = true -> byte_is v q i = true.
Proof. unfold byte_is. destruct (String.get i v); auto. Qed.

Lemma in_value_byte p i : byte_is v p i = true -> in_value v i = true.
Proof. intros H. apply Nat.ltb_lt. by eapply byte_is_lt. Qed.

(** ** Runs of word bytes *)

Record is_run (i e : nat) : Prop := mkIsRun {
  ir_lt : (i < e)%nat;
  ir_in : forall j, (i <= j < e)%nat -> byte_is v word_byte j = true;
  ir_end : byte_is v word_byte e = false;
  ir_start : word_before v i = false
}.

Definition all_in (p : ascii -> bool) (i e : nat) : Prop := forall j, (i <= j < e)%nat -> byte_is v p j = true.

Lemma run_end_spec bit p (Hb : exists k, 0 <= k /\ bit = 2 ^ k) (Hp : forall c, has (piiClass c) bit = p c) fuel i acc :
  let '(e, acc') := run_end v fuel i acc in
  e = (i + count_from v word_byte fuel i)%nat /\ (has acc' bit = true <-> has acc bit = true /\ all_in p i e).
Proof.
  revert i acc. induction fuel as [|f IH]; intros i acc; simpl.
  { split; [lia|]. split; [|tauto]. intros H. split; [done|]. intros j Hj. lia. }
  rewrite word_at_is. destruct (byte_is v word_byte i) eqn:Ew.
  2:{ rewrite andb_false_r. split; [lia|]. split; [|tauto]. intros H. split; [done|]. intros j Hj. lia. }
  rewrite (in_value_byte _ _ Ew). simpl. specialize (IH (S i) (Z.land acc (class_at v i))).
  destruct (run_end _ _ _ _) as [e acc']. destruct IH as [-> IH]. split; [lia|]. rewrite IH.
  destruct Hb as (k & Hk & ->). rewrite has_land, andb_true_iff, (class_at_is _ _ Hp) by done. split.
  - intros [[H1 H2] H3]. split; [done|]. intros j Hj. destruct (decide (j = i)) as [->|]; [done|]. apply H3. lia.
  - intros [H1 H2]. split_and!; [done|apply H2; lia|]. intros j Hj. apply H2. lia.
Qed.

(** ** Patterns at a position *)

Definition edge_k (j : nat) : option nat := if boundary v j then Some j else None.

(** Letters of a word class, then the end of the word: all of them or none. *)
Lemma down_edge p hi lo i :
  (forall c, p c = true -> word_byte c = true) -> (1 <= lo)%nat ->
  let n := count_from v p hi i in
  down edge_k i n lo = if (lo <=? n)%nat && negb (byte_is v word_byte (i + n)) then Some (i + n)%nat else None.
Proof.
  intros Hp Hlo n. assert (Hin : forall j, (i <= j < i + n)%nat -> byte_is v word_byte j = true).
  { intros j Hj. eapply byte_is_mono; [exact Hp|]. eapply count_from_in. exact Hj. }
  clearbody n. assert (Hedge : forall m, (1 <= m)%nat -> (m <= n)%nat ->
    edge_k (i + m) = if byte_is v word_byte (i + m) then None else Some (i + m)%nat).
  { intros m H1 Hm. unfold edge_k, boundary, word_before. replace (i + m)%nat with (S (i + m - 1)) at 1 by lia.
    rewrite Hin by lia. by destruct (byte_is v word_byte (i + m)). }
  assert (Hlow : forall m, (m < n)%nat -> down edge_k i m lo = None).
  { induction m as [|m IH]; intros Hm; [by destruct lo; [lia|]|]. rewrite down_step, IH by lia.
    destruct (_ <? _)%nat; [done|]. rewrite Hedge, Hin by lia. done. }
  destruct n as [|m]; [by destruct lo; [lia|]|]. rewrite down_step.
  destruct (Nat.ltb_spec (S m) lo), (Nat.leb_spec lo (S m)); try lia; simpl; [done|].
  rewrite Hedge, Hlow by lia. by destruct (byte_is v word_byte (i + S m)).
Qed.

Lemma boundary_start i p : (forall c, p c = true -> word_byte c = true) -> byte_is v p i = true ->
  boundary v i = negb (word_before v i).
Proof. intros Hp H. unfold boundary. rewrite (byte_is_mono _ _ _ Hp H). by destruct (word_before v i). Qed.

Lemma down_low k i n lo : (n < lo)%nat -> down k i n lo = None.
Proof. intros H. apply Nat.ltb_lt in H. destruct n; unfold down; by rewrite H. Qed.

Lemma down_exact k i n : down k i n n = k (i + n)%nat.
Proof.
  destruct n as [|n]; [by rewrite Nat.add_0_r|]. rewrite down_step, Nat.ltb_irrefl.
  rewrite down_low by lia. by destruct (k _).
Qed.

(** Exactly [n] bytes of a class. *)
Lemma rep_times p n i k :
  rep (run v (Cls p)) n n i k = if (count_from v p n i =? n)%nat then k (i + n)%nat else None.
Proof.
  rewrite rep_class by lia. pose proof (count_from_le v p n i). destruct (Nat.eqb_spec (count_from v p n i) n) as [->|].
  - apply down_exact.
  - apply down_low. lia.
Qed.

Lemma count_all p n i : count_from v p n i = n <-> all_in p i (i + n).
Proof.
  split.
  - intros H j Hj. apply (count_from_in v p n i). lia.
  - intros H. apply count_from_is; [lia|intros; apply H; lia|lia].
Qed.

Lemma run_all p i e n : is_run i e -> (forall c, p c = true -> word_byte c = true) ->
  all_in p i (i + n) -> (i + n <= e)%nat.
Proof.
  intros [Hlt Hin He Hs] Hp Ha. destruct (decide (i + n <= e)%nat); [done|].
  rewrite (byte_is_mono p) in He; [done|done|]. apply Ha. lia.
Qed.

(** ** PESEL *)

Definition pesel_at (i e : nat) : bool := bool_decide (e = i + 11)%nat && (count_from v is_digit 11 i =? 11)%nat.

Lemma pesel_match i e : is_run i e ->
  match_at v pesel_re i = if pesel_at i e then Some e else None.
Proof.
  intros Hr. pose proof Hr as [Hlt Hin He Hs]. unfold match_at, pesel_re, pesel_at, times.
  rewrite run_Cat, run_Edge, run_Cat, run_Rep. cbn [default from_option id]. rewrite rep_times, run_Edge.
  destruct (Nat.eqb_spec (count_from v is_digit 11 i) 11) as [E|E].
  2:{ rewrite andb_false_r. by destruct (boundary v i). }
  apply count_all in E. pose proof (run_all _ _ _ 11 Hr digit_word E).
  rewrite (boundary_start i is_digit digit_word), Hs by (apply E; lia). cbn [negb].
  assert (word_before v (i + 11) = true) as Hb.
  { replace (i + 11)%nat with (S (i + 10)) by lia. eapply byte_is_mono; [exact digit_word|]. apply E. lia. }
  unfold boundary. rewrite Hb. case_bool_decide as Hd.
  - subst e. by rewrite He.
  - by rewrite Hin by lia.
Qed.

(** ** IBAN *)

Definition iban_at (i e : nat) : bool :=
  (count_from v is_upper 2 i =? 2)%nat && (count_from v is_digit 2 (i + 2) =? 2)%nat &&
  (11 <=? count_from v upper_alnum 30 (i + 4))%nat && bool_decide (e = i + 4 + count_from v upper_alnum 30 (i + 4))%nat.

Lemma iban_match i e : is_run i e ->
  match_at v iban_re i = if iban_at i e then Some e else None.
Proof.
  intros Hr. pose proof Hr as [Hlt Hin He Hs]. unfold match_at, iban_re, iban_at, times.
  rewrite run_Cat, run_Edge, run_Cat, run_Rep. cbn [default from_option id]. rewrite rep_times. destruct (Nat.eqb_spec (count_from v is_upper 2 i) 2) as [E1|]; [|by destruct (boundary v i)].
  rewrite run_Cat, run_Rep. cbn [default from_option id]. rewrite rep_times.
  destruct (Nat.eqb_spec (count_from v is_digit 2 (i + 2)) 2) as [E2|]; [|by destruct (boundary v i)].
  rewrite run_Cat, run_Rep. cbn [default from_option id]. rewrite rep_class by lia.
  replace (i + 2 + 2)%nat with (i + 4)%nat by lia. change (fun j => run v Edge j Some) with edge_k.
  rewrite (down_edge upper_alnum 30 11 (i + 4) upper_alnum_word) by lia.
  apply count_all in E1, E2.
  rewrite (boundary_start i is_upper upper_word), Hs by (apply E1; lia). cbn [negb andb].
  destruct (Nat.leb_spec 11 (count_from v upper_alnum 30 (i + 4))) as [H11|]; [|done]. cbn [andb].
  set (n := count_from v upper_alnum 30 (i + 4)) in *.
  assert (i + 4 + n <= e)%nat.
  { destruct (decide (i + 4 + n <= e)%nat); [done|]. destruct (decide (e < i + 2)%nat).
    - rewrite (byte_is_mono is_upper) in He; [done|exact upper_word|apply E1; lia].
    - destruct (decide (e < i + 4)%nat).
      + rewrite (byte_is_mono is_digit) in He; [done|exact digit_word|apply E2; lia].
      + rewrite (byte_is_mono upper_alnum) in He; [done|exact upper_alnum_word|].
        apply (count_from_in v upper_alnum 30 (i + 4)). lia. }
  case_bool_decide as Hd.
  - rewrite <- Hd, He. done.
  - by rewrite Hin by lia.
Qed.

(** ** Card numbers *)

Definition pan_body : re := Cat (Cls is_digit) (Opt (Cls separator)).
Definition pan_k (j : nat) : option nat := if byte_is v is_digit j then edge_k (S j) else None.

(** The longest prefix of a chain that ends a word, [lo] digits short of nothing. *)
Fixpoint pick (lo : nat) (chain : list nat) : option nat :=
  match chain with
  | [] => None
  | p :: t => or_else (pick (pred lo) t) (if (lo =? 0)%nat then edge_k (S p) else None)
  end.

Lemma digit_not_separator i : byte_is v is_digit i = true -> byte_is v separator i = false.
Proof. unfold byte_is. destruct (String.get i v) as [c|]; [|done]. revert c. intros [[] [] [] [] [] [] [] []]; done. Qed.

Lemma rep_pan_none lo hi i : byte_is v is_digit i = false -> rep (run v pan_body) lo hi i pan_k = None.
Proof.
  intros H. unfold pan_body. destruct hi as [|hi]; cbn [rep run]; rewrite ?H; cbn [or_else];
    (destruct (lo =? 0)%nat; [unfold pan_k; by rewrite H|done]).
Qed.

Lemma chain_from_S room p :
  chain_from v (S room) p =
  p :: (if in_value v (p + 1) && has (class_at v (p + 1)) piiDigit then chain_from v room (p + 1)
        else if in_value v (p + 2) && byte_is v separator (p + 1) && has (class_at v (p + 2)) piiDigit
        then chain_from v room (p + 2) else []).
Proof. reflexivity. Qed.

Lemma rep_pan lo hi i :
  rep (run v pan_body) lo hi i pan_k = if byte_is v is_digit i then pick lo (chain_from v (S hi) i) else None.
Proof.
  revert lo i. induction hi as [|h IH]; intros lo i; destruct (byte_is v is_digit i) eqn:Ed.
  - cbn [rep chain_from pick]. unfold pan_k. rewrite Ed. by repeat case_match.
  - by apply rep_pan_none.
  - cbn [rep]. rewrite chain_from_S. cbn [pick]. unfold pan_k at 2. rewrite Ed. f_equal.
    unfold pan_body at 1. cbn [run]. rewrite Ed. fold pan_body.
    replace (i + 1)%nat with (S i) by lia. replace (i + 2)%nat with (S (S i)) by lia.
    rewrite !digit_at_is.
    destruct (byte_is v is_digit (S i)) eqn:E1.
    + rewrite (in_value_byte _ _ E1), (digit_not_separator _ E1). cbn [andb or_else]. by rewrite IH, E1.
    + rewrite andb_false_r. rewrite !IH, E1.
      destruct (byte_is v separator (S i)) eqn:Es; cbn [or_else].
      * destruct (byte_is v is_digit (S (S i))) eqn:E2.
        -- rewrite (in_value_byte _ _ E2). cbn [andb]. by destruct (pick _ _).
        -- by rewrite andb_false_r.
      * by rewrite andb_false_r.
  - by apply rep_pan_none.
Qed.

Lemma pick_snoc lo chain p :
  pick lo (chain ++ [p]) = or_else (if (lo <=? length chain)%nat then edge_k (S p) else None) (pick lo chain).
Proof.
  revert lo. induction chain as [|q t IH]; intros lo; cbn [app pick length].
  - destruct lo; simpl; by destruct (edge_k (S p)).
  - rewrite IH. destruct (Nat.leb_spec (pred lo) (length t)), (Nat.leb_spec lo (S (length t))); try lia; cbn [or_else];
      [|done]. by destruct (edge_k (S p)).
Qed.

Lemma chain_digits room p : byte_is v is_digit p = true -> Forall (fun q => byte_is v is_digit q = true) (chain_from v room p).
Proof.
  revert p. induction room as [|r IH]; intros p Hp; cbn [chain_from]; constructor; [done|].
  rewrite !digit_at_is. destruct (_ && _) eqn:E1.
  - apply andb_true_iff in E1 as [_ E1]. by apply IH.
  - destruct (_ && byte_is v is_digit (p + 2)) eqn:E2; [|constructor]. apply andb_true_iff in E2 as [_ E2]. by apply IH.
Qed.

Lemma chain_end_pick lo chain r :
  Forall (fun q => byte_is v is_digit q = true) chain -> (r < length chain)%nat ->
  chain_end v lo chain r = pick lo (take (S r) chain).
Proof.
  intros Hd. induction r as [|r IH]; intros Hr.
  - destruct (lookup_lt_is_Some_2 chain 0 Hr) as [p Hp]. rewrite (take_S_r _ _ _ Hp), take_0. cbn [app pick chain_end].
    rewrite Hp. destruct lo; [|done]. cbn [Nat.ltb Nat.leb].
    unfold edge_k, boundary. cbn [word_before]. rewrite Forall_forall in Hd.
    rewrite (byte_is_mono is_digit word_byte p digit_word) by (apply Hd; by eapply list_elem_of_lookup_2).
    rewrite word_at_is. replace (p + 1)%nat with (S p) by lia. cbn [Nat.eqb].
    destruct (byte_is v word_byte (S p)) eqn:E; [by rewrite (in_value_byte _ _ E)|by rewrite andb_false_r].
  - destruct (lookup_lt_is_Some_2 chain (S r) Hr) as [p Hp]. rewrite (take_S_r _ _ _ Hp), pick_snoc.
    rewrite length_take_le by lia. cbn [chain_end]. rewrite Hp, word_at_is. replace (p + 1)%nat with (S p) by lia.
    destruct (Nat.ltb_spec (S r) lo), (Nat.leb_spec lo (S r)); try lia.
    { cbn [or_else]. rewrite <- IH by lia. assert (r <? lo = true)%nat as Hlow by (apply Nat.ltb_lt; lia).
      destruct r; cbn [chain_end]; by rewrite Hlow. }
    unfold edge_k, boundary. cbn [word_before]. rewrite Forall_forall in Hd.
    rewrite (byte_is_mono is_digit word_byte p digit_word) by (apply Hd; by eapply list_elem_of_lookup_2).
    destruct (byte_is v word_byte (S p)) eqn:E; [rewrite (in_value_byte _ _ E)|rewrite andb_false_r]; cbn [andb xorb or_else].
    + apply IH. lia.
    + done.
Qed.

Lemma chain_length room p : (0 < room)%nat -> (0 < length (chain_from v room p))%nat.
Proof. destruct room; simpl; lia. Qed.

Lemma pan_match i : word_before v i = false ->
  match_at v pan_re i = if byte_is v is_digit i then scanCardPANFrom v i else None.
Proof.
  intros Hs. unfold match_at, pan_re. rewrite run_Cat, run_Edge, run_Cat, run_Rep.
  cbn [default from_option id]. fold pan_body. change (fun j => run v (Cat (Cls is_digit) Edge) j Some) with pan_k.
  rewrite rep_pan. destruct (byte_is v is_digit i) eqn:Ed; [|by destruct (boundary v i)].
  rewrite (boundary_start i is_digit digit_word), Hs by done. cbn [negb]. unfold scanCardPANFrom.
  pose proof (chain_length panMaxDigits i ltac:(unfold panMaxDigits; lia)).
  rewrite chain_end_pick by (by apply chain_digits || lia).
  rewrite take_ge by lia. done.
Qed.

(** ** Where a match can start *)

Definition starts_runs (r : re) : Prop := forall i e, match_at v r i = Some e ->
  byte_is v word_byte i = true /\ word_before v i = false.

Lemma starts_with p r :
  (forall c, p c = true -> word_byte c = true) ->
  (forall i e, match_at v r i = Some e -> boundary v i = true /\ byte_is v p i = true) -> starts_runs r.
Proof.
  intros Hp H i e Hm. destruct (H i e Hm) as [Hb Hc]. split; [by eapply byte_is_mono|].
  rewrite (boundary_start i p) in Hb by done. by apply negb_true_iff.
Qed.

Lemma pesel_starts : starts_runs pesel_re.
Proof.
  apply (starts_with is_digit); [exact digit_word|]. intros i e. unfold match_at, pesel_re, times.
  rewrite run_Cat, run_Edge, run_Cat, run_Rep. cbn [default from_option id]. rewrite rep_times.
  destruct (boundary v i); [|done]. destruct (Nat.eqb_spec (count_from v is_digit 11 i) 11) as [E|]; [|done].
  intros _. split; [done|]. apply count_all in E. apply E. lia.
Qed.

Lemma iban_starts : starts_runs iban_re.
Proof.
  apply (starts_with is_upper); [exact upper_word|]. intros i e. unfold match_at, iban_re, times.
  rewrite run_Cat, run_Edge, run_Cat, run_Rep. cbn [default from_option id]. rewrite rep_times.
  destruct (boundary v i); [|done]. destruct (Nat.eqb_spec (count_from v is_upper 2 i) 2) as [E|]; [|done].
  intros _. split; [done|]. apply count_all in E. apply E. lia.
Qed.

Lemma pan_starts : starts_runs pan_re.
Proof.
  apply (starts_with is_digit); [exact digit_word|]. intros i e. unfold match_at, pan_re.
  rewrite run_Cat, run_Edge, run_Cat, run_Rep. cbn [default from_option id]. fold pan_body.
  change (fun j => run v (Cat (Cls is_digit) Edge) j Some) with pan_k. rewrite rep_pan.
  destruct (boundary v i); [|done]. by destruct (byte_is v is_digit i).
Qed.

(** ** Searching past a run, and past a byte of no word *)

Lemma find_seq r i n st :
  (forall j, (i <= j < i + n)%nat -> byte_is v word_byte j = false \/ word_before v j = true) -> starts_runs r ->
  find_from (match_at v r) (seq i n) st = st.
Proof.
  intros H Hr. apply find_from_none, List.Forall_forall. intros j Hj%in_seq.
  destruct (match_at v r j) as [e|] eqn:E; [|done]. destruct (Hr j e E) as [H1 H2].
  destruct (H j); [lia| |]; congruence.
Qed.

Lemma find_run r i e st len : is_run i e -> (e <= len)%nat -> starts_runs r ->
  find_from (match_at v r) (seq i (S len - i)) st =
  find_from (match_at v r) (seq e (S len - e)) (find_step (match_at v r) st i).
Proof.
  intros [Hlt Hin He Hs] Hle Hr. replace (S len - i)%nat with (1 + ((e - S i) + (S len - e)))%nat by lia.
  rewrite seq_app, seq_app, !find_from_app. replace (i + 1 + (e - S i))%nat with e by lia. f_equal.
  apply find_seq; [|done]. intros [|j] Hj; [lia|]. right. apply Hin. lia.
Qed.

Lemma find_skip r i st len : byte_is v word_byte i = false -> (i <= len)%nat -> starts_runs r ->
  find_from (match_at v r) (seq i (S len - i)) st = find_from (match_at v r) (seq (S i) (S len - S i)) st.
Proof.
  intros Hw Hle Hr. replace (S len - i)%nat with (1 + (S len - S i))%nat by lia.
  rewrite seq_app, find_from_app, (find_seq r i 1); [by rewrite Nat.add_1_r| |done].
  intros j Hj. left. by replace j with i by lia.
Qed.

(** ** What the walk decides of a run *)

Section Run.
Variables (i e : nat) (acc : Z).
Hypothesis (Hr : is_run i e).
Hypothesis (Hacc : forall bit p, (exists k, 0 <= k /\ bit = 2 ^ k) -> (forall c, has (piiClass c) bit = p c) ->
  has acc bit = true <-> all_in p i e).

Lemma pesel_decided : is_pesel acc (e - i) = pesel_at i e.
Proof.
  pose proof (ir_lt _ _ Hr). unfold is_pesel, pesel_at. apply eq_true_iff_eq.
  rewrite !andb_true_iff, bool_decide_eq_true, !Nat.eqb_eq.
  rewrite (Hacc piiDigit is_digit) by first [by exists 1|exact class_digit].
  rewrite count_all. split.
  - intros [H1 H2]. split; [lia|]. by replace (i + 11)%nat with e by lia.
  - intros [-> H2]. split; [done|lia].
Qed.

Lemma iban_decided : is_iban v acc (class_at v i) i (e - i) = iban_at i e.
Proof.
  pose proof (ir_lt _ _ Hr). unfold is_iban, iban_at. rewrite !alpha_at_is, !digit_at_is. apply eq_true_iff_eq.
  rewrite !andb_true_iff, bool_decide_eq_true, !Nat.eqb_eq, !Nat.leb_le.
  rewrite (Hacc piiUpper upper_alnum) by first [by exists 2|exact class_upper].
  rewrite !count_all. set (n := count_from v upper_alnum 30 (i + 4)). split.
  - intros ((((((H1 & H2) & H3) & H4) & H5) & H6) & H7).
    assert (n = e - i - 4)%nat as Hn.
    { apply count_from_is; [lia|intros j Hj; apply H1; lia|]. intros _.
      replace (i + 4 + (e - i - 4))%nat with e by lia.
      destruct (byte_is v upper_alnum e) eqn:E; [|done]. pose proof (ir_end _ _ Hr).
      rewrite (byte_is_mono upper_alnum word_byte e upper_alnum_word E) in *. done. }
    split_and!; [| |lia|lia].
    + intros j Hj. assert (j = i \/ j = i + 1)%nat as [-> | ->] by lia; done.
    + intros j Hj. assert (j = i + 2 \/ j = i + 3)%nat as [-> | ->] by lia; done.
  - intros (((H1 & H2) & H3) & H4). pose proof (count_from_le v upper_alnum 30 (i + 4)) as Hle. fold n in Hle.
    split_and!; try lia; [|apply H1; lia|apply H1; lia|apply H2; lia|apply H2; lia].
    intros j Hj. destruct (decide (j < i + 2)%nat).
    { eapply byte_is_mono, H1; [|lia]. intros c Hc. unfold upper_alnum. by rewrite Hc, orb_true_r. }
    destruct (decide (j < i + 4)%nat).
    { eapply byte_is_mono, H2; [|lia]. intros c Hc. unfold upper_alnum. by rewrite Hc. }
    apply (count_from_in v upper_alnum 30 (i + 4)). fold n. lia.
Qed.
End Run.

(** The state of the reference search that agrees with the walk's. *)
Definition agrees_with (r : re) (cur i : nat) (out : list Span) (final : list Span) : Prop :=
  as_pairs final = (find_from (match_at v r) (seq i (S (String.length v) - i)) (cur, as_pairs out)).2.

Lemma as_pairs_snoc l i e : as_pairs (l ++ [candidate i e]) = as_pairs l ++ [(i, e)].
Proof. unfold as_pairs. by rewrite map_app. Qed.

Lemma run_is_run i : byte_is v word_byte i = true -> word_before v i = false ->
  let e := (S i + count_from v word_byte (String.length v) (S i))%nat in is_run i e /\ (e <= String.length v)%nat.
Proof.
  intros Hw Hs e. pose proof (byte_is_lt _ _ _ Hw) as Hlt.
  assert (Hin : forall j, (i <= j < e)%nat -> byte_is v word_byte j = true).
  { intros j Hj. destruct (decide (j = i)) as [->|]; [done|]. apply (count_from_in v word_byte (String.length v) (S i)). lia. }
  assert (Hle : (e <= String.length v)%nat).
  { pose proof (byte_is_lt _ _ _ (Hin (e - 1)%nat ltac:(lia))). lia. }
  split; [|done]. split; [lia|done| |done].
  apply (count_from_stop v word_byte (String.length v) (S i)). lia.
Qed.

Lemma walk_from_ok fuel i f cp ci :
  (String.length v - i < fuel)%nat -> (i <= String.length v)%nat ->
  (word_before v i = true -> byte_is v word_byte i = false) -> (cp <= i)%nat -> (ci <= i)%nat ->
  let f' := walk_from v fuel i f in
  agrees_with pesel_re cp i (pesel f) (pesel f') /\ agrees_with iban_re ci i (iban f) (iban f') /\
  agrees_with pan_re (panCursor f) i (pan f) (pan f').
Proof.
  unfold agrees_with. revert i f cp ci. induction fuel as [|fuel IH]; intros i f cp ci Hf Hi Hedge Hcp Hci; [lia|].
  cbn [walk_from]. destruct (in_value v i) eqn:Ei.
  2:{ apply Nat.ltb_ge in Ei. assert (forall j, (i <= j)%nat -> byte_is v word_byte j = false) as Hout.
      { intros j Hj. destruct (byte_is v word_byte j) eqn:E; [|done]. apply byte_is_lt in E. lia. }
      rewrite !find_seq; try done; try (apply pesel_starts || apply iban_starts || apply pan_starts);
        intros j Hj; left; apply Hout; lia. }
  rewrite word_at_is. destruct (byte_is v word_byte i) eqn:Ew.
  2:{ rewrite (find_skip pesel_re i), (find_skip iban_re i), (find_skip pan_re i) by first [done|lia|apply pesel_starts|apply iban_starts|apply pan_starts].
      apply Nat.ltb_lt in Ei. apply IH; try lia. simpl. congruence. }
  assert (word_before v i = false) as Hs by (destruct (word_before v i); [by specialize (Hedge eq_refl)|done]).
  destruct (run_is_run i Ew Hs) as [Hr Hle].
  pose proof (fun bit p Hb Hp => run_end_spec bit p Hb Hp (String.length v) (S i) (class_at v i)) as Hspec.
  destruct (run_end v (String.length v) (S i) (class_at v i)) as [e acc] eqn:Ere.
  assert (e = S i + count_from v word_byte (String.length v) (S i))%nat as He.
  { apply (Hspec piiWord word_byte); [by exists 0|exact class_word]. }
  rewrite <- He in Hr, Hle. clear He.
  assert (Hacc : forall bit p, (exists k, 0 <= k /\ bit = 2 ^ k) -> (forall c, has (piiClass c) bit = p c) ->
    has acc bit = true <-> all_in p i e).
  { intros bit p Hb Hp. destruct (Hspec bit p Hb Hp) as [_ ->]. rewrite (class_at_is _ _ Hp). split.
    - intros [H1 H2] j Hj. destruct (decide (j = i)) as [->|]; [done|]. apply H2. lia.
    - intros H. split; [apply H; pose proof (ir_lt _ _ Hr); lia|]. intros j Hj. apply H. lia. }
  rewrite (find_run pesel_re i e), (find_run iban_re i e), (find_run pan_re i e) by first [done|lia|apply pesel_starts|apply iban_starts|apply pan_starts].
  pose proof (ir_lt _ _ Hr) as Hie.
  unfold find_step. cbn [fst snd].
  rewrite (pesel_match i e Hr), (iban_match i e Hr), (pan_match i Hs).
  destruct (Nat.ltb_spec i cp), (Nat.ltb_spec i ci); try lia.
  unfold walk_run. rewrite (pesel_decided i e acc Hr Hacc), (iban_decided i e acc Hr Hacc), digit_at_is.
  assert (Hnext : forall g cp' ci', (cp' <= e)%nat -> (ci' <= e)%nat ->
    let f' := walk_from v fuel e g in
    as_pairs (pesel f') = (find_from (match_at v pesel_re) (seq e (S (String.length v) - e)) (cp', as_pairs (pesel g))).2 /\
    as_pairs (iban f') = (find_from (match_at v iban_re) (seq e (S (String.length v) - e)) (ci', as_pairs (iban g))).2 /\
    as_pairs (pan f') = (find_from (match_at v pan_re) (seq e (S (String.length v) - e)) (panCursor g, as_pairs (pan g))).2).
  { intros g cp' ci' H1 H2. apply IH; try lia. intros _. apply (ir_end _ _ Hr). }
  destruct (pesel_at i e), (iban_at i e); cbn [pesel iban pan panCursor];
    destruct (byte_is v is_digit i), (Nat.leb_spec (panCursor f) i), (Nat.ltb_spec i (panCursor f)); try lia;
    cbn [andb]; try destruct (scanCardPANFrom v i) as [p|];
    rewrite <- ?as_pairs_snoc;
    match goal with
    | |- as_pairs (pesel (walk_from _ _ _ ?g)) = (find_from _ _ (?c1, _)).2 /\
         _ = (find_from _ _ (?c2, _)).2 /\ _ => apply (Hnext g c1 c2); lia
    end.
Qed.
End Value.

Lemma fused_walk_exact_all value :
  as_pairs (pesel (walk_pii value)) = FindAll value pesel_re /\
  as_pairs (iban (walk_pii value)) = FindAll value iban_re /\
  as_pairs (pan (walk_pii value)) = FindAll value pan_re.
Proof.
  unfold walk_pii, FindAll. rewrite <- (Nat.sub_0_r (S (String.length value))) at 4 5 6.
  apply (walk_from_ok value _ 0 no_pii 0 0); lia || done.
Qed.

(** C25: on every value the fused walk finds, for each of its three rules, exactly the spans the rule's
    pattern finds in it, in the same order: the identity numbers, the account numbers and the card
    numbers that a search for the pattern would. *)
Theorem fused_walk_exact value :
  as_pairs (pesel (walk_pii value)) = FindAll value pesel_re /\
  as_pairs (iban (walk_pii value)) = FindAll value iban_re /\
  as_pairs (pan (walk_pii value)) = FindAll value pan_re.
Proof. apply fused_walk_exact_all. Qed.

(** The e-mail scanner of [Pii] finds what its pattern finds: it is anchored on the signs, and a search
    for the pattern tries every position, but on every value both give the same spans in the same
    order. *)

Lemma email_local c : has (emailClass c) 1 = local_byte c.
Proof. each_byte c. Qed.
Lemma email_domain c : has (emailClass c) 2 = domain_byte c.
Proof. each_byte c. Qed.
Lemma email_word c : has (emailClass c) 4 = word_byte c.
Proof. each_byte c. Qed.
Lemma email_alpha c : has (emailClass c) 8 = alpha c.
Proof. each_byte c. Qed.

Lemma alpha_word c : alpha c = true -> word_byte c = true.
Proof. unfold alpha, word_byte. intros [-> | ->]%orb_true_iff; by rewrite ?orb_true_r. Qed.
Lemma alpha_domain c : alpha c = true -> domain_byte c = true.
Proof. unfold domain_byte. by intros ->. Qed.
Lemma dot_domain c : Ascii.eqb "." c = true -> domain_byte c = true.
Proof. by intros <-%Ascii.eqb_eq. Qed.
Lemma sign_not_local c : Ascii.eqb "@" c = true -> local_byte c = false.
Proof. by intros <-%Ascii.eqb_eq. Qed.

Section Value.
Variable v : string.
Let len := String.length v.

Lemma cls_is bit p (Hp : forall c, has (emailClass c) (Z.of_nat bit) = p c) i : cls v i bit = byte_is v p i.
Proof. unfold cls, byte_is. destruct (String.get i v); [apply Hp|done]. Qed.

Lemma local_at_is i : local_at v i = byte_is v local_byte i.
Proof. apply cls_is, email_local. Qed.
Lemma domain_at_is i : domain_at v i = byte_is v domain_byte i.
Proof. apply cls_is, email_domain. Qed.
Lemma email_word_at_is i : word_at v i = byte_is v word_byte i.
Proof. apply cls_is, email_word. Qed.
Lemma email_alpha_at_is i : alpha_at v i = byte_is v alpha i.
Proof. apply cls_is, email_alpha. Qed.

Lemma while_count (q : nat -> bool) p fuel i :
  (forall j, q j = byte_is v p j) -> while_at q fuel i = (i + count_from v p fuel i)%nat.
Proof.
  intros Hq. revert i. induction fuel as [|f IH]; intros i; simpl; [lia|]. rewrite Hq.
  destruct (byte_is v p i); [rewrite IH; lia|lia].
Qed.

(** Enough fuel, and the count stops at the first byte outside the class. *)
Lemma count_stops p i : (i <= len)%nat -> byte_is v p (i + count_from v p len i) = false.
Proof.
  intros Hi. destruct (byte_is v p (i + count_from v p len i)) eqn:E; [|done].
  pose proof (byte_is_lt _ _ _ E) as Hlt. fold len in Hlt.
  assert (count_from v p len i < len)%nat as Hc by lia. apply count_from_stop in Hc. congruence.
Qed.

Lemma byte_past p i : (len <= i)%nat -> byte_is v p i = false.
Proof. intros H. destruct (byte_is v p i) eqn:E; [|done]. apply byte_is_lt in E. lia. Qed.

Lemma count_bound p i : (i <= len)%nat -> (i + count_from v p len i <= len)%nat.
Proof.
  intros Hi. destruct (count_from v p len i) as [|n] eqn:E; [lia|].
  assert (byte_is v p (i + n) = true) as Hn by (apply (count_from_in v p len i); lia).
  apply byte_is_lt in Hn. fold len in Hn. lia.
Qed.

(** ** The domain *)

Definition dot_k (d : nat) : option nat :=
  if byte_is v (Ascii.eqb ".") d then rep (run v (Cls alpha)) 2 len (S d) (edge_k v) else None.
Definition domain_from (lo : nat) : option nat := rep (run v (Cls domain_byte)) 1 len lo dot_k.

Lemma dot_k_spec hi d : (S d <= hi)%nat -> (hi <= len)%nat -> byte_is v domain_byte hi = false ->
  dot_k d = if byte_is v (Ascii.eqb ".") d then
              let tld := while_at (alpha_at v) (hi - S d) (S d) in
              if (tld - d - 1 <? 2)%nat then None else if word_at v tld then None else Some tld
            else None.
Proof.
  intros Hd Hh Hn. unfold dot_k. destruct (byte_is v (Ascii.eqb ".") d); [|done].
  destruct (decide (len < 2)%nat) as [Hs|Hs].
  { cbn zeta. rewrite (while_count _ alpha) by apply email_alpha_at_is. pose proof (count_from_le v alpha (hi - S d) (S d)).
    destruct (Nat.ltb_spec (S d + count_from v alpha (hi - S d) (S d) - d - 1) 2); [|lia].
    assert (len = 0 \/ len = 1)%nat as [E|E] by lia; rewrite E; [done|]. cbn [rep run Nat.eqb pred].
    by destruct (byte_is v alpha (S d)). }
  rewrite rep_class by lia. rewrite (down_edge v alpha len 2 (S d) alpha_word) by lia.
  cbn zeta. rewrite (while_count _ alpha) by apply email_alpha_at_is. rewrite email_word_at_is.
  assert (count_from v alpha (hi - S d) (S d) = count_from v alpha len (S d)) as ->.
  { symmetry. pose proof (count_from_le v alpha (hi - S d) (S d)). apply count_from_is; [lia| |].
    - intros j Hj. apply (count_from_in v alpha (hi - S d) (S d)). lia.
    - intros _. destruct (decide (count_from v alpha (hi - S d) (S d) < hi - S d)%nat) as [Hlt|].
      + by apply count_from_stop in Hlt.
      + replace (S d + count_from v alpha (hi - S d) (S d))%nat with hi by lia.
        destruct (byte_is v alpha hi) eqn:E; [|done]. by rewrite (byte_is_mono v _ _ _ alpha_domain E) in Hn. }
  set (n := count_from v alpha len (S d)). replace (S d + n - d - 1)%nat with n by lia.
  destruct (Nat.leb_spec 2 n), (Nat.ltb_spec n 2); try lia; [|done]. by destruct (byte_is v word_byte (S d + n)).
Qed.

Lemma domain_end_down hi lo m :
  (lo + m < hi)%nat -> (hi <= len)%nat -> byte_is v domain_byte hi = false ->
  domain_end v hi lo (lo + m) = down dot_k lo m 1.
Proof.
  intros Hm Hh Hn. induction m as [|m IH].
  - rewrite Nat.add_0_r. destruct lo as [|d]; [done|]. cbn [domain_end]. by rewrite Nat.leb_refl.
  - rewrite down_step, (dot_k_spec hi (lo + S m)) by (done || lia). replace (lo + S m)%nat with (S (lo + m)) by lia.
    cbn [domain_end]. destruct (Nat.leb_spec (S (lo + m)) lo); [lia|].
    change (S m <? 1)%nat with false. cbn [or_else].
    change (fun c => (c =? ".")%char) with (fun c => Ascii.eqb c ".").
    assert (byte_is v (fun c => Ascii.eqb c ".") (S (lo + m)) = byte_is v (Ascii.eqb ".") (S (lo + m))) as ->.
    { unfold byte_is. destruct (String.get _ v); [apply Ascii.eqb_sym|done]. }
    rewrite <- IH by lia. destruct (byte_is v (Ascii.eqb ".") (S (lo + m))); [|done]. cbn [negb]. cbn zeta.
    destruct (_ <? 2)%nat; [done|]. by destruct (word_at v _).
Qed.

Definition addr_end (sign : nat) : option nat :=
  let lo := S sign in let hi := while_at (domain_at v) len lo in domain_end v hi lo (hi - 1).

Lemma addr_end_spec sign : (sign < len)%nat -> domain_from (S sign) = addr_end sign.
Proof.
  intros Hs. unfold domain_from, addr_end. rewrite rep_class by lia. cbn zeta.
  rewrite (while_count _ domain_byte) by apply domain_at_is.
  set (n := count_from v domain_byte len (S sign)).
  pose proof (count_stops domain_byte (S sign) ltac:(lia)) as Hstop. fold n in Hstop.
  pose proof (count_bound domain_byte (S sign) ltac:(lia)) as Hb. fold n in Hb.
  destruct n as [|n].
  - rewrite Nat.add_0_r. replace (S sign - 1)%nat with sign by lia. cbn [down].
    destruct sign as [|d]; [done|]. cbn [domain_end]. destruct (Nat.leb_spec (S d) (S (S d))); [done|lia].
  - rewrite down_step. change (S n <? 1)%nat with false. cbn iota.
    assert (dot_k (S sign + S n) = None) as ->.
    { unfold dot_k. destruct (byte_is v (Ascii.eqb ".") (S sign + S n)) eqn:E; [|done].
      by rewrite (byte_is_mono v _ _ _ dot_domain E) in Hstop. }
    cbn [or_else]. replace (S sign + S n - 1)%nat with (S sign + n)%nat by lia.
    symmetry. apply domain_end_down; [lia|lia|done].
Qed.

Lemma domain_end_after hi lo dot e : domain_end v hi lo dot = Some e -> (lo < e)%nat.
Proof.
  induction dot as [|d IH]; [done|]. cbn [domain_end]. destruct (Nat.leb_spec (S d) lo); [done|].
  destruct (negb _); [done|]. cbn zeta. destruct (_ <? 2)%nat eqn:E; [done|]. destruct (word_at v _); [done|].
  intros [= <-]. apply Nat.ltb_ge in E. lia.
Qed.

(** ** The local part *)

Definition sign_k (j : nat) : option nat := if byte_is v (Ascii.eqb "@") j then domain_from (S j) else None.

Lemma run_email_tail j :
  run v (Cat (Cls (Ascii.eqb "@")) (Cat (Rep 1 None (Cls domain_byte))
    (Cat (Cls (Ascii.eqb ".")) (Cat (Rep 2 None (Cls alpha)) Edge)))) j Some = sign_k j.
Proof. reflexivity. Qed.

Lemma down_last k i n : (forall m, (1 <= m < n)%nat -> k (i + m)%nat = None) ->
  down k i n 1 = if (n =? 0)%nat then None else k (i + n)%nat.
Proof.
  intros H. destruct n as [|n]; [done|]. rewrite down_step. change (S n <? 1)%nat with false. cbn [Nat.eqb].
  assert (down k i n 1 = None) as ->; [|by destruct (k _)].
  clear - H. induction n as [|n IH]; [done|]. rewrite down_step, H, IH by (intros; apply H; lia) || lia.
  by destruct (S n <? 1)%nat.
Qed.

Definition local_end (i : nat) : nat := (i + count_from v local_byte len i)%nat.

Lemma local_end_in i j : (i <= j < local_end i)%nat -> byte_is v local_byte j = true.
Proof. apply (count_from_in v local_byte len i). Qed.

Lemma sign_local j : byte_is v (Ascii.eqb "@") j = true -> byte_is v local_byte j = false.
Proof. unfold byte_is. destruct (String.get j v); [apply sign_not_local|done]. Qed.

(** A match from a position: a boundary, a local part up to a sign, and a domain behind it. *)
Lemma email_match i : (i <= len)%nat ->
  match_at v email_re i =
  if boundary v i && (i <? local_end i)%nat && byte_is v (Ascii.eqb "@") (local_end i)
  then addr_end (local_end i) else None.
Proof.
  intros Hi. unfold match_at, email_re. rewrite run_Cat, run_Edge, run_Cat, run_Rep. cbn [default from_option id].
  change (fun j => run v _ j Some) with sign_k. fold len.
  destruct (boundary v i); [|done]. destruct (decide (len = 0)%nat) as [E|E].
  { assert (i = 0)%nat as -> by lia. unfold local_end. by rewrite E. }
  rewrite rep_class by lia. rewrite down_last.
  2:{ intros m Hm. unfold sign_k. destruct (byte_is v (Ascii.eqb "@") (i + m)) eqn:Es; [|done].
      apply sign_local in Es. rewrite (count_from_in v local_byte len i) in Es by lia. done. }
  fold (local_end i). cbn [andb].
  assert ((i <? local_end i)%nat = negb (count_from v local_byte len i =? 0)%nat) as ->.
  { unfold local_end. destruct (Nat.eqb_spec (count_from v local_byte len i) 0),
      (Nat.ltb_spec i (i + count_from v local_byte len i)); done || lia. }
  destruct (count_from v local_byte len i =? 0)%nat; [done|]. cbn [negb andb]. unfold sign_k.
  destruct (byte_is v (Ascii.eqb "@") (local_end i)) eqn:Es; [|done].
  apply addr_end_spec. by apply byte_is_lt in Es.
Qed.

Lemma local_end_is i s : (i <= s)%nat -> byte_is v (Ascii.eqb "@") s = true ->
  (forall j, (i <= j < s)%nat -> byte_is v local_byte j = true) -> local_end i = s.
Proof.
  intros Hi Hs Hin. pose proof (byte_is_lt _ _ _ Hs) as Hlt. fold len in Hlt. unfold local_end.
  rewrite (count_from_is v local_byte len i (s - i)); [lia|lia|intros j Hj; apply Hin; lia|].
  intros _. replace (i + (s - i))%nat with s by lia. by apply sign_local.
Qed.

(** The local part of a match from [i] ends at the first sign from [a] on, when it does not end before. *)
Lemma local_end_sign i a s :
  (i <= s)%nat -> (a <= local_end i)%nat -> byte_is v (Ascii.eqb "@") (local_end i) = true ->
  byte_is v (Ascii.eqb "@") s = true -> (forall j, (a <= j < s)%nat -> byte_is v (Ascii.eqb "@") j = false) ->
  local_end i = s.
Proof.
  intros Hi Ha He Hs Hno. destruct (lt_eq_lt_dec (local_end i) s) as [[Hlt|]|Hgt]; [|done|].
  - by rewrite Hno in He by lia.
  - apply sign_local in Hs. by rewrite (local_end_in i s) in Hs by lia.
Qed.

Lemma sign_from_spec fuel a : (len - a <= fuel)%nat ->
  match sign_from v fuel a with
  | Some s => (a <= s)%nat /\ byte_is v (Ascii.eqb "@") s = true /\
              forall j, (a <= j < s)%nat -> byte_is v (Ascii.eqb "@") j = false
  | None => forall j, (a <= j)%nat -> byte_is v (Ascii.eqb "@") j = false
  end.
Proof.
  revert a. induction fuel as [|f IH]; intros a Hf.
  { intros j Hj. apply byte_past. fold len. lia. }
  cbn [sign_from].
  destruct (String.get a v) as [c|] eqn:Ec.
  - assert (byte_is v (Ascii.eqb "@") a = (c =? "@")%char) as Ha.
    { unfold byte_is. rewrite Ec. apply Ascii.eqb_sym. }
    destruct (c =? "@")%char; [split_and!; [done|done|lia]|].
    assert (a < len)%nat by (apply (byte_is_lt v (fun _ => true)); unfold byte_is; by rewrite Ec).
    specialize (IH (S a) ltac:(lia)). destruct (sign_from v f (S a)) as [s|].
    + destruct IH as (H1 & H2 & H3). split_and!; [lia|done|]. intros j Hj.
      destruct (decide (j = a)) as [->|]; [done|]. apply H3. lia.
    + intros j Hj. destruct (decide (j = a)) as [->|]; [done|]. apply IH. lia.
  - intros j Hj. apply byte_past. fold len. destruct (decide (len <= j)%nat); [done|].
    exfalso. revert Ec. assert (a < len)%nat as Hlt by lia. clear - Hlt. unfold len in Hlt.
    revert a Hlt. induction v as [|d w IH]; intros [|a] Hlt; simpl in *; try lia; [done|]. apply IH. lia.
Qed.

Lemma local_start_spec from s :
  let p := local_start v from s in
  (p <= s)%nat /\ ((from <= s)%nat -> (from <= p)%nat) /\
  (forall j, (p <= j < s)%nat -> byte_is v local_byte j = true) /\
  (forall i, (from <= i)%nat -> (forall j, (i <= j < s)%nat -> byte_is v local_byte j = true) -> (i < s)%nat -> (p <= i)%nat).
Proof.
  induction s as [|q IH]; cbn [local_start]; [split_and!; lia|].
  destruct (_ && _) eqn:E.
  - apply andb_true_iff in E as [E1 E2]. apply Nat.ltb_lt in E1. rewrite local_at_is in E2.
    destruct IH as (H1 & H2 & H3 & H4). split_and!; [lia|intros; apply H2; lia| |].
    + intros j Hj. destruct (decide (j = q)) as [->|]; [done|]. apply H3. lia.
    + intros i Hf Hi Hlt. destruct (decide (i = q)) as [->|]; [lia|]. apply H4; [done|intros; apply Hi; lia|lia].
  - split_and!; [lia|lia|lia|]. intros i Hf Hi Hlt.
    apply andb_false_iff in E as [E|E]; [apply Nat.ltb_ge in E; lia|]. rewrite local_at_is in E.
    by rewrite Hi in E by lia.
Qed.

Lemma first_boundary_spec n i :
  match first_boundary v n i with
  | Some s => (i <= s < i + n)%nat /\ boundary v s = true /\ forall j, (i <= j < s)%nat -> boundary v j = false
  | None => forall j, (i <= j < i + n)%nat -> boundary v j = false
  end.
Proof.
  revert i. induction n as [|n IH]; intros i; cbn [first_boundary]; [intros; lia|].
  assert (negb (Bool.eqb match i with O => false | S j => word_at v j end (word_at v i)) = boundary v i) as ->.
  { unfold boundary, word_before. rewrite email_word_at_is. destruct i as [|j]; [|rewrite email_word_at_is];
      repeat match goal with |- context [byte_is ?a ?b ?c] => destruct (byte_is a b c) end; done. }
  destruct (boundary v i) eqn:E; [split_and!; [lia|lia|done|lia]|].
  specialize (IH (S i)). destruct (first_boundary v n (S i)) as [s|].
  - destruct IH as (H1 & H2 & H3). split_and!; [lia|lia|done|]. intros j Hj.
    destruct (decide (j = i)) as [->|]; [done|]. apply H3. lia.
  - intros j Hj. destruct (decide (j = i)) as [->|]; [done|]. apply IH. lia.
Qed.

(** ** One sign *)

Definition matches_from (from a : nat) : Prop :=
  forall i e, (from <= i)%nat -> match_at v email_re i = Some e -> (a <= local_end i)%nat.

Lemma match_in i e : match_at v email_re i = Some e ->
  (i < local_end i)%nat /\ byte_is v (Ascii.eqb "@") (local_end i) = true /\ boundary v i = true /\
  addr_end (local_end i) = Some e.
Proof.
  intros H. destruct (decide (i <= len)%nat) as [Hi|Hi].
  - rewrite email_match in H by done. destruct (boundary v i); [|done].
    destruct (Nat.ltb_spec i (local_end i)); [|done]. cbn [andb] in H.
    destruct (byte_is v (Ascii.eqb "@") (local_end i)); done.
  - exfalso. revert H. unfold match_at, email_re. rewrite run_Cat, run_Edge.
    assert (boundary v i = false) as ->; [|done]. unfold boundary.
    rewrite byte_past by (fold len; lia). destruct i as [|j]; [lia|]. cbn [word_before].
    by rewrite byte_past by (fold len; lia).
Qed.

(** The first sign from [a] on decides the matches that start from [from] up to it. *)
Lemma matches_up_to from a s :
  byte_is v (Ascii.eqb "@") s = true -> (forall j, (a <= j < s)%nat -> byte_is v (Ascii.eqb "@") j = false) ->
  matches_from from a ->
  forall i, (from <= i <= s)%nat ->
    match_at v email_re i =
    if (local_start v from s <=? i)%nat && (i <? s)%nat && boundary v i then addr_end s else None.
Proof.
  intros Hs Hno Hm i Hi. destruct (local_start_spec from s) as (H1 & H2 & H3 & H4).
  pose proof (byte_is_lt _ _ _ Hs) as Hlt. fold len in Hlt.
  destruct ((local_start v from s <=? i)%nat && (i <? s)%nat) eqn:E; cbn [andb].
  - apply andb_true_iff in E as [E1%Nat.leb_le E2%Nat.ltb_lt].
    rewrite email_match by lia. rewrite (local_end_is i s) by (done || lia || (intros; apply H3; lia)).
    rewrite Hs, andb_true_r. destruct (Nat.ltb_spec i s); [|lia]. by rewrite andb_true_r.
  - destruct (match_at v email_re i) as [e|] eqn:Em; [|done].
    pose proof (Hm i e ltac:(lia) Em) as Ha. destruct (match_in i e Em) as (Hl & He & _).
    pose proof (local_end_sign i a s ltac:(lia) Ha He Hs Hno) as Hle.
    apply andb_false_iff in E as [E|E]; [apply Nat.leb_gt in E|apply Nat.ltb_ge in E; lia].
    assert (local_start v from s <= i)%nat; [|lia].
    apply H4; [lia| |lia]. intros j Hj. apply (local_end_in i). lia.
Qed.

Lemma next_sign from a s : (from <= s)%nat -> matches_from from a ->
  (forall i, (from <= i <= s)%nat -> match_at v email_re i = None) -> matches_from from (S s).
Proof.
  intros Hf Hm Hno i e Hi Em. destruct (decide (i <= s)%nat) as [Hle|Hgt].
  - by rewrite Hno in Em by lia.
  - destruct (match_in i e Em) as (Hl & _). lia.
Qed.

(** ** The scan *)

Lemma find_none from n st : (forall i, (from <= i < from + n)%nat -> match_at v email_re i = None) ->
  find_from (match_at v email_re) (seq from n) st = st.
Proof. intros H. apply find_from_none, List.Forall_forall. intros j Hj%in_seq. apply H. lia. Qed.

Lemma find_one from start e out :
  (from <= start)%nat -> (start < e)%nat -> (e <= len)%nat -> match_at v email_re start = Some e ->
  (forall i, (from <= i < start)%nat -> match_at v email_re i = None) ->
  find_from (match_at v email_re) (seq from (S len - from)) (from, out) =
  find_from (match_at v email_re) (seq e (S len - e)) (e, out ++ [(start, e)]).
Proof.
  intros H1 H2 H3 Hm Hno.
  replace (S len - from)%nat with ((start - from) + (1 + ((e - S start) + (S len - e))))%nat by lia.
  rewrite !seq_app, !find_from_app. replace (from + (start - from))%nat with start by lia.
  rewrite (find_none from) by (intros; apply Hno; lia).
  replace (start + 1 + (e - S start))%nat with e by lia. f_equal.
  assert (find_from (match_at v email_re) (seq start 1) (from, out) = (e, out ++ [(start, e)])) as ->.
  { cbn. unfold find_step. cbn [fst snd]. rewrite Hm. by destruct (Nat.ltb_spec start from); [lia|]. }
  apply find_from_before, List.Forall_forall. intros j Hj%in_seq. lia.
Qed.

Lemma addr_end_bound s e : addr_end s = Some e -> (s < e)%nat.
Proof. intros H%domain_end_after. lia. Qed.

Lemma match_end_bound i e : match_at v email_re i = Some e -> (e <= len)%nat.
Proof.
  intros H. destruct (match_in i e H) as (_ & _ & _ & Ha). unfold addr_end in Ha.
  set (hi := while_at _ _ _) in Ha. clearbody hi. revert Ha. generalize (hi - 1)%nat as dot. induction dot as [|d IH]; [done|].
  cbn [domain_end]. destruct (_ <=? _)%nat; [done|]. destruct (negb _); [done|]. cbn zeta.
  destruct (Nat.ltb_spec (while_at (alpha_at v) (hi - S (S d)) (S (S d)) - S d - 1) 2); [done|]. destruct (word_at v _); [done|].
  intros [= <-]. rewrite (while_count _ alpha) in * by apply email_alpha_at_is.
  set (n := count_from v alpha (hi - S (S d)) (S (S d))) in *.
  assert (byte_is v alpha (S (S d) + (n - 1)) = true) as Hl.
  { apply (count_from_in v alpha (hi - S (S d)) (S (S d))). fold n. lia. }
  apply byte_is_lt in Hl. fold len in Hl. lia.
Qed.

Lemma scan_email_ok fuel from a out :
  (len - a < fuel)%nat -> (from <= a)%nat -> (from <= len)%nat -> matches_from from a ->
  out ++ as_pairs (scan_email v fuel from a) =
  (find_from (match_at v email_re) (seq from (S len - from)) (from, out)).2.
Proof.
  revert from a out. induction fuel as [|f IH]; intros from a out Hf Hfa Hfl Hm; [lia|]. cbn [scan_email]. fold len.
  pose proof (sign_from_spec len a ltac:(lia)) as Hs. destruct (sign_from v len a) as [s|].
  2:{ cbn [as_pairs map]. rewrite app_nil_r, find_none; [done|]. intros i Hi.
      destruct (match_at v email_re i) as [e|] eqn:E; [|done]. pose proof (Hm i e ltac:(lia) E).
      destruct (match_in i e E) as (_ & He & _). by rewrite Hs in He by lia. }
  destruct Hs as (Has & Hs & Hno). pose proof (byte_is_lt _ _ _ Hs) as Hlt. fold len in Hlt.
  pose proof (matches_up_to from a s Hs Hno Hm) as Hmatch.
  destruct (local_start_spec from s) as (P1 & P2 & P3 & P4).
  pose proof (first_boundary_spec (s - local_start v from s) (local_start v from s)) as Hb.
  unfold address_at. fold len. fold (addr_end s).
  destruct (first_boundary v (s - local_start v from s) (local_start v from s)) as [start|].
  2:{ apply IH; [lia|lia|lia|]. apply (next_sign from a); [lia|done|]. intros i Hi. rewrite Hmatch by done.
      destruct (Nat.leb_spec (local_start v from s) i), (Nat.ltb_spec i s); try done. cbn [andb]. by rewrite Hb by lia. }
  destruct Hb as (B1 & B2 & B3). destruct (addr_end s) as [e|] eqn:Ee.
  2:{ apply IH; [lia|lia|lia|]. apply (next_sign from a); [lia|done|]. intros i Hi. rewrite Hmatch by done.
      by destruct (_ && _). }
  assert (match_at v email_re start = Some e) as Hst.
  { rewrite Hmatch, B2 by lia. destruct (Nat.leb_spec (local_start v from s) start), (Nat.ltb_spec start s); done || lia. }
  pose proof (addr_end_bound s e Ee). pose proof (match_end_bound start e Hst).
  rewrite (find_one from start e out) by (done || lia || (intros i Hi; rewrite Hmatch by lia;
    destruct (Nat.leb_spec (local_start v from s) i), (Nat.ltb_spec i s); try done; cbn [andb]; by rewrite B3 by lia)).
  cbn [as_pairs map Start End_ candidate]. fold (as_pairs (scan_email v f e e)).
  change ((start, e) :: as_pairs (scan_email v f e e)) with ([(start, e)] ++ as_pairs (scan_email v f e e)).
  rewrite app_assoc. apply IH; [lia|lia|lia|]. intros i e' Hi Em. destruct (match_in i e' Em) as (Hl & _). lia.
Qed.
End Value.

Lemma scanEmail_exact_all value : as_pairs (scanEmail value) = FindAll value email_re.
Proof.
  unfold scanEmail, FindAll.
  apply (scan_email_ok value _ 0 0 []); [lia|lia|lia|]. intros i e _ _. lia.
Qed.

(** C26: on every value the e-mail scanner, which looks only around the signs, finds exactly the spans
    that a search of the whole value for the e-mail pattern finds, in the same order. *)
Theorem scanEmail_exact value : as_pairs (scanEmail value) = FindAll value email_re.
Proof. apply scanEmail_exact_all. Qed.
