(* ===== verification/Rules.v ===== *)
(** The compiled rules: [src/internal/transforms/packs/packs.go] (a rule's three ways to match, its guard
    and checksum, the compilation of a corpus) and [anchor.go] (the literal entry points of a pattern).
    Go's regular expressions are the class [RegexpEngine]; a corpus is what its file decodes to. *)

From S2P Require Import Prelude GoLib GoJson Vocab Heuristic Prefilter Redact Pii.

(** ** The standard library's [regexp] *)

(** [Compile]; [FindAllStringSubmatchIndex] and [FindStringSubmatchIndex], whose result holds a pair of
    byte offsets for the match and for each group, -1 for a group that took no part. *)
Class RegexpEngine := {
  regexp : Type;
  Compile : string -> result error regexp;
  FindAllIndex : regexp -> string -> list (list Z);
  FindIndex : regexp -> string -> option (list Z)
}.

(** ** anchor.go *)

Definition maxAnchorLits : nat := 8.
Definition minAnchorLen : nat := 2.
Definition litUnscanned : Z := -2.
Definition litExhausted : Z := -1.

(** The two ASCII spellings of a byte. *)
Definition foldCases (c : ascii) : ascii * ascii :=
  if is_lower c then (c, byte_of (byte_code c - 32))
  else if is_upper c then (c, byte_of (byte_code c + 32))
  else (c, c).

(** [unicode.SimpleFold] leaves ASCII from two letters only: k meets U+212A and s meets U+017F. *)
Definition foldOrbitASCII (c : ascii) : bool :=
  negb (existsb (Ascii.eqb c) ["k"; "K"; "s"; "S"]%char).
Definition kelvin : string := String (byte_of 226) (String (byte_of 132) (String (byte_of 170) "")).
Definition long_s : string := String (byte_of 197) (String (byte_of 191) "").
(** [foldEq] of the wide rune that starts a text and an ASCII byte. *)
Definition wide_folds (s : string) (want : ascii) : bool :=
  has_prefix kelvin s && ((want =? "k")%char || (want =? "K")%char) ||
  has_prefix long_s s && ((want =? "s")%char || (want =? "S")%char).

(** The size [utf8.DecodeRuneInString] gives: one byte for what starts no encoding. *)
Definition decode_size (s : string) : nat := match rune_len s with O => 1%nat | n => n end.

Fixpoint hasFoldPrefix (s lit : string) : bool :=
  match lit with
  | "" => true
  | String want lit' =>
      match s with
      | "" => false
      | String c r =>
          if byte_code c <? 128 then
            let '(lo, hi) := foldCases want in
            if negb (c =? lo)%char && negb (c =? hi)%char then false else hasFoldPrefix r lit'
          else if wide_folds s want then hasFoldPrefix (str_drop (decode_size s) s) lit'
          else false
      end
  end.

Definition IndexByte (s : string) (c : ascii) : option nat := str_index (String c "") s.
Definition indexEitherByte (s : string) (a b : ascii) : option nat :=
  match IndexByte s a with
  | None => if (a =? b)%char then None else IndexByte s b
  | Some ia =>
      if (a =? b)%char || (ia =? 0)%nat then Some ia
      else match IndexByte (str_take ia s) b with Some ib => Some ib | None => Some ia end
  end.

(** The fuel is the text's length: a round moves past the byte it stopped at. *)
Fixpoint indexFold_loop (fuel : nat) (s lit : string) (lo hi : ascii) (i : nat) : option nat :=
  match fuel with
  | O => None
  | S f =>
      if (i <? String.length s)%nat then
        match indexEitherByte (str_drop i s) lo hi with
        | None => None
        | Some j =>
            let at_ := (i + j)%nat in
            if hasFoldPrefix (str_drop at_ s) lit then Some at_ else indexFold_loop f s lit lo hi (S at_)
        end
      else None
  end.
Definition indexFold (s lit : string) : option nat :=
  match lit with
  | "" => None
  | String c _ => let '(lo, hi) := foldCases c in indexFold_loop (S (String.length s)) s lit lo hi 0
  end.

Section Rules.
Context {engine : RegexpEngine}.

Record anchorScan := mkAnchorScan { verify : regexp; lits : list string; fold : bool; wordEdge : bool }.

Definition anchorable (fold wordEdge : bool) (k : string) : bool :=
  match k with
  | "" => false
  | String c _ =>
      (minAnchorLen <=? String.length k)%nat && str_forallb (fun c => byte_code c <? 128) k &&
      negb (wordEdge && negb (isWordByte c)) && negb (fold && negb (foldOrbitASCII (asciiLower c)))
  end.

Definition newAnchorScan (pattern : string) (keywords : list string) (sweep : bool)
    : result error (option anchorScan) :=
  if sweep || (length keywords =? 0)%nat || (maxAnchorLits <? length keywords)%nat then Ok None
  else
    let fold := has_prefix "(?i)" pattern in
    let rest := trim_prefix "(?i)" pattern in
    if str_contains "(?i" rest then Ok None
    else
      let wordEdge := has_prefix "\b" rest in
      if negb (forallb (anchorable fold wordEdge) keywords) then Ok None
      else match Compile ("\A(?:" +:+ pattern +:+ ")") with
           | Err e => Err (wrap_error ("anchor: anchored form of " +:+ pattern +:+ ": ") e)
           | Ok verify => Ok (Some (mkAnchorScan verify keywords fold wordEdge))
           end.

(** [anchorScan.index], within the value. *)
Definition lit_index (s : anchorScan) (value : string) (from : nat) (lit : string) : Z :=
  match (if fold s then indexFold else fun text lit => str_index lit text) (str_drop from value) lit with
  | None => litExhausted
  | Some a => Z.of_nat (from + a)
  end.

(** [litCursor.next]: the next occurrence of each literal, and the lowest. *)
Definition next_lit (s : anchorScan) (value : string) (pos : nat) (lit : string) (a : Z) : Z :=
  if a =? litExhausted then a else if a <? Z.of_nat pos then lit_index s value pos lit else a.
Definition lowest (best a : Z) : Z := if (0 <=? a) && ((best <? 0) || (a <? best)) then a else best.
Definition next_cursor (s : anchorScan) (value : string) (pos : nat) (cursor : list Z) : list Z * Z :=
  let cursor := zip_with (next_lit s value pos) (lits s) cursor in
  (cursor, foldl lowest (-1) cursor).

(** ** packs.go *)

Record PackRule := mkPackRule {
  r_id : string;
  r_re : regexp;
  r_keywords : list string;
  r_capture : nat;
  r_checksum : option (string -> bool);
  r_guard : option (string -> nat -> nat -> bool);
  hand : option (string -> list Span);
  fused : fusedKind;
  anchor : option anchorScan
}.

Definition accepts (r : PackRule) (value : string) (start end_ : nat) : bool :=
  match r_guard r with Some g => g value start end_ | None => true end &&
  match r_checksum r with Some c => c (slice value start end_) | None => true end.

(** A nil slice and an empty one are the same list. *)
Definition checked (r : PackRule) (found : list Span) (value : string) : list Span :=
  map (fun s => mkSpan (Start s) (End_ s) (r_id r))
    (List.filter (fun s => accepts r value (Start s) (End_ s)) found).

Definition loc_at (loc : list Z) (i : nat) : Z := default (-1) (loc !! i).

Definition rule_span (r : PackRule) (value : string) (loc : list Z) : option Span :=
  let c := r_capture r in
  let captured := (0 <? c)%nat && (2 * c + 1 <? length loc)%nat && (0 <=? loc_at loc (2 * c)) in
  let start := Z.to_nat (if captured then loc_at loc (2 * c) else loc_at loc 0) in
  let end_ := Z.to_nat (if captured then loc_at loc (2 * c + 1) else loc_at loc 1) in
  if accepts r value start end_ then Some (mkSpan start end_ (r_id r)) else None.

Definition matchSweep (r : PackRule) (value : string) : list Span :=
  omap (rule_span r value) (FindAllIndex (r_re r) value).

Definition shift_loc (at_ : nat) (loc : list Z) : list Z :=
  map (fun x => if 0 <=? x then x + Z.of_nat at_ else x) loc.

(** The fuel is the value's length: a round moves past its candidate. *)
Fixpoint anchored_loop (fuel : nat) (r : PackRule) (s : anchorScan) (value : string) (cursor : list Z)
    (pos : nat) : list Span :=
  match fuel with
  | O => []
  | S f =>
      if (pos <=? String.length value)%nat then
        let '(cursor, a) := next_cursor s value pos cursor in
        if a <? 0 then []
        else
          let at_ := Z.to_nat a in
          if wordEdge s && (0 <? at_)%nat && byte_is value isWordByte (at_ - 1)
          then anchored_loop f r s value cursor (at_ + 1)
          else match FindIndex (verify s) (str_drop at_ value) with
               | None => anchored_loop f r s value cursor (at_ + 1)
               | Some loc =>
                   let loc := shift_loc at_ loc in
                   let pos := Z.to_nat (loc_at loc 1) in
                   let pos := if (pos <=? at_)%nat then (at_ + 1)%nat else pos in
                   match rule_span r value loc with Some sp => [sp] | None => [] end ++
                   anchored_loop f r s value cursor pos
               end
      else []
  end.
Definition matchAnchored (r : PackRule) (s : anchorScan) (value : string) : list Span :=
  anchored_loop (S (S (String.length value))) r s value (replicate (length (lits s)) litUnscanned) 0.

(** A fused rule walks for itself here; the kind of a fused rule has a list. *)
Definition fused_candidates (kind : fusedKind) (value : string) : list Span :=
  default [] (scan_candidates kind (Reset value (mkValueScan "" false no_pii))).2.

Definition is_fused (kind : fusedKind) : bool := match kind with fusedNone => false | _ => true end.

Definition rule_MatchScanned (r : PackRule) (value : string) : list Span :=
  if is_fused (fused r) then checked r (fused_candidates (fused r) value) value
  else match hand r with
       | Some scan => checked r (scan value) value
       | None => match anchor r with
                 | Some s => matchAnchored r s value
                 | None => matchSweep r value
                 end
       end.

(** [MatchScannedIn]: over a scan shared between the rules, whose value the guard and checksum read and
    whose list [checked] filters in place. *)
Definition MatchScannedIn (r : PackRule) (value : string) (scan : ValueScan) : ValueScan * list Span :=
  if is_fused (fused r) then
    let '(scan, found) := scan_candidates (fused r) scan in
    let out := checked r (default [] found) (vs_value scan) in
    (mkValueScan (vs_value scan) (done scan) (refill (fused r) out (vs_found scan)), out)
  else (scan, rule_MatchScanned r value).

(** The rules asked in turn through one scan, each answer copied out before the next is asked. *)
Fixpoint ask_rules (rs : list PackRule) (value : string) (scan : ValueScan) : ValueScan * list Span :=
  match rs with
  | [] => (scan, [])
  | r :: rs =>
      let '(scan, found) := MatchScannedIn r value scan in
      let '(scan, rest) := ask_rules rs value scan in
      (scan, found ++ rest)
  end.

(** ** The registries *)

Definition checksums (name : string) : option (string -> bool) :=
  if (name =? "iban")%string then Some ibanValid
  else if (name =? "pesel")%string then Some peselValid
  else if (name =? "pan")%string then Some panValid
  else None.

Definition is_dot (c : ascii) : bool := (c =? ".")%char.
Definition no_decimal_neighbor (value : string) (start end_ : nat) : bool :=
  negb ((0 <? start)%nat && byte_is value is_dot (start - 1)) &&
  negb (byte_is value is_dot end_ && byte_is value is_digit (end_ + 1)).
Definition has_digit (value : string) (start end_ : nat) : bool :=
  str_existsb is_digit (slice value start end_).

Definition guards (name : string) : option (string -> nat -> nat -> bool) :=
  if (name =? "no-decimal-neighbor")%string then Some no_decimal_neighbor
  else if (name =? "has-digit")%string then Some has_digit
  else None.

Definition scanners (name : string) : option (option (string -> list Span) * fusedKind) :=
  if (name =? "card-pan")%string then Some (None, fusedCardPAN)
  else if (name =? "iban")%string then Some (None, fusedIBAN)
  else if (name =? "pesel")%string then Some (None, fusedPESEL)
  else if (name =? "email")%string then Some (Some scanEmail, fusedNone)
  else None.

(** ** Compilation *)

Record ruleSpec := mkRuleSpec {
  ID : string;
  RegexText : string;
  spec_Keywords : list string;
  Capture : nat;
  Checksum : string;
  Guard : string;
  Scanner : string;
  Sweep : bool
}.
Record corpus := mkCorpus { Pack : string; Rules : list ruleSpec }.

(** [%q] of a name of printable ASCII. *)
Definition name_quote (s : string) : string := dquote +:+ s +:+ dquote.
Definition spec_error (pack : string) (spec : ruleSpec) (what : string) : error :=
  errors_New ("packs: " +:+ pack +:+ " rule " +:+ ID spec +:+ ": " +:+ what).

(** A named entry of a registry: none for no name, an error for an unknown one. *)
Definition lookup_named {A} (registry : string -> option A) (pack : string) (spec : ruleSpec) (what name : string)
    : result error (option A) :=
  if (name =? "")%string then Ok None
  else match registry name with
       | Some f => Ok (Some f)
       | None => Err (spec_error pack spec ("unknown " +:+ what +:+ " " +:+ name_quote name))
       end.

Definition compileSpec (pack : string) (spec : ruleSpec) : result error PackRule :=
  match Compile (RegexText spec) with
  | Err e => Err (wrap_error ("packs: " +:+ pack +:+ " rule " +:+ ID spec +:+ ": ") e)
  | Ok re =>
      let! checksum := lookup_named checksums pack spec "checksum" (Checksum spec) in
      let! guard := lookup_named guards pack spec "guard" (Guard spec) in
      let! scanner := lookup_named scanners pack spec "scanner" (Scanner spec) in
      match scanner with
      | Some (scan, kind) =>
          if (0 <? Capture spec)%nat
          then Err (spec_error pack spec ("scanner " +:+ name_quote (Scanner spec) +:+ " with capture group "
                                          +:+ int_text (Z.of_nat (Capture spec))))
          else Ok (mkPackRule (ID spec) re (spec_Keywords spec) (Capture spec) checksum guard scan kind None)
      | None =>
          match newAnchorScan (RegexText spec) (spec_Keywords spec) (Sweep spec) with
          | Err e => Err (wrap_error ("packs: " +:+ pack +:+ " rule " +:+ ID spec +:+ ": ") e)
          | Ok anchor =>
              Ok (mkPackRule (ID spec) re (spec_Keywords spec) (Capture spec) checksum guard None fusedNone anchor)
          end
      end
  end.

Fixpoint compile_all (pack : string) (specs : list ruleSpec) : result error (list PackRule) :=
  match specs with
  | [] => Ok []
  | spec :: rest => let! r := compileSpec pack spec in let! rs := compile_all pack rest in Ok (r :: rs)
  end.

(** [corpora] is the embedded files, decoded; its error is what follows [packs: ]. *)
Definition Load (corpora : string -> result error corpus) (pack : string) : result error (list PackRule) :=
  match corpora pack with
  | Err e => Err (wrap_error "packs: " e)
  | Ok c =>
      if negb (Pack c =? pack)%string
      then Err (errors_New ("packs: " +:+ pack +:+ ".json declares pack " +:+ name_quote (Pack c)))
      else compile_all pack (Rules c)
  end.

(** ** The interface the engine uses *)

Definition engine_rule (r : PackRule) : Redact.Rule := Redact.mkRule (r_id r) (r_keywords r) (rule_MatchScanned r).
Definition packs_corpora (corpora : string -> result error corpus)
    (names : list string -> string -> list Span) : Corpora := {|
  packs_Load := fun pack => let! rs := Load corpora pack in Ok (map engine_rule rs);
  key_name_regexp := names
|}.
End Rules.
