(* ===== verification/RulesSafe.v ===== *)
(** A rule answers the same whichever way it is asked: an anchored rule, which only looks where one of
    its literals stands, finds what a sweep of the whole value with its pattern finds; and every rule a
    corpus compiles to satisfies what the engine relies on. *)

From S2P Require Import Prelude GoLib GoJson GoText Vocab Heuristic Prefilter Spans SpansSafe Redact RedactSafe Pii PiiSafe Rules.

(** ** The first occurrence *)

Definition none_before (q : nat -> bool) (i : nat) : Prop := forall j, (j < i)%nat -> q j = false.
Definition first_at (q : nat -> bool) (o : option nat) : Prop :=
  match o with Some i => q i = true /\ none_before q i | None => forall j, q j = false end.

Lemma drop_past n s : (String.length s <= n)%nat -> str_drop n s = "".
Proof. revert s. induction n as [|n IH]; intros [|c s]; simpl; try done; [lia|]. intros H. apply IH. lia. Qed.

Lemma str_index_first p s : p <> "" -> first_at (fun j => has_prefix p (str_drop j s)) (str_index p s).
Proof.
  intros Hp. assert (Hnil : forall j, has_prefix p (str_drop j "") = false).
  { intros [|j]; simpl; by destruct p. }
  induction s as [|c s IH]; cbn [str_index].
  { rewrite (Hnil O : has_prefix p "" = false). exact Hnil. }
  destruct (has_prefix p (String c s)) eqn:E.
  { split; [done|]. intros j Hj. lia. }
  destruct (str_index p s) as [i|]; cbn [first_at] in *.
  - destruct IH as [H1 H2]. split; [done|]. intros [|j] Hj; [done|]. apply H2. lia.
  - intros [|j]; [done|apply IH].
Qed.

Definition byte_at (s : string) (c : ascii) (j : nat) : bool := byte_is s (Ascii.eqb c) j.

Lemma byte_at_prefix s c j : has_prefix (String c "") (str_drop j s) = byte_at s c j.
Proof.
  unfold byte_at, byte_is. revert j. induction s as [|d s IH]; intros [|j]; simpl; try done; [by rewrite andb_true_r|apply IH].
Qed.

Lemma IndexByte_first s c : first_at (byte_at s c) (IndexByte s c).
Proof.
  pose proof (str_index_first (String c "") s ltac:(done)) as H. unfold IndexByte.
  destruct (str_index _ s) as [i|]; cbn [first_at] in *.
  - destruct H as [H1 H2]. rewrite byte_at_prefix in H1. split; [done|]. intros j Hj. rewrite <- byte_at_prefix. by apply H2.
  - intros j. by rewrite <- byte_at_prefix.
Qed.

Lemma byte_at_take s c i j : byte_at (str_take i s) c j = (j <? i)%nat && byte_at s c j.
Proof.
  unfold byte_at, byte_is. revert i j.
  induction s as [|d s IH]; intros [|i] [|j]; cbn [str_take String.get Nat.ltb Nat.leb]; rewrite ?andb_false_r; done || apply IH.
Qed.

Lemma first_or q q' i : q i = true -> none_before q i -> none_before q' i ->
  first_at (fun j => q j || q' j) (Some i).
Proof. intros H1 H2 H3. split; [by rewrite H1|]. intros j Hj. by rewrite H2, H3. Qed.

Lemma indexEitherByte_first s a b :
  first_at (fun j => byte_at s a j || byte_at s b j) (indexEitherByte s a b).
Proof.
  unfold indexEitherByte. pose proof (IndexByte_first s a) as Ha. pose proof (IndexByte_first s b) as Hb.
  destruct (IndexByte s a) as [ia|]; cbn [first_at] in Ha.
  - destruct Ha as [Ha1 Ha2]. destruct (Ascii.eqb_spec a b) as [<-|Hab]; cbn [orb].
    { by apply first_or. }
    destruct (Nat.eqb_spec ia 0) as [->|Hz].
    { apply first_or; [done|done|]. intros j Hj. lia. }
    pose proof (IndexByte_first (str_take ia s) b) as Hc. destruct (IndexByte (str_take ia s) b) as [ib|]; cbn [first_at] in Hc.
    + destruct Hc as [Hc1 Hc2]. rewrite byte_at_take in Hc1. apply andb_true_iff in Hc1 as [Hlt%Nat.ltb_lt Hc1].
      split; [by rewrite Hc1, orb_true_r|]. intros j Hj. rewrite Ha2 by lia. specialize (Hc2 j Hj).
      rewrite byte_at_take in Hc2. destruct (Nat.ltb_spec j ia); [done|lia].
    + apply first_or; [done|done|]. intros j Hj. specialize (Hc j). rewrite byte_at_take in Hc.
      destruct (Nat.ltb_spec j ia); [done|lia].
  - destruct (Ascii.eqb_spec a b) as [<-|Hab]; [intros j; by rewrite Ha|].
    destruct (IndexByte s b) as [ib|]; cbn [first_at] in Hb.
    + destruct Hb as [Hb1 Hb2]. split; [by rewrite Hb1, orb_true_r|]. intros j Hj. by rewrite Ha, Hb2.
    + intros j. by rewrite Ha, Hb.
Qed.

(** ** A literal under folding starts on one of its two spellings *)

Lemma fold_start c lit' d r :
  foldOrbitASCII (asciiLower c) = true -> hasFoldPrefix (String d r) (String c lit') = true ->
  Ascii.eqb (foldCases c).1 d || Ascii.eqb (foldCases c).2 d = true.
Proof.
  intros Ho. cbn [hasFoldPrefix]. destruct (byte_code d <? 128).
  - destruct (foldCases c) as [lo hi]. cbn [fst snd].
    rewrite (Ascii.eqb_sym lo d), (Ascii.eqb_sym hi d). destruct (d =? lo)%char, (d =? hi)%char; done.
  - unfold wide_folds. destruct (c =? "k")%char eqn:E1; [by apply Ascii.eqb_eq in E1; subst c|].
    destruct (c =? "K")%char eqn:E2; [by apply Ascii.eqb_eq in E2; subst c|].
    destruct (c =? "s")%char eqn:E3; [by apply Ascii.eqb_eq in E3; subst c|].
    destruct (c =? "S")%char eqn:E4; [by apply Ascii.eqb_eq in E4; subst c|].
    by rewrite !andb_false_r.
Qed.

Lemma byte_at_drop s c i j : byte_at (str_drop i s) c j = byte_at s c (i + j).
Proof.
  unfold byte_at, byte_is. revert i.
  induction s as [|d s IH]; intros [|i]; cbn [str_drop String.get Nat.add]; done || apply IH.
Qed.

Lemma drop_get s j d r : str_drop j s = String d r -> String.get j s = Some d.
Proof. revert j. induction s as [|c s IH]; intros [|j]; simpl; try done; [by intros [= <-]|apply IH]. Qed.

Lemma indexFold_loop_first fuel s c lit' i :
  foldOrbitASCII (asciiLower c) = true -> (String.length s - i < fuel)%nat ->
  none_before (fun j => hasFoldPrefix (str_drop j s) (String c lit')) i ->
  first_at (fun j => hasFoldPrefix (str_drop j s) (String c lit'))
    (indexFold_loop fuel s (String c lit') (foldCases c).1 (foldCases c).2 i).
Proof.
  intros Ho. assert (Hstart : forall j, hasFoldPrefix (str_drop j s) (String c lit') = true ->
    byte_at s (foldCases c).1 j || byte_at s (foldCases c).2 j = true).
  { intros j Hj. destruct (str_drop j s) as [|d r] eqn:E; [done|]. unfold byte_at, byte_is.
    rewrite (drop_get _ _ _ _ E). by eapply fold_start. }
  revert i. induction fuel as [|f IH]; intros i Hf Hn; [lia|]. cbn [indexFold_loop].
  destruct (Nat.ltb_spec i (String.length s)).
  2:{ intros j. destruct (decide (j < i)%nat); [by apply Hn|]. by rewrite drop_past by lia. }
  pose proof (indexEitherByte_first (str_drop i s) (foldCases c).1 (foldCases c).2) as He.
  destruct (indexEitherByte _ _ _) as [j|]; cbn [first_at] in He.
  - destruct He as [He1 He2].
    assert (Hn' : none_before (fun j => hasFoldPrefix (str_drop j s) (String c lit')) (i + j)).
    { intros k Hk. destruct (decide (k < i)%nat); [by apply Hn|].
      destruct (hasFoldPrefix (str_drop k s) (String c lit')) eqn:E; [|done]. apply Hstart in E.
      specialize (He2 (k - i)%nat ltac:(lia)). cbn beta in He2. rewrite !byte_at_drop in He2.
      replace (i + (k - i))%nat with k in He2 by lia. congruence. }
    destruct (hasFoldPrefix (str_drop (i + j) s) (String c lit')) eqn:Ej; [by split|].
    apply IH; [lia|]. intros k Hk. destruct (decide (k = i + j)%nat) as [->|]; [done|]. apply Hn'. lia.
  - intros k. destruct (hasFoldPrefix (str_drop k s) (String c lit')) eqn:E; [|done].
    destruct (decide (k < i)%nat); [by rewrite Hn in E|]. apply Hstart in E.
    specialize (He (k - i)%nat). cbn beta in He. rewrite !byte_at_drop in He. replace (i + (k - i))%nat with k in He by lia. congruence.
Qed.

Lemma indexFold_first s c lit' : foldOrbitASCII (asciiLower c) = true ->
  first_at (fun j => hasFoldPrefix (str_drop j s) (String c lit')) (indexFold s (String c lit')).
Proof.
  intros Ho. unfold indexFold. destruct (foldCases c) as [lo hi] eqn:E.
  pose proof (indexFold_loop_first (S (String.length s)) s c lit' 0 Ho ltac:(lia)) as H.
  rewrite E in H. apply H. intros j Hj. lia.
Qed.

(** ** The cursor *)

Section Anchored.
Context {engine : RegexpEngine}.
Variables (s : anchorScan) (value : string).

(** An entry literal stands at a position. *)
Definition stands (lit : string) (p : nat) : bool :=
  if fold s then hasFoldPrefix (str_drop p value) lit else has_prefix lit (str_drop p value).

Lemma lit_index_first pos lit : anchorable (fold s) (wordEdge s) lit = true ->
  let a := lit_index s value pos lit in
  (a = -1 /\ forall j, (pos <= j)%nat -> stands lit j = false) \/
  (exists i, a = Z.of_nat i /\ (pos <= i)%nat /\ stands lit i = true /\ forall j, (pos <= j < i)%nat -> stands lit j = false).
Proof.
  intros Ha. destruct lit as [|c lit']; [done|]. cbn [anchorable] in Ha.
  assert (H : first_at (fun j => stands (String c lit') (pos + j))
    ((if fold s then indexFold else fun text lit => str_index lit text) (str_drop pos value) (String c lit'))).
  { unfold stands. destruct (fold s).
    - assert (foldOrbitASCII (asciiLower c) = true) as Ho.
      { rewrite !andb_true_iff in Ha. destruct Ha as [_ Ha]. cbn [andb] in Ha. by rewrite negb_involutive in Ha. }
      pose proof (indexFold_first (str_drop pos value) c lit' Ho) as H.
      destruct (indexFold _ _) as [i|]; cbn [first_at] in *.
      + destruct H as [H1 H2]. split; [by rewrite <- str_drop_drop|]. intros j Hj. rewrite <- str_drop_drop. by apply H2.
      + intros j. rewrite <- str_drop_drop. apply H.
    - pose proof (str_index_first (String c lit') (str_drop pos value) ltac:(done)) as H.
      destruct (str_index _ _) as [i|]; cbn [first_at] in *.
      + destruct H as [H1 H2]. split; [by rewrite <- str_drop_drop|]. intros j Hj. rewrite <- str_drop_drop. by apply H2.
      + intros j. rewrite <- str_drop_drop. apply H. }
  cbn zeta. unfold lit_index. destruct ((if fold s then _ else _) _ _) as [i|]; cbn [first_at] in H.
  - right. exists (pos + i)%nat. destruct H as [H1 H2]. split_and!; [done|lia|done|]. intros j Hj.
    specialize (H2 (j - pos)%nat ltac:(lia)). cbn beta in H2. by replace (pos + (j - pos))%nat with j in H2 by lia.
  - left. split; [done|]. intros j Hj. specialize (H (j - pos)%nat). cbn beta in H.
    by replace (pos + (j - pos))%nat with j in H by lia.
Qed.

(** What a remembered position says of its literal from [pos] on. *)
Definition remembers (pos : nat) (lit : string) (a : Z) : Prop :=
  (a = -1 /\ forall j, (pos <= j)%nat -> stands lit j = false) \/
  (exists i, a = Z.of_nat i /\ (pos <= i)%nat /\ stands lit i = true /\ forall j, (pos <= j < i)%nat -> stands lit j = false).
(** What is left of that at a later position: nothing, when the literal was passed. *)
Definition stale (pos : nat) (lit : string) (a : Z) : Prop :=
  (a <> -1 /\ a < Z.of_nat pos) \/ remembers pos lit a.

Lemma remembers_stale pos pos' lit a : (pos <= pos')%nat -> remembers pos lit a -> stale pos' lit a.
Proof.
  intros Hp [[-> H]|(i & -> & Hi & Hs & Hn)].
  - right. left. split; [done|]. intros j Hj. apply H. lia.
  - destruct (decide (i < pos')%nat); [left; lia|]. right. right. exists i. split_and!; [done|lia|done|].
    intros j Hj. apply Hn. lia.
Qed.

Lemma next_lit_ok pos lit a : anchorable (fold s) (wordEdge s) lit = true ->
  stale pos lit a -> remembers pos lit (next_lit s value pos lit a).
Proof.
  intros Ha H. unfold next_lit, litExhausted. destruct (Z.eqb_spec a (-1)) as [->|Hne].
  { destruct H as [[H _]|H]; [done|]. exact H. }
  destruct (Z.ltb_spec a (Z.of_nat pos)); [by apply lit_index_first|].
  destruct H as [[_ H]|H]; [lia|exact H].
Qed.

Definition none_stands (lits : list string) (i j : nat) : Prop :=
  Forall (fun lit => forall k, (i <= k < j)%nat -> stands lit k = false) lits.

(** The lowest of the remembered positions is the first where any literal stands. *)
Lemma lowest_ok pos ls cursor best :
  Forall2 (remembers pos) ls cursor -> (best = -1 \/ Z.of_nat pos <= best) ->
  let a := foldl lowest best cursor in
  (a = -1 /\ best = -1 /\ Forall (fun lit => forall j, (pos <= j)%nat -> stands lit j = false) ls) \/
  (exists i, a = Z.of_nat i /\ (pos <= i)%nat /\ none_stands ls pos i /\ (best = -1 \/ a <= best) /\
     (a = best \/ exists lit, lit ∈ ls /\ stands lit i = true)).
Proof.
  intros H. revert best. induction H as [|lit a ls cursor Hr _ IH]; intros best Hb; cbn [foldl].
  { destruct Hb as [->|Hb]; [by left|]. right. exists (Z.to_nat best).
    split_and!; [lia|lia|constructor|right; lia|by left]. }
  assert (Hb' : lowest best a = -1 \/ Z.of_nat pos <= lowest best a).
  { unfold lowest. destruct Hr as [[-> _]|(i & -> & Hi & _)]; [done|]. destruct (_ && _); [right; lia|done]. }
  specialize (IH (lowest best a) Hb'). cbn zeta in *. unfold none_stands in *.
  destruct Hr as [[-> Hno]|(i & -> & Hi & Hs & Hno)].
  - change (lowest best (-1)) with best in *. destruct IH as [(E & Eb & Hall)|(k & E & Hk & Hn & Hle & Hw)].
    + left. split_and!; [done|done|]. by constructor.
    + right. exists k. split_and!; [done|done| |done|].
      * constructor; [|done]. intros j Hj. apply Hno. lia.
      * destruct Hw as [Hw|(l & Hl & Hst)]; [by left|]. right. exists l. split; [by right|done].
  - assert (Hlow : (lowest best (Z.of_nat i) = Z.of_nat i /\ (best = -1 \/ Z.of_nat i <= best)) \/
                   (lowest best (Z.of_nat i) = best /\ 0 <= best <= Z.of_nat i)).
    { unfold lowest. destruct (Z.leb_spec 0 (Z.of_nat i)); [|lia].
      destruct (Z.ltb_spec best 0), (Z.ltb_spec (Z.of_nat i) best); cbn [andb orb]; lia. }
    destruct IH as [(E & Eb & Hall)|(k & E & Hk & Hn & Hle & Hw)]; [lia|]. rewrite E in *.
    right. exists k. split_and!; [done|done|constructor; [intros j Hj; apply Hno; lia|done]|lia|].
    destruct Hw as [Hw|(l & Hl & Hst)]; [|right; exists l; split; [by right|done]].
    destruct Hlow as [[El _]|[El _]]; [|left; congruence].
    right. exists lit. split; [by left|]. by replace k with i by lia.
Qed.

Lemma next_cursor_ok pos cursor :
  Forall (fun lit => anchorable (fold s) (wordEdge s) lit = true) (lits s) ->
  Forall2 (stale pos) (lits s) cursor ->
  let '(cursor', a) := next_cursor s value pos cursor in
  Forall2 (remembers pos) (lits s) cursor' /\
  ((a = -1 /\ Forall (fun lit => forall j, (pos <= j)%nat -> stands lit j = false) (lits s)) \/
   (exists i, a = Z.of_nat i /\ (pos <= i)%nat /\ none_stands (lits s) pos i /\
      exists lit, lit ∈ lits s /\ stands lit i = true)).
Proof.
  intros Ha Hc. unfold next_cursor.
  assert (Hr : Forall2 (remembers pos) (lits s) (zip_with (next_lit s value pos) (lits s) cursor)).
  { revert Ha. induction Hc as [|lit a ls c Hs _ IH]; intros Ha; [constructor|]. inversion Ha; subst.
    constructor; [by apply next_lit_ok|by apply IH]. }
  split; [done|]. destruct (lowest_ok pos _ _ (-1) Hr ltac:(by left)) as [(E & _ & H)|(i & E & H1 & H2 & _ & H4)];
    [by left|]. right. exists i. split_and!; try done. destruct H4 as [H4|H4]; [lia|done].
Qed.
End Anchored.

(** ** Anchored search *)

Section Sweep.
Context {engine : RegexpEngine}.
Variables (re_at : string -> nat -> option (list Z)) (r : PackRule) (s : anchorScan).

(** One position of a search for every match: past the end of the last one, a match that starts here. *)
Definition loc_step (value : string) (st : nat * list (list Z)) (i : nat) : nat * list (list Z) :=
  if (i <? st.1)%nat then st
  else match re_at value i with Some loc => (Z.to_nat (loc_at loc 1), st.2 ++ [loc]) | None => st end.
Definition locs_from (value : string) (positions : list nat) (st : nat * list (list Z)) : nat * list (list Z) :=
  foldl (loc_step value) st positions.

Definition any_stands (value : string) (p : nat) : Prop := exists lit, lit ∈ lits s /\ stands s value lit p = true.

(** What [regexp] documents of a pattern, [re_at] being the match that starts at a position, and what the
    corpus declares of the pattern's keywords: [FindAll] takes the matches from left to right, none of
    them empty; every match starts with an entry literal; the anchored form, asked at a position where
    the word edge holds, gives the match there; and a pattern that opens with an edge has none inside a
    word. *)
Record anchor_laws : Prop := mkAnchorLaws {
  al_all : forall value, FindAllIndex (r_re r) value = (locs_from value (seq 0 (S (String.length value))) (0%nat, [])).2;
  al_loc : forall value p loc, re_at value p = Some loc -> loc_at loc 0 = Z.of_nat p /\
    Z.of_nat p < loc_at loc 1 <= slen value;
  al_head : forall value p loc, re_at value p = Some loc -> any_stands value p;
  al_verify : forall value p, any_stands value p -> (wordEdge s = true -> word_before value p = false) ->
    shift_loc p <$> FindIndex (verify s) (str_drop p value) = re_at value p;
  al_edge : forall value p, wordEdge s = true -> word_before value p = true -> any_stands value p ->
    re_at value p = None
}.

Section Value.
Variable value : string.
Hypothesis (Hl : anchor_laws).
Hypothesis (Ha : Forall (fun lit => anchorable (fold s) (wordEdge s) lit = true) (lits s)).

Lemma locs_from_none l st : Forall (fun i => re_at value i = None) l -> locs_from value l st = st.
Proof.
  intros H. revert st. induction H as [|i l Hi _ IH]; intros st; [done|]. cbn [locs_from foldl].
  unfold loc_step at 2. rewrite Hi. destruct (_ <? _)%nat; apply IH.
Qed.

Lemma locs_from_before l cur out : Forall (fun i => i < cur)%nat l -> locs_from value l (cur, out) = (cur, out).
Proof.
  intros H. induction H as [|i l Hi _ IH]; [done|]. cbn [locs_from foldl]. unfold loc_step at 2. cbn [fst].
  apply Nat.ltb_lt in Hi. by rewrite Hi.
Qed.

Lemma locs_from_app l1 l2 st : locs_from value (l1 ++ l2) st = locs_from value l2 (locs_from value l1 st).
Proof. apply foldl_app. Qed.

(** The rest of a search that found nothing up to [p]. *)
Lemma search_skip pos p out : (pos <= p)%nat ->
  (forall i, (pos <= i < p)%nat -> re_at value i = None) ->
  locs_from value (seq pos (S (String.length value) - pos)) (pos, out) =
  locs_from value (seq p (S (String.length value) - p)) (pos, out).
Proof.
  intros Hp Hn. destruct (decide (p <= S (String.length value))%nat) as [Hle|Hgt].
  - replace (S (String.length value) - pos)%nat with ((p - pos) + (S (String.length value) - p))%nat by lia.
    rewrite seq_app, locs_from_app. replace (pos + (p - pos))%nat with p by lia.
    rewrite (locs_from_none (seq pos _)); [done|]. apply List.Forall_forall. intros i Hi%in_seq. apply Hn. lia.
  - replace (S (String.length value) - p)%nat with 0%nat by lia. cbn [seq]. rewrite locs_from_none; [done|].
    apply List.Forall_forall. intros i Hi%in_seq. apply Hn. lia.
Qed.

(** The cursor of a search only matters up to the position it stands at. *)
Lemma search_cursor c c' p n out : (c <= p)%nat -> (c' <= p)%nat ->
  (locs_from value (seq p n) (c, out)).2 = (locs_from value (seq p n) (c', out)).2.
Proof.
  revert p c c' out. induction n as [|n IH]; intros p c c' out H1 H2; [done|]. cbn [seq locs_from foldl].
  unfold loc_step at 2 4. cbn [fst snd]. destruct (Nat.ltb_spec p c), (Nat.ltb_spec p c'); try lia.
  destruct (re_at value p) as [loc|]; [done|]. apply IH; lia.
Qed.

Lemma search_match p out loc : re_at value p = Some loc -> (p <= String.length value)%nat ->
  let e := Z.to_nat (loc_at loc 1) in
  locs_from value (seq p (S (String.length value) - p)) (p, out) =
  locs_from value (seq e (S (String.length value) - e)) (e, out ++ [loc]).
Proof.
  intros Hm Hp e. destruct (al_loc Hl value p loc Hm) as [_ He]. unfold slen in He.
  replace (S (String.length value) - p)%nat with (1 + ((e - S p) + (S (String.length value) - e)))%nat by lia.
  rewrite !seq_app, !locs_from_app. replace (p + 1 + (e - S p))%nat with e by lia. f_equal.
  assert (locs_from value (seq p 1) (p, out) = (e, out ++ [loc])) as ->.
  { cbn. unfold loc_step. cbn [fst snd]. rewrite Hm. by destruct (Nat.ltb_spec p p); [lia|]. }
  apply locs_from_before, List.Forall_forall. intros i Hi%in_seq. lia.
Qed.

Lemma word_before_at p : ((0 <? p)%nat && byte_is value isWordByte (p - 1)) = word_before value p.
Proof.
  destruct p as [|q]; [done|]. cbn [Nat.ltb Nat.leb andb word_before]. replace (S q - 1)%nat with q by lia.
  unfold byte_is. destruct (String.get q value); [apply class_word|done].
Qed.

Lemma stale_step pos pos' cursor : (pos <= pos')%nat ->
  Forall2 (remembers s value pos) (lits s) cursor -> Forall2 (stale s value pos') (lits s) cursor.
Proof. intros Hp H. eapply Forall2_impl; [exact H|]. intros lit a. by apply remembers_stale. Qed.

Lemma no_match_where_none i : Forall (fun lit => stands s value lit i = false) (lits s) -> re_at value i = None.
Proof.
  intros Hn. destruct (re_at value i) as [loc|] eqn:E; [|done].
  destruct (al_head Hl value i loc E) as (lit & Hlit & Hst). rewrite Forall_forall in Hn. by rewrite Hn in Hst.
Qed.

Lemma anchored_loop_ok fuel cursor pos out :
  (S (String.length value) - pos < fuel)%nat -> Forall2 (stale s value pos) (lits s) cursor ->
  omap (rule_span r value) out ++ anchored_loop fuel r s value cursor pos =
  omap (rule_span r value) (locs_from value (seq pos (S (String.length value) - pos)) (pos, out)).2.
Proof.
  revert cursor pos out. induction fuel as [|f IH]; intros cursor pos out Hf Hc; [lia|]. cbn [anchored_loop].
  destruct (Nat.leb_spec pos (String.length value)) as [Hpos|Hpos].
  2:{ replace (S (String.length value) - pos)%nat with 0%nat by lia. by rewrite app_nil_r. }
  pose proof (next_cursor_ok s value pos cursor Ha Hc) as Hn.
  destruct (next_cursor s value pos cursor) as [cursor' a]. destruct Hn as [Hr Hn].
  destruct Hn as [[-> Hn]|(p & -> & Hp & Hn & Hst)].
  { rewrite app_nil_r, locs_from_none; [done|]. apply List.Forall_forall. intros i Hi%in_seq.
    apply no_match_where_none. eapply Forall_impl; [exact Hn|]. intros lit H. apply H. lia. }
  destruct (Z.ltb_spec (Z.of_nat p) 0); [lia|]. rewrite Nat2Z.id, <- andb_assoc, word_before_at.
  rewrite (search_skip pos p) by (done || (intros i Hi; apply no_match_where_none;
    eapply Forall_impl; [exact Hn|]; intros lit H'; apply H'; lia)).
  (* from here on a candidate that is no match moves the search one byte *)
  assert (Hmiss : re_at value p = None ->
    omap (rule_span r value) out ++ anchored_loop f r s value cursor' (p + 1) =
    omap (rule_span r value) (locs_from value (seq p (S (String.length value) - p)) (pos, out)).2).
  { intros Hno. rewrite IH by (lia || (eapply stale_step, Hr; lia)).
    rewrite (search_cursor pos p p _ out) by lia.
    rewrite (search_skip p (p + 1)) by (lia || (intros i Hi; by replace i with p by lia)).
    by rewrite (search_cursor (p + 1) p) by lia. }
  destruct (wordEdge s && word_before value p) eqn:Ee.
  { apply Hmiss. apply andb_true_iff in Ee as [E1 E2]. by apply (al_edge Hl). }
  assert (wordEdge s = true -> word_before value p = false) as Hedge.
  { intros E. by rewrite E in Ee. }
  pose proof (al_verify Hl value p Hst Hedge) as Hv.
  destruct (FindIndex (verify s) (str_drop p value)) as [loc|]; cbn [fmap option_fmap option_map] in Hv; [|by apply Hmiss].
  symmetry in Hv. destruct (al_loc Hl value p _ Hv) as [_ He]. unfold slen in He.
  destruct (Nat.leb_spec (Z.to_nat (loc_at (shift_loc p loc) 1)) p); [lia|].
  rewrite (search_cursor pos p p _ out), (search_match p out _ Hv) by lia.
  rewrite <- (IH cursor') by (lia || (eapply stale_step, Hr; lia)). rewrite omap_app, <- app_assoc. f_equal.
Qed.
End Value.

Lemma anchorable_lits pattern keywords sweep :
  newAnchorScan pattern keywords sweep = Ok (Some s) ->
  Forall (fun lit => anchorable (fold s) (wordEdge s) lit = true) (lits s).
Proof.
  unfold newAnchorScan. destruct (_ || _); [done|]. destruct (str_contains _ _); [done|].
  destruct (forallb _ keywords) eqn:E; [|done]. cbn [negb]. destruct (Compile _); [|done]. intros [= <-]. cbn.
  apply List.Forall_forall. by apply forallb_forall.
Qed.

(** C27: a rule that got an anchor, of a pattern all of whose matches start with one of its keywords,
    finds on every value exactly the spans that a sweep of the value with the pattern finds, its guard
    and checksum applied. *)
Theorem anchored_is_sweep pattern keywords sweep value :
  newAnchorScan pattern keywords sweep = Ok (Some s) -> anchor_laws ->
  matchAnchored r s value = matchSweep r value.
Proof.
  intros Hn Hl. apply anchorable_lits in Hn. unfold matchAnchored, matchSweep. rewrite (al_all Hl).
  refine (anchored_loop_ok value Hl Hn (S (S (String.length value))) (replicate (length (lits s)) litUnscanned) 0 [] _ _);
    [lia|].
  clear. induction (lits s) as [|lit ls IH]; cbn; constructor; [|exact IH]. left. unfold litUnscanned. lia.
Qed.
End Sweep.

(** ** The shared scan *)

Section Shared.
Context {engine : RegexpEngine}.

(** A scan pointed at a value, none of the lists in question filtered yet. *)
Definition unasked (value : string) (kinds : list fusedKind) (c : ValueScan) : Prop :=
  vs_value c = value /\
  (done c = true -> forall kind, kind ∈ kinds -> kind_list kind (vs_found c) = kind_list kind (walk_pii value)).

Definition fused_kinds (rs : list PackRule) : list fusedKind := List.filter is_fused (map fused rs).

Lemma kind_list_other kind kind' l f : kind <> kind' -> kind_list kind (refill kind' l f) = kind_list kind f.
Proof. by destruct kind, kind'. Qed.

Lemma ask_fresh r value c : unasked value [fused r] c -> is_fused (fused r) = true ->
  (MatchScannedIn r value c).2 = rule_MatchScanned r value.
Proof.
  intros [<- Hd] E. unfold MatchScannedIn, rule_MatchScanned, fused_candidates. rewrite E. unfold scan_candidates.
  cbn [Reset done vs_value vs_found fst snd]. destruct (done c) eqn:Ed; cbn [vs_value vs_found]; [|done].
  by rewrite (Hd eq_refl) by apply list_elem_of_here.
Qed.

(** The scan after an ask is still good for the other kinds. *)
Lemma ask_keeps r value kinds c : unasked value (fused r :: kinds) c -> fused r ∉ kinds ->
  unasked value kinds (MatchScannedIn r value c).1.
Proof.
  intros [<- Hd] Hn. unfold MatchScannedIn. destruct (is_fused (fused r)).
  2:{ split; [done|]. intros E kind Hk. apply (Hd E). by right. }
  unfold scan_candidates. destruct (done c) eqn:Ed; (split; [done|]); intros _ kind Hk;
    cbn [fst vs_found vs_value]; rewrite kind_list_other by (intros ->; done); [|done]. apply Hd; [done|by right].
Qed.

Lemma ask_rules_agree rs value c : unasked value (fused_kinds rs) c -> NoDup (fused_kinds rs) ->
  (ask_rules rs value c).2 = flat_map (fun r => rule_MatchScanned r value) rs.
Proof.
  revert c. induction rs as [|r rs IH]; intros c Hc Hn; [done|]. cbn [ask_rules flat_map].
  unfold fused_kinds in Hc, Hn. cbn [map List.filter] in Hc, Hn.
  assert (H : (MatchScannedIn r value c).2 = rule_MatchScanned r value /\ NoDup (fused_kinds rs) /\
    unasked value (fused_kinds rs) (MatchScannedIn r value c).1).
  { destruct (is_fused (fused r)) eqn:E; fold (fused_kinds rs) in Hc, Hn.
    - apply NoDup_cons in Hn as [Hn1 Hn2]. split_and!; [|done|by apply ask_keeps].
      apply ask_fresh; [|done]. destruct Hc as [H1 H2]. split; [done|]. intros Ed k Hk.
      apply list_elem_of_singleton in Hk as ->. apply H2; [done|by left].
    - unfold MatchScannedIn. rewrite E. done. }
  destruct H as (H1 & H2 & H3). destruct (MatchScannedIn r value c) as [c' found]. cbn [fst snd] in *.
  specialize (IH c' H3 H2). destruct (ask_rules rs value c') as [c'' rest]. cbn [snd] in *. congruence.
Qed.

(** The rules of a ladder, asked one after another through one shared scan that was pointed at the
    value, find what each finds alone, whichever of them had it walk first and whatever the scan held
    before, as long as no two of them read the same list of the scan. *)
Theorem shared_scan_agrees rs value before : NoDup (fused_kinds rs) ->
  (ask_rules rs value (Reset value before)).2 = flat_map (fun r => rule_MatchScanned r value) rs.
Proof. intros Hn. by apply ask_rules_agree. Qed.
End Shared.

(** ** What the engine relies on *)

Section Corpora.
Context {engine : RegexpEngine}.

(** A match of a pattern, and the group that is redacted of it, are in the value and not empty. *)
Definition loc_ok (capture : nat) (n : nat) (loc : list Z) : Prop :=
  forall c, c = 0%nat \/ c = capture -> 0 <= loc_at loc (2 * c) ->
    loc_at loc (2 * c) < loc_at loc (2 * c + 1) <= Z.of_nat n.

Definition match_ok (capture : nat) (n : nat) (loc : list Z) : Prop := 0 <= loc_at loc 0 /\ loc_ok capture n loc.

Definition rule_ok (r : PackRule) : Prop :=
  (forall value, Forall (match_ok (r_capture r) (String.length value)) (FindAllIndex (r_re r) value)) /\
  (forall s value loc, anchor r = Some s -> FindIndex (verify s) value = Some loc ->
     match_ok (r_capture r) (String.length value) loc) /\
  (hand r = None \/ hand r = Some scanEmail).

Lemma rule_span_in r value loc sp : match_ok (r_capture r) (String.length value) loc ->
  rule_span r value loc = Some sp -> span_in (String.length value) sp.
Proof.
  intros [H0 Hl]. unfold rule_span. destruct (accepts _ _ _ _); [|done]. intros [= <-]. unfold span_in. cbn [Start End_].
  destruct (_ && _) eqn:E.
  - boolp. pose proof (Hl (r_capture r) (or_intror eq_refl)) as Hc.
    change (2 * r_capture r)%nat with (r_capture r + (r_capture r + 0))%nat in Hc. lia.
  - pose proof (Hl 0%nat (or_introl eq_refl)) as Hc. cbn in Hc. lia.
Qed.

Lemma shift_ok at_ value capture loc : (at_ <= String.length value)%nat ->
  match_ok capture (String.length (str_drop at_ value)) loc -> match_ok capture (String.length value) (shift_loc at_ loc).
Proof.
  intros Ha [H0 Hl]. rewrite length_str_drop in Hl.
  assert (Hs : forall i, loc_at (shift_loc at_ loc) i = if 0 <=? loc_at loc i then loc_at loc i + Z.of_nat at_ else loc_at loc i).
  { intros i. unfold loc_at, shift_loc. rewrite list_lookup_fmap. by destruct (loc !! i). }
  split; [rewrite Hs; case_match; lia|]. intros c Hc. rewrite !Hs. specialize (Hl c Hc).
  destruct (Z.leb_spec 0 (loc_at loc (2 * c))); [|lia]. intros _. specialize (Hl ltac:(lia)).
  destruct (Z.leb_spec 0 (loc_at loc (2 * c + 1))); lia.
Qed.

Lemma anchored_loop_in r s value fuel cursor pos : rule_ok r -> anchor r = Some s ->
  Forall (fun lit => anchorable (fold s) (wordEdge s) lit = true) (lits s) ->
  Forall2 (stale s value pos) (lits s) cursor ->
  Forall (span_in (String.length value)) (anchored_loop fuel r s value cursor pos).
Proof.
  intros Hr Hs Ha. revert cursor pos. induction fuel as [|f IH]; intros cursor pos Hc; [constructor|].
  cbn [anchored_loop]. destruct (_ <=? _)%nat; [|constructor].
  pose proof (next_cursor_ok s value pos cursor Ha Hc) as Hn.
  destruct (next_cursor _ _ _ _) as [cursor' a]. destruct Hn as [Hm Hn].
  destruct Hn as [[-> _]|(p & -> & Hp & _ & lit & Hlit & Hst)]; [constructor|].
  destruct (_ <? 0); [constructor|]. rewrite Nat2Z.id.
  destruct (_ && _); [apply IH; eapply stale_step, Hm; lia|].
  destruct (FindIndex _ _) as [loc|] eqn:E; [|apply IH; eapply stale_step, Hm; lia].
  apply Forall_app. split; [|apply IH; eapply stale_step, Hm;
    destruct (Nat.leb_spec (Z.to_nat (loc_at (shift_loc p loc) 1)) p); lia].
  destruct (rule_span _ _ _) as [sp|] eqn:Esp; [|constructor]. constructor; [|constructor].
  eapply rule_span_in, Esp. apply shift_ok.
  - destruct (decide (p <= String.length value)%nat); [done|]. unfold stands in Hst. rewrite drop_past in Hst by lia.
    rewrite Forall_forall in Ha. specialize (Ha lit Hlit). destruct lit; [done|]. by destruct (fold s).
  - destruct Hr as (_ & Hv & _). by eapply Hv.
Qed.

Lemma checked_in r found value : Forall (span_in (String.length value)) found ->
  Forall (span_in (String.length value)) (checked r found value).
Proof.
  intros H. unfold checked. apply Forall_map. apply List.Forall_forall. intros sp [Hin _]%filter_In.
  rewrite List.Forall_forall in H. exact (H sp Hin).
Qed.

(** What a scanner finds is in the value, since its pattern's matches are. *)
Lemma pairs_in value re found : consumes re = true -> as_pairs found = FindAll value re ->
  Forall (span_in (String.length value)) found.
Proof.
  intros Hc E. pose proof (FindAll_in value re Hc) as H. rewrite <- E in H. unfold as_pairs in H.
  apply Forall_map in H. exact H.
Qed.

Lemma fused_in kind value : Forall (span_in (String.length value)) (fused_candidates kind value).
Proof.
  destruct (fused_walk_exact_all value) as (H1 & H2 & H3). unfold fused_candidates. destruct kind; cbn;
    [constructor| | |]; by eapply pairs_in; [|eassumption].
Qed.

Lemma rule_spans_in r value : rule_ok r ->
  (forall s, anchor r = Some s -> Forall (fun lit => anchorable (fold s) (wordEdge s) lit = true) (lits s)) ->
  Forall (span_in (String.length value)) (rule_MatchScanned r value).
Proof.
  intros Hr Ha. unfold rule_MatchScanned. destruct (is_fused _); [apply checked_in, fused_in|].
  destruct (hand r) as [scan|] eqn:Eh.
  { destruct Hr as (_ & _ & [Hh|Hh]); rewrite Eh in Hh; [done|]. injection Hh as ->. apply checked_in. eapply (pairs_in value email_re); [done|].
    apply scanEmail_exact_all. }
  destruct (anchor r) as [s|] eqn:Es.
  - apply anchored_loop_in; [done|done|by apply Ha|].
    clear. induction (lits s) as [|lit ls IH]; cbn; constructor; [|exact IH]. left. unfold litUnscanned. lia.
  - unfold matchSweep. destruct Hr as (Hf & _). specialize (Hf value).
    induction Hf as [|loc l Hl _ IH]; [constructor|]. cbn [omap list_omap].
    destruct (rule_span r value loc) as [sp|] eqn:E; [|done]. constructor; [by eapply rule_span_in|done].
Qed.

(** Of a corpus entry's pattern: what is matched of a value, and the group to redact, is not empty. *)
Definition pattern_sound (spec : ruleSpec) : Prop :=
  (forall re value, Compile (RegexText spec) = Ok re ->
     Forall (match_ok (Capture spec) (String.length value)) (FindAllIndex re value)) /\
  (forall re value loc, Compile ("\A(?:" +:+ RegexText spec +:+ ")") = Ok re -> FindIndex re value = Some loc ->
     match_ok (Capture spec) (String.length value) loc).

Lemma newAnchorScan_verify pattern keywords sweep s :
  newAnchorScan pattern keywords sweep = Ok (Some s) -> Compile ("\A(?:" +:+ pattern +:+ ")") = Ok (verify s).
Proof.
  unfold newAnchorScan. destruct (_ || _); [done|]. destruct (str_contains _ _); [done|].
  destruct (negb _); [done|]. destruct (Compile _) as [re|e]; [|done]. by intros [= <-].
Qed.

Lemma scanners_known name scan kind : scanners name = Some (scan, kind) -> scan = None \/ scan = Some scanEmail.
Proof. unfold scanners. repeat (case_match; [intros [= <- <-]; auto|]). done. Qed.

Lemma lookup_named_known {A} (registry : string -> option A) pack spec what name f :
  lookup_named registry pack spec what name = Ok (Some f) -> registry name = Some f.
Proof. unfold lookup_named. destruct (_ =? "")%string; [done|]. destruct (registry name); [|done]. by intros [= <-]. Qed.

Lemma compileSpec_ok pack spec r : pattern_sound spec -> compileSpec pack spec = Ok r ->
  rule_ok r /\ forall s, anchor r = Some s -> Forall (fun lit => anchorable (fold s) (wordEdge s) lit = true) (lits s).
Proof.
  intros [Ha Hv]. unfold compileSpec. destruct (Compile (RegexText spec)) as [re|e] eqn:Ec; [|done].
  destruct (lookup_named checksums _ _ _ _) as [checksum|]; cbn [rbind]; [|done].
  destruct (lookup_named guards _ _ _ _) as [guard|]; cbn [rbind]; [|done].
  destruct (lookup_named scanners _ _ _ _) as [scanner|] eqn:Es; cbn [rbind]; [|done].
  destruct scanner as [[scan kind]|].
  - destruct (0 <? Capture spec)%nat; [done|]. intros [= <-]. split; [|done].
    split_and!; [intros value; by apply Ha|done|]. apply lookup_named_known in Es. by eapply scanners_known.
  - destruct (newAnchorScan _ _ _) as [an|] eqn:En; [|done]. intros [= <-]. split; cbn.
    + split_and!; [intros value; by apply Ha| |by left]. intros s value loc [= ->] Hf.
      eapply Hv; [by eapply newAnchorScan_verify|done].
    + intros s [= ->]. by eapply anchorable_lits.
Qed.

Lemma compile_all_ok pack specs rs : Forall pattern_sound specs -> compile_all pack specs = Ok rs ->
  forall r value, r ∈ rs -> Forall (span_in (String.length value)) (rule_MatchScanned r value).
Proof.
  intros H. revert rs. induction H as [|spec specs Hs _ IH]; intros rs; cbn [compile_all].
  { intros [= <-] r value Hr. by apply not_elem_of_nil in Hr. }
  destruct (compileSpec pack spec) as [r0|] eqn:E; cbn [rbind]; [|done].
  destruct (compile_all pack specs) as [rs0|]; cbn [rbind]; [|done]. intros [= <-] r value Hr.
  apply elem_of_cons in Hr as [->|Hr]; [|by eapply IH].
  destruct (compileSpec_ok _ _ _ Hs E). by apply rule_spans_in.
Qed.

(** What the redaction engine relies on holds of the compiled corpora: when no pattern matches the
    empty text, every span a rule finds in a value, by a sweep, behind an anchor or by a scanner, lies
    in the value and is not empty. *)
Theorem packs_corpora_ok corpora names :
  (forall pack c spec, corpora pack = Ok c -> spec ∈ Rules c -> pattern_sound spec) ->
  (forall ns value, Forall (span_in (String.length value)) (names ns value)) ->
  CorporaOk (packs_corpora corpora names).
Proof.
  intros Hp Hn. split; [|exact Hn]. intros pack rules r value. cbn [packs_corpora packs_Load]. unfold Load.
  destruct (corpora pack) as [c|] eqn:Ec; cbn [rbind]; [|done]. destruct (negb _); cbn [rbind]; [done|].
  destruct (compile_all pack (Rules c)) as [rs|] eqn:Er; cbn [rbind]; [|done]. intros [= <-] Hr.
  apply list_elem_of_fmap in Hr as (r0 & -> & Hr0). cbn.
  eapply compile_all_ok; [|exact Er|done]. apply Forall_forall. intros spec. by apply (Hp pack).
Qed.
End Corpora.

(** ** Account numbers *)

(** The number an account number stands for: a letter counts for two digits, 10 to 35. *)
Definition iban_digit (n : Z) (c : ascii) : Z :=
  if is_digit c then n * 10 + digit_value c else n * 100 + (byte_code c - 55).
Definition iban_number (l : list ascii) : Z := foldl iban_digit 0 l.
Definition rearranged (v : string) : list ascii :=
  let l := list_ascii_of_string v in drop 4 l ++ take 4 l.

Lemma iban_fold l n : forallb upper_alnum l = true ->
  foldl iban_step (Some (n mod 97)) l = Some (foldl iban_digit n l mod 97).
Proof.
  revert n. induction l as [|c l IH]; intros n; cbn [foldl forallb]; [done|]. intros [Hc Hl]%andb_true_iff.
  unfold iban_digit at 2. cbn [iban_step]. destruct (is_digit c) eqn:Ed.
  - rewrite <- IH by done. f_equal. f_equal. rewrite Z.add_mod, Z.mul_mod_idemp_l, <- Z.add_mod by lia. done.
  - unfold upper_alnum in Hc. rewrite Ed in Hc. cbn in Hc. rewrite Hc, <- IH by done. f_equal. f_equal.
    replace (n mod 97 * 100 + (byte_code c - 65) + 10) with (n mod 97 * 100 + (byte_code c - 55)) by lia.
    rewrite Z.add_mod, Z.mul_mod_idemp_l, <- Z.add_mod by lia. done.
Qed.

Lemma iban_fold_none l : foldl iban_step None l = None.
Proof. induction l; done. Qed.

Lemma iban_fold_bad l r : forallb upper_alnum l = false -> foldl iban_step (Some r) l = None.
Proof.
  revert r. induction l as [|c l IH]; intros r; cbn [foldl forallb]; [done|]. cbn [iban_step].
  unfold upper_alnum at 1. destruct (is_digit c); [apply IH|]. destruct (is_upper c); [apply IH|].
  intros _. apply iban_fold_none.
Qed.

(** Reading byte by byte with a remainder below 97 decides the check on the whole number, which fits no
    machine word. *)
Theorem ibanValid_exact s :
  let v := str_map to_upper_byte (ReplaceAll s " " "") in
  ibanValid s = true <->
  (15 <= String.length v <= 34)%nat /\ forallb upper_alnum (rearranged v) = true /\
  iban_number (rearranged v) mod 97 = 1.
Proof.
  cbn zeta. unfold ibanValid, rearranged, iban_number. set (v := str_map _ _).
  set (l := drop 4 _ ++ _). destruct (Nat.ltb_spec (String.length v) 15), (Nat.ltb_spec 34 (String.length v));
    cbn [orb]; try (split; [done|lia]).
  destruct (forallb upper_alnum l) eqn:E.
  - rewrite (iban_fold l 0 E : foldl iban_step (Some 0) l = _), Z.eqb_eq. split; [intros ?; split_and!; lia || done|tauto].
  - rewrite iban_fold_bad by done. split; [done|]. intros (_ & ? & _). done.
Qed.

(** ** A concrete engine and corpus *)

Module SampleRules.

(** The pattern [\btok_[0-9]], and where it matches. *)
Definition pattern : string := "\btok_[0-9]".
Definition token_at (value : string) (p : nat) : option (list Z) :=
  if negb (word_before value p) && has_prefix "tok_" (str_drop p value) && byte_is value is_digit (p + 4)
  then Some [Z.of_nat p; Z.of_nat (p + 5)] else None.

(** An engine that knows this pattern and its anchored form. *)
Inductive known := Plain | AtStart.
Definition tokens_found (value : string) : list (list Z) :=
  (locs_from token_at value (seq 0 (S (String.length value))) (0%nat, [])).2.
#[export] Instance sample_engine : RegexpEngine := {|
  regexp := known;
  Compile := fun text =>
    if (text =? pattern)%string then Ok Plain
    else if (text =? "\A(?:" +:+ pattern +:+ ")")%string then Ok AtStart
    else Err (errors_New "unknown pattern");
  FindAllIndex := fun re value => match re with Plain => tokens_found value | AtStart => option_list (token_at value 0) end;
  FindIndex := fun re value => match re with Plain => head (tokens_found value) | AtStart => token_at value 0 end
|}.

Definition spec : ruleSpec := mkRuleSpec "sample-token" pattern ["tok_"] 0 "" "has-digit" "" false.
Definition token_scan : anchorScan := mkAnchorScan AtStart ["tok_"] false true.
Definition rule : PackRule :=
  mkPackRule "sample-token" Plain ["tok_"] 0 None (Some has_digit) None fusedNone (Some token_scan).
Definition value : string := "a tok_1, xtok_2 and tok_3".

Lemma byte_is_drop (v : string) f i j : byte_is (str_drop i v) f j = byte_is v f (i + j).
Proof.
  unfold byte_is. revert i. induction v as [|c v IH]; intros [|i]; cbn [str_drop String.get Nat.add]; done || apply IH.
Qed.

Lemma token_at_loc v p loc : token_at v p = Some loc ->
  loc = [Z.of_nat p; Z.of_nat (p + 5)] /\ (p + 5 <= String.length v)%nat /\ has_prefix "tok_" (str_drop p v) = true /\
  word_before v p = false.
Proof.
  unfold token_at. destruct (word_before v p), (has_prefix "tok_" _) eqn:Ep; cbn [negb andb]; try done.
  destruct (byte_is v is_digit (p + 4)) eqn:Ed; [|done]. intros [= <-]. split_and!; try done.
  apply in_value_byte in Ed. unfold in_value in Ed. apply Nat.ltb_lt in Ed. lia.
Qed.

Lemma found_loc v : Forall (fun loc => exists p, token_at v p = Some loc) (tokens_found v).
Proof.
  unfold tokens_found, locs_from. generalize (seq 0 (S (String.length v))). intros l.
  assert (H : forall st, Forall (fun loc => exists p, token_at v p = Some loc) st.2 ->
    Forall (fun loc => exists p, token_at v p = Some loc) (foldl (loc_step token_at v) st l).2); [|by apply H].
  induction l as [|i l IH]; intros st Hst; [done|]. apply IH. unfold loc_step.
  destruct (_ <? _)%nat; [done|]. destruct (token_at v i) as [loc|] eqn:E; [|done].
  apply Forall_app. split; [done|]. constructor; [by exists i|constructor].
Qed.

Lemma sample_laws : anchor_laws token_at rule token_scan.
Proof.
  split.
  - done.
  - intros v p loc (-> & H & _)%token_at_loc. cbn. unfold slen. lia.
  - intros v p loc (_ & _ & H & _)%token_at_loc. exists "tok_". split; [by left|done].
  - intros v p _ H. specialize (H eq_refl). cbn [FindIndex token_scan verify sample_engine]. unfold token_at. rewrite H.
    rewrite byte_is_drop. cbn [word_before negb andb]. change (str_drop 0 (str_drop p v)) with (str_drop p v).
    cbn [Nat.add]. destruct (_ && _); [|done]. unfold fmap, option_fmap, option_map. f_equal.
    change (shift_loc p [Z.of_nat 0; Z.of_nat 5]) with [0 + Z.of_nat p; 5 + Z.of_nat p].
    by rewrite Nat2Z.inj_add, (Z.add_comm (Z.of_nat p)).
  - intros v p _ H _. unfold token_at. by rewrite H.
Qed.

Lemma token_ok v p loc : token_at v p = Some loc -> match_ok 0 (String.length v) loc.
Proof.
  intros (-> & H & _)%token_at_loc. split; [cbn; lia|]. intros c [->| ->] _; cbn; lia.
Qed.

Lemma sample_pattern_sound : pattern_sound spec.
Proof.
  split.
  - intros re v [= <-]. cbn. eapply Forall_impl; [apply found_loc|]. intros loc (p & H). by eapply token_ok.
  - intros re v loc [= <-]. cbn. apply token_ok.
Qed.

Definition tokens (pack : string) : result error corpus :=
  if (pack =? "tokens")%string then Ok (mkCorpus "tokens" [spec]) else Err (errors_New "no corpus").

Example compiled : Load tokens "tokens" = Ok [rule].
Proof. reflexivity. Qed.

Lemma anchored_is_sweep_witness :
  newAnchorScan pattern ["tok_"] false = Ok (Some token_scan) /\
  matchAnchored rule token_scan value = [mkSpan 2 7 "sample-token"; mkSpan 20 25 "sample-token"] /\
  matchAnchored rule token_scan value = matchSweep rule value.
Proof.
  split; [reflexivity|]. split; [vm_compute; reflexivity|].
  apply (anchored_is_sweep token_at rule token_scan pattern ["tok_"] false value); [reflexivity|exact sample_laws].
Defined.

(** A shared scan that held another value. *)
Definition iban_rule : PackRule := mkPackRule "iban" Plain [] 0 (Some ibanValid) None None fusedIBAN None.
Definition pan_rule (guard : option (string -> nat -> nat -> bool)) : PackRule :=
  mkPackRule "card-pan" Plain [] 0 (Some panValid) guard None fusedCardPAN None.
Definition guarded : PackRule := pan_rule (Some no_decimal_neighbor).
Definition account : string := "pay DE89370400440532013000 with 4111-1111-1111-1111".
Definition held : ValueScan := (MatchScannedIn iban_rule "PL61109010140000071219812874" (mkValueScan "" false no_pii)).1.

Lemma shared_scan_agrees_witness :
  (ask_rules [guarded; rule; iban_rule] account (Reset account held)).2 =
    [mkSpan 32 51 "card-pan"; mkSpan 4 26 "iban"] /\
  (ask_rules [guarded; rule; iban_rule] account (Reset account held)).2 =
    flat_map (fun r => rule_MatchScanned r account) [guarded; rule; iban_rule].
Proof.
  split; [by vm_compute|]. apply (shared_scan_agrees [guarded; rule; iban_rule] account held).
  cbn. apply NoDup_cons. split; [by intros [=]%list_elem_of_singleton|apply NoDup_singleton].
Defined.

(** Two rules of one list: the first one's filtering, in place, hides from the second a number that only
    the first one's guard refused. *)
Definition numbers_two : string := "v.4111111111111111 5500005555555559".
Example second_ask_loses :
  rule_MatchScanned (pan_rule None) numbers_two = [mkSpan 2 18 "card-pan"; mkSpan 19 35 "card-pan"] /\
  (ask_rules [guarded; pan_rule None] numbers_two (Reset numbers_two held)).2 =
    [mkSpan 19 35 "card-pan"; mkSpan 19 35 "card-pan"; mkSpan 19 35 "card-pan"].
Proof. by vm_compute. Qed.

Lemma packs_corpora_ok_witness :
  (forall pack c sp, tokens pack = Ok c -> sp ∈ Rules c -> pattern_sound sp) /\
  CorporaOk (packs_corpora tokens (fun _ _ => [])).
Proof.
  assert (H : forall pack c sp, tokens pack = Ok c -> sp ∈ Rules c -> pattern_sound sp).
  { intros pack c sp. unfold tokens. destruct (pack =? "tokens")%string; [|done]. intros [= <-] Hin.
    apply list_elem_of_singleton in Hin as ->. exact sample_pattern_sound. }
  split; [exact H|]. apply (packs_corpora_ok tokens (fun _ _ => []) H). intros; constructor.
Defined.
End SampleRules.
