(* ===== verification/SourceFiles.v ===== *)
(** Reading a source's files: [src/internal/platform/safeio.go] ([Open], [ReadWhole], [ReadPrivate]), the loaders
    and the compressed-file bounds of [src/internal/sources/gather.go], and the shape checks
    ([sniff], [sniffSample] there and [sniff.go]). The operating system, the zstd library and the JSON
    decoder are classes. *)

From S2P Require Import Prelude GoLib GoJson GoText GoUrl Vocab Spec Heuristic Redact RedactSafe.

(** ** What the operating system answers *)

Record file_info := mkInfo { fi_Size : Z; fi_MTime : Z; fi_Regular : bool; fi_Type : string; fi_Perm : Z }.

(** An open descriptor: its [fstat], and the bytes reading it gives, up to the end or to an error. *)
Record handle := mkHandle { h_stat : result string file_info; h_body : string; h_err : option string }.
Inductive os_error := ELOOP | OsError (text : string).
Class Disk := { OpenFile : string -> result os_error handle }.

(** ** The zstd library *)

(** A decoder over the bytes of a file: what it gives, up to the end or to an error. *)
Record decoded_zstd := mkDecoded { z_body : string; z_err : option string }.
Record zstd_Header := mkZstdHeader { HasFCS : bool; FrameContentSize : Z; HeaderSize : Z; HasCheckSum : bool }.
Class Zstd := {
  HeaderMaxSize : nat;
  zstd_NewReader : string -> result string decoded_zstd;
  Header_Decode : string -> option zstd_Header
}.

(** ** safeio.go *)

Inductive read_error := ErrNotRegular (text : string) | ErrTooLarge (text : string) | ReadError (text : string).

(** Reading through [io.LimitReader]: nothing is asked of the file past the limit. *)
Definition read_limited (limit : Z) (body : string) (err : option string) : result string string :=
  if limit <=? 0 then Ok ""
  else if limit <=? slen body then Ok (str_take (Z.to_nat limit) body)
  else match err with Some e => Err e | None => Ok body end.
Definition read_all (body : string) (err : option string) : result string string :=
  match err with Some e => Err e | None => Ok body end.

Section Reading.
Context {disk : Disk} {zstd : Zstd}.

Definition platform_Open (path : string) : result read_error (handle * file_info) :=
  match OpenFile path with
  | Err ELOOP => Err (ErrNotRegular (path +:+ " is a symlink"))
  | Err (OsError e) => Err (ReadError ("safeio: open " +:+ path +:+ ": " +:+ e))
  | Ok f =>
      match h_stat f with
      | Err e => Err (ReadError ("safeio: fstat " +:+ path +:+ ": " +:+ e))
      | Ok info =>
          if negb (fi_Regular info) then Err (ErrNotRegular (path +:+ " is " +:+ fi_Type info)) else Ok (f, info)
      end
  end.

Definition ReadWhole (path : string) (maxBytes : Z) : result read_error (string * file_info) :=
  let! opened := platform_Open path in
  let '(f, info) := opened in
  if (0 <? maxBytes) && (maxBytes <? fi_Size info)
  then Err (ErrTooLarge (path +:+ " is " +:+ int_text (fi_Size info) +:+ " bytes, limit " +:+ int_text maxBytes))
  else
    match (if 0 <? maxBytes then read_limited (int64 (maxBytes + 1)) (h_body f) (h_err f)
           else read_all (h_body f) (h_err f)) with
    | Err e => Err (ReadError ("safeio: read " +:+ path +:+ ": " +:+ e))
    | Ok body =>
        if (0 <? maxBytes) && (maxBytes <? slen body)
        then Err (ErrTooLarge (path +:+ " grew past the limit " +:+ int_text maxBytes +:+ " during the read"))
        else Ok (body, info)
    end.

(** Outside Windows, where files have modes. *)
Definition ReadPrivate (path : string) (maxBytes : Z) : result read_error string :=
  let! read := ReadWhole path maxBytes in
  let '(raw, info) := read in
  if negb (Z.land (fi_Perm info) 63 =? 0)
  then Err (ReadError ("safeio: " +:+ path +:+ " has a mode that is group- or world-accessible"))
  else Ok raw.

(** ** gather.go: the loaders *)

Definition zstdMagic : string := String (byte_of 40) (String (byte_of 181) (String (byte_of 47) (String (byte_of 253) ""))).

Definition zstd_error (path what : string) : read_error := ReadError (path +:+ ": " +:+ what).

(** [declaredSize] of a frame's header. *)
Definition declaredSize (head : string) : option (Z * zstd_Header) :=
  match Header_Decode head with
  | None => None
  | Some h => if negb (HasFCS h) || (2 ^ 63 - 1 <? FrameContentSize h) then None else Some (FrameContentSize h, h)
  end.

(** [Peek] fails on an error other than the end before the header's length. *)
Definition newZstdReader (f : handle) (path : string) : result read_error (decoded_zstd * Z) :=
  let head := str_take HeaderMaxSize (h_body f) in
  if (String.length (h_body f) <? HeaderMaxSize)%nat && bool_decide (is_Some (h_err f)) || negb (has_prefix zstdMagic head)
  then Err (zstd_error path ".zst file does not start with zstd magic")
  else
    let contentSize := match declaredSize head with Some (n, _) => n | None => 0 end in
    match zstd_NewReader (h_body f) with
    | Err e => Err (zstd_error path ("zstd reader: " +:+ e))
    | Ok dec => Ok (dec, contentSize)
    end.

Definition readZstd (path : string) (maxBytes : Z) : result read_error (string * file_info) :=
  if maxBytes <=? 0 then Err (zstd_error path "no max_file_bytes to bound the decoded size")
  else
    let! opened := platform_Open path in
    let '(f, info) := opened in
    let! reader := newZstdReader f path in
    let '(dec, _) := reader in
    match read_limited (int64 (maxBytes + 1)) (z_body dec) (z_err dec) with
    | Err e => Err (zstd_error path ("zstd decode: " +:+ e))
    | Ok body =>
        if maxBytes <? slen body
        then Err (ErrTooLarge (path +:+ ": decoded size exceeds max_file_bytes " +:+ int_text maxBytes))
        else Ok (body, info)
    end.

(** [cancelled] is [ctx.Err()]. *)
Definition fileLoader (cancelled : option read_error) (path : string) (maxBytes : Z) : result read_error Payload :=
  match cancelled with
  | Some e => Err e
  | None =>
      let! read := (if IsZstd path then readZstd path maxBytes else ReadWhole path maxBytes) in
      let '(raw, info) := read in
      Ok (mkPayload raw (fi_MTime info) "" None)
  end.

(** ** The declared size of a file that is one frame *)

(** [ReadAt] of three bytes, little-endian. *)
Definition block_header (body : string) (end_ : Z) : option Z :=
  if end_ <? 0 then None else
  match str_drop (Z.to_nat end_) body with
  | String a (String b (String c _)) => Some (Z.lor (byte_code a) (Z.lor (Z.shiftl (byte_code b) 8) (Z.shiftl (byte_code c) 16)))
  | _ => None
  end.

(** The end of the last block; the fuel is the file's length, as a block takes three bytes at least. *)
Fixpoint blocks_end (fuel : nat) (body : string) (end_ : Z) : option Z :=
  match fuel with
  | O => None
  | S fuel =>
      match block_header body end_ with
      | None => None
      | Some v =>
          let n := if Z.land (Z.shiftr v 1) 3 =? 1 then 1 else Z.shiftr v 3 in
          let end_ := int64 (end_ + (3 + n)) in
          if Z.land v 1 =? 1 then Some end_ else blocks_end fuel body end_
      end
  end.

Definition singleFrameSize (body : string) (fileSize : Z) : option Z :=
  match declaredSize (str_take HeaderMaxSize body) with
  | None => None
  | Some (size, h) =>
      match blocks_end (S (String.length body)) body (HeaderSize h) with
      | None => None
      | Some end_ =>
          let end_ := if HasCheckSum h then int64 (end_ + 4) else end_ in
          if end_ =? fileSize then Some size else None
      end
  end.

(** What [LoadBytes] reads of a compressed candidate: nothing when it does not open. *)
Definition frame_size_of (path : string) : option Z :=
  match platform_Open path with
  | Err _ => None
  | Ok (f, info) => singleFrameSize (h_body f) (fi_Size info)
  end.

(** ** The head of a file *)

(** One [Read] of a regular file fills the buffer or reaches the end. *)
Definition readHead (path : string) (budget : Z) : result read_error (string * bool) :=
  let! opened := platform_Open path in
  let '(f, info) := opened in
  if fi_Size info =? 0 then Ok ("", false)
  else if IsZstd path then
    let! reader := newZstdReader f path in
    let '(dec, _) := reader in
    let n := Z.min (slen (z_body dec)) (budget + 1) in
    match (if slen (z_body dec) <? budget + 1 then z_err dec else None) with
    | Some e => Err (zstd_error path ("zstd decode: " +:+ e))
    | None => Ok (str_take (Z.to_nat (Z.min n budget)) (z_body dec), budget <? n)
    end
  else
    let buf := Z.min budget (fi_Size info) in
    let got := str_take (Z.to_nat buf) (h_body f) in
    if (0 <? buf) && (got =? "")%string
    then Err (ReadError (default "EOF" (h_err f)))
    else Ok (got, slen got <? fi_Size info).

(** ** sniff.go *)

(** [firstLine]: the line and whether its end was seen. *)
Fixpoint trim_right_cr (l : list ascii) : list ascii :=
  match l with c :: r => if (c =? "013")%char then trim_right_cr r else l | [] => [] end.
Definition firstLine (head : string) : string * bool :=
  let '(line, _, found) := Url.cut_byte "010" head in
  if found then (string_of_list_ascii (rev (trim_right_cr (rev (list_ascii_of_string line)))), true)
  else (head, false).

End Reading.

(** [json.Unmarshal] of a text: into a map of raw values, into a string, and into the two structs that
    name a field. Nothing is an error. *)
Class RecordJson := {
  Unmarshal_record : string -> option (gmap string string);
  Unmarshal_string : string -> option string;
  Unmarshal_copilotVersion : string -> option string
}.

Section Sniffing.
Context {disk : Disk} {zstd : Zstd} {json : RecordJson}.

Definition named_version (rec : gmap string string) (field : string) : option string :=
  match rec !! field with
  | Some raw => match Unmarshal_string raw with Some s => if (s =? "")%string then None else Some s | None => None end
  | None => None
  end.

(** The fuel bounds the nesting of payloads. *)
Fixpoint versionFrom (fuel : nat) (rec : gmap string string) : string :=
  match named_version rec "version", named_version rec "cli_version" with
  | Some v, _ | None, Some v => v
  | None, None =>
      let deeper :=
        match rec !! "payload" with
        | Some raw => match Unmarshal_record raw with Some nested => Some nested | None => None end
        | None => None
        end in
      match deeper, fuel with
      | Some nested, S fuel => versionFrom fuel nested
      | Some _, O => ""
      | None, _ =>
          match rec !! "data" with
          | Some raw => default "" (Unmarshal_copilotVersion raw)
          | None => ""
          end
      end
  end.

(** A payload is shorter than the line that holds it. *)
Definition version_of_line (line : string) (rec : gmap string string) : string := versionFrom (String.length line) rec.

Definition maxVersionScanLines : Z := 16.

(** [bytes.Lines]: every line with its end, none after the last one. *)
Fixpoint bytes_lines (s : string) : list string :=
  match s with
  | "" => []
  | String c r =>
      if (c =? "010")%char then String c "" :: bytes_lines r
      else match bytes_lines r with
           | [] => [String c ""]
           | h :: t => String c h :: t
           end
  end.

Fixpoint version_scan (scanned : Z) (lines : list string) : string :=
  match lines with
  | [] => ""
  | line :: rest =>
      if (TrimSpace line =? "")%string then version_scan scanned rest
      else
        let scanned := scanned + 1 in
        if maxVersionScanLines <? scanned then ""
        else match Unmarshal_record line with
             | None => version_scan scanned rest
             | Some rec =>
                 let v := version_of_line line rec in
                 if (v =? "")%string then version_scan scanned rest else v
             end
  end.
Definition versionFromHead (head : string) : string := version_scan 0 (bytes_lines head).

Definition nul : ascii := "000"%char.
Definition sniffJSONL (head : string) (truncated : bool) : SniffResult * string :=
  if str_existsb (Ascii.eqb nul) head then (SniffUnexpectedShape, "")
  else
    let '(line, terminated) := firstLine head in
    let unjudgeable := negb terminated && truncated in
    if (TrimSpace line =? "")%string then if unjudgeable then (SniffOK, "") else (SniffEmpty, "")
    else match Unmarshal_record line with
         | None => if unjudgeable then (SniffOK, "") else (SniffUnexpectedShape, "")
         | Some rec =>
             let v := version_of_line line rec in
             if negb (v =? "")%string then (SniffOK, v)
             else (SniffOK, versionFromHead (Url.cut_byte "010" head).1.2)
         end.

(** [hex.DecodeString]. *)
Definition hex_digit (c : ascii) : option Z :=
  if is_digit c then Some (byte_code c - 48)
  else if in_range "a" "f" c then Some (byte_code c - 87)
  else if in_range "A" "F" c then Some (byte_code c - 55)
  else None.
Fixpoint hex_decode (s : string) : option string :=
  match s with
  | "" => Some ""
  | String a (String b r) =>
      match hex_digit a, hex_digit b, hex_decode r with
      | Some x, Some y, Some t => Some (String (byte_of (16 * x + y)) t)
      | _, _, _ => None
      end
  | _ => None
  end.

Fixpoint trim_left_of (f : ascii -> bool) (s : string) : string :=
  match s with String c r => if f c then trim_left_of f r else s | "" => "" end.
Definition json_space (c : ascii) : bool := existsb (Ascii.eqb c) [" "; "009"; "010"; "013"]%char.

Definition default_scan : Z := 64 * 1024.
Definition sniff (path : string) (spec : option SniffSpec) : SniffResult * string :=
  match spec with
  | None => (SniffOK, "")
  | Some spec =>
      let is_kind kind := (Kind spec =? kind)%string in
      if is_kind "" || is_kind "none" then (SniffOK, "")
      else
        let budget := if MaxScanBytes spec <=? 0 then default_scan else MaxScanBytes spec in
        match readHead path budget with
        | Err _ => (SniffUnreadable, "")
        | Ok (head, truncated) =>
            if (head =? "")%string then (SniffEmpty, "")
            else if is_kind "jsonl" then sniffJSONL head truncated
            else if is_kind "json" then
              match trim_left_of json_space head with
              | String c _ => if (c =? "{")%char || (c =? "[")%char then (SniffOK, "") else (SniffUnexpectedShape, "")
              | "" => (SniffUnexpectedShape, "")
              end
            else if is_kind "magic" then
              match hex_decode (MagicHex spec) with
              | Some want => if has_prefix want head then (SniffOK, "") else (SniffUnexpectedShape, "")
              | None => (SniffUnexpectedShape, "")
              end
            else if is_kind "text" then
              if str_existsb (Ascii.eqb nul) head then (SniffUnexpectedShape, "") else (SniffOK, "")
            else (SniffOK, "")
        end
  end.

(** ** gather.go: the sample *)

Definition sniffSampleSize : nat := 5.

Definition sampleIndexes (length n : nat) : list nat :=
  if (length <=? n)%nat then seq 0 length else map (fun i => i * (length - 1) / (n - 1))%nat (seq 0 n).

Definition condemned (r : SniffResult) : bool :=
  bool_decide (r = SniffUnreadable) || bool_decide (r = SniffUnexpectedShape).

Record sample := mkSample { s_best : SniffResult; s_ok : option (SniffResult * string); s_failures : Z }.
Definition sample_step (i : nat) (answer : SniffResult * string) (s : sample) : sample :=
  if condemned answer.1
  then mkSample (if (i =? 0)%nat then answer.1 else s_best s) (s_ok s) (s_failures s + 1)
  else mkSample (s_best s) (Some answer) (s_failures s).

Fixpoint sample_loop (i : nat) (answers : list (SniffResult * string)) (s : sample) : sample :=
  match answers with
  | [] => s
  | a :: r => sample_loop (S i) r (sample_step i a s)
  end.

Definition sniffSample (matched : list Candidate) (spec : option SniffSpec) : SniffResult * string * Z :=
  match matched with
  | [] => (SniffUnreadable, "", 0)
  | _ =>
      let idx := sampleIndexes (length matched) sniffSampleSize in
      let asked := omap (fun at_ => (fun c => sniff (Spec.Path c) spec) <$> matched !! at_) idx in
      let s := sample_loop 0 asked (mkSample SniffUnset None 0) in
      match s_ok s with
      | None => (s_best s, "", s_failures s)
      | Some (r, version) => (r, version, s_failures s)
      end
  end.
End Sniffing.

(** What is read of a source's files stays within its bound, and a source is condemned only by all of a
    sample that spans the whole of it. *)

(** ** Bounds *)

Lemma slen_take n s : slen (str_take (Z.to_nat n) s) <= Z.max 0 n.
Proof.
  unfold slen. enough (String.length (str_take (Z.to_nat n) s) <= Z.to_nat n)%nat by lia.
  generalize (Z.to_nat n) as k. clear n. induction s as [|c s IH]; intros [|k]; simpl; try lia. specialize (IH k). lia.
Qed.

Section Reading.
Context {disk : Disk} {zstd : Zstd}.

Lemma ReadWhole_bounded path max raw info : 0 < max -> ReadWhole path max = Ok (raw, info) -> slen raw <= max.
Proof.
  intros Hm. unfold ReadWhole. destruct (platform_Open path) as [[f i]|]; cbn [rbind]; [|done].
  assert ((0 <? max) = true) as -> by lia. cbn [andb]. destruct (max <? fi_Size i); [done|].
  destruct (read_limited _ _ _) as [body|]; [|done]. destruct (max <? slen body) eqn:E; [done|].
  intros [= <- _]. lia.
Qed.

Lemma readZstd_bounded path max raw info : readZstd path max = Ok (raw, info) -> 0 < max /\ slen raw <= max.
Proof.
  unfold readZstd. destruct (max <=? 0) eqn:Em; [done|]. destruct (platform_Open path) as [[f i]|]; cbn [rbind]; [|done].
  destruct (newZstdReader f path) as [[dec n]|]; cbn [rbind]; [|done].
  destruct (read_limited _ _ _) as [body|]; [|done]. destruct (max <? slen body) eqn:E; [done|].
  intros [= <- _]. lia.
Qed.

(** Reading up to one byte past the bound tells a file within it from a longer one. *)
Lemma read_limited_whole max body : 0 < max -> slen body <= max -> read_limited (max + 1) body None = Ok body.
Proof.
  intros Hm Hb. unfold read_limited. destruct (Z.leb_spec (max + 1) 0); [lia|].
  destruct (Z.leb_spec (max + 1) (slen body)); [lia|done].
Qed.

(** What is loaded of a file is within the source's bound, the decoded size of a compressed file
    included; and a readable plain file that fits is loaded whole. *)
Theorem load_bounded path max :
  0 < max < 2 ^ 63 - 1 ->
  (forall p, fileLoader None path max = Ok p -> slen (Bytes p) <= max) /\
  (forall f info, platform_Open path = Ok (f, info) -> IsZstd path = false -> h_err f = None ->
     fi_Size info <= max -> slen (h_body f) <= max ->
     fileLoader None path max = Ok (mkPayload (h_body f) (fi_MTime info) "" None)).
Proof.
  intros Hm. split.
  - intros p. unfold fileLoader. destruct (IsZstd path).
    + destruct (readZstd path max) as [[raw info]|] eqn:E; cbn [rbind]; [|done]. intros [= <-]. by apply readZstd_bounded in E as [_ ?].
    + destruct (ReadWhole path max) as [[raw info]|] eqn:E; cbn [rbind]; [|done]. intros [= <-]. eapply ReadWhole_bounded, E. lia.
  - intros f info Ho Hz He Hs Hb. unfold fileLoader. rewrite Hz. unfold ReadWhole. rewrite Ho. cbn [rbind].
    assert ((0 <? max) = true) as -> by lia. assert ((max <? fi_Size info) = false) as -> by lia. cbn [andb].
    rewrite int64_id, He, read_limited_whole by lia. assert ((max <? slen (h_body f)) = false) as -> by lia. reflexivity.
Qed.

Lemma readHead_bounded path budget head_ more : 0 <= budget -> readHead path budget = Ok (head_, more) -> slen head_ <= budget.
Proof.
  intros Hb. unfold readHead. destruct (platform_Open path) as [[f i]|]; cbn [rbind]; [|done].
  destruct (fi_Size i =? 0); [intros [= <- _]; done|]. destruct (IsZstd path).
  - destruct (newZstdReader f path) as [[dec n]|]; cbn [rbind]; [|done]. pose proof (slen_take (Z.min (Z.min (slen (z_body dec)) (budget + 1)) budget) (z_body dec)) as Ht.
    destruct (slen (z_body dec) <? budget + 1); [destruct (z_err dec); [done|]|]; intros [= <- _]; lia.
  - destruct (_ && _); [done|]. intros [= <- _]. pose proof (slen_take (Z.min budget (fi_Size i)) (h_body f)). lia.
Qed.
End Reading.

(** ** The blocks of a frame *)

Lemma block_header_in body e v : block_header body e = Some v -> 0 <= e /\ e + 3 <= slen body /\ 0 <= v < 2 ^ 24.
Proof.
  unfold block_header. destruct (Z.ltb_spec e 0); [done|].
  destruct (str_drop (Z.to_nat e) body) as [|a [|b [|c r]]] eqn:E; try done. intros [= <-].
  apply (f_equal String.length) in E. rewrite length_str_drop in E. simpl in E. unfold slen.
  split_and!; [lia|lia| |].
  - apply Z.lor_nonneg. split; [apply byte_code_range|]. apply Z.lor_nonneg.
    split; apply Z.shiftl_nonneg; apply byte_code_range.
  - pose proof (byte_code_range a). pose proof (byte_code_range b). pose proof (byte_code_range c).
    assert (Hlor : forall x y, 0 <= x < 2 ^ 24 -> 0 <= y < 2 ^ 24 -> Z.lor x y < 2 ^ 24).
    { intros x y Hx Hy. assert (0 <= Z.lor x y) by (apply Z.lor_nonneg; lia).
      destruct (Z.eq_dec (Z.lor x y) 0) as [->|]; [lia|]. apply Z.log2_lt_pow2; [lia|]. rewrite Z.log2_lor by lia.
      apply Z.max_lub_lt; (destruct (Z.eq_dec x 0) as [->|]; destruct (Z.eq_dec y 0) as [->|]; cbn; try lia;
        apply Z.log2_lt_pow2; lia). }
    assert (Hl : forall x y, 0 <= x < 2 ^ 24 -> 0 <= y < 2 ^ 24 -> 0 <= Z.lor x y < 2 ^ 24).
    { intros x y Hx Hy. split; [apply Z.lor_nonneg; lia|by apply Hlor]. }
    apply Hl; [lia|]. apply Hl; rewrite Z.shiftl_mul_pow2 by lia; lia.
Qed.

(** The fuel is enough: a longer one finds the same end. *)
Lemma blocks_end_fuel body fuel k e : slen body < 2 ^ 62 -> 0 <= e -> slen body - e < 3 * Z.of_nat fuel ->
  blocks_end (fuel + k) body e = blocks_end fuel body e.
Proof.
  intros Hb. revert e. induction fuel as [|fuel IH]; intros e He Hf.
  - destruct k as [|k]; [done|]. cbn [Nat.add blocks_end]. destruct (block_header body e) as [v|] eqn:E; [|done].
    apply block_header_in in E. lia.
  - cbn [Nat.add blocks_end]. destruct (block_header body e) as [v|] eqn:E; [|done]. apply block_header_in in E as (H1 & H2 & H3).
    destruct (Z.land v 1 =? 1); [done|].
    assert (Hn : 0 <= (if Z.land (Z.shiftr v 1) 3 =? 1 then 1 else Z.shiftr v 3) <= 2 ^ 24).
    { destruct (_ =? _); [lia|]. rewrite Z.shiftr_div_pow2 by lia. split; [apply Z.div_pos; lia|].
      apply Z.div_le_upper_bound; lia. }
    rewrite int64_id by lia. apply IH; lia.
Qed.

(** ** The sample *)

Lemma sampleIndexes_spec length n : (0 < length)%nat -> (1 < n)%nat ->
  head (sampleIndexes length n) = Some 0%nat /\ last (sampleIndexes length n) = Some (length - 1)%nat /\
  Forall (fun i => i < length)%nat (sampleIndexes length n) /\ StronglySorted lt (sampleIndexes length n).
Proof.
  intros Hl Hn. unfold sampleIndexes.
  assert (Hseq : forall a b, StronglySorted lt (seq a b)).
  { intros a b. revert a. induction b as [|b IH]; intros a; cbn; constructor; [apply IH|].
    apply List.Forall_forall. intros x Hx%in_seq. lia. }
  destruct (Nat.leb_spec length n).
  - destruct length as [|m]; [lia|]. split_and!; [done| | |apply Hseq].
    + rewrite seq_S, last_snoc. f_equal. lia.
    + apply List.Forall_forall. intros x Hx%in_seq. lia.
  - destruct n as [|[|m]]; [lia..|]. split_and!.
    + done.
    + rewrite seq_S, map_app. cbn [map]. rewrite last_snoc. cbn [Nat.add]. f_equal. replace (S (S m) - 1)%nat with (S m) by lia.
      rewrite Nat.mul_comm, Nat.div_mul; lia.
    + apply List.Forall_forall. intros x Hx%in_map_iff. destruct Hx as (i & <- & Hi%in_seq).
      apply Nat.Div0.div_lt_upper_bound. replace (S (S m) - 1)%nat with (S m) by lia. nia.
    + specialize (Hseq 0%nat (S (S m))). revert Hseq. generalize (seq 0 (S (S m))). intros l Hs.
      replace (S (S m) - 1)%nat with (S m) by lia.
      induction Hs as [|a l Hs IH Ha]; cbn [map]; constructor; [exact IH|]. apply List.Forall_map.
      eapply List.Forall_impl; [|exact Ha]. intros b Hab. cbv beta.
      pose proof (Nat.div_add (a * (length - 1)) 1 (S m) ltac:(lia)) as Hadd.
      assert (Hle : (a * (length - 1) + 1 * S m <= b * (length - 1))%nat).
      { pose proof (Nat.mul_le_mono_r (S a) b (length - 1) ltac:(lia)) as Hm. rewrite Nat.mul_succ_l in Hm. lia. }
      pose proof (Nat.Div0.div_le_mono _ _ (S m) Hle). lia.
Qed.

Section Sample.
Context {disk : Disk} {zstd : Zstd} {json : RecordJson}.

Lemma sample_loop_spec answers i s : let s' := sample_loop i answers s in
  s_failures s' = s_failures s + Zlen (List.filter (fun a => condemned a.1) answers) /\
  s_ok s' = match last (List.filter (fun a => negb (condemned a.1)) answers) with Some a => Some a | None => s_ok s end /\
  (i <> 0%nat -> s_best s' = s_best s).
Proof.
  revert i s. induction answers as [|a answers IH]; intros i s; cbn [sample_loop List.filter].
  { cbn. unfold Zlen. split_and!; [simpl; lia|done|done]. }
  destruct (IH (S i) (sample_step i a s)) as (H1 & H2 & H3). unfold sample_step in *.
  destruct (condemned a.1) eqn:E; cbn [negb s_failures s_ok s_best] in *.
  - rewrite Zlen_cons, H1. split_and!; [lia|done|]. intros Hi. rewrite H3 by done. destruct (Nat.eqb_spec i 0) as [E0|_]; [by destruct Hi|reflexivity].
  - rewrite H1, H2. split; [done|]. split; [|intros Hi; by rewrite H3].
    destruct (List.filter (fun a0 => negb (condemned a0.1)) answers) as [|x l]; [done|]. rewrite (last_cons a (x :: l)). by destruct (last (x :: l)).
Qed.

(** The answers the sample gets. *)
Definition asked (matched : list Candidate) (spec : option SniffSpec) : list (SniffResult * string) :=
  omap (fun at_ => (fun c => sniff (Spec.Path c) spec) <$> matched !! at_) (sampleIndexes (length matched) sniffSampleSize).

(** A source is condemned by its sample only when every sampled file is unreadable or of the wrong
    shape, the sample being five different files, or all when there are fewer, the oldest and the
    newest among them; the failures counted are those of the sample. *)
Theorem sample_condemns_all matched spec : matched <> [] ->
  let '(verdict, version, failures) := sniffSample matched spec in
  let idx := sampleIndexes (length matched) sniffSampleSize in
  (condemned verdict = true <-> Forall (fun a => condemned a.1 = true) (asked matched spec)) /\
  failures = Zlen (List.filter (fun a => condemned a.1) (asked matched spec)) /\
  length idx = Nat.min (length matched) sniffSampleSize /\ StronglySorted lt idx /\
  head idx = Some 0%nat /\ last idx = Some (length matched - 1)%nat /\ length (asked matched spec) = length idx.
Proof.
  intros Hne. unfold sniffSample. destruct matched as [|c0 rest]; [done|]. clear Hne. set (matched := c0 :: rest).
  fold (asked matched spec).
  assert (Hlen : (0 < length matched)%nat) by (simpl; lia).
  destruct (sampleIndexes_spec (length matched) sniffSampleSize Hlen ltac:(unfold sniffSampleSize; lia)) as (H1 & H2 & H3 & H4).
  assert (Hl : length (asked matched spec) = length (sampleIndexes (length matched) sniffSampleSize)).
  { unfold asked. clear -H3. induction H3 as [|i l Hi _ IH]; [done|]. cbn [omap list_omap].
    destruct (lookup_lt_is_Some_2 matched i Hi) as [c ->]. cbn [fmap option_fmap option_map length]. f_equal. exact IH. }
  assert (Hn : asked matched spec <> []).
  { intros E. rewrite E in Hl. by destruct (sampleIndexes (length matched) sniffSampleSize). }
  set (s := sample_loop 0 _ _).
  destruct (sample_loop_spec (asked matched spec) 0 (mkSample SniffUnset None 0)) as (F1 & F2 & _). fold s in F1, F2. cbn in F1, F2.
  assert (Hall : Forall (fun a => condemned a.1 = true) (asked matched spec) <-> s_ok s = None).
  { rewrite F2. clear. induction (asked matched spec) as [|a l IH]; [by split|]. cbn [List.filter].
    destruct (condemned a.1) eqn:E; cbn [negb].
    - rewrite <- IH. split; [by intros [_ ?]%Forall_cons|]. intros. by apply Forall_cons.
    - split; [intros [? _]%Forall_cons; congruence|]. rewrite last_cons. by destruct (last _). }
  assert (Hidx : length (sampleIndexes (length matched) sniffSampleSize) = Nat.min (length matched) sniffSampleSize).
  { unfold sampleIndexes. destruct (Nat.leb_spec (length matched) sniffSampleSize); [rewrite length_seq; lia|].
    rewrite length_map, length_seq. lia. }
  destruct (s_ok s) as [[verdict version]|] eqn:Eok; split_and!; try done.
  - split; [|intros Hf; by apply Hall in Hf]. intros Hv. exfalso.
    destruct (last _) as [a|] eqn:El in F2; [|done]. injection F2 as <-. apply last_Some_elem_of in El.
    apply list_elem_of_In, filter_In in El as [_ El]. cbn in El. by rewrite Hv in El.
  - split; [intros _; by apply Hall|intros _].
    destruct (proj2 Hall eq_refl) as [|a l Ha Hf] eqn:Ef; [done|].
    unfold s. cbn [sample_loop]. 
    destruct (sample_loop_spec l 1 (sample_step 0 a (mkSample SniffUnset None 0))) as (_ & _ & Hb).
    rewrite Hb by done. unfold sample_step. by rewrite Ha.
Qed.
End Sample.

(** ** A concrete disk *)

Module SampleFiles.
#[export] Instance disk : Disk := {| OpenFile := fun path =>
  if has_suffix ".gone" path then Err (OsError "no such file")
  else Ok (mkHandle (Ok (mkInfo (slen path) 5 true "" 384)) path None) |}.
#[export] Instance zstd : Zstd :=
  {| HeaderMaxSize := 17; zstd_NewReader := fun _ => Err "none"; Header_Decode := fun _ => None |}.
#[export] Instance json : RecordJson :=
  {| Unmarshal_record := fun _ => None; Unmarshal_string := fun _ => None; Unmarshal_copilotVersion := fun _ => None |}.

Lemma load_bounded_witness :
  fileLoader None "/store/a.jsonl" 20 = Ok (mkPayload "/store/a.jsonl" 5 "" None) /\ is_ok (fileLoader None "/store/a.jsonl" 5) = false /\
  forall p, fileLoader None "/store/a.jsonl" 5 = Ok p -> slen (Bytes p) <= 5.
Proof.
  split; [vm_compute; reflexivity|]. split; [vm_compute; reflexivity|]. apply (load_bounded "/store/a.jsonl" 5). split; reflexivity.
Defined.

Definition candidate (path : string) : Candidate :=
  mkCandidate "" None false path "" "" "" (Ok (mkPayload "" 0 "" None)) 0 0 None.
(** Seven files, of which the third to the sixth are gone: the sample asks the first, second, fourth,
    fifth and last. *)
Definition matched : list Candidate := map candidate ["a"; "b"; "c.gone"; "d.gone"; "e.gone"; "f.gone"; "g"].
Definition spec : option SniffSpec := Some (mkSniffSpec "text" "" 0).

Lemma sample_condemns_all_witness :
  sampleIndexes 7 5 = [0; 1; 3; 4; 6]%nat /\ sniffSample matched spec = (SniffOK, "", 2) /\
  (condemned SniffOK = true <-> Forall (fun a => condemned a.1 = true) (asked matched spec)).
Proof.
  split; [reflexivity|]. assert (E : sniffSample matched spec = (SniffOK, "", 2)) by (vm_compute; reflexivity).
  split; [exact E|]. pose proof (sample_condemns_all matched spec ltac:(discriminate)) as H. rewrite E in H. exact (proj1 H).
Defined.
End SampleFiles.
