(* ===== verification/RepoFilter.v ===== *)
(** Which repository a candidate's session ran in, and whether it is tracked:
    [src/internal/sources/ignore.go] (the probe of a file's head, the caches, the markers, git's
    directories), [anchor.go] (the folders of the sources that state them in one file per directory)
    and [remotes.go]. Paths are Unix paths. The file system is asked anew at every call, so it may
    change between two calls of one filter; JSON decoding is a class. *)

From S2P Require Import Prelude GoLib Naming GoPath GoJson GoText GoUrl Vocab Spec Heuristic Spans Redact Deny SourceFiles.

(** [os.Lstat]: what stands at a path. *)
Inductive entry_kind := DirEntry | LinkEntry | RegularEntry | OtherEntry.
Inductive lstat_error := NotExist | LstatError (text : string).
Class LinkStat := Lstat : string -> result lstat_error entry_kind.

(** [json.Unmarshal] into the struct of a workspace file, its folder and its workspace, and into the
    folders of a [.code-workspace] file, each a path and a URI. *)
Class WorkspaceJson := {
  Unmarshal_workspace : string -> option (string * string);
  Unmarshal_folders : string -> option (list (string * string))
}.

(** ** Data *)

Record gitScope := mkScope { root : string; main : string; common : string }.
Definition no_scope : gitScope := mkScope "" "" "".
Record CWDProbe := mkProbe { From : list string; Fields : list string; ScanBytes : Z }.
Record GitRead := mkGitRead { WalkUp : bool; FollowGitdirFile : bool }.

(** The two readers of an anchor file: [sessionStartCWD] of a probe and [workspaceFolders]. *)
Inductive anchor_reader := SessionStart (probe : CWDProbe) | WorkspaceFile.
Record sessionAnchor := mkAnchor { depth : nat; file : string; read : anchor_reader }.

Record RepoFilter := mkFilter {
  probe : option CWDProbe;
  git : option GitRead;
  home : string;
  cwds : gmap string string;
  scopes : gmap string gitScope;
  repos : gmap string (option Repository);
  anchors : gmap string sessionAnchor;
  anchored : gmap string (list string)
}.

Definition remember_cwd (key cwd : string) (f : RepoFilter) : RepoFilter :=
  mkFilter (probe f) (git f) (home f) (<[key := cwd]> (cwds f)) (scopes f) (repos f) (anchors f) (anchored f).
Definition remember_scope (cwd : string) (sc : gitScope) (f : RepoFilter) : RepoFilter :=
  mkFilter (probe f) (git f) (home f) (cwds f) (<[cwd := sc]> (scopes f)) (repos f) (anchors f) (anchored f).
Definition remember_repo (key : string) (r : option Repository) (f : RepoFilter) : RepoFilter :=
  mkFilter (probe f) (git f) (home f) (cwds f) (scopes f) (<[key := r]> (repos f)) (anchors f) (anchored f).
Definition remember_dirs (key : string) (dirs : list string) (f : RepoFilter) : RepoFilter :=
  mkFilter (probe f) (git f) (home f) (cwds f) (scopes f) (repos f) (anchors f) (<[key := dirs]> (anchored f)).

Definition newRepoFilter (probe : option CWDProbe) (git : option GitRead) (home : string) : RepoFilter :=
  mkFilter probe git home ∅ ∅ ∅ ∅ ∅.

Definition copilotAnchors (probe : CWDProbe) : gmap string sessionAnchor :=
  let events := mkAnchor 2 "events.jsonl" (SessionStart probe) in
  let workspace := mkAnchor 1 "workspace.json" WorkspaceFile in
  list_to_map [("copilot-cli-sessions", events); ("copilot-cli-context", events);
               ("copilot-vscode-transcripts", workspace); ("copilot-vscode-chat-sessions", workspace);
               ("copilot-vscode-editing", workspace)].

Definition scan_64k : Z := 64 * 1024.
Definition compiled_probe : CWDProbe :=
  mkProbe ["claude-code-transcripts"; "codex-rollouts"; "codex-togetherlink-rollouts"; "pi-sessions"; "opencode-sessions";
           "hermes-sessions"] ["cwd"; "payload.cwd"; "data.context.cwd"] scan_64k.
Definition compiled_filter (home : string) : RepoFilter :=
  let f := newRepoFilter (Some compiled_probe) (Some (mkGitRead true true)) home in
  mkFilter (probe f) (git f) home (cwds f) (scopes f) (repos f) (copilotAnchors compiled_probe) (anchored f).

(** ** Paths *)

(** [filepath.Join]. *)
Fixpoint path_Join_all (elems : list string) : string :=
  match elems with
  | [] => ""
  | e :: r => if (e =? "")%string then path_Join_all r else Path.Clean (join "/" elems)
  end.

Definition cleanCWD (cwd : string) : string :=
  let p := Path.Clean (TrimSpace cwd) in
  if (p =? ".")%string || (p =? "/")%string then "" else p.

Definition RepoName (cwd : string) : string := if (cwd =? "")%string then "" else Base cwd.

Fixpoint projects_next (parts : list string) : string :=
  match parts with
  | seg :: ((next :: _) as r) => if (seg =? "projects")%string then next else projects_next r
  | _ => ""
  end.
Definition projectDirOf (rel : string) : string := projects_next (split_on "/" rel).

Definition notrajectories : string := ".notrajectories".
Definition MarkerPath (dir : string) : string := path_Join dir notrajectories.

(** The checkout that holds a common git directory; a bare repository has none. *)
Definition mainWorktreeDir (commonDir : string) : string :=
  if (Base commonDir =? ".git")%string then path_Dir commonDir else "".

(** ** stripJSONC *)

Definition jsonc_space (c : ascii) : bool := existsb (Ascii.eqb c) [" "; "009"; "013"; "010"]%char.
Fixpoint drop_jsonc_spaces (rev_out : list ascii) : list ascii :=
  match rev_out with c :: r => if jsonc_space c then drop_jsonc_spaces r else rev_out | [] => [] end.
Fixpoint after_line (s : string) : string :=
  match s with "" => "" | String c r => if (c =? "010")%char then r else after_line r end.

(** The text left, and what was written so far, last byte first. The fuel is the text's length. *)
Fixpoint strip_jsonc (fuel : nat) (inString escaped : bool) (s : string) (out : list ascii) : list ascii :=
  match fuel, s with
  | O, _ | _, "" => out
  | S fuel, String c r =>
      if inString then
        let out := c :: out in
        if escaped then strip_jsonc fuel true false r out
        else if (c =? "\")%char then strip_jsonc fuel true true r out
        else if (c =? "034")%char then strip_jsonc fuel false false r out
        else strip_jsonc fuel true false r out
      else if (c =? "034")%char then strip_jsonc fuel true escaped r (c :: out)
      else if (c =? "/")%char && has_prefix "/" r then strip_jsonc fuel false escaped (after_line r) ("010"%char :: out)
      else if (c =? "/")%char && has_prefix "*" r then
        match str_index "*/" (str_drop 1 r) with
        | None => out
        | Some e => strip_jsonc fuel false escaped (str_drop (e + 3) r) out
        end
      else if (c =? "}")%char || (c =? "]")%char then
        match drop_jsonc_spaces out with
        | ","%char :: trimmed => strip_jsonc fuel false escaped r (c :: trimmed)
        | _ => strip_jsonc fuel false escaped r (c :: out)
        end
      else strip_jsonc fuel false escaped r (c :: out)
  end.
Definition stripJSONC (b : string) : string :=
  string_of_list_ascii (rev (strip_jsonc (String.length b) false false b [])).

Definition localPath (uri : string) : option string :=
  match Url.Parse uri with
  | None => None
  | Some u =>
      if negb (Scheme u =? "file")%string || (GoUrl.Path u =? "")%string then None
      else
        let p := GoUrl.Path u in
        let p := match p with
                 | String a (String b (String c r)) =>
                     if (a =? "/")%char && (c =? ":")%char then String b (String c r) else p
                 | _ => p
                 end in
        if negb (Host u =? "")%string && negb (Host u =? "localhost")%string then None else Some p
  end.

(** ** remotes.go *)

Definition EqualFold_ascii (a b : string) : bool := (to_lower a =? to_lower b)%string.
Definition trim_right_byte (c : ascii) (s : string) : string :=
  str_rev (trim_left_of (Ascii.eqb c) (str_rev s)).
Definition trim_byte (c : ascii) (s : string) : string := trim_right_byte c (trim_left_of (Ascii.eqb c) s).
Fixpoint index_any (p : ascii -> bool) (s : string) : option nat :=
  match s with "" => None | String c r => if p c then Some 0%nat else S <$> index_any p r end.
Definition contains_any (p : ascii -> bool) (s : string) : bool := str_existsb p s.

Section Remotes.
Context {unicode : GoUnicode}.

Definition remoteSection (header : string) : string :=
  let inner := TrimSpace (Url.cut_byte "]" (trim_prefix "[" header)).1.1 in
  if (7 <? String.length inner)%nat && EqualFold_ascii (str_take 7 inner) "remote "
  then trim_byte "034" (TrimSpace (str_drop 7 inner))
  else
    let lower := ToLower inner in
    if has_prefix "remote." lower then str_drop 7 lower else "".

Definition configValue (v : string) : string :=
  let v := TrimSpace v in
  match v with
  | String "034" rest => (Url.cut_byte "034" rest).1.1
  | _ =>
      let v := match index_any (fun c => (c =? "#")%char || (c =? ";")%char) v with
               | Some i => str_take i v
               | None => v
               end in
      TrimSpace v
  end.

(** The host and path of a URL, or of [user@host:path]; none of a mangled or local one. *)
Definition remote_parts (s : string) : option (string * string) :=
  if str_contains "://" s then
    match Url.Parse s with
    | None => None
    | Some u => if EqualFold_ascii (Scheme u) "file" then None
                else Some (Url.Hostname u, trim_prefix "/" (GoUrl.Path u))
    end
  else match index_any (Ascii.eqb ":") s with
       | Some i =>
           if (1 <? i)%nat && negb (contains_any (fun c => (c =? "/")%char || (c =? "\")%char) (str_take i s)) then
             let host := str_take i s in
             let path := str_drop (i + 1) s in
             if has_prefix ":" path || contains_any (fun c => existsb (Ascii.eqb c) ["@"; " "; "009"]%char) path then None
             else Some (match Url.cut_last "@" host with Some (_, h) => h | None => host end, path)
           else None
       | None => None
       end.
Definition normaliseRemote (raw : string) : string * string :=
  match remote_parts (TrimSpace raw) with
  | None => ("", "")
  | Some (host, path) =>
      let host := ToLower host in
      let path := trim_right_byte "/" (trim_suffix ".git" (trim_right_byte "/" path)) in
      if (host =? "")%string || (path =? "")%string then ("", "") else (host, path)
  end.

Definition config_step (st : string * list Remote) (line : string) : string * list Remote :=
  let '(remote, out) := st in
  let line := TrimSpace line in
  if has_prefix "[" line then (remoteSection line, out)
  else
    let '(key, value, ok) := Url.cut_byte "=" line in
    if (remote =? "")%string || negb ok || negb (EqualFold_ascii (TrimSpace key) "url") then (remote, out)
    else
      let '(host, path) := normaliseRemote (configValue value) in
      if (host =? "")%string then (remote, out) else (remote, out ++ [mkRemote remote host path]).

Definition remote_before (a b : Remote) : bool :=
  str_ltb (rem_Name a) (rem_Name b) ||
  (rem_Name a =? rem_Name b)%string &&
    (str_ltb (rem_Host a) (rem_Host b) ||
     (rem_Host a =? rem_Host b)%string && str_ltb (rem_Path a) (rem_Path b)).

(** [slices.Compact]. *)
Definition same_remote (a b : Remote) : bool :=
  (rem_Name a =? rem_Name b)%string && (rem_Host a =? rem_Host b)%string && (rem_Path a =? rem_Path b)%string.
Fixpoint compact_remotes (l : list Remote) : list Remote :=
  match l with
  | a :: ((b :: _) as r) => if same_remote a b then compact_remotes r else a :: compact_remotes r
  | _ => l
  end.

Definition gitConfigMaxBytes : Z := 256 * 1024.
Definition gitRemotes {disk : Disk} (commonDir : string) : list Remote :=
  match ReadWhole (path_Join commonDir "config") gitConfigMaxBytes with
  | Err _ => []
  | Ok (body, _) => compact_remotes (SortStable remote_before (foldl config_step ("", []) (split_on "010" body)).2)
  end.
End Remotes.

(** ** The head of a file *)

Section Filter.
Context {disk : Disk} {zstd : Zstd} {json : RecordJson} {wjson : WorkspaceJson} {links : LinkStat} {fs : FileSystem}
  {unicode : GoUnicode}.

Fixpoint lookup_path (parts : list string) (rec : gmap string string) : option string :=
  match parts with
  | [] => None
  | part :: rest =>
      match rec !! part with
      | None => None
      | Some raw =>
          match rest with
          | [] => Unmarshal_string raw
          | _ => match Unmarshal_record raw with Some nested => lookup_path rest nested | None => None end
          end
      end
  end.
Definition lookupField (rec : gmap string string) (field : string) : option string :=
  lookup_path (split_on "." field) rec.

(** The first field that names something. *)
Definition stated (probe : CWDProbe) (rec : gmap string string) : option string :=
  head (omap (fun field => match lookupField rec field with
                           | Some v => if (v =? "")%string then None else Some v
                           | None => None
                           end) (Fields probe)).

Definition probe_budget (probe : CWDProbe) : Z := if ScanBytes probe <=? 0 then scan_64k else ScanBytes probe.

Definition probeCWD (path : string) (probe : CWDProbe) : option string :=
  match readHead path (probe_budget probe) with
  | Err _ => None
  | Ok (head_, _) =>
      head (omap (fun line =>
        if (TrimSpace line =? "")%string then None
        else match Unmarshal_record line with Some rec => stated probe rec | None => None end)
        (split_on "010" head_))
  end.

(** ** Anchor files *)

Definition sessionStartCWD (probe : CWDProbe) (path : string) : list string * bool :=
  match readHead path (probe_budget probe) with
  | Err _ => ([], false)
  | Ok (head_, _) =>
      let '(line, complete) := firstLine head_ in
      if negb complete then ([], false)
      else match Unmarshal_record line with
           | None => ([], true)
           | Some rec => (option_list (stated probe rec), true)
           end
  end.

Definition workspace_folder (file : string) (folder : string * string) : option string :=
  let '(path, uri) := folder in
  if negb (uri =? "")%string then localPath uri
  else if negb (path =? "")%string then Some (if IsAbs path then path else path_Join (path_Dir file) path)
  else None.
Definition codeWorkspaceFolders (file : string) : list string * bool :=
  match ReadWhole file (1024 * 1024) with
  | Err _ => ([], false)
  | Ok (body, _) =>
      match Unmarshal_folders (stripJSONC body) with
      | None => ([], false)
      | Some folders => (omap (workspace_folder file) folders, true)
      end
  end.

Definition workspaceFolders (path : string) : list string * bool :=
  match ReadWhole path scan_64k with
  | Err _ => ([], false)
  | Ok (body, _) =>
      match Unmarshal_workspace body with
      | None => ([], false)
      | Some (folder, workspace) =>
          if negb (folder =? "")%string then (option_list (localPath folder), true)
          else match localPath workspace with
               | None => ([], true)
               | Some file => codeWorkspaceFolders file
               end
      end
  end.

Definition read_anchor (r : anchor_reader) (path : string) : list string * bool :=
  match r with SessionStart probe => sessionStartCWD probe path | WorkspaceFile => workspaceFolders path end.

Definition nul_text : string := String "000" "".
Definition stated_dirs (found : list string) : list string :=
  omap (fun d => let d := cleanCWD d in if (d =? "")%string then None else Some d) found.

Definition anchoredDirs (f : RepoFilter) (src : Resolved) (c : Candidate) (a : sessionAnchor)
    : RepoFilter * list string :=
  let parts := split_on "/" (RelPath c) in
  if (length parts <=? depth a)%nat || bool_decide (".." ∈ take (depth a) parts) then (f, [])
  else
    let dir := path_Join (Root src) (path_Join_all (take (depth a) parts)) in
    let key := Root src +:+ nul_text +:+ dir in
    match anchored f !! key with
    | Some dirs => (f, dirs)
    | None =>
        let '(found, final) := read_anchor (read a) (path_Join dir (file a)) in
        let dirs := stated_dirs found in
        (if final then remember_dirs key dirs f else f, dirs)
    end.

(** ** The working directory *)

Definition probed (p : CWDProbe) (c : Candidate) : string := default "" (cleanCWD <$> probeCWD (Spec.Path c) p).

(** Asking a file, after its project directory's answer and its own were looked up. *)
Definition ask_file (p : CWDProbe) (key : string) (c : Candidate) (f : RepoFilter) : RepoFilter * string :=
  match cwds f !! Spec.Path c with
  | Some cwd => (f, cwd)
  | None =>
      let cwd := probed p c in
      let f := if (cwd =? "")%string then f else remember_cwd key cwd f in
      (remember_cwd (Spec.Path c) cwd f, cwd)
  end.

Definition filter_CWD (f : RepoFilter) (src : Resolved) (c : Candidate) : RepoFilter * string :=
  match anchors f !! src_ID (source src) with
  | Some a =>
      let '(f, dirs) := anchoredDirs f src c a in
      (f, match dirs with [d] => d | _ => "" end)
  | None =>
      match probe f with
      | None => (f, "")
      | Some p =>
          if negb (bool_decide (src_ID (source src) ∈ From p)) then (f, "")
          else if negb (CWD c =? "")%string then (f, cleanCWD (CWD c))
          else
            let dir := projectDirOf (RelPath c) in
            if (dir =? "")%string then ask_file p (Spec.Path c) c f
            else
              let key := Root src +:+ nul_text +:+ dir in
              match cwds f !! key with
              | Some cwd => (f, cwd)
              | None => ask_file p key c f
              end
      end
  end.

(** ** Git directories *)

Definition gitPointer (file prefix base : string) : option string :=
  match ReadWhole file scan_64k with
  | Err _ => None
  | Ok (body, _) =>
      let text := TrimSpace body in
      if negb (has_prefix prefix text) then None
      else
        let target := TrimSpace (trim_prefix prefix text) in
        if (target =? "")%string then None
        else Some (Path.Clean (if IsAbs target then target else path_Join base target))
  end.

Definition gitCommonDir (gitDir : string) : string :=
  default gitDir (gitPointer (path_Join gitDir "commondir") "" gitDir).

(** The fuel is the path's length: every round drops a segment. *)
Fixpoint find_git (fuel : nat) (cfg : GitRead) (ceiling dir : string) : option (string * string) :=
  match fuel with
  | O => None
  | S fuel =>
      if (dir =? ceiling)%string then None
      else
        let candidate := path_Join dir ".git" in
        match Lstat candidate with
        | Ok kind =>
            match kind with
            | DirEntry => Some (dir, candidate)
            | _ =>
                if FollowGitdirFile cfg then
                  match gitPointer candidate "gitdir:" dir with
                  | Some target => Some (dir, gitCommonDir target)
                  | None => None
                  end
                else None
            end
        | Err _ =>
            if negb (WalkUp cfg) then None
            else let parent := path_Dir dir in
                 if (parent =? dir)%string then None else find_git fuel cfg ceiling parent
        end
  end.
Definition findGitDir (cwd : string) (cfg : GitRead) (ceiling : string) : option (string * string) :=
  if negb (IsAbs cwd) then None
  else let dir := Path.Clean cwd in find_git (S (String.length dir)) cfg ceiling dir.

Definition scope_at (cfg : GitRead) (home cwd : string) : gitScope :=
  match findGitDir cwd cfg home with
  | Some (root, common) => mkScope root (mainWorktreeDir common) common
  | None => no_scope
  end.

Definition scopeOf (f : RepoFilter) (cwd : string) : RepoFilter * gitScope :=
  match git f with
  | None => (f, no_scope)
  | Some cfg =>
      if (cwd =? "")%string then (f, no_scope)
      else match scopes f !! cwd with
           | Some sc => (f, sc)
           | None => let sc := scope_at cfg (home f) cwd in (remember_scope cwd sc f, sc)
           end
  end.

Definition RepoDir (f : RepoFilter) (src : Resolved) (c : Candidate) : RepoFilter * string :=
  let '(f, cwd) := filter_CWD f src c in
  let '(f, sc) := scopeOf f cwd in
  (f, if negb (main sc =? "")%string then main sc else cwd).

Definition read_repository (common : string) : option Repository :=
  match EvalSymlinks common with
  | Some common => Some (mkRepository common (mainWorktreeDir common) (gitRemotes common))
  | None => None
  end.
Definition filter_Repository (f : RepoFilter) (src : Resolved) (c : Candidate) : RepoFilter * option Repository :=
  let '(f, cwd) := filter_CWD f src c in
  let '(f, sc) := scopeOf f cwd in
  if (common sc =? "")%string then (f, None)
  else match repos f !! common sc with
       | Some repo => (f, repo)
       | None => let repo := read_repository (common sc) in (remember_repo (common sc) repo f, repo)
       end.

(** ** Markers *)

Definition markerAt (dir : string) : option string :=
  let p := MarkerPath dir in if is_ok (Lstat p) then Some p else None.

(** The fuel is the path's length, as above. *)
Fixpoint marker_walk (fuel : nat) (home stop d : string) : option string :=
  match markerAt d with
  | Some p => Some p
  | None =>
      if (d =? stop)%string || (d =? home)%string || (path_Dir d =? d)%string then None
      else match fuel with O => None | S fuel => marker_walk fuel home stop (path_Dir d) end
  end.
Definition markerBetween (f : RepoFilter) (dir stop : string) : option string :=
  marker_walk (String.length dir) (home f) stop dir.

Definition Marker (f : RepoFilter) (dir : string) : RepoFilter * option string :=
  if (dir =? "")%string then (f, None)
  else
    let '(f, sc) := scopeOf f dir in
    match markerBetween f dir (root sc) with
    | Some p => (f, Some p)
    | None =>
        if negb (main sc =? "")%string && negb (main sc =? root sc)%string then (f, markerAt (main sc)) else (f, None)
    end.

(** The first marked directory decides; the ones behind it are not asked. *)
Fixpoint any_marked (f : RepoFilter) (dirs : list string) : RepoFilter * bool :=
  match dirs with
  | [] => (f, false)
  | dir :: rest =>
      let '(f, marker) := Marker f dir in
      match marker with Some _ => (f, true) | None => any_marked f rest end
  end.

(** [RepoFilter.Match], of a filter that is not nil: the working directory is asked first either way. *)
Definition filter_Match (f : RepoFilter) (src : Resolved) (c : Candidate) : RepoFilter * bool :=
  let '(f, cwd) := filter_CWD f src c in
  match anchors f !! src_ID (source src) with
  | Some a => let '(f, dirs) := anchoredDirs f src c a in any_marked f dirs
  | None => any_marked f [cwd]
  end.
End Filter.

(** The repository filter: a directory is governed by the nearest marker up to its checkout, a
    checkout by the nearest [.git] below the home directory; the caches change no answer but the one
    they are for, a project directory whose files speak for each other. *)

(** ** Walking up *)

(** The directories from a path up to the root. *)
Fixpoint ups (rsegs : list string) : list string :=
  abs_of (rev rsegs) :: match rsegs with [] => [] | _ :: r => ups r end.
Definition ancestors (segs : list string) : list string := ups (rev segs).

(** The list through the first element that satisfies [p], and before it. *)
Fixpoint through {A} (p : A -> bool) (l : list A) : list A :=
  match l with [] => [] | x :: r => x :: (if p x then [] else through p r) end.
Fixpoint until {A} (p : A -> bool) (l : list A) : list A :=
  match l with [] => [] | x :: r => if p x then [] else x :: until p r end.

Lemma ancestors_snoc segs s : ancestors (segs ++ [s]) = abs_of (segs ++ [s]) :: ancestors segs.
Proof. unfold ancestors. rewrite rev_app_distr. cbn [rev app ups]. by rewrite rev_involutive. Qed.

Lemma ancestors_nil : ancestors [] = ["/"].
Proof. reflexivity. Qed.

Lemma length_append a b : String.length (a +:+ b) = (String.length a + String.length b)%nat.
Proof. induction a as [|x a IH]; simpl; lia. Qed.

Lemma abs_of_length segs : (length segs <= String.length (abs_of segs))%nat.
Proof.
  unfold abs_of. rewrite length_append. change (String.length "/") with 1%nat.
  induction segs as [|s [|t segs] IH]; [simpl; lia|simpl; lia|].
  rewrite join_cons by done. rewrite !length_append. change (String.length "/") with 1%nat in *. cbn [length] in *. lia.
Qed.

Lemma Dir_abs_ne segs s : Forall plain (segs ++ [s]) ->
  (path_Dir (abs_of (segs ++ [s])) =? abs_of (segs ++ [s]))%string = false.
Proof.
  intros H. rewrite path_Dir_abs by done. apply String.eqb_neq. intros E.
  pose proof H as H'. apply Forall_app in H' as [Hs _]. apply abs_of_inj in E; [|done|done].
  apply (f_equal length) in E. rewrite length_app in E. simpl in E. lia.
Qed.

Section Filter.
Context {disk : Disk} {zstd : Zstd} {json : RecordJson} {wjson : WorkspaceJson} {links : LinkStat} {fs : FileSystem}
  {unicode : GoUnicode}.

(** The directories a walk for markers looks into, nearest first. *)
Definition looked_into (stop home : string) (segs : list string) : list string :=
  through (fun d => (d =? stop)%string || (d =? home)%string) (ancestors segs).

Lemma marker_walk_nearest home stop segs : Forall plain segs -> forall fuel, (length segs <= fuel)%nat ->
  marker_walk fuel home stop (abs_of segs) = head (omap markerAt (looked_into stop home segs)).
Proof.
  unfold looked_into. induction segs as [|s segs IH] using rev_ind; intros Hp fuel Hf.
  - rewrite ancestors_nil. change (abs_of []) with "/".
    cbn [through omap list_omap]. destruct fuel; cbn [marker_walk]; destruct (markerAt "/"); try done;
      rewrite path_Dir_root, String.eqb_refl, orb_true_r; by destruct (_ || _).
  - rewrite ancestors_snoc. cbn [through omap list_omap]. rewrite length_app in Hf. cbn in Hf.
    destruct fuel as [|fuel]; [lia|]. cbn [marker_walk]. destruct (markerAt _); [done|].
    rewrite Dir_abs_ne, orb_false_r by done. destruct (_ || _); [done|].
    rewrite path_Dir_abs by done. apply Forall_app in Hp as [Hp _]. apply IH; [done|lia].
Qed.

(** The main checkout is asked when the walk stayed in another one. *)
Definition main_checkout (sc : gitScope) : list string :=
  if negb (main sc =? "")%string && negb (main sc =? root sc)%string then [main sc] else [].

(** The marker that governs a directory is the nearest one from the directory up to the root of its
    checkout, or the home directory outside git, both included, and failing that the main checkout's; no
    directory above is looked into. *)
Theorem Marker_nearest f segs : Forall plain segs ->
  let sc := (scopeOf f (abs_of segs)).2 in
  (Marker f (abs_of segs)).2 =
  head (omap markerAt (looked_into (root sc) (home f) segs ++ main_checkout sc)).
Proof.
  intros Hp sc. unfold Marker. change (abs_of segs =? "")%string with false. cbn iota.
  unfold sc, scopeOf. clear sc.
  assert (H : forall f' sc, home f' = home f ->
    (match markerBetween f' (abs_of segs) (root sc) with
     | Some p => (f', Some p)
     | None => if negb (main sc =? "")%string && negb (main sc =? root sc)%string then (f', markerAt (main sc)) else (f', None)
     end).2 = head (omap markerAt (looked_into (root sc) (home f) segs ++ main_checkout sc))).
  { intros f' sc Hh. unfold markerBetween. rewrite Hh, marker_walk_nearest by (done || apply abs_of_length).
    rewrite omap_app. destruct (omap markerAt (looked_into _ _ _)) as [|p l]; [|done]. cbn [app head].
    unfold main_checkout. destruct (_ && _); [|done]. cbn [omap list_omap snd]. by destruct (markerAt _). }
  destruct (git f) as [cfg|]; [|by apply H]. change (abs_of segs =? "")%string with false. cbn iota.
  destruct (scopes f !! abs_of segs) as [sc|]; [by apply H|]. cbn [snd]. by apply H.
Qed.

(** ** The checkout *)

Definition git_at (cfg : GitRead) (d : string) : option (string * string) :=
  let candidate := path_Join d ".git" in
  match Lstat candidate with
  | Ok DirEntry => Some (d, candidate)
  | Ok _ => if FollowGitdirFile cfg then (fun target => (d, gitCommonDir target)) <$> gitPointer candidate "gitdir:" d else None
  | Err _ => None
  end.
Definition has_git (d : string) : bool := is_ok (Lstat (path_Join d ".git")).

Lemma find_git_step fuel cfg ceiling dir : WalkUp cfg = true ->
  find_git (S fuel) cfg ceiling dir =
  if (dir =? ceiling)%string then None
  else if has_git dir then git_at cfg dir
  else if (path_Dir dir =? dir)%string then None else find_git fuel cfg ceiling (path_Dir dir).
Proof.
  intros Hw. cbn [find_git]. destruct (dir =? ceiling)%string; [done|]. unfold has_git, git_at.
  destruct (Lstat (path_Join dir ".git")) as [[]|e]; cbn [is_ok]; try by rewrite Hw.
  - done.
  - destruct (FollowGitdirFile cfg); [|done]. by destruct (gitPointer _ _ _).
  - destruct (FollowGitdirFile cfg); [|done]. by destruct (gitPointer _ _ _).
  - destruct (FollowGitdirFile cfg); [|done]. by destruct (gitPointer _ _ _).
Qed.

(** A checkout is the nearest directory with a [.git], strictly below the ceiling; a [.git] that leads
    nowhere ends the search. *)
Theorem findGitDir_nearest cfg ceiling segs : Forall plain segs -> WalkUp cfg = true ->
  findGitDir (abs_of segs) cfg ceiling =
  match List.find has_git (until (fun d => (d =? ceiling)%string) (ancestors segs)) with
  | Some d => git_at cfg d
  | None => None
  end.
Proof.
  intros Hp Hw. unfold findGitDir. change (IsAbs (abs_of segs)) with true. cbn [negb]. rewrite Clean_abs_of by done.
  pose proof (abs_of_length segs) as Hl. revert Hl. generalize (String.length (abs_of segs)).
  induction segs as [|s segs IH] using rev_ind; intros fuel Hl; rewrite find_git_step by done.
  - rewrite ancestors_nil. change (abs_of []) with "/". cbn [until].
    destruct ("/" =? ceiling)%string; [done|]. cbn [List.find]. by destruct (has_git "/").
  - rewrite ancestors_snoc. rewrite length_app in Hl. cbn in Hl. destruct fuel as [|fuel]; [lia|].
    cbn [until]. destruct (abs_of (segs ++ [s]) =? ceiling)%string; [done|]. cbn [List.find].
    destruct (has_git _); [done|]. rewrite Dir_abs_ne, path_Dir_abs by done. apply Forall_app in Hp as [Hp _].
    apply IH; [done|lia].
Qed.

(** ** The caches *)

Definition project_key (src : Resolved) (c : Candidate) : string := Root src +:+ nul_text +:+ projectDirOf (RelPath c).
Definition anchor_dir (src : Resolved) (c : Candidate) (a : sessionAnchor) : string :=
  path_Join (Root src) (path_Join_all (take (depth a) (split_on "/" (RelPath c)))).
Definition anchor_says (a : sessionAnchor) (dir : string) : list string :=
  stated_dirs (read_anchor (read a) (path_Join dir (file a))).1.

(** Every cached answer is one the disk gives: a scope is its directory's, an anchored entry is what an
    anchor file in its directory says, and a working directory is what the file asked, or a file of the
    project directory, says. *)
Record coherent (f : RepoFilter) : Prop := mkCoherent {
  ch_scope : forall cwd sc, scopes f !! cwd = Some sc -> exists cfg, git f = Some cfg /\ sc = scope_at cfg (home f) cwd;
  ch_anchored : forall key dirs, anchored f !! key = Some dirs -> exists id a root dir, anchors f !! id = Some a /\
    key = root +:+ nul_text +:+ dir /\ dirs = anchor_says a dir;
  ch_cwd : forall key cwd, cwds f !! key = Some cwd -> exists p src c, probe f = Some p /\ cwd = probed p c /\
    (key = Spec.Path c \/ key = project_key src c)
}.

(** What does not change in a filter. *)
Definition same_rules (f f' : RepoFilter) : Prop :=
  probe f' = probe f /\ git f' = git f /\ home f' = home f /\ anchors f' = anchors f.
Definition good (f f' : RepoFilter) : Prop := coherent f' /\ same_rules f f'.

Lemma same_rules_trans f f' f'' : same_rules f f' -> same_rules f' f'' -> same_rules f f''.
Proof. unfold same_rules. intros (-> & -> & -> & ->) (? & ? & ? & ?). done. Qed.

Lemma same_rules_refl f : same_rules f f.
Proof. done. Qed.

Lemma good_refl f : coherent f -> good f f.
Proof. split; [done|apply same_rules_refl]. Qed.

(** The marker of a directory, no cache asked. *)
Definition pure_scope (f : RepoFilter) (dir : string) : gitScope :=
  match git f with Some cfg => if (dir =? "")%string then no_scope else scope_at cfg (home f) dir | None => no_scope end.
Definition pure_marker (f : RepoFilter) (dir : string) : option string :=
  if (dir =? "")%string then None
  else let sc := pure_scope f dir in
       match markerBetween f dir (root sc) with
       | Some p => Some p
       | None => if negb (main sc =? "")%string && negb (main sc =? root sc)%string then markerAt (main sc) else None
       end.

Lemma pure_marker_rules f f' dir : same_rules f f' -> pure_marker f' dir = pure_marker f dir.
Proof. unfold same_rules, pure_marker, pure_scope, markerBetween. by intros (_ & -> & -> & _). Qed.

Lemma scopeOf_coherent f dir : coherent f -> (scopeOf f dir).2 = pure_scope f dir /\ good f (scopeOf f dir).1.
Proof.
  intros Hf. unfold scopeOf, pure_scope. destruct (git f) as [cfg|] eqn:Eg; [|split; [done|by apply good_refl]].
  destruct (dir =? "")%string; [split; [done|by apply good_refl]|].
  destruct (scopes f !! dir) as [sc|] eqn:Es.
  { destruct (ch_scope f Hf _ _ Es) as (cfg' & E & ->). split; [cbn; congruence|by apply good_refl]. }
  split; [done|]. split; [|by repeat split]. destruct Hf as [H1 H2 H3]. split; [|exact H2|exact H3].
  intros cwd sc H. cbn in H. apply lookup_insert_Some in H as [[<- <-]|[_ H]]; [by exists cfg|by apply H1].
Qed.

Lemma Marker_coherent f dir : coherent f -> (Marker f dir).2 = pure_marker f dir /\ good f (Marker f dir).1.
Proof.
  intros Hf. unfold Marker, pure_marker. destruct (dir =? "")%string; [split; [done|by apply good_refl]|].
  destruct (scopeOf_coherent f dir Hf) as [E [Hc Hr]]. destruct (scopeOf f dir) as [f' sc]. cbn [fst snd] in E, Hc, Hr. subst sc.
  assert (markerBetween f' dir (root (pure_scope f dir)) = markerBetween f dir (root (pure_scope f dir))) as ->.
  { unfold markerBetween. by destruct Hr as (_ & _ & -> & _). }
  destruct (markerBetween _ _ _); [by split|]. by destruct (_ && _); split.
Qed.

Definition marked (f : RepoFilter) (dirs : list string) : bool :=
  existsb (fun dir => bool_decide (is_Some (pure_marker f dir))) dirs.

Lemma any_marked_coherent f dirs : coherent f -> (any_marked f dirs).2 = marked f dirs /\ good f (any_marked f dirs).1.
Proof.
  unfold marked. revert f. induction dirs as [|dir dirs IH]; intros f Hf; [split; [done|by apply good_refl]|].
  cbn [any_marked existsb]. destruct (Marker_coherent f dir Hf) as [E [Hc Hr]].
  destruct (Marker f dir) as [f' m]. cbn [fst snd] in *. subst m. destruct (pure_marker f dir) as [p|] eqn:Ep.
  - by split.
  - destruct (IH f' Hc) as [E' [Hc' Hr']]. split; [|split; [done|by eapply same_rules_trans]]. rewrite E'. cbn.
    induction dirs as [|d ds _]; [done|]. cbn. clear -Hr. 
    assert (forall l, existsb (fun dir => bool_decide (is_Some (pure_marker f' dir))) l =
                      existsb (fun dir => bool_decide (is_Some (pure_marker f dir))) l) as Hl.
    { intros l. induction l as [|x l IH]; [done|]. cbn. by rewrite IH, (pure_marker_rules f f'). }
    by rewrite Hl, (pure_marker_rules f f').
Qed.

Lemma anchoredDirs_coherent f src c id a : coherent f -> anchors f !! id = Some a ->
  good f (anchoredDirs f src c a).1 /\
  ((anchoredDirs f src c a).2 = [] \/
   exists id' a' r dir, anchors f !! id' = Some a' /\ r +:+ nul_text +:+ dir = Root src +:+ nul_text +:+ anchor_dir src c a /\
     (anchoredDirs f src c a).2 = anchor_says a' dir).
Proof.
  intros Hf Ha. unfold anchoredDirs. destruct (_ || _); [split; [by apply good_refl|by left]|].
  fold (anchor_dir src c a). destruct (anchored f !! _) as [dirs|] eqn:Ed.
  { destruct (ch_anchored f Hf _ _ Ed) as (id' & a' & r & dir & H1 & H2 & ->). split; [by apply good_refl|].
    right. by exists id', a', r, dir. }
  destruct (read_anchor _ _) as [found final] eqn:Er. cbn [fst snd].
  assert (Hs : stated_dirs found = anchor_says a (anchor_dir src c a)) by (unfold anchor_says; by rewrite Er).
  split; [|right; by exists id, a, (Root src), (anchor_dir src c a)].
  destruct final; [|by apply good_refl]. split; [|by repeat split]. destruct Hf as [H1 H2 H3]. split; [exact H1| |exact H3].
  intros key dirs H. cbn in H. apply lookup_insert_Some in H as [[<- <-]|[_ H]]; [|by apply H2].
  by exists id, a, (Root src), (anchor_dir src c a).
Qed.

(** Where a session may be taken to have run: where its listing, its own file or a file of its project
    directory says, or nowhere. *)
Definition says (f : RepoFilter) (src : Resolved) (c : Candidate) (cwd : string) : Prop :=
  cwd = "" \/ (CWD c <> "" /\ cwd = cleanCWD (CWD c)) \/
  exists p src' c', probe f = Some p /\ cwd = probed p c' /\
    (Spec.Path c' = Spec.Path c \/ project_key src' c' = Spec.Path c \/
     Spec.Path c' = project_key src c \/ project_key src' c' = project_key src c).

Lemma remember_coherent f key c p src : coherent f -> probe f = Some p ->
  key = Spec.Path c \/ key = project_key src c -> good f (remember_cwd key (probed p c) f).
Proof.
  intros [H1 H2 H3] Hp Hk. split; [|by repeat split]. split; [exact H1|exact H2|].
  intros k v H. cbn in H. apply lookup_insert_Some in H as [[<- <-]|[_ H]]; [by exists p, src, c|by apply H3].
Qed.

Lemma ask_file_coherent f src c p key : coherent f -> probe f = Some p -> key = Spec.Path c \/ key = project_key src c ->
  good f (ask_file p key c f).1 /\ says f src c (ask_file p key c f).2.
Proof.
  intros Hf Hp Hk. unfold ask_file. destruct (cwds f !! Spec.Path c) as [cwd|] eqn:Ec.
  { split; [by apply good_refl|]. destruct (ch_cwd f Hf _ _ Ec) as (p' & src' & c' & H1 & -> & H2).
    right. right. exists p', src', c'. split_and!; try done. destruct H2 as [H2|H2]; auto. }
  cbn [fst snd]. split.
  2:{ right. right. exists p, src, c. split_and!; auto. }
  destruct (probed p c =? "")%string; [by apply (remember_coherent f _ c p src); auto|].
  destruct (remember_coherent f key c p src Hf Hp Hk) as [Hc Hr].
  destruct (remember_coherent _ (Spec.Path c) c p src Hc ltac:(by destruct Hr as (-> & _)) (or_introl eq_refl)) as [Hc' Hr'].
  split; [done|by eapply same_rules_trans].
Qed.

Lemma filter_CWD_coherent f src c : coherent f -> anchors f !! src_ID (source src) = None ->
  good f (filter_CWD f src c).1 /\ says f src c (filter_CWD f src c).2.
Proof.
  intros Hf Ha. unfold filter_CWD. rewrite Ha. destruct (probe f) as [p|] eqn:Ep; [|split; [by apply good_refl|by left]].
  destruct (negb (bool_decide _)); [split; [by apply good_refl|by left]|].
  destruct (negb (CWD c =? "")%string) eqn:Ecw.
  { split; [by apply good_refl|]. right. left. boolp. done. }
  destruct (projectDirOf (RelPath c) =? "")%string; [by apply ask_file_coherent; auto|].
  fold (project_key src c). destruct (cwds f !! project_key src c) as [cwd|] eqn:Ec; [|by apply ask_file_coherent; auto].
  split; [by apply good_refl|]. destruct (ch_cwd f Hf _ _ Ec) as (p' & src' & c' & H1 & -> & H2).
  right. right. exists p', src', c'. split_and!; try done. destruct H2 as [H2|H2]; auto.
Qed.

Lemma anchored_CWD f src c a : coherent f -> anchors f !! src_ID (source src) = Some a -> good f (filter_CWD f src c).1.
Proof.
  intros Hf Ha. unfold filter_CWD. rewrite Ha. destruct (anchoredDirs_coherent f src c _ a Hf Ha) as [Hg _].
  by destruct (anchoredDirs f src c a).
Qed.

(** C30: as long as the disk does not change, the caches decide nothing: a filter with any history drops a
    file exactly when a marker governs one of the directories its session is said to have run in, by its
    listing, by itself, by a file of its project directory or by the anchor file of its directory; and
    stays a filter of which this holds. *)
Theorem Match_by_markers f src c : coherent f ->
  coherent (filter_Match f src c).1 /\ same_rules f (filter_Match f src c).1 /\
  exists dirs, (filter_Match f src c).2 = marked f dirs /\
    match anchors f !! src_ID (source src) with
    | None => exists cwd, dirs = [cwd] /\ says f src c cwd
    | Some a => dirs = [] \/ exists id' a' r dir, anchors f !! id' = Some a' /\
        r +:+ nul_text +:+ dir = Root src +:+ nul_text +:+ anchor_dir src c a /\ dirs = anchor_says a' dir
    end.
Proof.
  intros Hf. unfold filter_Match. destruct (anchors f !! src_ID (source src)) as [a|] eqn:Ea.
  - pose proof (anchored_CWD f src c a Hf Ea) as [Hc Hr]. destruct (filter_CWD f src c) as [f1 cwd]. cbn [fst] in *.
    assert (Ea' : anchors f1 !! src_ID (source src) = Some a) by (by destruct Hr as (_ & _ & _ & ->)). rewrite Ea'.
    destruct (anchoredDirs_coherent f1 src c _ a Hc Ea') as [[Hc2 Hr2] Hd].
    destruct (anchoredDirs f1 src c a) as [f2 dirs]. cbn [fst snd] in *.
    destruct (any_marked_coherent f2 dirs Hc2) as [E [Hc3 Hr3]].
    assert (Hall : same_rules f f2) by by eapply same_rules_trans.
    split_and!; [done|by eapply same_rules_trans|]. exists dirs. split.
    + rewrite E. unfold marked. clear -Hall. induction dirs as [|d ds IH]; [done|]. cbn.
      by rewrite IH, (pure_marker_rules f f2).
    + destruct Hr as (_ & _ & _ & Han). rewrite <- Han. exact Hd.
  - destruct (filter_CWD_coherent f src c Hf Ea) as [[Hc Hr] Hs]. destruct (filter_CWD f src c) as [f1 cwd]. cbn [fst snd] in *.
    assert (anchors f1 !! src_ID (source src) = None) as -> by (by destruct Hr as (_ & _ & _ & ->)).
    destruct (any_marked_coherent f1 [cwd] Hc) as [E [Hc2 Hr2]]. split_and!; [done|by eapply same_rules_trans|].
    exists [cwd]. split; [|by exists cwd]. rewrite E. unfold marked. cbn. by rewrite (pure_marker_rules f f1).
Qed.
End Filter.

(** ** A concrete machine *)

Module SampleFilter.
Definition session : string := "/home/ann/.claude/projects/-home-ann-work-acme/s.jsonl".
Definition line : string := "a record that names its cwd".
#[export] Instance disk : Disk := {| OpenFile := fun path =>
  if (path =? session)%string then Ok (mkHandle (Ok (mkInfo (slen line) 5 true "" 384)) line None)
  else Err (OsError "no such file") |}.
#[export] Instance zstd : Zstd :=
  {| HeaderMaxSize := 17; zstd_NewReader := fun _ => Err "none"; Header_Decode := fun _ => None |}.
#[export] Instance json : RecordJson := {|
  Unmarshal_record := fun text => if (text =? line)%string then Some {["cwd" := "/home/ann/work/acme/cmd/"]} else None;
  Unmarshal_string := Some;
  Unmarshal_copilotVersion := fun _ => None
|}.
#[export] Instance wjson : WorkspaceJson := {| Unmarshal_workspace := fun _ => None; Unmarshal_folders := fun _ => None |}.
(** A checkout with a marker, below a directory that has one too. *)
#[export] Instance links : LinkStat := fun path =>
  if (path =? "/home/ann/work/acme/.git")%string then Ok DirEntry
  else if existsb (String.eqb path) ["/home/ann/work/acme/.notrajectories"; "/home/ann/work/.notrajectories"]
  then Ok RegularEntry else Err NotExist.
#[export] Instance fs : FileSystem := {| Stat := fun _ => None; EvalSymlinks := Some |}.
#[export] Instance unicode : GoUnicode := {| wide_upper := fun s => s; wide_lower := fun s => s |}.

Definition filter : RepoFilter := compiled_filter "/home/ann".
Definition src (id : string) : Resolved :=
  mkResolved (mkSource id "" None "file_glob" "transcript" [] "" ["**"] [] 0 None ∅ None None "" "f") "/home/ann/.claude" "" true "".
Definition candidate (path rel : string) : Candidate :=
  mkCandidate "" None false path rel "" "" (Ok (mkPayload "" 0 "" None)) 0 0 None.
Definition c : Candidate := candidate session "projects/-home-ann-work-acme/s.jsonl".
(** A file without a record of its own, beside the session. *)
Definition sibling : Candidate :=
  candidate "/home/ann/.claude/projects/-home-ann-work-acme/memo.md" "projects/-home-ann-work-acme/memo.md".

Lemma Marker_nearest_witness :
  Forall plain ["home"; "ann"; "work"; "acme"; "cmd"] /\
  (Marker filter "/home/ann/work/acme/cmd").2 = Some "/home/ann/work/acme/.notrajectories" /\
  (Marker filter "/home/ann/work/acme/cmd").2 = head (omap markerAt
    (looked_into "/home/ann/work/acme" "/home/ann" ["home"; "ann"; "work"; "acme"; "cmd"])).
Proof.
  assert (Hp : Forall plain ["home"; "ann"; "work"; "acme"; "cmd"]) by (unfold plain; repeat constructor; done).
  split; [exact Hp|]. split; [vm_compute; reflexivity|]. exact (Marker_nearest filter _ Hp).
Defined.

Lemma coherent_start home : coherent (compiled_filter home).
Proof. split; intros ? ?; cbn; by rewrite lookup_empty. Qed.

(** The sibling is dropped once the session was asked, as its project directory's answer is known. *)
Example project_speaks :
  (filter_Match filter (src "claude-code-transcripts") sibling).2 = false /\
  let f := (filter_Match filter (src "claude-code-transcripts") c).1 in
  (filter_Match f (src "claude-code-transcripts") sibling).2 = true.
Proof. vm_compute. done. Qed.

Lemma Match_by_markers_witness :
  coherent filter /\ (filter_Match filter (src "claude-code-transcripts") c).2 = true /\
  coherent (filter_Match filter (src "claude-code-transcripts") c).1.
Proof.
  split; [apply coherent_start|]. split; [vm_compute; reflexivity|].
  apply (Match_by_markers filter (src "claude-code-transcripts") c (coherent_start _)).
Defined.
End SampleFilter.
