(* ===== verification/Discover.v ===== *)
(** Discovery of a source's files: [src/internal/sources/gather.go] ([Registry.For], [discoverByGlob],
    [walkGlobs], [collapseIdentities], the oldest-first order). The directory tree the walk is given is
    data; [filepath.WalkDir] over it is the standard library's. The globs and the pattern of an identity
    rule are classes. One walk resolves a directory's links once, over a tree that does not change under
    it, so the memo of the resolved directories is not kept. *)

From S2P Require Import Prelude GoLib Naming GoPath GoJson GoText GoUrl Vocab Spec Heuristic Spans Deny Manifest SourceFiles RepoFilter.

(** ** The tree *)

(** An entry as [ReadDir] lists it; a file's [Info] may fail, and a directory may not be readable. *)
Inductive tree_node :=
  | FileNode (info : result string file_info)
  | LinkNode
  | OtherNode
  | UnreadableDir (err : string)
  | DirNode (entries : list (string * tree_node)).

(** [os.Lstat] of the root of a walk, and all below it. *)
Class Tree := tree_at : string -> result string tree_node.

(** [regexp.Compile] of an identity rule's pattern: the expansion of a template by the first match. *)
Class IdentityRegexp := identity_Compile : string -> result string (string -> string -> option string).

(** ** The registry *)

Inductive primitive := globPrimitive | Accounts | CursorUsage | sessionDispatch.
Definition registry : gmap string primitive :=
  list_to_map [("file_glob", globPrimitive); ("account", Accounts); ("cursor_usage", CursorUsage); ("sidecar", sessionDispatch)].
Definition For (gather : string) : result error primitive :=
  match registry !! gather with
  | Some p => Ok p
  | None => Err (errors_New ("gather: no compiled primitive " +:+ dquote +:+ gather +:+ dquote))
  end.

(** ** What a walk could not look at *)

Record unreadable := mkUnreadable { count : Z; example : string; err : option string }.
Definition no_unreadable : unreadable := mkUnreadable 0 "" None.
Definition note (path e : string) (bad : unreadable) : unreadable :=
  match err bad with
  | None => mkUnreadable (count bad + 1) path (Some e)
  | Some _ => mkUnreadable (count bad + 1) (example bad) (err bad)
  end.
Definition reason (u : unreadable) : string :=
  let e := default "<nil>" (err u) in
  if count u =? 0 then ""
  else if count u =? 1 then example u +:+ ": " +:+ e
  else int_text (count u) +:+ " paths unreadable, first " +:+ example u +:+ ": " +:+ e.

Definition normalizeGlobs (globs : list string) : list string := map (trim_prefix "/") globs.

Record find_state := mkFindState {
  w_out : list Candidate;
  w_oversize : list OversizeFile;
  w_bad : unreadable;
  w_ignored : bool;
  w_filter : option RepoFilter
}.
Definition walk_note (path e : string) (w : find_state) : find_state :=
  mkFindState (w_out w) (w_oversize w) (note path e (w_bad w)) (w_ignored w) (w_filter w).

Definition read_error_text (e : read_error) : string :=
  match e with
  | ErrNotRegular t => "safeio: not a regular file: " +:+ t
  | ErrTooLarge t => "safeio: file exceeds size limit: " +:+ t
  | ReadError t => t
  end.

Section Discover.
Context {disk : Disk} {zstd : Zstd} {json : RecordJson} {wjson : WorkspaceJson} {links : LinkStat} {fs : FileSystem}
  {unicode : GoUnicode} {ds : Doublestar} {tree : Tree} {identity_regexp : IdentityRegexp}.

(** ** Identity rules *)

Definition identity_compile (id : option IdentityRule) : result string (option (string -> string)) :=
  match id with
  | None => Ok None
  | Some r =>
      match identity_Compile (Match r) with
      | Err e => Err ("identity.match " +:+ dquote +:+ Match r +:+ dquote +:+ ": " +:+ e)
      | Ok expand => Ok (Some (fun rel => default "" (expand (ir_Key r) rel)))
      end
  end.

Definition with_identity (id : string) (c : Candidate) : Candidate :=
  mkCandidate (CWD c) (cand_Repository c) (AlwaysLoad c) (Spec.Path c) (RelPath c) id (Series c) (Load c) (Size c) (MTime c)
    (frame_size c).

(** Of two forms of one session: the newer, on a tie the plain one, then the lower path. *)
Definition preferForm (a b : Candidate) : comparison :=
  match MTime b ?= MTime a with
  | Eq => match IsZstd (RelPath a), IsZstd (RelPath b) with
          | true, false => Gt
          | false, true => Lt
          | _, _ => String.compare (RelPath a) (RelPath b)
          end
  | c => c
  end.

Definition collapse_step (key_of : string -> string) (st : gmap string nat * list Candidate) (c : Candidate)
    : gmap string nat * list Candidate :=
  let '(at_, out) := st in
  let c := with_identity (key_of (RelPath c)) c in
  if (cand_Identity c =? "")%string then (at_, out ++ [c])
  else match at_ !! cand_Identity c with
       | None => (<[cand_Identity c := length out]> at_, out ++ [c])
       | Some i =>
           match out !! i with
           | Some o => match preferForm c o with Lt => (at_, <[i := c]> out) | _ => (at_, out) end
           | None => (at_, out)
           end
       end.
Definition collapseIdentities (matched : list Candidate) (identity : option (string -> string)) : list Candidate :=
  match identity with
  | None => matched
  | Some key_of => (foldl (collapse_step key_of) (∅, []) matched).2
  end.

(** ** The walk *)

Section Walk.
Variables (src : Resolved) (deny : option (list string)).

Definition matchesAny (rel : string) (patterns : list string) : bool :=
  existsb (fun p => bool_decide (ds_Match p rel = Some true)) patterns.

Definition resolveName (p : string) : string :=
  let dir := path_Dir p in
  match EvalSymlinks dir with
  | None => ""
  | Some rdir => if (rdir =? "")%string || (rdir =? dir)%string then "" else path_Join rdir (Base p)
  end.

Definition denied_pair (d : list string) (p : string) : bool := bool_decide (is_Some (MatchPair d p (resolveName p))).
Definition denied_file (path named : string) : bool :=
  match deny with
  | None => false
  | Some d => denied_pair d path || (negb (named =? path)%string && denied_pair d named)
  end.
Definition denied_tree (path : string) : bool :=
  match deny with None => false | Some d => bool_decide (is_Some (MatchTree d path)) end.

(** A candidate loads the file under its configured name; the outcome of loading it is what the disk
    gives. *)
Definition candidate_at (named rel : string) (info : file_info) : Candidate :=
  mkCandidate "" None false named rel "" ""
    match fileLoader None named (MaxFileBytes (source src)) with
    | Ok p => Ok p
    | Err e => Err (errors_New (read_error_text e))
    end (fi_Size info) (fi_MTime info) (frame_size_of named).
Definition probe_candidate (named rel : string) : Candidate :=
  mkCandidate "" None false named rel "" "" (Ok (mkPayload "" 0 "" None)) 0 0 None.

(** [ignore.Match], false of a nil filter. *)
Definition ask_ignore (f : option RepoFilter) (c : Candidate) : option RepoFilter * bool :=
  match f with
  | None => (None, false)
  | Some f => let '(f, b) := filter_Match f src c in (Some f, b)
  end.

(** The file is what the source includes, by its path below the root of the walk. *)
Definition included (rel : string) : bool :=
  matchesAny rel (normalizeGlobs (Include (source src))) && negb (matchesAny rel (normalizeGlobs (Exclude (source src)))).

Definition visit_file (walk_root path : string) (info : result string file_info) (w : find_state) : find_state :=
  match path_Rel walk_root path with
  | None => w
  | Some rel =>
      if negb (included rel) then w
      else
        let named := path_Join (Root src) rel in
        if denied_file path named then w
        else
          let '(f, ignored) := ask_ignore (w_filter w) (probe_candidate named rel) in
          let w := mkFindState (w_out w) (w_oversize w) (w_bad w) (w_ignored w || ignored) f in
          if ignored then w
          else match info with
               | Err e => walk_note path e w
               | Ok info =>
                   let cap := MaxFileBytes (source src) in
                   if (0 <? cap) && (cap <? fi_Size info)
                   then mkFindState (w_out w) (w_oversize w ++ [mkOversize rel (fi_Size info) cap]) (w_bad w) (w_ignored w) (w_filter w)
                   else mkFindState (w_out w ++ [candidate_at named rel info]) (w_oversize w) (w_bad w) (w_ignored w) (w_filter w)
               end
  end.

(** [filepath.WalkDir] with the callback: a directory that cannot be read is reported a second time and
    skipped; an entry that is a link, or neither file nor directory, is passed over. *)
Fixpoint walk_node (walk_root path : string) (n : tree_node) (w : find_state) : find_state :=
  match n with
  | FileNode info => visit_file walk_root path info w
  | LinkNode | OtherNode => w
  | UnreadableDir e => if denied_tree path then w else walk_note path e w
  | DirNode entries =>
      if denied_tree path then w
      else (fix walk_entries (l : list (string * tree_node)) (w : find_state) : find_state :=
              match l with
              | [] => w
              | (name, n') :: l' => walk_entries l' (walk_node walk_root (path_Join path name) n' w)
              end) entries w
  end.

Definition walk_at (walk_root : string) (w : find_state) : find_state :=
  match tree_at walk_root with
  | Err e => walk_note walk_root e w
  | Ok n => walk_node walk_root walk_root n w
  end.

Definition walkGlobs (ignore : option RepoFilter) : find_state :=
  let w := mkFindState [] [] no_unreadable false ignore in
  let root := Root src in
  match EvalSymlinks root with
  | None => walk_at root w
  | Some resolved =>
      if (resolved =? root)%string then walk_at root w
      else match match deny with None => None | Some d => deny_Match d resolved end with
           | Some pattern =>
               walk_note root ("root resolves to " +:+ resolved +:+ ", which the deny list refuses (" +:+ pattern +:+ ")") w
           | None => walk_at resolved w
           end
  end.
End Walk.

(** ** discoverByGlob *)

Definition older (a b : Candidate) : bool :=
  (MTime a <? MTime b) || (MTime a =? MTime b) && str_ltb (RelPath a) (RelPath b).

Definition ignoredReason : string := "every file this source found belongs to a repository you are not tracking".

(** [%v] of a list of strings. *)
Definition list_text (l : list string) : string := "[" +:+ join " " l +:+ "]".

Definition absent (reason : string) : Discovery := mkDiscovery (Some AgentAbsent) [] 0 "" "" SniffUnset "" [] reason 0 false.

(** Nothing matched: the state and the reason, by what stood in the way. *)
Definition nothing_matched (src : Resolved) (w : find_state) : HealthState * string :=
  if 0 <? count (w_bad w) then (MatchPresentUnreadable, reason (w_bad w))
  else if w_ignored w then (RootPresentNoMatch, ignoredReason)
  else if 0 <? Zlen (w_oversize w) then
    (MatchPresentUnreadable, int_text (Zlen (w_oversize w)) +:+ " file(s) matched but every one is over the "
       +:+ int_text (MaxFileBytes (source src)) +:+ "-byte cap")
  else (RootPresentNoMatch, "root " +:+ Root src +:+ " exists but no file matched " +:+ list_text (Include (source src))).

Definition discoverByGlob (src : Resolved) (deny : option (list string)) (ignore : option RepoFilter)
    : result error (option RepoFilter * Discovery) :=
  if (Root src =? "")%string then Ok (ignore, absent (str_or (RootUnresolvedReason src) "no candidate root resolved"))
  else
    match identity_compile (src_Identity (source src)) with
    | Err e => Err (errors_New ("source " +:+ src_ID (source src) +:+ ": " +:+ e))
    | Ok identity =>
        let w := walkGlobs src deny ignore in
        let disc health sniff version candidates why failures :=
          mkDiscovery (Some health) (w_oversize w) (count (w_bad w)) (example (w_bad w)) (reason (w_bad w)) sniff version
            candidates why failures (w_ignored w) in
        let matched := collapseIdentities (w_out w) identity in
        match matched with
        | [] => let '(health, why) := nothing_matched src w in Ok (w_filter w, disc health SniffUnset "" [] why 0)
        | _ =>
            let matched := SortStable older matched in
            let '(sniffed, version, failures) := sniffSample matched (src_Sniff (source src)) in
            if condemned sniffed
            then Ok (w_filter w, disc MatchPresentUnreadable sniffed version []
                       ("shape sniff failed on every one of " +:+ int_text failures +:+ " sampled files; last was "
                        +:+ sniff_text sniffed) failures)
            else Ok (w_filter w, disc Collected sniffed version matched "" failures)
        end
    end.
End Discover.

(** What discovery finds: pruning loses nothing, so a walk is the visit of every regular file of the
    readable directories; and what comes out of it is, of every session, one form, the newest, oldest
    session first. *)

(** ** Trees *)

(** The names [ReadDir] gives are names of entries. *)
Fixpoint named (n : tree_node) : Prop :=
  match n with
  | DirNode entries =>
      (fix all_named (l : list (string * tree_node)) : Prop :=
         match l with [] => True | (name, n') :: l' => plain name /\ named n' /\ all_named l' end) entries
  | _ => True
  end.

(** Every regular file of the readable directories, in the order of the walk. *)
Fixpoint files_of (path : string) (n : tree_node) : list (string * result string file_info) :=
  match n with
  | FileNode info => [(path, info)]
  | LinkNode | OtherNode | UnreadableDir _ => []
  | DirNode entries =>
      (fix files_in (l : list (string * tree_node)) :=
         match l with [] => [] | (name, n') :: l' => files_of (path_Join path name) n' ++ files_in l' end) entries
  end.

Lemma files_of_dir path name n' l :
  files_of path (DirNode ((name, n') :: l)) = files_of (path_Join path name) n' ++ files_of path (DirNode l).
Proof. reflexivity. Qed.

Lemma named_dir name n' l : named (DirNode ((name, n') :: l)) <-> plain name /\ named n' /\ named (DirNode l).
Proof. reflexivity. Qed.

(** Induction over a tree and its entries. *)
Section NodeInd.
Variable P : tree_node -> Prop.
Hypotheses (Hf : forall info, P (FileNode info)) (Hl : P LinkNode) (Ho : P OtherNode)
  (Hu : forall e, P (UnreadableDir e)) (Hd : forall l, Forall (fun e => P e.2) l -> P (DirNode l)).
Fixpoint tree_node_induction (n : tree_node) : P n :=
  match n with
  | FileNode info => Hf info
  | LinkNode => Hl
  | OtherNode => Ho
  | UnreadableDir e => Hu e
  | DirNode l =>
      Hd l ((fix go (l : list (string * tree_node)) : Forall (fun e => P e.2) l :=
               match l with
               | [] => @List.Forall_nil _ _
               | e :: l' => @List.Forall_cons _ (fun e => P e.2) e l' (tree_node_induction e.2) (go l')
               end) l)
  end.
End NodeInd.

Lemma plain_snoc segs name : Forall plain segs -> plain name -> Forall plain (segs ++ [name]).
Proof. intros. apply Forall_app. split; [done|by apply Forall_singleton]. Qed.

Lemma files_below n : forall segs p i, Forall plain segs -> named n -> (p, i) ∈ files_of (abs_of segs) n ->
  exists rest, p = abs_of (segs ++ rest) /\ Forall plain rest.
Proof.
  induction n as [info| | |e|l IH] using tree_node_induction; intros segs p i Hs Hn Hin; try by apply not_elem_of_nil in Hin.
  - apply list_elem_of_singleton in Hin as [= -> ->]. exists []. by rewrite app_nil_r.
  - induction IH as [|[name n'] l Hx _ IHl]; [by apply not_elem_of_nil in Hin|].
    apply named_dir in Hn as (H1 & H2 & H3). rewrite files_of_dir in Hin. apply elem_of_app in Hin as [Hin|Hin].
    + rewrite path_Join_abs in Hin by done. apply Hx in Hin as (rest & -> & Hr); [|by apply plain_snoc|done].
      exists (name :: rest). split; [by rewrite <- app_assoc|by constructor].
    + by apply IHl.
Qed.

(** ** Pruning *)

Lemma join_app sep l l' : l <> [] -> l' <> [] -> join sep (l ++ l') = join sep l +:+ sep +:+ join sep l'.
Proof.
  intros Hl Hl'. induction l as [|a l IH]; [done|]. destruct l as [|b l]; [by cbn [app]; rewrite join_cons|].
  cbn [app]. rewrite !join_cons by done. cbn [app] in IH. rewrite (IH ltac:(done)), (join_cons sep a (b :: l)) by done. by rewrite !string_app_assoc.
Qed.

Section Safe.
Context {disk : Disk} {zstd : Zstd} {json : RecordJson} {wjson : WorkspaceJson} {links : LinkStat} {fs : FileSystem}
  {unicode : GoUnicode} {ds : Doublestar} {tree : Tree} {identity_regexp : IdentityRegexp}.
Variables (src : Resolved) (deny : option (list string)).

Lemma below_abs segs rest : segs <> [] -> Forall plain segs -> Forall plain rest ->
  below (abs_of segs) (abs_of (segs ++ rest)).
Proof.
  intros Hn Hs Hr. unfold below, normalize. rewrite !Clean_abs_of by (try apply Forall_app; done).
  destruct rest as [|x rest]; [left; by rewrite app_nil_r|]. right. apply has_prefix_spec.
  exists (join "/" (x :: rest)). unfold abs_of. rewrite join_app by done. by rewrite !string_app_assoc.
Qed.

Lemma pruned_denied segs rest named_ : segs <> [] -> Forall plain segs -> Forall plain rest ->
  denied_tree deny (abs_of segs) = true -> denied_file deny (abs_of (segs ++ rest)) named_ = true.
Proof.
  intros Hn Hs Hr. unfold denied_tree, denied_file. destruct deny as [d|]; [|done].
  intros [pat Ht]%bool_decide_eq_true. apply orb_true_iff. left. unfold denied_pair, MatchPair.
  destruct (pruned_candidate d _ (abs_of (segs ++ rest)) pat Ht) as [pat' ->]; [by apply below_abs|].
  apply bool_decide_eq_true. by eexists.
Qed.

(** States that agree but for what could not be read. *)
Definition agree (w w' : find_state) : Prop :=
  w_out w = w_out w' /\ w_oversize w = w_oversize w' /\ w_ignored w = w_ignored w' /\ w_filter w = w_filter w'.

#[local] Instance agree_equiv : Equivalence agree.
Proof.
  split; unfold agree.
  - done.
  - intros w w' (? & ? & ? & ?). done.
  - intros w w' w'' (-> & -> & -> & ->) (? & ? & ? & ?). done.
Qed.

#[local] Instance walk_note_proper path e : Proper (agree ==> agree) (walk_note path e).
Proof. intros w w' H. exact H. Qed.

#[local] Instance visit_file_proper wr path info : Proper (agree ==> agree) (visit_file src deny wr path info).
Proof.
  intros w w' (H1 & H2 & H3 & H4). unfold visit_file. destruct (path_Rel wr path); [|done].
  destruct (negb _); [done|]. destruct (denied_file _ _ _); [done|]. rewrite H4.
  destruct (ask_ignore _ _ _) as [f b]. rewrite H3. destruct b; [by unfold agree; cbn; rewrite H1, H2|].
  destruct info as [info|e]; [|by unfold agree; cbn; rewrite H1, H2].
  destruct (_ && _); unfold agree; cbn; by rewrite H1, H2.
Qed.

Definition visit_all (wr : string) (files : list (string * result string file_info)) (w : find_state) : find_state :=
  foldl (fun w f => visit_file src deny wr f.1 f.2 w) w files.

#[local] Instance visit_all_proper wr files : Proper (agree ==> agree) (visit_all wr files).
Proof.
  intros w w' H. unfold visit_all. revert w w' H. induction files as [|f files IH]; intros w w' H; [done|].
  cbn [foldl]. apply IH. by rewrite H.
Qed.

Lemma visit_all_app wr l l' w : visit_all wr (l ++ l') w = visit_all wr l' (visit_all wr l w).
Proof. apply foldl_app. Qed.

Lemma visit_denied wr files w :
  Forall (fun f => forall n, denied_file deny f.1 n = true) files -> visit_all wr files w = w.
Proof.
  intros H. induction H as [|f files Hf _ IH]; [done|]. unfold visit_all. cbn [foldl].
  assert (visit_file src deny wr f.1 f.2 w = w) as ->; [|exact IH].
  unfold visit_file. destruct (path_Rel _ _); [|done]. destruct (negb _); [done|]. by rewrite Hf.
Qed.

Lemma walk_dir_cons wr path name n' l w : denied_tree deny path = false ->
  walk_node src deny wr path (DirNode ((name, n') :: l)) w =
  walk_node src deny wr path (DirNode l) (walk_node src deny wr (path_Join path name) n' w).
Proof. intros H. cbn [walk_node]. by rewrite H. Qed.

Lemma walk_visits n : forall wr segs w, segs <> [] -> Forall plain segs -> named n ->
  agree (walk_node src deny wr (abs_of segs) n w) (visit_all wr (files_of (abs_of segs) n) w).
Proof.
  induction n as [info| | |e|l IH] using tree_node_induction; intros wr segs w Hne Hs Hn; try done.
  - cbn [walk_node files_of visit_all foldl]. by destruct (denied_tree _ _).
  - destruct (denied_tree deny (abs_of segs)) eqn:Ed.
    { rewrite visit_denied; [cbn [walk_node]; by rewrite Ed|].
      rewrite Forall_forall. intros [p i] Hin nm. cbn [fst].
      destruct (files_below _ _ _ _ Hs Hn Hin) as (rest & -> & Hr). by apply pruned_denied. }
    revert w. induction IH as [|[name n'] l Hx _ IHl]; intros w; [cbn [walk_node]; by rewrite Ed|].
    apply named_dir in Hn as (H1 & H2 & H3). rewrite walk_dir_cons, files_of_dir, visit_all_app by done.
    rewrite (IHl H3). apply visit_all_proper. rewrite path_Join_abs by done.
    apply Hx; [by destruct segs|by apply plain_snoc|done].
Qed.

(** Where the walk goes: the root, or what it resolves to when the deny list lets it. *)
Definition walk_root : option string :=
  match EvalSymlinks (Root src) with
  | None => Some (Root src)
  | Some resolved =>
      if (resolved =? Root src)%string then Some (Root src)
      else match deny with
           | Some d => match deny_Match d resolved with Some _ => None | None => Some resolved end
           | None => Some resolved
           end
  end.

Lemma walkGlobs_root ignore :
  walkGlobs src deny ignore =
  match walk_root with
  | Some root => walk_at src deny root (mkFindState [] [] no_unreadable false ignore)
  | None => walkGlobs src deny ignore
  end.
Proof.
  unfold walkGlobs, walk_root. destruct (EvalSymlinks _) as [r|]; [|done].
  destruct (r =? _)%string; [done|]. destruct deny as [d|]; [|done]. by destruct (deny_Match d r).
Qed.

(** C28: pruning loses nothing: the files, the oversized files and the verdicts of the ignore list that a
    walk gives are those of visiting every regular file of the readable directories one after another,
    each checked on its own, whichever directories the deny list had the walk skip. *)
Theorem walk_exact ignore root n :
  walk_root = Some root -> clean_abs root -> root <> "/" -> tree_at root = Ok n -> named n ->
  agree (walkGlobs src deny ignore)
    (visit_all root (files_of root n) (mkFindState [] [] no_unreadable false ignore)).
Proof.
  intros Hw Hc Hr Ht Hn. rewrite walkGlobs_root, Hw. unfold walk_at. rewrite Ht.
  destruct (clean_abs_segs _ Hc) as (segs & Hs & ->). apply walk_visits; [|done|done]. by intros ->.
Qed.
Lemma walk_found ignore root n :
  walk_root = Some root -> clean_abs root -> root <> "/" -> tree_at root = Ok n -> named n ->
  w_out (walkGlobs src deny ignore) = w_out (visit_all root (files_of root n) (mkFindState [] [] no_unreadable false ignore)).
Proof.
  intros Hw Hc Hr Ht Hn. rewrite walkGlobs_root, Hw. unfold walk_at. rewrite Ht.
  destruct (clean_abs_segs _ Hc) as (segs & Hs & ->). apply walk_visits; [|done|done]. by intros ->.
Qed.
End Safe.

(** ** One form per session *)

Definition prefers (a b : Candidate) : Prop := preferForm a b <> Gt.

Lemma prefers_spec a b : prefers a b <->
  MTime b < MTime a \/ (MTime a = MTime b /\
    ((IsZstd (RelPath a) = false /\ IsZstd (RelPath b) = true) \/
     (IsZstd (RelPath a) = IsZstd (RelPath b) /\ str_leb (RelPath a) (RelPath b) = true))).
Proof.
  unfold prefers, preferForm, str_leb. destruct (Z.compare_spec (MTime b) (MTime a)) as [E|E|E].
  - destruct (IsZstd (RelPath a)), (IsZstd (RelPath b)); destruct (String.compare _ _); split; intros H;
      try done; try (right; split; [done|]; auto; fail); destruct H as [?|(_ & [[? ?]|[? ?]])]; done || lia.
  - split; [by left|done].
  - split; [done|]. intros [?|[? _]]; lia.
Qed.

Lemma prefers_trans a b c : prefers a b -> prefers b c -> prefers a c.
Proof.
  rewrite !prefers_spec. intros [?|(E1 & H1)] [?|(E2 & H2)]; try (left; lia). right. split; [congruence|].
  destruct H1 as [[? ?]|[? ?]], H2 as [[? ?]|[? ?]]; try congruence; [left; split; congruence..|].
  right. split; [congruence|by eapply str_leb_trans].
Qed.

Lemma prefers_refl a : prefers a a.
Proof. apply prefers_spec. right. split; [done|]. right. split; [done|]. by destruct (str_leb_total (RelPath a) (RelPath a)). Qed.

Lemma not_better_prefers a b : preferForm a b <> Lt -> prefers b a.
Proof.
  rewrite prefers_spec. unfold preferForm. destruct (Z.compare_spec (MTime b) (MTime a)) as [E|E|E]; intros H.
  - right. split; [done|]. destruct (IsZstd (RelPath a)), (IsZstd (RelPath b)); try done; [right|left|right]; try done;
      (split; [done|]); unfold str_leb; rewrite String.compare_antisym; by destruct (String.compare (RelPath a) _).
  - done.
  - by left.
Qed.

Section Collapse.
Variable key_of : string -> string.

Definition keyed (c : Candidate) : Candidate := with_identity (key_of (RelPath c)) c.

Record collapsed (at_ : gmap string nat) (out seen : list Candidate) : Prop := mkCollapsed {
  co_at : forall k i, at_ !! k = Some i -> exists o, out !! i = Some o /\ cand_Identity o = k;
  co_index : forall i o, out !! i = Some o -> cand_Identity o <> "" -> at_ !! cand_Identity o = Some i;
  co_from : forall o, o ∈ out -> exists c, c ∈ seen /\ o = keyed c;
  co_best : forall c, c ∈ seen -> exists o, o ∈ out /\ cand_Identity o = cand_Identity (keyed c) /\
    prefers o (keyed c) /\ (cand_Identity o = "" -> o = keyed c)
}.

Lemma collapsed_append at_ at' out seen c :
  collapsed at_ out seen ->
  (cand_Identity (keyed c) = "" /\ at' = at_ \/
   cand_Identity (keyed c) <> "" /\ at_ !! cand_Identity (keyed c) = None /\ at' = <[cand_Identity (keyed c) := length out]> at_) ->
  collapsed at' (out ++ [keyed c]) (seen ++ [c]).
Proof.
  intros [H1 H2 H3 H4] Hc. split.
  - intros k i Hk.
    assert (at_ !! k = Some i \/ (k = cand_Identity (keyed c) /\ i = length out)) as [Hk'|[-> ->]].
    { destruct Hc as [[_ ->]|(_ & _ & ->)]; [by left|]. apply lookup_insert_Some in Hk as [[<- <-]|[_ ?]]; auto. }
    + destruct (H1 _ _ Hk') as (o & Ho & E). exists o. split; [|done]. by apply lookup_app_l_Some.
    + exists (keyed c). split; [|done]. by rewrite lookup_app_r, Nat.sub_diag by lia.
  - intros i o Ho Hn. apply lookup_app_Some in Ho as [Ho|[Hge Ho]].
    + specialize (H2 i o Ho Hn). destruct Hc as [[_ ->]|(_ & Hnone & ->)]; [done|].
      rewrite lookup_insert_ne; [done|]. intros E. rewrite E in Hnone. congruence.
    + apply list_lookup_singleton_Some in Ho as [E <-]. destruct Hc as [[Hc _]|(_ & _ & ->)]; [done|].
      rewrite lookup_insert_eq. f_equal. lia.
  - intros o [Ho|Ho]%elem_of_app.
    + destruct (H3 o Ho) as (c' & ? & ->). exists c'. split; [|done]. apply elem_of_app. by left.
    + apply list_elem_of_singleton in Ho as ->. exists c. split; [|done]. apply elem_of_app. right. by apply list_elem_of_singleton.
  - intros c' [Hs|Hs]%elem_of_app.
    + destruct (H4 c' Hs) as (o & ? & ? & ? & ?). exists o. split_and!; try done. apply elem_of_app. by left.
    + apply list_elem_of_singleton in Hs as ->. exists (keyed c). split_and!; [|done|apply prefers_refl|done].
      apply elem_of_app. right. by apply list_elem_of_singleton.
Qed.

Lemma collapsed_seen at_ out seen c o : collapsed at_ out seen -> o ∈ out ->
  cand_Identity o = cand_Identity (keyed c) -> cand_Identity o <> "" -> prefers o (keyed c) ->
  collapsed at_ out (seen ++ [c]).
Proof.
  intros [H1 H2 H3 H4] Ho E Hn Hp. split; [done|done| |].
  - intros o' Ho'. destruct (H3 o' Ho') as (c' & ? & ->). exists c'. split; [|done]. apply elem_of_app. by left.
  - intros c' [Hs|Hs]%elem_of_app; [by apply H4|]. apply list_elem_of_singleton in Hs as ->. exists o. done.
Qed.

Lemma collapsed_replace at_ out seen c i o : collapsed at_ out seen -> out !! i = Some o ->
  cand_Identity o = cand_Identity (keyed c) -> cand_Identity o <> "" -> prefers (keyed c) o ->
  collapsed at_ (<[i := keyed c]> out) (seen ++ [c]).
Proof.
  intros [H1 H2 H3 H4] Ho E Hn Hp. pose proof (lookup_lt_Some _ _ _ Ho) as Hlt.
  assert (Hnew : <[i := keyed c]> out !! i = Some (keyed c)) by by apply list_lookup_insert_eq.
  split.
  - intros k j Hk. destruct (H1 k j Hk) as (o' & Ho' & E'). destruct (decide (j = i)) as [->|Hj].
    + exists (keyed c). split; [done|]. assert (o' = o) as -> by congruence. congruence.
    + exists o'. split; [|done]. by rewrite list_lookup_insert_ne.
  - intros j o' Ho' Hn'. destruct (decide (j = i)) as [->|Hj].
    + rewrite Hnew in Ho'. injection Ho' as <-. rewrite <- E. by apply H2.
    + rewrite list_lookup_insert_ne in Ho' by done. by apply H2.
  - intros o' Ho'. apply list_elem_of_lookup in Ho' as (j & Ho'). destruct (decide (j = i)) as [->|Hj].
    + rewrite Hnew in Ho'. injection Ho' as <-. exists c. split; [|done]. apply elem_of_app. right. by apply list_elem_of_singleton.
    + rewrite list_lookup_insert_ne in Ho' by done. destruct (H3 o') as (c' & ? & ->); [by eapply list_elem_of_lookup_2|].
      exists c'. split; [|done]. apply elem_of_app. by left.
  - intros c' [Hs|Hs]%elem_of_app.
    + destruct (H4 c' Hs) as (o' & Ho' & E' & Hp' & He'). apply list_elem_of_lookup in Ho' as (j & Ho').
      destruct (decide (j = i)) as [->|Hj].
      * assert (o' = o) as -> by congruence. exists (keyed c). split_and!.
        -- by eapply list_elem_of_lookup_2.
        -- congruence.
        -- by eapply prefers_trans.
        -- intros He. congruence.
      * exists o'. split_and!; try done. eapply list_elem_of_lookup_2. by rewrite list_lookup_insert_ne.
    + apply list_elem_of_singleton in Hs as ->. exists (keyed c). split_and!; [by eapply list_elem_of_lookup_2|done|apply prefers_refl|done].
Qed.

Lemma collapse_ok matched at_ out seen : collapsed at_ out seen ->
  collapsed (foldl (collapse_step key_of) (at_, out) matched).1 (foldl (collapse_step key_of) (at_, out) matched).2
    (seen ++ matched).
Proof.
  revert at_ out seen. induction matched as [|c matched IH]; intros at_ out seen H; [by rewrite app_nil_r|].
  cbn [foldl]. replace (seen ++ c :: matched) with ((seen ++ [c]) ++ matched) by by rewrite <- app_assoc.
  unfold collapse_step at 2 4. fold (keyed c). destruct (String.eqb_spec (cand_Identity (keyed c)) "") as [E|E].
  { apply IH, (collapsed_append at_); auto. }
  destruct (at_ !! cand_Identity (keyed c)) as [i|] eqn:Ea.
  2:{ apply IH, (collapsed_append at_); auto. }
  destruct (co_at _ _ _ H _ _ Ea) as (o & Ho & Eo). rewrite Ho.
  destruct (preferForm (keyed c) o) eqn:Ep; apply IH.
  - eapply collapsed_seen; [done|by eapply list_elem_of_lookup_2|done|congruence|]. apply not_better_prefers. congruence.
  - apply collapsed_replace with o; try done; [congruence|]. unfold prefers. congruence.
  - eapply collapsed_seen; [done|by eapply list_elem_of_lookup_2|done|congruence|]. apply not_better_prefers. congruence.
Qed.

Lemma collapse_spec matched : exists at_, collapsed at_ (collapseIdentities matched (Some key_of)) matched.
Proof.
  eexists. unfold collapseIdentities. apply (collapse_ok matched ∅ [] []). split.
  - intros k i Hk. by rewrite lookup_empty in Hk.
  - intros i o Ho. by rewrite lookup_nil in Ho.
  - intros o Ho. by apply not_elem_of_nil in Ho.
  - intros c Hc. by apply not_elem_of_nil in Hc.
Qed.
End Collapse.

(** ** What discovery hands over *)

Section Found.
Context {disk : Disk} {zstd : Zstd} {json : RecordJson} {wjson : WorkspaceJson} {links : LinkStat} {fs : FileSystem}
  {unicode : GoUnicode} {ds : Doublestar} {tree : Tree} {identity_regexp : IdentityRegexp}.
Variables (src : Resolved) (deny : option (list string)).

(** A file a source may collect, and the candidate it becomes. *)
Definition collectable (root : string) (files : list (string * result string file_info)) (c : Candidate) : Prop :=
  exists path info rel, (path, Ok info) ∈ files /\ path_Rel root path = Some rel /\ included src rel = true /\
    denied_file deny path (path_Join (Root src) rel) = false /\
    (MaxFileBytes (source src) <= 0 \/ fi_Size info <= MaxFileBytes (source src)) /\
    c = candidate_at src (path_Join (Root src) rel) rel info.

Lemma visit_file_out root path info w c : c ∈ w_out (visit_file src deny root path info w) ->
  c ∈ w_out w \/ exists i, info = Ok i /\ collectable root [(path, Ok i)] c.
Proof.
  unfold visit_file. destruct (path_Rel root path) as [rel|] eqn:Er; [|by left].
  destruct (included src rel) eqn:Ei; [|by left]. cbn [negb].
  destruct (denied_file deny path _) eqn:Ed; [by left|]. destruct (ask_ignore _ _ _) as [f b].
  destruct b; [by left|]. destruct info as [i|e]; [|by left].
  destruct (_ && _) eqn:Ec; [by left|]. cbn [w_out]. intros [H|H]%elem_of_app; [by left|]. right.
  apply list_elem_of_singleton in H as ->. exists i. split; [done|]. exists path, i, rel. split_and!; try done.
  - by apply list_elem_of_singleton.
  - apply andb_false_iff in Ec as [Ec|Ec]; boolp; [by left|by right].
Qed.

Lemma collectable_in root files files' c : collectable root files c -> (forall f, f ∈ files -> f ∈ files') -> collectable root files' c.
Proof. intros (path & info & rel & H & Hr) Hi. exists path, info, rel. split; [by apply Hi|done]. Qed.

Lemma visit_all_out root files w c : c ∈ w_out (visit_all src deny root files w) ->
  c ∈ w_out w \/ collectable root files c.
Proof.
  revert w. induction files as [|[path info] files IH]; intros w Hc; [by left|].
  unfold visit_all in Hc. cbn [foldl fst snd] in Hc. apply IH in Hc as [Hc|Hc].
  - apply visit_file_out in Hc as [Hc|(i & -> & Hc)]; [by left|right].
    eapply collectable_in; [exact Hc|]. intros f Hf. apply list_elem_of_singleton in Hf as ->. by left.
  - right. eapply collectable_in; [exact Hc|]. intros f Hf. by right.
Qed.

Lemma older_order a b : in_order older a b <->
  MTime a < MTime b \/ (MTime a = MTime b /\ str_leb (RelPath a) (RelPath b) = true).
Proof.
  unfold in_order, older. rewrite str_ltb_leb. destruct (Z.ltb_spec (MTime b) (MTime a)), (Z.eqb_spec (MTime b) (MTime a)); cbn.
  - lia.
  - split; [done|lia].
  - rewrite negb_false_iff. split; [by right|]. intros [?|[_ ?]]; [lia|done].
  - split; [left; lia|done].
Qed.

Lemma older_sorted l : StronglySorted (in_order older) (SortStable older l).
Proof.
  apply SortStable_sorted.
  - intros a b c. rewrite !older_order. intros [?|[? ?]] [?|[? ?]]; try (left; lia). right. split; [lia|by eapply str_leb_trans].
  - intros a b. unfold older. rewrite !str_ltb_leb. destruct (Z.ltb_spec (MTime a) (MTime b)), (Z.ltb_spec (MTime b) (MTime a)),
      (Z.eqb_spec (MTime a) (MTime b)), (Z.eqb_spec (MTime b) (MTime a)); cbn; try done; try lia.
    intros Hlt%negb_true_iff. apply negb_false_iff. destruct (str_leb_total (RelPath a) (RelPath b)); congruence.
Qed.

(** The identity a source's rule gives a file's path. *)
Definition identity_of (key_of : option (string -> string)) (c : Candidate) : Candidate :=
  match key_of with Some k => keyed k c | None => c end.

Definition one_each (l : list Candidate) : Prop :=
  forall i j a b, l !! i = Some a -> l !! j = Some b -> cand_Identity a <> "" -> cand_Identity a = cand_Identity b -> i = j.

Lemma one_each_perm l l' : l ≡ₚ l' -> one_each l -> one_each l'.
Proof.
  intros Hp H i j a b Ha Hb Hn E. symmetry in Hp. apply Permutation_inj in Hp as (_ & f & Hf & Hl).
  apply Hf. apply (H (f i) (f j) a b); try done; by rewrite <- Hl.
Qed.

Lemma collapse_one_each key_of matched at_ out : collapsed key_of at_ out matched -> one_each out.
Proof.
  intros H i j a b Ha Hb Hn E. pose proof (co_index _ _ _ _ H i a Ha Hn) as Hi.
  pose proof (co_index _ _ _ _ H j b Hb ltac:(congruence)) as Hj. congruence.
Qed.

Lemma discover_collected ignore f d : discoverByGlob src deny ignore = Ok (f, d) ->
  (Root src = "" /\ Candidates d = []) \/
  exists key_of, identity_compile (src_Identity (source src)) = Ok key_of /\
    (Candidates d = [] \/ Candidates d = SortStable older (collapseIdentities (w_out (walkGlobs src deny ignore)) key_of)).
Proof.
  unfold discoverByGlob. destruct (String.eqb_spec (Root src) "") as [Er|_]; [intros [= <- <-]; by left|].
  destruct (identity_compile _) as [key_of|e]; [|done]. intros H. right. exists key_of. split; [done|]. revert H.
  set (matched := collapseIdentities _ _). destruct matched as [|m ms] eqn:Em.
  { destruct (nothing_matched _ _). intros [= <- <-]. by left. }
  destruct (sniffSample _ _) as [[sniffed version] failures]. destruct (condemned sniffed); intros [= <- <-]; [by left|].
  by right.
Qed.

Lemma collapse_from key_of matched o : o ∈ collapseIdentities matched key_of ->
  exists c, c ∈ matched /\ o = identity_of key_of c.
Proof.
  destruct key_of as [k|]; [|by exists o]. destruct (collapse_spec k matched) as [at_ H]. by apply (co_from _ _ _ _ H).
Qed.

Lemma sorted_in o l : o ∈ SortStable older l <-> o ∈ l.
Proof. by rewrite (SortStable_perm older l). Qed.

(** C29: What discovery hands over is collectable and in order. Either the source has no root, and nothing is
    handed over, or with the identity rule the source declares, compiled: every candidate is a regular file of
    the tree below the root, reached through no link, that the source includes and does not exclude, that the
    deny list refuses under neither of its names, within the size cap, and carries the identity the rule gives
    its path; the candidates stand oldest first; under a rule no two of them have one identity; and when files
    are handed over, every file found is represented by a form of its identity that is not older. *)
Theorem discovery_collectable ignore root n f d :
  walk_root src deny = Some root -> clean_abs root -> root <> "/" -> tree_at root = Ok n -> named n ->
  discoverByGlob src deny ignore = Ok (f, d) ->
  (Root src = "" /\ Candidates d = []) \/
  exists key_of, identity_compile (src_Identity (source src)) = Ok key_of /\
  Forall (fun c => exists c0, collectable root (files_of root n) c0 /\ c = identity_of key_of c0) (Candidates d) /\
  StronglySorted (in_order older) (Candidates d) /\
  (is_Some key_of -> one_each (Candidates d)) /\
  (Candidates d <> [] -> forall c0, c0 ∈ w_out (walkGlobs src deny ignore) ->
     exists c, c ∈ Candidates d /\ cand_Identity c = cand_Identity (identity_of key_of c0) /\ prefers c (identity_of key_of c0)).
Proof.
  intros Hw Hc Hr Ht Hn Hd.
  destruct (discover_collected _ _ _ Hd) as [E|(key_of & Hk & E)]; [by left|right]. exists key_of. split; [done|].
  destruct E as [E|E]. { rewrite E. split_and!; [constructor|constructor|by intros _ ? ?|done]. }
  rewrite E. split_and!.
  - rewrite Forall_forall. intros c Hin. rewrite sorted_in in Hin. apply collapse_from in Hin as (c0 & Hin & ->).
    exists c0. split; [|done]. rewrite (walk_found src deny ignore root n Hw Hc Hr Ht Hn) in Hin.
    apply visit_all_out in Hin as [Hin|Hin]; [by apply not_elem_of_nil in Hin|done].
  - apply older_sorted.
  - intros [k ->]. eapply one_each_perm; [symmetry; apply SortStable_perm|].
    destruct (collapse_spec k (w_out (walkGlobs src deny ignore))) as [at_ H]. by eapply collapse_one_each.
  - intros _ c0 Hin. destruct key_of as [k|]; cbn [identity_of].
    + destruct (collapse_spec k (w_out (walkGlobs src deny ignore))) as [at_ H].
      destruct (co_best _ _ _ _ H c0 Hin) as (o & Ho & E' & Hp & _). exists o. rewrite sorted_in. done.
    + exists c0. rewrite sorted_in. split_and!; [done|done|apply prefers_refl].
Qed.
End Found.

(** ** A concrete store *)

Module SampleDiscover.
Definition body : string := "{}".
#[export] Instance disk : Disk := {| OpenFile := fun path =>
  if has_suffix ".zst" path then Err (OsError "no such file") else Ok (mkHandle (Ok (mkInfo 2 5 true "" 384)) body None) |}.
#[export] Instance zstd : Zstd :=
  {| HeaderMaxSize := 17; zstd_NewReader := fun _ => Err "none"; Header_Decode := fun _ => None |}.
#[export] Instance json : RecordJson :=
  {| Unmarshal_record := fun _ => Some ∅; Unmarshal_string := fun _ => None; Unmarshal_copilotVersion := fun _ => None |}.
#[export] Instance wjson : WorkspaceJson := {| Unmarshal_workspace := fun _ => None; Unmarshal_folders := fun _ => None |}.
#[export] Instance links : LinkStat := fun _ => Err NotExist.
#[export] Instance unicode : GoUnicode := {| wide_upper := fun s => s; wide_lower := fun s => s |}.

(** The root is a link out of the home directory. *)
#[export] Instance fs : FileSystem := {|
  Stat := fun _ => None;
  EvalSymlinks := fun p => if (p =? "/home/ann/.claude")%string then Some "/data/claude" else Some p
|}.
#[export] Instance ds : Doublestar := {|
  ds_Match := fun pat p => Some (if (pat =? "**/*.jsonl*")%string then str_contains ".jsonl" p else (pat =? p)%string);
  ds_Glob := fun _ _ => Ok [];
  ds_ValidatePattern := fun _ => true
|}.
#[export] Instance identity_regexp : IdentityRegexp := fun _ => Ok (fun _ rel => Some (trim_suffix ".zst" rel)).

Definition info (size mtime : Z) : result string file_info := Ok (mkInfo size mtime true "" 384).
Definition store : tree_node := DirNode [
  ("link", LinkNode);
  ("private", DirNode [("s.jsonl", FileNode (info 3 1))]);
  ("projects", DirNode [
     ("a.jsonl", FileNode (info 10 5)); ("a.jsonl.zst", FileNode (info 6 7)); ("b.jsonl", FileNode (info 8 6));
     ("big.jsonl", FileNode (info 2000 1)); ("notes.txt", FileNode (info 4 4))]);
  ("shut", UnreadableDir "permission denied")].
#[export] Instance tree : Tree := fun p => if (p =? "/data/claude")%string then Ok store else Err "no such file".

Definition src : Resolved :=
  mkResolved (mkSource "claude" "" None "file_glob" "transcript" [] "" ["**/*.jsonl*"] [] 1000 None ∅ None
                (Some (mkIdentityRule "^(.*)$" "$1")) "" "claude")
    "/home/ann/.claude" "" true "".
Definition deny : option (list string) := Some ["/home/ann/.claude/private/**"; "/data/claude/private/**"].

Example what_is_found :
  match discoverByGlob src deny None with
  | Ok (_, d) => (map (fun c => (Spec.Path c, MTime c)) (Candidates d), map ov_RelPath (disc_Oversize d), disc_Unreadable d)
  | Err _ => ([], [], 0)
  end = ([("/home/ann/.claude/projects/b.jsonl", 6); ("/home/ann/.claude/projects/a.jsonl.zst", 7)], ["projects/big.jsonl"], 1).
Proof. vm_compute. reflexivity. Qed.

Lemma named_store : named store.
Proof. cbn. unfold plain. by repeat split. Qed.

Lemma root_clean : clean_abs "/data/claude".
Proof. right. exists ["data"; "claude"]. split; [done|]. split; [done|]. unfold plain. repeat constructor; done. Qed.

Lemma walk_exact_witness :
  walk_root src deny = Some "/data/claude" /\
  agree (walkGlobs src deny None)
    (visit_all src deny "/data/claude" (files_of "/data/claude" store) (mkFindState [] [] no_unreadable false None)).
Proof.
  split; [reflexivity|]. apply (walk_exact src deny None "/data/claude" store); [reflexivity|exact root_clean|done|reflexivity|exact named_store].
Defined.

Lemma discovery_collectable_witness : exists f d key_of,
  discoverByGlob src deny None = Ok (f, d) /\ length (Candidates d) = 2%nat /\
  identity_compile (src_Identity (source src)) = Ok key_of /\ is_Some key_of /\
  Forall (fun c => exists c0, collectable src deny "/data/claude" (files_of "/data/claude" store) c0 /\
    c = identity_of key_of c0) (Candidates d) /\ StronglySorted (in_order older) (Candidates d) /\ one_each (Candidates d).
Proof.
  destruct (discoverByGlob src deny None) as [[f d]|e] eqn:E; [|vm_compute in E; discriminate E].
  destruct (discovery_collectable src deny None "/data/claude" store f d) as [[Hroot _]|(key_of & Hk & H1 & H2 & H3 & _)];
    [reflexivity|exact root_clean|done|reflexivity|exact named_store|exact E|discriminate Hroot|].
  assert (is_Some key_of) as Hs by (destruct key_of; [by eexists|vm_compute in Hk; discriminate Hk]).
  exists f, d, key_of. split_and!; [reflexivity| |done|done|done|done|by apply H3].
  vm_compute in E; injection E as <- <-; reflexivity.
Defined.
End SampleDiscover.
