(* ===== verification/Sessions.v ===== *)
(** Session databases: [src/internal/sources/sessions.go]. One database of an agent holds many sessions;
    each becomes a candidate with a virtual path, and the path of the database is checked anew at every
    use, on the disk as it is at that moment: when it is found, when its sessions are listed and when one
    is loaded. The SQLite reader, the JSON header of a session and the globs are classes. *)

From S2P Require Import Prelude GoLib Naming GoPath GoJson GoText GoUrl Crypto Vocab Spec Heuristic Spans Deny Manifest SourceFiles RepoFilter Discover.

Record Session := mkSession { s_ID : string; s_CWD : string }.

(** [sqliteread]: listing a database, and the records of one session under a byte bound. *)
Class SessionReader := {
  reader_List : string -> result string (list Session);
  reader_Read : string -> string -> string -> Z -> result string string
}.
(** [json.Unmarshal] of a session's first line: its working directory. *)
Class HeaderJson := Unmarshal_header : string -> option string.

(** [filepath.path_IsLocal] on Unix: relative, not empty, and never above where it starts. *)
Fixpoint stays_local (depth : nat) (segs : list string) : bool :=
  match segs with
  | [] => true
  | seg :: r =>
      if (seg =? "")%string || (seg =? ".")%string then stays_local depth r
      else if (seg =? "..")%string then match depth with O => false | S d => stays_local d r end
      else stays_local (S depth) r
  end.
Definition path_IsLocal (path : string) : bool :=
  negb (IsAbs path) && negb (path =? "")%string && stays_local 0 (split_on "/" path).

Inductive session_error := errSessionPathRejected (why : string) | PathError (e : lstat_error) | SessionError (text : string).

Record sessionDatabase := mkSessionDB { db_Path : string; db_RelPath : string; db_root : string }.

Definition DefaultSessionMaxBytes : Z := 64 * 1024 * 1024.

(** What the disk and the databases on it answer at one moment, and the moments after discovery's walk:
    when the sessions of a database are listed, and when one of them is loaded. *)
Record Snapshot := mkSnapshot { sn_links : LinkStat; sn_fs : FileSystem; sn_reader : SessionReader }.
Class Moments := {
  at_listing : sessionDatabase -> Snapshot;
  at_load : sessionDatabase -> Session -> Snapshot
}.

(** ** The path of a database *)

Section CheckedPath.
Context {links : LinkStat} {fs : FileSystem} {ds : Doublestar}.

(** Down the segments of a relative path: none of them may be a link. *)
Fixpoint walk_parts (path : string) (parts : list string) : result session_error string :=
  match parts with
  | [] => Ok path
  | part :: rest =>
      let path := path_Join path part in
      match Lstat path with
      | Err e => Err (PathError e)
      | Ok LinkEntry => Err (errSessionPathRejected ("symlink at " +:+ path))
      | Ok _ => walk_parts path rest
      end
  end.

Definition checkedPath (deny : option (list string)) (db : sessionDatabase) : result session_error string :=
  match EvalSymlinks (db_root db) with
  | None => Err (PathError (LstatError "root does not resolve"))
  | Some root =>
      if negb (root =? db_root db)%string || negb (path_IsLocal (db_RelPath db))
      then Err (errSessionPathRejected "resolved root changed or path is not local")
      else
        let! path := walk_parts root (split_on "/" (db_RelPath db)) in
        match Lstat path with
        | Err e => Err (PathError e)
        | Ok kind =>
            match kind with
            | RegularEntry =>
                match match deny with Some d => MatchPair d (db_Path db) path | None => None end with
                | Some pattern => Err (errSessionPathRejected ("deny list refuses " +:+ path +:+ " (" +:+ pattern +:+ ")"))
                | None => Ok path
                end
            | _ => Err (errSessionPathRejected "not a regular file")
            end
        end
  end.

End CheckedPath.

(** [checkedPath] at a moment. *)
Definition checkedPath_at {ds : Doublestar} (s : Snapshot) (deny : option (list string)) (db : sessionDatabase)
    : result session_error string :=
  checkedPath (links := sn_links s) (fs := sn_fs s) deny db.

(** ** The databases of a source *)

Section Sessions.
Context {disk : Disk} {zstd : Zstd} {json : RecordJson} {wjson : WorkspaceJson} {links : LinkStat} {fs : FileSystem}
  {unicode : GoUnicode} {ds : Doublestar} {header : HeaderJson} {moments : Moments}.

Definition error_text (e : session_error) : string :=
  match e with
  | errSessionPathRejected why => "session database path rejected: " +:+ why
  | PathError NotExist => "file does not exist"
  | PathError (LstatError t) => t
  | SessionError t => t
  end.

(** The names the include patterns give, each once, in the order found. *)
Definition glob_step (root : string) (st : list string * unreadable) (pattern : string) : list string * unreadable :=
  let '(names, bad) := st in
  match ds_Glob root pattern with
  | Err e => (names, note root e bad)
  | Ok matches => (foldl (fun names name => if bool_decide (name ∈ names) then names else names ++ [name]) names matches, bad)
  end.

Definition db_step (src : Resolved) (deny : option (list string)) (root : string)
    (st : list sessionDatabase * unreadable) (rel : string) : list sessionDatabase * unreadable :=
  let '(out, bad) := st in
  if matchesAny rel (normalizeGlobs (Exclude (source src))) then (out, bad)
  else
    let db := mkSessionDB (path_Join (Root src) rel) rel root in
    match checkedPath deny db with
    | Ok _ => (out ++ [db], bad)
    | Err (errSessionPathRejected _) | Err (PathError NotExist) => (out, bad)
    | Err e => (out, note (db_Path db) (error_text e) bad)
    end.

Definition sessionDatabases (src : Resolved) (deny : option (list string)) : list sessionDatabase * unreadable :=
  match EvalSymlinks (Root src) with
  | None => ([], note (Root src) "root does not resolve" no_unreadable)
  | Some root =>
      match match deny with Some d => MatchPair d (Root src) root | None => None end with
      | Some pattern =>
          ([], note (Root src) ("root resolves to " +:+ root +:+ ", which the deny list refuses (" +:+ pattern +:+ ")") no_unreadable)
      | None =>
          let '(names, bad) := foldl (glob_step root) ([], no_unreadable) (normalizeGlobs (Include (source src))) in
          foldl (db_step src deny root) ([], bad) names
      end
  end.

(** ** discoverSessions *)

(** Loading a session, on the disk of that moment: the database's path is checked again, and the session
    must still state the directory it was listed with. *)
Definition load_session (deny : option (list string)) (maxBytes now : Z) (db : sessionDatabase) (session : Session)
    : result error Payload :=
  let later := at_load db session in
  match checkedPath_at later deny db with
  | Err e => Err (errors_New (error_text e))
  | Ok path =>
      match reader_Read (SessionReader := sn_reader later) path (db_RelPath db) (s_ID session) maxBytes with
      | Err e => Err (errors_New e)
      | Ok raw =>
          if bool_decide (Unmarshal_header (Url.cut_byte "010" raw).1.1 = Some (s_CWD session))
          then Ok (mkPayload raw now "" None)
          else Err (errors_New "session directory changed since discovery")
      end
  end.

Definition session_name (session : Session) : string := sha256_hex (s_ID session) +:+ ".jsonl".
Definition session_candidate (deny : option (list string)) (maxBytes now : Z) (db : sessionDatabase) (session : Session) : Candidate :=
  mkCandidate (s_CWD session) None true (path_Join_all [db_Path db; "sessions"; session_name session])
    (path_Join_all [db_RelPath db; "sessions"; session_name session]) "" "" (load_session deny maxBytes now db session)
    maxBytes now None.

Record found_sessions := mkFound {
  fs_candidates : list Candidate;
  fs_unreadable : Z;
  fs_example : string;
  fs_reason : string;
  fs_ignored : bool;
  fs_filter : option RepoFilter
}.

Definition session_step (src : Resolved) (deny : option (list string)) (maxBytes now : Z) (db : sessionDatabase)
    (w : found_sessions) (session : Session) : found_sessions :=
  let c := session_candidate deny maxBytes now db session in
  let '(f, ignored) := ask_ignore src (fs_filter w) c in
  if ignored then mkFound (fs_candidates w) (fs_unreadable w) (fs_example w) (fs_reason w) true f
  else mkFound (fs_candidates w ++ [c]) (fs_unreadable w) (fs_example w) (fs_reason w) (fs_ignored w) f.

Definition database_step (src : Resolved) (deny : option (list string)) (maxBytes now : Z)
    (w : found_sessions) (db : sessionDatabase) : found_sessions :=
  let later := at_listing db in
  match (match checkedPath_at later deny db with
         | Err e => Err (error_text e)
         | Ok path => reader_List (SessionReader := sn_reader later) path
         end) with
  | Err e => mkFound (fs_candidates w) (fs_unreadable w + 1) (db_Path db) e (fs_ignored w) (fs_filter w)
  | Ok sessions => foldl (session_step src deny maxBytes now db) w sessions
  end.

Definition discoverSessions (src : Resolved) (deny : option (list string)) (ignore : option RepoFilter) (now : Z)
    : option RepoFilter * Discovery :=
  let maxBytes := if MaxFileBytes (source src) <=? 0 then DefaultSessionMaxBytes else MaxFileBytes (source src) in
  if (Root src =? "")%string
  then (ignore, mkDiscovery (Some AgentAbsent) [] 0 "" "" SniffOK "" [] (RootUnresolvedReason src) 0 false)
  else
    let '(dbs, bad) := sessionDatabases src deny in
    let w := foldl (database_step src deny maxBytes now)
               (mkFound [] (count bad) (example bad) (reason bad) false ignore) dbs in
    let '(health, why) :=
      if 0 <? Zlen (fs_candidates w) then (Collected, "")
      else if 0 <? fs_unreadable w then (MatchPresentUnreadable, fs_reason w)
      else if fs_ignored w then (RootPresentNoMatch, ignoredReason)
      else (RootPresentNoMatch, "no sessions found in the configured databases") in
    (fs_filter w, mkDiscovery (Some health) [] (fs_unreadable w) (fs_example w) (fs_reason w) SniffOK ""
       (fs_candidates w) why 0 (fs_ignored w)).
End Sessions.

(** Session databases are only read where the deny list and the file system let them: below the resolved
    root, through no link, as regular files. *)

Section Checked.
Context {links : LinkStat} {fs : FileSystem} {ds : Doublestar}.

(** Every entry from below [path] down to the end of [parts] exists and is no link. *)
Fixpoint no_link_below (path : string) (parts : list string) : Prop :=
  match parts with
  | [] => True
  | part :: rest =>
      (exists kind, Lstat (path_Join path part) = Ok kind /\ kind <> LinkEntry) /\ no_link_below (path_Join path part) rest
  end.

Lemma walk_parts_ok path parts p : walk_parts path parts = Ok p <->
  p = foldl path_Join path parts /\ no_link_below path parts.
Proof.
  revert path. induction parts as [|part rest IH]; intros path; cbn [walk_parts no_link_below foldl].
  { split; [intros [= <-]; done|by intros [-> _]]. }
  destruct (Lstat (path_Join path part)) as [kind|e] eqn:E.
  2:{ split; [done|]. intros [_ [(k & Hk & _) _]]. congruence. }
  destruct kind; try (rewrite IH; split; [intros [-> H]; split; [done|]; split; [by eexists|done]|by intros [-> [_ H]]]).
  split; [done|]. intros [_ [(k & [= <-] & Hk) _]]. done.
Qed.

(** A database's path is the one [checkedPath] gives exactly when all of this holds. *)
Definition confined (deny : option (list string)) (db : sessionDatabase) (path : string) : Prop :=
  EvalSymlinks (db_root db) = Some (db_root db) /\ path_IsLocal (db_RelPath db) = true /\
  path = foldl path_Join (db_root db) (split_on "/" (db_RelPath db)) /\
  no_link_below (db_root db) (split_on "/" (db_RelPath db)) /\ Lstat path = Ok RegularEntry /\
  forall d, deny = Some d -> MatchPair d (db_Path db) path = None.

Lemma checkedPath_ok deny db path : checkedPath deny db = Ok path <-> confined deny db path.
Proof.
  unfold checkedPath, confined. destruct (EvalSymlinks (db_root db)) as [root|]; [|by split; [|intros (? & _)]].
  destruct (String.eqb_spec root (db_root db)) as [->|Hne]; cbn [negb orb].
  2:{ split; [done|]. intros ([= ->] & _). done. }
  destruct (path_IsLocal (db_RelPath db)); cbn [negb]; [|by split; [|intros (_ & ? & _)]].
  destruct (walk_parts (db_root db) _) as [p|e] eqn:Ew; cbn [rbind].
  2:{ split; [done|]. intros (_ & _ & Hp & Hn & _). pose proof (proj2 (walk_parts_ok _ _ _) (conj Hp Hn)). congruence. }
  apply walk_parts_ok in Ew as [-> Hn]. set (p := foldl path_Join _ _).
  destruct (Lstat p) as [[]|e] eqn:El; try (split; [done|]; intros (_ & _ & -> & _ & H & _); fold p in H; congruence).
  destruct deny as [d|].
  - destruct (MatchPair d (db_Path db) p) as [pat|] eqn:Em.
    + split; [done|]. intros (_ & _ & -> & _ & _ & H). fold p in H. specialize (H d eq_refl). congruence.
    + split; [|by intros (_ & _ & -> & _)]. intros [= <-]. split_and!; try done. by intros ? [= <-].
  - split; [|by intros (_ & _ & -> & _)]. by intros [= <-].
Qed.

End Checked.

Definition confined_at {ds : Doublestar} (s : Snapshot) : option (list string) -> sessionDatabase -> string -> Prop :=
  confined (links := sn_links s) (fs := sn_fs s).

Section Safe.
Context {disk : Disk} {zstd : Zstd} {json : RecordJson} {wjson : WorkspaceJson} {links : LinkStat} {fs : FileSystem}
  {unicode : GoUnicode} {ds : Doublestar} {header : HeaderJson} {moments : Moments}.
Variables (src : Resolved) (deny : option (list string)) (now : Z).

(** A database of the source: [root] is what the source's root resolves to and is not denied, [rel] is
    one of the names an include pattern gives below it, and no exclude pattern takes it. *)
Definition declared (root rel : string) : Prop :=
  EvalSymlinks (Root src) = Some root /\
  (forall d, deny = Some d -> MatchPair d (Root src) root = None) /\
  (exists pattern matches, pattern ∈ normalizeGlobs (Include (source src)) /\
    ds_Glob root pattern = Ok matches /\ rel ∈ matches) /\
  matchesAny rel (normalizeGlobs (Exclude (source src))) = false.

Definition database_at (root rel : string) : sessionDatabase := mkSessionDB (path_Join (Root src) rel) rel root.
Definition declared_db (db : sessionDatabase) : Prop :=
  exists root rel, declared root rel /\ db = database_at root rel /\ exists path, confined deny db path.

Lemma names_add names matches x :
  x ∈ foldl (fun (names : list string) name => if bool_decide (name ∈ names) then names else (names ++ [name])%list) names matches ->
  x ∈ names \/ x ∈ matches.
Proof.
  revert names. induction matches as [|m matches IH]; intros names; cbn [foldl]; [by left|].
  intros [H|H]%IH; [|by right; right]. case_bool_decide; [by left|].
  apply elem_of_app in H as [H|H]; [by left|]. apply list_elem_of_singleton in H as ->. right. by left.
Qed.

Lemma glob_fold root patterns all st x : patterns ⊆ all ->
  x ∈ (foldl (glob_step root) st patterns).1 ->
  x ∈ st.1 \/ exists pattern matches, pattern ∈ all /\ ds_Glob root pattern = Ok matches /\ x ∈ matches.
Proof.
  revert st. induction patterns as [|p patterns IH]; intros [names bad] Hin; cbn [foldl fst]; [by left|].
  intros [H|H]%IH; [|by right|by intros y Hy; apply Hin; right]. cbn [glob_step] in H.
  destruct (ds_Glob root p) as [matches|] eqn:E; [|by left]. cbn [fst] in H.
  apply names_add in H as [H|H]; [by left|]. right. exists p, matches. split; [apply Hin; by left|done].
Qed.

Lemma db_fold root names st :
  Forall (fun rel => matchesAny rel (normalizeGlobs (Exclude (source src))) = false -> declared root rel) names ->
  Forall declared_db st.1 -> Forall declared_db (foldl (db_step src deny root) st names).1.
Proof.
  intros Hn. revert st. induction Hn as [|rel names Hr Hn IH]; intros [out bad] Hst; [done|]. cbn [foldl].
  apply IH. cbn [db_step]. destruct (matchesAny rel _) eqn:Ex; [done|].
  destruct (checkedPath deny _) as [p|[]] eqn:Ec; [|done|by case_match|done]. cbn [fst] in *.
  apply Forall_app. split; [done|]. apply Forall_singleton. exists root, rel. split; [by apply Hr|]. split; [done|].
  exists p. by apply checkedPath_ok.
Qed.

Lemma sessionDatabases_declared : Forall declared_db (sessionDatabases src deny).1.
Proof.
  unfold sessionDatabases. destruct (EvalSymlinks (Root src)) as [root|] eqn:Er; [|constructor].
  destruct (match deny with Some d => MatchPair d (Root src) root | None => None end) eqn:Ed; [constructor|].
  destruct (foldl (glob_step root) _ _) as [names bad] eqn:Eg. apply db_fold; [|constructor].
  apply Forall_forall. intros rel Hrel Hex. split; [done|]. split; [by intros d ->|]. split; [|done].
  assert (rel ∈ (names, bad).1) as H by done. rewrite <- Eg in H.
  apply (glob_fold _ _ (normalizeGlobs (Include (source src)))) in H as [H|H]; [by apply not_elem_of_nil in H|done|done].
Qed.

(** A candidate of a session that a confined database of the source lists. *)
Definition of_session (maxBytes : Z) (c : Candidate) : Prop :=
  exists db path sessions session, declared_db db /\ confined_at (at_listing db) deny db path /\
    reader_List (SessionReader := sn_reader (at_listing db)) path = Ok sessions /\ session ∈ sessions /\
    c = session_candidate deny maxBytes now db session.

Lemma sessions_fold maxBytes db sessions all w : declared_db db -> sessions ⊆ all ->
  (exists path, confined_at (at_listing db) deny db path /\
    reader_List (SessionReader := sn_reader (at_listing db)) path = Ok all) ->
  Forall (of_session maxBytes) (fs_candidates w) ->
  Forall (of_session maxBytes) (fs_candidates (foldl (session_step src deny maxBytes now db) w sessions)).
Proof.
  intros Hdb Hin (path & Hp & Hl). revert w. induction sessions as [|s sessions IH]; intros w Hw; [done|]. cbn [foldl].
  apply IH; [intros x Hx; apply Hin; by right|]. unfold session_step. destruct (ask_ignore _ _ _) as [f b].
  destruct b; [done|]. apply Forall_app. split; [done|]. apply Forall_singleton. exists db, path, all, s.
  split_and!; try done. apply Hin. by left.
Qed.

Lemma databases_fold maxBytes dbs w : Forall declared_db dbs -> Forall (of_session maxBytes) (fs_candidates w) ->
  Forall (of_session maxBytes) (fs_candidates (foldl (database_step src deny maxBytes now) w dbs)).
Proof.
  intros Hdbs. revert w. induction Hdbs as [|db dbs Hdb Hdbs IH]; intros w Hw; [done|]. cbn [foldl]. apply IH.
  unfold database_step. destruct (checkedPath_at _ deny db) as [path|e] eqn:E; [|done]. apply checkedPath_ok in E.
  destruct (reader_List path) as [sessions|] eqn:El; [|done].
  by apply (sessions_fold _ _ _ sessions); [|done|exists path|].
Qed.

Lemma load_session_ok maxBytes db session p : load_session deny maxBytes now db session = Ok p ->
  exists path, confined_at (at_load db session) deny db path /\
    reader_Read (SessionReader := sn_reader (at_load db session)) path (db_RelPath db) (s_ID session) maxBytes = Ok (Bytes p) /\
    Unmarshal_header (Url.cut_byte "010" (Bytes p)).1.1 = Some (s_CWD session).
Proof.
  unfold load_session. destruct (checkedPath_at _ deny db) as [path|e] eqn:E; [|done]. apply checkedPath_ok in E.
  destruct (reader_Read _ _ _ _) as [raw|] eqn:Er; [|done]. destruct (bool_decide _) eqn:Eh; [|done].
  apply bool_decide_eq_true in Eh. intros [= <-]. by exists path.
Qed.

(** C31: every session offered belongs to a database the source declares: a name one of its include
    patterns gives and no exclude pattern takes, below what the source's root resolves to, which the
    deny list does not refuse. The path of that database was checked three times, each on the disk as
    it then was: when the name was found, when its sessions were listed and, before any byte of the
    session is read, when it is loaded. Each time the root still resolved to itself and the path lay
    below it, went through no link, was a regular file and was not denied; and what is loaded still
    states the working directory whose repository marker was asked for. *)
Theorem sessions_confined ignore f d : discoverSessions src deny ignore now = (f, d) ->
  Forall (fun c => exists root rel session, declared root rel /\
    let db := database_at root rel in
    (exists path, confined deny db path) /\
    (exists path sessions, confined_at (at_listing db) deny db path /\
      reader_List (SessionReader := sn_reader (at_listing db)) path = Ok sessions /\ session ∈ sessions) /\
    RelPath c = path_Join_all [rel; "sessions"; session_name session] /\ CWD c = s_CWD session /\
    forall p, Load c = Ok p -> exists path, confined_at (at_load db session) deny db path /\
      reader_Read (SessionReader := sn_reader (at_load db session)) path rel (s_ID session) (Size c) = Ok (Bytes p) /\
      Unmarshal_header (Url.cut_byte "010" (Bytes p)).1.1 = Some (CWD c)) (Candidates d).
Proof.
  unfold discoverSessions. destruct (Root src =? "")%string; [by intros [= _ <-]|].
  pose proof sessionDatabases_declared as Hdbs.
  destruct (sessionDatabases src deny) as [dbs bad]. set (maxBytes := if _ <=? 0 then _ else _).
  set (w := foldl _ _ dbs). assert (Hw : Forall (of_session maxBytes) (fs_candidates w)) by by apply databases_fold.
  destruct (if _ <? _ then _ else _) as [health why]. intros [= _ <-]. cbn [Candidates].
  eapply Forall_impl; [exact Hw|].
  intros c (db & path & sessions & session & (root & rel & Hd & -> & H0) & H1 & H2 & H3 & ->).
  exists root, rel, session. split_and!; try done; [by exists path, sessions|].
  intros p Hp. cbn [Load session_candidate] in Hp. by apply load_session_ok in Hp.
Qed.
End Safe.

(** ** A concrete database *)

Module SampleSessions.
#[export] Instance disk : Disk := {| OpenFile := fun _ => Err (OsError "none") |}.
#[export] Instance zstd : Zstd :=
  {| HeaderMaxSize := 17; zstd_NewReader := fun _ => Err "none"; Header_Decode := fun _ => None |}.
#[export] Instance json : RecordJson :=
  {| Unmarshal_record := fun _ => None; Unmarshal_string := fun _ => None; Unmarshal_copilotVersion := fun _ => None |}.
#[export] Instance wjson : WorkspaceJson := {| Unmarshal_workspace := fun _ => None; Unmarshal_folders := fun _ => None |}.
(** [b.db] is a link. *)
#[export] Instance links : LinkStat := fun path =>
  if (path =? "/home/ann/.open/data")%string then Ok DirEntry
  else if (path =? "/home/ann/.open/data/a.db")%string then Ok RegularEntry
  else if (path =? "/home/ann/.open/data/b.db")%string then Ok LinkEntry
  else Err NotExist.
#[export] Instance fs : FileSystem := {| Stat := fun _ => None; EvalSymlinks := Some |}.
#[export] Instance unicode : GoUnicode := {| wide_upper := fun s => s; wide_lower := fun s => s |}.
#[export] Instance ds : Doublestar := {|
  ds_Match := fun pat p => Some (pat =? p)%string;
  ds_Glob := fun _ _ => Ok ["data/a.db"; "data/b.db"; "data/a.db"];
  ds_ValidatePattern := fun _ => true
|}.
Definition reader : SessionReader := {|
  reader_List := fun path => Ok [mkSession "s1" "/home/ann/acme"; mkSession "s2" "/home/ann/other"; mkSession "s3" "/home/ann/acme"];
  reader_Read := fun _ _ id _ => Ok (if (id =? "s2")%string then "/home/ann/moved" else "/home/ann/acme")
|}.
(** Nothing changed until the third session is loaded, when a link stands where the database was. *)
Definition swapped : LinkStat := fun path =>
  if (path =? "/home/ann/.open/data/a.db")%string then Ok LinkEntry else links path.
#[export] Instance moments : Moments := {|
  at_listing := fun _ => mkSnapshot links fs reader;
  at_load := fun _ session => mkSnapshot (if (s_ID session =? "s3")%string then swapped else links) fs reader
|}.
#[export] Instance header : HeaderJson := Some.
Definition src : Resolved :=
  mkResolved (mkSource "opencode-sessions" "" None "sidecar" "transcript" [] "" ["data/*.db"] [] 0 None ∅ None None "opencode_sessions" "opencode")
    "/home/ann/.open" "" true "".

Example one_loads :
  map (fun c => (CWD c, is_ok (Load c))) (Candidates (discoverSessions src (Some []) None 9).2) =
  [("/home/ann/acme", true); ("/home/ann/other", false); ("/home/ann/acme", false)].
Proof. vm_compute. reflexivity. Qed.

Lemma sessions_confined_witness :
  length (Candidates (discoverSessions src (Some []) None 9).2) = 3%nat /\
  Forall (fun c => exists root rel session, declared src (Some []) root rel /\
    let db := database_at src root rel in
    (exists path, confined (Some []) db path) /\
    (exists path sessions, confined_at (at_listing db) (Some []) db path /\
      reader_List (SessionReader := sn_reader (at_listing db)) path = Ok sessions /\ session ∈ sessions) /\
    RelPath c = path_Join_all [rel; "sessions"; session_name session] /\ CWD c = s_CWD session /\
    forall p, Load c = Ok p -> exists path, confined_at (at_load db session) (Some []) db path /\
      reader_Read (SessionReader := sn_reader (at_load db session)) path rel (s_ID session) (Size c) = Ok (Bytes p) /\
      Unmarshal_header (Url.cut_byte "010" (Bytes p)).1.1 = Some (CWD c))
    (Candidates (discoverSessions src (Some []) None 9).2).
Proof.
  split; [vm_compute; reflexivity|].
  apply (sessions_confined src (Some []) 9 None (discoverSessions src (Some []) None 9).1). by destruct (discoverSessions _ _ _ _).
Defined.
End SampleSessions.
