(* ===== verification/Sealing.v ===== *)
(** The container of a mirror object, written and read: [src/internal/transforms/seal.go] and the codec of
    [manifest.go] beside it. The tar layer ([archive/tar], USTAR) is written out; age, zstd and the JSON
    and schema of a manifest are classes. [Container], which sealing is proved against, is implemented
    here. *)

From S2P Require Import Prelude GoLib Crypto GoTime GoJson Vocab StateDoc Naming Spec Manifest Heuristic.

(** ** What reading a stream gives *)

(** The bytes up to the end, or up to the error it ends with. *)
Record reader := mkReader { r_bytes : string; r_err : option string }.

(** [io.ReadFull] of [n] bytes: those, and the stream behind them. *)
Definition read_full (n : Z) (r : reader) : result string (string * reader) :=
  if slen (r_bytes r) <? n then Err (default "unexpected EOF" (r_err r))
  else Ok (str_take (Z.to_nat n) (r_bytes r), mkReader (str_drop (Z.to_nat n) (r_bytes r)) (r_err r)).

(** ** [archive/tar]: USTAR *)

Record tar_Header := mkTarHeader { th_Name : string; th_Size : Z; th_Mode : Z; th_ModTime : Z }.

Definition blockSize : Z := 512.
Definition nul : ascii := "000".
Fixpoint zeros (n : nat) : string := match n with O => "" | S k => String nul (zeros k) end.
Definition blockPadding (size : Z) : Z := (- size) mod blockSize.
Definition pad_to (n : nat) (s : string) : string := s +:+ zeros (n - String.length s).

(** The last [k] octal digits of a number. *)
Fixpoint octal (k : nat) (x : Z) : string :=
  match k with O => "" | S k' => octal k' (x / 8) +:+ String (byte_of (48 + x mod 8)) "" end.
Definition formatOctal (width : nat) (x : Z) : string := octal (pred width) x +:+ String nul "".
Definition fitsInOctal (width : nat) (x : Z) : bool := (0 <=? x) && (x <? 8 ^ (Z.of_nat width - 1)).

(** The fields of a header block by width: name, mode, uid, gid, size, mtime, checksum, type, link name,
    magic, version, user, group, device numbers, prefix and the rest. *)
Definition field_widths : list nat := [100; 8; 8; 8; 12; 12; 8; 1; 100; 6; 2; 32; 32; 8; 8; 155; 12]%nat.
Definition magicUSTAR : string := "ustar" +:+ String nul "".
Definition trailerSTAR : string := "tar" +:+ String nul "".
Definition no_checksum : string := "        ".

Definition sum_bytes (s : string) : Z := Zsum (map byte_code (list_ascii_of_string s)).
Definition signed_byte (c : ascii) : Z := wrap_signed 8 (byte_code c).
Definition sum_signed (s : string) : Z := Zsum (map signed_byte (list_ascii_of_string s)).

(** The fields around the checksum, with no user, no group, no link and no device. *)
Definition header_fields (h : tar_Header) (chksum : string) : list string :=
  [pad_to 100 (th_Name h); formatOctal 8 (th_Mode h); formatOctal 8 0; formatOctal 8 0;
   formatOctal 12 (th_Size h); formatOctal 12 (th_ModTime h); chksum; "0"; zeros 100; magicUSTAR; "00";
   zeros 32; zeros 32; formatOctal 8 0; formatOctal 8 0; zeros 155; zeros 12].
Definition header_block (h : tar_Header) : string :=
  let sum := Zsum (map sum_bytes (header_fields h no_checksum)) in
  String.concat "" (header_fields h (formatOctal 7 sum +:+ " ")).

(** [WriteHeader], [Write] and the padding of one entry. A time before 1970 or from 2242 on does not fit. *)
Definition write_entry (h : tar_Header) (body : string) : result string string :=
  if fitsInOctal 12 (th_Size h) && fitsInOctal 12 (th_ModTime h)
  then Ok (header_block h +:+ body +:+ zeros (Z.to_nat (blockPadding (th_Size h))))
  else Err "archive/tar: cannot encode header: Format specifies USTAR".

Fixpoint split_fields (widths : list nat) (blk : string) : list string :=
  match widths with [] => [] | w :: ws => str_take w blk :: split_fields ws (str_drop w blk) end.

(** [parseString]: up to the first NUL. *)
Fixpoint parseString (s : string) : string :=
  match s with "" => "" | String c r => if (c =? nul)%char then "" else String c (parseString r) end.

Definition octal_pad (c : ascii) : bool := (c =? " ")%char || (c =? nul)%char.
Fixpoint trim_pad_left (s : string) : string :=
  match s with String c r => if octal_pad c then trim_pad_left r else s | "" => "" end.
Definition trim_pad (s : string) : string := str_rev (trim_pad_left (str_rev (trim_pad_left s))).
Fixpoint ParseUint8 (acc : Z) (s : string) : option Z :=
  match s with
  | "" => Some acc
  | String c r =>
      if in_range "0" "7" c then
        let acc := 8 * acc + (byte_code c - 48) in
        if acc <? 2 ^ 64 then ParseUint8 acc r else None
      else None
  end.
Definition parseOctal (field : string) : option Z :=
  let t := trim_pad field in
  if (t =? "")%string then Some 0
  else let digits := parseString t in
       if (digits =? "")%string then None else int64 <$> ParseUint8 0 digits.

(** A number in base 256, which USTAR does not have. *)
Definition base256 (field : string) : bool :=
  match field with String c _ => 128 <=? byte_code c | "" => false end.

Inductive tar_block := PlainEntry (h : tar_Header) | OtherEntry | ErrHeader.

(** [readHeader]: a USTAR block of a regular file with octal numbers is read here. *)
Definition parse_block (blk : string) : tar_block :=
  match split_fields field_widths blk with
  | [name; mode; uid; gid; size; mtime; chksum; typeflag; link; magic; version; uname; gname; major; minor; prefix; rest] =>
      let around := [name; mode; uid; gid; size; mtime; no_checksum; typeflag; link; magic; version; uname; gname;
                     major; minor; prefix; rest] in
      match parseOctal chksum with
      | None => ErrHeader
      | Some v =>
          if negb ((v =? Zsum (map sum_bytes around)) || (v =? Zsum (map sum_signed around))) then ErrHeader
          else if negb (magic =? magicUSTAR)%string || (str_drop 8 rest =? trailerSTAR)%string
                  || negb ((typeflag =? "0")%string || (typeflag =? String nul "")%string)
                  || existsb base256 [mode; uid; gid; size; mtime; major; minor]
          then OtherEntry
          else
            match parseOctal mode, parseOctal uid, parseOctal gid, parseOctal size, parseOctal mtime,
                  parseOctal major, parseOctal minor with
            | Some m, Some _, Some _, Some n, Some t, Some _, Some _ =>
                let name := parseString name in
                let prefix := parseString prefix in
                PlainEntry (mkTarHeader (if (prefix =? "")%string then name else prefix +:+ "/" +:+ name) n m t)
            | _, _, _, _, _, _, _ => ErrHeader
            end
      end
  | _ => ErrHeader
  end.

(** An entry: its header, what reading it gives, and the stream behind it. *)
Record tar_entry := mkEntry { te_header : tar_Header; te_body : reader; te_rest : reader }.

(** What [archive/tar] makes of a block that is not such a file's: the extensions of PAX, GNU and STAR. *)
Class TarExtensions := tar_other : reader -> result string tar_entry.

(** The body of a file of [size] bytes at the head of a stream. *)
Definition file_body (size : Z) (r : reader) : reader :=
  if slen (r_bytes r) <? size then mkReader (r_bytes r) (Some (default "unexpected EOF" (r_err r)))
  else mkReader (str_take (Z.to_nat size) (r_bytes r)) None.
Definition skip_bytes (n : Z) (r : reader) : reader := mkReader (str_drop (Z.to_nat n) (r_bytes r)) (r_err r).

(** [Reader.Next]; two blocks of zeros end the archive. *)
Definition tar_Next `{!TarExtensions} (r : reader) : result string tar_entry :=
  if (r_bytes r =? "")%string then Err (default "EOF" (r_err r))
  else
    let! first := read_full blockSize r in
    let '(blk, rest) := first in
    if (blk =? zeros 512)%string then
      let! second := read_full blockSize rest in
      if (fst second =? zeros 512)%string then Err "EOF" else Err "archive/tar: invalid tar header"
    else
      match parse_block blk with
      | ErrHeader => Err "archive/tar: invalid tar header"
      | OtherEntry => tar_other r
      | PlainEntry h =>
          Ok (mkEntry h (file_body (th_Size h) rest) (skip_bytes (th_Size h + blockPadding (th_Size h)) rest))
      end.

(** ** The layers around the tar file, and the text of a manifest *)

(** [age]: [Encrypt] to recipients given by their key ids, and the writer it gives, closed (its randomness
    is the instance's); [Decrypt] with identities: the plaintext is authenticated in chunks, so it may end
    in an error. [opens] says that an identity is a recipient's, which no code asks. *)
Class Age := {
  age_Encrypt : list string -> result string (string -> result string string);
  age_Decrypt : list string -> reader -> result string reader;
  ParseX25519Recipient : string -> result string string;
  opens : string -> string -> bool
}.

(** The zstd library at level 3, and its decoder under [maxDecompressedBytes] and [maxZstdWindow]. *)
Class ZstdFrames := {
  zstd_Encode : string -> result string string;
  zstd_Decode : reader -> result string reader
}.

(** [json.Marshal] and [json.Unmarshal] of a manifest, and [formats.ValidateRaw] against
    [manifest.schema.json]. [lossless] says that all its text is UTF-8 and its density a float64, which no
    code asks. *)
Class ManifestJson := {
  Marshal_manifest : Manifest -> result string string;
  Unmarshal_manifest : string -> result string Manifest;
  ValidateRaw : string -> option string;
  lossless : Manifest -> Prop
}.

Definition maxManifestBytes : Z := Z.shiftl 4 20.
Definition maxDecompressedBytes : Z := Z.shiftl 8 30.

(** What the schema says of the ids, the path, the size and the recipients of a manifest, whose text is UTF-8. *)
Definition schema_ids (m : Manifest) : Prop :=
  uuid_ok (m_InstallID m) = true /\ identifier_ok (m_SourceID m) = true /\ m_NativePath m <> "" /\ 0 <= PayloadSize m /\
  forall e, m_Encryption m = Some e -> Scheme e = "age" /\ Forall (fun r => valid_utf8 r = true) (RecipientKeyIDs e).

(** What the libraries are relied on for: each decoder undoes its encoder; a manifest the schema accepts has
    ids of the schema's form; what was decoded is lossless, and filling in what sealing fills in keeps it. *)
Class SealLaws {age : Age} {frames : ZstdFrames} {mjson : ManifestJson} : Prop := {
  age_opens recipients writer plain sealed ids :
    age_Encrypt recipients = Ok writer -> writer plain = Ok sealed -> existsb (fun i => existsb (opens i) recipients) ids = true ->
    age_Decrypt ids (mkReader sealed None) = Ok (mkReader plain None);
  zstd_decodes body encoded :
    zstd_Encode body = Ok encoded -> zstd_Decode (mkReader encoded None) = Ok (mkReader body None);
  manifest_decodes m raw : lossless m -> Marshal_manifest m = Ok raw -> Unmarshal_manifest raw = Ok m;
  decoded_lossless raw m : ValidateRaw raw = None -> Unmarshal_manifest raw = Ok m -> lossless m;
  sealed_lossless m hash size enc :
    lossless m -> sha256_ok hash = true -> valid_utf8 (Scheme enc) = true ->
    Forall (fun r => valid_utf8 r = true) (RecipientKeyIDs enc) -> 0 <= size < 2 ^ 63 -> lossless (set_sealed hash size enc m);
  schema_accepts raw m : ValidateRaw raw = None -> Unmarshal_manifest raw = Ok m -> schema_ids m
}.

(** ** manifest.go: [Encode] and [DecodeManifest] *)

Definition set_version (v : Z) (m : Manifest) : Manifest :=
  mkManifest v (m_OrganizationID m) (m_InstallID m) (m_SourceID m)
    (SourceFamily m) (m_NativePath m) (m_Gather m) (m_ArtifactClass m) (m_SourceHash m) (ShippedHash m) (PayloadSize m)
    (PayloadMTime m) (m_AgentVersion m) (ShapeSniff m) (m_Repository m) (Redaction m) (m_Encryption m)
    (m_Client m) (m_ConfigVersion m) (m_ConfigExpired m) (SealedAt m) (m_RunID m) (Derived m)
    (m_Enricher m) (DerivedFrom m) (EnrichStatus m) (EnrichMismatches m) (m_DBProvenance m)
    (EnrichRepeats m) (EnrichTail m) (EnrichAmbiguous m) (EnrichLineDecodeErrors m).

Definition text_error {A} (prefix : string) (r : result string A) : result error A :=
  match r with Ok a => Ok a | Err e => Err (errors_New (prefix +:+ e)) end.

Definition validateManifestBytes `{!ManifestJson} (raw : string) : result error () :=
  match ValidateRaw raw with
  | None => Ok ()
  | Some e => Err (errors_New ("seal: manifest does not satisfy its schema: " +:+ e))
  end.

Definition Manifest_Encode `{!ManifestJson} (m : Manifest) : result error string :=
  let m := if m_ManifestVersion m =? 0 then set_version ManifestVersion m else m in
  let! raw := text_error "seal: encode manifest: " (Marshal_manifest m) in
  let! _ := validateManifestBytes raw in
  Ok raw.

Definition DecodeManifest `{!ManifestJson} (raw : string) : result error Manifest :=
  let! _ := validateManifestBytes raw in
  let! m := text_error "seal: decode manifest: " (Unmarshal_manifest raw) in
  if negb (m_ManifestVersion m =? ManifestVersion)
  then Err (errors_New ("seal: manifest_version " +:+ int_text (m_ManifestVersion m) +:+ ", this client speaks " +:+
                        int_text ManifestVersion))
  else Ok m.

(** ** seal.go: writing *)

Definition ManifestEntry : string := "manifest.json".
Definition PayloadEntry : string := "payload".

(** The Unix seconds a header holds; the zero time is written as 0. *)
Definition tar_seconds (t : Z) : Z := if t / second =? 0 then 0 else t / second - 62135596800.
Definition entry_header (name body : string) (mtime : Z) : tar_Header :=
  mkTarHeader name (slen body) 384 mtime.

Definition writeTar (manifestJSON payload : string) (payloadMTime : option Z) : result error string :=
  let mtime := match payloadMTime with Some t => tar_seconds t | None => 0 end in
  let! first := text_error ("seal: tar header " +:+ ManifestEntry +:+ ": ")
                  (write_entry (entry_header ManifestEntry manifestJSON 0) manifestJSON) in
  let! second_ := text_error ("seal: tar header " +:+ PayloadEntry +:+ ": ")
                  (write_entry (entry_header PayloadEntry payload mtime) payload) in
  Ok (first +:+ second_ +:+ zeros 512 +:+ zeros 512).

Definition container_layers `{!Age, !ZstdFrames} (manifestJSON payload : string) (payloadMTime : option Z)
    (recipients : list string) : result error string :=
  let! ageWriter := text_error "seal: age encrypt: " (age_Encrypt recipients) in
  let! tar := writeTar manifestJSON payload payloadMTime in
  let! packed := text_error "seal: zstd close: " (zstd_Encode tar) in
  text_error "seal: age close: " (ageWriter packed).

#[export] Instance SealedContainer `{!Age, !ZstdFrames, !ManifestJson} : Container := {|
  Encode := Manifest_Encode;
  writeContainer := container_layers
|}.

(** ** seal.go: reading *)

Section Opening.
Context {age : Age} {frames : ZstdFrames} {mjson : ManifestJson} {tar_ext : TarExtensions}.

Definition tarReader (r : reader) (identities : list string) : result error reader :=
  if Zlen identities =? 0 then Err (errors_New "seal: no age identity supplied")
  else
    let! dec := text_error "age decrypt: " (age_Decrypt identities r) in
    text_error "zstd reader: " (zstd_Decode dec).

(** [io.ReadAll] of the body of an entry. *)
Definition read_body (r : reader) : result string string :=
  match r_err r with Some e => Err e | None => Ok (r_bytes r) end.

Definition readManifestEntry (tr : reader) : result error (Manifest * reader) :=
  let! ent := text_error "read first tar entry: " (tar_Next tr) in
  let hdr := te_header ent in
  if negb (th_Name hdr =? ManifestEntry)%string
  then Err (errors_New ("first entry is " +:+ quote (th_Name hdr) +:+ ", want " +:+ quote ManifestEntry +:+
                        ": manifest-first is the container contract"))
  else if maxManifestBytes <? th_Size hdr
  then Err (errors_New ("manifest claims " +:+ int_text (th_Size hdr) +:+ " bytes, over the " +:+
                        int_text maxManifestBytes +:+ " limit"))
  else
    let! raw := text_error "read manifest entry: " (read_body (te_body ent)) in
    if slen raw <? th_Size hdr
    then Err (errors_New ("manifest entry truncated: " +:+ int_text (slen raw) +:+ " of " +:+ int_text (th_Size hdr) +:+ " bytes"))
    else let! m := DecodeManifest raw in Ok (m, te_rest ent).

Definition ReadManifest (r : reader) (identities : list string) : result error Manifest :=
  let! tr := tarReader r identities in
  let! read := readManifestEntry tr in
  Ok (fst read).

(** What [OpenTo] has written to [w] when it fails is discarded by every caller; here it is dropped. *)
Definition OpenTo (r : reader) (identities : list string) : result error (Manifest * string) :=
  let! tr := tarReader r identities in
  let! read := readManifestEntry tr in
  let '(m, tr) := read in
  let! ent := text_error "seal: no payload entry: " (tar_Next tr) in
  let hdr := te_header ent in
  if negb (th_Name hdr =? PayloadEntry)%string
  then Err (errors_New ("seal: second entry is " +:+ quote (th_Name hdr) +:+ ", want " +:+ quote PayloadEntry))
  else if negb (th_Size hdr =? PayloadSize m) || (maxDecompressedBytes <? th_Size hdr)
  then Err (errors_New ("seal: payload entry is " +:+ int_text (th_Size hdr) +:+ " bytes, manifest payload_size " +:+
                        int_text (PayloadSize m) +:+ ", limit " +:+ int_text maxDecompressedBytes))
  else
    let! payload := text_error "seal: read payload: " (read_body (te_body ent)) in
    let got := sha256_hex payload in
    if negb (got =? ShippedHash m)%string
    then Err (errors_New ("seal: payload hash " +:+ got +:+ " does not match manifest shipped_hash " +:+ ShippedHash m))
    else Ok (m, payload).

Definition Open (object : string) (identities : list string) : result error (Manifest * string) :=
  OpenTo (mkReader object None) identities.
End Opening.

(** ** The tar layer read back *)

Lemma concat_cons a l : String.concat "" (a :: l) = a +:+ String.concat "" l.
Proof. destruct l; simpl; [by rewrite string_app_nil_r|done]. Qed.

Lemma length_app_str a b : String.length (a +:+ b) = (String.length a + String.length b)%nat.
Proof. pose proof (slen_app a b). unfold slen in *. lia. Qed.

Lemma take_app_exact n a b : String.length a = n -> str_take n (a +:+ b) = a.
Proof. intros <-. induction a as [|c a IH]; simpl; [by destruct b|by rewrite IH]. Qed.

Lemma drop_app_exact n a b : String.length a = n -> str_drop n (a +:+ b) = b.
Proof. intros <-. apply str_drop_app. Qed.

Lemma split_fields_concat l :
  split_fields (map String.length l) (String.concat "" l) = l.
Proof.
  induction l as [|a l IH]; [done|]. rewrite concat_cons. cbn [map split_fields].
  by rewrite take_app_exact, drop_app_exact, IH.
Qed.

Lemma zeros_length n : String.length (zeros n) = n.
Proof. induction n; simpl; congruence. Qed.

Lemma octal_length k x : String.length (octal k x) = k.
Proof. revert x. induction k as [|k IH]; intros x; [done|]. cbn [octal]. rewrite length_app_str, IH. simpl. lia. Qed.

Lemma formatOctal_length w x : (0 < w)%nat -> String.length (formatOctal w x) = w.
Proof. intros. unfold formatOctal. rewrite length_app_str, octal_length. simpl. lia. Qed.

Lemma pad_to_length n s : (String.length s <= n)%nat -> String.length (pad_to n s) = n.
Proof. intros. unfold pad_to. rewrite length_app_str, zeros_length. lia. Qed.

(** Octal digits read back as the number they are. *)
Lemma octal_digit x : in_range "0" "7" (byte_of (48 + x mod 8)) = true /\ byte_code (byte_of (48 + x mod 8)) = 48 + x mod 8.
Proof.
  pose proof (Z.mod_pos_bound x 8 ltac:(lia)). rewrite byte_code_of by lia. split; [|done].
  assert (x mod 8 = 0 \/ x mod 8 = 1 \/ x mod 8 = 2 \/ x mod 8 = 3 \/ x mod 8 = 4 \/ x mod 8 = 5 \/ x mod 8 = 6 \/ x mod 8 = 7)
    as Hx by lia.
  by destruct Hx as [->|[->|[->|[->|[->|[->|[->| ->]]]]]]].
Qed.

Lemma octal_digits k x : str_forallb (in_range "0" "7") (octal k x) = true.
Proof.
  revert x. induction k as [|k IH]; intros x; [done|]. cbn [octal]. rewrite str_forallb_app, IH. simpl.
  by rewrite (proj1 (octal_digit x)).
Qed.

Lemma ParseUint8_app acc a b : ParseUint8 acc (a +:+ b) = ParseUint8 acc a ≫= fun v => ParseUint8 v b.
Proof.
  revert acc. induction a as [|c a IH]; intros acc; [done|]. simpl. destruct (in_range _ _ c); [|done].
  destruct (_ <? _); [apply IH|done].
Qed.

Lemma ParseUint8_octal k x : (k <= 21)%nat -> 0 <= x < 8 ^ Z.of_nat k -> ParseUint8 0 (octal k x) = Some x.
Proof.
  revert x. induction k as [|k IH]; intros x Hk Hx.
  { simpl. f_equal. change (8 ^ Z.of_nat 0) with 1 in Hx. lia. }
  cbn [octal]. rewrite Nat2Z.inj_succ, Z.pow_succ_r in Hx by lia.
  rewrite ParseUint8_app, IH by first [lia | split; [apply Z.div_pos; lia|apply Z.div_lt_upper_bound; lia]].
  cbn. destruct (octal_digit x) as [-> ->].
  replace (8 * (x / 8) + (48 + x mod 8 - 48)) with x by (pose proof (Z.div_mod x 8 ltac:(lia)); lia).
  assert (8 * 8 ^ Z.of_nat k <= 2 ^ 64).
  { rewrite <- Z.pow_succ_r by lia. change 8 with (2 ^ 3). rewrite <- Z.pow_mul_r by lia. apply Z.pow_le_mono_r; lia. }
  rewrite (proj2 (Z.ltb_lt _ _)) by lia. done.
Qed.

Lemma digit_not_pad c : in_range "0" "7" c = true -> octal_pad c = false /\ (c =? nul)%char = false.
Proof. destruct c as [[] [] [] [] [] [] [] []]; intros; split; done. Qed.

Lemma trim_pad_left_digits s r : str_forallb (in_range "0" "7") s = true -> s <> "" -> trim_pad_left (s +:+ r) = s +:+ r.
Proof. destruct s as [|c s]; simpl; [done|]. intros [Hc _]%andb_true_iff _. by rewrite (proj1 (digit_not_pad c Hc)). Qed.

Lemma trim_pad_left_pads s r : str_forallb octal_pad s = true -> trim_pad_left (s +:+ r) = trim_pad_left r.
Proof. induction s as [|c s IH]; simpl; [done|]. intros [-> Hs]%andb_true_iff. by apply IH. Qed.

Lemma str_forallb_rev f s : str_forallb f (str_rev s) = str_forallb f s.
Proof.
  induction s as [|c s IH]; [done|]. rewrite str_rev_cons, str_forallb_app, IH. simpl. rewrite andb_true_r. apply andb_comm.
Qed.

Lemma parseString_digits s : str_forallb (in_range "0" "7") s = true -> parseString s = s.
Proof.
  induction s as [|c s IH]; simpl; [done|]. intros [Hc Hs]%andb_true_iff.
  by rewrite (proj2 (digit_not_pad c Hc)), IH.
Qed.

Lemma str_rev_nil s : str_rev s = "" -> s = "".
Proof. intros H. rewrite <- (str_rev_involutive s), H. done. Qed.

Lemma parseOctal_octal k x pad :
  (0 < k <= 20)%nat -> str_forallb octal_pad pad = true -> 0 <= x < 8 ^ Z.of_nat k ->
  parseOctal (octal k x +:+ pad) = Some x.
Proof.
  intros Hk Hpad Hx. pose proof (octal_digits k x) as Hd.
  assert (octal k x <> "") as Hne. { intros E. pose proof (octal_length k x) as Hl. rewrite E in Hl. simpl in Hl. lia. }
  assert (trim_pad (octal k x +:+ pad) = octal k x) as Ht.
  { unfold trim_pad. rewrite trim_pad_left_digits by done. rewrite str_rev_append, trim_pad_left_pads by by rewrite str_forallb_rev.
    rewrite <- (string_app_nil_r (str_rev (octal k x))), trim_pad_left_digits.
    - by rewrite string_app_nil_r, str_rev_involutive.
    - by rewrite str_forallb_rev.
    - intros E. by apply Hne, str_rev_nil. }
  unfold parseOctal. rewrite Ht, parseString_digits by done. apply String.eqb_neq in Hne. rewrite Hne.
  rewrite ParseUint8_octal by lia. simpl. f_equal. apply int64_id.
  assert (8 ^ Z.of_nat k <= 8 ^ 20) by (apply Z.pow_le_mono_r; lia).
  change (8 ^ 20) with (2 ^ 60) in *. lia.
Qed.

Lemma parseOctal_format w x : (1 < w <= 21)%nat -> fitsInOctal w x = true -> parseOctal (formatOctal w x) = Some x.
Proof.
  unfold fitsInOctal. intros Hw [H0 H1]%andb_true_iff. apply Z.leb_le in H0. apply Z.ltb_lt in H1.
  apply parseOctal_octal; [lia|done|]. replace (Z.of_nat (pred w)) with (Z.of_nat w - 1) by lia. lia.
Qed.

Lemma sum_bytes_cons c s : sum_bytes (String c s) = byte_code c + sum_bytes s.
Proof. done. Qed.

Lemma sum_bytes_bound s : 0 <= sum_bytes s <= 255 * slen s.
Proof.
  induction s as [|c s IH]; [unfold sum_bytes, slen; simpl; lia|]. rewrite sum_bytes_cons.
  pose proof (byte_code_range c). unfold slen in *. cbn [String.length]. lia.
Qed.

Lemma sum_fields_bound l : 0 <= Zsum (map sum_bytes l) <= 255 * Zsum (map slen l).
Proof. induction l as [|s l IH]; simpl; [lia|]. pose proof (sum_bytes_bound s). lia. Qed.

Definition no_nul (s : string) : bool := str_forallb (fun c => negb (c =? nul)%char) s.
Definition header_ok (h : tar_Header) : Prop :=
  no_nul (th_Name h) = true /\ (0 < String.length (th_Name h) <= 100)%nat /\
  fitsInOctal 8 (th_Mode h) = true /\ fitsInOctal 12 (th_Size h) = true /\ fitsInOctal 12 (th_ModTime h) = true.

Lemma header_widths h chk : (String.length (th_Name h) <= 100)%nat -> String.length chk = 8%nat ->
  map String.length (header_fields h chk) = field_widths.
Proof.
  intros Hn Hc. unfold header_fields. cbn [map].
  rewrite pad_to_length, Hc, !formatOctal_length, !zeros_length by lia. done.
Qed.

Lemma parseString_pad n s : no_nul s = true -> (String.length s < n)%nat -> parseString (pad_to n s) = s.
Proof.
  unfold pad_to. intros Hs Hl. destruct (n - String.length s)%nat as [|k] eqn:E; [lia|]. clear E Hl.
  induction s as [|c s IH]; [done|]. cbn in Hs. apply andb_true_iff in Hs as [Hc Hs%IH].
  apply negb_true_iff in Hc. cbn [String.append parseString]. by rewrite Hc, Hs.
Qed.

Lemma parseString_full s : no_nul s = true -> parseString s = s.
Proof.
  induction s as [|c s IH]; [done|]. cbn. intros [Hc Hs]%andb_true_iff. apply negb_true_iff in Hc. by rewrite Hc, IH.
Qed.

Lemma parse_name s : no_nul s = true -> (String.length s <= 100)%nat -> parseString (pad_to 100 s) = s.
Proof.
  intros Hs Hl. destruct (decide (String.length s = 100)%nat) as [E|]; [|apply parseString_pad; [done|lia]].
  unfold pad_to. rewrite E. simpl zeros. rewrite string_app_nil_r. by apply parseString_full.
Qed.

Lemma base256_octal w x : base256 (formatOctal (S w) x) = false.
Proof.
  unfold formatOctal. simpl. pose proof (octal_digits w x) as Hd.
  destruct (octal w x) as [|c s]; [done|]. simpl in *. apply andb_true_iff in Hd as [Hc _].
  revert Hc. by destruct c as [[] [] [] [] [] [] [] []].
Qed.

Lemma header_block_fields h :
  (String.length (th_Name h) <= 100)%nat ->
  exists sum, sum = Zsum (map sum_bytes (header_fields h no_checksum)) /\
    parseOctal (formatOctal 7 sum +:+ " ") = Some sum /\
    split_fields field_widths (header_block h) = header_fields h (formatOctal 7 sum +:+ " ").
Proof.
  intros Hn. eexists. split; [done|]. set (sum := Zsum _). assert (0 <= sum < 8 ^ 6).
  { pose proof (sum_fields_bound (header_fields h no_checksum)) as Hb. fold sum in Hb.
    enough (Zsum (map slen (header_fields h no_checksum)) = 512) as E by (rewrite E in Hb; lia).
    change slen with (fun s => Z.of_nat (String.length s)). rewrite <- (map_map String.length Z.of_nat).
    rewrite header_widths; [done|done|done]. }
  split.
  - unfold formatOctal. rewrite string_app_assoc. apply parseOctal_octal; [lia|done|]. simpl. lia.
  - rewrite <- (header_widths h (formatOctal 7 sum +:+ " ")); [apply split_fields_concat|done|].
    rewrite length_app_str, formatOctal_length; [done|lia].
Qed.

Lemma parse_header_block h : header_ok h -> parse_block (header_block h) = PlainEntry h.
Proof.
  intros (Hnul & Hn & Hmode & Hsize & Htime). destruct (header_block_fields h ltac:(lia)) as (sum & Hsum & Hchk & Hsplit).
  unfold parse_block. rewrite Hsplit. unfold header_fields at 1. rewrite Hchk.
  change ([pad_to 100 (th_Name h); formatOctal 8 (th_Mode h); formatOctal 8 0; formatOctal 8 0;
   formatOctal 12 (th_Size h); formatOctal 12 (th_ModTime h); no_checksum; "0"; zeros 100; magicUSTAR; "00";
   zeros 32; zeros 32; formatOctal 8 0; formatOctal 8 0; zeros 155; zeros 12]) with (header_fields h no_checksum).
  rewrite <- Hsum, Z.eqb_refl. cbn [orb negb].
  change (negb (magicUSTAR =? magicUSTAR)%string || (str_drop 8 (zeros 12) =? trailerSTAR)%string
     || negb (("0" =? "0")%string || ("0" =? String nul "")%string)) with false. cbn [orb].
  cbn [existsb]. rewrite !base256_octal. cbn [orb].
  rewrite !parseOctal_format by first [lia|done]. rewrite parse_name by first [done|lia].
  destruct h as [name size mode mtime]; simpl in *. by destruct name.
Qed.

Lemma header_block_length h : (String.length (th_Name h) <= 100)%nat -> slen (header_block h) = 512.
Proof.
  intros Hn. unfold header_block. set (chk := _ +:+ " ").
  assert (map String.length (header_fields h chk) = field_widths) as Hw.
  { apply header_widths; [done|]. unfold chk. rewrite length_app_str, formatOctal_length; [done|lia]. }
  assert (forall l, slen (String.concat "" l) = Zsum (map (fun s => Z.of_nat (String.length s)) l)) as Hc.
  { induction l as [|a l IH]; [done|]. rewrite concat_cons, slen_app, IH. done. }
  rewrite Hc, <- (map_map String.length Z.of_nat), Hw. done.
Qed.

Lemma header_block_head h : (0 < String.length (th_Name h))%nat -> no_nul (th_Name h) = true ->
  (header_block h =? zeros 512)%string = false.
Proof.
  intros Hn Hnul. unfold header_block, header_fields. rewrite concat_cons. unfold pad_to.
  destruct (th_Name h) as [|c s]; [simpl in Hn; lia|]. cbn in Hnul. apply andb_true_iff in Hnul as [Hc _].
  apply negb_true_iff in Hc. cbn [String.append zeros String.eqb]. by rewrite Hc.
Qed.

Section Reading.
Context {tar_ext : TarExtensions}.

(** An entry that was written is the next one read, whatever follows it. *)
Lemma tar_Next_entry h body s rest err :
  header_ok h -> th_Size h = slen body -> write_entry h body = Ok s ->
  tar_Next (mkReader (s +:+ rest) err) = Ok (mkEntry h (mkReader body None) (mkReader rest err)).
Proof.
  intros Hok Hs Hw. pose proof Hok as (Hnul & Hn & Hmode & Hsize & Htime).
  unfold write_entry in Hw. rewrite Hsize, Htime in Hw. injection Hw as <-.
  pose proof (header_block_length h ltac:(lia)) as Hlen.
  unfold tar_Next. cbn [r_bytes r_err]. rewrite !string_app_assoc.
  destruct ((header_block h +:+ _) =? "")%string eqn:E.
  { apply String.eqb_eq in E. apply (f_equal slen) in E. rewrite slen_app in E. change (slen "") with 0 in E.
    pose proof (slen_nonneg (body +:+ zeros (Z.to_nat (blockPadding (th_Size h))) +:+ rest)). lia. }
  unfold read_full. cbn [r_bytes r_err].
  assert (String.length (header_block h) = Z.to_nat blockSize) as Hl by (unfold slen in Hlen; change (Z.to_nat blockSize) with 512%nat; lia).
  rewrite slen_app, Hlen. rewrite (proj2 (Z.ltb_ge _ _))
    by (pose proof (slen_nonneg (body +:+ zeros (Z.to_nat (blockPadding (th_Size h))) +:+ rest)); change blockSize with 512; lia).
  rewrite take_app_exact, drop_app_exact by done. cbn [rbind]. rewrite header_block_head, parse_header_block by first [done|lia].
  f_equal. f_equal.
  - unfold file_body. cbn [r_bytes r_err]. rewrite slen_app, Hs, (proj2 (Z.ltb_ge _ _))
      by (pose proof (slen_nonneg (zeros (Z.to_nat (blockPadding (slen body))) +:+ rest)); lia).
    rewrite take_app_exact; [done|]. unfold slen. lia.
  - unfold skip_bytes. cbn [r_bytes r_err]. f_equal. rewrite <- string_app_assoc, drop_app_exact; [done|].
    rewrite length_app_str, zeros_length, Hs. pose proof (Z.mod_pos_bound (- slen body) 512 ltac:(lia)).
    unfold slen, blockPadding, blockSize in *. lia.
Qed.
End Reading.

(** ** What is sealed is what is opened *)

Section RoundTrip.
Context {age : Age} {frames : ZstdFrames} {mjson : ManifestJson} {tar_ext : TarExtensions} {laws : SealLaws}.

Definition encoded (m : Manifest) : Manifest :=
  if m_ManifestVersion m =? 0 then set_version ManifestVersion m else m.

Lemma text_error_Ok {A} p (r : result string A) a : text_error p r = Ok a -> r = Ok a.
Proof. by destruct r; intros [= ->]. Qed.

Lemma Encode_Decode m raw :
  lossless (encoded m) -> m_ManifestVersion (encoded m) = ManifestVersion ->
  Manifest_Encode m = Ok raw -> DecodeManifest raw = Ok (encoded m).
Proof.
  intros Hl Hv He. unfold Manifest_Encode in He. fold (encoded m) in He.
  destruct (Marshal_manifest _) as [r|] eqn:Em; [|done]. cbn in He.
  destruct (validateManifestBytes r) as [[]|] eqn:Ev; [|done]. injection He as <-.
  unfold DecodeManifest. rewrite Ev. cbn. rewrite (manifest_decodes _ _ Hl Em). cbn. by rewrite Hv.
Qed.

Lemma writeTar_reads json payload mtime tar err :
  writeTar json payload mtime = Ok tar ->
  exists rest1 rest2 t,
    tar_Next (mkReader tar err) = Ok (mkEntry (entry_header ManifestEntry json 0) (mkReader json None) (mkReader rest1 err)) /\
    tar_Next (mkReader rest1 err) = Ok (mkEntry (entry_header PayloadEntry payload t) (mkReader payload None) (mkReader rest2 err)) /\
    slen payload < 8 ^ 11.
Proof.
  unfold writeTar. set (t := match mtime with Some _ => _ | None => _ end).
  destruct (write_entry (entry_header ManifestEntry json 0) json) as [s1|] eqn:E1; [|done].
  destruct (write_entry (entry_header PayloadEntry payload t) payload) as [s2|] eqn:E2; [|done].
  cbn. intros [= <-]. eexists _, _, t.
  assert (forall h body s, write_entry h body = Ok s -> fitsInOctal 12 (th_Size h) = true /\ fitsInOctal 12 (th_ModTime h) = true) as Hfit.
  { intros h body s. unfold write_entry. destruct (_ && _) eqn:E; [|done]. by apply andb_true_iff in E. }
  pose proof (Hfit _ _ _ E1) as [F1 F1']. pose proof (Hfit _ _ _ E2) as [F2 F2'].
  split_and!; [eapply tar_Next_entry; [|done|exact E1]|eapply tar_Next_entry; [|done|exact E2]|].
  - split_and!; try done; simpl; lia.
  - split_and!; try done; simpl; lia.
  - unfold fitsInOctal in F2. cbn in F2. boolp. lia.
Qed.

Lemma writer_opens json payload mtime recipients ids o m :
  writeContainer json payload mtime recipients = Ok o ->
  existsb (fun i => existsb (opens i) recipients) ids = true ->
  slen json <= maxManifestBytes -> DecodeManifest json = Ok m ->
  PayloadSize m = slen payload -> ShippedHash m = sha256_hex payload ->
  Open o ids = Ok (m, payload) /\ ReadManifest (mkReader o None) ids = Ok m.
Proof.
  intros Hw Hids Hmax Hm Hsize Hhash. cbn in Hw. unfold container_layers in Hw.
  destruct (age_Encrypt recipients) as [w|] eqn:Ea; [|done]. cbn in Hw.
  destruct (writeTar json payload mtime) as [tar|] eqn:Et; [|done]. cbn in Hw.
  destruct (zstd_Encode tar) as [z|] eqn:Ez; [|done]. cbn in Hw. apply text_error_Ok in Hw.
  destruct (writeTar_reads json payload mtime tar None Et) as (r1 & r2 & t & N1 & N2 & Hbound).
  assert (tarReader (mkReader o None) ids = Ok (mkReader tar None)) as Htar.
  { unfold tarReader. destruct ids as [|i ids]; [done|].
    rewrite (proj2 (Z.eqb_neq _ _)) by (rewrite Zlen_cons; pose proof (Zlen_nonneg ids); lia).
    rewrite (age_opens recipients w z o _ Ea Hw Hids). cbn. by rewrite (zstd_decodes _ _ Ez). }
  assert (readManifestEntry (mkReader tar None) = Ok (m, mkReader r1 None)) as Hman.
  { unfold readManifestEntry. rewrite N1. cbn. rewrite (proj2 (Z.ltb_ge _ _)) by done. cbn.
    by rewrite Z.ltb_irrefl, Hm. }
  split.
  - unfold Open, OpenTo. rewrite Htar. cbn. rewrite Hman. cbn. rewrite N2. cbn. rewrite Hsize, Z.eqb_refl, Hhash.
    rewrite (proj2 (Z.ltb_ge _ _)) by (change maxDecompressedBytes with (8 ^ 11); lia). cbn. by rewrite String.eqb_refl.
  - unfold ReadManifest. rewrite Htar. cbn. by rewrite Hman.
Qed.

(** What [OpenTo] gives is the manifest [ReadManifest] gives, and a payload it is true of. *)
Lemma OpenTo_spec r ids m payload : OpenTo r ids = Ok (m, payload) ->
  ReadManifest r ids = Ok m /\ ShippedHash m = sha256_hex payload /\ PayloadSize m <= maxDecompressedBytes.
Proof.
  unfold OpenTo, ReadManifest. intros H. apply rbind_Ok in H as (tr & -> & H). apply rbind_Ok in H as ([m1 tr1] & Hm & H).
  cbn [rbind]. rewrite Hm. cbn zeta in H. inv_ok. boolp. split_and!; [done|done|lia].
Qed.

Definition sealed_manifest (m : Manifest) (payload : string) (recipients : list string) : Manifest :=
  let enc := default (mkEncryption "age" []) (m_Encryption m) in
  set_sealed (sha256_hex payload) (slen payload)
    (match RecipientKeyIDs enc with [] => mkEncryption (Scheme enc) recipients | _ => enc end) m.

Lemma Seal_parts m sc recipients o m' : Seal m sc recipients = Ok (o, m') ->
  m' = sealed_manifest m (b sc) recipients /\
  exists json, Manifest_Encode m' = Ok json /\ writeContainer json (b sc) (PayloadMTime m) recipients = Ok o.
Proof.
  unfold Seal. destruct (_ =? 0); [done|]. destruct (_ =? "")%string; [done|]. destruct (_ =? "")%string; [done|].
  cbn zeta. fold (sealed_manifest m (b sc) recipients). intros H.
  destruct (Encode _) as [json|] eqn:Ej; [|done]. cbn [rbind] in H. destruct (writeContainer _ _ _ _) as [o'|] eqn:Eo; [|done].
  cbn in H. injection H as <- <-. split; [done|]. by exists json.
Qed.

(** A manifest that can be sealed without loss: its text is UTF-8, and so are the ids it is sealed to. *)
Definition sealable (m : Manifest) (recipients : list string) : Prop :=
  lossless (encoded m) /\ (m_ManifestVersion m = 0 \/ m_ManifestVersion m = ManifestVersion) /\
  valid_utf8 (Scheme (default (mkEncryption "age" []) (m_Encryption m))) = true /\
  Forall (fun r => valid_utf8 r = true)
    (recipients ++ RecipientKeyIDs (default (mkEncryption "age" []) (m_Encryption m))).

Lemma container_bound json payload mtime recipients o :
  writeContainer json payload mtime recipients = Ok o -> slen payload < 2 ^ 63.
Proof.
  cbn. unfold container_layers. intros H. apply rbind_Ok in H as (w & _ & H). apply rbind_Ok in H as (tar & Ht & _).
  destruct (writeTar_reads _ _ _ _ None Ht) as (_ & _ & _ & _ & _ & Hb). change (8 ^ 11) with (2 ^ 33) in Hb.
  pose proof (Z.pow_lt_mono_r 2 33 63 ltac:(lia) ltac:(lia) ltac:(lia)). lia.
Qed.

Lemma sealed_lossless_manifest m payload recipients : sealable m recipients -> slen payload < 2 ^ 63 ->
  lossless (encoded (sealed_manifest m payload recipients)) /\
  m_ManifestVersion (encoded (sealed_manifest m payload recipients)) = ManifestVersion.
Proof.
  intros (Hl & Hv & Hs & Hr) Hsize. apply Forall_app in Hr as [Hr1 Hr2].
  assert (encoded (sealed_manifest m payload recipients) = sealed_manifest (encoded m) payload recipients) as ->.
  { unfold encoded, sealed_manifest. cbn. by destruct (m_ManifestVersion m =? 0). }
  assert (m_Encryption (encoded m) = m_Encryption m) as He by (unfold encoded; by destruct (_ =? 0)).
  split.
  - unfold sealed_manifest. rewrite He. apply sealed_lossless; [done|apply sha256_hex_ok| | |split; [apply slen_nonneg|done]];
      destruct (RecipientKeyIDs _) eqn:E; cbn; rewrite ?E in *; done.
  - unfold encoded. cbn. destruct Hv as [E|E]; rewrite E; done.
Qed.

(** C11: What [Seal] seals any of its recipients opens: the payload byte for byte, and the manifest as sealed,
    which [ReadManifest] reads from the head alone. The manifest's text and the recipients' ids are
    UTF-8 and its version is this build's or none ([sealable]), one of the identities belongs to one
    of the recipients, and the manifest's JSON is within the 4 MiB the reader takes. *)
Theorem sealed_opens m sc recipients ids o m' :
  Seal m sc recipients = Ok (o, m') -> sealable m recipients ->
  existsb (fun i => existsb (opens i) recipients) ids = true ->
  (forall json, Manifest_Encode m' = Ok json -> slen json <= maxManifestBytes) ->
  Open o ids = Ok (encoded m', b sc) /\ ReadManifest (mkReader o None) ids = Ok (encoded m').
Proof.
  intros Hseal Hok Hids Hmax. destruct (Seal_parts _ _ _ _ _ Hseal) as (-> & json & Hj & Hw).
  destruct (sealed_lossless_manifest m (b sc) recipients Hok (container_bound _ _ _ _ _ Hw)) as [Hl Hv].
  eapply writer_opens; [exact Hw|exact Hids|by apply Hmax|by apply Encode_Decode| |];
    unfold encoded; by destruct (_ =? 0).
Qed.
End RoundTrip.

(** ** Concrete layers *)
Module SampleSeal.

(** A string and a list of strings, each element after a mark. *)
Fixpoint put_text (s : string) : string :=
  match s with "" => "0" | String c r => String "1" (String c (put_text r)) end.
Fixpoint get_text (s : string) : option (string * string) :=
  match s with
  | String m (String c r as t) =>
      if (m =? "1")%char then '(a, rest) ← get_text r; Some (String c a, rest)
      else Some ("", t)
  | String m "" => Some ("", "")
  | "" => None
  end.
Fixpoint put_list (l : list string) : string :=
  match l with [] => "0" | s :: r => String "1" (put_text s) +:+ put_list r end.
Fixpoint get_list (fuel : nat) (s : string) : option (list string * string) :=
  match fuel, s with
  | S f, String m r =>
      if (m =? "1")%char then '(a, rest) ← get_text r; '(l, rest) ← get_list f rest; Some (a :: l, rest)
      else Some ([], r)
  | _, _ => None
  end.

Lemma get_put_text s rest : get_text (put_text s +:+ rest) = Some (s, rest).
Proof. induction s as [|c s IH]; [by destruct rest|]. cbn. by rewrite IH. Qed.
Lemma get_put_list l rest fuel : (length l < fuel)%nat -> get_list fuel (put_list l +:+ rest) = Some (l, rest).
Proof.
  revert fuel. induction l as [|s l IH]; intros [|fuel] Hf; simpl in Hf; try lia; [done|].
  cbn [put_list String.append get_list]. rewrite string_app_assoc, get_put_text. cbn. by rewrite IH by lia.
Qed.
Lemma put_list_length l : (length l < String.length (put_list l))%nat.
Proof. induction l as [|s l IH]; [simpl; lia|]. cbn [put_list]. rewrite length_app_str. simpl. lia. Qed.

(** A sealed file names its recipients; the key [key:r] opens what is sealed to [r]. *)
#[export] Instance age : Age := {|
  age_Encrypt recipients := Ok (fun plain => Ok (put_list recipients +:+ plain));
  age_Decrypt ids r :=
    match get_list (String.length (r_bytes r)) (r_bytes r) with
    | Some (recipients, plain) =>
        if existsb (fun i => existsb (fun p => (i =? "key:" +:+ p)%string) recipients) ids then Ok (mkReader plain (r_err r))
        else Err "no identity matched any of the recipients"
    | None => Err "failed to read header"
    end;
  ParseX25519Recipient s := if has_prefix "age1" s then Ok s else Err "malformed recipient";
  opens i p := (i =? "key:" +:+ p)%string
|}.

#[export] Instance frames : ZstdFrames := {|
  zstd_Encode s := Ok (String "Z" s);
  zstd_Decode r := match r_bytes r with
                   | String c s => if (c =? "Z")%char then Ok (mkReader s (r_err r)) else Err "magic number mismatch"
                   | "" => Err "EOF"
                   end
|}.

(** The manifests of the examples, and their text. *)
Definition manifest (install source path hash : string) (size : Z) (enc : option Encryption) : Manifest :=
  mkManifest 1 "acme" install source "" path "file_glob" "trajectory" (sha256_hex "raw") hash size None "" "" None None enc
    (mkClient "1.0.0" "" false "" "" "") 0 false "2026-01-01T00:00:00Z" "" false None [] "" 0 None 0 0 0 0.
Definition size_ok (n : Z) : bool := (0 <=? n) && (n <? 2 ^ 63).
Definition put_enc (enc : option Encryption) : list string :=
  match enc with Some e => Scheme e :: RecipientKeyIDs e | None => [] end.
Definition get_enc (l : list string) : option Encryption :=
  match l with scheme :: ids => Some (mkEncryption scheme ids) | [] => None end.

Definition marshal (m : Manifest) : string :=
  octal 21 (PayloadSize m) +:+ put_text (m_InstallID m) +:+ put_text (m_SourceID m) +:+ put_text (m_NativePath m) +:+
  put_text (ShippedHash m) +:+ put_list (put_enc (m_Encryption m)).
Definition unmarshal (raw : string) : option Manifest :=
  size ← ParseUint8 0 (str_take 21 raw);
  '(install, raw) ← get_text (str_drop 21 raw);
  '(source, raw) ← get_text raw;
  '(path, raw) ← get_text raw;
  '(hash, raw) ← get_text raw;
  '(ids, raw) ← get_list (String.length raw) raw;
  if size_ok size then Some (manifest install source path hash size (get_enc ids)) else None.

#[export] Instance mjson : ManifestJson := {|
  Marshal_manifest m := Ok (marshal m);
  Unmarshal_manifest raw := match unmarshal raw with Some m => Ok m | None => Err "unexpected end of JSON input" end;
  ValidateRaw raw :=
    match unmarshal raw with
    | Some m => if uuid_ok (m_InstallID m) && identifier_ok (m_SourceID m) && negb (m_NativePath m =? "")%string &&
                   (0 <=? PayloadSize m) &&
                   match m_Encryption m with
                   | Some e => (Scheme e =? "age")%string && forallb valid_utf8 (RecipientKeyIDs e)
                   | None => true
                   end then None
                else Some "value does not match pattern"
    | None => Some "not valid JSON"
    end;
  lossless m := exists install source path hash size enc, size_ok size = true /\ m = manifest install source path hash size enc
|}.

Lemma unmarshal_marshal install source path hash size enc : size_ok size = true ->
  unmarshal (marshal (manifest install source path hash size enc)) = Some (manifest install source path hash size enc).
Proof.
  intros Hs. set (rest := put_text install +:+ put_text source +:+ put_text path +:+ put_text hash +:+ put_list (put_enc enc)).
  change (marshal _) with (octal 21 size +:+ rest). unfold unmarshal.
  rewrite take_app_exact, drop_app_exact by apply octal_length.
  rewrite ParseUint8_octal; [|lia|unfold size_ok in Hs; boolp; change (8 ^ Z.of_nat 21) with (2 ^ 63); lia].
  unfold rest. cbn [mbind option_bind]. do 4 (rewrite get_put_text; cbn [mbind option_bind]).
  pose proof (get_put_list (put_enc enc) "" (String.length (put_list (put_enc enc))) (put_list_length _)) as Hl.
  rewrite string_app_nil_r in Hl. rewrite Hl. cbn [mbind option_bind]. rewrite Hs. by destruct enc as [[]|].
Qed.

Lemma unmarshal_form raw m : Unmarshal_manifest raw = Ok m -> lossless m.
Proof.
  cbn [Unmarshal_manifest mjson]. destruct (unmarshal raw) as [m'|] eqn:E; [|done]. intros [= <-]. unfold unmarshal in E.
  repeat match type of E with
  | (_ ≫= _) = Some _ => apply bind_Some in E as (? & _ & E)
  | (let '(_, _) := ?p in _) = Some _ => destruct p
  end.
  destruct (size_ok _) eqn:Hs; [|done]. injection E as <-. by repeat eexists.
Qed.

#[export] Instance laws : SealLaws.
Proof.
  split.
  - intros recipients writer plain sealed ids [= <-] [= <-] Hids. cbn. rewrite get_put_list by (rewrite length_app_str; pose proof (put_list_length recipients); lia).
    cbn. change (existsb _ ids) with (existsb (fun i => existsb (opens i) recipients) ids). by rewrite Hids.
  - intros body encoded [= <-]. done.
  - intros m raw (install & source & path & hash & size & enc & Hs & ->) [= <-]. cbn [Unmarshal_manifest mjson].
    by rewrite unmarshal_marshal.
  - intros raw m _ Hm. by apply unmarshal_form in Hm.
  - intros m hash size enc (install & source & path & h & n & e & _ & ->) _ _ _ Hs. exists install, source, path, hash, size, (Some enc).
    split; [|done]. unfold size_ok. rewrite (proj2 (Z.leb_le _ _)), (proj2 (Z.ltb_lt _ _)) by lia. done.
  - intros raw m. cbn [ValidateRaw Unmarshal_manifest mjson]. destruct (unmarshal raw) as [m'|]; [|done]. intros Hv [= ->].
    case_in Hv; [|done]. boolp. split_and!; try done. intros e He. rewrite He in *. boolp. split; [done|].
    rewrite Forall_forall. intros r Hr%list_elem_of_In. by eapply forallb_forall.
Qed.

(** One object, sealed to two recipients and opened by the second. *)
Definition install : string := "3d4f7c1e-9a2b-4c5d-8e6f-0a1b2c3d4e5f".
#[export] Instance tar_ext : TarExtensions := fun _ => Err "archive/tar: invalid tar header".
Definition before : Manifest := manifest install "codex" "/home/{user}/.codex/a.jsonl" "" 0 None.
Definition line : Scrubbed := mkScrubbed "{}" "scrubber".
Definition sealed : string * Manifest :=
  match Seal before line ["age1a"; "age1b"] with Ok p => p | Err _ => ("", before) end.

Lemma seal_result : Seal before line ["age1a"; "age1b"] = Ok (fst sealed, snd sealed).
Proof. vm_compute. reflexivity. Qed.
Lemma seal_version : encoded (snd sealed) = snd sealed.
Proof. vm_compute. reflexivity. Qed.
Lemma seal_manifest_size json : Manifest_Encode (snd sealed) = Ok json -> slen json <= maxManifestBytes.
Proof.
  assert (match Manifest_Encode (snd sealed) with Ok j => slen j <=? maxManifestBytes | Err _ => true end = true) as H
    by (vm_compute; reflexivity).
  intros Hj. rewrite Hj in H. by apply Z.leb_le.
Qed.

Lemma sealed_opens_witness :
  Seal before line ["age1a"; "age1b"] = Ok (fst sealed, snd sealed) /\
  Open (fst sealed) ["key:age1b"] = Ok (snd sealed, "{}").
Proof.
  split; [exact seal_result|]. rewrite <- seal_version.
  apply (sealed_opens before line ["age1a"; "age1b"] ["key:age1b"] (fst sealed) (snd sealed) seal_result).
  - split_and!; [by exists install, "codex", "/home/{user}/.codex/a.jsonl", "", 0, None|by right|done|by repeat constructor].
  - done.
  - exact seal_manifest_size.
Defined.
End SampleSeal.
