(* ===== verification/Unseal.v ===== *)
(** The custodian's tool: [src/cmd/quesma-unseal/main.go]. [open] decrypts a copy of the archive into a
    readable tree, [reseal] writes each object sealed to more recipients. The copy is read only; the
    output directory is state, changed one operation at a time, and any operation may fail. Unix only:
    Windows' rules for names and the parsing of arguments are not here, and what is printed is not kept. *)

From S2P Require Import Prelude GoLib Crypto GoJson GoText GoPath Vocab Spec Manifest Heuristic Spans SourceFiles FleetSeen RepoFilter Discover Sessions Sealing.

(** ** The output directory *)

(** What stands at a name. A link is kept with the name it leads to. *)
Inductive out_node := OFile (body : string) (mtime : Z) | ODir | OLink (to : string) | OSpecial.
Abbreviation out_tree := (gmap string out_node) (only parsing).

Inductive outcome A := Done (a : A) | Fail (e : string) | Panic.
Arguments Done {A} a.
Arguments Fail {A} e.
Arguments Panic {A}.

(** [object]: one [.age] file of the archive, with the ids its key claims for it. *)
Record object := mkObject { rel : string; key : string; installRel : string; obj_installID : string; obj_sourceID : string }.

(** [unsealer]. [u_ops] counts the operations on the output directory; a nil index is [None]. *)
Record unsealer := mkUnsealer {
  u_plain : out_tree;
  u_ops : nat;
  u_index : option (gmap string string);
  u_installDirs : gmap string string;
  u_claimed : gmap string string;
  u_foldCase : bool;
  u_foldNFC : bool;
  u_decrypted : Z;
  u_unchanged : Z;
  u_failed : Z
}.

Definition M (A : Type) : Type := unsealer -> outcome A * unsealer.
Definition ret {A} (a : A) : M A := fun u => (Done a, u).
Definition fail {A} (e : string) : M A := fun u => (Fail e, u).
Definition bind {A B} (m : M A) (k : A -> M B) : M B := fun u =>
  match m u with
  | (Done a, u) => k a u
  | (Fail e, u) => (Fail e, u)
  | (Panic, u) => (Panic, u)
  end.
Notation "'do!' x ':=' m 'in' k" := (bind m (fun x => k))
  (at level 10, x name, m at level 100, k at level 200) : go_scope.

(** The error of [m] as a value; and what is done with the state whatever [m] gives. *)
Definition try {A} (m : M A) : M (result string A) := fun u =>
  match m u with
  | (Done a, u) => (Done (Ok a), u)
  | (Fail e, u) => (Done (Err e), u)
  | (Panic, u) => (Panic, u)
  end.
Definition get : M unsealer := fun u => (Done u, u).
Definition of_result {A} (r : result error A) : M A :=
  match r with Ok a => ret a | Err e => fail (Error e) end.

Definition set_plain (fs : out_tree) (u : unsealer) : unsealer :=
  mkUnsealer fs (u_ops u) (u_index u) (u_installDirs u) (u_claimed u) (u_foldCase u) (u_foldNFC u)
    (u_decrypted u) (u_unchanged u) (u_failed u).
Definition set_ops (n : nat) (u : unsealer) : unsealer :=
  mkUnsealer (u_plain u) n (u_index u) (u_installDirs u) (u_claimed u) (u_foldCase u) (u_foldNFC u)
    (u_decrypted u) (u_unchanged u) (u_failed u).
Definition set_index (i : option (gmap string string)) (u : unsealer) : unsealer :=
  mkUnsealer (u_plain u) (u_ops u) i (u_installDirs u) (u_claimed u) (u_foldCase u) (u_foldNFC u)
    (u_decrypted u) (u_unchanged u) (u_failed u).
Definition set_installDirs (d : gmap string string) (u : unsealer) : unsealer :=
  mkUnsealer (u_plain u) (u_ops u) (u_index u) d (u_claimed u) (u_foldCase u) (u_foldNFC u)
    (u_decrypted u) (u_unchanged u) (u_failed u).
Definition set_claimed (c : gmap string string) (u : unsealer) : unsealer :=
  mkUnsealer (u_plain u) (u_ops u) (u_index u) (u_installDirs u) c (u_foldCase u) (u_foldNFC u)
    (u_decrypted u) (u_unchanged u) (u_failed u).
Definition set_folding (case nfc : bool) (u : unsealer) : unsealer :=
  mkUnsealer (u_plain u) (u_ops u) (u_index u) (u_installDirs u) (u_claimed u) case nfc
    (u_decrypted u) (u_unchanged u) (u_failed u).
Definition set_counts (decrypted unchanged failed : Z) (u : unsealer) : unsealer :=
  mkUnsealer (u_plain u) (u_ops u) (u_index u) (u_installDirs u) (u_claimed u) (u_foldCase u) (u_foldNFC u)
    decrypted unchanged failed.

(** ** What is outside *)

(** The file system under the output directory: the name it keeps a path under (its folding of names, and
    the directories that are links), what fails, and the random names and the time of an operation. *)
Class OutDir := {
  canon : string -> string;
  fault : nat -> option string;
  tempName : nat -> string;
  clock : nat -> Z
}.

(** The copy of the archive: [Open] and [Lstat] below its root. *)
Class EncDir := {
  enc_Open : string -> result string handle;
  enc_Lstat : string -> result lstat_error entry_kind
}.

(** [golang.org/x/text]'s NFC, and [encoding/json] of the tags, the index (a JSON null gives a nil map)
    and a sidecar. *)
Class UnsealText := {
  NFC : string -> string;
  Unmarshal_tags : string -> option (option string);
  Unmarshal_index : string -> option (option (gmap string string));
  MarshalIndent_index : gmap string string -> string;
  sidecarJSON : Manifest -> result string string
}.

Definition sidecarSuffix : string := ".manifest.json".
Definition indexName : string := ".unseal-index.json".
Definition stagingDir : string := ".unseal-tmp".
Definition maxTagsBytes : Z := Z.shiftl 1 20.
Definition maxNameBytes : Z := 255.

(** ** [os.Root] *)

Section Root.
Context {out : OutDir}.

Definition io {A} (k : out_tree -> outcome A * out_tree) : M A := fun u =>
  let u' := set_ops (S (u_ops u)) u in
  match fault (u_ops u) with
  | Some e => (Fail e, u')
  | None => let '(r, fs) := k (u_plain u) in (r, set_plain fs u')
  end.
(** A path that leaves the root is refused; one whose last element is a dot or two names a directory, or
    nothing. *)
Definition names_dir (p : string) : bool :=
  let leaf := List.last (split_on "/" p) "" in (leaf =? ".")%string || (leaf =? "..")%string.
Definition is_dir (n : option out_node) : bool := match n with Some ODir => true | _ => false end.
Definition entry (fs : out_tree) (p : string) : option out_node :=
  if names_dir p then (if is_dir (fs !! canon p) then Some ODir else None) else fs !! canon p.
Definition io_at {A} (p : string) (k : option out_node -> out_tree -> outcome A * out_tree) : M A :=
  if path_IsLocal p then io (fun fs => k (entry fs p) fs) else fail (p +:+ ": path escapes from parent").

Definition not_exist {A} : outcome A := Fail "file does not exist".

Definition Lstat (p : string) : M out_node :=
  io_at p (fun n fs => (match n with Some n => Done n | None => not_exist end, fs)).
Definition follow (n : option out_node) (fs : out_tree) : option out_node :=
  match n with Some (OLink to) => fs !! to | _ => n end.
Definition Stat (p : string) : M out_node :=
  io_at p (fun n fs => (match follow n fs with Some n => Done n | None => not_exist end, fs)).
(** [ReadFile]: nothing where nothing is. *)
Definition ReadFile (p : string) : M (option string) :=
  io_at p (fun n fs => (match follow n fs with
                        | Some (OFile body _) => Done (Some body)
                        | Some _ => Fail "is a directory"
                        | None => Done None
                        end, fs)).
Definition Remove (p : string) : M () :=
  io_at p (fun n fs => match n with Some _ => (Done (), delete (canon p) fs) | None => (not_exist, fs) end).

Definition parent_ok (fs : out_tree) (p : string) : bool :=
  let d := path_Dir p in (d =? ".")%string || is_dir (fs !! canon d).

Definition Mkdir (p : string) : M () :=
  io_at p (fun n fs =>
    if negb (parent_ok fs p) then (not_exist, fs)
    else match n with Some _ => (Fail "file exists", fs) | None => (Done (), <[canon p := ODir]> fs) end).

(** The directories of [segs] below [p], one after the other. *)
Fixpoint mkdir_all (p : string) (segs : list string) (fs : out_tree) : outcome () * out_tree :=
  match segs with
  | [] => (Done (), fs)
  | s :: r =>
      let p := path_Join p s in
      match fs !! canon p with
      | None => mkdir_all p r (<[canon p := ODir]> fs)
      | Some ODir => mkdir_all p r fs
      | Some _ => (Fail "not a directory", fs)
      end
  end.
Definition MkdirAll (p : string) : M () :=
  io_at p (fun _ fs => if (p =? ".")%string then (Done (), fs) else mkdir_all "." (split_on "/" p) fs).

(** [RemoveAll]: the entry and all below it. *)
Definition below (d k : string) : bool := (k =? d)%string || has_prefix (d +:+ "/") k.
Definition RemoveAll (p : string) : M () :=
  io_at p (fun _ fs => (Done (), base.filter (fun kv => Is_true (negb (below (canon p) kv.1))) fs)).

Definition Rename (from to : string) : M () :=
  io_at from (fun n fs =>
    match n with
    | None => (not_exist, fs)
    | Some f =>
        if negb (path_IsLocal to) then (Fail (to +:+ ": path escapes from parent"), fs)
        else if negb (parent_ok fs to) then (not_exist, fs)
        else if names_dir to || is_dir (fs !! canon to) then (Fail "file exists", fs)
        else (Done (), <[canon to := f]> (delete (canon from) fs))
    end).

(** [OpenFile] with [O_CREATE|O_EXCL], or [Create] of a probe. *)
Definition create (excl : bool) (p : string) : M () :=
  io_at p (fun n fs =>
    if negb (parent_ok fs p) then (not_exist, fs)
    else match n with
         | Some _ => if excl then (Fail "file exists", fs) else (Done (), <[canon p := OFile "" 0]> fs)
         | None => (Done (), <[canon p := OFile "" 0]> fs)
         end).
(** Writing, [Sync], [Close] and [Chtimes] of a file just created: each may fail. *)
Definition put (p body : string) (mtime : Z) : M () :=
  io_at p (fun _ fs => (Done (), <[canon p := OFile body mtime]> fs)).
Definition flush : M () := io (fun fs => (Done (), fs)).
End Root.

(** ** Names *)

(** [path.Match] of a pattern with at most one star and a name without a slash. *)
Definition path_Match (pat name : string) : bool :=
  match split_on "*" pat with
  | [pre; suf] => has_prefix pre name && has_suffix suf name && (slen pre + slen suf <=? slen name)
  | _ => (pat =? name)%string
  end.
Definition objectLayout : list string := ["install=*"; "mirror"; "source=*"; "*.age"].
Definition tailMatches (segs pattern : list string) : bool :=
  if Zlen segs <? Zlen pattern then false
  else forallb (fun '(pat, seg) => path_Match pat seg) (zip pattern (drop (length segs - length pattern) segs)).

Definition isASCIILetter (c : ascii) : bool := in_range "a" "z" c || in_range "A" "Z" c.
Definition drive_letter (seg : string) : bool :=
  match seg with String c (String d "") => (d =? ":")%char && isASCIILetter c | _ => false end.

Fixpoint native_segs (out segs : list string) : result string (list string) :=
  match segs with
  | [] => Ok (rev out)
  | seg :: r =>
      if (seg =? "")%string || (seg =? ".")%string then native_segs out r
      else if (seg =? "..")%string then Err "native_path has a '..' segment"
      else if str_existsb (fun c => (c =? nul)%char) seg then Err "native_path has a NUL byte"
      else
        let seg := match out with [] => if drive_letter seg then str_take 1 seg else seg | _ => seg end in
        native_segs (seg :: out) r
  end.
Definition nativeRelPath (native : string) : result string string :=
  let! segs := native_segs [] (split_on "/" (replace_byte "\" "/" native)) in
  match segs with [] => Err "native_path has no path segment" | _ => Ok (join "/" segs) end.

(** [path.Ext]: from the last dot of the last element. *)
Definition path_Ext (p : string) : string :=
  let name := List.last (split_on "/" p) "" in
  match rev (split_on "." name) with
  | ext :: _ :: _ => "." +:+ ext
  | _ => ""
  end.
Definition besideName (out rel : string) : string :=
  let tag := str_take 8 (trim_suffix ".age" (Base rel)) in
  let ext := path_Ext out in
  trim_suffix ext out +:+ "~" +:+ tag +:+ ext.

(** The text of a tags file is read up to one byte past its bound. *)
Definition windowsReserved : string := "<>:|?*" +:+ String "034" "".
Definition unsafe_byte (c : ascii) : bool :=
  (c =? "/")%char || (c =? "\")%char || (c =? nul)%char ||
  str_existsb (fun d => (c =? d)%char) windowsReserved.
Definition installName `{!UnsealText} (raw : option string) : result string string :=
  match raw with
  | None => Ok ""
  | Some raw =>
      if maxTagsBytes <? slen raw then Err ("over " +:+ int_text maxTagsBytes +:+ " bytes")
      else
        match Unmarshal_tags raw with
        | None => Err "unexpected end of JSON input"
        | Some None => Ok ""
        | Some (Some text) =>
            let name := TrimSpace text in
            if (name =? "")%string || (name =? ".")%string || (name =? "..")%string || str_existsb unsafe_byte name
               || existsb rune_IsControl (runes name) || (maxNameBytes <? slen name + 11)
            then Err ("name " +:+ quote text +:+ " is not a safe directory name")
            else Ok name
        end
  end.

Definition keyMatches (o : object) (m : Manifest) : result string () :=
  if negb (m_InstallID m =? obj_installID o)%string
  then Err ("manifest install_id " +:+ quote (m_InstallID m) +:+ " does not match key install=" +:+ obj_installID o)
  else if negb (m_SourceID m =? obj_sourceID o)%string
  then Err ("manifest source_id " +:+ quote (m_SourceID m) +:+ " does not match key source=" +:+ obj_sourceID o)
  else Ok ().

(** ** Walking the archive *)

(** [fs.WalkDir] over the copy. A directory may fail to be read, wholly or in part. *)
Inductive enc_node := EncFile | EncOther | EncDir_ (read_err : option string) (entries : list (string * enc_node)).
Inductive walk_event := AtFile (regular : bool) | AtError (err : string).

Fixpoint walk_dir (p : string) (n : enc_node) : list (string * walk_event) :=
  match n with
  | EncFile => [(p, AtFile true)]
  | EncOther => [(p, AtFile false)]
  | EncDir_ err entries =>
      (match err with Some e => [(p, AtError e)] | None => [] end) ++
      (fix walk_entries (l : list (string * enc_node)) : list (string * walk_event) :=
         match l with [] => [] | (name, n') :: r => walk_dir (path_Join p name) n' ++ walk_entries r end) entries
  end.

(** Element [i] from the end. *)
Definition from_end (i : nat) (segs : list string) : string := nth (length segs - i) segs "".
Definition object_at (p : string) : object :=
  let segs := split_on "/" p in
  mkObject p (join "/" (drop (length segs - 4) segs)) (join "/" (take (length segs - 3) segs))
    (trim_prefix "install=" (from_end 4 segs)) (trim_prefix "source=" (from_end 2 segs)).

Definition collect_event (acc : list object * Z) (ev : string * walk_event) : list object * Z :=
  let '(objects, failed) := acc in
  let '(p, what) := ev in
  match what with
  | AtError _ => (objects, failed + 1)
  | AtFile regular =>
      if tailMatches (split_on "/" p) objectLayout then
        if regular then (objects ++ [object_at p], failed) else (objects, failed + 1)
      else (objects, failed)
  end.
Definition collect (root : result string enc_node) : list object * Z :=
  foldl collect_event ([], 0) (match root with Ok n => walk_dir "." n | Err e => [(".", AtError e)] end).

(** ** One object *)

Section Tool.
Context {age : Age} {frames : ZstdFrames} {mjson : ManifestJson} {tar_ext : TarExtensions}.
Context {out_dir : OutDir} {enc : EncDir} {texts : UnsealText} {unicode : GoUnicode}.
Variables (ids : list string) (resealTo : list string).

Definition fold (u : unsealer) (p : string) : string :=
  let p := if u_foldNFC u then NFC p else p in
  if u_foldCase u then ToLower p else p.

Definition claimedBy (u : unsealer) (out : string) : option string :=
  match u_claimed u !! fold u out with
  | Some prev => Some prev
  | None => u_claimed u !! fold u (out +:+ sidecarSuffix)
  end.

Definition reserve (o : object) (out : string) (u : unsealer) : unsealer :=
  set_claimed (<[fold u (out +:+ sidecarSuffix) := rel o]> (<[fold u out := rel o]> (u_claimed u))) u.
Definition claim (o : object) (out : string) : M string := fun u =>
  match claimedBy u out with
  | Some prev =>
      let alt := besideName out (rel o) in
      match claimedBy u alt with
      | Some other => (Fail ("output " +:+ out +:+ " already written by " +:+ prev +:+ ", and " +:+ alt +:+ " by " +:+ other), u)
      | None => (Done alt, reserve o alt u)
      end
  | None => (Done out, reserve o out u)
  end.

(** The bytes of [f] up to the size it had when it was opened. *)
Definition section (f : handle) (size : Z) : reader :=
  if slen (h_body f) <? size then mkReader (h_body f) (h_err f)
  else mkReader (str_take (Z.to_nat size) (h_body f)) None.
Definition openObject (o : object) : result string (reader * file_info) :=
  let! f := enc_Open (rel o) in
  let! info := h_stat f in
  if negb (fi_Regular info) then Err "not a regular file" else Ok (section f (fi_Size info), info).

Definition text_result {A} (r : result string A) : M A := match r with Ok a => ret a | Err e => fail e end.

(** [readTags]: nothing when there is no regular file. *)
Definition readTags (tagsPath : string) : result string (option string) :=
  match enc_Lstat tagsPath with
  | Err NotExist => Ok None
  | Err (LstatError e) => Err e
  | Ok RegularEntry =>
      let! f := enc_Open tagsPath in
      let! raw := read_limited (maxTagsBytes + 1) (h_body f) (h_err f) in
      Ok (Some raw)
  | Ok _ => Ok None
  end.

(** A name that is not safe only warns. *)
Definition install_dir_of (installID : string) (raw : option string) : string :=
  match installName raw with
  | Ok "" | Err _ => installID
  | Ok name => name +:+ " (" +:+ str_take 8 installID +:+ ")"
  end.
Definition installDir (installRel installID : string) : M string := fun u =>
  match u_installDirs u !! installRel with
  | Some dir => (Done dir, u)
  | None =>
      match readTags (installRel +:+ "/tags.json") with
      | Err e => (Fail e, u)
      | Ok raw =>
          let dir := install_dir_of installID raw in
          (Done dir, set_installDirs (<[installRel := dir]> (u_installDirs u)) u)
      end
  end.

Definition plain_native (native : string) : string :=
  let leaf := Base native in
  if (4 <? slen leaf) && has_suffix ".zst" leaf then trim_suffix ".zst" native else native.
Definition outputPath (o : object) (m : Manifest) : M string :=
  do! _ := text_result (keyMatches o m) in
  do! native := text_result (nativeRelPath (m_NativePath m)) in
  do! dir := installDir (installRel o) (obj_installID o) in
  ret (dir +:+ "/" +:+ m_SourceID m +:+ "/" +:+ plain_native native).

(** [upToDate]: the sidecar says so, and the output has the size. *)
Definition upToDate (out : string) (m : Manifest) : M bool :=
  do! p := try (Stat out) in
  match p with
  | Ok (OFile body _) =>
      if negb (slen body =? PayloadSize m) then ret false
      else
        do! want := text_result (sidecarJSON m) in
        do! got := try (ReadFile (out +:+ sidecarSuffix)) in
        ret (match got with Ok (Some got) => (got =? want)%string | _ => false end)
  | _ => ret false
  end.

(** [stage]: a synced file in the staging directory with what [fill] makes, and what it learned. A write
    that fails leaves an empty file there, or none. *)
Definition stage {B} (mtime : Z) (fill : M (string * B)) : M (string * B) :=
  do! u := get in
  let tmp := path_Join stagingDir (tempName (u_ops u)) in
  do! _ := create true tmp in
  do! r := try (do! filled := fill in
                do! _ := put tmp (fst filled) mtime in
                do! _ := flush in do! _ := flush in do! _ := flush in
                ret (snd filled)) in
  match r with
  | Ok x => ret (tmp, x)
  | Err e => do! _ := try (Remove tmp) in fail e
  end.

(** What stands there, if anything, must be a regular file. *)
Definition regular (n : out_node) : bool := match n with OFile _ _ => true | _ => false end.
Definition refuse_other (p : string) : M () :=
  do! n := try (Lstat p) in
  match n with
  | Ok n => if regular n then ret () else fail ("output " +:+ p +:+ " exists and is not a regular file")
  | Err _ => ret ()
  end.

Fixpoint remove_each (tmps : list string) : M () :=
  match tmps with [] => ret () | p :: r => do! _ := try (Remove p) in remove_each r end.
(** [m]; if it fails, the staged files are removed. *)
Definition or_remove {A} (tmps : list string) (m : M A) : M A :=
  do! r := try m in
  match r with Ok a => ret a | Err e => do! _ := remove_each tmps in fail e end.

Definition fill_payload (obj : reader) : M (string * Manifest) :=
  do! opened := of_result (OpenTo obj ids) in ret (snd opened, fst opened).
Definition fill_sidecar (m : Manifest) : M (string * ()) :=
  do! text := text_result (sidecarJSON m) in ret (text, ()).

Definition write (obj : reader) (out : string) (mtime : Z) : M () :=
  do! _ := MkdirAll (path_Dir out) in
  do! _ := refuse_other out in
  do! _ := refuse_other (out +:+ sidecarSuffix) in
  do! staged := stage mtime (fill_payload obj) in
  let '(payload, m) := staged in
  do! staged := or_remove [payload] (stage mtime (fill_sidecar m)) in
  let sidecar := fst staged in
  or_remove [payload; sidecar] (
    do! _ := Rename sidecar (out +:+ sidecarSuffix) in
    Rename payload out).

(** [removeSuperseded] never fails: an error leaves what is left. *)
Definition removeSuperseded (o : object) (prev : string) : M () :=
  do! u := get in
  if match claimedBy u prev with Some holder => negb (holder =? rel o)%string | None => false end then ret ()
  else
    do! r := try (do! n := Lstat prev in
                  if negb (regular n) then fail "" else
                  do! n := Lstat (prev +:+ sidecarSuffix) in
                  if negb (regular n) then fail "" else
                  do! _ := Remove prev in
                  Remove (prev +:+ sidecarSuffix)) in
    ret ().

(** The index is written last; assigning to a nil map panics. *)
Definition record_output (o : object) (out : string) : M () := fun u =>
  match u_index u with
  | Some index => (Done (), set_index (Some (<[key o := out]> index)) u)
  | None => (Panic, u)
  end.
Definition superseded (u : unsealer) (o : object) (out : string) : option string :=
  match default "" (u_index u ≫= lookup (key o)) with
  | "" => None
  | prev => if (fold u prev =? fold u out)%string then None else Some prev
  end.

(** [object]: whether it decrypted the payload. *)
Definition open_object (o : object) : M bool :=
  do! opened := text_result (openObject o) in
  let '(obj, info) := opened in
  do! m := of_result (ReadManifest obj ids) in
  do! out := outputPath o m in
  do! out := claim o out in
  do! ok := upToDate out m in
  do! _ := (if ok then ret () else write obj out (fi_MTime info)) in
  do! u := get in
  do! _ := match superseded u o out with Some prev => removeSuperseded o prev | None => ret () end in
  do! _ := record_output o out in
  ret (negb ok).

(** ** Resealing *)

(** [place] of a body at its path. *)
Definition place (p body : string) (mtime : Z) : M () :=
  do! _ := MkdirAll (path_Dir p) in
  do! _ := refuse_other p in
  do! staged := stage mtime (ret (body, ())) in
  or_remove [fst staged] (Rename (fst staged) p).

Definition add_missing (l : list string) (r : string) : list string := if bool_decide (r ∈ l) then l else l ++ [r].
Definition set_recipients (l : list string) (m : Manifest) : Manifest :=
  match m_Encryption m with
  | Some enc => set_sealed (ShippedHash m) (PayloadSize m) (mkEncryption (Scheme enc) l) m
  | None => m
  end.
Fixpoint parse_recipients (l : list string) : result string (list string) :=
  match l with
  | [] => Ok []
  | id :: r =>
      match ParseX25519Recipient id with
      | Err e => Err ("manifest recipient " +:+ quote id +:+ ": " +:+ e)
      | Ok p => let! ps := parse_recipients r in Ok (p :: ps)
      end
  end.

(** What [reseal] writes, or nothing when the object has every recipient. *)
Definition resealed (obj : reader) (o : object) : result string (option string) :=
  let text {A} (r : result error A) : result string A := match r with Ok a => Ok a | Err e => Err (Error e) end in
  let! m := text (ReadManifest obj ids) in
  let! _ := keyMatches o m in
  match RecipientKeyIDs <$> m_Encryption m with
  | None | Some [] => Err "manifest lists no recipients"
  | Some held =>
      let l := foldl add_missing held resealTo in
      if Zlen l =? Zlen held then Ok None
      else
        let! recipients := parse_recipients l in
        let! opened := text (OpenTo obj ids) in
        let '(m, payload) := opened in
        let! sealed := text (Seal (set_recipients l m) (Unscrubbed payload "reseal of a shipped payload") recipients) in
        Ok (Some (fst sealed))
  end.
Definition reseal (o : object) : M bool :=
  do! opened := text_result (openObject o) in
  let '(obj, info) := opened in
  do! sealed := text_result (resealed obj o) in
  match sealed with
  | None => ret false
  | Some body => do! _ := place (rel o) body (fi_MTime info) in ret true
  end.

(** ** A run *)

Definition modify (f : unsealer -> unsealer) : M () := fun u => (Done (), f u).

(** [probeFolding]: whether the output directory merges names of another case, or of another form. *)
Definition e_acute_apart : string := "e" +:+ String "204" (String "129" "").
Definition e_acute : string := String "195" (String "169" "").
Definition probeFolding : M (bool * bool) :=
  do! u := get in
  let id := tempName (u_ops u) in
  do! _ := create false (path_Join stagingDir ("x" +:+ id)) in
  do! case := try (Stat (path_Join stagingDir ("X" +:+ ToUpper id))) in
  do! _ := create false (path_Join stagingDir (e_acute_apart +:+ id)) in
  do! nfc := try (Stat (path_Join stagingDir (e_acute +:+ id))) in
  ret (is_ok case, is_ok nfc).

(** An index that cannot be read only costs this run its removals. *)
Definition loadIndex : M () :=
  do! raw := try (ReadFile indexName) in
  modify (set_index (match raw with
                     | Ok (Some raw) => match Unmarshal_index raw with Some index => index | None => Some ∅ end
                     | _ => Some ∅
                     end)).
Definition saveIndex (index : gmap string string) : M () :=
  do! u := get in place indexName (MarshalIndent_index index) (clock (u_ops u)).

Definition count (r : result string bool) (u : unsealer) : unsealer :=
  match r with
  | Err _ => set_counts (u_decrypted u) (u_unchanged u) (u_failed u + 1) u
  | Ok true => set_counts (u_decrypted u + 1) (u_unchanged u) (u_failed u) u
  | Ok false => set_counts (u_decrypted u) (u_unchanged u + 1) (u_failed u) u
  end.
Fixpoint run_objects (work : object -> M bool) (objects : list object) : M () :=
  match objects with
  | [] => ret ()
  | o :: r => do! done_ := try (work o) in do! _ := modify (count done_) in run_objects work r
  end.

(** What a deferred call does whatever happens. *)
Definition finally {A} (m : M A) (last : M ()) : M A := fun u =>
  let '(r, u) := m u in (r, (try last u).2).

Definition with_folding (k : M Z) : M Z :=
  do! r := try probeFolding in
  match r with
  | Err _ => ret 2
  | Ok (case, nfc) => do! _ := modify (set_folding case nfc) in k
  end.
Definition run_work (resealing : bool) (root : result string enc_node) : M Z :=
  do! _ := (if resealing then ret () else loadIndex) in
  let '(objects, failed) := collect root in
  do! _ := modify (fun u => set_counts (u_decrypted u) (u_unchanged u) (u_failed u + failed) u) in
  do! _ := run_objects (if resealing then reseal else open_object) objects in
  do! u := get in
  do! saved := match u_index u with Some index => try (saveIndex index) | None => ret (Ok ()) end in
  do! _ := modify (fun u => if is_ok saved then u else set_counts (u_decrypted u) (u_unchanged u) (u_failed u + 1) u) in
  do! u := get in
  ret (if 0 <? u_failed u then 1 else 0).
Definition run_all (resealing : bool) (root : result string enc_node) : M Z := with_folding (run_work resealing root).

(** [runCommand] behind its arguments, the identities and the roots: the exit code. *)
Definition runCommand (resealing : bool) (root : result string enc_node) : M Z :=
  do! r := try (do! _ := RemoveAll stagingDir in Mkdir stagingDir) in
  match r with
  | Err _ => ret 2
  | Ok _ => finally (run_all resealing root) (RemoveAll stagingDir)
  end.

Definition start (plain : out_tree) : unsealer := mkUnsealer plain 0 None ∅ ∅ false false 0 0 0.
End Tool.
