(* ===== verification/UnsealSafe.v ===== *)
(** What the custodian's tool promises, whatever the archive holds and whatever fails: it changes nothing but
    outputs below their install's directory, its index and its staging directory, and what its index named. *)

From S2P Require Import Prelude GoLib Crypto GoJson GoText Naming GoPath Vocab StateDoc Spec Manifest Heuristic Spans SourceFiles FleetSeen RepoFilter Discover Sessions Sealing Unseal.

(** ** What an operation changes *)

Section Frames.
Context {out_dir : OutDir}.

(** Only the output directory and the count of operations change, and only at names of [P]. *)
Definition fs_only {A} (P : string -> Prop) (m : M A) : Prop :=
  forall u, exists fs n, (m u).2 = set_ops n (set_plain fs u) /\ forall k, fs !! k = u_plain u !! k \/ P k.

Lemma fs_only_mono {A} (P Q : string -> Prop) (m : M A) : (forall k, P k -> Q k) -> fs_only P m -> fs_only Q m.
Proof. intros H Hm u. destruct (Hm u) as (fs & n & E & F). exists fs, n. split; [done|]. intros k. destruct (F k); auto. Qed.

Lemma fs_only_ret {A} P (a : A) : fs_only P (ret a).
Proof. intros u. exists (u_plain u), (u_ops u). split; [by destruct u|auto]. Qed.
Lemma fs_only_fail {A} P e : fs_only P (@fail A e).
Proof. intros u. exists (u_plain u), (u_ops u). split; [by destruct u|auto]. Qed.
Lemma fs_only_get P : fs_only P get.
Proof. intros u. exists (u_plain u), (u_ops u). split; [by destruct u|auto]. Qed.
Lemma fs_only_text {A} P (r : result string A) : fs_only P (text_result r).
Proof. destruct r; [apply fs_only_ret|apply fs_only_fail]. Qed.
Lemma fs_only_result {A} P (r : result error A) : fs_only P (of_result r).
Proof. destruct r; [apply fs_only_ret|apply fs_only_fail]. Qed.

Lemma fs_only_step {A B} P (m : M A) u (m' : M B) : fs_only P m -> fs_only P m' ->
  exists fs n, (m' (m u).2).2 = set_ops n (set_plain fs u) /\ forall k, fs !! k = u_plain u !! k \/ P k.
Proof.
  intros Hm Hm'. destruct (Hm u) as (fs & n & E & F). rewrite E.
  destruct (Hm' (set_ops n (set_plain fs u))) as (fs' & n' & -> & F'). exists fs', n'. split; [done|].
  intros k. destruct (F' k) as [->|]; [|auto]. apply F.
Qed.

(** What is done with a result is asked of the results there are. *)
Definition gives {A} (m : M A) (a : A) : Prop := exists u u', m u = (Done a, u').
Lemma fs_only_bind_gives {A B} P (m : M A) (k : A -> M B) :
  fs_only P m -> (forall a, gives m a -> fs_only P (k a)) -> fs_only P (bind m k).
Proof.
  intros Hm Hk u. pose proof (Hm u) as Hu. unfold bind. destruct (m u) as [[a|e|] u'] eqn:E; [|done..].
  pose proof (fs_only_step P m u (k a) Hm (Hk a ltac:(by exists u, u'))) as H. by rewrite E in H.
Qed.
Lemma fs_only_bind {A B} P (m : M A) (k : A -> M B) : fs_only P m -> (forall a, fs_only P (k a)) -> fs_only P (bind m k).
Proof. intros Hm Hk. apply fs_only_bind_gives; auto. Qed.
Lemma fs_only_try {A} P (m : M A) : fs_only P m -> fs_only P (try m).
Proof. intros Hm u. specialize (Hm u). unfold try. by destruct (m u) as [[a|e|] u']. Qed.

Lemma fs_only_io {A} (P : string -> Prop) (k : out_tree -> outcome A * out_tree) :
  (forall fs n, (k fs).2 !! n = fs !! n \/ P n) -> fs_only P (io k).
Proof.
  intros H u. unfold io. destruct (fault (u_ops u)).
  - exists (u_plain u), (S (u_ops u)). split; [done|auto].
  - specialize (H (u_plain u)). destruct (k (u_plain u)) as [r fs]. exists fs, (S (u_ops u)). split; [done|exact H].
Qed.
Lemma fs_only_io_at {A} (P : string -> Prop) p (k : option out_node -> out_tree -> outcome A * out_tree) :
  (forall fs n, (k (entry fs p) fs).2 !! n = fs !! n \/ P n) -> fs_only P (io_at p k).
Proof. intros H. unfold io_at. destruct (path_IsLocal p); [by apply fs_only_io|apply fs_only_fail]. Qed.

Ltac fs_step := repeat first
  [ apply fs_only_bind; [|intros ?] | apply fs_only_try | apply fs_only_ret | apply fs_only_fail | apply fs_only_get
  | apply fs_only_text | apply fs_only_result ].

Lemma insert_frame (P : string -> Prop) (fs : out_tree) k v n : P k -> <[k := v]> fs !! n = fs !! n \/ P n.
Proof. intros. destruct (decide (k = n)) as [<-|]; [auto|]. left. by apply lookup_insert_ne. Qed.
Lemma delete_frame (P : string -> Prop) (fs : out_tree) k n : P k -> delete k fs !! n = fs !! n \/ P n.
Proof. intros. destruct (decide (k = n)) as [<-|]; [auto|]. left. by apply lookup_delete_ne. Qed.

Lemma fs_Lstat P p : fs_only P (Lstat p).
Proof. apply fs_only_io_at. auto. Qed.
Lemma fs_Stat P p : fs_only P (Stat p).
Proof. apply fs_only_io_at. auto. Qed.
Lemma fs_ReadFile P p : fs_only P (ReadFile p).
Proof. apply fs_only_io_at. auto. Qed.
Lemma fs_flush P : fs_only P flush.
Proof. apply fs_only_io. auto. Qed.
Lemma fs_Remove (P : string -> Prop) p : P (canon p) -> fs_only P (Remove p).
Proof. intros. apply fs_only_io_at. intros fs n. destruct (entry fs p); [by apply delete_frame|auto]. Qed.
Lemma fs_put (P : string -> Prop) p body t : P (canon p) -> fs_only P (put p body t).
Proof. intros. apply fs_only_io_at. intros. by apply insert_frame. Qed.
Lemma fs_create (P : string -> Prop) excl p : P (canon p) -> fs_only P (create excl p).
Proof.
  intros. apply fs_only_io_at. intros fs n. repeat case_match; cbn; auto; by apply insert_frame.
Qed.
Lemma fs_Mkdir (P : string -> Prop) p : P (canon p) -> fs_only P (Mkdir p).
Proof. intros. apply fs_only_io_at. intros fs n. repeat case_match; cbn; auto; by apply insert_frame. Qed.
Lemma fs_Rename (P : string -> Prop) from to : P (canon from) -> (names_dir to = false -> P (canon to)) -> fs_only P (Rename from to).
Proof.
  intros Hf Ht. apply fs_only_io_at. intros fs n. destruct (entry fs from) as [o|]; [|auto].
  destruct (negb (path_IsLocal to)), (negb (parent_ok fs to)); auto.
  destruct (names_dir to), (is_dir _); auto. cbn.
  destruct (insert_frame P (delete (canon from) fs) (canon to) o n) as [->|]; auto. by apply delete_frame.
Qed.
Lemma fs_RemoveAll (P : string -> Prop) p : (forall k, below (canon p) k = true -> P k) -> fs_only P (RemoveAll p).
Proof.
  intros H. apply fs_only_io_at. intros fs n. cbn. destruct (below (canon p) n) eqn:E; [right; auto|left].
  rewrite map_lookup_filter. destruct (fs !! n) as [v|] eqn:En; [|done]. cbn. by rewrite option_guard_True by by rewrite E.
Qed.

(** The directories on the way to [p], below [d]. *)
Fixpoint ways (d : string) (segs : list string) : list string :=
  match segs with [] => [] | s :: r => path_Join d s :: ways (path_Join d s) r end.
Lemma mkdir_all_frame (P : string -> Prop) d segs fs n : (forall w, In w (ways d segs) -> P (canon w)) ->
  (mkdir_all d segs fs).2 !! n = fs !! n \/ P n.
Proof.
  revert d fs. induction segs as [|s r IH]; intros d fs H; cbn [mkdir_all ways] in *; [auto|].
  assert (forall fs', (mkdir_all (path_Join d s) r fs').2 !! n = fs' !! n \/ P n) as IH'.
  { intros fs'. apply IH. intros w Hw. apply H. by right. }
  destruct (fs !! canon (path_Join d s)) as [[]|]; cbn; auto.
  destruct (IH' (<[canon (path_Join d s) := ODir]> fs)) as [->|]; [|auto]. apply insert_frame, H. by left.
Qed.
Definition on_the_way (p w : string) : Prop := p <> "." /\ In w (ways "." (split_on "/" p)).
Lemma fs_MkdirAll (P : string -> Prop) p : (forall w, on_the_way p w -> P (canon w)) -> fs_only P (MkdirAll p).
Proof.
  intros H. apply fs_only_io_at. intros fs n. destruct (p =? ".")%string eqn:E; [auto|]. apply mkdir_all_frame.
  intros w Hw. apply H. split; [by apply String.eqb_neq|done].
Qed.

Lemma fs_refuse_other P p : fs_only P (refuse_other p).
Proof. unfold refuse_other. fs_step; [apply fs_Lstat|]. destruct a; [destruct (regular a)|]; fs_step. Qed.

Lemma fs_remove_each (P : string -> Prop) tmps : (forall t, In t tmps -> P (canon t)) -> fs_only P (remove_each tmps).
Proof.
  induction tmps as [|t tmps IH]; intros H; cbn; [apply fs_only_ret|]. fs_step; [apply fs_Remove, H; by left|].
  apply IH. intros. apply H. by right.
Qed.
Lemma fs_or_remove {A} (P : string -> Prop) tmps (m : M A) :
  (forall t, In t tmps -> P (canon t)) -> fs_only P m -> fs_only P (or_remove tmps m).
Proof. intros. unfold or_remove. fs_step; [done|]. destruct a; fs_step. by apply fs_remove_each. Qed.

(** ** Staged files *)

Definition staged (t : string) : Prop := exists n, t = path_Join stagingDir (tempName n).

Lemma gives_try {A} (m : M A) a : gives (try m) (Ok a) -> gives m a.
Proof. intros (u & u' & H). unfold try in H. destruct (m u) as [[x|e|] u1] eqn:E; simplify_eq/=. by exists u, u'. Qed.
Lemma gives_or_remove {A} tmps (m : M A) a : gives (or_remove tmps m) a -> gives m a.
Proof.
  intros (u & u' & H). unfold or_remove, bind, try in H. destruct (m u) as [[x|e|] u1] eqn:E; [| |done].
  - injection H as -> ->. by exists u, u'.
  - unfold fail in H. by destruct (remove_each tmps u1) as [[]].
Qed.
Lemma gives_stage {B} t (fill : M (string * B)) p : gives (stage t fill) p -> staged (fst p).
Proof.
  intros (u & u' & H). unfold stage, bind, get in H. destruct (create _ _ _) as [[[]|e|] u1]; [|done..].
  destruct (try _ u1) as [[[x|e]|e|] u2]; [|by unfold fail in H; destruct (try _ u2) as [[]]|done..].
  injection H as <- _. by eexists.
Qed.

Lemma fs_stage {B} (P : string -> Prop) t (fill : M (string * B)) :
  (forall tmp, staged tmp -> P (canon tmp)) -> fs_only P fill -> fs_only P (stage t fill).
Proof.
  intros HP Hf. unfold stage. apply fs_only_bind; [apply fs_only_get|intros u].
  assert (P (canon (path_Join stagingDir (tempName (u_ops u))))) as Ht by (apply HP; by eexists).
  fs_step; [by apply fs_create|done|by apply fs_put|apply fs_flush..|]. destruct a0; fs_step. by apply fs_Remove.
Qed.

Lemma fs_place (P : string -> Prop) p body t :
  (forall tmp, staged tmp -> P (canon tmp)) -> (forall w, on_the_way (path_Dir p) w -> P (canon w)) ->
  (names_dir p = false -> P (canon p)) -> fs_only P (place p body t).
Proof.
  intros Ht Hw Hp. unfold place. apply fs_only_bind; [by apply fs_MkdirAll|intros _].
  apply fs_only_bind; [apply fs_refuse_other|intros _].
  apply fs_only_bind_gives; [apply fs_stage; [done|apply fs_only_ret]|]. intros st Hst%gives_stage.
  apply fs_or_remove; [intros tmp [<-|[]]; auto|]. apply fs_Rename; auto.
Qed.
Lemma fs_write {age : Age} {frames : ZstdFrames} {mjson : ManifestJson} {tar_ext : TarExtensions} {texts : UnsealText}
    ids (P : string -> Prop) obj p t :
  (forall tmp, staged tmp -> P (canon tmp)) -> (forall w, on_the_way (path_Dir p) w -> P (canon w)) ->
  (names_dir p = false -> P (canon p)) -> (names_dir (p +:+ sidecarSuffix) = false -> P (canon (p +:+ sidecarSuffix))) ->
  fs_only P (write ids obj p t).
Proof.
  intros Ht Hw Hp Hs. unfold write. apply fs_only_bind; [by apply fs_MkdirAll|intros _].
  do 2 (apply fs_only_bind; [apply fs_refuse_other|intros _]).
  apply fs_only_bind_gives; [apply fs_stage; [done|]; unfold fill_payload; fs_step|]. intros [pl m] Hpl%gives_stage.
  apply fs_only_bind_gives.
  { apply fs_or_remove; [intros tmp [<-|[]]; auto|]. apply fs_stage; [done|]. unfold fill_sidecar. fs_step. }
  intros sd Hsd%gives_or_remove%gives_stage. apply fs_or_remove; [intros tmp [<-|[<-|[]]]; auto|].
  apply fs_only_bind; [|intros _]; apply fs_Rename; auto.
Qed.
End Frames.

(** ** Relative paths of plain segments *)

Lemma split_rel segs : segs <> [] -> Forall plain segs -> split_on "/" (join "/" segs) = segs.
Proof. intros Hn Hp. apply split_join; [done|by apply plain_no_slash]. Qed.

Lemma join_snoc init leaf : init <> [] -> join "/" (init ++ [leaf]) = join "/" init +:+ "/" +:+ leaf.
Proof.
  induction init as [|s init IH]; intros Hn; [done|]. destruct init as [|s' init]; [done|].
  change ((s :: s' :: init) ++ [leaf]) with (s :: ((s' :: init) ++ [leaf])).
  rewrite !join_cons, IH by (try done; by destruct init). by rewrite !string_app_assoc.
Qed.

Lemma clean_segs_rel stack segs : Forall plain segs -> Path.clean_segs false stack segs = rev stack ++ segs.
Proof.
  intros H. revert stack. induction H as [|s segs (H1 & H2 & H3 & _) H IH]; intros stack; cbn; [by rewrite app_nil_r|].
  apply String.eqb_neq in H1, H2, H3. rewrite H1, H2, H3. cbn. rewrite IH. cbn. by rewrite <- app_assoc.
Qed.

Lemma join_head s segs : plain s -> exists c r, join "/" (s :: segs) = String c r /\ (c =? "/")%char = false.
Proof.
  intros (H1 & _ & _ & H4). destruct s as [|c s]; [done|]. cbn in H4. apply andb_true_iff in H4 as [Hc _].
  apply negb_true_iff in Hc. destruct segs as [|s' segs]; [by exists c, s|]. rewrite join_cons by done.
  by eexists c, _.
Qed.

Lemma Clean_rel_after segs rest : segs <> [] -> Forall plain segs ->
  Path.clean_segs false (rev segs) (split_on "/" rest) <> [] ->
  Forall (fun s => s <> "") (Path.clean_segs false (rev segs) (split_on "/" rest)) ->
  Path.Clean (join "/" segs +:+ "/" +:+ rest) = join "/" (Path.clean_segs false (rev segs) (split_on "/" rest)).
Proof.
  intros Hn Hp Hne Hs. unfold Path.Clean. destruct segs as [|s segs]; [done|].
  destruct (join_head s segs) as (c & r & E & Hc); [by inversion Hp|].
  assert (has_prefix "/" (join "/" (s :: segs) +:+ "/" +:+ rest) = false) as ->.
  { rewrite E. cbn [String.append has_prefix]. rewrite Ascii.eqb_sym, Hc. done. }
  change ("/" +:+ rest) with (String "/" rest). rewrite split_on_sep_app, split_rel by done.
  assert (forall l st l', Forall plain l -> Path.clean_segs false st (l ++ l') = Path.clean_segs false (rev l ++ st) l') as Happ.
  { clear. intros l. induction l as [|y l IH]; intros st l' H; [done|]. inversion H as [|? ? (H1 & H2 & H3 & _) Hl]; subst.
    apply String.eqb_neq in H1, H2, H3. cbn [app Path.clean_segs]. rewrite H1, H2, H3. cbn. rewrite IH by done. by rewrite <- app_assoc. }
  rewrite Happ, app_nil_r by done. destruct (Path.clean_segs _ _ _) as [|x l]; [done|].
  assert (join "/" (x :: l) <> "") as Hj. { inversion Hs; subst. destruct l; [done|]. rewrite join_cons by done. by destruct x. }
  apply String.eqb_neq in Hj. by rewrite Hj.
Qed.

Lemma plain_nonempty segs : Forall plain segs -> Forall (fun s => s <> "") segs.
Proof. intros H. eapply Forall_impl; [exact H|]. by intros x (? & _). Qed.

Lemma path_Dir_rel init leaf : init <> [] -> Forall plain init -> no_byte "/" leaf = true ->
  path_Dir (join "/" (init ++ [leaf])) = join "/" init.
Proof.
  intros Hn Hp Hl. unfold path_Dir. rewrite split_join; [|by destruct init|by apply Forall_app; split; [apply plain_no_slash|constructor]].
  assert (exists x y l, init ++ [leaf] = x :: y :: l) as (x & y & l & E) by (destruct init as [|x [|y l]]; cbn; eauto; done).
  rewrite E. cbn iota. rewrite <- E, removelast_last.
  assert (Path.clean_segs false (rev init) (split_on "/" "") = init) as Hc by (cbn; by rewrite rev_involutive).
  change (join "/" init +:+ "/") with (join "/" init +:+ "/" +:+ ""). rewrite (Clean_rel_after init ""); [by rewrite Hc|done|done| |]; rewrite Hc; [done|by apply plain_nonempty].
Qed.

Lemma path_Join_dot s : plain s -> path_Join "." s = s.
Proof.
  intros (H1 & H2 & H3 & H4). unfold path_Join. apply String.eqb_neq in H1 as E1. rewrite E1. cbn [String.eqb Ascii.eqb Bool.eqb].
  change ("." +:+ "/" +:+ s) with ("." +:+ String "/" s). unfold Path.Clean. cbn [has_prefix String.append Ascii.eqb Bool.eqb andb].
  change (String "." (String "/" s)) with ("." +:+ String "/" s). rewrite split_on_sep_app, (plain_split s) by done.
  apply String.eqb_neq in H2, H3. cbn [split_on Ascii.eqb Bool.eqb app Path.clean_segs String.eqb orb].
  rewrite E1, H2, H3. cbn. by rewrite E1.
Qed.

Lemma path_Join_seg segs s : segs <> [] -> Forall plain segs -> plain s -> path_Join (join "/" segs) s = join "/" (segs ++ [s]).
Proof.
  intros Hn Hp (H1 & H2 & H3 & H4). unfold path_Join. apply String.eqb_neq in H1 as E1. rewrite E1.
  assert (join "/" segs <> "") as He%String.eqb_neq.
  { destruct segs as [|x segs]; [done|]. destruct (join_head x segs) as (c & r & -> & _); [by inversion Hp|done]. }
  rewrite He. apply String.eqb_neq in H2, H3.
  assert (Path.clean_segs false (rev segs) (split_on "/" s) = segs ++ [s]) as Hc.
  { rewrite plain_split by done. cbn. rewrite E1, H2, H3. cbn. by rewrite rev_involutive. }
  rewrite Clean_rel_after; rewrite ?Hc; try done; [by destruct segs|]. apply Forall_app. split; [by apply plain_nonempty|].
  constructor; [by apply String.eqb_neq|done].
Qed.

(** The directories on the way to a path are its beginnings. *)
Lemma ways_from init segs w : init <> [] -> Forall plain init -> Forall plain segs ->
  In w (ways (join "/" init) segs) -> exists s r, w = join "/" (init ++ s :: r) /\ Forall plain (s :: r).
Proof.
  revert init. induction segs as [|s segs IH]; intros init Hn Hi Hs; [done|]. inversion Hs; subst. cbn [ways].
  rewrite path_Join_seg by done. intros [<-|H].
  - exists s, []. split; [done|by constructor].
  - destruct (IH (init ++ [s])) as (s' & r & -> & Hr); [by destruct init|by apply Forall_app; split; [|constructor]|done|done|].
    exists s, (s' :: r). rewrite <- app_assoc. split; [done|by constructor].
Qed.
Lemma ways_below d segs w : plain d -> Forall plain segs -> In w (ways "." (d :: segs)) ->
  exists r, w = join "/" (d :: r) /\ Forall plain r.
Proof.
  intros Hd Hs. cbn [ways]. rewrite path_Join_dot by done. intros [<-|H]; [by exists []|].
  destruct (ways_from [d] segs w) as (s & r & -> & Hr); [done|by constructor|done|done|]. by exists (s :: r).
Qed.

Lemma last_snoc {A} (l : list A) x d : List.last (l ++ [x]) d = x.
Proof. apply List.last_last. Qed.

(** [Base] of a path that does not end in a slash is its last element. *)
Lemma Base_last p leaf : List.last (split_on "/" p) "" = leaf -> leaf <> "" -> Base p = leaf.
Proof.
  intros Hl Hne. unfold Base. destruct (p =? "")%string eqn:Ep; [apply String.eqb_eq in Ep as ->; cbn in Hl; congruence|].
  assert (no_byte "/" leaf = true) as Hs.
  { pose proof (split_on_segments "/" p) as Hf. rewrite List.Forall_forall in Hf. apply Hf. rewrite <- Hl.
    pose proof (split_on_nonempty "/" p). destruct (split_on "/" p) as [|x l]; [done|].
    destruct (exists_last (l:=x :: l) ltac:(done)) as (l' & y & ->). rewrite last_snoc. apply in_or_app. right. by left. }
  assert (exists a, p = a +:+ leaf) as [a ->].
  { rewrite <- (join_split "/" p). pose proof (split_on_nonempty "/" p). revert Hl. destruct (split_on "/" p) as [|x l]; [done|].
    destruct (exists_last (l:=x :: l) ltac:(done)) as (l' & y & ->). rewrite last_snoc. intros ->.
    destruct l' as [|z l']; [by exists ""|]. rewrite join_snoc by done. exists (join "/" (z :: l') +:+ "/"). by rewrite !string_app_assoc. }
  assert (strip_slashes (str_rev (a +:+ leaf)) = str_rev (a +:+ leaf)) as ->.
  { rewrite str_rev_append. destruct (str_rev leaf) as [|c r] eqn:E.
    - apply str_rev_nil in E. done.
    - assert (no_byte "/" (str_rev leaf) = true) as Hr by (unfold no_byte; by rewrite str_forallb_rev).
      rewrite E in Hr. cbn in Hr. apply andb_true_iff in Hr as [Hc _]. apply negb_true_iff in Hc. cbn. by rewrite Hc. }
  rewrite str_rev_involutive. rewrite Ep. exact Hl.
Qed.

(** ** The names of outputs *)

Section Names.
Context {age : Age} {frames : ZstdFrames} {mjson : ManifestJson} {tar_ext : TarExtensions} {laws : SealLaws}.
Context {enc : EncDir} {texts : UnsealText}.

(** An install's directory: its id, or a name followed by a part of it in brackets. *)
Definition top_dir (d : string) : Prop := plain d /\ (uuid_ok d = true \/ has_suffix ")" d = true).

(** Where an object may be written: [d/source/native], of which only the last element may be a dot or two,
    and then nothing is. *)
Definition raw_path (p : string) : Prop :=
  exists d init leaf, p = join "/" (d :: init ++ [leaf]) /\ top_dir d /\ init <> [] /\ Forall plain init /\
    leaf <> "" /\ no_byte "/" leaf = true.

Lemma plain_chars f s : s <> "" -> str_forallb f s = true -> f "/"%char = false -> f "."%char = false -> plain s.
Proof.
  intros Hn Hs Hslash Hdot. destruct s as [|c s]; [done|]. cbn in Hs. apply andb_true_iff in Hs as [Hc Hs].
  split_and!; [done|intros [= -> _]; congruence|intros [= -> _]; congruence|].
  apply (str_forallb_impl f); [|by cbn; rewrite Hc, Hs]. intros x Hx. apply negb_true_iff, Ascii.eqb_neq. intros ->. congruence.
Qed.

Lemma uuid_plain d : uuid_ok d = true -> plain d.
Proof.
  unfold uuid_ok. intros [H1 H2]%andb_true_iff. apply (plain_chars (fun c => is_hex c || (c =? "-")%char)); try done.
  intros ->. apply bool_decide_eq_true in H2. done.
Qed.
Lemma uuid_top d : uuid_ok d = true -> top_dir d.
Proof. intros H. split; [by apply uuid_plain|by left]. Qed.

Lemma identifier_plain s : identifier_ok s = true -> plain s.
Proof.
  destruct s as [|c s]; [done|]. unfold identifier_ok. intros [[H1 H2]%andb_true_iff _]%andb_true_iff.
  apply (plain_chars (fun c => is_lower c || is_digit c || (c =? "-")%char)); try done. cbn [str_forallb]. by rewrite H1, H2.
Qed.

Lemma existsb_no_byte f s c : str_existsb f s = false -> f c = true -> no_byte c s = true.
Proof.
  intros H Hc. induction s as [|x s IH]; [done|]. rewrite str_existsb_cons in H. apply orb_false_iff in H as [Hx Hs].
  apply andb_true_iff. split; [|exact (IH Hs)]. apply negb_true_iff, Ascii.eqb_neq. intros ->. congruence.
Qed.

Lemma installName_safe raw name : installName raw = Ok name -> name <> "" -> no_byte "/" name = true.
Proof.
  unfold installName. intros H Hn. repeat case_match; simplify_eq/=.
  repeat match goal with H : (_ || _)%bool = false |- _ => apply orb_false_iff in H as [? ?] end.
  by apply (existsb_no_byte unsafe_byte).
Qed.

Lemma has_suffix_app a b : has_suffix b (a +:+ b) = true.
Proof. unfold has_suffix. rewrite str_rev_append. apply has_prefix_spec. by eexists. Qed.

Lemma plain_end a b : b <> "" -> no_byte "/" (a +:+ b) = true -> has_suffix "." b = false -> plain (a +:+ b).
Proof.
  intros Hb Hs Hd. assert (forall d, has_suffix "." d = true -> a +:+ b <> d) as H.
  { intros d Hsuf E. subst d. unfold has_suffix in *. rewrite str_rev_append in Hsuf. destruct (str_rev b) as [|c r] eqn:Er.
    - by apply str_rev_nil in Er.
    - pose proof (eq_trans (eq_sym Hsuf) Hd). done. }
  split_and!; [|by apply H|by apply H|done]. destruct a; [done|done].
Qed.

Lemma install_dir_top id raw : uuid_ok id = true -> top_dir (install_dir_of id raw).
Proof.
  intros Hid. unfold install_dir_of. destruct (installName raw) as [name|e] eqn:E; [|by apply uuid_top].
  destruct name as [|c name]; [by apply uuid_top|]. set (n := String c name) in *.
  pose proof (installName_safe raw n E ltac:(done)) as Hn. destruct (uuid_plain id Hid) as (_ & _ & _ & Hslash).
  assert (n +:+ " (" +:+ str_take 8 id +:+ ")" = (n +:+ " (" +:+ str_take 8 id) +:+ ")") as -> by (by rewrite !string_app_assoc).
  split; [|right; apply has_suffix_app]. apply plain_end; [done| |done].
  rewrite !no_byte_app, Hn, no_byte_take by done. done.
Qed.

(** *** Native paths *)

Lemma native_segs_plain acc segs l : Forall plain acc -> Forall (fun s => no_byte "/" s = true) segs ->
  native_segs acc segs = Ok l -> Forall plain l.
Proof.
  revert acc. induction segs as [|s segs IH]; intros acc Ha Hs H; cbn in H.
  { injection H as <-. by apply List.Forall_rev. }
  inversion Hs; subst. destruct (_ || _) eqn:E1; [by eapply IH|]. destruct (_ =? "..")%string eqn:E2; [done|].
  destruct (str_existsb _ s); [done|]. boolp. eapply IH; [|done|exact H]. constructor; [|done].
  assert (plain s) as Hp by done. destruct acc; [|done]. destruct (drive_letter s) eqn:Ed; [|done].
  destruct s as [|c [|d [|]]]; try done. unfold drive_letter in Ed. apply andb_true_iff in Ed as [_ Hc]. cbn.
  apply (plain_chars isASCIILetter); [done|by cbn; rewrite Hc|done|done].
Qed.

Lemma nativeRelPath_plain native p : nativeRelPath native = Ok p ->
  exists init leaf, p = join "/" (init ++ [leaf]) /\ Forall plain (init ++ [leaf]).
Proof.
  unfold nativeRelPath. intros H. apply rbind_Ok in H as (segs & Hs & H). destruct segs as [|s segs]; [done|]. injection H as <-.
  destruct (exists_last (l:=s :: segs) ltac:(done)) as (init & leaf & E). exists init, leaf. rewrite <- E. split; [done|].
  eapply native_segs_plain; [|apply split_on_segments|exact Hs]. constructor.
Qed.

Lemma plain_native_leaf init leaf : Forall plain (init ++ [leaf]) ->
  exists leaf', plain_native (join "/" (init ++ [leaf])) = join "/" (init ++ [leaf']) /\ leaf' <> "" /\ no_byte "/" leaf' = true.
Proof.
  intros Hp. apply Forall_app in Hp as Hp'. destruct Hp' as [Hi Hl]. inversion Hl as [|? ? (H1 & _ & _ & H4) _]; subst.
  assert (Base (join "/" (init ++ [leaf])) = leaf) as HB.
  { apply Base_last; [|done]. rewrite split_rel by (done || by destruct init). apply last_snoc. }
  unfold plain_native. rewrite HB. destruct (_ && _) eqn:E; [|by exists leaf]. boolp.
  match goal with H : has_suffix _ _ = true |- _ => rename H into Hz end.
  assert (exists l, leaf = l +:+ ".zst") as [l ->].
  { unfold has_suffix in Hz. apply has_prefix_spec in Hz as [r Hr]. exists (str_rev r).
    rewrite <- (str_rev_involutive leaf), Hr, str_rev_append, str_rev_involutive. done. }
  assert (trim_suffix ".zst" (join "/" (init ++ [l +:+ ".zst"])) = join "/" (init ++ [l])) as ->.
  { unfold trim_suffix. destruct init as [|s init].
    - change (default (l +:+ ".zst") (cut_suffix ".zst" (l +:+ ".zst")) = l).
      by rewrite (proj2 (cut_suffix_spec ".zst" (l +:+ ".zst") l) eq_refl).
    - rewrite !join_snoc by done. by rewrite (proj2 (cut_suffix_spec ".zst" _ (join "/" (s :: init) +:+ "/" +:+ l)))
        by (by rewrite !string_app_assoc). }
  exists l. split_and!; [done| |].
  - intros ->. rewrite slen_app in *. change (slen "") with 0 in *. change (slen ".zst") with 4 in *. lia.
  - rewrite no_byte_app in H4. by apply andb_true_iff in H4 as [? _].
Qed.

Lemma raw_path_of d s init leaf : top_dir d -> plain s -> Forall plain init -> leaf <> "" -> no_byte "/" leaf = true ->
  raw_path (d +:+ "/" +:+ s +:+ "/" +:+ join "/" (init ++ [leaf])).
Proof.
  intros. exists d, (s :: init), leaf. split_and!; try done; [|by constructor].
  change ((s :: init) ++ [leaf]) with (s :: (init ++ [leaf])). rewrite !join_cons by (done || by destruct init). done.
Qed.

(** *** Beside another output *)

Lemma split_dot_suffix name ext x l : rev (split_on "." name) = ext :: x :: l -> exists stem, name = stem +:+ "." +:+ ext.
Proof.
  intros H. rewrite <- (join_split "." name). apply (f_equal (@rev string)) in H. rewrite rev_involutive in H. rewrite H.
  cbn [rev]. exists (String.concat "." (rev l ++ [x])).
  assert (forall (l : list string) y, l <> [] -> String.concat "." (l ++ [y]) = String.concat "." l +:+ "." +:+ y) as Hc.
  { clear. intros l y. induction l as [|a [|b l] IH]; intros Hn; [done|done|].
    change (String.concat "." ((a :: b :: l) ++ [y])) with (a +:+ "." +:+ String.concat "." ((b :: l) ++ [y])).
    rewrite IH by done. cbn [String.concat]. by rewrite !string_app_assoc. }
  unfold join. apply Hc. by destruct (rev l).
Qed.

Lemma path_Ext_leaf init leaf : Forall (fun s => no_byte "/" s = true) (init ++ [leaf]) ->
  exists stem, leaf = stem +:+ path_Ext (join "/" (init ++ [leaf])).
Proof.
  intros Hp. unfold path_Ext. rewrite split_join by (done || by destruct init). rewrite last_snoc.
  destruct (rev (split_on "." leaf)) as [|ext [|x l]] eqn:E; [exists leaf; by rewrite string_app_nil_r..|].
  destruct (split_dot_suffix leaf ext x l E) as (stem & ->). by exists stem.
Qed.

Definition beside_tag (rel : string) : string := str_take 8 (trim_suffix ".age" (Base rel)).
Lemma besideName_leaf d init leaf rel : no_byte "/" d = true -> Forall plain init -> no_byte "/" leaf = true ->
  exists stem, leaf = stem +:+ path_Ext leaf /\
    besideName (join "/" (d :: init ++ [leaf])) rel = join "/" (d :: init ++ [stem +:+ "~" +:+ beside_tag rel +:+ path_Ext leaf]).
Proof.
  intros Hd Hi Hl. unfold besideName. fold (beside_tag rel).
  assert (Forall (fun s => no_byte "/" s = true) ((d :: init) ++ [leaf])) as Hall.
  { apply Forall_app. split; [|by constructor]. constructor; [done|by apply plain_no_slash]. }
  assert (path_Ext (join "/" (d :: init ++ [leaf])) = path_Ext leaf) as Eext.
  { unfold path_Ext. change (d :: init ++ [leaf]) with ((d :: init) ++ [leaf]). rewrite split_join by done.
    rewrite last_snoc, plain_split by done. done. }
  rewrite Eext. destruct (path_Ext_leaf [] leaf) as (stem & Hstem); [by constructor|]. change (join "/" ([] ++ [leaf])) with leaf in Hstem.
  set (ext := path_Ext leaf) in *. exists stem. split; [exact Hstem|].
  assert (trim_suffix ext (join "/" (d :: init ++ [leaf])) = join "/" (d :: init ++ [stem])) as ->.
  { unfold trim_suffix. rewrite (proj2 (cut_suffix_spec ext _ (join "/" (d :: init ++ [stem])))); [done|].
    rewrite Hstem at 1. change (d :: init ++ [stem +:+ ext]) with ((d :: init) ++ [stem +:+ ext]).
    change (d :: init ++ [stem]) with ((d :: init) ++ [stem]). rewrite !join_snoc by done. by rewrite !string_app_assoc. }
  change (d :: init ++ ?l) with ((d :: init) ++ l). rewrite !join_snoc by done. by rewrite !string_app_assoc.
Qed.

Lemma besideName_path p rel : raw_path p -> no_byte "/" (Base rel) = true -> raw_path (besideName p rel).
Proof.
  intros (d & init & leaf & -> & Hd & Hn & Hi & Hl1 & Hl2) Hrel.
  assert (no_byte "/" (beside_tag rel) = true) as Htag.
  { apply no_byte_take. unfold trim_suffix. destruct (cut_suffix ".age" (Base rel)) as [r|] eqn:E; [|done].
    apply cut_suffix_spec in E. rewrite E, no_byte_app in Hrel. by apply andb_true_iff in Hrel as [? _]. }
  destruct (besideName_leaf d init leaf rel) as (stem & Hstem & ->); [apply Hd|done|done|].
  set (ext := path_Ext leaf) in *. rewrite Hstem, no_byte_app in Hl2. apply andb_true_iff in Hl2 as [Hs1 Hs2].
  exists d, init, (stem +:+ "~" +:+ beside_tag rel +:+ ext). split_and!; try done; [by destruct stem|].
  by rewrite !no_byte_app, Hs1, Htag, Hs2.
Qed.

(** What [ReadManifest] accepts satisfies the schema. *)
Lemma DecodeManifest_schema raw m : DecodeManifest raw = Ok m -> schema_ids m.
Proof.
  unfold DecodeManifest, validateManifestBytes. destruct (ValidateRaw raw) eqn:Ev; [done|]. cbn.
  destruct (Unmarshal_manifest raw) as [m'|] eqn:Em; [|done]. cbn. destruct (negb _); [done|]. intros [= ->].
  by eapply schema_accepts.
Qed.
Lemma ReadManifest_schema r ids m : ReadManifest r ids = Ok m -> schema_ids m.
Proof.
  unfold ReadManifest. intros H. apply rbind_Ok in H as (tr & _ & H). apply rbind_Ok in H as ([m' r'] & H & [= ->]).
  unfold readManifestEntry in H. inv_ok. by eapply DecodeManifest_schema.
Qed.
End Names.

(** ** Confinement *)

Section Confined.
Context {age : Age} {frames : ZstdFrames} {mjson : ManifestJson} {tar_ext : TarExtensions} {laws : SealLaws}.
Context {out_dir : OutDir} {enc : EncDir} {texts : UnsealText} {unicode : GoUnicode}.
Variables (ids resealTo : list string) (plain0 : out_tree).

(** What the index file said when the run began. *)
Definition indexed (p : string) : Prop :=
  exists body t index k, plain0 !! canon indexName = Some (OFile body t) /\
    Unmarshal_index body = Some (Some index) /\ index !! k = Some p.

(** The names a run may change: the staging directory, the index, outputs with their sidecars and the
    directories they are in, and outputs of earlier runs that moved. *)
Inductive touched : string -> Prop :=
  | t_staging k : below (canon stagingDir) k = true -> touched k
  | t_index : touched (canon indexName)
  | t_output d segs : top_dir d -> Forall plain segs -> touched (canon (join "/" (d :: segs)))
  | t_moved p : indexed p -> touched (canon p)
  | t_moved_sidecar p : indexed p -> touched (canon (p +:+ sidecarSuffix)).

Definition known (u : unsealer) : Prop :=
  (forall k d, u_installDirs u !! k = Some d -> top_dir d) /\
  (forall index k p, u_index u = Some index -> index !! k = Some p -> indexed p \/ raw_path p).
Definition unchanged_but (P : string -> Prop) (fs fs' : out_tree) : Prop := forall k, fs' !! k = fs !! k \/ P k.

(** A computation that touches nothing else, whose results satisfy [Q]. *)
Definition confined {A} (m : M A) (Q : A -> Prop) : Prop :=
  forall u, known u -> known (m u).2 /\ unchanged_but touched (u_plain u) (u_plain (m u).2) /\
    forall a, (m u).1 = Done a -> Q a.

Lemma confined_bind {A B} (m : M A) (k : A -> M B) Q Q' :
  confined m Q -> (forall a, Q a -> confined (k a) Q') -> confined (bind m k) Q'.
Proof.
  intros Hm Hk u Hu. destruct (Hm u Hu) as (Hu' & Hf & HQ). unfold bind.
  destruct (m u) as [[a|e|] u'] eqn:E; cbn in *; [|by split_and!..].
  destruct (Hk a (HQ a eq_refl) u' Hu') as (Hu2 & Hf2 & HQ2). split_and!; [done| |done].
  intros k'. destruct (Hf2 k') as [->|]; [apply Hf|by right].
Qed.
Lemma confined_try {A} (m : M A) Q : confined m Q -> confined (try m) (fun r => match r with Ok a => Q a | Err _ => True end).
Proof.
  intros Hm u Hu. destruct (Hm u Hu) as (Hu' & Hf & HQ). unfold try.
  destruct (m u) as [[a|e|] u'] eqn:E; cbn in *; split_and!; try done; intros r [= <-]; [by apply HQ|done].
Qed.
Lemma confined_mono {A} (m : M A) (Q Q' : A -> Prop) : (forall a, Q a -> Q' a) -> confined m Q -> confined m Q'.
Proof. intros H Hm u Hu. destruct (Hm u Hu) as (? & ? & ?). split_and!; auto. Qed.
Lemma confined_ret {A} (a : A) (Q : A -> Prop) : Q a -> confined (ret a) Q.
Proof. intros H u Hu. split_and!; [done|by left|]. by intros a' [= <-]. Qed.
Lemma confined_fail {A} e (Q : A -> Prop) : confined (fail e) Q.
Proof. intros u Hu. split_and!; [done|by left|done]. Qed.
Lemma confined_get : confined get known.
Proof. intros u Hu. split_and!; [done|by left|]. by intros a [= <-]. Qed.
Lemma confined_text {A} (r : result string A) (Q : A -> Prop) : (forall a, r = Ok a -> Q a) -> confined (text_result r) Q.
Proof. destruct r; intros H; [by apply confined_ret, H|apply confined_fail]. Qed.
Lemma confined_result {A} (r : result error A) (Q : A -> Prop) : (forall a, r = Ok a -> Q a) -> confined (of_result r) Q.
Proof. destruct r; intros H; [by apply confined_ret, H|apply confined_fail]. Qed.
Lemma confined_fs {A} (m : M A) : fs_only touched m -> confined m (gives m).
Proof.
  intros Hm u Hu. pose proof (Hm u) as (fs & n & E & F). split_and!; [|by rewrite E|].
  - rewrite E. exact Hu.
  - intros a Ha. exists u, (m u).2. rewrite <- Ha. by destruct (m u).
Qed.
Lemma confined_modify f : (forall u, known u -> known (f u) /\ u_plain (f u) = u_plain u) -> confined (modify f) (fun _ => True).
Proof. intros H u Hu. destruct (H u Hu) as [? E]. cbn. split_and!; [done|rewrite E; by left|done]. Qed.

Lemma leaf_cases d init leaf : top_dir d -> Forall plain init -> leaf <> "" -> no_byte "/" leaf = true ->
  names_dir (join "/" (d :: init ++ [leaf])) = false -> touched (canon (join "/" (d :: init ++ [leaf]))).
Proof.
  intros Hd Hi Hl1 Hl2 Hn. apply t_output; [done|]. apply Forall_app. split; [done|]. constructor; [|done].
  unfold names_dir in Hn. rewrite split_join in Hn.
  - change (d :: init ++ [leaf]) with ((d :: init) ++ [leaf]) in Hn. rewrite last_snoc in Hn. boolp. done.
  - done.
  - constructor; [apply Hd|]. apply Forall_app. split; [by apply plain_no_slash|by constructor].
Qed.

Lemma raw_touched p : raw_path p ->
  (names_dir p = false -> touched (canon p)) /\ touched (canon (p +:+ sidecarSuffix)) /\
  (forall w, on_the_way (path_Dir p) w -> touched (canon w)).
Proof.
  intros (d & init & leaf & -> & Hd & Hn & Hi & Hl1 & Hl2). split_and!.
  - by apply leaf_cases.
  - change (d :: init ++ [leaf]) with ((d :: init) ++ [leaf]). rewrite join_snoc by done.
    replace ((join "/" (d :: init) +:+ "/" +:+ leaf) +:+ sidecarSuffix) with (join "/" ((d :: init) ++ [leaf +:+ sidecarSuffix]))
      by (rewrite join_snoc by done; by rewrite !string_app_assoc).
    apply (t_output d (init ++ [leaf +:+ sidecarSuffix])); [done|]. apply Forall_app. split; [done|]. constructor; [|done].
    apply plain_end; [done|by rewrite no_byte_app, Hl2|done].
  - intros w. change (d :: init ++ [leaf]) with ((d :: init) ++ [leaf]).
    assert (Forall plain (d :: init)) as Hp by (constructor; [apply Hd|done]).
    rewrite path_Dir_rel by done. intros [_ Hw]. rewrite split_rel in Hw by done. destruct (ways_below d init w) as (r & -> & Hr); [apply Hd|done|done|].
    by apply t_output.
Qed.

Hypothesis tempName_plain : forall n, plain (tempName n).
Hypothesis staged_below : forall p, plain p -> below (canon stagingDir) (canon (path_Join stagingDir p)) = true.

Lemma staged_touched t : staged t -> touched (canon t).
Proof. intros [n ->]. by apply t_staging, staged_below. Qed.

Lemma gives_Lstat p n : gives (Lstat p) n -> regular n = true -> names_dir p = false.
Proof.
  intros (u & u' & H) Hr. unfold Lstat, io_at in H. destruct (path_IsLocal p); [|done]. unfold io in H.
  destruct (fault _); [done|]. unfold entry in H. destruct (names_dir p); [|done].
  destruct (is_dir _); simplify_eq/=.
Qed.

Lemma confined_removeSuperseded o prev : indexed prev \/ raw_path prev -> confined (removeSuperseded o prev) (fun _ => True).
Proof.
  intros Hprev. assert (names_dir prev = false -> touched (canon prev)) as H1.
  { intros Hn. destruct Hprev as [|H]; [by apply t_moved|]. destruct (raw_touched prev H) as (T & _). by apply T. }
  assert (touched (canon (prev +:+ sidecarSuffix))) as H2.
  { destruct Hprev as [|H]; [by apply t_moved_sidecar|]. by destruct (raw_touched prev H) as (_ & T & _). }
  unfold removeSuperseded. eapply confined_bind; [apply confined_get|]. intros u _.
  destruct (match claimedBy u prev with Some _ => _ | None => _ end); [by apply confined_ret|].
  eapply (confined_mono _ (gives _)); [done|]. apply confined_fs.
  apply fs_only_bind; [apply fs_only_try|intros; apply fs_only_ret].
  apply fs_only_bind_gives; [apply fs_Lstat|]. intros n Hn. destruct (regular n) eqn:Er; [|apply fs_only_fail].
  pose proof (gives_Lstat _ _ Hn Er). cbn [negb].
  apply fs_only_bind; [apply fs_Lstat|]. intros n'. destruct (negb (regular n')); [apply fs_only_fail|].
  apply fs_only_bind; [by apply fs_Remove, H1|]. intros _. by apply fs_Remove.
Qed.

Lemma confined_outputPath o m : schema_ids m -> confined (outputPath o m) raw_path.
Proof.
  intros (Hi & Hs & _). unfold outputPath. eapply confined_bind; [by apply (confined_text _ (fun _ => keyMatches o m = Ok ())); intros []|].
  cbv beta. intros [] Hk. assert (m_InstallID m = obj_installID o) as Eid.
  { unfold keyMatches in Hk. inv_ok. by boolp. }
  eapply confined_bind; [apply (confined_text _ (fun native => nativeRelPath (m_NativePath m) = Ok native)); by intros a ->|].
  intros native Hn. eapply confined_bind.
  - instantiate (1 := top_dir). intros u Hu. unfold installDir. destruct (u_installDirs u !! installRel o) as [d|] eqn:Ed.
    { split_and!; [done|by left|]. intros a [= <-]. by eapply Hu. }
    destruct (readTags _) as [raw|e]; cbn; split_and!; try done; try (by left).
    + split; [|apply Hu]. intros k d. cbn. intros [[_ <-]|[_ Hd]]%lookup_insert_Some; [|by eapply Hu].
      apply install_dir_top. by rewrite <- Eid.
    + intros a [= <-]. apply install_dir_top. by rewrite <- Eid.
  - intros d Hd. apply confined_ret. destruct (nativeRelPath_plain _ _ Hn) as (init & leaf & -> & Hp).
    destruct (plain_native_leaf init leaf Hp) as (leaf' & -> & H1 & H2). apply Forall_app in Hp as [Hp _].
    apply raw_path_of; try done. by apply identifier_plain.
Qed.

Lemma confined_open_object o : no_byte "/" (Base (rel o)) = true -> confined (open_object ids o) (fun _ => True).
Proof.
  intros Hrel. unfold open_object.
  eapply confined_bind; [by apply (confined_text _ (fun _ => True))|]. intros [obj info] _.
  eapply confined_bind; [apply (confined_result _ schema_ids); by intros m Hm%ReadManifest_schema|]. intros m Hm.
  eapply confined_bind; [by apply confined_outputPath|]. intros out Hout.
  eapply confined_bind.
  { instantiate (1 := raw_path). intros u Hu. unfold claim. destruct (claimedBy u out) as [prev|].
    - destruct (claimedBy u _); cbn; split_and!; try done; try (by left). intros a [= <-]. by apply besideName_path.
    - cbn. split_and!; [done|by left|]. by intros a [= <-]. }
  clear out Hout. intros out Hout. destruct (raw_touched out Hout) as (T1 & T2 & T3).
  eapply confined_bind.
  { eapply confined_mono, confined_fs; [done|]. unfold upToDate. apply fs_only_bind; [apply fs_only_try, fs_Stat|].
    intros [[]|]; try apply fs_only_ret. destruct (negb _); [apply fs_only_ret|].
    apply fs_only_bind; [apply fs_only_text|]. intros want. apply fs_only_bind; [apply fs_only_try, fs_ReadFile|]. intros. apply fs_only_ret. }
  intros ok _. eapply confined_bind.
  { eapply confined_mono; [|apply confined_fs]; [done|]. destruct ok; [apply fs_only_ret|].
    apply fs_write; try done. apply staged_touched. }
  intros _ _. eapply confined_bind; [apply confined_get|]. intros u [_ Hindex].
  eapply confined_bind.
  { instantiate (1 := fun _ => True). destruct (superseded u o out) as [prev|] eqn:Es; [|by apply confined_ret].
    apply confined_removeSuperseded. unfold superseded in Es. destruct (u_index u) as [index|] eqn:Ei; [|done].
    cbn in Es. destruct (index !! key o) as [[|c p]|] eqn:Ek; try done. cbn in Es. destruct (_ =? _)%string; [done|].
    injection Es as <-. by eapply Hindex. }
  intros _ _. eapply confined_bind.
  { instantiate (1 := fun _ => True). intros u' [Hd Hi]. unfold record_output. destruct (u_index u') as [index|] eqn:Ei; cbn.
    - split_and!; [|by left|done]. split; [done|]. cbn. intros index' k p [= <-] [[_ <-]|[_ Hk]]%lookup_insert_Some; [by right|].
      by eapply Hi.
    - split_and!; [|by left|done]. split; [done|]. by rewrite Ei. }
  intros _ _. by apply confined_ret.
Qed.

(** *** The objects of the archive *)

Lemma tail_leaf segs : tailMatches segs objectLayout = true -> List.last segs "" <> "".
Proof.
  unfold tailMatches. destruct (_ <? _) eqn:El; [done|]. apply Z.ltb_ge in El. change (Zlen objectLayout) with 4 in El.
  unfold Zlen in El. change (length objectLayout) with 4%nat.
  rewrite <- (take_drop (length segs - 4) segs) at 3. set (t := drop (length segs - 4) segs).
  assert (length t = 4%nat) as Ht by (unfold t; rewrite length_drop; lia).
  destruct t as [|x1 [|x2 [|x3 [|x4 [|]]]]]; try done. intros H.
  replace (take (length segs - 4) segs ++ [x1; x2; x3; x4]) with ((take (length segs - 4) segs ++ [x1; x2; x3]) ++ [x4])
    by (by rewrite <- app_assoc). rewrite last_snoc. intros ->.
  cbn [zip zip_with objectLayout forallb] in H. repeat (apply andb_true_iff in H as [? H]). done.
Qed.

Definition archived (o : object) : Prop := exists p, o = object_at p /\ tailMatches (split_on "/" p) objectLayout = true.
Lemma collect_events acc evs : Forall archived acc.1 -> Forall archived (foldl collect_event acc evs).1.
Proof.
  revert acc. induction evs as [|[p what] evs IH]; intros [objects failed] H; [done|]. cbn [foldl]. apply IH.
  unfold collect_event. destruct what as [reg|]; [|done]. destruct (tailMatches _ _) eqn:Et; [|done]. destruct reg; [|done].
  apply Forall_app. split; [done|]. constructor; [|done]. by exists p.
Qed.
Lemma collect_archived root : Forall archived (collect root).1.
Proof. apply collect_events. constructor. Qed.

Lemma archived_base o : archived o -> no_byte "/" (Base (rel o)) = true.
Proof.
  intros (p & -> & Ht). cbn [rel object_at]. pose proof (tail_leaf _ Ht) as Hne. rewrite (Base_last p _ eq_refl Hne).
  pose proof (split_on_segments "/" p) as Hs. pose proof (split_on_nonempty "/" p). destruct (split_on "/" p) as [|x l]; [done|].
  destruct (exists_last (l:=x :: l) ltac:(done)) as (l' & y & E). rewrite E in *. rewrite last_snoc.
  apply Forall_app in Hs as [_ Hs]. by inversion Hs.
Qed.

Lemma confined_run_objects objects : Forall archived objects ->
  confined (run_objects (open_object ids) objects) (fun _ => True).
Proof.
  induction 1 as [|o objects Ho Hobjects IH]; [by apply confined_ret|]. cbn [run_objects].
  eapply confined_bind; [apply confined_try, confined_open_object, archived_base, Ho|]. intros r _.
  eapply confined_bind; [apply confined_modify|]; [|intros _ _; exact IH].
  intros u Hu. destruct r as [[]|]; done.
Qed.

(** *** The whole run *)

Hypothesis index_apart : below (canon stagingDir) (canon indexName) = false.
Hypothesis index_no_link : forall to, plain0 !! canon indexName <> Some (OLink to).

Definition in_staging (k : string) : Prop := below (canon stagingDir) k = true.
Definition fresh (u : unsealer) : Prop := known u /\ u_plain u !! canon indexName = plain0 !! canon indexName.

Lemma fresh_fs {A} (m : M A) u : fresh u -> fs_only in_staging m ->
  fresh (m u).2 /\ unchanged_but touched (u_plain u) (u_plain (m u).2).
Proof.
  intros [Hk Hi] Hm. destruct (Hm u) as (fs & n & -> & F). split.
  - split; [exact Hk|]. cbn. destruct (F (canon indexName)) as [->|H]; [done|]. unfold in_staging in H. congruence.
  - intros k. destruct (F k) as [E|H]; [by left|right; by apply t_staging].
Qed.

Lemma plain_marked c s : no_byte "/" (String c s) = true -> (c =? ".")%char = false -> forall t, plain t -> plain (String c s +:+ t).
Proof.
  intros Hs Hc t (_ & _ & _ & Ht). split_and!; [done|intros [= -> _]; by cbn in Hc|intros [= -> _]; by cbn in Hc|].
  by rewrite no_byte_app, Hs.
Qed.

Lemma fs_probe : fs_only in_staging probeFolding.
Proof.
  unfold probeFolding. apply fs_only_bind; [apply fs_only_get|intros u].
  apply fs_only_bind; [apply fs_create, staged_below, plain_marked; done|intros _].
  apply fs_only_bind; [apply fs_only_try, fs_Stat|intros r].
  apply fs_only_bind; [apply fs_create, staged_below, plain_marked; done|intros _].
  apply fs_only_bind; [apply fs_only_try, fs_Stat|intros r']. apply fs_only_ret.
Qed.

Lemma load_known u : fresh u -> known (loadIndex u).2 /\ unchanged_but touched (u_plain u) (u_plain (loadIndex u).2).
Proof.
  intros [[Hd Hi] E]. unfold loadIndex, bind, try, ReadFile, io_at, io, modify.
  assert (known (set_index (Some ∅) u)) as Hnone by (split; [done|]; intros ? ? ? [= <-]; by rewrite lookup_empty).
  destruct (path_IsLocal indexName); [|split; [done|by left]].
  destruct (fault (u_ops u)); [split; [done|by left]|]. cbv beta.
  assert (entry (u_plain u) indexName = plain0 !! canon indexName) as En by (unfold entry; change (names_dir indexName) with false; done).
  rewrite En. destruct (plain0 !! canon indexName) as [[body t| |to|]|] eqn:E0; cbn; try (split; [done|by left]).
  - split; [|by left]. destruct (Unmarshal_index body) as [[index|]|] eqn:Eu; [| |done].
    + split; [done|]. cbn. intros index' k p [= <-] Hk. left. by exists body, t, index, k.
    + by split.
  - by destruct (index_no_link to).
Qed.

Lemma confined_saveIndex index : confined (saveIndex index) (fun _ => True).
Proof.
  unfold saveIndex. eapply confined_bind; [apply confined_get|]. intros u _. eapply confined_mono, confined_fs; [done|].
  apply fs_place; [apply staged_touched|by intros w [[] _]|intros _; apply t_index].
Qed.

Lemma run_work_frame root u : fresh u -> unchanged_but touched (u_plain u) (u_plain (run_work ids resealTo false root u).2).
Proof.
  intros Hu. destruct (load_known u Hu) as [Hk F]. unfold run_work, bind at 1.
  destruct (loadIndex u) as [[[]|e|] u2] eqn:El; cbn [snd] in *; try exact F.
  pose proof (collect_archived root) as Ho. destruct (collect root) as [objects failed]. cbn [fst] in Ho.
  match goal with |- unchanged_but _ _ (u_plain (?m u2).2) => enough (confined m (fun _ => True)) as Hm end.
  { destruct (Hm u2 Hk) as (_ & F3 & _). intros k. destruct (F3 k) as [->|]; [apply F|by right]. }
  eapply confined_bind; [by apply confined_modify|]. intros _ _.
  eapply confined_bind; [by apply confined_run_objects|]. intros _ _.
  eapply confined_bind; [apply confined_get|]. intros u' _.
  eapply confined_bind; [instantiate (1 := fun _ => True)|].
  { destruct (u_index u'); [|by apply confined_ret]. eapply confined_mono; [|apply confined_try, confined_saveIndex]; done. }
  intros saved _. eapply confined_bind; [apply confined_modify; intros; by destruct (is_ok saved)|]. intros _ _.
  eapply confined_bind; [apply confined_get|]. intros. by apply confined_ret.
Qed.

Lemma run_all_frame root u : fresh u -> unchanged_but touched (u_plain u) (u_plain (run_all ids resealTo false root u).2).
Proof.
  intros Hu. unfold run_all, with_folding.
  destruct (fresh_fs (try probeFolding) u Hu (fs_only_try _ _ fs_probe)) as [Hu1 F1]. unfold bind at 1.
  destruct (try probeFolding u) as [[[[case nfc]|e]|e|] u1]; cbn [snd] in *; try exact F1.
  unfold bind, modify. intros k.
  destruct (run_work_frame root (set_folding case nfc u1) Hu1 k) as [->|]; [apply F1|by right].
Qed.

(** C13: Whatever a copy of the archive holds and whatever fails, [open] changes nothing of its output directory
    but the staging directory, its index, files and directories below a directory of an install at paths of
    plain elements, and the outputs the index named before. *)
Theorem open_confined root :
  unchanged_but touched plain0 (u_plain (runCommand ids resealTo false root (start plain0)).2).
Proof.
  unfold runCommand.
  assert (fresh (start plain0)) as Hu by (split; [split|]; cbn; try done; intros k d; by rewrite lookup_empty).
  assert (fs_only in_staging (RemoveAll stagingDir)) as Hrm by (by apply fs_RemoveAll).
  assert (fs_only in_staging (try (do! _ := RemoveAll stagingDir in Mkdir stagingDir))) as Hs.
  { apply fs_only_try, fs_only_bind; [done|intros _]. apply fs_Mkdir. unfold in_staging, below. by rewrite String.eqb_refl. }
  destruct (fresh_fs _ _ Hu Hs) as [Hu1 F1]. unfold bind at 1.
  destruct (try _ (start plain0)) as [[[[]|e]|e|] u1]; cbn [snd] in *; try exact F1.
  unfold finally. pose proof (run_all_frame root u1 Hu1) as F2. destruct (run_all ids resealTo false root u1) as [r u2].
  cbn [snd] in *. destruct (fs_only_try _ _ Hrm u2) as (fs & n & -> & F3). intros k. cbn.
  destruct (F3 k) as [->|H]; [|right; by apply t_staging]. destruct (F2 k) as [->|]; [apply F1|by right].
Qed.
End Confined.
