(* ===== verification/UnsealRun.v ===== *)
(** Runs of the custodian's tool in which nothing fails: what [open] counts as opened is there to read, whole
    and under one name each; a run that is cut between two renames is not made good by the next; and
    [reseal] adds recipients to an object and changes nothing else. *)

From S2P Require Import Prelude GoLib Crypto GoJson GoText Naming GoPath Vocab StateDoc Spec Manifest Heuristic Spans Deny SourceFiles FleetSeen RepoFilter Discover Sessions Sealing Unseal UnsealSafe.

(** ** What the operations do when nothing fails *)

Section Calm.
Context {out_dir : OutDir}.
Hypothesis no_faults : forall n, fault n = None.

(** The state after an operation: its tree, and the count. *)
Definition after (u : unsealer) (fs : out_tree) (n : nat) : unsealer := set_ops n (set_plain fs u).

Lemma after_after u fs n fs' n' : after (after u fs n) fs' n' = after u fs' n'.
Proof. done. Qed.
Lemma u_plain_after u fs n : u_plain (after u fs n) = fs.
Proof. done. Qed.
Lemma u_ops_after u fs n : u_ops (after u fs n) = n.
Proof. done. Qed.
Lemma after_same u : after u (u_plain u) (u_ops u) = u.
Proof. by destruct u. Qed.

Lemma io_calm {A} (k : out_tree -> outcome A * out_tree) u :
  io k u = ((k (u_plain u)).1, after u (k (u_plain u)).2 (S (u_ops u))).
Proof. unfold io. rewrite no_faults. by destruct (k (u_plain u)). Qed.

(** Whatever it answers, an operation of this kind changes nothing. *)
Definition looks {A} (m : M A) : Prop := forall u, exists n, (m u).2 = after u (u_plain u) n.
Lemma looks_fs {A} (m : M A) : fs_only (fun _ => False) m -> looks m.
Proof.
  intros H u. destruct (H u) as (fs & n & E & F). exists n. rewrite E. unfold after. do 2 f_equal.
  apply map_eq. intros k. by destruct (F k).
Qed.

Lemma refuse_calm p u : exists n r, refuse_other p u = (r, after u (u_plain u) n) /\ r <> Panic /\
  (r = Done () -> path_IsLocal p = true -> entry (u_plain u) p = None \/ exists body t, entry (u_plain u) p = Some (OFile body t)).
Proof.
  destruct (looks_fs (refuse_other p) (fs_refuse_other _ p) u) as [n E]. exists n, (refuse_other p u).1.
  split; [rewrite <- E; by destruct (refuse_other p u)|]. clear E n.
  unfold refuse_other, bind, try, Lstat, io_at. destruct (path_IsLocal p); [rewrite io_calm; cbn|done].
  destruct (entry (u_plain u) p) as [[]|]; cbn; split; try done; eauto.
Qed.

Lemma MkdirAll_calm p u : exists fs n r, MkdirAll p u = (r, after u fs n) /\ r <> Panic /\
  forall k, fs !! k = u_plain u !! k \/ (u_plain u !! k = None /\ fs !! k = Some ODir).
Proof.
  unfold MkdirAll, io_at. destruct (path_IsLocal p); [|exists (u_plain u), (u_ops u); eexists; rewrite after_same; split; [reflexivity|split; [done|auto]]].
  rewrite io_calm. eexists _, _, _. split; [reflexivity|]. destruct (p =? ".")%string; [cbn; auto|].
  generalize "."%string as d. generalize (split_on "/" p) as segs. generalize (u_plain u) as fs0.
  intros fs0 segs. revert fs0. induction segs as [|s segs IH]; intros fs0 d; cbn [mkdir_all]; [auto|].
  destruct (fs0 !! canon (path_Join d s)) as [[]|] eqn:E; cbn; try (split; [done|by auto]); [apply IH|].
  destruct (IH (<[canon (path_Join d s) := ODir]> fs0) (path_Join d s)) as [Hr Hf]. split; [done|]. intros k.
  destruct (decide (k = canon (path_Join d s))) as [->|Hk].
  - destruct (Hf (canon (path_Join d s))) as [->|[H _]]; rewrite lookup_insert_eq in *; [by right|done].
  - destruct (Hf k) as [->|[H1 H2]]; rewrite lookup_insert_ne in * by done; auto.
Qed.

(** A file is staged under a name nothing had, or not at all. *)
Lemma stage_calm {B} t (fill : M (string * B)) r u : (forall u, fill u = (r, u)) -> r <> Panic ->
  let tmp := path_Join stagingDir (tempName (u_ops u)) in
  exists fs n res, stage t fill u = (res, after u fs n) /\ res <> Panic /\
    (forall k, k <> canon tmp -> fs !! k = u_plain u !! k) /\
    forall x, res = Done x -> exists body, r = Done (body, snd x) /\ fst x = tmp /\ path_IsLocal tmp = true /\
      entry (u_plain u) tmp = None /\ fs !! canon tmp = Some (OFile body t).
Proof.
  intros Hfill Hr tmp. unfold stage, bind at 1, get. cbv beta iota. fold tmp. clearbody tmp. unfold bind at 1, create, io_at at 1.
  destruct (path_IsLocal tmp) eqn:Hl.
  2:{ exists (u_plain u), (u_ops u). eexists. rewrite after_same. by split_and!. }
  rewrite io_calm. cbn [fst snd].
  destruct (negb (parent_ok (u_plain u) tmp)); cbn.
  { eexists (u_plain u), _, _. split; [reflexivity|]. by split_and!. }
  destruct (entry (u_plain u) tmp) eqn:En; cbn.
  { eexists (u_plain u), _, _. split; [reflexivity|]. by split_and!. }
  unfold bind, try. rewrite Hfill. destruct r as [[body x]|e|]; [| |done].
  - unfold put, flush, io_at, ret. rewrite Hl. repeat (rewrite io_calm; cbn).
    exists (<[canon tmp := OFile body t]> (<[canon tmp := OFile "" 0]> (u_plain u))). eexists _, _. split; [reflexivity|]. split_and!; [done| |].
    + intros k Hk. by rewrite !lookup_insert_ne.
    + intros x' [= <-]. exists body. split_and!; try done. by rewrite lookup_insert_eq.
  - unfold Remove, io_at, fail. rewrite Hl, io_calm. cbn.
    destruct (entry (<[canon tmp:=OFile "" 0]> (u_plain u)) tmp); cbn.
    + exists (delete (canon tmp) (<[canon tmp := OFile "" 0]> (u_plain u))). eexists _, _. split; [reflexivity|].
      split_and!; [done| |done]. intros k Hk. by rewrite lookup_delete_ne, lookup_insert_ne.
    + exists (<[canon tmp := OFile "" 0]> (u_plain u)). eexists _, _. split; [reflexivity|].
      split_and!; [done| |done]. intros k Hk. by rewrite lookup_insert_ne.
Qed.

Lemma Rename_calm from to u : exists fs n r, Rename from to u = (r, after u fs n) /\ r <> Panic /\
  (r = Done () -> exists f, path_IsLocal from = true /\ path_IsLocal to = true /\ entry (u_plain u) from = Some f /\
     parent_ok (u_plain u) to = true /\ names_dir to = false /\ is_dir (u_plain u !! canon to) = false /\
     fs = <[canon to := f]> (delete (canon from) (u_plain u))) /\
  (r <> Done () -> fs = u_plain u) /\
  (path_IsLocal from = true -> path_IsLocal to = true -> forall f, entry (u_plain u) from = Some f ->
     parent_ok (u_plain u) to = true -> names_dir to = false -> is_dir (u_plain u !! canon to) = false -> r = Done ()).
Proof.
  unfold Rename, io_at. destruct (path_IsLocal from) eqn:Hf.
  2:{ exists (u_plain u), (u_ops u). eexists. rewrite after_same. by split_and!. }
  rewrite io_calm. destruct (entry (u_plain u) from) as [f|]; cbn.
  2:{ eexists (u_plain u), _, _. split; [reflexivity|]. by split_and!. }
  destruct (path_IsLocal to); cbn; [|eexists (u_plain u), _, _; split; [reflexivity|]; by split_and!].
  destruct (parent_ok (u_plain u) to); cbn; [|eexists (u_plain u), _, _; split; [reflexivity|]; by split_and!].
  destruct (names_dir to); cbn; [eexists (u_plain u), _, _; split; [reflexivity|]; by split_and!|].
  destruct (is_dir (u_plain u !! canon to)); cbn; [eexists (u_plain u), _, _; split; [reflexivity|]; by split_and!|].
  eexists _, _, _. split; [reflexivity|]. split_and!; try done. intros _. by exists f.
Qed.

Lemma remove_each_calm (P : string -> Prop) tmps u : (forall t, In t tmps -> P (canon t)) ->
  exists fs n, remove_each tmps u = (Done (), after u fs n) /\ forall k, fs !! k = u_plain u !! k \/ P k.
Proof.
  intros H. destruct (fs_remove_each P tmps H u) as (fs & n & E & F). exists fs, n. split; [|done].
  enough ((remove_each tmps u).1 = Done ()) as E1 by (unfold after; rewrite <- E, <- E1; by destruct (remove_each tmps u)).
  clear E F fs n H. revert u. induction tmps as [|t tmps IH]; intros u; [done|]. cbn [remove_each]. unfold bind at 1, try.
  assert (forall r u', Remove t u = (r, u') -> r <> Panic) as Hr.
  { unfold Remove, io_at. intros r u'. destruct (path_IsLocal t); [rewrite io_calm; destruct (entry _ t); cbn|]; by intros [= <- _]. }
  destruct (Remove t u) as [[]]; [apply IH..|]. by specialize (Hr _ _ eq_refl).
Qed.
End Calm.

(** ** Writing an output *)

Ltac tidy := rewrite ?after_after, ?u_plain_after, ?u_ops_after in *.

Section Outputs.
Context {age : Age} {frames : ZstdFrames} {mjson : ManifestJson} {tar_ext : TarExtensions} {laws : SealLaws}.
Context {out_dir : OutDir} {enc : EncDir} {texts : UnsealText} {unicode : GoUnicode}.

(** The file system keeps staged files apart from outputs, whatever it folds. *)
Class OutLaws : Prop := {
  no_faults n : fault n = None;
  tempName_plain n : plain (tempName n);
  staged_below p : plain p -> below (canon stagingDir) (canon (path_Join stagingDir p)) = true;
  output_apart d segs : top_dir d -> Forall plain segs ->
    below (canon stagingDir) (canon (join "/" (d :: segs))) = false;
  index_apart : below (canon stagingDir) (canon indexName) = false;
  index_output d segs : top_dir d -> Forall plain segs -> canon (join "/" (d :: segs)) <> canon indexName;
  canon_suffix p q : raw_path p -> raw_path q ->
    canon p = canon q <-> canon (p +:+ sidecarSuffix) = canon (q +:+ sidecarSuffix);
  sidecar_tells m m' side : sidecarJSON m = Ok side -> sidecarJSON m' = Ok side -> ShippedHash m = ShippedHash m'
}.
Context {fs_laws : OutLaws}.

(** The path of an output that is a file's, and no sidecar's. *)
Definition session_path (q : string) : Prop :=
  raw_path q /\ names_dir q = false /\ forall p, canon q <> canon (p +:+ sidecarSuffix).

Lemma session_plain q : raw_path q -> names_dir q = false ->
  exists d init leaf, q = join "/" (d :: init ++ [leaf]) /\ top_dir d /\ init <> [] /\ Forall plain init /\ plain leaf.
Proof.
  intros (d & init & leaf & -> & Hd & Hn & Hi & Hl1 & Hl2) Hdir. exists d, init, leaf. split_and!; try done.
  unfold names_dir in Hdir. rewrite split_join in Hdir.
  - change (d :: init ++ [leaf]) with ((d :: init) ++ [leaf]) in Hdir. rewrite last_snoc in Hdir. by boolp.
  - done.
  - constructor; [apply Hd|]. apply Forall_app. split; [by apply plain_no_slash|by constructor].
Qed.

(** An output and its sidecar are below an install's directory, at paths of plain elements. *)
Lemma raw_sidecar q : raw_path q -> exists d segs, q +:+ sidecarSuffix = join "/" (d :: segs) /\ top_dir d /\ Forall plain segs.
Proof.
  intros (d & init & leaf & -> & Hd & Hn & Hi & Hl1 & Hl2). exists d, (init ++ [leaf +:+ sidecarSuffix]). split_and!.
  - change (d :: init ++ ?l) with ((d :: init) ++ l). rewrite !join_snoc by done. by rewrite !string_app_assoc.
  - done.
  - apply Forall_app. split; [done|]. constructor; [|done]. apply plain_end; [done|by rewrite no_byte_app, Hl2|done].
Qed.
Lemma session_segs q : raw_path q -> names_dir q = false -> exists d segs, q = join "/" (d :: segs) /\ top_dir d /\ Forall plain segs.
Proof.
  intros Hq Hn. destruct (session_plain q Hq Hn) as (d & init & leaf & -> & Hd & _ & Hi & Hl). exists d, (init ++ [leaf]).
  split_and!; [done|done|]. apply Forall_app. split; [done|by constructor].
Qed.

Lemma not_staged q : raw_path q -> names_dir q = false -> below (canon stagingDir) (canon q) = false.
Proof. intros Hq Hn. destruct (session_segs q Hq Hn) as (d & segs & -> & ? & ?). by apply output_apart. Qed.
Lemma sidecar_not_staged q : raw_path q -> below (canon stagingDir) (canon (q +:+ sidecarSuffix)) = false.
Proof. intros Hq. destruct (raw_sidecar q Hq) as (d & segs & -> & ? & ?). by apply output_apart. Qed.

Lemma plain_local segs : forall n, Forall plain segs -> stays_local n segs = true.
Proof.
  induction segs as [|s segs IH]; intros n H; [done|]. inversion H as [|? ? (H1 & H2 & H3 & _) Hs]; subst. cbn.
  apply String.eqb_neq in H1, H2, H3. rewrite H1, H2, H3. by apply IH.
Qed.
Lemma segs_local d segs : plain d -> Forall plain segs -> path_IsLocal (join "/" (d :: segs)) = true.
Proof.
  intros Hd Hs. assert (Forall plain (d :: segs)) as Hp by (by constructor). unfold path_IsLocal. rewrite split_rel by done.
  rewrite plain_local by done. destruct (join_head d segs Hd) as (c & r & E & Hc). rewrite E.
  change (Deny.IsAbs (String c r)) with (("/" =? c)%char && true). rewrite Ascii.eqb_sym, Hc. done.
Qed.

Lemma names_dir_rel d segs : plain d -> Forall plain segs -> names_dir (join "/" (d :: segs)) = false.
Proof.
  intros Hd Hs. assert (Forall plain (d :: segs)) as Hp by (by constructor). unfold names_dir. rewrite split_rel by done.
  destruct (exists_last (l:=d :: segs) ltac:(done)) as (l & x & E). rewrite E, last_snoc. rewrite E in Hp.
  apply Forall_app in Hp as [_ Hx]. inversion Hx as [|? ? (_ & H2 & H3 & _) _]; subst.
  apply String.eqb_neq in H2, H3. by rewrite H2, H3.
Qed.

Lemma staged_name n : path_Join stagingDir (tempName n) = join "/" [stagingDir; tempName n].
Proof.
  assert (plain stagingDir) by done. change stagingDir with (join "/" [stagingDir]) at 1.
  rewrite (path_Join_seg [stagingDir]); [done|done|by constructor|apply tempName_plain].
Qed.
Lemma staged_entry fs n : entry fs (path_Join stagingDir (tempName n)) = fs !! canon (path_Join stagingDir (tempName n)).
Proof. unfold entry. rewrite staged_name, names_dir_rel; [done|done|constructor; [apply tempName_plain|done]]. Qed.
Lemma staged_in n : below (canon stagingDir) (canon (path_Join stagingDir (tempName n))) = true.
Proof. apply staged_below, tempName_plain. Qed.

(** What changes besides an output: staged files, and directories that were not there. *)
Definition quiet (fs fs' : out_tree) (k : string) : Prop :=
  fs' !! k = fs !! k \/ below (canon stagingDir) k = true \/ (fs !! k = None /\ fs' !! k = Some ODir).

Lemma quiet_trans fs fs1 fs2 k : quiet fs fs1 k -> quiet fs1 fs2 k -> quiet fs fs2 k.
Proof.
  intros [E1|[H1|[N1 D1]]] [E2|[H2|[N2 D2]]]; unfold quiet; auto; try congruence.
  - left. congruence.
  - right. right. split; congruence.
  - right. right. split; congruence.
Qed.

Lemma or_remove_calm {A} tmps (m : M A) u fs n r : m u = (r, after u fs n) -> r <> Panic ->
  (forall t, In t tmps -> below (canon stagingDir) (canon t) = true) ->
  exists fs' n', or_remove tmps m u = (r, after u fs' n') /\ (forall a, r = Done a -> fs' = fs) /\
    forall k, fs' !! k = fs !! k \/ below (canon stagingDir) k = true.
Proof.
  intros E Hr Ht. unfold or_remove, bind at 1, try. rewrite E. destruct r as [a|e|]; [| |done].
  - exists fs, n. split_and!; auto.
  - destruct (remove_each_calm no_faults (fun k => below (canon stagingDir) k = true) tmps (after u fs n) Ht) as (fs' & n' & E' & F).
    exists fs', n'. split_and!; [|done|exact F]. unfold bind. rewrite E'. done.
Qed.

Record pair_written (out : string) (fs : out_tree) (m : Manifest) (body : string) : Prop := {
  pw_body : exists t, fs !! canon out = Some (OFile body t);
  pw_side : exists side t, sidecarJSON m = Ok side /\ fs !! canon (out +:+ sidecarSuffix) = Some (OFile side t)
}.

Lemma renames_calm out pl sd body t side t' u m :
  session_path out -> sidecarJSON m = Ok side ->
  path_IsLocal pl = true -> path_IsLocal sd = true -> canon pl <> canon sd ->
  below (canon stagingDir) (canon pl) = true -> below (canon stagingDir) (canon sd) = true -> names_dir pl = false ->
  u_plain u !! canon pl = Some (OFile body t) -> entry (u_plain u) sd = Some (OFile side t') ->
  u_plain u !! canon sd = Some (OFile side t') ->
  (u_plain u !! canon out = None \/ exists b t, u_plain u !! canon out = Some (OFile b t)) ->
  exists fs n r, (do! _ := Rename sd (out +:+ sidecarSuffix) in Rename pl out) u = (r, after u fs n) /\ r <> Panic /\
    match r with
    | Done _ => pair_written out fs m body /\
                forall k, k <> canon out -> k <> canon (out +:+ sidecarSuffix) -> fs !! k = u_plain u !! k \/ below (canon stagingDir) k = true
    | _ => fs = u_plain u
    end.
Proof.
  intros (Hraw & Hdir & Hfree) Hside Lpl Lsd Hne Bpl Bsd Npl Epl Esd Lk Hout. unfold bind.
  destruct (Rename_calm no_faults sd (out +:+ sidecarSuffix) u) as (fs1 & n1 & r1 & -> & P1 & D1 & F1 & _).
  destruct r1 as [[]|e|]; [|exists fs1, n1; eexists; split_and!; [reflexivity|done|by apply F1]|done].
  destruct (D1 eq_refl) as (f & _ & Lside & Ef & Hpar & _ & Hnd & ->). rewrite Esd in Ef. injection Ef as <-.
  set (fs1 := <[canon (out +:+ sidecarSuffix) := OFile side t']> (delete (canon sd) (u_plain u))).
  pose proof (not_staged out Hraw Hdir) as Bout. pose proof (sidecar_not_staged out Hraw) as Bside.
  assert (canon out <> canon (out +:+ sidecarSuffix)) as Hos by (apply Hfree).
  assert (fs1 !! canon pl = Some (OFile body t)) as Epl1.
  { unfold fs1. rewrite lookup_insert_ne, lookup_delete_ne by congruence. done. }
  assert (fs1 !! canon out = u_plain u !! canon out) as Eout1.
  { unfold fs1. rewrite lookup_insert_ne, lookup_delete_ne by congruence. done. }
  destruct (Rename_calm no_faults pl out (after u fs1 n1)) as (fs2 & n2 & r2 & E2 & P2 & D2 & F2 & G2).
  assert (r2 = Done ()) as ->.
  { apply (G2 Lpl) with (f := OFile body t).
    - destruct (session_segs out Hraw Hdir) as (d & segs & -> & [Hd _] & Hs). by apply segs_local.
    - unfold entry. rewrite Npl. exact Epl1.
    - destruct Hraw as (d & init & leaf & Eo & Hd & Hn & Hi & Hl1 & Hl2). unfold parent_ok in *.
      assert (path_Dir (out +:+ sidecarSuffix) = path_Dir out) as Edir.
      { assert (Forall plain (d :: init)) as Hp by (constructor; [apply Hd|done]).
        subst out. change (d :: init ++ [leaf]) with ((d :: init) ++ [leaf]).
        assert (join "/" ((d :: init) ++ [leaf]) +:+ sidecarSuffix = join "/" ((d :: init) ++ [leaf +:+ sidecarSuffix])) as ->
          by (rewrite !join_snoc by done; by rewrite !string_app_assoc).
        rewrite !path_Dir_rel; try done. by rewrite no_byte_app, Hl2. }
      rewrite Edir in Hpar. apply orb_true_iff in Hpar as [->|Hdirs]; [done|]. apply orb_true_iff. right.
      tidy. unfold fs1.
      rewrite lookup_insert_ne by (intros E; rewrite E in Hnd; congruence).
      rewrite lookup_delete_ne by (intros E; rewrite <- E, Lk in Hdirs; done). exact Hdirs.
    - done.
    - tidy. rewrite Eout1. destruct Hout as [->|(? & ? & ->)]; done. }
  destruct (D2 eq_refl) as (f & _ & _ & Ef & _ & _ & _ & ->).
  assert (f = OFile body t) as ->. { unfold entry in Ef. rewrite Npl in Ef. cbn in Ef. congruence. }
  exists (<[canon out := OFile body t]> (delete (canon pl) fs1)), n2, (Done ()). split; [exact E2|]. split; [done|]. split.
  - split; [exists t; by rewrite lookup_insert_eq|]. exists side, t'. split; [done|].
    rewrite lookup_insert_ne, lookup_delete_ne by congruence. unfold fs1. by rewrite lookup_insert_eq.
  - intros k H1 H2. destruct (below (canon stagingDir) k) eqn:B; [by right|left].
    rewrite lookup_insert_ne, lookup_delete_ne by congruence. unfold fs1.
    by rewrite lookup_insert_ne, lookup_delete_ne by congruence.
Qed.
(** Writing an output either leaves what was there, or puts the object's payload and its sidecar. *)
Lemma write_calm ids obj out t u : session_path out ->
  exists fs n r, write ids obj out t u = (r, after u fs n) /\ r <> Panic /\
    match r with
    | Done _ => exists m body, OpenTo obj ids = Ok (m, body) /\ pair_written out fs m body /\
        forall k, k <> canon out -> k <> canon (out +:+ sidecarSuffix) -> quiet (u_plain u) fs k
    | _ => forall k, quiet (u_plain u) fs k
    end.
Proof.
  intros Hses. pose proof Hses as (Hraw & Hdir & Hfree). unfold write.
  pose proof (not_staged out Hraw Hdir) as Bout.
  assert (path_IsLocal out = true) as Lout.
  { destruct (session_segs out Hraw Hdir) as (d & segs & -> & [Hd _] & Hs). by apply segs_local. }
  destruct (MkdirAll_calm no_faults (path_Dir out) u) as (fs0 & n0 & r0 & E0 & P0 & F0). unfold bind at 1. rewrite E0.
  assert (forall k, quiet (u_plain u) fs0 k) as Q0 by (intros k; destruct (F0 k); unfold quiet; tauto).
  destruct r0 as [[]|e|]; [|by exists fs0, n0; eexists|done].
  destruct (refuse_calm no_faults out (after u fs0 n0)) as (n1 & r1 & E1 & P1 & O1). unfold bind at 1. rewrite E1.
  tidy.
  destruct r1 as [[]|e|]; [|by exists fs0, n1; eexists|done]. specialize (O1 eq_refl Lout).
  assert (entry fs0 out = fs0 !! canon out) as Een by (unfold entry; by rewrite Hdir). rewrite Een in O1.
  destruct (refuse_calm no_faults (out +:+ sidecarSuffix) (after u fs0 n1)) as (n2 & r2 & E2 & P2 & _). unfold bind at 1.
  rewrite E2. tidy.
  destruct r2 as [[]|e|]; [|by exists fs0, n2; eexists|done].
  destruct (stage_calm no_faults t (fill_payload ids obj)
              (match OpenTo obj ids with Ok (m, body) => Done (body, m) | Err e => Fail (Error e) end) (after u fs0 n2))
    as (fs3 & n3 & r3 & E3 & P3 & F3 & D3).
  { intros u0. unfold fill_payload, bind, of_result. by destruct (OpenTo obj ids) as [[]|]. }
  { by destruct (OpenTo obj ids) as [[]|]. }
  tidy. set (pl := path_Join stagingDir (tempName n2)) in *.
  pose proof (staged_in n2) as Bpl. fold pl in Bpl.
  unfold bind at 1. rewrite E3.
  assert (forall k, quiet (u_plain u) fs3 k) as Q3.
  { intros k. apply (quiet_trans _ fs0); [apply Q0|]. destruct (decide (k = canon pl)) as [->|Hk]; [by right; left|].
    left. by apply F3. }
  destruct r3 as [[pl' m]|e|]; [|by exists fs3, n3; eexists|done].
  destruct (D3 _ eq_refl) as (body & Hfill & Epl & Lpl & _ & Lk3). cbn [fst snd] in *. subst pl'.
  assert (OpenTo obj ids = Ok (m, body)) as Hopen. { destruct (OpenTo obj ids) as [[]|]; simplify_eq/=; done. }
  assert (fs3 !! canon out = fs0 !! canon out) as Eout3 by (apply F3; congruence).
  destruct (stage_calm no_faults t (fill_sidecar m)
              (match sidecarJSON m with Ok s => Done (s, ()) | Err e => Fail e end) (after u fs3 n3))
    as (fs4 & n4 & r4 & E4 & P4 & F4 & D4).
  { intros u0. unfold fill_sidecar, bind, text_result. by destruct (sidecarJSON m). }
  { by destruct (sidecarJSON m). }
  tidy.
  set (sd := path_Join stagingDir (tempName n3)) in *. pose proof (staged_in n3) as Bsd. fold sd in Bsd.
  destruct (or_remove_calm [pl] _ _ fs4 n4 r4 E4 P4) as (fs5 & n5 & E5 & S5 & F5); [by intros ? [<-|[]]|].
  unfold bind at 1. rewrite E5.
  assert (forall k, quiet (u_plain u) fs4 k) as Q4.
  { intros k. apply (quiet_trans _ fs3); [apply Q3|]. destruct (decide (k = canon sd)) as [->|Hk]; [by right; left|].
    left. by apply F4. }
  destruct r4 as [[sd' []]|e|]; [| |done].
  2:{ exists fs5, n5. eexists. split_and!; [reflexivity|done|]. intros k. apply (quiet_trans _ fs4); [apply Q4|].
      destruct (F5 k) as [E|]; [by left|by right; left]. }
  rewrite (S5 _ eq_refl) in *. clear fs5 S5 F5.
  destruct (D4 _ eq_refl) as (side & Hsd & Esd & Lsd & N4 & Lk4). cbn [fst snd] in *. subst sd'.
  assert (sidecarJSON m = Ok side) as Hside. { destruct (sidecarJSON m); simplify_eq/=; done. }
  unfold sd in N4. rewrite staged_entry in N4. fold sd in N4.
  assert (canon pl <> canon sd) as Hne by (intros E; rewrite <- E in N4; congruence).
  assert (fs4 !! canon pl = Some (OFile body t)) as Lpl4 by (rewrite F4 by done; exact Lk3).
  assert (names_dir pl = false) as Npl.
  { unfold pl. rewrite staged_name. apply names_dir_rel; [done|]. constructor; [apply tempName_plain|done]. }
  destruct (renames_calm out pl sd body t side t (after u fs4 n5) m Hses Hside Lpl Lsd Hne Bpl Bsd Npl)
    as (fs6 & n6 & r6 & E6 & P6 & D6).
  { exact Lpl4. } { unfold sd. rewrite staged_entry. exact Lk4. } { exact Lk4. }
  { tidy. rewrite (F4 (canon out)) by congruence. rewrite Eout3. exact O1. }
  tidy.
  destruct (or_remove_calm [pl; sd] _ (after u fs4 n5) fs6 n6 r6 E6 P6) as (fs7 & n7 & E7 & S7 & F7).
  { by intros ? [<-|[<-|[]]]. }
  exists fs7, n7, r6. split; [exact E7|]. split; [done|]. destruct r6 as [[]|e|]; [| |done].
  - rewrite (S7 _ eq_refl). destruct D6 as [Hw Hk]. exists m, body. split_and!; [done|done|]. intros k H1 H2.
    apply (quiet_trans _ fs4); [apply Q4|]. destruct (Hk k H1 H2) as [E|]; [by left|by right; left].
  - subst fs6. intros k. apply (quiet_trans _ fs4); [apply Q4|]. destruct (F7 k) as [E|]; [by left|by right; left].
Qed.

(** ** What a run keeps *)

(** Nobody has made the sidecar of one payload stand beside another of its size. *)
Definition vouched (fs : out_tree) (q : string) : Prop := forall body t side t' m,
  fs !! canon q = Some (OFile body t) -> fs !! canon (q +:+ sidecarSuffix) = Some (OFile side t') ->
  sidecarJSON m = Ok side -> slen body = PayloadSize m -> sha256_hex body = ShippedHash m.
Definition no_link (fs : out_tree) (k : string) : Prop := forall to, fs !! k <> Some (OLink to).
Definition consistent (fs : out_tree) : Prop := forall q, session_path q ->
  vouched fs q /\ no_link fs (canon q) /\ no_link fs (canon (q +:+ sidecarSuffix)).

(** An output is the payload of an object of manifest [m], under its sidecar. *)
Definition holds (fs : out_tree) (out : string) (m : Manifest) : Prop := exists body t side t',
  fs !! canon out = Some (OFile body t) /\ fs !! canon (out +:+ sidecarSuffix) = Some (OFile side t') /\
  sidecarJSON m = Ok side /\ sha256_hex body = ShippedHash m.

Definition session_quiet (fs fs' : out_tree) (k : string) : Prop :=
  fs' !! k = fs !! k \/ (fs !! k = None /\ fs' !! k = Some ODir) \/ fs' !! k = None.

Lemma holds_quiet fs fs' out m : fs' !! canon out = fs !! canon out ->
  fs' !! canon (out +:+ sidecarSuffix) = fs !! canon (out +:+ sidecarSuffix) -> holds fs out m -> holds fs' out m.
Proof. intros E1 E2 (body & t & side & t' & H). exists body, t, side, t'. by rewrite E1, E2. Qed.

Lemma consistent_at fs fs' q : session_quiet fs fs' (canon q) -> session_quiet fs fs' (canon (q +:+ sidecarSuffix)) ->
  vouched fs q /\ no_link fs (canon q) /\ no_link fs (canon (q +:+ sidecarSuffix)) ->
  vouched fs' q /\ no_link fs' (canon q) /\ no_link fs' (canon (q +:+ sidecarSuffix)).
Proof.
  intros H1 H2 (Hv & L1 & L2). split_and!.
  - intros body t side t' m E1 E2. destruct H1 as [H1|[[_ H1]|H1]], H2 as [H2|[[_ H2]|H2]]; try congruence.
    rewrite H1 in E1. rewrite H2 in E2. by apply (Hv body t side t').
  - intros to E. destruct H1 as [H1|[[_ H1]|H1]]; [apply (L1 to)|..]; congruence.
  - intros to E. destruct H2 as [H2|[[_ H2]|H2]]; [apply (L2 to)|..]; congruence.
Qed.

Lemma quiet_session fs fs' q : session_path q -> quiet fs fs' (canon q) -> session_quiet fs fs' (canon q).
Proof. intros (Hr & Hd & _) [E|[H|H]]; unfold session_quiet; auto. by rewrite not_staged in H. Qed.
Lemma quiet_sidecar fs fs' q : session_path q -> quiet fs fs' (canon (q +:+ sidecarSuffix)) ->
  session_quiet fs fs' (canon (q +:+ sidecarSuffix)).
Proof. intros (Hr & Hd & _) [E|[H|H]]; unfold session_quiet; auto. by rewrite sidecar_not_staged in H. Qed.

(** Writing a pair keeps the tree consistent. *)
Lemma pair_consistent fs fs' out m body : session_path out -> pair_written out fs' m body -> ShippedHash m = sha256_hex body ->
  (forall k, k <> canon out -> k <> canon (out +:+ sidecarSuffix) -> quiet fs fs' k) -> consistent fs -> consistent fs'.
Proof.
  intros Hout Hw Hh Hq Hc q Hqs. pose proof Hout as (Ho1 & _ & Ho3). pose proof Hqs as (Hq1 & _ & Hq3).
  destruct Hw as [[t Et] (side & t' & Hside & Es)].
  destruct (decide (canon q = canon out)) as [E|Hne].
  - pose proof (proj1 (canon_suffix q out Hq1 Ho1) E) as E'. split_and!.
    + intros b t1 s t2 m' H1 H2 Hs _. rewrite E, Et in H1. rewrite E', Es in H2. injection H1 as <- _. injection H2 as <- _.
      rewrite <- Hh. by apply (sidecar_tells m m' side).
    + intros to. by rewrite E, Et.
    + intros to. by rewrite E', Es.
  - apply (consistent_at fs).
    + apply quiet_session; [done|]. apply Hq; [done|]. apply Hq3.
    + apply quiet_sidecar; [done|]. apply Hq; [intros E; by apply (Ho3 q)|].
      intros E. by apply Hne, (canon_suffix q out).
    + by apply Hc.
Qed.

Lemma quiet_consistent fs fs' : (forall k, quiet fs fs' k) -> consistent fs -> consistent fs'.
Proof.
  intros Hq Hc q Hqs. apply (consistent_at fs); [by apply quiet_session|by apply quiet_sidecar|by apply Hc].
Qed.

Lemma quiet_holds fs fs' out m : session_path out -> quiet fs fs' (canon out) -> quiet fs fs' (canon (out +:+ sidecarSuffix)) ->
  holds fs out m -> holds fs' out m.
Proof.
  intros Hs H1 H2 Hh. pose proof Hh as (body & t & side & t' & E1 & E2 & _). eapply holds_quiet; [| |exact Hh].
  - destruct H1 as [H1|[H1|[H1 _]]]; [done| |congruence]. destruct Hs as (? & ? & _). by rewrite not_staged in H1.
  - destruct H2 as [H2|[H2|[H2 _]]]; [done| |congruence]. destruct Hs as (? & _ & _). by rewrite sidecar_not_staged in H2.
Qed.

(** *** Up to date *)

Lemma sidecar_name q : raw_path q -> path_IsLocal (q +:+ sidecarSuffix) = true /\ names_dir (q +:+ sidecarSuffix) = false.
Proof.
  intros Hq. destruct (raw_sidecar q Hq) as (d & segs & -> & [Hd _] & Hs). split; [by apply segs_local|by apply names_dir_rel].
Qed.

Lemma upToDate_calm out m u : session_path out -> consistent (u_plain u) ->
  exists n r, upToDate out m u = (r, after u (u_plain u) n) /\ r <> Panic /\ (r = Done true -> holds (u_plain u) out m).
Proof.
  intros Hs Hc. pose proof Hs as (Hraw & Hdir & _). destruct (Hc out Hs) as (Hv & L1 & L2).
  assert (looks (upToDate out m)) as Hl.
  { apply looks_fs. unfold upToDate. apply fs_only_bind; [apply fs_only_try, fs_Stat|].
    intros [[]|]; try apply fs_only_ret. destruct (negb _); [apply fs_only_ret|].
    apply fs_only_bind; [apply fs_only_text|]. intros want. apply fs_only_bind; [apply fs_only_try, fs_ReadFile|].
    intros. apply fs_only_ret. }
  destruct (Hl u) as [n E]. destruct (upToDate out m u) as [r u'] eqn:Eu. cbn in E. subst u'. exists n, r. split; [done|].
  clear Hl. revert Eu. generalize (after u (u_plain u) n) as u'. intros u'.
  destruct (sidecar_name out Hraw) as [Ls Ds].
  unfold upToDate, bind at 1, try, Stat, io_at. destruct (path_IsLocal out); [|by intros [= <- _]]. rewrite (io_calm no_faults). cbv beta.
  assert (entry (u_plain u) out = u_plain u !! canon out) as -> by (unfold entry; by rewrite Hdir).
  destruct (u_plain u !! canon out) as [[body t| |to|]|] eqn:E1; cbn [follow fst snd];
    [|by intros [= <- _]|by destruct (L1 to)|by intros [= <- _]..].
  destruct (negb (slen body =? PayloadSize m)) eqn:El; [by intros [= <- _]|]. boolp.
  unfold bind, text_result. destruct (sidecarJSON m) as [want|] eqn:Ew; [|by intros [= <- _]]. unfold ret at 1.
  unfold ReadFile, io_at. rewrite Ls, (io_calm no_faults). tidy.
  assert (entry (u_plain u) (out +:+ sidecarSuffix) = u_plain u !! canon (out +:+ sidecarSuffix)) as -> by (unfold entry; by rewrite Ds).
  destruct (u_plain u !! canon (out +:+ sidecarSuffix)) as [[side t'| |to|]|] eqn:E2; cbn;
    [|by intros [= <- _]|by destruct (L2 to)|by intros [= <- _]..].
  intros [= <- _]. split; [done|]. intros [= E%String.eqb_eq]. subst side. exists body, t, want, t'. split_and!; try done.
  by apply (Hv body t want t').
Qed.

(** *** Removing what moved *)

Lemma Remove_calm p u : exists fs n r, Remove p u = (r, after u fs n) /\ r <> Panic /\
  forall k, fs !! k = u_plain u !! k \/ (k = canon p /\ fs !! k = None).
Proof.
  unfold Remove, io_at. destruct (path_IsLocal p).
  2:{ exists (u_plain u), (u_ops u). eexists. rewrite after_same. split; [reflexivity|]. split; [done|]. by left. }
  rewrite (io_calm no_faults). destruct (entry (u_plain u) p); cbn.
  - exists (delete (canon p) (u_plain u)). eexists _, _. split; [reflexivity|]. split; [done|]. intros k.
    destruct (decide (k = canon p)) as [->|]; [right; by rewrite lookup_delete_eq|left; by rewrite lookup_delete_ne].
  - exists (u_plain u). eexists _, _. split; [reflexivity|]. split; [done|]. by left.
Qed.

Lemma removeSuperseded_calm o prev u : exists fs n, removeSuperseded o prev u = (Done (), after u fs n) /\
  (forall k, fs !! k = u_plain u !! k \/ ((k = canon prev \/ k = canon (prev +:+ sidecarSuffix)) /\ fs !! k = None)) /\
  (forall holder, claimedBy u prev = Some holder -> holder <> rel o -> fs = u_plain u).
Proof.
  unfold removeSuperseded, bind at 1, get. cbv beta iota.
  destruct (match claimedBy u prev with Some h => negb (h =? rel o)%string | None => false end) eqn:Eh.
  { exists (u_plain u), (u_ops u). rewrite after_same. split_and!; [done|by left|done]. }
  enough (exists fs n r, (do! n := Lstat prev in
      if negb (regular n) then fail "" else
      do! n := Lstat (prev +:+ sidecarSuffix) in
      if negb (regular n) then fail "" else
      do! _ := Remove prev in Remove (prev +:+ sidecarSuffix)) u = (r, after u fs n) /\ r <> Panic /\
      forall k, fs !! k = u_plain u !! k \/ ((k = canon prev \/ k = canon (prev +:+ sidecarSuffix)) /\ fs !! k = None))
    as (fs & n & r & E & P & F).
  { exists fs, n. split_and!; [|exact F|].
    - unfold bind at 1, try. rewrite E. by destruct r.
    - intros h Hh Hne. rewrite Hh in Eh. boolp. done. }
  assert (forall p u, exists n r, Lstat p u = (r, after u (u_plain u) n) /\ r <> Panic) as HL.
  { intros p u0. destruct (looks_fs (Lstat p) (fs_Lstat _ p) u0) as [n E]. exists n, (Lstat p u0).1.
    split; [rewrite <- E; by destruct (Lstat p u0)|]. unfold Lstat, io_at. destruct (path_IsLocal p); [|done].
    rewrite (io_calm no_faults). cbn. by destruct (entry _ p). }
  destruct (HL prev u) as (n1 & r1 & E1 & P1). unfold bind at 1. rewrite E1.
  destruct r1 as [a|e|]; [|by exists (u_plain u), n1; eexists; split_and!; [done|done|left]|done].
  destruct (negb (regular a)); [by exists (u_plain u), n1; eexists; split_and!; [reflexivity|done|left]|].
  destruct (HL (prev +:+ sidecarSuffix) (after u (u_plain u) n1)) as (n2 & r2 & E2 & P2). unfold bind at 1. rewrite E2. tidy.
  destruct r2 as [a2|e|]; [|by exists (u_plain u), n2; eexists; split_and!; [done|done|left]|done].
  destruct (negb (regular a2)); [by exists (u_plain u), n2; eexists; split_and!; [reflexivity|done|left]|].
  destruct (Remove_calm prev (after u (u_plain u) n2)) as (fs3 & n3 & r3 & E3 & P3 & F3). unfold bind at 1. rewrite E3. tidy.
  destruct r3 as [[]|e|]; [|exists fs3, n3; eexists; split_and!; [done|done|]; intros k; destruct (F3 k) as [|[]]; tauto|done].
  destruct (Remove_calm (prev +:+ sidecarSuffix) (after u fs3 n3)) as (fs4 & n4 & r4 & E4 & P4 & F4). tidy.
  exists fs4, n4, r4. split_and!; [done|done|]. intros k.
  destruct (F4 k) as [->|[]]; [|tauto]. destruct (F3 k) as [|[]]; tauto.
Qed.

(** *** One object *)

Section Archive.
Variables (ids : list string) (u0 : unsealer) (objects : list object).

(** The tool's folding is at least the file system's. *)
Hypothesis merges : forall p q, canon p = canon q -> fold u0 p = fold u0 q.
(** No object's path is a directory's or a sidecar's, nor the one beside it. *)
Hypothesis sessions : forall o obj info m u out u', In o objects ->
  openObject o = Ok (obj, info) -> ReadManifest obj ids = Ok m -> outputPath o m u = (Done out, u') ->
  (forall k d, u_installDirs u !! k = Some d -> top_dir d) ->
  session_path out /\ session_path (besideName out (rel o)).

Notation opened := (object * string * Manifest)%type (only parsing).
Definition claims (u : unsealer) (d : opened) : Prop :=
  u_claimed u !! fold u0 d.1.2 = Some (rel d.1.1) /\ u_claimed u !! fold u0 (d.1.2 +:+ sidecarSuffix) = Some (rel d.1.1).

Record running (done_ : list opened) (u : unsealer) : Prop := {
  run_fold : forall p, fold u p = fold u0 p;
  run_consistent : consistent (u_plain u);
  run_dirs : forall k d, u_installDirs u !! k = Some d -> top_dir d;
  run_index : exists index, u_index u = Some index /\ forall k p, index !! k = Some p -> session_path p;
  run_done : Forall (fun d => session_path d.1.2 /\ holds (u_plain u) d.1.2 d.2 /\ claims u d) done_;
  run_distinct : NoDup (map (fun d => canon d.1.2) done_)
}.

Lemma running_tree done_ u fs n : running done_ u -> (forall k, quiet (u_plain u) fs k) -> running done_ (after u fs n).
Proof.
  intros [H1 H2 H3 H4 H5 H6] Hq. split; try done; [by eapply quiet_consistent|].
  eapply Forall_impl; [exact H5|]. intros d (Hs & Hh & Hc). split_and!; try done. by eapply quiet_holds.
Qed.

Lemma outputPath_calm o m u : exists dirs r, outputPath o m u = (r, set_installDirs dirs u) /\ r <> Panic /\
  (schema_ids m -> (forall k d, u_installDirs u !! k = Some d -> top_dir d) -> forall k d, dirs !! k = Some d -> top_dir d).
Proof.
  assert (set_installDirs (u_installDirs u) u = u) as Hsame by (by destruct u).
  unfold outputPath, bind at 1, text_result. destruct (keyMatches o m) eqn:Ek; [|exists (u_installDirs u); eexists; rewrite Hsame; by split_and!].
  unfold ret at 1. unfold bind at 1. destruct (nativeRelPath (m_NativePath m)) as [native|]; [|exists (u_installDirs u); eexists; rewrite Hsame; by split_and!].
  unfold ret at 1, bind at 1, installDir. destruct (u_installDirs u !! installRel o) as [d|] eqn:Ed;
    [exists (u_installDirs u); eexists; rewrite Hsame; by split_and!|].
  destruct (readTags _) as [raw|e]; [|exists (u_installDirs u); eexists; rewrite Hsame; by split_and!].
  eexists _, _. split; [reflexivity|]. split; [done|]. intros (Hi & _) Hd k d [[_ <-]|[_ Hk]]%lookup_insert_Some; [|by eapply Hd].
  apply install_dir_top. unfold keyMatches in Ek. inv_ok. boolp. congruence.
Qed.

Lemma claim_calm o out u : exists r, claim o out u = (r, match r with Done x => reserve o x u | _ => u end) /\ r <> Panic /\
  forall x, r = Done x -> (x = out \/ x = besideName out (rel o)) /\ claimedBy u x = None.
Proof.
  unfold claim. destruct (claimedBy u out) eqn:E1; [destruct (claimedBy u (besideName out (rel o))) eqn:E2|];
    [eexists (Fail _)|eexists (Done _)|eexists (Done _)];
    (split; [reflexivity|]); (split; [done|]); intros x [= <-]; auto.
Qed.

(** A name nobody claims is apart from the outputs there are. *)
Lemma unclaimed_apart done_ u x : running done_ u -> claimedBy u x = None ->
  Forall (fun d => canon x <> canon d.1.2) done_.
Proof.
  intros Hr Hx. eapply Forall_impl; [apply Hr|]. intros d (_ & _ & H1 & _) E.
  unfold claimedBy in Hx. rewrite !(run_fold _ _ Hr), (merges _ _ E), H1 in Hx. done.
Qed.

Lemma sessions_apart x y : session_path x -> session_path y -> canon x <> canon y ->
  canon y <> canon x /\ canon y <> canon (x +:+ sidecarSuffix) /\
  canon (y +:+ sidecarSuffix) <> canon x /\ canon (y +:+ sidecarSuffix) <> canon (x +:+ sidecarSuffix).
Proof.
  intros (Hx & _ & Fx) (Hy & _ & Fy) E. split_and!; [congruence|apply Fy|intros H; by apply (Fx y)|].
  intros H. by apply E, (canon_suffix x y).
Qed.

Lemma step_done done_ u out : Forall (fun d => session_path d.1.2 /\ holds (u_plain u) d.1.2 d.2 /\ claims u d) done_ ->
  session_path out -> Forall (fun d => canon out <> canon d.1.2) done_ ->
  forall fs, (forall k, k <> canon out -> k <> canon (out +:+ sidecarSuffix) -> quiet (u_plain u) fs k) ->
  Forall (fun d => holds fs d.1.2 d.2) done_.
Proof.
  intros Hd Ho Hne fs Hq. rewrite Forall_forall in *. intros d Hin. destruct (Hd d Hin) as (Hs & Hh & _).
  destruct (sessions_apart out d.1.2 Ho Hs (Hne d Hin)) as (A & B & C & D).
  eapply quiet_holds; [done| | |exact Hh]; by apply Hq.
Qed.

(** What is superseded goes, and nothing that is claimed. *)
Lemma superseded_step done_ u o out m prev : running ((o, out, m) :: done_) u ->
  Forall (fun d => rel d.1.1 <> rel o) done_ -> superseded u o out = Some prev ->
  exists fs n, removeSuperseded o prev u = (Done (), after u fs n) /\ running ((o, out, m) :: done_) (after u fs n).
Proof.
  intros Hr Hrel Hsup. destruct (removeSuperseded_calm o prev u) as (fs & n & E & F & G). exists fs, n. split; [done|].
  pose proof Hr as [R1 R2 R3 (index & R4 & R4') R5 R6].
  assert (session_path prev /\ fold u prev <> fold u out) as [Hp Hne].
  { unfold superseded in Hsup. rewrite R4 in Hsup. cbn in Hsup. destruct (index !! key o) as [[|c p]|] eqn:Ek; try done.
    cbn in Hsup. destruct (_ =? _)%string eqn:En; [done|]. injection Hsup as <-. boolp. split; [by eapply R4'|done]. }
  split; try done; [| |].
  - intros q Hq. apply (consistent_at (u_plain u)); [| |by apply R2].
    + destruct (F (canon q)) as [|[_ Ek]]; [by left|by right; right].
    + destruct (F (canon (q +:+ sidecarSuffix))) as [|[_ Ek]]; [by left|by right; right].
  - by exists index.
  - rewrite Forall_forall in *. intros d Hin. destruct (R5 d Hin) as (Hs & Hh & Hc). split_and!; try done.
    destruct (decide (canon prev = canon d.1.2)) as [Ec|Ec].
    + assert (claimedBy u prev = Some (rel d.1.1)) as Hcl.
      { unfold claimedBy. rewrite R1, (merges _ _ Ec). by destruct Hc as [-> _]. }
      apply elem_of_cons in Hin as [->|Hin].
      * cbn in *. exfalso. apply Hne. by rewrite !R1, (merges _ _ Ec).
      * rewrite (G _ Hcl); [done|]. by apply Hrel.
    + destruct (sessions_apart prev d.1.2 Hp Hs Ec) as (A & B & C & D).
      eapply holds_quiet; [| |exact Hh].
      * destruct (F (canon d.1.2)) as [|[[|] _]]; [done|congruence..].
      * destruct (F (canon (d.1.2 +:+ sidecarSuffix))) as [|[[|] _]]; [done|congruence..].
Qed.

Lemma record_step done_ u o out : running done_ u -> session_path out ->
  exists u', record_output o out u = (Done (), u') /\ running done_ u'.
Proof.
  intros [R1 R2 R3 (index & R4 & R4') R5 R6] Ho. unfold record_output. rewrite R4. eexists. split; [reflexivity|].
  split; try done. eexists. split; [reflexivity|]. intros k p [[_ <-]|[_ Hk]]%lookup_insert_Some; [done|by eapply R4'].
Qed.

Lemma running_dirs done_ u dirs : running done_ u -> (forall k d, dirs !! k = Some d -> top_dir d) ->
  running done_ (set_installDirs dirs u).
Proof. by intros [R1 R2 R3 R4 R5 R6] Hd. Qed.

Lemma claimedBy_None u x : claimedBy u x = None ->
  u_claimed u !! fold u x = None /\ u_claimed u !! fold u (x +:+ sidecarSuffix) = None.
Proof. unfold claimedBy. by destruct (u_claimed u !! fold u x). Qed.

Lemma running_reserve done_ u o x m : running done_ u -> claimedBy u x = None ->
  running done_ (reserve o x u) /\ claims (reserve o x u) (o, x, m).
Proof.
  intros [R1 R2 R3 R4 R5 R6] Hx. apply claimedBy_None in Hx as [N1 N2]. unfold reserve, claims. cbn [u_claimed set_claimed fst snd].
  rewrite !R1 in *. split.
  - split; try done. rewrite Forall_forall in *. intros d Hin. destruct (R5 d Hin) as (Hs & Hh & C1 & C2).
    split; [done|]. split; [done|]. unfold claims. cbn [u_claimed set_claimed].
    rewrite !lookup_insert_ne by congruence. done.
  - split; [|by rewrite lookup_insert_eq]. destruct (decide (fold u0 (x +:+ sidecarSuffix) = fold u0 x)) as [->|E].
    + by rewrite lookup_insert_eq.
    + by rewrite lookup_insert_ne, lookup_insert_eq.
Qed.

(** A pair that came to hold joins those that do. *)
Lemma running_add done_ u o x m : running done_ u -> session_path x -> claims u (o, x, m) -> holds (u_plain u) x m ->
  Forall (fun d => canon x <> canon d.1.2) done_ -> running ((o, x, m) :: done_) u.
Proof.
  intros [R1 R2 R3 R4 R5 R6] Hs Hc Hh Hne. split; try done; [by constructor|]. cbn [map]. constructor; [|done].
  intros Hin. apply list_elem_of_In, in_map_iff in Hin as (d & E & Hin). rewrite List.Forall_forall in Hne. by apply (Hne d Hin).
Qed.

Lemma open_step o u done_ : In o objects -> running done_ u -> Forall (fun d => rel d.1.1 <> rel o) done_ ->
  exists r u', open_object ids o u = (r, u') /\
    match r with
    | Done _ => exists obj info m out, openObject o = Ok (obj, info) /\ ReadManifest obj ids = Ok m /\
                running ((o, out, m) :: done_) u'
    | Fail _ => running done_ u'
    | Panic => False
    end.
Proof.
  intros Hin Hrun Hrel. unfold open_object. unfold bind at 1, text_result at 1.
  destruct (openObject o) as [[obj info]|e] eqn:Eo; [|by eexists _, _]. unfold ret at 1.
  unfold bind at 1, of_result at 1. destruct (ReadManifest obj ids) as [m|e] eqn:Em; [|by eexists _, _]. unfold ret at 1.
  pose proof (ReadManifest_schema _ _ _ Em) as Hschema.
  destruct (outputPath_calm o m u) as (dirs & r1 & E1 & P1 & D1). unfold bind at 1. rewrite E1.
  specialize (D1 Hschema (run_dirs _ _ Hrun)). pose proof (running_dirs _ _ dirs Hrun D1) as Hrun1.
  destruct r1 as [out|e|]; [|by eexists _, _|done].
  destruct (sessions o obj info m u out _ Hin Eo Em E1 (run_dirs _ _ Hrun)) as [Hout Hbeside].
  set (u1 := set_installDirs dirs u) in *.
  destruct (claim_calm o out u1) as (r2 & E2 & P2 & D2). unfold bind at 1. rewrite E2.
  destruct r2 as [x|e|]; [|by eexists _, _|done]. destruct (D2 x eq_refl) as [Hx Hfree].
  assert (session_path x) as Hsx by (destruct Hx as [-> | ->]; done).
  pose proof (unclaimed_apart _ _ _ Hrun1 Hfree) as Hapart.
  destruct (running_reserve _ _ o x m Hrun1 Hfree) as [Hrun2 Hclaims]. set (u2 := reserve o x u1) in *.
  destruct (upToDate_calm x m u2 Hsx (run_consistent _ _ Hrun2)) as (n3 & r3 & E3 & P3 & D3). unfold bind at 1. rewrite E3.
  assert (running done_ (after u2 (u_plain u2) n3)) as Hrun3 by (apply running_tree; [done|by left]).
  destruct r3 as [ok|e|]; [|by eexists _, _|done].
  assert (exists fs4 n4 r4, (if ok then ret () else write ids obj x (fi_MTime info)) (after u2 (u_plain u2) n3) = (r4, after u2 fs4 n4) /\
    r4 <> Panic /\ match r4 with Done _ => running ((o, x, m) :: done_) (after u2 fs4 n4) | _ => running done_ (after u2 fs4 n4) end)
    as (fs4 & n4 & r4 & E4 & P4 & D4).
  { destruct ok.
    - exists (u_plain u2), n3, (Done ()). split_and!; [done|done|]. apply running_add; try done. by apply D3.
    - destruct (write_calm ids obj x (fi_MTime info) (after u2 (u_plain u2) n3) Hsx) as (fs & n & r & E & P & D).
      exists fs, n, r. split; [exact E|]. split; [done|]. tidy. destruct r as [[]|e|]; [|by apply running_tree|done].
      destruct D as (m' & body & Hopen & Hpair & Hq). destruct (OpenTo_spec _ _ _ _ Hopen) as (Em' & Hhash & _).
      assert (m' = m) as -> by congruence.
      pose proof Hrun2 as [R1 R2 R3 R4 R5 R6]. apply running_add; try done.
      + split; try done; [by eapply (pair_consistent (u_plain u2))|]. rewrite Forall_forall. intros d Hd.
        pose proof (step_done done_ u2 x R5 Hsx Hapart fs Hq) as Hk. rewrite Forall_forall in R5, Hk.
        destruct (R5 d Hd) as (? & _ & ?). split_and!; try done. by apply Hk.
      + destruct Hpair as [[t Et] (side & t' & Hside & Es)]. exists body, t, side, t'. split_and!; try done. }
  unfold bind at 1. rewrite E4. destruct r4 as [[]|e|]; [|by eexists _, _|done].
  set (u4 := after u2 fs4 n4) in *. unfold bind at 1, get. cbv beta iota.
  assert (exists fs5 n5, (match superseded u4 o x with Some prev => removeSuperseded o prev | None => ret () end) u4 = (Done (), after u4 fs5 n5) /\
    running ((o, x, m) :: done_) (after u4 fs5 n5)) as (fs5 & n5 & E5 & Hrun5).
  { destruct (superseded u4 o x) as [prev|] eqn:Es; [by eapply superseded_step|]. exists (u_plain u4), (u_ops u4). by rewrite after_same. }
  unfold bind at 1. rewrite E5.
  destruct (record_step _ _ o x Hrun5 Hsx) as (u6 & E6 & Hrun6). unfold bind at 1. rewrite E6.
  eexists (Done _), u6. split; [reflexivity|]. by exists obj, info, m, x.
Qed.

(** *** The objects, one after the other *)

Definition counts_kept {A} (m : M A) : Prop := forall u, u_failed (m u).2 = u_failed u.
Lemma kept_fs {A} P (m : M A) : fs_only P m -> counts_kept m.
Proof. intros H u. destruct (H u) as (fs & n & -> & _). done. Qed.
Lemma kept_bind {A B} (m : M A) (k : A -> M B) : counts_kept m -> (forall a, counts_kept (k a)) -> counts_kept (bind m k).
Proof.
  intros Hm Hk u. specialize (Hm u). unfold bind. destruct (m u) as [[a|e|] u']; [|done..]. cbn in Hm. by rewrite Hk.
Qed.

Lemma open_object_kept o : counts_kept (open_object ids o).
Proof.
  assert (forall {A} (r : result string A), counts_kept (text_result r)) as Htext by (by intros A []).
  assert (forall {A} (r : result error A), counts_kept (of_result r)) as Hres by (by intros A []).
  assert (forall {A} (a : A), counts_kept (ret a)) as Hret by done.
  unfold open_object. apply kept_bind; [apply Htext|]. intros [obj info]. apply kept_bind; [apply Hres|]. intros m.
  apply kept_bind.
  { intros u. destruct (outputPath_calm o m u) as (dirs & r & -> & _). done. }
  intros out. apply kept_bind.
  { intros u. destruct (claim_calm o out u) as (r & -> & _). by destruct r. }
  intros x. apply kept_bind.
  { apply (kept_fs (fun _ => True)). unfold upToDate. apply fs_only_bind; [apply fs_only_try, fs_Stat|].
    intros [[]|]; try apply fs_only_ret. destruct (negb _); [apply fs_only_ret|].
    apply fs_only_bind; [apply fs_only_text|]. intros want. apply fs_only_bind; [apply fs_only_try, fs_ReadFile|].
    intros. apply fs_only_ret. }
  intros ok. apply kept_bind; [destruct ok; [done|]; by apply (kept_fs (fun _ => True)), fs_write|]. intros _.
  apply kept_bind; [done|]. intros u1. apply kept_bind.
  { destruct (superseded u1 o x) as [prev|]; [|done]. intros u. destruct (removeSuperseded_calm o prev u) as (fs & n & -> & _). done. }
  intros _. apply kept_bind; [|by intros _]. intros u. unfold record_output. by destruct (u_index u).
Qed.

Definition read_as (d : opened) : Prop := exists obj info, openObject d.1.1 = Ok (obj, info) /\ ReadManifest obj ids = Ok d.2.

Lemma running_counts done_ u a b c : running done_ u -> running done_ (set_counts a b c u).
Proof. by intros [R1 R2 R3 R4 R5 R6]. Qed.

Lemma run_objects_calm l : forall u done_, (forall o, In o l -> In o objects) -> NoDup (map rel l) ->
  (forall o d, In o l -> In d done_ -> rel d.1.1 <> rel o) -> running done_ u -> Forall read_as done_ ->
  exists u' done', run_objects (open_object ids) l u = (Done (), u') /\ running (done' ++ done_) u' /\
    Forall read_as (done' ++ done_) /\ u_failed u <= u_failed u' /\
    (u_failed u' = u_failed u -> map (fun d => d.1.1) (rev done') = l).
Proof.
  induction l as [|o l IH]; intros u done_ Hin Hnd Hrel Hrun Hread.
  { exists u, []. split_and!; try done; lia. }
  cbn [map] in Hnd. apply NoDup_cons in Hnd as [Hno Hnd]. rewrite list_elem_of_In in Hno.
  cbn [run_objects]. unfold bind at 1, try at 1. pose proof (open_object_kept o u) as Hkept.
  destruct (open_step o u done_) as (r & u1 & E & D); [apply Hin; by left|done| |].
  { rewrite Forall_forall. intros d Hd%list_elem_of_In. apply Hrel; [by left|done]. }
  rewrite E in *. cbn [snd] in Hkept. unfold bind, modify. destruct r as [ok|e|]; [| |done].
  - destruct D as (obj & info & m & out & Eo & Em & Hrun1).
    destruct (IH (count (Ok ok) u1) ((o, out, m) :: done_)) as (u' & done' & E' & H1 & H2 & H3 & H4); try done.
    + intros o' Ho'. apply Hin. by right.
    + intros o' d Ho' [<-|Hd]; [|apply Hrel; [by right|done]]. cbn. intros Heq. apply Hno. rewrite Heq. by apply in_map.
    + unfold count. by destruct ok; apply running_counts.
    + constructor; [by exists obj, info|done].
    + assert (u_failed (count (Ok ok) u1) = u_failed u) as Hc by (rewrite <- Hkept; by destruct ok).
      rewrite Hc in *. exists u', (done' ++ [(o, out, m)]). rewrite <- !app_assoc. split_and!; try done.
      intros Hf. rewrite rev_app_distr. cbn. by rewrite H4.
  - destruct (IH (count (Err e) u1) done_) as (u' & done' & E' & H1 & H2 & H3 & H4); try done.
    + intros o' Ho'. apply Hin. by right.
    + intros o' d Ho' Hd. apply Hrel; [by right|done].
    + by apply running_counts.
    + cbn [count u_failed set_counts] in H3. exists u', done'. split_and!; try done; lia.
Qed.
End Archive.

(** ** A run *)

Lemma collect_failed acc evs : acc.2 <= (foldl collect_event acc evs).2.
Proof.
  revert acc. induction evs as [|[p what] evs IH]; intros [objects failed]; [done|]. cbn [foldl].
  etrans; [|apply IH]. unfold collect_event. repeat case_match; cbn; lia.
Qed.

Lemma load_calm u : (forall to, u_plain u !! canon indexName <> Some (OLink to)) ->
  (forall body t, u_plain u !! canon indexName = Some (OFile body t) -> Unmarshal_index body <> Some None) ->
  exists index n, loadIndex u = (Done (), set_index (Some index) (after u (u_plain u) n)) /\
    forall k p, index !! k = Some p -> indexed (u_plain u) p.
Proof.
  intros Hlink Hnull. unfold loadIndex, bind, try, ReadFile, io_at, modify. change (path_IsLocal indexName) with true. cbn iota.
  rewrite (io_calm no_faults). cbv beta. assert (entry (u_plain u) indexName = u_plain u !! canon indexName) as -> by done.
  assert (forall k p, (∅ : gmap string string) !! k = Some p -> indexed (u_plain u) p) as Hnone by (intros k p; by rewrite lookup_empty).
  destruct (u_plain u !! canon indexName) as [[body t| |to|]|] eqn:E; cbn; [|by eexists ∅, _|by destruct (Hlink to)|by eexists ∅, _..].
  destruct (Unmarshal_index body) as [[index|]|] eqn:Eu; [|by destruct (Hnull body t)|by eexists ∅, _].
  eexists index, _. split; [reflexivity|]. intros k p Hk. by exists body, t, index, k.
Qed.

Definition no_panic {A} (m : M A) : Prop := forall u, (m u).1 <> Panic.
Lemma no_panic_bind {A B} (m : M A) (k : A -> M B) : no_panic m -> (forall a, no_panic (k a)) -> no_panic (bind m k).
Proof. intros Hm Hk u. specialize (Hm u). unfold bind. destruct (m u) as [[a|e|] u']; [apply Hk|done|done]. Qed.

Lemma save_no_panic index : no_panic (saveIndex index).
Proof.
  unfold saveIndex. apply no_panic_bind; [done|]. intros v. unfold place.
  apply no_panic_bind; [intros u; by destruct (MkdirAll_calm no_faults (path_Dir indexName) u) as (? & ? & r & -> & ? & _)|intros _].
  apply no_panic_bind; [intros u; by destruct (refuse_calm no_faults indexName u) as (? & r & -> & ? & _)|intros _].
  apply no_panic_bind.
  { intros u. by destruct (stage_calm no_faults (clock (u_ops v)) (ret (MarshalIndent_index index, ())) (Done (MarshalIndent_index index, ())) u)
      as (? & ? & r & -> & ? & _). }
  intros staged_. unfold or_remove. apply no_panic_bind.
  - intros u. unfold try. destruct (Rename_calm no_faults (fst staged_) indexName u) as (fs & n & r & -> & ? & _). by destruct r.
  - intros [[]|e]; [done|]. apply no_panic_bind; [|done]. intros u.
    by destruct (remove_each_calm no_faults (fun _ => True) [fst staged_] u) as (fs & n & -> & _).
Qed.

(** C12: When no operation of the file system fails, [open] of a copy into an output directory ends without a
    panic, leaves the directory consistent, and, when it exits with 0, has every object of the copy under a name
    of its own: a sidecar of its manifest, and beside it the payload of the hash the manifest gives. This is a
    fresh run whose output directory satisfies all of: it is consistent (no session path is or has beside it a
    link, or a sidecar of the payload's size but another hash); its index, if any, is no link and does not decode
    to JSON null; every path the index names is a session path, and so is the name every readable object of the
    copy is given and the name beside it, a session path being plain, no directory's and no sidecar's own name; the
    objects' paths are distinct; and names the index folds apart are distinct on disk. The runs left out
    include two that go wrong: a null index, which panics when it is assigned to, and an output named like the
    sidecar of another. *)
Theorem open_reads_back ids resealTo root u :
  let objects := (collect root).1 in
  consistent (u_plain u) -> u_installDirs u = ∅ -> u_claimed u = ∅ -> u_failed u = 0 ->
  (forall p, indexed (u_plain u) p -> session_path p) ->
  (forall to, u_plain u !! canon indexName <> Some (OLink to)) ->
  (forall body t, u_plain u !! canon indexName = Some (OFile body t) -> Unmarshal_index body <> Some None) ->
  (forall p q, canon p = canon q -> fold u p = fold u q) ->
  NoDup (map rel objects) ->
  (forall o obj info m v out v', In o objects ->
     openObject o = Ok (obj, info) -> ReadManifest obj ids = Ok m -> outputPath o m v = (Done out, v') ->
     (forall k d, u_installDirs v !! k = Some d -> top_dir d) ->
     session_path out /\ session_path (besideName out (rel o))) ->
  exists code u', run_work ids resealTo false root u = (Done code, u') /\ consistent (u_plain u') /\
    (code = 0 -> exists outs,
       map (fun d => d.1.1) outs = objects /\ NoDup (map (fun d => canon d.1.2) outs) /\
       Forall (fun d => read_as ids d /\ holds (u_plain u') d.1.2 d.2) outs).
Proof.
  intros objects Hc Hdirs Hclaimed Hfailed Hindexed Hlink Hnull Hfold Hnd Hses.
  unfold run_work, bind at 1. destruct (load_calm u Hlink Hnull) as (index & n0 & -> & Hindex).
  subst objects. pose proof (collect_failed ([], 0) (match root with Ok n => walk_dir "." n | Err e => [(".", AtError e)] end)) as Hpos.
  fold (collect root) in Hpos. destruct (collect root) as [objects failed] eqn:Ec. cbn [fst snd] in *.
  unfold bind at 1, modify. set (u1 := set_counts _ _ _ _).
  assert (running u [] u1) as Hrun.
  { split; try done; [intros k d; cbn; by rewrite Hdirs, lookup_empty| |constructor].
    exists index. split; [done|]. intros k p Hk. by eapply Hindexed, Hindex. }
  destruct (run_objects_calm ids u objects Hfold Hses objects u1 [] (fun o H => H) Hnd) as (u2 & done_ & E2 & Hrun2 & Hread & Hle & Hall);
    [done|exact Hrun|constructor|].
  unfold bind at 1. rewrite E2, app_nil_r in *. unfold bind at 1, get at 1. cbv beta iota.
  destruct (run_index _ _ _ Hrun2) as (index2 & Ei & _). rewrite Ei.
  set (P := fun k => below (canon stagingDir) k = true \/ k = canon indexName).
  assert (fs_only P (saveIndex index2)) as Hsave.
  { unfold saveIndex. apply fs_only_bind; [apply fs_only_get|intros v]. apply fs_place; [|by intros w [[] _]|by intros _; right].
    intros tmp [k ->]. left. apply staged_in. }
  destruct (fs_only_try P _ Hsave u2) as (fs3 & n3 & E3 & F3).
  assert (exists saved, try (saveIndex index2) u2 = (Done saved, after u2 fs3 n3)) as (saved & Es).
  { pose proof (save_no_panic index2 u2) as Hp. revert Hp E3. unfold try.
    destruct (saveIndex index2 u2) as [[a|e|] v]; intros Hp E3; [exists (Ok a)|exists (Err e)|done]; cbn in E3; by rewrite E3. }
  unfold bind at 1. rewrite Es. unfold bind at 1. cbv beta iota. unfold bind at 1, get, ret.
  set (u4 := if is_ok saved then _ else _).
  assert (u_plain u4 = fs3) as Ep by (unfold u4; by destruct (is_ok saved)).
  assert (forall k, (exists d segs, k = canon (join "/" (d :: segs)) /\ top_dir d /\ Forall plain segs) -> fs3 !! k = u_plain u2 !! k) as Hkeep.
  { intros k (d & segs & -> & Hd & Hs). destruct (F3 (canon (join "/" (d :: segs)))) as [|[H|H]]; [done| |].
    - by rewrite output_apart in H. - by apply index_output in H. }
  assert (forall q, session_path q -> fs3 !! canon q = u_plain u2 !! canon q /\
            fs3 !! canon (q +:+ sidecarSuffix) = u_plain u2 !! canon (q +:+ sidecarSuffix)) as Hpair.
  { intros q (Hq & Hd & _). split; apply Hkeep.
    - destruct (session_segs q Hq Hd) as (d & segs & -> & ? & ?). by exists d, segs.
    - destruct (raw_sidecar q Hq) as (d & segs & -> & ? & ?). by exists d, segs. }
  eexists _, u4. split; [reflexivity|]. rewrite Ep. split.
  { intros q Hq. destruct (Hpair q Hq) as [E1 E1']. apply (consistent_at (u_plain u2)); [by left|by left|]. by apply (run_consistent _ _ _ Hrun2). }
  destruct (0 <? u_failed u4) eqn:Ef; [done|]. intros _. boolp.
  assert (u_failed u2 <= u_failed u4) by (unfold u4; destruct (is_ok saved); cbn; lia).
  assert (u_failed u1 = failed) as Hu1 by (unfold u1; cbn; lia).
  exists (rev done_). split_and!.
  - apply Hall. lia.
  - rewrite map_rev, <- Permutation_rev. apply (run_distinct _ _ _ Hrun2).
  - rewrite Forall_forall. intros d Hd. rewrite list_elem_of_In, <- in_rev, <- list_elem_of_In in Hd.
    rewrite Forall_forall in Hread. split; [by apply Hread|].
    pose proof (run_done _ _ _ Hrun2) as Hdone. rewrite Forall_forall in Hdone. destruct (Hdone d Hd) as (Hs & Hh & _).
    destruct (Hpair _ Hs). by eapply holds_quiet.
Qed.
End Outputs.

(** ** Resealing *)

Section Reseal.
Context {age : Age} {frames : ZstdFrames} {mjson : ManifestJson} {tar_ext : TarExtensions} {laws : SealLaws}.

Lemma add_missing_spec held rs : exists more, foldl add_missing held rs = held ++ more /\
  (forall r, In r rs -> In r (held ++ more)) /\ (forall r, In r more -> In r rs).
Proof.
  revert held. induction rs as [|r rs IH]; intros held; cbn; [exists []; by rewrite app_nil_r|].
  destruct (IH (add_missing held r)) as (more & E & H1 & H2). rewrite E. clear E IH.
  unfold add_missing in *. destruct (bool_decide _) eqn:Er.
  - exists more. split_and!; [done| |].
    + intros x [<-|Hx]; [apply bool_decide_eq_true, list_elem_of_In in Er; apply in_or_app; by left|by apply H1].
    + intros x Hx. right. by apply H2.
  - exists (r :: more). rewrite <- app_assoc in *. split_and!; [done| |].
    + intros x [<-|Hx]; [apply in_or_app; right; by left|by apply H1].
    + intros x [<-|Hx]; [by left|right; by apply H2].
Qed.

Lemma add_missing_all held rs : (forall r, In r rs -> In r held) -> foldl add_missing held rs = held.
Proof.
  induction rs as [|r rs IH]; intros H; [done|]. cbn. unfold add_missing at 2.
  rewrite bool_decide_true by (apply list_elem_of_In, H; by left). apply IH. intros x Hx. apply H. by right.
Qed.

Lemma DecodeManifest_spec raw m : DecodeManifest raw = Ok m ->
  lossless m /\ schema_ids m /\ m_ManifestVersion m = ManifestVersion.
Proof.
  intros H. split_and!; [|by eapply DecodeManifest_schema|]; revert H;
    unfold DecodeManifest, validateManifestBytes; destruct (ValidateRaw raw) eqn:Ev; try done; cbn;
    destruct (Unmarshal_manifest raw) as [m'|] eqn:Em; try done; cbn; destruct (negb _) eqn:En; try done; intros [= ->].
  - by eapply decoded_lossless.
  - by boolp.
Qed.
Lemma ReadManifest_spec r ids m : ReadManifest r ids = Ok m ->
  lossless m /\ schema_ids m /\ m_ManifestVersion m = ManifestVersion.
Proof.
  unfold ReadManifest. intros H. apply rbind_Ok in H as (tr & _ & H). apply rbind_Ok in H as ([m' r'] & H & [= ->]).
  unfold readManifestEntry in H. inv_ok. by eapply DecodeManifest_spec.
Qed.

(** A file read to its end without an error has the bytes its header says: [archive/tar] on its extensions. *)
Hypothesis tar_sizes : forall r ent, tar_other r = Ok ent -> r_err (te_body ent) = None ->
  slen (r_bytes (te_body ent)) = th_Size (te_header ent).

Lemma slen_str_take n s : 0 <= n <= slen s -> slen (str_take (Z.to_nat n) s) = n.
Proof. intros H. unfold slen in *. rewrite length_str_take; lia. Qed.

Lemma tar_Next_size r ent body : tar_Next r = Ok ent -> read_body (te_body ent) = Ok body -> 0 <= th_Size (te_header ent) ->
  slen body = th_Size (te_header ent).
Proof.
  unfold tar_Next. destruct (_ =? "")%string; [done|]. destruct (read_full blockSize r) as [[blk rest]|]; [|done]. cbn [rbind].
  destruct (blk =? zeros 512)%string. { intros H. apply rbind_Ok in H as (x & _ & H). by case_in H. }
  destruct (parse_block blk) as [h| |]; [|intros H Hb _|done].
  - intros [= <-]. cbn [te_body te_header]. unfold file_body, read_body. destruct (_ <? _) eqn:E; [done|]. cbn. intros [= <-] Hn.
    apply Z.ltb_ge in E. by apply slen_str_take.
  - unfold read_body in Hb. destruct (r_err (te_body ent)) eqn:Er; [done|]. injection Hb as <-. by eapply tar_sizes.
Qed.

(** C14: What [reseal] writes of an object any of its recipients opens, those it had and those asked for: to the
    same payload and the same manifest, but for the recipients, which are those it had and the missing ones. *)
Theorem resealed_opens ids resealTo obj o body :
  resealed ids resealTo obj o = Ok (Some body) -> Forall (fun r => valid_utf8 r = true) resealTo ->
  exists m payload held more recipients,
    OpenTo obj ids = Ok (m, payload) /\ RecipientKeyIDs <$> m_Encryption m = Some held /\
    parse_recipients (held ++ more) = Ok recipients /\
    (forall r, In r resealTo -> In r (held ++ more)) /\ (forall r, In r more -> In r resealTo) /\
    forall ids', existsb (fun i => existsb (opens i) recipients) ids' = true ->
      (forall json, Manifest_Encode (set_recipients (held ++ more) m) = Ok json -> slen json <= maxManifestBytes) ->
      Open body ids' = Ok (set_recipients (held ++ more) m, payload).
Proof.
  unfold resealed. intros H Hutf. destruct (ReadManifest obj ids) as [m0|] eqn:Em; [|done]. cbn [rbind] in H.
  destruct (keyMatches o m0); [|done]. cbn [rbind] in H.
  destruct (RecipientKeyIDs <$> m_Encryption m0) as [[|h held]|] eqn:Eh; try done.
  destruct (add_missing_spec (h :: held) resealTo) as (more & El & H1 & H2). rewrite El in H.
  destruct (_ =? _); [done|]. destruct (parse_recipients _) as [recipients|] eqn:Ep; [|done]. cbn [rbind] in H.
  destruct (OpenTo obj ids) as [[m payload]|] eqn:Eo; [|done]. cbn [rbind] in H.
  destruct (OpenTo_spec _ _ _ _ Eo) as (Em' & Hhash & _). assert (m = m0) as -> by congruence.
  destruct (Seal _ _ _) as [[o' m']|] eqn:Es; [|done]. cbn in H. injection H as <-.
  destruct (ReadManifest_spec _ _ _ Em) as (Hl & Hschema & Hv).
  destruct (m_Encryption m0) as [enc|] eqn:Ee; [|done]. cbn in Eh. injection Eh as Eh.
  destruct Hschema as (_ & _ & _ & Hpos & He). destruct (He enc Ee) as [Hs Hids].
  assert (Forall (fun r => valid_utf8 r = true) ((h :: held) ++ more)) as Hall.
  { apply Forall_app. split; [by rewrite <- Eh|]. rewrite Forall_forall in *. intros r Hr%list_elem_of_In.
    by apply Hutf, list_elem_of_In, H2. }
  set (l := (h :: held) ++ more) in *.
  assert (set_recipients l m0 = set_sealed (ShippedHash m0) (PayloadSize m0) (mkEncryption (Scheme enc) l) m0) as Eset
    by (unfold set_recipients; by rewrite Ee).
  exists m0, payload, (h :: held), more, recipients. rewrite Ee. cbn [fmap option_fmap option_map]. rewrite Eh.
  split_and!; try done. intros ids' Hids' Hmax.
  destruct (Seal_parts _ _ _ _ _ Es) as (Em1 & json & Hj & Hw). cbn [b Unscrubbed] in *.
  assert (slen payload = PayloadSize m0) as Hsize.
  { unfold OpenTo in Eo. apply rbind_Ok in Eo as (tr & _ & Eo). apply rbind_Ok in Eo as ([m1 tr1] & _ & Eo). cbn zeta in Eo.
    inv_ok. boolp.
    match goal with H : text_error _ (tar_Next _) = Ok _ |- _ => apply text_error_Ok in H; rename H into Hnext end.
    match goal with H : text_error _ (read_body _) = Ok _ |- _ => apply text_error_Ok in H; rename H into Hbody end.
    rewrite (tar_Next_size _ _ _ Hnext Hbody); lia. }
  assert (sealed_manifest (set_recipients l m0) payload recipients = set_recipients l m0) as Esame.
  { unfold sealed_manifest. rewrite Eset. cbn [m_Encryption set_sealed default]. rewrite <- Hhash, Hsize. reflexivity. }
  rewrite Esame in Em1. subst m'.
  assert (encoded (set_recipients l m0) = set_recipients l m0) as Eenc.
  { unfold encoded. rewrite Eset. cbn [m_ManifestVersion set_sealed]. by rewrite Hv. }
  destruct (writer_opens json payload _ recipients ids' o' (set_recipients l m0) Hw Hids') as [-> _]; try done.
  - by apply Hmax.
  - rewrite <- Eenc. apply Encode_Decode; [| |exact Hj]; rewrite Eenc, Eset.
    + apply sealed_lossless; [done|rewrite Hhash; apply sha256_hex_ok|by rewrite Hs|done|].
      split; [done|]. rewrite <- Hsize. by eapply container_bound.
    + exact Hv.
  - by rewrite Eset, Hsize.
  - by rewrite Eset.
Qed.

(** An object that has every recipient asked for is left as it is. *)
Lemma resealed_again ids resealTo obj o m held : ReadManifest obj ids = Ok m -> keyMatches o m = Ok () ->
  RecipientKeyIDs <$> m_Encryption m = Some held -> held <> [] -> (forall r, In r resealTo -> In r held) ->
  resealed ids resealTo obj o = Ok None.
Proof.
  intros Em Hk Hh Hn Hin. unfold resealed. rewrite Em. cbn [rbind]. rewrite Hk. cbn [rbind]. rewrite Hh.
  destruct held as [|h held]; [done|]. by rewrite add_missing_all, Z.eqb_refl.
Qed.
End Reseal.

(** ** Concrete runs *)
Module SampleUnseal.
Import SampleSeal.

(** An output directory that folds no names, whose operation [bad] fails. *)
Definition disk (bad : option nat) : OutDir := {|
  canon := fun p => p;
  fault := fun n => if bool_decide (bad = Some n) then Some "input/output error" else None;
  tempName := fun n => "0" +:+ hex_encode (Sha256.be_bytes 7 (Z.of_nat n));
  clock := fun n => 0
|}.
#[export] Instance unicode : GoUnicode := {| wide_upper := fun s => s; wide_lower := fun s => s |}.
#[export] Instance texts : UnsealText := {|
  NFC := fun s => s;
  Unmarshal_tags := fun _ => None;
  Unmarshal_index := fun raw =>
    Some (Some (match get_list (String.length raw) raw with Some ([k; v], _) => {[k := v]} | _ => ∅ end));
  MarshalIndent_index := fun index => put_list (flat_map (fun kv => [kv.1; kv.2]) (map_to_list index));
  sidecarJSON := fun m => Ok (put_text (ShippedHash m) +:+ put_text (m_NativePath m))
|}.

(** One session of one install, sealed; [body] is what it holds. *)
Definition name : string := "install=" +:+ install +:+ "/mirror/source=codex/k1.age".
Definition tree : result string enc_node :=
  Ok (EncDir_ None [("install=" +:+ install, EncDir_ None [("mirror", EncDir_ None
       [("source=codex", EncDir_ None [("k1.age", EncFile)])])])]).
Definition native : string := "/home/a/.codex/a.jsonl".
Definition sealed_body (body : string) : string :=
  match Seal (manifest install "codex" native "" 0 None) (mkScrubbed body "scrubber") ["age1a"] with Ok (o, _) => o | Err _ => "" end.
Definition archive_of (body : string) : EncDir := {|
  enc_Open := fun p => if (p =? name)%string
    then Ok (mkHandle (Ok (mkInfo (slen body) 7 true "-" 384)) body None)
    else Err "no such file or directory";
  enc_Lstat := fun p => Err NotExist
|}.
Definition first_ : string := Eval vm_compute in sealed_body "{'n':1}".
Definition second_ : string := Eval vm_compute in sealed_body "{'n':2}".

Definition open_with (bad : option nat) (sealed : string) (plain : out_tree) : outcome Z * unsealer :=
  @runCommand _ _ _ _ (disk bad) (archive_of sealed) _ _ ["key:age1a"] [] false tree (start plain).
Definition output : string := install +:+ "/codex/home/a/.codex/a.jsonl".
Definition results (r : outcome Z * unsealer) : outcome Z * (Z * Z * Z) * option out_node :=
  (r.1, (u_decrypted r.2, u_unchanged r.2, u_failed r.2), u_plain r.2 !! output).

Definition opened_first : out_tree := Eval vm_compute in u_plain (open_with None first_ ∅).2.
(** The rename of the payload, behind the rename of its sidecar. *)
Definition second_rename : nat := 23.
Definition cut_short : outcome Z * unsealer := open_with (Some second_rename) second_ opened_first.
Definition next_run : outcome Z * unsealer := open_with None second_ (u_plain cut_short.2).

(** What an object says, and what stands beside the output. *)
Definition payload_of (sealed : string) : option string :=
  match Open sealed ["key:age1a"] with Ok (_, payload) => Some payload | Err _ => None end.
Definition sidecar_of (sealed : string) : option string :=
  match Open sealed ["key:age1a"] with Ok (m, _) => match sidecarJSON m with Ok s => Some s | Err _ => None end | Err _ => None end.
Definition beside (r : outcome Z * unsealer) : option string :=
  match u_plain r.2 !! (output +:+ sidecarSuffix) with Some (OFile side _) => Some side | _ => None end.

(** C15: A run cut between the two renames of an object leaves the new sidecar beside the old payload; when both
    payloads have one size, the next run takes the output for up to date: it says nothing failed, and the
    payload of the older object stays under the sidecar of the newer. *)
Theorem stale_payload_kept :
  results (open_with None first_ ∅) = (Done 0, (1, 0, 0), Some (OFile "{'n':1}" 7)) /\
  results cut_short = (Done 1, (0, 0, 1), Some (OFile "{'n':1}" 7)) /\
  results next_run = (Done 0, (0, 1, 0), Some (OFile "{'n':1}" 7)) /\
  payload_of second_ = Some "{'n':2}" /\ beside next_run = sidecar_of second_ /\ beside next_run <> None.
Proof. split_and!; vm_compute; first [reflexivity|discriminate]. Qed.

(** *** The laws of these instances *)

Lemma plain_name : plain stagingDir.
Proof. done. Qed.

Lemma temp_plain bad n : plain (@tempName (disk bad) n).
Proof.
  cbn. pose proof (hex_encode_no_slash (Sha256.be_bytes 7 (Z.of_nat n))) as H.
  change ("0" +:+ ?s) with (String "0" s). split_and!; [done|done|done|]. cbn. exact H.
Qed.

Lemma temp_staged bad p : plain p -> below (@canon (disk bad) stagingDir) (@canon (disk bad) (path_Join stagingDir p)) = true.
Proof.
  intros Hp. cbn [canon disk]. change stagingDir with (join "/" [stagingDir]) at 2.
  rewrite (path_Join_seg [stagingDir]); [|done|by constructor|done]. unfold below. apply orb_true_iff. right.
  apply has_prefix_spec. by exists p.
Qed.

Lemma top_apart d segs : top_dir d -> Forall plain segs -> below stagingDir (join "/" (d :: segs)) = false.
Proof.
  intros [Hd Htop] Hs. assert (d <> stagingDir) as Hne by (intros ->; by destruct Htop).
  destruct (below stagingDir (join "/" (d :: segs))) eqn:E; [|done]. exfalso. unfold below in E.
  assert (Forall plain (d :: segs)) as Hp by (by constructor).
  apply orb_true_iff in E as [E|E].
  - apply String.eqb_eq in E. apply (f_equal (split_on "/")) in E. rewrite split_rel in E by done. injection E as -> _. done.
  - apply has_prefix_spec in E as [r E]. apply (f_equal (split_on "/")) in E. rewrite split_rel in E by done.
    change ((stagingDir +:+ "/") +:+ r) with (stagingDir +:+ String "/" r) in E. rewrite split_on_sep_app in E.
    injection E as -> _. done.
Qed.

Lemma last_byte a b x y : a +:+ String x "" = b +:+ String y "" -> x = y.
Proof. intros E. apply (f_equal str_rev) in E. rewrite !str_rev_append in E. by injection E. Qed.

#[export] Instance disk_laws : @OutLaws (disk None) texts.
Proof.
  split.
  - done.
  - apply temp_plain.
  - apply temp_staged.
  - apply top_apart.
  - done.
  - intros d segs [Hd Htop] Hs E. cbn [canon disk] in E. assert (Forall plain (d :: segs)) as Hp by (by constructor).
    apply (f_equal (split_on "/")) in E. rewrite split_rel in E by done. injection E as -> ->. by destruct Htop.
  - intros p q _ _. cbn [canon disk]. split; [by intros ->|]. intros E. apply (f_equal str_rev) in E. rewrite !str_rev_append in E.
    rewrite <- (str_rev_involutive p), <- (str_rev_involutive q). f_equal.
    apply (f_equal (str_drop (String.length (str_rev sidecarSuffix)))) in E. by rewrite !str_drop_app in E.
  - intros m m' side [= <-] [= E]. pose proof (get_put_text (ShippedHash m) (put_text (m_NativePath m))) as H.
    rewrite <- E, get_put_text in H. by injection H.
Qed.

(** A path of the one session is a session's. *)
Lemma sample_session d leaf : top_dir d -> plain leaf -> (exists a, leaf = a +:+ "l") ->
  @session_path (disk None) (join "/" (d :: ["codex"; "home"; "a"; ".codex"] ++ [leaf])).
Proof.
  intros Hd Hleaf [a ->]. assert (Forall plain ["codex"; "home"; "a"; ".codex"]) as Hi by (by repeat constructor).
  split_and!.
  - exists d, ["codex"; "home"; "a"; ".codex"], (a +:+ "l"). destruct Hleaf as (? & _ & _ & ?). by split_and!.
  - apply names_dir_rel; [apply Hd|]. apply Forall_app. split; [done|by constructor].
  - intros p E. cbn [canon disk] in E.
    change (d :: ["codex"; "home"; "a"; ".codex"] ++ [a +:+ "l"]) with ((d :: ["codex"; "home"; "a"; ".codex"]) ++ [a +:+ "l"]) in E.
    rewrite join_snoc in E by done.
    replace (p +:+ sidecarSuffix) with ((p +:+ ".manifest.jso") +:+ "n") in E by (by rewrite string_app_assoc).
    rewrite <- !string_app_assoc in E. by apply last_byte in E.
Qed.

(** *** Witnesses *)

Lemma open_confined_witness :
  unchanged_but (@touched (disk (Some second_rename)) texts opened_first) opened_first (u_plain cut_short.2).
Proof.
  apply (@open_confined _ _ _ _ _ (disk (Some second_rename)) (archive_of second_) texts unicode ["key:age1a"] [] opened_first
           (temp_plain _) (temp_staged _)); [reflexivity|].
  intros to. vm_compute. discriminate.
Defined.

Definition resealed_first : string :=
  Eval vm_compute in match resealed ["key:age1a"] ["age1b"] (mkReader first_ None) (object_at name) with Ok (Some body) => body | _ => "" end.
Lemma resealed_result :
  resealed ["key:age1a"] ["age1b"] (mkReader first_ None) (object_at name) = Ok (Some resealed_first).
Proof. vm_compute. reflexivity. Qed.
Lemma resealed_opens_witness :
  resealed ["key:age1a"] ["age1b"] (mkReader first_ None) (object_at name) = Ok (Some resealed_first) /\
  exists m payload held more recipients,
    OpenTo (mkReader first_ None) ["key:age1a"] = Ok (m, payload) /\ RecipientKeyIDs <$> m_Encryption m = Some held /\
    parse_recipients (held ++ more) = Ok recipients /\
    (forall r, In r ["age1b"] -> In r (held ++ more)) /\ (forall r, In r more -> In r ["age1b"]) /\
    forall ids', existsb (fun i => existsb (opens i) recipients) ids' = true ->
      (forall json, Manifest_Encode (set_recipients (held ++ more) m) = Ok json -> slen json <= maxManifestBytes) ->
      Open resealed_first ids' = Ok (set_recipients (held ++ more) m, payload).
Proof.
  pose proof resealed_result as E.
  split; [exact E|]. refine (resealed_opens _ ["key:age1a"] ["age1b"] (mkReader first_ None) (object_at name) resealed_first E _);
    [intros r ent [=]|by constructor].
Defined.

Lemma sample_output (d : string) :
  let out := d +:+ "/codex/" +:+ "home/a/.codex/a.jsonl" in
  top_dir d -> @session_path (disk None) out /\ @session_path (disk None) (besideName out name).
Proof.
  intros out Hd. assert (out = join "/" (d :: ["codex"; "home"; "a"; ".codex"] ++ ["a.jsonl"])) as -> by reflexivity.
  assert (Forall plain ["codex"; "home"; "a"; ".codex"]) as Hi by (by repeat constructor).
  split; [apply sample_session; [done|done|by exists "a.json"]|].
  destruct (besideName_leaf d ["codex"; "home"; "a"; ".codex"] "a.jsonl" name) as (stem & Hstem & ->); [by destruct Hd as [(_ & _ & _ & ?) _]|done|done|].
  change (path_Ext "a.jsonl") with ".jsonl" in *. change (beside_tag name) with "k1".
  assert (stem = "a") as -> by (by apply (RedactSafe.string_app_inj_r _ _ ".jsonl")).
  apply sample_session; [done|done|by exists "a~k1.json"].
Qed.

Definition fresh_dir : unsealer := start {[stagingDir := ODir]}.
Definition sample_object : object := object_at name.
Lemma sample_objects : (collect tree).1 = [sample_object].
Proof. vm_compute. reflexivity. Qed.
Lemma sample_ids : match @openObject (archive_of first_) sample_object with
  | Ok (obj, _) => match ReadManifest obj ["key:age1a"] with Ok m => (m_SourceID m =? "codex")%string && (m_NativePath m =? native)%string | Err _ => true end
  | Err _ => true
  end = true.
Proof. vm_compute. reflexivity. Qed.
Lemma sample_reads obj info m : @openObject (archive_of first_) sample_object = Ok (obj, info) -> ReadManifest obj ["key:age1a"] = Ok m ->
  m_SourceID m = "codex" /\ m_NativePath m = native.
Proof.
  intros Ho Hm. pose proof sample_ids as H. rewrite Ho, Hm in H. by apply andb_true_iff in H as [?%String.eqb_eq ?%String.eqb_eq].
Qed.
Lemma sample_outputs obj info m v out v' :
  @openObject (archive_of first_) sample_object = Ok (obj, info) -> ReadManifest obj ["key:age1a"] = Ok m ->
  @outputPath (archive_of first_) texts sample_object m v = (Done out, v') ->
  (forall k d, u_installDirs v !! k = Some d -> top_dir d) ->
  @session_path (disk None) out /\ @session_path (disk None) (besideName out name).
Proof.
  intros Ho Hm Hout Hdirs. destruct (sample_reads _ _ _ Ho Hm) as [Es En].
  unfold outputPath, bind at 1 in Hout. destruct (text_result (keyMatches _ _) v) as [[[]|e|] v1] eqn:Ek; try done.
  assert (v1 = v) as ->. { unfold text_result in Ek. destruct (keyMatches _ _); by injection Ek. }
  rewrite En in Hout. unfold bind at 1 in Hout.
  change (text_result (nativeRelPath native) v) with (@Done string "home/a/.codex/a.jsonl", v) in Hout.
  cbv beta iota in Hout. unfold bind at 1 in Hout. rewrite Es in Hout.
  destruct (installDir _ _ v) as [[d|e|] v2] eqn:Ed; try done. injection Hout as <- _.
  apply sample_output. unfold installDir in Ed. destruct (u_installDirs v !! _) as [d'|] eqn:El; [injection Ed as <- _; by eapply Hdirs|].
  destruct (readTags _); [|done]. injection Ed as <- _. by apply install_dir_top.
Qed.

(** The directory the run begins with holds only its staging directory. *)
Lemma fresh_lookup k : u_plain fresh_dir !! k = None \/ u_plain fresh_dir !! k = Some ODir.
Proof. cbn. destruct (decide (k = stagingDir)) as [->|Hk]; [by right|left]. by rewrite lookup_insert_ne, lookup_empty. Qed.
Lemma fresh_consistent : @consistent (disk None) texts (u_plain fresh_dir).
Proof.
  intros q _. split_and!; [intros body t side t' m E|intros to E|intros to E];
    (destruct (fresh_lookup (@canon (disk None) q)) as [H|H] || idtac); try congruence;
    destruct (fresh_lookup (@canon (disk None) (q +:+ sidecarSuffix))) as [H'|H']; congruence.
Qed.
Lemma sample_done : fst (@run_work _ _ _ _ (disk None) (archive_of first_) texts unicode ["key:age1a"] [] false tree fresh_dir) = Done 0.
Proof. vm_compute. reflexivity. Qed.

Lemma open_reads_back_witness :
  exists u' outs, @run_work _ _ _ _ (disk None) (archive_of first_) texts unicode ["key:age1a"] [] false tree fresh_dir = (Done 0, u') /\
    map (fun d => d.1.1) outs = [sample_object] /\ NoDup (map (fun d => @canon (disk None) d.1.2) outs) /\
    Forall (fun d => @read_as _ _ _ _ (archive_of first_) ["key:age1a"] d /\ @holds (disk None) texts (u_plain u') d.1.2 d.2) outs.
Proof.
  destruct (@open_reads_back _ _ _ _ _ (disk None) (archive_of first_) texts unicode disk_laws ["key:age1a"] [] tree fresh_dir)
    as (code & u' & E & _ & H).
  - exact fresh_consistent.
  - reflexivity.
  - reflexivity.
  - reflexivity.
  - intros p (body & t & index & k & Hb & _). destruct (fresh_lookup (@canon (disk None) indexName)); congruence.
  - intros to Hb. destruct (fresh_lookup (@canon (disk None) indexName)); congruence.
  - intros body t Hb. destruct (fresh_lookup (@canon (disk None) indexName)); congruence.
  - intros p q E. change (p = q) in E. by rewrite E.
  - rewrite sample_objects. constructor; [intros Hin; inversion Hin|constructor].
  - rewrite sample_objects. intros o obj info m v out v' [<-|[]]. apply sample_outputs.
  - pose proof sample_done as E0. rewrite E in E0. injection E0 as ->.
    rewrite sample_objects in H. destruct (H eq_refl) as (outs & H1 & H2 & H3). exists u', outs. exact (conj E (conj H1 (conj H2 H3))).
Defined.
End SampleUnseal.
