(* ===== verification/Judge.v ===== *)
(** The install's memory of its failures: [src/app/judge.go] (the judgement of a run, the record it keeps,
    the watch over a stalled run and what other verbs record), the heartbeat it rides in
    ([src/internal/engine/health.go]) and the fault report ([src/app/telemetry.go]). One file on disk and
    one copy in memory; a write or a read of the file may fail, and other processes write it too. JSON is
    a class. When a timer fires is the environment's; what is printed is not kept. Operations are taken
    one after another: the loop waits for the watch to end before it judges ([cli/run.go]), and the one
    thing beside the watch, the heartbeat of the flush, reads the record under the watch's own lock. *)

From Stdlib Require Import SpecFloat.
From S2P Require Import Prelude GoLib Naming GoTime GoJson Vocab Schedule Heuristic Spec Manifest.

(** ** The record on disk *)

(** [encoding/json] of a record: text that is not UTF-8 comes back coerced. *)
Class FailureJson := {
  Marshal_failures : FailureRecord -> result string string;
  Unmarshal_failures : string -> option FailureRecord
}.

Definition norm_event (e : FailureEvent) : FailureEvent :=
  mkFailureEvent (coerce_utf8 (At e)) (ev_Kind e) (coerce_utf8 (ev_RunID e)) (coerce_utf8 (Message e)).
Definition norm_crash (c : LastCrash) : LastCrash :=
  mkLastCrash (coerce_utf8 (lc_RunID c)) (coerce_utf8 (Phase c)) (Consecutive c).
Definition norm (r : FailureRecord) : FailureRecord :=
  mkFailureRecord (norm_crash <$> fr_LastCrash r) (map norm_event (Recent r)) (ConsecutiveFailures r) (Facts r).

Class FailureJsonLaws {json : FailureJson} : Prop :=
  record_roundtrip r s : Marshal_failures r = Ok s -> Unmarshal_failures s = Some (norm r).

Definition maxFailureBytes : Z := Z.shiftl 1 16.
Definition no_failures : FailureRecord := mkFailureRecord None [] 0 None.

Section OnDisk.
Context {json : FailureJson}.

(** [last-failure.json], or nothing. A record that cannot be read counts as none. *)
Definition readFailureRecord (read_err : option string) (file : option string) : FailureRecord :=
  match read_err, file with
  | Some _, _ | None, None => no_failures
  | None, Some raw =>
      if maxFailureBytes <? slen raw then no_failures
      else match Unmarshal_failures raw with Some rec => rec | None => no_failures end
  end.
(** The rename of [WriteAtomic] is the commit: a write that fails leaves the file. *)
Definition writeFailureRecord (write_err : option string) (rec : FailureRecord) (file : option string) : result string (option string) :=
  let! body := Marshal_failures rec in
  match write_err with Some e => Err e | None => Ok (Some body) end.
End OnDisk.

(** ** The parts of [Runtime] the judge reads *)

Record Sample := mkSample { HeapInuse : Z; Sys : Z; NumGC : Z }.
Record Delta := mkDelta { Before : Sample; After : Sample }.

Record Runtime := mkRuntime {
  rt_StateDir : string;
  rt_MaxFilesPerRun : Z;
  rt_runID : string;
  rt_lastCrash : option LastCrash;
  rt_upload : bool;
  rt_user : option string;
  rt_GOMAXPROCS : Z;
  MaxInFlightBytes : Z;
  SoftLimit : Z;
  rt_telemetry : bool;
  TelemetryEndpoint : string;
  hostname : string;
  build_Version : string;
  config_rejected : option Z
}.

(** What the process keeps, and the file. *)
Record memory := mkMemory {
  m_rec : option FailureRecord;
  m_file : option string;
  m_lastRep : Report;
  m_telemetryOff : bool
}.
Definition set_rec (r : option FailureRecord) (m : memory) : memory := mkMemory r (m_file m) (m_lastRep m) (m_telemetryOff m).
Definition set_file (f : option string) (m : memory) : memory := mkMemory (m_rec m) f (m_lastRep m) (m_telemetryOff m).
Definition set_lastRep (rep : Report) (m : memory) : memory := mkMemory (m_rec m) (m_file m) rep (m_telemetryOff m).
Definition set_telemetryOff (m : memory) : memory := mkMemory (m_rec m) (m_file m) (m_lastRep m) true.

(** Which operation on the file fails. *)
Record faults := mkFaults { read_err : option string; write_err : option string }.
Definition calm : faults := mkFaults None None.

Definition newEvent (user : option string) (stateDir runID : string) (kind : FailureKind) (message : string) (now : Z) : FailureEvent :=
  mkFailureEvent (format_rfc3339 now) kind runID (ApplyUserPlaceholder message (UsernameFromStateDir user stateDir)).

Definition runFacts (rt : Runtime) (rep : Report) (mem : Delta) : RunFacts :=
  mkRunFacts (rt_GOMAXPROCS rt) (rt_MaxFilesPerRun rt) (MaxInFlightBytes rt) (SoftLimit rt)
    (HeapInuse (After mem)) (Sys (After mem)) ((NumGC (After mem) - NumGC (Before mem)) mod 2 ^ 32)
    (SlowestScrubNanos rep) (SlowestScrubBytes rep).

Definition failed_reason (f : FileOutcome) : option string :=
  if bool_decide (fo_Decision f = DecisionFailed) && negb (fo_Reason f =? "")%string then Some (fo_Reason f) else None.
Definition firstFailureReason (rep : Report) : string :=
  default "no reason recorded" (head (omap failed_reason (flat_map Files (Sources rep)))).

Definition set_Facts (f : option RunFacts) (r : FailureRecord) : FailureRecord :=
  mkFailureRecord (fr_LastCrash r) (Recent r) (ConsecutiveFailures r) f.
Definition set_Consecutive (n : Z) (r : FailureRecord) : FailureRecord :=
  mkFailureRecord (fr_LastCrash r) (Recent r) n (Facts r).
Definition set_LastCrash (c : option LastCrash) (r : FailureRecord) : FailureRecord :=
  mkFailureRecord c (Recent r) (ConsecutiveFailures r) (Facts r).
Definition append_counted (ev : FailureEvent) (rec : FailureRecord) : FailureRecord :=
  let rec := Append ev rec in
  if Counted ev then set_Consecutive (ConsecutiveFailures rec + 1) rec else rec.

(** ** The heartbeat *)

Record SourceHealth := mkSourceHealth {
  sh_SourceID : string;
  sh_Family : string;
  sh_State : string;
  sh_Reason : string;
  sh_Sniff : string;
  sh_AgentVersion : string;
  FilesSeen : Z;
  sh_Shipped : Z;
  sh_Unchanged : Z;
  sh_Parked : Z;
  sh_Failed : Z;
  sh_Oversize : Z;
  sh_Unreadable : Z;
  sh_Enriched : Z;
  sh_EnrichSkipped : Z;
  sh_EnrichMismatch : Z;
  sh_EnrichErrors : Z;
  Enricher_ : string;
  RedactionDensity : spec_float;
  LastCollectedAt : string
}.

Record Heartbeat := mkHeartbeat {
  HeartbeatVersion : Z;
  hb_At : string;
  hb_OrganizationID : string;
  hb_InstallID : string;
  hb_ClientVersion : string;
  hb_ConfigVersion : Z;
  hb_ConfigExpired : bool;
  hb_RunID : string;
  hb_FailureRecord : FailureRecord;
  hb_Sources : list SourceHealth
}.

Record Input := mkInput {
  in_OrganizationID : string;
  in_InstallID : string;
  in_ClientVersion : string;
  in_ConfigVersion : Z;
  in_ConfigExpired : bool;
  in_RunID : string;
  in_Report : Report;
  in_Now : Z;
  in_FailureRecord : FailureRecord
}.

Definition health_text (h : option HealthState) : string :=
  match h with
  | None => ""
  | Some AgentAbsent => "agent_absent"
  | Some RootPresentNoMatch => "root_present_no_match"
  | Some MatchPresentUnreadable => "match_present_unreadable"
  | Some Collected => "collected"
  end.

Definition decided (d : Decision) (files : list FileOutcome) : Z :=
  Zlen (List.filter (fun f => bool_decide (fo_Decision f = d)) files).
Definition float_density (d : Z * Z) : spec_float := float64_const (fst d) (snd d).
(** The mean over the files in which something was redacted, added in their order. *)
Definition mean_density (files : list FileOutcome) : spec_float :=
  let ds := List.filter (fun d => 0 <? fst d) (map Density files) in
  if 0 <? Zlen ds then float64_div (foldl float64_add float64_zero (map float_density ds)) (float64_of (Zlen ds))
  else float64_zero.

Definition source_health (now : Z) (s : SourceOutcome) : SourceHealth :=
  let shipped := decided DecisionShipped (Files s) in
  mkSourceHealth (so_SourceID s) (so_Family s) (health_text (Health s)) (so_Reason s) (sniff_text (Sniff s)) (so_AgentVersion s)
    (Zlen (Files s)) shipped (decided DecisionUnchanged (Files s)) (decided DecisionParked (Files s)) (decided DecisionFailed (Files s))
    (Oversize s) (Unreadable s) (Enriched s) (EnrichSkipped s) (so_EnrichMismatch s) (EnrichErrors s)
    (if (EnricherID s =? "")%string then "" else EnricherID s +:+ "@" +:+ int_text (EnricherVersion s))
    (mean_density (Files s))
    (if 0 <? shipped then format_rfc3339 now else "").

Definition Build (i : Input) : Heartbeat :=
  mkHeartbeat 1 (format_rfc3339 (in_Now i)) (in_OrganizationID i) (in_InstallID i) (in_ClientVersion i) (in_ConfigVersion i)
    (in_ConfigExpired i) (in_RunID i) (in_FailureRecord i) (map (source_health (in_Now i)) (Sources (in_Report i))).

(** ** The judge *)

(** What went out: the report and the record of a heartbeat asked for. *)
Notation beat := (Report * FailureRecord)%type (only parsing).

Section Judge.
Context {json : FailureJson}.
Variable rt : Runtime.

Definition loadRecord (read_err : option string) (m : memory) : FailureRecord :=
  match m_rec m with Some rec => rec | None => readFailureRecord read_err (m_file m) end.

(** [persistRecord]: the copy in memory is dropped once the file holds it. *)
Definition persistRecord (fs : faults) (mutate : FailureRecord -> FailureRecord) (m : memory) : memory :=
  let rec := mutate (loadRecord (read_err fs) m) in
  match writeFailureRecord (write_err fs) rec (m_file m) with
  | Ok file => set_rec None (set_file file m)
  | Err _ => set_rec (Some rec) m
  end.

(** [failureRecord]: what a heartbeat or a fault report carries. *)
Definition failureRecord (read_err : option string) (m : memory) : FailureRecord * memory :=
  let rec := loadRecord read_err m in
  (set_LastCrash (rt_lastCrash rt) rec, set_rec (Some rec) m).

(** [writeHeartbeat] up to the sealing of the heartbeat: a revoked install sends none. *)
Record beat_env := mkBeatEnv { revoked : bool; beat_read_err : option string }.
Definition shipFailureHeartbeat (e : beat_env) (rep : Report) (m : memory) : option beat * memory :=
  if negb (rt_upload rt) || revoked e then (None, m)
  else let '(rec, m) := failureRecord (beat_read_err e) m in (Some (rep, rec), m).

(** The error a run is judged by. *)
Definition judged_error (err : option error) (rep : Report) : option error :=
  match err with
  | Some e => Some e
  | None =>
      if (Shipped rep =? 0) && (0 <? rep_Failed rep)
      then Some (errors_New ("the run shipped nothing: all " +:+ int_text (rep_Failed rep) +:+ " attempted uploads failed: " +:+
                             firstFailureReason rep))
      else None
  end.
Definition is_offline (err : option error) (rep : Report) : bool := Is err ErrOffline && (rep_Failed rep <=? 1).

(** When the two events of a judgement were made. *)
Record judge_env := mkJudgeEnv { corrupt_at : Z; event_at : Z; judge_faults : faults; judge_beat : beat_env }.

Definition corrupt_message : string :=
  "the fingerprint store could not be loaded and was discarded; the next sync replaces it".
Definition event (kind : FailureKind) (message : string) (now : Z) : FailureEvent :=
  newEvent (rt_user rt) (rt_StateDir rt) (rt_runID rt) kind message now.
Definition judge_mutation (e : judge_env) (err : option error) (rep : Report) (kind : FailureKind) (mem : Delta)
    (rec : FailureRecord) : FailureRecord :=
  let rec := set_Facts (Some (runFacts rt rep mem)) rec in
  let rec := if StoreCorrupt rep then Append (event FailureStoreCorrupt corrupt_message (corrupt_at e)) rec else rec in
  match judged_error err rep with
  | None => set_Consecutive 0 rec
  | Some failure =>
      if is_offline err rep then Stand (event FailureOffline ("offline: " +:+ Error failure) (event_at e)) rec
      else append_counted (event kind (Error failure) (event_at e)) rec
  end.

Definition judge (e : judge_env) (err : option error) (rep : Report) (kind : FailureKind) (mem : Delta) (m : memory)
    : option error * option beat * memory :=
  if Is err ErrLocked then (None, None, m)
  else
    let verdict := judged_error err rep in
    let m := persistRecord (judge_faults e) (judge_mutation e err rep kind mem) m in
    let m := match verdict with None => set_lastRep rep m | Some _ => m end in
    if match verdict with Some _ => true | None => false end && negb (is_offline err rep) &&
       negb (bool_decide (kind = FailureShutdown)) && (rep_Failed rep =? 0)
    then let '(sent, m) := shipFailureHeartbeat (judge_beat e) rep m in (verdict, sent, m)
    else (verdict, None, m).

Definition JudgeTick (e : judge_env) (err : option error) (rep : Report) (panicked : bool) (mem : Delta) (m : memory) :=
  judge e err rep (if panicked then FailurePanic else FailureTick) mem m.
Definition JudgeFinalSlice (e : judge_env) (err : option error) (rep : Report) (mem : Delta) (m : memory) :=
  judge e err rep FailureShutdown mem m.

(** *** A tick that outlives its interval *)

(** [Duration.Round] to the second, and the text of whole seconds. *)
Definition round_second (d : Z) : Z :=
  let r := Z.rem d second in if r + r <? second then d - r else d + second - r.
Definition seconds_text (d : Z) : string :=
  let s := d / second in
  (if 3600 <=? s then int_text (s / 3600) +:+ "h" else "") +:+
  (if 60 <=? s then int_text (s / 60 mod 60) +:+ "m" else "") +:+ int_text (s mod 60) +:+ "s".

Record stall_env := mkStallEnv { now_at : Z; step_name : string; stall_at : Z; stall_faults : faults; stall_beat : beat_env }.
Definition stall_message (n : Z) (started : Z) (e : stall_env) : string :=
  "tick " +:+ int_text n +:+ " still running after " +:+ seconds_text (round_second (now_at e - started)) +:+
  (if (step_name e =? "")%string then "" else ", in " +:+ step_name e).
Definition stall_mutation (n started : Z) (e : stall_env) (rec : FailureRecord) : FailureRecord :=
  Stand (event FailureStalled (stall_message n started e) (stall_at e)) rec.

(** One round of [WatchStalledTick], when its timer fired. *)
Definition stall_fire (n started : Z) (e : stall_env) (m : memory) : option beat * memory :=
  let m := persistRecord (stall_faults e) (stall_mutation n started e) m in
  shipFailureHeartbeat (stall_beat e) (m_lastRep m) m.
Fixpoint watch (n started : Z) (fires : list stall_env) (m : memory) : list (option beat) * memory :=
  match fires with
  | [] => ([], m)
  | e :: r => let '(sent, m) := stall_fire n started e m in let '(rest, m) := watch n started r m in (sent :: rest, m)
  end.
Definition WatchStalledTick (n every started : Z) (fires : list stall_env) (m : memory) : list (option beat) * memory :=
  if every <=? 0 then ([], m) else watch n started fires m.
End Judge.

(** ** Verbs with no run around them *)

Section Verbs.
Context {json : FailureJson}.

(** Where the state directory is, whether it could be made, and what fails there. *)
Record verb_env := mkVerbEnv { verb_dir : option string; dir_made : bool; verb_user : option string; verb_at : Z; verb_faults : faults }.

Definition appendWithoutRuntime (e : verb_env) (mutate : string -> FailureRecord -> option FailureRecord) (file : option string) : option string :=
  match verb_dir e with
  | None | Some "" => file
  | Some dir =>
      if negb (dir_made e) then file
      else match mutate dir (readFailureRecord (read_err (verb_faults e)) file) with
           | None => file
           | Some rec => match writeFailureRecord (write_err (verb_faults e)) rec file with Ok file => file | Err _ => file end
           end
  end.

(** The newest crash on record is of this run. *)
Definition crash_known (crash : LastCrash) (rec : FailureRecord) : bool :=
  match List.find (fun ev => bool_decide (ev_Kind ev = FailureCrash)) (reverse (Recent rec)) with
  | Some ev => (ev_RunID ev =? lc_RunID crash)%string
  | None => false
  end.
Definition RecordCrash (e : verb_env) (crash : option LastCrash) (file : option string) : option string :=
  match crash with
  | None => file
  | Some crash =>
      appendWithoutRuntime e (fun dir rec =>
        if crash_known crash rec then None
        else Some (Append (newEvent (verb_user e) dir (lc_RunID crash) FailureCrash
                     ("previous run never exited: last step " +:+ quote (Phase crash) +:+ "; " +:+ int_text (Consecutive crash) +:+
                      " consecutive unclean run(s)") (verb_at e)) rec)) file
  end.

Definition recordWithoutRuntime (e : verb_env) (runID : string) (kind : FailureKind) (message : string) (file : option string) : option string :=
  appendWithoutRuntime e (fun dir rec => Some (append_counted (newEvent (verb_user e) dir runID kind message (verb_at e)) rec)) file.
Definition RecordPanic (e : verb_env) (verb cause : string) (file : option string) : option string :=
  recordWithoutRuntime e "" FailurePanic ("panic in " +:+ verb +:+ ": " +:+ cause) file.
Definition RecordStartupFailure (e : verb_env) (verb runID : string) (cause : option error) (file : option string) : option string :=
  match cause with
  | None => file
  | Some c => recordWithoutRuntime e runID FailureInit (verb +:+ " could not start: " +:+ Error c) file
  end.
Definition RecordUpdateFailure (e : verb_env) (message : string) (file : option string) : option string :=
  recordWithoutRuntime e "" FailureUpdate message file.
End Verbs.

(** ** The fault report *)

(** [absolutePath]: segments after a slash, three at least; none of the excluded bytes is part of a longer
    rune, so the bytes of a segment are scanned one by one. *)
Definition segment_byte (c : ascii) : bool :=
  negb (str_existsb (fun d => (c =? d)%char) ("/ ',;:)" +:+ String "009" (String "010" dquote))).
Fixpoint span_segment (s : string) : string * string :=
  match s with
  | String c r => if segment_byte c then let '(a, rest) := span_segment r in (String c a, rest) else ("", s)
  | "" => ("", "")
  end.
Fixpoint path_segments (fuel : nat) (s : string) : list string * string :=
  match fuel, s with
  | S fuel, String c r =>
      if (c =? "/")%char then
        match span_segment r with
        | ("", _) => ([], s)
        | (seg, rest) => let '(segs, rest) := path_segments fuel rest in (seg :: segs, rest)
        end
      else ([], s)
  | _, _ => ([], s)
  end.
Definition ellipsis : string := String "226" (String "128" (String "166" "")).
Definition last_two (segs : list string) : string := join "/" (drop (length segs - 2) segs).
(** The fuel is the message's length: every round takes a byte. *)
Fixpoint shorten_loop (fuel : nat) (s : string) : string :=
  match fuel, s with
  | S fuel, String c r =>
      let '(segs, rest) := path_segments (String.length s) s in
      if (3 <=? length segs)%nat then ellipsis +:+ "/" +:+ last_two segs +:+ shorten_loop fuel rest
      else String c (shorten_loop fuel r)
  | _, _ => s
  end.
Definition shortenTelemetryPaths (message : string) : string :=
  if str_contains "/" message then shorten_loop (String.length message) message else message.

Definition maxTelemetryMessage : Z := 400.
Fixpoint to_rune_start (s : string) : string :=
  match s with String c r => if is_cont c then to_rune_start r else s | "" => "" end.
Definition telemetryMessage (message : string) : string :=
  let message := shortenTelemetryPaths message in
  if slen message <=? maxTelemetryMessage then message
  else ellipsis +:+ to_rune_start (str_drop (Z.to_nat (slen message - (maxTelemetryMessage - slen ellipsis))) message).

Record telemetryFault := mkFault { flt_At : string; flt_Kind : FailureKind; flt_RunID : string; flt_Message : string }.
Record telemetryEvent := mkTelemetryEvent {
  te_Hostname : string;
  te_At : string;
  te_ClientVersion : string;
  te_Consecutive : Z;
  te_Faults : list telemetryFault;
  te_LastCrash : option LastCrash
}.

Section Telemetry.
Context {json : FailureJson}.
Variable rt : Runtime.

Definition fault_of (f : FailureEvent) : telemetryFault := mkFault (At f) (ev_Kind f) (ev_RunID f) (telemetryMessage (Message f)).
Definition rejected_fault (fetched : Z) : telemetryFault :=
  mkFault (format_rfc3339_nano fetched) FailureConfigRejected ""
    "remote configuration rejected; collection continues using the previous configuration or local defaults".
Definition installHealth (now : Z) (read_err : option string) (m : memory) : telemetryEvent * memory :=
  let '(record, m) := failureRecord rt read_err m in
  (mkTelemetryEvent (hostname rt) (format_rfc3339 now) (build_Version rt) (ConsecutiveFailures record)
     (map fault_of (Recent record) ++ match config_rejected rt with Some t => [rejected_fault t] | None => [] end)
     (fr_LastCrash record), m).

(** What the control plane made of it. *)
Inductive submitted := Accepted | TelemetryDisabled | NotDelivered.
Record report_env := mkReportEnv { report_revoked : bool; report_now : Z; report_read_err : option string; report_answer : submitted }.
Definition SubmitTelemetry (e : report_env) (m : memory) : option telemetryEvent * memory :=
  if report_revoked e || (TelemetryEndpoint rt =? "")%string || negb (rt_telemetry rt) || m_telemetryOff m then (None, m)
  else
    let '(event, m) := installHealth (report_now e) (report_read_err e) m in
    (Some event, match report_answer e with TelemetryDisabled => set_telemetryOff m | _ => m end).
End Telemetry.

(** ** What survives a disk that fails *)

(** Records are the same when they are written the same. *)
Definition same : relation FailureRecord := fun r r' => norm r = norm r'.
#[export] Instance same_equiv : Equivalence same.
Proof. split; [done|by intros x y|intros x y z; unfold same; congruence]. Qed.

Lemma rune_len_copied c r k : rune_len (String c r) = S k -> rune_len (String c (coerce_loop k r)) = S k.
Proof.
  unfold rune_len. destruct (byte_code c <? 128); [by intros [= <-]|].
  destruct r as [|c1 r]; [done|].
  destruct ((194 <=? byte_code c) && (byte_code c <=? 223)).
  { destruct (is_cont c1) eqn:E1; [|done]. intros [= <-]. cbn [coerce_loop]. by rewrite E1. }
  destruct r as [|c2 r]; [done|].
  destruct ((224 <=? byte_code c) && (byte_code c <=? 239)).
  { match goal with |- (if ?b then _ else _) = _ -> _ => destruct b eqn:E end; [|done]. intros [= <-]. cbn [coerce_loop]. by rewrite E. }
  destruct r as [|c3 r]; [done|].
  destruct ((240 <=? byte_code c) && (byte_code c <=? 244)); [|done].
  match goal with |- (if ?b then _ else _) = _ -> _ => destruct b eqn:E end; [|done]. intros [= <-]. cbn [coerce_loop]. by rewrite E.
Qed.
Lemma coerce_loop_valid s : forall skip, valid_loop skip (coerce_loop skip s) = true.
Proof.
  induction s as [|c r IH]; intros skip; [done|]. cbn [coerce_loop]. destruct skip as [|k]; [|by cbn; apply IH].
  destruct (rune_len (String c r)) as [|k] eqn:E; [apply (IH 0%nat)|].
  cbn [valid_loop]. rewrite (rune_len_copied c r k E). apply IH.
Qed.
Lemma coerce_idem s : coerce_utf8 (coerce_utf8 s) = coerce_utf8 s.
Proof. apply valid_coerce, (coerce_loop_valid s 0). Qed.
Lemma coerce_empty s : (coerce_utf8 s =? "")%string = (s =? "")%string.
Proof. destruct s as [|c r]; [done|]. cbn [coerce_utf8]. unfold coerce_utf8. cbn [coerce_loop]. by destruct (rune_len _). Qed.

Lemma norm_event_idem e : norm_event (norm_event e) = norm_event e.
Proof. unfold norm_event. cbn. by rewrite !coerce_idem. Qed.
Lemma norm_idem r : norm (norm r) = norm r.
Proof.
  unfold norm. cbn. f_equal.
  - destruct (fr_LastCrash r) as [c|]; [|done]. cbn. unfold norm_crash. cbn. by rewrite !coerce_idem.
  - rewrite map_map. apply map_ext, norm_event_idem.
Qed.
Lemma norm_same r : same (norm r) r.
Proof. apply norm_idem. Qed.

Lemma Counted_norm e : Counted (norm_event e) = Counted e.
Proof. unfold Counted, norm_event. cbn. by rewrite coerce_empty. Qed.
Lemma norm_Append e r : norm (Append e r) = Append (norm_event e) (norm r).
Proof.
  unfold Append, norm, set_Recent. cbn [Recent fr_LastCrash ConsecutiveFailures Facts]. f_equal. change [norm_event e] with (map norm_event [e]).
  rewrite <- map_app, length_map. destruct (_ <? _)%nat; [|done]. by rewrite skipn_map.
Qed.
Lemma stand_scan_norm e l : stand_scan (norm_event e) (map norm_event l) = map norm_event <$> stand_scan e l.
Proof.
  induction l as [|x l IH]; [done|]. cbn [map stand_scan]. change (Standing (norm_event x)) with (Standing x).
  destruct (Standing x); [|done]. cbn [norm_event ev_Kind]. destruct (bool_decide _); [done|]. rewrite IH. by destruct (stand_scan e l).
Qed.
Lemma norm_Stand e r : norm (Stand e r) = Stand (norm_event e) (norm r).
Proof.
  unfold Stand. change (Recent (norm r)) with (map norm_event (Recent r)).
  change (reverse (map norm_event (Recent r))) with (reverse (norm_event <$> Recent r)). rewrite <- fmap_reverse.
  change (norm_event <$> reverse (Recent r)) with (map norm_event (reverse (Recent r))). rewrite stand_scan_norm.
  destruct (stand_scan e _) as [l|]; cbn; [|apply norm_Append]. unfold norm, set_Recent. cbn. f_equal.
  change (map norm_event (reverse l)) with (norm_event <$> reverse l). by rewrite fmap_reverse.
Qed.

#[export] Instance Append_same e : Proper (same ==> same) (Append e).
Proof. intros r r' E. unfold same in *. by rewrite !norm_Append, E. Qed.
#[export] Instance Stand_same e : Proper (same ==> same) (Stand e).
Proof. intros r r' E. unfold same in *. by rewrite !norm_Stand, E. Qed.
#[export] Instance set_Facts_same f : Proper (same ==> same) (set_Facts f).
Proof. intros r r' [= E1 E2 E3 E4]. unfold same, norm, set_Facts. cbn. by rewrite E1, E2, E3. Qed.
#[export] Instance set_Consecutive_same n : Proper (same ==> same) (set_Consecutive n).
Proof. intros r r' [= E1 E2 E3 E4]. unfold same, norm, set_Consecutive. cbn. by rewrite E1, E2, E4. Qed.
#[export] Instance set_LastCrash_same c : Proper (same ==> same) (set_LastCrash c).
Proof. intros r r' [= E1 E2 E3 E4]. unfold same, norm, set_LastCrash. cbn. by rewrite E2, E3, E4. Qed.
Lemma same_Consecutive r r' : same r r' -> ConsecutiveFailures r = ConsecutiveFailures r'.
Proof. by intros [= ]. Qed.
#[export] Instance append_counted_same ev : Proper (same ==> same) (append_counted ev).
Proof.
  intros r r' E. unfold append_counted. assert (same (Append ev r) (Append ev r')) as H by (by rewrite E).
  destruct (Counted ev); [|done]. by rewrite (same_Consecutive _ _ H), H.
Qed.

Section Survives.
Context {json : FailureJson} {laws : FailureJsonLaws}.
Variable rt : Runtime.

#[export] Instance judge_mutation_same e err rep kind mem : Proper (same ==> same) (judge_mutation rt e err rep kind mem).
Proof.
  intros r r' E. unfold judge_mutation. destruct (judged_error err rep) as [x|]; [destruct (is_offline err rep)|];
    destruct (StoreCorrupt rep); by rewrite E.
Qed.
#[export] Instance stall_mutation_same n started e : Proper (same ==> same) (stall_mutation rt n started e).
Proof. intros r r' E. unfold stall_mutation. by rewrite E. Qed.

(** What one process does to its record: judgements, stalled ticks, and readings for a heartbeat or a report. *)
Inductive op :=
  | OpJudge (e : judge_env) (err : option error) (rep : Report) (kind : FailureKind) (mem : Delta)
  | OpStall (n started : Z) (e : stall_env)
  | OpBeat (e : beat_env) (rep : Report)
  | OpReport (e : report_env).
Definition run_op (m : memory) (o : op) : memory :=
  match o with
  | OpJudge e err rep kind mem => (judge rt e err rep kind mem m).2
  | OpStall n started e => (stall_fire rt n started e m).2
  | OpBeat e rep => (shipFailureHeartbeat rt e rep m).2
  | OpReport e => (SubmitTelemetry rt e m).2
  end.
(** What an operation does to a record that no disk stands behind. *)
Definition op_mutation (rec : FailureRecord) (o : op) : FailureRecord :=
  match o with
  | OpJudge e err rep kind mem => if Is err ErrLocked then rec else judge_mutation rt e err rep kind mem rec
  | OpStall n started e => stall_mutation rt n started e rec
  | OpBeat _ _ | OpReport _ => rec
  end.
(** No reading of the file fails; writings may. *)
Definition op_reads (o : op) : Prop :=
  match o with
  | OpJudge e _ _ _ _ => read_err (judge_faults e) = None /\ beat_read_err (judge_beat e) = None
  | OpStall _ _ e => read_err (stall_faults e) = None /\ beat_read_err (stall_beat e) = None
  | OpBeat e _ => beat_read_err e = None
  | OpReport e => report_read_err e = None
  end.
Definition small (file : option string) : Prop :=
  match file with Some raw => slen raw <= maxFailureBytes | None => True end.

Definition visible (m : memory) : FailureRecord := loadRecord None m.

Lemma failureRecord_visible m : visible (failureRecord rt None m).2 = visible m /\ m_file (failureRecord rt None m).2 = m_file m.
Proof. done. Qed.
Lemma ship_visible e rep m : beat_read_err e = None ->
  visible (shipFailureHeartbeat rt e rep m).2 = visible m /\ m_file (shipFailureHeartbeat rt e rep m).2 = m_file m.
Proof. intros He. unfold shipFailureHeartbeat. destruct (_ || _); [done|]. by rewrite He. Qed.
Lemma visible_lastRep rep m : visible (set_lastRep rep m) = visible m.
Proof. done. Qed.

Lemma persist_visible fs f m : read_err fs = None -> Proper (same ==> same) f -> small (m_file (persistRecord fs f m)) ->
  same (visible (persistRecord fs f m)) (f (visible m)).
Proof.
  intros Hr Hf Hs. unfold persistRecord in *. rewrite Hr in *. fold (visible m) in *.
  destruct (writeFailureRecord _ _ _) as [file|e] eqn:Ew; [|reflexivity].
  unfold writeFailureRecord in Ew. apply rbind_Ok in Ew as (body & Hb & Ew). destruct (write_err fs); [done|]. injection Ew as <-.
  cbn [set_rec set_file m_file small] in Hs. unfold visible at 1, loadRecord, readFailureRecord. cbn [set_rec set_file m_rec m_file].
  rewrite (proj2 (Z.ltb_ge _ _)) by done. rewrite (record_roundtrip _ _ Hb). apply norm_same.
Qed.

Lemma run_op_visible o m : op_reads o -> small (m_file (run_op m o)) -> same (visible (run_op m o)) (op_mutation (visible m) o).
Proof.
  intros Hr Hs. destruct o as [e err rep kind mem|n started e|e rep|e]; cbn [run_op op_mutation op_reads] in *.
  - destruct Hr as [H1 H2]. unfold judge in *. destruct (Is err ErrLocked); [done|].
    set (m1 := persistRecord _ _ m) in *.
    assert (forall m2, visible m2 = visible m1 -> m_file m2 = m_file m1 -> small (m_file m2) ->
      same (visible m2) (judge_mutation rt e err rep kind mem (visible m))) as Hpersist.
    { intros m2 -> Ef Hm. rewrite Ef in Hm. by apply persist_visible; [|apply _|]. }
    set (m2 := match judged_error err rep with None => set_lastRep rep m1 | Some _ => m1 end) in *.
    assert (visible m2 = visible m1 /\ m_file m2 = m_file m1) as [Hv Hfile] by (unfold m2; by destruct (judged_error err rep)).
    destruct (_ && _).
    + destruct (ship_visible (judge_beat e) rep m2 H2) as [Hv' Hf']. destruct (shipFailureHeartbeat _ _ _ m2) as [sent m3].
      cbn [snd] in *. apply Hpersist; congruence.
    + by apply Hpersist.
  - destruct Hr as [H1 H2]. unfold stall_fire in *. set (m1 := persistRecord _ _ m) in *.
    destruct (ship_visible (stall_beat e) (m_lastRep m1) m1 H2) as [-> Ef]. rewrite Ef in Hs. by apply persist_visible; [|apply _|].
  - by rewrite (proj1 (ship_visible e rep m Hr)).
  - unfold SubmitTelemetry in *. destruct (_ || _ || _ || _); [done|]. unfold installHealth, failureRecord in *. rewrite Hr in *.
    by destruct (report_answer e).
Qed.

Lemma ops_visible ops m :
  Forall op_reads ops -> (forall k, small (m_file (foldl run_op m (take k ops)))) ->
  same (visible (foldl run_op m ops)) (foldl op_mutation (visible m) ops).
Proof.
  intros Hr Hs. induction ops as [|o ops IH] using rev_ind; [reflexivity|].
  apply Forall_app in Hr as [Hr Ho]. inversion Ho as [|? ? Ho' _]; subst. rewrite !foldl_snoc.
  pose proof (Hs (length (ops ++ [o]))) as Hlast. rewrite firstn_all, foldl_snoc in Hlast.
  rewrite (run_op_visible o _ Ho' Hlast).
  assert (same (visible (foldl run_op m ops)) (foldl op_mutation (visible m) ops)) as Hbefore.
  { apply IH; [done|]. intros k. destruct (decide (k <= length ops)%nat).
    - specialize (Hs k). by rewrite take_app_le in Hs.
    - rewrite take_ge by lia. specialize (Hs (length ops)). by rewrite take_app_length in Hs. }
  destruct o as [e err rep kind mem|n started e|e rep|e]; cbn [op_mutation]; [destruct (Is err ErrLocked)|..]; by rewrite Hbefore.
Qed.

(** C40: Whatever writings of the record fail, what a heartbeat carries is what was judged: after any sequence of
    judgements, stalled ticks, heartbeats and reports of one process, the record is the one these would have made
    of it in memory alone, as JSON writes it, as long as nobody else writes the file and what is written stays
    below the bound it is read under ([other_writer_lost] is what happens otherwise). *)
Theorem record_survives ops m :
  Forall op_reads ops -> (forall k, small (m_file (foldl run_op m (take k ops)))) ->
  same (failureRecord rt None (foldl run_op m ops)).1 (set_LastCrash (rt_lastCrash rt) (foldl op_mutation (visible m) ops)).
Proof. intros Hr Hs. cbn [failureRecord fst]. apply set_LastCrash_same. by apply ops_visible. Qed.

(** *** The streak *)

Definition clean (o : op) : bool :=
  match o with
  | OpJudge _ err rep _ _ => negb (Is err ErrLocked) && match judged_error err rep with None => true | Some _ => false end
  | _ => false
  end.
Definition counted_op (o : op) : bool :=
  match o with
  | OpJudge e err rep kind _ =>
      negb (Is err ErrLocked) && negb (is_offline err rep) &&
      match judged_error err rep with Some f => Counted (event rt kind (Error f) (event_at e)) | None => false end
  | _ => false
  end.

Lemma Stand_Consecutive ev r : ConsecutiveFailures (Stand ev r) = ConsecutiveFailures r.
Proof. unfold Stand. by destruct (stand_scan _ _). Qed.
Lemma op_Consecutive o r : ConsecutiveFailures (op_mutation r o) =
  if clean o then 0 else ConsecutiveFailures r + (if counted_op o then 1 else 0).
Proof.
  destruct o as [e err rep kind mem|n started e|e rep|e]; cbn [op_mutation clean counted_op]; try lia.
  - destruct (Is err ErrLocked); [cbn; lia|]. unfold judge_mutation.
    destruct (judged_error err rep) as [f|]; [|by destruct (StoreCorrupt rep)]. cbn [negb andb].
    destruct (is_offline err rep); [rewrite Stand_Consecutive; destruct (StoreCorrupt rep); cbn; lia|].
    unfold append_counted. cbn [negb andb]. destruct (Counted _); destruct (StoreCorrupt rep); cbn; lia.
  - unfold stall_mutation. rewrite Stand_Consecutive. lia.
Qed.

(** What a heartbeat counts is the failed judgements since the last clean one. *)
Theorem heartbeat_streak before last_clean after m : let ops := before ++ last_clean :: after in
  Forall op_reads ops -> (forall k, small (m_file (foldl run_op m (take k ops)))) ->
  clean last_clean = true -> Forall (fun o => clean o = false) after ->
  ConsecutiveFailures (failureRecord rt None (foldl run_op m ops)).1 = Zlen (List.filter counted_op after).
Proof.
  intros ops Hr Hs Hc Ha. cbn [failureRecord fst]. fold (visible (foldl run_op m ops)).
  cbn [set_LastCrash ConsecutiveFailures]. rewrite (same_Consecutive _ _ (ops_visible ops m Hr Hs)). subst ops. clear Hr Hs.
  rewrite foldl_app. cbn [foldl]. set (r := op_mutation _ last_clean).
  assert (ConsecutiveFailures r = 0) as H0 by (unfold r; by rewrite op_Consecutive, Hc).
  cut (forall r, ConsecutiveFailures (foldl op_mutation r after) = ConsecutiveFailures r + Zlen (List.filter counted_op after)).
  { intros H. rewrite H, H0. lia. }
  clear r H0. induction Ha as [|o after Ho Ha IH]; intros r; [cbn; unfold Zlen; cbn; lia|]. cbn [foldl List.filter].
  rewrite IH, op_Consecutive, Ho. destruct (counted_op o); [|lia]. rewrite Zlen_cons. lia.
Qed.

(** *** The copy in memory and other writers *)

(** A record that was read for a heartbeat or a report is written over whatever others wrote since. *)
Lemma cached_overwrites rec file fs f m : m_rec m = Some rec -> is_ok (writeFailureRecord (write_err fs) (f rec) file) = true ->
  m_file (persistRecord fs f (set_file file m)) = m_file (persistRecord fs f m) /\
  exists body, Marshal_failures (f rec) = Ok body /\ m_file (persistRecord fs f m) = Some body.
Proof.
  intros Hm Hw. unfold persistRecord, loadRecord. cbn [set_file m_rec m_file]. rewrite Hm. unfold writeFailureRecord in *.
  destruct (Marshal_failures (f rec)) as [body|]; [|done]. cbn in *. destruct (write_err fs); [done|]. split; [done|by exists body].
Qed.
(** A record that was dropped is read again, with what others wrote. *)
Lemma dropped_merges fs f m : m_rec m = None -> write_err fs = None ->
  match Marshal_failures (f (readFailureRecord (read_err fs) (m_file m))) with
  | Ok body => m_file (persistRecord fs f m) = Some body
  | Err _ => m_file (persistRecord fs f m) = m_file m
  end.
Proof.
  intros Hm Hw. unfold persistRecord, loadRecord, writeFailureRecord. rewrite Hm, Hw. by destruct (Marshal_failures _).
Qed.
End Survives.

(** ** What goes out *)

Lemma to_rune_start_suffix s : exists p, s = p +:+ to_rune_start s.
Proof.
  induction s as [|c r IH]; [by exists ""|]. cbn [to_rune_start]. destruct (is_cont c); [|by exists ""].
  destruct IH as [p E]. exists (String c p). cbn. by rewrite <- E.
Qed.
(** The text of a fault is bounded, and cut only at its front. *)
Theorem telemetryMessage_bounded message : slen (telemetryMessage message) <= maxTelemetryMessage /\
  exists p q, shortenTelemetryPaths message = p +:+ q /\ (telemetryMessage message = q \/ telemetryMessage message = ellipsis +:+ q).
Proof.
  unfold telemetryMessage. set (s := shortenTelemetryPaths message). destruct (Z.leb_spec (slen s) maxTelemetryMessage) as [H|H].
  - split; [done|]. exists "", s. by split; [|left].
  - set (n := Z.to_nat _). destruct (to_rune_start_suffix (str_drop n s)) as [p E].
    assert (s = str_take n s +:+ str_drop n s) as Es by apply str_take_drop. split.
    + assert (slen (str_drop n s) = maxTelemetryMessage - slen ellipsis) as Hd.
      { pose proof (length_str_drop n s) as Hl. unfold slen in *. unfold n in *. change (Z.of_nat (String.length ellipsis)) with 3 in *.
        unfold maxTelemetryMessage in *. lia. }
      rewrite slen_app. rewrite E in Hd. rewrite slen_app in Hd. pose proof (Zle_0_nat (String.length p)). unfold slen in *. lia.
    + exists (str_take n s +:+ p), (to_rune_start (str_drop n s)). split; [|by right]. by rewrite string_app_assoc, <- E.
Qed.

(** Every source of the report has its health, and its counts are of files it saw. *)
Theorem Build_counts i sh : In sh (hb_Sources (Build i)) ->
  exists s, In s (Sources (in_Report i)) /\ sh = source_health (in_Now i) s /\
    sh_Shipped sh + sh_Unchanged sh + sh_Parked sh + sh_Failed sh <= FilesSeen sh /\
    (LastCollectedAt sh = "" \/ 0 < sh_Shipped sh).
Proof.
  cbn [Build hb_Sources]. intros (s & <- & Hs)%in_map_iff. exists s. split_and!; [done|done| |].
  - cbn [source_health sh_Shipped sh_Unchanged sh_Parked sh_Failed FilesSeen]. induction (Files s) as [|f l IH]; [done|].
    unfold decided in *. cbn [List.filter]. rewrite Zlen_cons.
    repeat case_bool_decide; rewrite ?Zlen_cons; first [lia|congruence].
  - cbn [source_health sh_Shipped LastCollectedAt]. destruct (Z.ltb_spec 0 (decided DecisionShipped (Files s))); auto.
Qed.

(** ** A daemon and a self-update *)

Module SampleJudge.

(** A record as a list of fields; what would not read back is refused. *)
Definition kinds : list (string * FailureKind) :=
  [("tick", FailureTick); ("panic", FailurePanic); ("store_corrupt", FailureStoreCorrupt);
   ("config_rejected", FailureConfigRejected); ("init", FailureInit); ("update", FailureUpdate);
   ("shutdown", FailureShutdown); ("crash", FailureCrash); ("stalled", FailureStalled); ("offline", FailureOffline)].
Definition kind_name (k : FailureKind) : string :=
  match List.find (fun p => bool_decide (p.2 = k)) kinds with Some p => p.1 | None => "" end.
Definition kind_of (s : string) : option FailureKind := snd <$> List.find (fun p => (p.1 =? s)%string) kinds.
Definition number (s : string) : Z := foldl (fun n c => n * 10 + (byte_code c - 48)) 0 (list_ascii_of_string s).

Definition facts_fields (f : RunFacts) : list string :=
  map int_text [GOMAXPROCS f; rf_MaxFilesPerRun f; rf_MaxInFlightBytes f; SoftLimitBytes f; HeapInuseBytes f;
                SysBytes f; GCCycles f; rf_SlowestScrubNanos f; rf_SlowestScrubBytes f].
Definition event_fields (e : FailureEvent) : list string := [At e; kind_name (ev_Kind e); ev_RunID e; Message e].
Definition fields (r : FailureRecord) : list string :=
  match fr_LastCrash r with Some c => ["crash"; lc_RunID c; Phase c; int_text (Consecutive c)] | None => ["-"] end ++
  int_text (ConsecutiveFailures r) ::
  match Facts r with Some f => "facts" :: facts_fields f | None => ["-"] end ++ flat_map event_fields (Recent r).

Fixpoint events_of (l : list string) : option (list FailureEvent) :=
  match l with
  | [] => Some []
  | at_ :: k :: run :: message :: l =>
      kind ← kind_of k; rest ← events_of l; Some (mkFailureEvent at_ kind run message :: rest)
  | _ => None
  end.
Definition facts_of (l : list string) : option (option RunFacts * list string) :=
  match l with
  | "facts" :: l =>
      match map number (take 9 l) with
      | [a; b; c; d; e; f; g; h; i] => Some (Some (mkRunFacts a b c d e f g h i), drop 9 l)
      | _ => None
      end
  | _ :: l => Some (None, l)
  | [] => None
  end.
Definition crash_of (l : list string) : option (option LastCrash * list string) :=
  match l with
  | "crash" :: run :: phase :: n :: l => Some (Some (mkLastCrash run phase (number n)), l)
  | _ :: l => Some (None, l)
  | [] => None
  end.
Definition parse (raw : string) : option FailureRecord :=
  '(crash, l) ← crash_of (split_on "000" raw);
  match l with
  | n :: l =>
      '(facts, l) ← facts_of l;
      recent ← events_of l;
      Some (mkFailureRecord crash recent (number n) facts)
  | [] => None
  end.

#[local] Instance record_eq_dec : EqDecision FailureRecord.
Proof.
  assert (EqDecision LastCrash) by solve_decision. assert (EqDecision FailureEvent) by solve_decision.
  assert (EqDecision RunFacts) by solve_decision. solve_decision.
Defined.

#[export] Instance json : FailureJson := {|
  Marshal_failures r :=
    let s := join (String "000" "") (fields r) in
    if bool_decide (parse s = Some (norm r)) then Ok s else Err "not text";
  Unmarshal_failures := parse
|}.
#[export] Instance json_laws : FailureJsonLaws.
Proof. intros r s. cbn. case_bool_decide; [|done]. by intros [= <-]. Qed.

Definition rt : Runtime :=
  mkRuntime "/home/ann/.state" 512 "run-7" None true (Some "ann") 8 1000 2000 true "/v1/telemetry" "ann-laptop" "1.4.0" None.
Definition idle (shipped failed : Z) : Report :=
  mkReport 0 0 [] shipped 0 0 0 failed false 0 0 0 0 0 false "" false 5 6.
Definition cost : Delta := mkDelta (mkSample 10 20 3) (mkSample 30 40 5).
Definition quiet_env (now : Z) (f : faults) : judge_env := mkJudgeEnv now now f (mkBeatEnv false None).
Definition disk_full : faults := mkFaults None (Some "no space left on device").
Definition start : memory := mkMemory None None (idle 0 0) false.

Definition clean_tick (now : Z) : op := OpJudge (quiet_env now calm) None (idle 3 0) FailureTick cost.
Definition failed_tick (now : Z) (f : faults) : op :=
  OpJudge (quiet_env now f) (Some (errors_New "lock file is on a read-only disk")) (idle 0 0) FailureTick cost.
Definition report : op := OpReport (mkReportEnv false 9 None Accepted).

(** A full disk, then one with room again. *)
Definition bad_day : list op := [failed_tick 60 disk_full; failed_tick 120 disk_full; report; failed_tick 180 calm].
Definition after_ops (ops : list op) (m : memory) : memory := foldl (run_op rt) m ops.

Example three_on_record :
  m_file (after_ops (take 3 bad_day) start) = None /\
  ConsecutiveFailures (readFailureRecord None (m_file (after_ops bad_day start))) = 3 /\
  m_rec (after_ops bad_day start) <> None.
Proof. split; [by vm_compute|]. split; by vm_compute. Qed.

Lemma bad_day_small k : small (m_file (after_ops (take k bad_day) start)).
Proof.
  destruct (decide (4 <= k)%nat) as [Hk|Hk]; [rewrite take_ge by (cbn; lia)|]; [by vm_compute|].
  destruct k as [|[|[|[|k]]]]; [by vm_compute..|lia].
Qed.

Lemma record_survives_witness :
  ConsecutiveFailures (failureRecord rt None (after_ops bad_day start)).1 = 3 /\
  same (failureRecord rt None (after_ops bad_day start)).1
    (set_LastCrash None (foldl (op_mutation rt) (visible start) bad_day)).
Proof.
  split; [by vm_compute|]. apply (record_survives rt bad_day start); [|exact bad_day_small].
  repeat constructor.
Defined.

(** A self-update that fails in another process, while the daemon is between two clean ticks. *)
Definition updater : verb_env := mkVerbEnv (Some "/home/ann/.state") true (Some "ann") 90 calm.
Definition update_failed (m : memory) : memory :=
  set_file (RecordUpdateFailure updater "release not signed" (m_file m)) m.
Definition on_record (k : FailureKind) (m : memory) : bool :=
  existsb (fun e => bool_decide (ev_Kind e = k)) (Recent (readFailureRecord None (m_file m))).

(** What another process records is kept by the next judgement when no report was made since the last one,
    and is lost when one was: the report leaves the daemon its copy of the record, which is written over
    the file. *)
Theorem other_writer_lost :
  let between ops := update_failed (after_ops (clean_tick 60 :: ops) start) in
  let next m := run_op rt m (clean_tick 960) in
  on_record FailureUpdate (between []) = true /\ on_record FailureUpdate (next (between [])) = true /\
  on_record FailureUpdate (between [report]) = true /\ on_record FailureUpdate (next (between [report])) = false.
Proof. by vm_compute. Qed.
End SampleJudge.
